(* ===== verification/_CoqProject ===== *)
-Q . S2P
Prelude.v
Errors.v
Cancel.v
Tensor.v
Identity.v
Order.v
Limits.v
Representation.v
Quantization.v
Strides.v
Facts.v
Operation.v
Kernels.v
InferSpecs.v
Semantics.v
KernelSpecs.v
Simd.v
FastPaths.v
FastPathSpecs.v
SimdSpecs.v
Graph.v
GraphSpecs.v
Liveness.v
LivenessSpecs.v
Cast.v
FileReader.v
Inventory.v
Gguf.v
ReaderSpecs.v
GgufSpecs.v
Json.v
Safetensors.v
Recipe.v
Plan.v
Planner.v
PlannerSpecs.v
PlannerBuild.v
Overlay.v
OverlaySpecs.v
Checkpoint.v
CheckpointSpecs.v
LocalIndex.v
DigestSpecs.v
FileSystem.v
Cache.v
CacheNames.v
Interference.v
CacheSpecs.v
CachePublish.v
CacheService.v
CachePool.v
CacheCalm.v
CacheSolo.v
Prepare.v
Exec.v
NodeSpecs.v
CastSpecs.v
ExecSpecs.v
Pipeline.v
PipelineRun.v
PipelineSpecs.v
PipelineOrder.v
PipelineProgress.v
PipelineDelivery.v
Work.v
Materialize.v
MaterializeSpecs.v
MaterializeRun.v
MaterializeInputs.v
BaseTheorems.v
OperationTheorems.v
PrepareTheorems.v
GraphTheorems.v
PipelineTheorems.v
ContainerTheorems.v
CheckpointTheorems.v
OverlayTheorems.v
PlannerTheorems.v
CacheTheorems.v
MaterializeTheorems.v
