(* ===== verification/Prelude.v ===== *)
(** * Verification of the [model-weights] crate

    The crate turns checkpoint tensors into the byte buffers a model runtime
    expects. Its core is a typed graph of tensor operations: facts describe a
    tensor's shape, strides and representation; inference computes the facts of
    every output before storage exists; a host executor runs the graph over
    shared byte views; a liveness schedule accounts for scratch memory; and a
    registry of preparation providers changes representations. The bytes come
    from checkpoints: files of two container formats (GGUF and Safetensors) are
    parsed into an inventory of tensors whose spans are read or mapped. A
    pipeline delivers prepared tensors under memory budgets. Prepared tensors
    are kept in a directory of content-addressed files that several processes
    may share. A materializer joins these parts: it checks a plan against an
    opened checkpoint and delivers each target, from the cache or from its
    source, directly or through the pipeline. Names below are relative to
    [crates/model-weights/src/].

    ** Files and the source they model

    - [Prelude]: machine integers, list and option lemmas, tactics.
    - [Errors] ([error.rs]): categories and the outcome of a call, [Ok], [Err]
      or [Panic] (an index out of range or an unchecked subtraction).
    - [Cancel] ([cancel.rs]): the environment of a call and its monad.
    - [Tensor] ([tensor.rs]), [Identity] ([identity.rs]), [Limits]
      ([limits.rs]): value types with their checked constructors and wire
      forms.
    - [Representation] ([prepare.rs], [plan.rs]): layouts, representations,
      transforms, prepare requests, tensor names.
    - [Strides], [Facts] ([operation.rs]): element counts, strides, the two
      stride validators, [TensorFacts] and its invariant [facts_wf].
    - [Operation] ([operation.rs]): the seven operations and [infer_outputs].
    - [Kernels], [FastPaths] ([operation.rs]), [Simd] ([operation_simd.rs]):
      the element-wise kernels, the contiguous concatenation, the OIHW to OHWI
      repack and its vector kernel.
    - [Graph], [Liveness], [Exec] ([operation.rs]): builder, wire form and
      alias analysis; the schedule and [estimate_host_scratch_bytes];
      [execute_host_inner] and every [execute_*_node].
    - [Cast], [Prepare] ([prepare.rs]): float casts; registry, engine and the
      built-in contiguous provider.
    - [Pipeline], [PipelineRun] ([pipeline.rs]): weights, budgets, permits and
      deferred acquisition as functions; dispatcher, workers, coordinator and
      channels as a step relation.
    - [Quantization] ([quantization.rs]): packing, grouping and companions of
      encoded tensors, their builder and wire forms, route capabilities.
    - [Inventory] ([inventory.rs], [source.rs]): repository paths, file and
      tensor records, the validated inventory.
    - [FileReader], [Gguf] ([gguf.rs]): the buffered reader over positional
      reads, metadata, the tensor table and its layout.
    - [Json] ([checkpoint.rs], [inventory.rs]): the visitors of Safetensors
      headers and of shard indexes.
    - [Safetensors] ([checkpoint.rs]): dtypes of headers and
      [validate_tensor_entries].
    - [Checkpoint] ([checkpoint.rs], [source.rs]): source descriptors,
      [OpenFile], opening, plain and mapped reads, digests and snapshots.
    - [LocalIndex] ([checkpoint.rs]): opening by path, [read_bounded_file] and
      the shards of a local index.
    - [Recipe], [Plan], [Planner] ([plan.rs]): conversion recipes and source
      tensors; the targets of a contract with their builder; the planner, which
      matches sources to targets, reports diagnostics, and builds and reads the
      canonical plan.
    - [Overlay] ([overlay.rs]): alias tables, overlay operations and layers,
      the ordered plan and the digest of one target.
    - [FileSystem] ([cache.rs]): the calls the cache makes of the operating
      system as the actions of a program ([Prog]), and a store of files,
      directories, handles and locks in which each action is one step.
    - [Cache] ([cache.rs]): keys and their digest, the envelope of an entry,
      lookups with validation, publication, invalidation, eviction and the
      sweep of abandoned files, each as a program of the file system.
    - [Work], [Materialize] ([materialize.rs]): the requests a materialization
      makes, as a tree with two readings, a program of the file system and a
      callback of the pipeline; [Materializer::new], the addresses of prepared
      bindings and of plans, the routes of a binding ([materialize_plain],
      [materialize_conversion], [materialize_operation_graph],
      [materialize_quantized], overlays), publication and [execute].

    [Semantics] is the abstract specification: a tensor is a function from
    coordinates to the bytes of a scalar, [represents] relates it to a buffer
    under given facts, and the [sem_] functions are the meaning of the
    operations. The files [InferSpecs], [KernelSpecs], [FastPathSpecs],
    [SimdSpecs], [GraphSpecs], [LivenessSpecs], [CastSpecs] (with
    the preparations), [NodeSpecs] and [ExecSpecs] hold the lemmas of the
    component they are named after; [PipelineSpecs] (budgets), [PipelineOrder]
    (places of items), [PipelineProgress] (with termination) and
    [PipelineDelivery] (with admission, and what may be delivered) those of the
    pipeline. [Order] holds the
    orders that sorting uses. For containers, [ReaderSpecs] is the contract of
    the reader and a small language of formats ([parses r fmt] says that a
    reader accepts exactly the encodings of [fmt]), and [GgufSpecs] builds from
    it the specification [container_ok] of a GGUF file. [CheckpointSpecs],
    [DigestSpecs] (with the round trip of a file) and [OverlaySpecs] are about
    the component they name; the lemmas on quantized storage and inventories
    follow their definitions. Of the planner,
    [PlannerSpecs] is about the matching of sources and the diagnostics,
    [PlannerBuild] about the plan and its text. Of the cache, [CacheNames] is
    about the names of its files; [Interference] is a logic of programs whose
    steps alternate with arbitrary steps of others that keep a guarantee;
    [CacheSpecs] and [CachePublish] give each operation its guarantee and its
    reply in that logic; [CacheService] names the calls of a client and
    [CachePool] runs any number of processes that make such calls, start and
    crash; [CacheCalm] is a logic of total correctness for a store that nobody
    else changes, and [CacheSolo] proves a publication in it. Of
    materialization, [MaterializeSpecs] says what a delivery has to be and
    proves it of every value a materialization may return, in the logic of
    [Work] ([sat], [yields]); [MaterializeRun] is about the items and callbacks
    of a run, [MaterializeInputs] about plans, addresses and entries that nobody
    disturbs. The properties are in [BaseTheorems], [OperationTheorems],
    [PrepareTheorems], [GraphTheorems], [PipelineTheorems],
    [ContainerTheorems], [CheckpointTheorems], [OverlayTheorems],
    [PlannerTheorems], [CacheTheorems] and [MaterializeTheorems], each with an
    instance on a concrete input.

    ** State and effects

    A fallible pure function returns [result A]; a function that reads the
    cancellation flag, reserves memory or boxes a buffer is a computation of
    [M A], which threads the number of interactions so far through an
    environment [Env] that answers each of them. [succeeds m Q] says that in
    every environment the call returns a value of [Q] unless the environment
    cancelled it or refused memory: it never panics, never reports another
    error, and in a quiet environment it returns ([succeeds_quiet]).
    [fails m e] is the same for an error. Mutable output buffers are state
    passed through the loops; shared views are an owner and a range, and an
    address, since the engine and the executor compare views by address and
    length.

    ** What the theorems show

    - Execution: [execute_host_refines] is the refinement of the whole
      executor to the abstract meaning of the graph, proved for any engine of
      the class [Prepares]; [execute_host_builtin] discharges that class with
      the engine of built-in providers ([builtin_engine_prepares]).
      [execute_host_zero_copy] and [execute_host_peak] tie the run to the two
      static analyses. [estimate_not_a_bound] shows that the static estimate
      can lie below the reported peak when a preparation returns its input.
    - Kernels: each kernel stores the meaning of its operation and keeps the
      bytes no element occupies; each fast path builds the bytes of the
      element-wise kernel, the vector kernel those of the scalar one.
    - Facts and inference: accepted facts place elements inside the buffer
      without overlap; inference preserves well-formedness and never panics.
    - Graphs and liveness: builder and deserializer return well-formed graphs,
      which survive serialization; the alias walk and the accounting run to
      the end; reference counts are exact.
    - Preparation: the engine returns buffers of the expected size whatever a
      provider does; both casts and both allocation routes agree; chains
      compose.
    - Pipeline: budgets and window are exact and bounded in every reachable
      state; items are delivered in order, each once; no run is infinite and
      none gets stuck but on deferred resources; a run in which nothing fails
      delivers everything.
    - Containers: a GGUF file is accepted exactly when it starts with an
      encoded header whose tensors lie aligned, inside the file and apart, and
      the result is what was encoded ([parse_sound], [parse_complete]); the
      bytes of an accepted Safetensors file belong to exactly one tensor each
      ([safetensors_sound]); the reader is exact however short reads are.
    - Checkpoints: an encoded file opens and reads back
      ([safetensors_roundtrip]); opening keeps the invariant [checkpoint_ok]
      and never panics; reads and mappings show the same bytes; shard indexes
      are matched exactly, and local shards stay below their directory;
      digests are those of the bytes, and equal snapshots mean equal files or
      a collision of SHA-256.
    - Planner: the diagnostics of a contract are exactly the conditions a
      reader would write ([analyze_exact]), a plan is built exactly when there
      are none ([build_exact]), its bindings are sound ([plan_sound]), and its
      text reads back ([plan_json_roundtrip]).
    - Overlays: aliases resolve to the end of their chain in every accepted
      table ([alias_resolution]); a plan collects the operations of its layers
      in order ([overlay_plan_exact]), reads back, and equal digests of two
      targets mean equal inputs or a collision.
    - Cache: equal digests of keys mean equal keys or a collision
      ([cache_key_identifies]). In every state that processes sharing a cache
      directory can reach, crashes included, a file under the name of an entry
      is a complete entry of that key ([entries_never_torn]), and what a call
      returns under full validation is the payload of such an entry, whatever
      the others do meanwhile ([replies_survive_interference]). A lookup that
      trusts metadata may return bytes of another file
      ([trusted_lookup_may_tear]). Undisturbed, a publication ends, and a
      lookup then returns what was published ([publication_is_found]).
    - Materialization: whatever the cache, the file system, the environment
      and the threads do, what a run delivers is, binding by binding in order,
      what the contract asks for ([execute_delivers_bindings], with [delivered]
      as the contract); without a cache, what a binding reserves is enough for
      it, so a run completes ([execute_completes]); with one, a run can wait for
      good ([cold_cache_deadlock]). A materializer is made exactly for a plan of
      its checkpoint ([materializer_new_exact]); addresses identify what they
      are for ([prepared_address_identifies]); published plans and bytes are
      found again ([plan_cache_roundtrip], [published_bytes_delivered]).
    - Values: domain separation of digests, text and wire round trips, grammar
      of names, exact bounds of lengths and spans, slices of views.

    ** Bounds and fuel

    Unsigned integers are numbers of [N] with the source's checked operations;
    [usize] has 64 bits, and a buffer has at most [isize_MAX] bytes. Loops over
    ranges and lists are structural. Running out of fuel is a panic or an
    unfinished buffer, which the specifications exclude: the loops over blocks
    of a buffer ([append_tiles], [channel_blocks], [zero_fill],
    [vector_blocks], [channel_chunks]) have more rounds than there are blocks,
    and [chunks] one for every byte; the alias walk has
    one round more than there are nodes ([output_input_alias_terminates]); the
    loops that read a file ([read_exact_loop], [read_into], [bounded_loop])
    have a round for every byte, since a round that goes on has read one; the
    digest loop has [digest_fuel] rounds, one for each block and one more. The
    nesting of GGUF arrays is bounded by the source's own limit. An alias
    chain ([alias_fuel]) has more rounds than the table has aliases, and an
    accepted table has no cycle. Two loops of the cache have no bound in
    the source: a removal that the system interrupts, and the wait for a lease
    that others hold. These, and the loops over the blocks of a file, stop after
    [rounds] rounds with [Running], a program that has not replied yet, so what
    is proved of replies holds for any [rounds]; [publication_is_found] says how
    many are enough. The loop that reads an entry ([read_entry_loop]) has a
    round for every byte, and a round that goes on has read one. [graph_fits]
    says that the byte and use counters of the accounting fit 64 bits, and
    [graph_runnable] that nodes pin the built-in implementations, that
    preparations are supported and that sizes are allocatable.

    ** Parameters

    SHA-256 ([sha2]), the half-precision conversions ([half]) and the providers
    a caller registers are parameters. The vector intrinsics follow their
    documented effect on lanes. The operating system is a parameter: an open
    file is its bytes, a function that answers positional reads ([file_ok] says
    what such a read may return), metadata that may change from one call to the
    next, and the mapping the system gives ([file_wf], [handle_ok]); a file
    system opens and resolves paths. [serde_json] is a function from texts to
    trees of values, in which unreadable places are marked, and a writer from
    values to bytes ([write_json]); in the planner the allocator answers
    whether the list of one target's bindings can grow ([reserves]). In the
    cache, the file system answers each action by its rules or with an error it
    may choose ([Oracle]); the encoding of envelopes is a parameter with a
    codec law, which [CacheTheorems.Model] gives an instance of. In a run of a
    materializer, every use of the cache is answered by any value the program
    may return ([possible]) or by an error, each callback has an environment of
    its own and finds the checkpoint with any mappings and digests kept so far
    ([same_checkpoint]); the texts of targets and sources are a parameter, which
    tells values apart ([json_texts]).

    ** Not modelled

    Error messages and execution observers, which carry no data back;
    [telemetry.rs] holds their counters and events. Of [materialize.rs] the
    events and the chain of transforms that reports them are left out
    ([prepare_chain_with_operation_telemetry] makes the same calls as the
    engine's own chain), and the search of a sorted list by name is a search of
    the list. A panic inside an operation that runs under resources ends its
    callback with an integrity error. Of [pipeline.rs]
    the report, panicking callbacks and poisoned locks are left out; of
    [checkpoint.rs] the wait for a digest lock held by another call, its
    poisoning, and the caches that a call leaves behind when it fails part of
    the way; of [cache.rs] the Windows build, symbolic links below the cache
    directory, loss of power (a crash ends a process, not the machine), the
    reuse of process numbers, and the interruption of a directory listing or of
    one [read_to_end], which are single steps. *)

From stdpp Require Export base tactics list numbers option.
From stdpp Require Export fin_maps gmap strings sorting.
From Stdlib Require Export Lia.

Local Open Scope N_scope.

(** ** Machine integers *)

Definition u8_MAX : N := 2 ^ 8 - 1.
Definition u32_MAX : N := 2 ^ 32 - 1.
Definition u64_MAX : N := 2 ^ 64 - 1.
(** The targets the crate is built for have 64-bit pointers. *)
Definition usize_MAX : N := u64_MAX.
Definition isize_MAX : N := 2 ^ 63 - 1.

Definition checked_add (a b : N) : option N :=
  if a + b <=? u64_MAX then Some (a + b) else None.
Definition checked_mul (a b : N) : option N :=
  if a * b <=? u64_MAX then Some (a * b) else None.
Definition checked_sub (a b : N) : option N :=
  if b <=? a then Some (a - b) else None.
Definition saturating_add (a b : N) : N := N.min (a + b) u64_MAX.
Definition saturating_mul (a b : N) : N := N.min (a * b) u64_MAX.
Definition saturating_sub (a b : N) : N := a - b.

(** ** Sums and products *)

Definition sumN (l : list N) : N := foldr N.add 0 l.
Definition prodN (l : list N) : N := foldr N.mul 1 l.

(** The pairwise products of two lists, cut at the shorter one. *)
Definition dotN (xs ys : list N) : N := sumN (zip_with N.mul xs ys).

#[global] Arguments sumN : simpl never.
#[global] Arguments prodN : simpl never.
#[global] Arguments dotN : simpl never.
#[global] Arguments checked_add : simpl never.
#[global] Arguments checked_mul : simpl never.
#[global] Arguments checked_sub : simpl never.

(** ** Boolean tests *)

Ltac destruct_test H :=
  match type of H with
  | context [ if ?b then _ else _ ] =>
      let E := fresh "Etest" in destruct b eqn:E
  end.

(** Turns every boolean comparison of the context into a proposition. *)
Ltac bool_to_prop :=
  repeat match goal with
  | H : (_ <=? _) = true |- _ => apply N.leb_le in H
  | H : (_ <=? _) = false |- _ => apply N.leb_gt in H
  | H : (_ <? _) = true |- _ => apply N.ltb_lt in H
  | H : (_ <? _) = false |- _ => apply N.ltb_ge in H
  | H : (_ =? _) = true |- _ => apply N.eqb_eq in H
  | H : (_ =? _) = false |- _ => apply N.eqb_neq in H
  | H : bool_decide _ = true |- _ => apply bool_decide_eq_true_1 in H
  | H : bool_decide _ = false |- _ => apply bool_decide_eq_false_1 in H
  | H : negb _ = true |- _ => apply negb_true_iff in H
  | H : negb _ = false |- _ => apply negb_false_iff in H
  | H : _ && _ = true |- _ => apply andb_true_iff in H; destruct H
  | H : _ || _ = false |- _ => apply orb_false_iff in H; destruct H
  end.

Create HintDb weights.
Create Rewrite HintDb weights.

(** ** Checked arithmetic *)

Lemma checked_add_Some a b r :
  checked_add a b = Some r <-> r = a + b /\ a + b <= u64_MAX.
Proof.
  unfold checked_add. destruct (a + b <=? u64_MAX) eqn:E; bool_to_prop.
  - split; [intros [= <-]; auto | intros [-> _]; auto].
  - split; [discriminate | lia].
Qed.

Lemma checked_mul_Some a b r :
  checked_mul a b = Some r <-> r = a * b /\ a * b <= u64_MAX.
Proof.
  unfold checked_mul. destruct (a * b <=? u64_MAX) eqn:E; bool_to_prop.
  - split; [intros [= <-]; auto | intros [-> _]; auto].
  - split; [discriminate | lia].
Qed.

Lemma checked_sub_Some a b r :
  checked_sub a b = Some r <-> b <= a /\ r = a - b.
Proof.
  unfold checked_sub. destruct (b <=? a) eqn:E; bool_to_prop.
  - split; [intros [= <-]; auto | intros [_ ->]; auto].
  - split; [discriminate | lia].
Qed.

Lemma checked_add_ok a b : a + b <= u64_MAX -> checked_add a b = Some (a + b).
Proof. intros; by apply checked_add_Some. Qed.
Lemma checked_mul_ok a b : a * b <= u64_MAX -> checked_mul a b = Some (a * b).
Proof. intros; by apply checked_mul_Some. Qed.
Lemma checked_sub_ok a b : b <= a -> checked_sub a b = Some (a - b).
Proof. intros; by apply checked_sub_Some. Qed.

(** ** Sums and products *)

Lemma sumN_cons x l : sumN (x :: l) = x + sumN l.
Proof. reflexivity. Qed.
Lemma prodN_cons x l : prodN (x :: l) = x * prodN l.
Proof. reflexivity. Qed.

Lemma sumN_app l k : sumN (l ++ k) = sumN l + sumN k.
Proof. induction l as [|x l IH]; csimpl; rewrite ?sumN_cons; [done|]. rewrite IH. lia. Qed.
Lemma prodN_app l k : prodN (l ++ k) = prodN l * prodN k.
Proof.
  induction l as [|x l IH]; csimpl; rewrite ?prodN_cons; [by rewrite N.mul_1_l|].
  rewrite IH. lia.
Qed.

Lemma sumN_Permutation l k : Permutation l k -> sumN l = sumN k.
Proof. induction 1; rewrite ?sumN_cons; lia. Qed.
Lemma prodN_Permutation l k : Permutation l k -> prodN l = prodN k.
Proof. induction 1; rewrite ?prodN_cons; [done|congruence|lia|congruence]. Qed.

Lemma prodN_zero l : prodN l = 0 <-> 0 ∈ l.
Proof.
  induction l as [|x l IH].
  - split; [done | by intros H%elem_of_nil].
  - rewrite prodN_cons, elem_of_cons, <-IH. rewrite N.mul_eq_0. naive_solver.
Qed.

Lemma prodN_pos l : prodN l <> 0 <-> Forall (fun d => d <> 0) l.
Proof.
  rewrite prodN_zero, Forall_forall. split.
  - intros H x Hx ->. done.
  - intros H Hz. by apply (H 0).
Qed.

Lemma prodN_elem_of x l : x ∈ l -> prodN l <> 0 -> x <= prodN l.
Proof.
  induction 1 as [x l|x y l _ IH]; rewrite prodN_cons; intros H;
    assert (prodN l <> 0) as Hl by (intros E; by rewrite E, N.mul_0_r in H).
  - nia.
  - assert (y <> 0) by (intros ->; done). specialize (IH Hl). nia.
Qed.

Lemma sumN_elem_of x l : x ∈ l -> x <= sumN l.
Proof. induction 1; rewrite sumN_cons; lia. Qed.

Lemma dotN_cons x xs y ys : dotN (x :: xs) (y :: ys) = x * y + dotN xs ys.
Proof. reflexivity. Qed.

#[export] Hint Rewrite sumN_cons prodN_cons sumN_app prodN_app dotN_cons : weights.

Lemma list_inserts_split {A} i (k l : list A) :
  (i + length k <= length l)%nat ->
  list_inserts i k l = take i l ++ k ++ drop (i + length k) l.
Proof.
  intros H. apply list_eq. intros j.
  destruct (decide (j < i)%nat) as [Hj|Hj].
  { rewrite list_lookup_inserts_lt by lia. rewrite lookup_app_l by (rewrite length_take; lia).
    by rewrite lookup_take_lt. }
  rewrite lookup_app_r by (rewrite length_take; lia). rewrite length_take, Nat.min_l by lia.
  destruct (decide (j < i + length k)%nat) as [Hk|Hk].
  - rewrite list_lookup_inserts by lia. by rewrite lookup_app_l by lia.
  - rewrite list_lookup_inserts_ge by lia. rewrite lookup_app_r by lia. rewrite lookup_drop.
    f_equal. lia.
Qed.
