(* ===== verification/Errors.v ===== *)
(** * Errors of [error.rs]

    The stable failure categories and the three-way outcome of a call: a value,
    an error of a category, or a panic. Diagnostic text, error sources and
    backtraces carry no control flow and are left out. *)

From S2P Require Import Prelude.
Local Open Scope N_scope.

Inductive ErrorCategory :=
  | Io
  | InvalidPath
  | InvalidFormat
  | Integrity
  | ResourceLimit
  | Binding
  | Unsupported
  | Cache
  | Cancelled
  | Delivery.

#[export] Instance ErrorCategory_eq_dec : EqDecision ErrorCategory.
Proof. solve_decision. Defined.

Definition is_cancelled (e : ErrorCategory) : bool :=
  match e with Cancelled => true | _ => false end.

Definition is_invalid (e : ErrorCategory) : bool :=
  match e with
  | InvalidPath | InvalidFormat | Integrity | Binding => true
  | _ => false
  end.

Definition is_unsupported (e : ErrorCategory) : bool :=
  match e with Unsupported => true | _ => false end.

(** [Panic] is the outcome of an out-of-range index or of unchecked arithmetic
    that overflows. *)
Inductive result (A : Type) :=
  | Ok (a : A)
  | Err (e : ErrorCategory)
  | Panic.
Arguments Ok {A} a.
Arguments Err {A} e.
Arguments Panic {A}.

#[export] Instance result_ret : MRet result := fun A a => Ok a.
#[export] Instance result_bind : MBind result := fun A B f m =>
  match m with
  | Ok a => f a
  | Err e => Err e
  | Panic => Panic
  end.
#[export] Instance result_fmap : FMap result := fun A B f m =>
  match m with
  | Ok a => Ok (f a)
  | Err e => Err e
  | Panic => Panic
  end.

#[export] Instance result_eq_dec {A} `{EqDecision A} : EqDecision (result A).
Proof. solve_decision. Defined.

(** [Option::ok_or_else]. *)
Definition ok_or {A} (o : option A) (e : ErrorCategory) : result A :=
  match o with Some a => Ok a | None => Err e end.

(** The guard [if bad { return Err(e) }]. *)
Definition reject (bad : bool) (e : ErrorCategory) : result unit :=
  if bad then Err e else Ok tt.

(** The slice index [l[i]], which panics out of range. *)
Definition index {A} (l : list A) (i : nat) : result A :=
  match l !! i with Some a => Ok a | None => Panic end.

(** The assignment [l[i] = x], which panics out of range. *)
Definition index_set {A} (l : list A) (i : nat) (x : A) : result (list A) :=
  if bool_decide (i < length l)%nat then Ok (<[i := x]> l) else Panic.

(** The unchecked subtraction [a - b] of unsigned integers. *)
Definition unchecked_sub (a b : N) : result N :=
  if b <=? a then Ok (a - b) else Panic.

(** The unchecked sum of 64-bit integers. *)
Definition unchecked_add (a b : N) : result N :=
  if a + b <=? u64_MAX then Ok (a + b) else Panic.

(** [u32::try_from] and [usize::try_from] with their error mapped to a
    resource limit. *)
Definition u32_try_from (n : N) : result N :=
  if n <=? u32_MAX then Ok n else Err ResourceLimit.
Definition usize_try_from (n : N) : result N :=
  if n <=? usize_MAX then Ok n else Err ResourceLimit.

(** [Iterator::try_fold]. *)
Fixpoint try_fold {A S} (f : S -> A -> result S) (s : S) (l : list A) : result S :=
  match l with
  | [] => Ok s
  | a :: l => s' ← f s a; try_fold f s' l
  end.

(** [map(f).collect::<Result<Vec<_>>>()]. *)
Fixpoint try_map {A B} (f : A -> result B) (l : list A) : result (list B) :=
  match l with
  | [] => Ok []
  | a :: l => b ← f a; rest ← try_map f l; mret (b :: rest)
  end.

(** [iter().enumerate()]. *)
Definition enumerate {A} (l : list A) : list (nat * A) := zip (seq 0 (length l)) l.

(** ** Inversion *)

Lemma bind_Ok {A B} (m : result A) (f : A -> result B) b :
  m ≫= f = Ok b <-> exists a, m = Ok a /\ f a = Ok b.
Proof. destruct m; simpl; naive_solver. Qed.

Lemma bind_not_Panic {A B} (m : result A) (f : A -> result B) :
  m <> Panic -> (forall a, m = Ok a -> f a <> Panic) -> m ≫= f <> Panic.
Proof. destruct m; simpl; naive_solver. Qed.

Lemma ok_or_Ok {A} (o : option A) e a : ok_or o e = Ok a <-> o = Some a.
Proof. destruct o; simpl; naive_solver. Qed.

Lemma reject_Ok bad e u : reject bad e = Ok u <-> bad = false.
Proof. destruct bad, u; simpl; naive_solver. Qed.

Lemma index_Ok {A} (l : list A) i a : index l i = Ok a <-> l !! i = Some a.
Proof. unfold index. destruct (l !! i); naive_solver. Qed.

Lemma index_set_Ok {A} (l : list A) i x l' :
  index_set l i x = Ok l' <-> (i < length l)%nat /\ l' = <[i := x]> l.
Proof. unfold index_set. case_bool_decide; naive_solver. Qed.

Lemma unchecked_sub_Ok a b r : unchecked_sub a b = Ok r <-> b <= a /\ r = a - b.
Proof.
  unfold unchecked_sub. destruct (b <=? a) eqn:E; bool_to_prop; [naive_solver|].
  split; [done|lia].
Qed.

Lemma u32_try_from_Ok n r : u32_try_from n = Ok r <-> r = n /\ n <= u32_MAX.
Proof.
  unfold u32_try_from. destruct (n <=? u32_MAX) eqn:E; bool_to_prop; [naive_solver|].
  split; [done|lia].
Qed.

Lemma usize_try_from_Ok n r : usize_try_from n = Ok r <-> r = n /\ n <= usize_MAX.
Proof.
  unfold usize_try_from. destruct (n <=? usize_MAX) eqn:E; bool_to_prop; [naive_solver|].
  split; [done|lia].
Qed.

Lemma fmap_Ok {A B} (f : A -> B) (m : result A) b :
  f <$> m = Ok b <-> exists a, m = Ok a /\ b = f a.
Proof. destruct m; simpl; naive_solver. Qed.

Lemma mret_Ok {A} (a b : A) : mret a = Ok b <-> a = b.
Proof. split; [by intros [= ->] | by intros ->]. Qed.

(** Breaks a successful computation of the context into its steps. *)
Ltac res_inv_step :=
  match goal with
  | H : mbind _ _ = Ok _ |- _ =>
      let a := fresh "a" in let Ha := fresh "H" in
      apply (proj1 (bind_Ok _ _ _)) in H as (a & Ha & H)
  | H : fmap _ _ = Ok _ |- _ =>
      let a := fresh "a" in let Ha := fresh "H" in
      apply (proj1 (fmap_Ok _ _ _)) in H as (a & Ha & H)
  | H : mret _ = Ok _ |- _ => apply (proj1 (mret_Ok _ _)) in H
  | H : Ok _ = Ok _ |- _ => injection H as H
  | H : Err _ = Ok _ |- _ => discriminate H
  | H : Panic = Ok _ |- _ => discriminate H
  | H : ok_or _ _ = Ok _ |- _ => apply (proj1 (ok_or_Ok _ _ _)) in H
  | H : reject _ _ = Ok _ |- _ => apply (proj1 (reject_Ok _ _ _)) in H
  | H : index _ _ = Ok _ |- _ => apply (proj1 (index_Ok _ _ _)) in H
  | H : index_set _ _ _ = Ok _ |- _ => apply (proj1 (index_set_Ok _ _ _ _)) in H as [? H]
  | H : unchecked_sub _ _ = Ok _ |- _ => apply (proj1 (unchecked_sub_Ok _ _ _)) in H as [? H]
  | H : u32_try_from _ = Ok _ |- _ => apply (proj1 (u32_try_from_Ok _ _)) in H as [H ?]
  | H : usize_try_from _ = Ok _ |- _ => apply (proj1 (usize_try_from_Ok _ _)) in H as [H ?]
  | H : checked_add _ _ = Some _ |- _ => apply (proj1 (checked_add_Some _ _ _)) in H as [H ?]
  | H : checked_mul _ _ = Some _ |- _ => apply (proj1 (checked_mul_Some _ _ _)) in H as [H ?]
  | H : checked_sub _ _ = Some _ |- _ => apply (proj1 (checked_sub_Some _ _ _)) in H as [? H]
  end.
Ltac res_inv := repeat (res_inv_step; subst); bool_to_prop.

Lemma mapM_Ok {A B} (f : A -> result B) l k :
  mapM f l = Ok k <-> Forall2 (fun a b => f a = Ok b) l k.
Proof.
  revert k. induction l as [|a l IH]; intros k; simpl.
  - split; [intros H; res_inv; constructor | by inversion 1].
  - split.
    + intros H. res_inv. constructor; [done|]. by apply IH.
    + inversion 1 as [|? b ? k' Hb Hk]; subst.
      apply IH in Hk. rewrite Hb; simpl. by rewrite Hk.
Qed.

Lemma try_fold_app {A S} (f : S -> A -> result S) s l k :
  try_fold f s (l ++ k) = (s' ← try_fold f s l; try_fold f s' k).
Proof.
  revert s. induction l as [|a l IH]; intros s; simpl; [done|].
  destruct (f s a); simpl; auto.
Qed.

(** ** Absence of panics *)

Lemma ok_or_not_Panic {A} (o : option A) e : ok_or o e <> Panic.
Proof. by destruct o. Qed.
Lemma reject_not_Panic bad e : reject bad e <> Panic.
Proof. by destruct bad. Qed.
Lemma u32_try_from_not_Panic n : u32_try_from n <> Panic.
Proof. unfold u32_try_from. by destruct (_ <=? _). Qed.
Lemma usize_try_from_not_Panic n : usize_try_from n <> Panic.
Proof. unfold usize_try_from. by destruct (_ <=? _). Qed.
Lemma Ok_not_Panic {A} (a : A) : Ok a <> Panic.
Proof. done. Qed.
Lemma Err_not_Panic {A} e : @Err A e <> Panic.
Proof. done. Qed.
Lemma mret_not_Panic {A} (a : A) : (mret a : result A) <> Panic.
Proof. done. Qed.

Lemma index_not_Panic {A} (l : list A) i : (i < length l)%nat -> index l i <> Panic.
Proof. unfold index. intros [x Hx]%lookup_lt_is_Some. by rewrite Hx. Qed.

Lemma index_set_not_Panic {A} (l : list A) i x :
  (i < length l)%nat -> index_set l i x <> Panic.
Proof. unfold index_set. intros. by rewrite bool_decide_eq_true_2. Qed.

Lemma unchecked_sub_not_Panic a b : b <= a -> unchecked_sub a b <> Panic.
Proof. intros H. unfold unchecked_sub. apply N.leb_le in H. by rewrite H. Qed.

Lemma fmap_not_Panic {A B} (f : A -> B) (m : result A) : m <> Panic -> f <$> m <> Panic.
Proof. by destruct m. Qed.

Lemma try_fold_not_Panic {A S} (f : S -> A -> result S) s l :
  (forall s a, a ∈ l -> f s a <> Panic) -> try_fold f s l <> Panic.
Proof.
  revert s. induction l as [|a l IH]; intros s H; simpl; [done|].
  apply bind_not_Panic; [apply H; left|].
  intros s' _. apply IH. intros ???. apply H. by right.
Qed.

Lemma mapM_not_Panic {A B} (f : A -> result B) l :
  (forall a, a ∈ l -> f a <> Panic) -> mapM f l <> Panic.
Proof.
  induction l as [|a l IH]; intros H; simpl; [done|].
  apply bind_not_Panic; [apply H; left|]. intros b _.
  apply bind_not_Panic; [apply IH; intros; apply H; by right|]. done.
Qed.

Create HintDb no_panic.
#[export] Hint Resolve ok_or_not_Panic reject_not_Panic u32_try_from_not_Panic
  usize_try_from_not_Panic Ok_not_Panic Err_not_Panic mret_not_Panic
  index_not_Panic index_set_not_Panic unchecked_sub_not_Panic fmap_not_Panic : no_panic.

(** Walks a computation that cannot panic, naming what each step returned. *)
Ltac no_panic :=
  repeat first
    [ progress auto with no_panic nocore
    | match goal with |- mbind _ _ <> Panic => apply bind_not_Panic end;
      [| let a := fresh "a" in let H := fresh "H" in intros a H; res_inv ]
    | match goal with |- context [ if ?b then _ else _ ] => destruct b eqn:?; bool_to_prop end ].

(** ** Maps over lists *)

Lemma try_map_Ok {A B} (f : A -> result B) l k : try_map f l = Ok k <-> Forall2 (fun a b => f a = Ok b) l k.
Proof.
  revert k. induction l as [|a l IH]; intros k; cbn [try_map].
  { split; [intros [= <-]; constructor|]. by intros ->%Forall2_nil_inv_l. }
  rewrite bind_Ok. split.
  - intros (b & Hb & (k' & Hk & [= <-])%bind_Ok). constructor; [done|by apply IH].
  - intros (b & k' & Hb & Hk & ->)%Forall2_cons_inv_l. exists b. split; [done|]. by rewrite (proj2 (IH k') Hk).
Qed.

Lemma try_map_id {A} (f : A -> result A) l : Forall (fun a => f a = Ok a) l -> try_map f l = Ok l.
Proof. intros H. apply try_map_Ok. by induction H; constructor. Qed.

Lemma lookup_enumerate {A} (l : list A) i x : (i, x) ∈ enumerate l <-> l !! i = Some x.
Proof.
  unfold enumerate. rewrite list_elem_of_lookup. split.
  - intros [j Hj]. apply lookup_zip_with_Some in Hj as (a & b & [= <- <-] & Ha & Hb).
    apply lookup_seq in Ha as [-> _]. done.
  - intros Hi. exists i. apply lookup_zip_with_Some. exists i, x. split_and!; [done| |done].
    apply lookup_seq. split; [done|]. by eapply lookup_lt_Some.
Qed.

Lemma concat_elem {A} (ls : list (list A)) x : x ∈ concat ls <-> exists l, l ∈ ls /\ x ∈ l.
Proof. rewrite list_elem_of_In, in_concat. by setoid_rewrite list_elem_of_In. Qed.

Lemma try_map_total {A B} (f : A -> result B) l :
  (forall a, a ∈ l -> exists b, f a = Ok b) -> exists k, try_map f l = Ok k.
Proof.
  induction l as [|a l IH]; intros H; [by exists []|]. destruct (H a ltac:(by left)) as [b Hb]. cbn [try_map]. rewrite Hb.
  destruct IH as [k Hk]; [intros x Hx; apply H; by right|]. cbn [mbind result_bind]. rewrite Hk. by eexists.
Qed.

Lemma filter_nil_none {A} (P : A -> Prop) `{!forall a, Decision (P a)} l :
  (forall a, a ∈ l -> ~ P a) -> filter P l = [].
Proof.
  induction l as [|a l IH]; intros Hn; [done|]. rewrite filter_cons, decide_False by (apply Hn; by left).
  apply IH. intros b Hb. apply Hn. by right.
Qed.
