(* ===== verification/Cancel.v ===== *)
(** * Cooperative cancellation of [cancel.rs] and the environment of a call

    A call runs against an environment it does not control: another thread may
    set the shared cancellation flag, the allocator may refuse a reservation,
    and it chooses the address of a new buffer. [Env] fixes those answers for
    every interaction, numbered in program order, so a theorem that quantifies
    over the environment covers every moment at which they can happen. [M] is
    the monad of calls that read the environment and may fail. *)

From S2P Require Import Prelude Errors.
Local Open Scope N_scope.

Record Env := {
  (** The value [is_cancelled] loads at the n-th interaction. *)
  fired : nat -> bool;
  (** Whether the allocator grants a reservation of so many bytes. *)
  grants : nat -> N -> bool;
  (** The address of a buffer boxed at the n-th interaction. *)
  place : nat -> N
}.

Definition M (A : Type) : Type := Env -> nat -> result (A * nat).

#[export] Instance M_ret : MRet M := fun A a _ t => Ok (a, t).
#[export] Instance M_bind : MBind M := fun A B f m env t =>
  match m env t with
  | Ok (a, t') => f a env t'
  | Err e => Err e
  | Panic => Panic
  end.

(** A step that does not consult the environment. *)
Definition lift {A} (r : result A) : M A := fun _ t =>
  match r with
  | Ok a => Ok (a, t)
  | Err e => Err e
  | Panic => Panic
  end.

(** [CancellationToken::check]. *)
Definition check : M unit := fun env t =>
  if fired env t then Err Cancelled else Ok (tt, S t).

(** [Vec::try_reserve_exact] of so many bytes, its error mapped to a resource
    limit: the capacity may not exceed [isize::MAX] bytes, and the allocator
    may refuse. *)
Definition try_reserve_exact (bytes : N) : M unit := fun env t =>
  if (bytes <=? isize_MAX) && grants env t bytes
  then Ok (tt, S t) else Err ResourceLimit.

(** The address at which a new buffer is boxed. *)
Definition new_address : M N := fun env t => Ok (place env t, S t).

(** The loop [for i in start..start+count] over a state. *)
Fixpoint for_loop {S} (count : nat) (start : N) (body : N -> S -> M S) (s : S) : M S :=
  match count with
  | O => mret s
  | Datatypes.S count =>
      s' ← body start s; for_loop count (start + 1) body s'
  end.
Definition for_range {S} (first last : N) (body : N -> S -> M S) (s : S) : M S :=
  for_loop (N.to_nat (last - first)) first body s.

(** The loop [for x in l] over a state. *)
Fixpoint for_each {A S} (l : list A) (body : A -> S -> M S) (s : S) : M S :=
  match l with
  | [] => mret s
  | a :: l => s' ← body a s; for_each l body s'
  end.

(** ** Specifications *)

(** The failures the environment alone can cause from interaction [t] on. *)
Definition interrupted (env : Env) (t : nat) (e : ErrorCategory) : Prop :=
  (e = Cancelled /\ exists n, (t <= n)%nat /\ fired env n = true) \/
  (e = ResourceLimit /\ exists n bytes, (t <= n)%nat /\ grants env n bytes = false).

(** In every environment, [m] is interrupted or ends in an outcome of [Q]. *)
Definition wp {A} (m : M A) (Q : result A -> Prop) : Prop := forall env t,
  match m env t with
  | Ok (a, t') => (t <= t')%nat /\ Q (Ok a)
  | Err e => Q (Err e) \/ interrupted env t e
  | Panic => Q Panic
  end.

(** In every environment, [m] is interrupted or returns a value of [Q]. *)
Definition succeeds {A} (m : M A) (Q : A -> Prop) : Prop :=
  wp m (fun r => exists a, r = Ok a /\ Q a).

(** In every environment, [m] is interrupted or fails with [e]. *)
Definition fails {A} (m : M A) (e : ErrorCategory) : Prop :=
  wp m (fun r => r = Err e).

(** An environment that never interrupts. *)
Definition quiet (env : Env) : Prop :=
  forall n, fired env n = false /\ forall bytes, grants env n bytes = true.

(** ** Rules *)

Lemma interrupted_later env t t' e :
  (t <= t')%nat -> interrupted env t' e -> interrupted env t e.
Proof.
  intros Hle [(-> & n & ? & ?) | (-> & n & b & ? & ?)].
  - left. split; [done|]. exists n. split; [lia|done].
  - right. split; [done|]. exists n, b. split; [lia|done].
Qed.

Lemma quiet_not_interrupted env t e : quiet env -> ~ interrupted env t e.
Proof.
  intros Hq [(_ & n & _ & H) | (_ & n & b & _ & H)];
    destruct (Hq n) as [Hf Hg]; [congruence | rewrite Hg in H; congruence].
Qed.

Lemma wp_mono {A} (m : M A) (P Q : result A -> Prop) :
  wp m P -> (forall r, P r -> Q r) -> wp m Q.
Proof.
  intros H HPQ env t. specialize (H env t).
  destruct (m env t) as [[a t']|e|]; [naive_solver | | auto].
  destruct H as [H|H]; [left; auto | by right].
Qed.

Lemma wp_bind {A B} (m : M A) (f : A -> M B) (Q : result B -> Prop) :
  wp m (fun r => match r with
                 | Ok a => wp (f a) Q
                 | Err e => Q (Err e)
                 | Panic => Q Panic
                 end) ->
  wp (m ≫= f) Q.
Proof.
  intros H env t. specialize (H env t). unfold mbind, M_bind.
  destruct (m env t) as [[a t']|e|]; [|auto|auto].
  destruct H as [Hle H]. specialize (H env t').
  destruct (f a env t') as [[b t'']|e|]; [| |auto].
  - split; [lia | tauto].
  - destruct H as [H|H]; [auto | right; by eapply interrupted_later].
Qed.

Lemma wp_lift {A} (r : result A) (Q : result A -> Prop) : Q r -> wp (lift r) Q.
Proof. intros H env t. unfold lift. destruct r; auto. Qed.

Lemma wp_ret {A} (a : A) (Q : result A -> Prop) : Q (Ok a) -> wp (mret a) Q.
Proof. intros H env t. simpl. auto. Qed.

Lemma wp_check (Q : result unit -> Prop) : Q (Ok tt) -> wp check Q.
Proof.
  intros H env t. unfold check. destruct (fired env t) eqn:E; [|auto].
  right. left. split; [done|]. exists t. auto.
Qed.

Lemma wp_try_reserve_exact bytes (Q : result unit -> Prop) :
  (bytes <= isize_MAX -> Q (Ok tt)) ->
  (isize_MAX < bytes -> Q (Err ResourceLimit)) ->
  wp (try_reserve_exact bytes) Q.
Proof.
  intros Hok Hno env t. unfold try_reserve_exact.
  destruct (bytes <=? isize_MAX) eqn:E; bool_to_prop; simpl; [|auto].
  destruct (grants env t bytes) eqn:G; [auto|].
  right. right. split; [done|]. eauto.
Qed.

Lemma wp_new_address (Q : result N -> Prop) : (forall a, Q (Ok a)) -> wp new_address Q.
Proof. intros H env t. unfold new_address. auto. Qed.

Lemma succeeds_mono {A} (m : M A) (P Q : A -> Prop) :
  succeeds m P -> (forall a, P a -> Q a) -> succeeds m Q.
Proof. intros H HPQ. eapply wp_mono; [exact H|]. naive_solver. Qed.

Lemma succeeds_bind {A B} (m : M A) (f : A -> M B) (Q : B -> Prop) :
  succeeds m (fun a => succeeds (f a) Q) -> succeeds (m ≫= f) Q.
Proof.
  intros H. apply wp_bind. eapply wp_mono; [exact H|]. by intros ? (a & -> & ?).
Qed.

Lemma succeeds_then {A B} (m : M A) (f : A -> M B) (P : A -> Prop) (Q : B -> Prop) :
  succeeds m P -> (forall a, P a -> succeeds (f a) Q) -> succeeds (m ≫= f) Q.
Proof. intros Hm Hf. apply succeeds_bind. by eapply succeeds_mono. Qed.

Lemma succeeds_ret {A} (a : A) (Q : A -> Prop) : Q a -> succeeds (mret a) Q.
Proof. intros. apply wp_ret. eauto. Qed.

Lemma succeeds_lift {A} (r : result A) a (Q : A -> Prop) :
  r = Ok a -> Q a -> succeeds (lift r) Q.
Proof. intros -> ?. apply wp_lift. eauto. Qed.

Lemma succeeds_lift_bind {A B} (r : result A) a (f : A -> M B) (Q : B -> Prop) :
  r = Ok a -> succeeds (f a) Q -> succeeds (lift r ≫= f) Q.
Proof. intros -> ?. apply succeeds_bind. by apply succeeds_lift with a. Qed.

Lemma succeeds_check (Q : unit -> Prop) : Q tt -> succeeds check Q.
Proof. intros. apply wp_check. eauto. Qed.

Lemma succeeds_check_bind {B} (f : unit -> M B) (Q : B -> Prop) :
  succeeds (f tt) Q -> succeeds (check ≫= f) Q.
Proof. intros. apply succeeds_bind. by apply succeeds_check. Qed.

Lemma succeeds_reserve_bind {B} bytes (f : unit -> M B) (Q : B -> Prop) :
  bytes <= isize_MAX -> succeeds (f tt) Q ->
  succeeds (try_reserve_exact bytes ≫= f) Q.
Proof.
  intros ??. apply succeeds_bind.
  apply wp_try_reserve_exact; [eauto | lia].
Qed.

Lemma succeeds_new_address_bind {B} (f : N -> M B) (Q : B -> Prop) :
  (forall a, succeeds (f a) Q) -> succeeds (new_address ≫= f) Q.
Proof. intros. apply succeeds_bind. apply wp_new_address. eauto. Qed.

Lemma fails_bind {A B} (m : M A) (f : A -> M B) e :
  fails m e -> fails (m ≫= f) e.
Proof. intros H. apply wp_bind. eapply wp_mono; [exact H|]. by intros ? ->. Qed.

Lemma fails_then {A B} (m : M A) (f : A -> M B) (P : A -> Prop) e :
  succeeds m P -> (forall a, P a -> fails (f a) e) -> fails (m ≫= f) e.
Proof.
  intros Hm Hf. apply wp_bind. eapply wp_mono; [exact Hm|].
  intros ? (a & -> & ?). by apply Hf.
Qed.

Lemma fails_lift {A} e : fails (lift (@Err A e)) e.
Proof. by apply wp_lift. Qed.

(** ** Loops *)

Lemma succeeds_for_loop {S} (I : nat -> S -> Prop) count start body (s : S) :
  I O s ->
  (forall k s, (k < count)%nat -> I k s ->
     succeeds (body (start + N.of_nat k) s) (I (Datatypes.S k))) ->
  succeeds (for_loop count start body s) (I count).
Proof.
  revert I start s. induction count as [|count IH]; intros I start s H0 Hstep; simpl.
  { by apply succeeds_ret. }
  eapply succeeds_then.
  - specialize (Hstep O s ltac:(lia) H0). rewrite N.add_0_r in Hstep. exact Hstep.
  - intros s' Hs'. apply (IH (fun k => I (Datatypes.S k))); [done|].
    intros k s'' Hk HI. replace (start + 1 + N.of_nat k) with (start + N.of_nat (Datatypes.S k))
      by lia. apply Hstep; [lia|done].
Qed.

Lemma succeeds_for_range {S} (I : N -> S -> Prop) first last body (s : S) :
  first <= last -> I first s ->
  (forall i s, first <= i < last -> I i s -> succeeds (body i s) (I (i + 1))) ->
  succeeds (for_range first last body s) (I last).
Proof.
  intros Hle H0 Hstep. unfold for_range.
  eapply succeeds_mono.
  - apply (succeeds_for_loop (fun k => I (first + N.of_nat k))).
    + by rewrite N.add_0_r.
    + intros k s' Hk HI.
      replace (first + N.of_nat (Datatypes.S k)) with (first + N.of_nat k + 1) by lia.
      apply Hstep; [lia|done].
  - simpl. intros s' HI. by replace last with (first + N.of_nat (N.to_nat (last - first))) by lia.
Qed.

Lemma succeeds_for_each {A S} (I : list A -> S -> Prop) (l : list A) body (s : S) :
  I [] s ->
  (forall done x rest s, l = done ++ x :: rest -> I done s ->
     succeeds (body x s) (I (done ++ [x]))) ->
  succeeds (for_each l body s) (I l).
Proof.
  intros H0 Hstep.
  cut (forall pre s, I pre s ->
    (forall done x rest s, pre ++ l = done ++ x :: rest -> I done s ->
       succeeds (body x s) (I (done ++ [x]))) ->
    succeeds (for_each l body s) (I (pre ++ l))).
  { intros Hc. by apply (Hc []). }
  clear H0 Hstep s. induction l as [|a l IH]; intros pre s H0 Hstep; simpl.
  { apply succeeds_ret. by rewrite app_nil_r. }
  eapply succeeds_then; [by apply (Hstep pre a l)|].
  intros s' Hs'. replace (pre ++ a :: l) with ((pre ++ [a]) ++ l) in *
    by (by rewrite <-app_assoc).
  by apply IH.
Qed.

(** ** Consequences for one run *)

Lemma succeeds_quiet {A} (m : M A) (Q : A -> Prop) env t :
  succeeds m Q -> quiet env -> exists a t', m env t = Ok (a, t') /\ Q a.
Proof.
  intros H Hq. specialize (H env t). destruct (m env t) as [[a t']|e|] eqn:E.
  - destruct H as (_ & a' & [= <-] & HQ). eauto.
  - destruct H as [(? & ? & _)|H]; [done|]. by apply quiet_not_interrupted in H.
  - naive_solver.
Qed.

Lemma succeeds_value {A} (m : M A) (Q : A -> Prop) env t a t' :
  succeeds m Q -> m env t = Ok (a, t') -> Q a.
Proof. intros H E. specialize (H env t). rewrite E in H. naive_solver. Qed.

(** Inversion of one run. *)
Lemma run_bind_Ok {A B} (m : M A) (f : A -> M B) env t b t' :
  (m ≫= f) env t = Ok (b, t') ->
  exists a t1, m env t = Ok (a, t1) /\ f a env t1 = Ok (b, t').
Proof. unfold mbind, M_bind. destruct (m env t) as [[a t1]| |]; naive_solver. Qed.

Lemma run_lift_Ok {A} (r : result A) env t a t' : lift r env t = Ok (a, t') -> r = Ok a /\ t' = t.
Proof. unfold lift. destruct r; naive_solver. Qed.

Lemma run_for_each_inv {A S} (I : list A -> S -> Prop) (l : list A) body (s : S) env t s' t' :
  I [] s ->
  (forall visited x rest s t s' t', l = visited ++ x :: rest -> I visited s ->
     body x s env t = Ok (s', t') -> I (visited ++ [x]) s') ->
  for_each l body s env t = Ok (s', t') -> I l s'.
Proof.
  revert I s t. induction l as [|a l IH]; intros I s t H0 Hstep H; cbn [for_each] in H.
  { by injection H as <- _. }
  apply run_bind_Ok in H as (s1 & t1 & Ha & H).
  apply (IH (fun visited => I (a :: visited)) s1 t1); [by apply (Hstep [] a l s t s1 t1)| |done].
  intros visited x rest ? ? ? ? -> HI Hb. by eapply (Hstep (a :: visited)).
Qed.

(** Symbolic execution of a call that succeeds. *)
Ltac run_step :=
  lazymatch goal with
  | |- succeeds (mret _) _ => apply succeeds_ret
  | |- succeeds check _ => apply succeeds_check
  | |- succeeds (lift _) _ => eapply succeeds_lift
  | |- succeeds (check ≫= _) _ => apply succeeds_check_bind
  | |- succeeds (mbind _ check) _ => apply succeeds_check_bind
  | |- succeeds (mbind _ (lift _)) _ => eapply succeeds_lift_bind
  | |- succeeds (mbind _ (try_reserve_exact _)) _ => apply succeeds_reserve_bind
  | |- succeeds (mbind _ new_address) _ => apply succeeds_new_address_bind; intros ?
  end.
