(* ===== verification/Tensor.v ===== *)
(** * Common tensor descriptors and byte views of [tensor.rs] *)

From S2P Require Import Prelude Errors Cancel.
From Stdlib Require Export Strings.Byte.
Local Open Scope N_scope.

Abbreviation bytes := (list byte).

#[export] Instance byte_eq_dec : EqDecision byte := Byte.byte_eq_dec.

(** ** Scalar dtypes *)

Inductive DType :=
  | Bool
  | U8
  | I8
  | U16
  | I16
  | U32
  | I32
  | U64
  | I64
  | F16
  | Bf16
  | F32
  | F64
  | C64
  | F8E5M2
  | F8E4M3
  | F8E8M0
  | F8E4M3Fnuz
  | F8E5M2Fnuz.

#[export] Instance DType_eq_dec : EqDecision DType.
Proof. solve_decision. Defined.

Definition bits (dtype : DType) : N :=
  match dtype with
  | Bool | U8 | I8 | F8E5M2 | F8E4M3 | F8E8M0 | F8E4M3Fnuz | F8E5M2Fnuz => 8
  | U16 | I16 | F16 | Bf16 => 16
  | U32 | I32 | F32 => 32
  | U64 | I64 | F64 | C64 => 64
  end.

(** One step of the element-count folds: a checked product. *)
Definition mul_dimension (product dimension : N) : result N :=
  ok_or (checked_mul product dimension) ResourceLimit.

Definition byte_len (dtype : DType) (shape : list N) : result N :=
  elements ← try_fold mul_dimension 1 shape;
  ok_or (checked_mul elements (bits dtype / 8)) ResourceLimit.

(** ** Source spans *)

Record FileId := from_ordinal { ordinal : N }.

#[export] Instance FileId_eq_dec : EqDecision FileId.
Proof. solve_decision. Defined.

Record SourceSpan := {
  span_file : FileId;
  span_offset : N;
  span_length : N
}.

#[export] Instance SourceSpan_eq_dec : EqDecision SourceSpan.
Proof. solve_decision. Defined.

Definition SourceSpan_new (file : FileId) (offset length : N) : result SourceSpan :=
  _ ← ok_or (checked_add offset length) ResourceLimit;
  mret {| span_file := file; span_offset := offset; span_length := length |}.

Definition span_is_empty (s : SourceSpan) : bool := span_length s =? 0.

(** The unchecked addition of [SourceSpan::end]: it panics on overflow. *)
Definition span_end (s : SourceSpan) : result N :=
  if span_offset s + span_length s <=? u64_MAX
  then Ok (span_offset s + span_length s) else Panic.

(** The wire value of a span and its checked conversion. *)
Record SourceSpanWire := {
  wire_file : FileId;
  wire_offset : N;
  wire_length : N
}.

Definition SourceSpan_try_from (w : SourceSpanWire) : result SourceSpan :=
  SourceSpan_new (wire_file w) (wire_offset w) (wire_length w).

Definition SourceSpan_serialize (s : SourceSpan) : SourceSpanWire :=
  {| wire_file := span_file s; wire_offset := span_offset s;
     wire_length := span_length s |}.

(** ** Byte views *)

(** A shared immutable buffer: its address and its bytes. *)
Record ByteOwner := {
  owner_address : N;
  owner_bytes : bytes
}.

(** A range of a shared buffer. The owner is shared, never copied. *)
Record ByteView := {
  view_owner : ByteOwner;
  view_start : N;
  view_end : N
}.

#[export] Instance ByteOwner_eq_dec : EqDecision ByteOwner.
Proof. solve_decision. Defined.
#[export] Instance ByteView_eq_dec : EqDecision ByteView.
Proof. solve_decision. Defined.

(** [ByteView::from_boxed], at the address the allocator chose. *)
Definition view_from_boxed (address : N) (bs : bytes) : ByteView :=
  {| view_owner := {| owner_address := address; owner_bytes := bs |};
     view_start := 0; view_end := N.of_nat (length bs) |}.

Definition view_from_owner (owner : ByteOwner) (first last : N) : result ByteView :=
  _ ← reject ((last <? first) || (N.of_nat (length (owner_bytes owner)) <? last))
        InvalidFormat;
  mret {| view_owner := owner; view_start := first; view_end := last |}.

(** The bytes [owner[range]]. [view_wf] below shows the range of a view is
    always inside its owner, so the slice never panics. *)
Definition as_slice (v : ByteView) : bytes :=
  take (N.to_nat (view_end v - view_start v))
    (drop (N.to_nat (view_start v)) (owner_bytes (view_owner v))).

(** The address [as_slice().as_ptr()]. *)
Definition as_ptr (v : ByteView) : N := owner_address (view_owner v) + view_start v.

Definition view_len (v : ByteView) : N := view_end v - view_start v.
Definition view_is_empty (v : ByteView) : bool := negb (view_start v <? view_end v).

Definition view_slice (v : ByteView) (first last : N) : result ByteView :=
  _ ← reject ((last <? first) || (view_len v <? last)) InvalidFormat;
  start ← ok_or (checked_add (view_start v) first) ResourceLimit;
  stop ← ok_or (checked_add (view_start v) last) ResourceLimit;
  view_from_owner (view_owner v) start stop.

(** The range of a view lies inside its owner, whose length fits [isize]. *)
Definition view_wf (v : ByteView) : Prop :=
  view_start v <= view_end v /\
  view_end v <= N.of_nat (length (owner_bytes (view_owner v))).

(** ** Element counts *)

(** The product of the dimensions, provided no left-to-right partial product
    overflows: the value both [byte_len] and the element counts compute. *)
Fixpoint prefix_products_fit (acc : N) (shape : list N) : bool :=
  match shape with
  | [] => true
  | d :: shape => (acc * d <=? u64_MAX) && prefix_products_fit (acc * d) shape
  end.

Lemma mul_dimension_Ok p d r :
  mul_dimension p d = Ok r <-> r = p * d /\ p * d <= u64_MAX.
Proof. unfold mul_dimension. rewrite ok_or_Ok. apply checked_mul_Some. Qed.

Lemma try_fold_mul_spec acc shape :
  try_fold mul_dimension acc shape =
  if prefix_products_fit acc shape then Ok (acc * prodN shape) else Err ResourceLimit.
Proof.
  revert acc. induction shape as [|d shape IH]; intros acc; simpl.
  { by rewrite N.mul_1_r. }
  unfold mul_dimension, checked_mul. destruct (acc * d <=? u64_MAX) eqn:E; simpl; [|done].
  rewrite IH. unfold prodN; simpl. by rewrite N.mul_assoc.
Qed.

Lemma try_fold_mul_Ok acc shape r :
  try_fold mul_dimension acc shape = Ok r ->
  r = acc * prodN shape /\ (acc <= u64_MAX -> acc * prodN shape <= u64_MAX).
Proof.
  revert acc. induction shape as [|d shape IH]; intros acc H; simpl in H.
  - injection H as <-. unfold prodN; simpl. lia.
  - res_inv. apply mul_dimension_Ok in H0 as [-> Hle].
    apply IH in H as [-> Hb]. rewrite prodN_cons, N.mul_assoc. auto.
Qed.

Lemma try_fold_mul_not_Panic acc shape : try_fold mul_dimension acc shape <> Panic.
Proof. apply try_fold_not_Panic. intros. unfold mul_dimension. auto with no_panic. Qed.

Lemma byte_len_Ok dtype shape n :
  byte_len dtype shape = Ok n ->
  n = prodN shape * (bits dtype / 8) /\ n <= u64_MAX /\ prodN shape <= u64_MAX.
Proof.
  unfold byte_len. intros H. res_inv.
  apply try_fold_mul_Ok in H0 as [-> Hb]. rewrite N.mul_1_l in *.
  split_and!; auto. apply Hb. done.
Qed.

Lemma byte_len_not_Panic dtype shape : byte_len dtype shape <> Panic.
Proof. unfold byte_len. no_panic; auto using try_fold_mul_not_Panic with no_panic. Qed.

(** Every scalar occupies a whole, positive number of bytes. *)
Lemma bits_aligned dtype : bits dtype mod 8 = 0 /\ 0 < bits dtype / 8 <= 8.
Proof. destruct dtype; vm_compute; auto; repeat split; discriminate || auto. Qed.

(** ** Views *)

Lemma view_from_boxed_wf a bs : view_wf (view_from_boxed a bs).
Proof. unfold view_wf, view_from_boxed; simpl. lia. Qed.

Lemma view_from_boxed_slice a bs : as_slice (view_from_boxed a bs) = bs.
Proof.
  unfold as_slice, view_from_boxed; simpl.
  rewrite N.sub_0_r, Nat2N.id, drop_0. by apply firstn_all.
Qed.

Lemma view_from_boxed_len a bs : view_len (view_from_boxed a bs) = N.of_nat (length bs).
Proof. unfold view_len, view_from_boxed; simpl. lia. Qed.

Lemma view_from_owner_wf o first last v :
  view_from_owner o first last = Ok v -> view_wf v.
Proof. unfold view_from_owner. intros H. res_inv. split; simpl; lia. Qed.

Lemma as_slice_length v : view_wf v -> N.of_nat (length (as_slice v)) = view_len v.
Proof.
  intros [Hs He]. unfold as_slice, view_len. rewrite length_take, length_drop. lia.
Qed.

#[export] Hint Resolve byte_len_not_Panic try_fold_mul_not_Panic : no_panic.
#[export] Hint Resolve view_from_boxed_wf view_from_owner_wf : weights.
