(* ===== verification/Identity.v ===== *)
(** * Content digests and stable identifiers of [identity.rs]

    The hash function itself belongs to the [sha2] crate and is a parameter;
    what the crate feeds to it, its text form and the identifier grammar are
    modelled. *)

From S2P Require Import Prelude Errors Tensor.
From Stdlib Require Strings.String.
Local Open Scope N_scope.

(** ** Digests *)

Record ContentDigest := from_bytes { digest_bytes : bytes }.

#[export] Instance ContentDigest_eq_dec : EqDecision ContentDigest.
Proof. solve_decision. Defined.

Definition byte_of_N (n : N) : byte :=
  match Byte.of_N (n mod 256) with Some b => b | None => Byte.x00 end.

Definition hex_digit (n : N) : N := if n <? 10 then 48 + n else 87 + n.

(** [write!(formatter, "{byte:02x}")]. *)
Definition display_byte (b : byte) : bytes :=
  [byte_of_N (hex_digit (Byte.to_N b / 16)); byte_of_N (hex_digit (Byte.to_N b mod 16))].

Definition digest_display (d : ContentDigest) : bytes :=
  concat (map display_byte (digest_bytes d)).

Definition decode_hex (b : byte) : option N :=
  let n := Byte.to_N b in
  if (48 <=? n) && (n <=? 57) then Some (n - 48)
  else if (97 <=? n) && (n <=? 102) then Some (n - 97 + 10)
  else if (65 <=? n) && (n <=? 70) then Some (n - 65 + 10)
  else None.

(** The loop over [chunks_exact(2)]: a last odd byte is not visited. *)
Fixpoint decode_pairs (value : bytes) : result bytes :=
  match value with
  | h :: l :: rest =>
      high ← ok_or (decode_hex h) InvalidFormat;
      low ← ok_or (decode_hex l) InvalidFormat;
      tail ← decode_pairs rest;
      mret (byte_of_N (N.lor (N.shiftl high 4) low) :: tail)
  | _ => mret []
  end.

Definition digest_from_str (value : bytes) : result ContentDigest :=
  _ ← reject (negb (length value =? 64)%nat) InvalidFormat;
  decoded ← decode_pairs value;
  mret (from_bytes decoded).

(** [u128::to_le_bytes]. *)
Fixpoint to_le_bytes (width : nat) (n : N) : bytes :=
  match width with
  | O => []
  | S width => byte_of_N n :: to_le_bytes width (n / 256)
  end.

(** [b"model-weights-rs\0"]. *)
Definition hash_prefix : bytes := String.list_byte_of_string "model-weights-rs" ++ [Byte.x00].

(** One length-prefixed update pair. *)
Definition hash_frame (part : bytes) : bytes :=
  to_le_bytes 16 (N.of_nat (length part)) ++ part.

(** The bytes [ContentDigest::hash] feeds to the hasher, in order. *)
Definition hash_preimage (domain : bytes) (parts : list bytes) : bytes :=
  hash_prefix ++ hash_frame domain ++ concat (map hash_frame parts).

Definition digest_hash (sha256 : bytes -> bytes) (domain : bytes) (parts : list bytes)
  : ContentDigest := from_bytes (sha256 (hash_preimage domain parts)).

(** ** Identifiers *)

Record StableName := { stable_name : string }.

#[export] Instance StableName_eq_dec : EqDecision StableName.
Proof. solve_decision. Defined.

Definition is_ascii_alphanumeric (n : N) : bool :=
  ((48 <=? n) && (n <=? 57)) || ((65 <=? n) && (n <=? 90)) || ((97 <=? n) && (n <=? 122)).

Definition is_identifier_byte (b : byte) : bool :=
  let n := Byte.to_N b in
  is_ascii_alphanumeric n ||
  bool_decide (b ∈ [Byte.x2e; Byte.x5f; Byte.x2d; Byte.x2f; Byte.x3a]).

Definition StableName_parse (value : string) : result StableName :=
  _ ← reject
        (negb (negb (String.length value =? 0)%nat &&
               (String.length value <=? 128)%nat &&
               forallb is_identifier_byte (String.list_byte_of_string value)))
        InvalidFormat;
  mret {| stable_name := value |}.

Record ImplementationId := {
  provider : StableName;
  operation : StableName;
  version : N
}.

#[export] Instance ImplementationId_eq_dec : EqDecision ImplementationId.
Proof. solve_decision. Defined.
#[export] Instance StableName_countable : Countable StableName :=
  inj_countable' stable_name Build_StableName (fun x => match x with Build_StableName _ => eq_refl end).
#[export] Instance ImplementationId_countable : Countable ImplementationId.
Proof.
  apply (inj_countable' (fun i => (provider i, operation i, version i))
           (fun '(p, o, v) => Build_ImplementationId p o v)).
  by intros [].
Defined.

(** ** Bytes and little-endian integers *)

Lemma byte_of_N_small n : n < 256 -> Byte.to_N (byte_of_N n) = n.
Proof.
  intros H. unfold byte_of_N. rewrite N.mod_small by done.
  destruct (Byte.of_N n) as [b|] eqn:E; [by apply Byte.to_of_N|].
  apply Byte.of_N_None_iff in E. lia.
Qed.

Lemma byte_of_to_N b : byte_of_N (Byte.to_N b) = b.
Proof.
  unfold byte_of_N. rewrite N.mod_small.
  - by rewrite Byte.of_to_N.
  - pose proof (Byte.to_N_bounded b). lia.
Qed.

Lemma to_le_bytes_length w n : length (to_le_bytes w n) = w.
Proof. revert n. induction w; intros; simpl; auto. Qed.

Lemma to_le_bytes_inj w m n :
  m < 256 ^ N.of_nat w -> n < 256 ^ N.of_nat w ->
  to_le_bytes w m = to_le_bytes w n -> m = n.
Proof.
  revert m n. induction w as [|w IH]; intros m n Hm Hn; cbn [to_le_bytes].
  { simpl in *. lia. }
  rewrite Nat2N.inj_succ, N.pow_succ_r' in Hm, Hn.
  intros [= Hb Ht]. apply (f_equal Byte.to_N) in Hb.
  assert (forall k, Byte.to_N (byte_of_N k) = k mod 256) as Hk.
  { intros k. rewrite <-(byte_of_N_small (k mod 256)) by (by apply N.mod_lt).
    unfold byte_of_N. by rewrite N.Div0.mod_mod. }
  rewrite !Hk in Hb. apply IH in Ht; [|apply N.Div0.div_lt_upper_bound; lia..].
  rewrite (N.div_mod m 256), (N.div_mod n 256) by done. congruence.
Qed.

(** ** Framing *)

Definition fits_u128 (b : bytes) : Prop := N.of_nat (length b) < 2 ^ 128.

Lemma hash_frame_inj a b r s :
  fits_u128 a -> fits_u128 b ->
  hash_frame a ++ r = hash_frame b ++ s -> a = b /\ r = s.
Proof.
  unfold hash_frame, fits_u128. intros Ha Hb H. rewrite <-!app_assoc in H.
  apply app_inj_1 in H as [Hl H]; [|by rewrite !to_le_bytes_length].
  apply to_le_bytes_inj in Hl; [|by change (256 ^ N.of_nat 16) with (2 ^ 128)..].
  apply app_inj_1 in H; [done|lia].
Qed.

Lemma hash_frame_not_nil p r : [] <> hash_frame p ++ r.
Proof.
  intros H. apply (f_equal length) in H. unfold hash_frame in H.
  rewrite !length_app, to_le_bytes_length in H. change (length []) with 0%nat in H. lia.
Qed.

Lemma hash_frames_inj ps qs :
  Forall fits_u128 ps -> Forall fits_u128 qs ->
  concat (map hash_frame ps) = concat (map hash_frame qs) -> ps = qs.
Proof.
  revert qs. induction ps as [|p ps IH]; intros [|q qs] Hp Hq;
    cbn [map concat]; [done| | |].
  - intros H. by apply hash_frame_not_nil in H.
  - intros H. symmetry in H. by apply hash_frame_not_nil in H.
  - intros H. inversion Hp; inversion Hq; subst.
    apply hash_frame_inj in H as [-> H]; [|done..]. f_equal. by apply IH.
Qed.

(** Two different domains or ordered part lists never give the hasher the
    same bytes. *)
Lemma hash_preimage_inj d e ps qs :
  fits_u128 d -> fits_u128 e -> Forall fits_u128 ps -> Forall fits_u128 qs ->
  hash_preimage d ps = hash_preimage e qs -> d = e /\ ps = qs.
Proof.
  unfold hash_preimage. intros Hd He Hp Hq H. apply app_inv_head in H.
  apply hash_frame_inj in H as [-> H]; [|done..]. by apply hash_frames_inj in H.
Qed.

(** Equal digests mean equal inputs, or a collision of the hash function. *)
Lemma digest_hash_inj sha256 d e ps qs :
  fits_u128 d -> fits_u128 e -> Forall fits_u128 ps -> Forall fits_u128 qs ->
  digest_hash sha256 d ps = digest_hash sha256 e qs ->
  (d = e /\ ps = qs) \/ exists a b, a <> b /\ sha256 a = sha256 b.
Proof.
  intros Hd He Hp Hq [= H].
  destruct (decide (hash_preimage d ps = hash_preimage e qs)) as [E|E].
  - left. by apply hash_preimage_inj.
  - right. eauto.
Qed.

(** ** Hexadecimal text *)

Lemma decode_display_nibbles b :
  decode_hex (byte_of_N (hex_digit (Byte.to_N b / 16))) = Some (Byte.to_N b / 16) /\
  decode_hex (byte_of_N (hex_digit (Byte.to_N b mod 16))) = Some (Byte.to_N b mod 16) /\
  byte_of_N (N.lor (N.shiftl (Byte.to_N b / 16) 4) (Byte.to_N b mod 16)) = b.
Proof. destruct b; vm_compute; auto. Qed.

Lemma decode_pairs_display bs :
  decode_pairs (concat (map display_byte bs)) = Ok bs.
Proof.
  induction bs as [|b bs IH]; [done|].
  destruct (decode_display_nibbles b) as (Hh & Hl & Hb).
  cbn [map concat display_byte app decode_pairs]. rewrite Hh, Hl. simpl.
  rewrite IH. simpl. by rewrite Hb.
Qed.

Lemma display_length bs :
  length (concat (map display_byte bs)) = (2 * length bs)%nat.
Proof. induction bs as [|b bs IH]; [done|]. simpl in *. lia. Qed.

(** The text form of a 32-byte digest parses back to the digest. *)
Lemma digest_display_from_str d :
  length (digest_bytes d) = 32%nat -> digest_from_str (digest_display d) = Ok d.
Proof.
  intros H. unfold digest_from_str, digest_display.
  rewrite display_length, H. simpl. rewrite decode_pairs_display.
  simpl. by destruct d.
Qed.

Lemma decode_pairs_length k value bs :
  length value = (2 * k)%nat -> decode_pairs value = Ok bs -> length bs = k.
Proof.
  revert value bs. induction k as [|k IH]; intros [|h [|l value]] bs Hlen H;
    simpl in Hlen; try lia; cbn [decode_pairs] in H; res_inv; [done|].
  simpl. f_equal. eapply IH; [|eassumption]. lia.
Qed.

(** Whatever text parses, the digest has exactly 32 bytes, so its canonical
    text parses back to the same digest. *)
Lemma digest_from_str_canonical value d :
  digest_from_str value = Ok d ->
  length (digest_bytes d) = 32%nat /\ digest_from_str (digest_display d) = Ok d.
Proof.
  unfold digest_from_str at 1. intros H. res_inv.
  apply Nat.eqb_eq in H0.
  assert (length (digest_bytes (from_bytes a0)) = 32%nat) as Hl
    by (by apply (decode_pairs_length 32) in H1).
  split; [done|]. by apply digest_display_from_str.
Qed.

(** ** Stable names *)

Lemma StableName_parse_Ok value n :
  StableName_parse value = Ok n <->
  stable_name n = value /\
  (0 < String.length value <= 128)%nat /\
  Forall (fun b => is_identifier_byte b = true) (String.list_byte_of_string value).
Proof.
  unfold StableName_parse. rewrite List.Forall_forall.
  rewrite <-forallb_forall. split.
  - intros H. res_inv. rewrite Nat.eqb_neq in *. simpl.
    split_and!; [done|lia| |done]. by apply Nat.leb_le.
  - intros (<- & [Hlo Hhi] & Hall). rewrite Hall.
    assert ((String.length (stable_name n) =? 0)%nat = false) as -> by (apply Nat.eqb_neq; lia).
    assert ((String.length (stable_name n) <=? 128)%nat = true) as -> by (by apply Nat.leb_le).
    by destruct n.
Qed.
