(* ===== verification/Order.v ===== *)
(** * Derived orders

    A derived [Ord] compares fields from first to last: an integer by value, a
    string or byte slice by its bytes, a variant by its place in the enum before
    its fields. A type of the class [Keyed] has such a list of fields. *)

From stdpp Require Export lexico.
From S2P Require Import Prelude Errors Tensor Identity.
From Stdlib Require Strings.String.
Local Open Scope N_scope.

Class Keyed (A : Type) := {
  key : A -> list (list N);
  key_inj : Inj (=) (=) key
}.
#[export] Existing Instance key_inj.

Section Ord.
Context `{Keyed A}.
Implicit Types (x y : A) (l : list A).

Definition ord_lt x y : Prop := lexico (key x) (key y).
Definition ord_le x y : Prop := x = y \/ ord_lt x y.

Lemma ord_lt_irrefl x : ~ ord_lt x x.
Proof using Type. exact (irreflexivity lexico (key x)). Qed.
#[export] Instance ord_lt_trans : Transitive ord_lt.
Proof using Type. intros x y z. unfold ord_lt. apply transitivity. Qed.

Lemma ord_trichotomy x y : ord_lt x y \/ x = y \/ ord_lt y x.
Proof using Type.
  destruct (trichotomyT lexico (key x) (key y)) as [[?|He]|?]; [by left|right; left|by right; right].
  by apply (inj key).
Qed.

#[export] Instance ord_lt_dec : RelDecision ord_lt.
Proof using Type. intros x y. unfold ord_lt. apply _. Defined.
#[export] Instance ord_le_dec : RelDecision ord_le.
Proof using Type.
  intros x y. destruct (decide (key x = key y)) as [He|Hn].
  - left. left. by apply (inj key).
  - destruct (decide (ord_lt x y)) as [Hl|Hl]; [left; by right|right].
    intros [->|?]; [by apply Hn|by apply Hl].
Defined.
#[export] Instance ord_le_total : Total ord_le.
Proof using Type.
  intros x y. unfold ord_le. destruct (ord_trichotomy x y) as [?|[->|?]]; auto.
Qed.
#[export] Instance ord_le_trans : Transitive ord_le.
Proof using Type.
  intros x y z [->|Hxy] [->|Hyz]; [by left|by right|by right|]. right. by trans y.
Qed.
#[export] Instance ord_le_antisym : AntiSymm (=) ord_le.
Proof using Type.
  intros x y [->|Hxy] [?|Hyx]; try done. destruct (ord_lt_irrefl x). by trans y.
Qed.

(** ** Sorting *)

(** [sort_unstable]: elements that compare equal are equal. *)
Definition sort_unstable l : list A := merge_sort ord_le l.

Lemma sort_unstable_Permutation l : Permutation (sort_unstable l) l.
Proof using Type. apply merge_sort_Permutation. Qed.
Lemma sort_unstable_sorted l : StronglySorted ord_le (sort_unstable l).
Proof using Type. apply (StronglySorted_merge_sort ord_le). Qed.
Lemma sort_unstable_unique l k : Permutation l k -> sort_unstable l = sort_unstable k.
Proof using Type.
  intros Hp. apply (StronglySorted_unique ord_le); [apply sort_unstable_sorted..|].
  by rewrite !sort_unstable_Permutation.
Qed.
Lemma sort_unstable_id l : StronglySorted ord_le l -> sort_unstable l = l.
Proof using Type.
  intros Hs. apply (StronglySorted_unique ord_le);
    [apply sort_unstable_sorted|done|apply sort_unstable_Permutation].
Qed.
End Ord.

(** [sort_unstable_by_key]; elements of one key keep their order. *)
Definition ord_le_by {A K} `{Keyed K} (f : A -> K) (a b : A) : Prop := ord_le (f a) (f b).
#[export] Instance ord_le_by_dec {A K} `{Keyed K} (f : A -> K) : RelDecision (ord_le_by f).
Proof. intros a b. apply ord_le_dec. Defined.
#[export] Instance ord_le_by_total {A K} `{Keyed K} (f : A -> K) : Total (ord_le_by f).
Proof. intros a b. apply ord_le_total. Qed.
#[export] Instance ord_le_by_trans {A K} `{Keyed K} (f : A -> K) : Transitive (ord_le_by f).
Proof. intros a b c. apply ord_le_trans. Qed.

Definition sort_by_key {A K} `{Keyed K} (f : A -> K) (l : list A) : list A :=
  merge_sort (ord_le_by f) l.

(** [windows(2).any(f)]. *)
Fixpoint windows_any {A} (f : A -> A -> bool) (l : list A) : bool :=
  match l with
  | x :: (y :: _) as tail => f x y || windows_any f tail
  | _ => false
  end.

Lemma windows_any_cons {A} (f : A -> A -> bool) x y l :
  windows_any f (x :: y :: l) = f x y || windows_any f (y :: l).
Proof. done. Qed.

(** In a sorted list, equal elements are neighbours. *)
Lemma windows_distinct `{Keyed A} `{EqDecision A} (l : list A) :
  StronglySorted ord_le l ->
  windows_any (fun x y => bool_decide (x = y)) l = false <-> StronglySorted ord_lt l.
Proof.
  induction 1 as [|x l Hs IH Hx]; [split; [constructor|done]|].
  destruct l as [|y l]; [split; [repeat constructor|done]|].
  rewrite windows_any_cons, orb_false_iff, IH, bool_decide_eq_false.
  apply Forall_cons in Hx as [Hxy Hx]. split.
  - intros [Hne Hlt]. constructor; [done|].
    assert (ord_lt x y) as Hlxy by (destruct Hxy as [->|?]; done).
    constructor; [done|]. apply StronglySorted_inv in Hlt as [_ Hlt].
    eapply Forall_impl; [exact Hlt|]. intros z Hz. by trans y.
  - intros Hlt. apply StronglySorted_inv in Hlt as [Hlt Hall].
    apply Forall_cons in Hall as [Hlxy _]. split; [|done]. intros ->. by apply ord_lt_irrefl in Hlxy.
Qed.

Lemma ord_lt_NoDup `{Keyed A} (l : list A) :
  StronglySorted ord_lt l -> NoDup l /\ StronglySorted ord_le l.
Proof.
  induction 1 as [|x l _ [IH1 IH2] Hx]; [by split; constructor|]. split; constructor; [|done|done|].
  - intros Hin. rewrite Forall_forall in Hx. by destruct (ord_lt_irrefl x (Hx x Hin)).
  - eapply Forall_impl; [exact Hx|]. intros y Hy. by right.
Qed.

Lemma sorted_NoDup_lt `{Keyed A} (l : list A) :
  StronglySorted ord_le l -> NoDup l -> StronglySorted ord_lt l.
Proof.
  induction 1 as [|x l _ IH Hx]; intros Hn; [constructor|]. apply NoDup_cons in Hn as [Hn1 Hn2].
  constructor; [by apply IH|]. rewrite Forall_forall in *. intros y Hy.
  destruct (Hx y Hy) as [->|?]; done.
Qed.

(** Sorting and comparing neighbours finds every duplicate. *)
Lemma sorted_windows_distinct `{Keyed A} `{EqDecision A} (l : list A) :
  windows_any (fun x y => bool_decide (x = y)) (sort_unstable l) = false <-> NoDup l.
Proof.
  rewrite windows_distinct by apply sort_unstable_sorted.
  assert (NoDup l <-> NoDup (sort_unstable l)) as -> by (by rewrite sort_unstable_Permutation). split.
  - intros Hl. by apply ord_lt_NoDup.
  - apply sorted_NoDup_lt, sort_unstable_sorted.
Qed.

(** [dedup]: the first of every run of equal elements. *)
Fixpoint dedup `{EqDecision A} (l : list A) : list A :=
  match l with
  | x :: (y :: _) as tail => if bool_decide (x = y) then dedup tail else x :: dedup tail
  | l => l
  end.

Lemma dedup_cons `{EqDecision A} (x y : A) l :
  dedup (x :: y :: l) = if bool_decide (x = y) then dedup (y :: l) else x :: dedup (y :: l).
Proof. done. Qed.

Lemma dedup_elem `{EqDecision A} (l : list A) x : x ∈ dedup l <-> x ∈ l.
Proof.
  induction l as [|y l IH]; [done|]. destruct l as [|z l]; [done|]. rewrite dedup_cons.
  case_bool_decide as E; [subst; rewrite IH; set_solver|]. by rewrite elem_of_cons, IH, <-elem_of_cons.
Qed.

Lemma dedup_length `{EqDecision A} (l : list A) : (length (dedup l) <= length l)%nat.
Proof.
  induction l as [|y l IH]; [done|]. destruct l as [|z l]; [done|]. rewrite dedup_cons.
  case_bool_decide; cbn [length] in *; lia.
Qed.

(** A sorted list is determined by its elements once repetitions are gone. *)
Section Canonical.
Context `{Keyed A} `{EqDecision A}.
Implicit Types (l k : list A).

Lemma dedup_sorted l : StronglySorted ord_le l -> StronglySorted ord_lt (dedup l).
Proof using Type.
  induction 1 as [|x l Hs IH Hx]; [constructor|]. destruct l as [|y l]; [repeat constructor|]. rewrite dedup_cons.
  case_bool_decide as E; [done|]. constructor; [done|]. apply Forall_forall. intros z Hz. rewrite dedup_elem in Hz.
  apply Forall_cons in Hx as [[->|Hxy] Hx]; [done|]. apply elem_of_cons in Hz as [->|Hz]; [done|].
  apply StronglySorted_inv in Hs as [_ Hy]. rewrite Forall_forall in Hy. destruct (Hy z Hz) as [<-|Hyz]; [done|]. by trans y.
Qed.

Lemma sorted_lt_unique l k :
  StronglySorted ord_lt l -> StronglySorted ord_lt k -> (forall x, x ∈ l <-> x ∈ k) -> l = k.
Proof using Type.
  intros Hl Hk Hx. apply ord_lt_NoDup in Hl as [Hdl Hl], Hk as [Hdk Hk].
  by apply (StronglySorted_unique ord_le); [..|apply NoDup_Permutation].
Qed.

(** [sort_unstable] followed by [dedup]. *)
Definition canonical l : list A := dedup (sort_unstable l).

Lemma canonical_elem l x : x ∈ canonical l <-> x ∈ l.
Proof using Type. unfold canonical. by rewrite dedup_elem, sort_unstable_Permutation. Qed.

Lemma canonical_sorted l : StronglySorted ord_lt (canonical l).
Proof using Type. apply dedup_sorted, sort_unstable_sorted. Qed.

Lemma canonical_ext l k : (forall x, x ∈ l <-> x ∈ k) -> canonical l = canonical k.
Proof using Type.
  intros H'. apply sorted_lt_unique; [apply canonical_sorted..|]. intros x. by rewrite !canonical_elem.
Qed.
End Canonical.

(** Sorting by a feature that no two elements share. *)
Section DistinctFeature.
Context {A B} (R : A -> A -> Prop) `{!RelDecision R, !Total R, !Transitive R} (feature : A -> B).
Context (Hanti : forall x y, R x y -> R y x -> feature x = feature y).

(** Two sorted lists of the same elements are equal. *)
Lemma sorted_distinct_unique : forall l k,
  StronglySorted R l -> StronglySorted R k -> NoDup (map feature l) -> Permutation l k -> l = k.
Proof using Hanti.
  induction l as [|x l IH]; intros [|y k] Hl Hk Hd Hp; [done|by apply Permutation_nil_cons in Hp|
      by apply Permutation_sym, Permutation_nil_cons in Hp|].
  apply StronglySorted_inv in Hl as [Hl Hx]. apply StronglySorted_inv in Hk as [Hk Hy].
  assert (x = y) as <-.
  { assert (x ∈ y :: k) as Hxk by (rewrite <-Hp; by left).
    assert (y ∈ x :: l) as Hyl by (rewrite Hp; by left).
    apply elem_of_cons in Hxk as [?|Hxk]; [done|]. apply elem_of_cons in Hyl as [?|Hyl]; [done|].
    rewrite Forall_forall in Hx, Hy. exfalso. apply NoDup_cons in Hd as [Hd _]. apply Hd.
    apply list_elem_of_fmap. exists y. split; [|done]. by apply Hanti; [apply Hx|apply Hy]. }
  apply NoDup_cons in Hd as [_ Hd]. f_equal. apply IH; [done..|]. by apply Permutation_cons_inv in Hp.
Qed.

Lemma sorted_distinct_merge_sort l k :
  StronglySorted R l -> Permutation l k -> NoDup (map feature k) -> l = merge_sort R k.
Proof using All.
  intros Hs Hp Hd. apply sorted_distinct_unique; [done|by apply StronglySorted_merge_sort|by rewrite Hp|].
  by rewrite merge_sort_Permutation.
Qed.

(** Sorting does not change a sorted list. *)
Lemma merge_sort_distinct_id l : StronglySorted R l -> NoDup (map feature l) -> merge_sort R l = l.
Proof using All. intros Hs Hd. symmetry. by apply sorted_distinct_merge_sort. Qed.

(** Sorting does not depend on the order it is given. *)
Lemma merge_sort_distinct_unique l k : Permutation l k -> NoDup (map feature k) -> merge_sort R l = merge_sort R k.
Proof using All.
  intros Hp Hd. apply sorted_distinct_merge_sort; [by apply StronglySorted_merge_sort|by rewrite merge_sort_Permutation|done].
Qed.
End DistinctFeature.

(** ** Keys *)

Definition string_key (s : string) : list N := map Byte.to_N (String.list_byte_of_string s).
Definition bytes_key (b : bytes) : list N := map Byte.to_N b.

#[export] Instance byte_to_N_inj : Inj (=) (=) Byte.to_N.
Proof. intros x y Hxy. apply (f_equal Byte.of_N) in Hxy. rewrite !Byte.of_to_N in Hxy. congruence. Qed.
#[export] Instance bytes_key_inj : Inj (=) (=) bytes_key.
Proof. intros x y. unfold bytes_key. apply (inj (fmap Byte.to_N)). Qed.
#[export] Instance string_key_inj : Inj (=) (=) string_key.
Proof.
  intros x y Hxy. apply bytes_key_inj in Hxy.
  apply (f_equal String.string_of_list_byte) in Hxy.
  by rewrite !String.string_of_list_byte_of_string in Hxy.
Qed.

#[export] Instance StableName_keyed : Keyed StableName.
Proof.
  refine {| key n := [string_key (stable_name n)] |}.
  intros [x] [y] [= Hxy]. simpl in Hxy. by apply (inj string_key) in Hxy as ->.
Defined.

Definition implementation_key (i : ImplementationId) : list (list N) :=
  [string_key (stable_name (provider i)); string_key (stable_name (operation i)); [version i]].

#[export] Instance ImplementationId_keyed : Keyed ImplementationId.
Proof.
  refine {| key := implementation_key |}.
  intros [[p] [o] v] [[p'] [o'] v'] [= Hp Ho Hv]. simpl in *.
  apply (inj string_key) in Hp as ->, Ho as ->. by subst.
Defined.
