(* ===== verification/Limits.v ===== *)
(** * Resource limits of [limits.rs] *)

From S2P Require Import Prelude Errors.
Local Open Scope N_scope.

Definition DEFAULT_MAX_HEADER_BYTES : N := 16 * 1024 * 1024.
Definition DEFAULT_MAX_TENSORS : N := 1000000.
Definition DEFAULT_MAX_SHARDS : N := 16384.
Definition DEFAULT_MAX_RANK : N := 64.
Definition DEFAULT_MAX_NAME_BYTES : N := 16 * 1024.
Definition DEFAULT_MAX_METADATA_BYTES : N := 4 * 1024 * 1024.
Definition DEFAULT_MAX_WORK_ITEMS : N := 1000000.
Definition DEFAULT_DELIVERY_QUEUE_DEPTH : N := 2.

Record ResourceLimits := {
  max_header_bytes : N;
  max_tensors : N;
  max_shards : N;
  max_rank : N;
  max_name_bytes : N;
  max_metadata_bytes : N
}.

Definition ResourceLimits_default : ResourceLimits := {|
  max_header_bytes := DEFAULT_MAX_HEADER_BYTES;
  max_tensors := DEFAULT_MAX_TENSORS;
  max_shards := DEFAULT_MAX_SHARDS;
  max_rank := DEFAULT_MAX_RANK;
  max_name_bytes := DEFAULT_MAX_NAME_BYTES;
  max_metadata_bytes := DEFAULT_MAX_METADATA_BYTES
|}.

(** The builder's setters, each by the field it replaces. *)
Inductive LimitSetting :=
  | SetHeaderBytes (value : N)
  | SetTensors (value : N)
  | SetShards (value : N)
  | SetRank (value : N)
  | SetNameBytes (value : N)
  | SetMetadataBytes (value : N).

Definition apply_setting (l : ResourceLimits) (s : LimitSetting) : ResourceLimits :=
  let 'Build_ResourceLimits h t sh r n m := l in
  match s with
  | SetHeaderBytes v => Build_ResourceLimits v t sh r n m
  | SetTensors v => Build_ResourceLimits h v sh r n m
  | SetShards v => Build_ResourceLimits h t v r n m
  | SetRank v => Build_ResourceLimits h t sh v n m
  | SetNameBytes v => Build_ResourceLimits h t sh r v m
  | SetMetadataBytes v => Build_ResourceLimits h t sh r n v
  end.

Definition ResourceLimitsBuilder_build (limits : ResourceLimits) : result ResourceLimits :=
  let all_nonzero :=
    (0 <? max_header_bytes limits) && (0 <? max_tensors limits) &&
    (0 <? max_shards limits) && (0 <? max_rank limits) &&
    (0 <? max_name_bytes limits) && (0 <? max_metadata_bytes limits) in
  _ ← reject (negb all_nonzero) ResourceLimit;
  mret limits.

Record ExecutionLimits := {
  workers : N;
  max_work_items : N;
  delivery_queue_depth : N;
  dispatch_lookahead : N;
  source_bytes : N;
  scratch_bytes : N;
  prepared_bytes : N
}.

Definition ExecutionLimits_validate (l : ExecutionLimits) : result unit :=
  reject ((workers l =? 0) || (max_work_items l =? 0) || (delivery_queue_depth l =? 0) ||
          (dispatch_lookahead l =? 0) || (source_bytes l =? 0) ||
          (scratch_bytes l =? 0) || (prepared_bytes l =? 0)) ResourceLimit.

(** The host's parallelism is what the platform reports, if it does. *)
Definition ExecutionLimits_default (available_parallelism : option N) : ExecutionLimits :=
  let available := default 1 available_parallelism in {|
  workers := available;
  max_work_items := DEFAULT_MAX_WORK_ITEMS;
  delivery_queue_depth := DEFAULT_DELIVERY_QUEUE_DEPTH;
  dispatch_lookahead := available;
  source_bytes := 256 * 1024 * 1024;
  scratch_bytes := 64 * 1024 * 1024;
  prepared_bytes := 512 * 1024 * 1024
|}.

Definition limits_nonzero (l : ResourceLimits) : Prop :=
  0 < max_header_bytes l /\ 0 < max_tensors l /\ 0 < max_shards l /\
  0 < max_rank l /\ 0 < max_name_bytes l /\ 0 < max_metadata_bytes l.

Lemma ResourceLimitsBuilder_build_Ok l l' :
  ResourceLimitsBuilder_build l = Ok l' <-> l' = l /\ limits_nonzero l.
Proof.
  unfold ResourceLimitsBuilder_build, limits_nonzero. split.
  - intros H. res_inv. auto 7.
  - intros (-> & H). rewrite <-!N.ltb_lt in H. destruct_and!.
    repeat match goal with E : (_ <? _) = true |- _ => rewrite E; clear E end. done.
Qed.

Definition setting_value (s : LimitSetting) : N :=
  match s with
  | SetHeaderBytes v | SetTensors v | SetShards v
  | SetRank v | SetNameBytes v | SetMetadataBytes v => v
  end.

(** Whatever nonzero values a caller sets over the defaults, in any order, the
    builder accepts them; a zero set last for its field is refused. *)
Lemma builder_accepts_nonzero settings :
  Forall (fun s => 0 < setting_value s) settings ->
  ResourceLimitsBuilder_build (foldl apply_setting ResourceLimits_default settings) =
  Ok (foldl apply_setting ResourceLimits_default settings).
Proof.
  intros H. apply ResourceLimitsBuilder_build_Ok. split; [done|].
  assert (limits_nonzero ResourceLimits_default) as H0 by (repeat split).
  revert H0. generalize ResourceLimits_default as l.
  induction H as [|s settings Hs _ IH]; intros l Hl; simpl; [done|]. apply IH.
  destruct l, s; unfold limits_nonzero in *; simpl in *; tauto.
Qed.

Lemma builder_rejects_zero settings s :
  setting_value s = 0 ->
  ResourceLimitsBuilder_build
    (foldl apply_setting ResourceLimits_default (settings ++ [s])) = Err ResourceLimit.
Proof.
  intros Hs. rewrite foldl_app. simpl.
  generalize (foldl apply_setting ResourceLimits_default settings) as l.
  intros []; destruct s; simpl in Hs; subst; unfold ResourceLimitsBuilder_build; simpl;
    rewrite ?andb_false_r; done.
Qed.

Lemma ExecutionLimits_validate_Ok l u :
  ExecutionLimits_validate l = Ok u <->
  workers l <> 0 /\ max_work_items l <> 0 /\ delivery_queue_depth l <> 0 /\
  dispatch_lookahead l <> 0 /\ source_bytes l <> 0 /\ scratch_bytes l <> 0 /\
  prepared_bytes l <> 0.
Proof.
  unfold ExecutionLimits_validate. rewrite reject_Ok, !orb_false_iff, !N.eqb_neq. tauto.
Qed.
