(* ===== verification/Representation.v ===== *)
(** * Representations and transforms

    The data of [prepare.rs] and [plan.rs] the other components exchange:
    physical layouts, scalar representations, versioned transforms and exact
    tensor names. *)

From S2P Require Import Prelude Errors Tensor Identity.
From Stdlib Require Strings.String.
Local Open Scope N_scope.

Inductive Layout :=
  | Contiguous
  | Custom (name : StableName) (version : N) (parameters : bytes).

#[export] Instance Layout_eq_dec : EqDecision Layout.
Proof. solve_decision. Defined.

Definition is_contiguous (l : Layout) : bool :=
  match l with Contiguous => true | Custom _ _ _ => false end.

Record Representation := {
  dtype : DType;
  layout : Layout
}.

#[export] Instance Representation_eq_dec : EqDecision Representation.
Proof. solve_decision. Defined.

Definition Representation_contiguous (d : DType) : Representation :=
  {| dtype := d; layout := Contiguous |}.

Record TransformSpec := {
  implementation : ImplementationId;
  source : Representation;
  target : Representation
}.

#[export] Instance TransformSpec_eq_dec : EqDecision TransformSpec.
Proof. solve_decision. Defined.

Record PlannedTransform := {
  transform : TransformSpec;
  output_size : N;
  transform_scratch_bytes : N
}.

#[export] Instance PlannedTransform_eq_dec : EqDecision PlannedTransform.
Proof. solve_decision. Defined.

Definition PlannedTransform_new (t : TransformSpec) (size : N) : PlannedTransform :=
  {| transform := t; output_size := size; transform_scratch_bytes := 0 |}.

Definition with_scratch_bytes (p : PlannedTransform) (scratch : N) : PlannedTransform :=
  {| transform := transform p; output_size := output_size p;
     transform_scratch_bytes := scratch |}.

(** ** Exact tensor names *)

Record TensorName := { tensor_name : string }.

#[export] Instance TensorName_eq_dec : EqDecision TensorName.
Proof. solve_decision. Defined.
#[export] Instance TensorName_countable : Countable TensorName :=
  inj_countable' tensor_name Build_TensorName
    (fun x => match x with Build_TensorName _ => eq_refl end).

Definition TensorName_parse (value : string) : result TensorName :=
  _ ← reject (String.length value =? 0)%nat InvalidFormat;
  mret {| tensor_name := value |}.

Definition TensorName_parse_with_max (value : string) (max_bytes : N) : result TensorName :=
  name ← TensorName_parse value;
  _ ← reject (max_bytes <? N.of_nat (String.length (tensor_name name))) ResourceLimit;
  mret name.

(** ** Requests *)

(** Everything a provider needs to validate and execute one transform. *)
Record PrepareRequest := {
  request_transform : TransformSpec;
  request_shape : list N;
  request_source : ByteView;
  expected_output_bytes : N;
  expected_scratch_bytes : N
}.

Definition PrepareRequest_new (t : TransformSpec) (shape : list N) (src : ByteView)
    (expected_output : N) : PrepareRequest :=
  {| request_transform := t; request_shape := shape; request_source := src;
     expected_output_bytes := expected_output; expected_scratch_bytes := 0 |}.

Definition with_expected_scratch_bytes (r : PrepareRequest) (scratch : N) : PrepareRequest :=
  {| request_transform := request_transform r; request_shape := request_shape r;
     request_source := request_source r;
     expected_output_bytes := expected_output_bytes r;
     expected_scratch_bytes := scratch |}.

Lemma is_contiguous_true l : is_contiguous l = true <-> l = Contiguous.
Proof. destruct l; simpl; naive_solver. Qed.

Lemma TensorName_parse_Ok value n :
  TensorName_parse value = Ok n <-> tensor_name n = value /\ value <> String.EmptyString.
Proof.
  unfold TensorName_parse. split.
  - intros H. res_inv. apply Nat.eqb_neq in H0. simpl. split; [done|].
    by intros ->.
  - intros [<- H]. destruct n as [[|c s]]; simpl in *; [done|done].
Qed.

Lemma TensorName_parse_with_max_Ok value max n :
  TensorName_parse_with_max value max = Ok n <->
  TensorName_parse value = Ok n /\ N.of_nat (String.length value) <= max.
Proof.
  unfold TensorName_parse_with_max. split.
  - intros H. res_inv. split; [done|].
    apply TensorName_parse_Ok in H0 as [<- _]. done.
  - intros [H Hle]. rewrite H. simpl. apply TensorName_parse_Ok in H as [-> _].
    apply N.ltb_ge in Hle. by rewrite Hle.
Qed.
