(* ===== verification/Quantization.v ===== *)
(** * Quantized storage descriptors of [quantization.rs]

    Packed payloads with their block rule, grouping and companion tensors, the
    builder that validates them, and the capability declarations of routes. *)


From S2P Require Import Prelude Errors Tensor Identity Order Representation.
Local Open Scope N_scope.

Definition QUANTIZED_STORAGE_SCHEMA_VERSION : N := 1.

Inductive MetadataValue :=
  | MetadataBool (value : bool)
  | MetadataI64 (value : Z)
  | MetadataU64 (value : N)
  | MetadataText (value : string)
  | MetadataBytes (value : bytes)
  | MetadataSequence (values : list MetadataValue)
  | MetadataObject (fields : list (StableName * MetadataValue)).

#[export] Instance MetadataValue_eq_dec : EqDecision MetadataValue.
Proof.
  refine (fix go (x y : MetadataValue) : Decision (x = y) :=
    match x, y with
    | MetadataBool a, MetadataBool b => cast_if (decide (a = b))
    | MetadataI64 a, MetadataI64 b => cast_if (decide (a = b))
    | MetadataU64 a, MetadataU64 b => cast_if (decide (a = b))
    | MetadataText a, MetadataText b => cast_if (decide (a = b))
    | MetadataBytes a, MetadataBytes b => cast_if (decide (a = b))
    | MetadataSequence a, MetadataSequence b => cast_if (@list_eq_dec _ go a b)
    | MetadataObject a, MetadataObject b => cast_if (@list_eq_dec _ (@prod_eq_dec _ _ _ go) a b)
    | _, _ => right _
    end); clear go; abstract congruence.
Defined.

(** ** Packing *)

Inductive PackingOrder :=
  | Flat
  | Axis (axis : N).

#[export] Instance PackingOrder_eq_dec : EqDecision PackingOrder.
Proof. solve_decision. Defined.

Record BlockPacking := {
  values_per_block : N;
  bytes_per_block : N;
  order : PackingOrder
}.

#[export] Instance BlockPacking_eq_dec : EqDecision BlockPacking.
Proof. solve_decision. Defined.

Definition BlockPacking_new (values bytes : N) (order : PackingOrder) : result BlockPacking :=
  _ ← reject ((values =? 0) || (bytes =? 0)) InvalidFormat;
  mret {| values_per_block := values; bytes_per_block := bytes; order := order |}.

(** The wire value has the fields of the descriptor. *)
Definition BlockPacking_try_from (wire : BlockPacking) : result BlockPacking :=
  BlockPacking_new (values_per_block wire) (bytes_per_block wire) (order wire).

Inductive Packing :=
  | Blocks (block : BlockPacking)
  | Opaque.

#[export] Instance Packing_eq_dec : EqDecision Packing.
Proof. solve_decision. Defined.

Definition flat_blocks (values bytes : N) : result Packing :=
  block ← BlockPacking_new values bytes Flat; mret (Blocks block).

Record Grouping := {
  grouping_axis : N;
  values_per_group : N
}.

#[export] Instance Grouping_eq_dec : EqDecision Grouping.
Proof. solve_decision. Defined.

Definition Grouping_new (axis values : N) : result Grouping :=
  _ ← reject (values =? 0) InvalidFormat;
  mret {| grouping_axis := axis; values_per_group := values |}.

Definition Grouping_try_from (wire : Grouping) : result Grouping :=
  Grouping_new (grouping_axis wire) (values_per_group wire).

(** ** Companions *)

Record CompanionTensor := {
  companion_name : string;
  companion_dtype : DType;
  companion_shape : list N;
  companion_span : SourceSpan
}.

#[export] Instance CompanionTensor_eq_dec : EqDecision CompanionTensor.
Proof. solve_decision. Defined.

Definition CompanionTensor_new (tensor : string) (dtype : DType) (shape : list N) (span : SourceSpan)
  : result CompanionTensor :=
  _ ← reject (bool_decide (tensor = "")) InvalidFormat;
  length ← byte_len dtype shape;
  _ ← reject (negb (length =? span_length span)) InvalidFormat;
  mret {| companion_name := tensor; companion_dtype := dtype; companion_shape := shape;
          companion_span := span |}.

Definition CompanionTensor_try_from (wire : CompanionTensor) : result CompanionTensor :=
  CompanionTensor_new (companion_name wire) (companion_dtype wire) (companion_shape wire)
    (companion_span wire).

Record Companion := {
  role : StableName;
  companion_tensor : CompanionTensor
}.

(** ** Validation *)

Definition block_bytes (values values_per_block bytes_per_block : N) : result N :=
  if values =? 0 then mret 0 else
  rounded ← (step ← unchecked_sub values_per_block 1;
             ok_or (checked_add values step) ResourceLimit);
  let blocks := rounded / values_per_block in
  ok_or (checked_mul blocks bytes_per_block) ResourceLimit.

Definition validate_axis (axis : N) (rank : nat) : result unit :=
  axis ← usize_try_from axis;
  reject (N.of_nat rank <=? axis) InvalidFormat.

Definition validate_shape_and_packing (shape : list N) (payload : SourceSpan) (packing : Packing)
  : result unit :=
  elements ← try_fold mul_dimension 1 shape;
  match packing with
  | Opaque => mret tt
  | Blocks block =>
      expected ←
        match order block with
        | Flat => block_bytes elements (values_per_block block) (bytes_per_block block)
        | Axis axis =>
            _ ← validate_axis axis (length shape);
            axis_index ← usize_try_from axis;
            axis_values ← index shape (N.to_nat axis_index);
            if axis_values =? 0 then mret 0 else
            let lines := elements / axis_values in
            bytes_per_line ← block_bytes axis_values (values_per_block block) (bytes_per_block block);
            ok_or (checked_mul lines bytes_per_line) ResourceLimit
        end;
      reject (negb (expected =? span_length payload)) InvalidFormat
  end.

(** ** Storage *)

Record QuantizedStorage := {
  schema_version : N;
  encoding : ImplementationId;
  logical_shape : list N;
  payload : SourceSpan;
  packing : Packing;
  grouping : option Grouping;
  required_companions : list StableName;
  companions : gmap StableName CompanionTensor;
  metadata : gmap StableName MetadataValue
}.

Record QuantizedStorageBuilder := {
  builder_encoding : ImplementationId;
  builder_shape : list N;
  builder_payload : SourceSpan;
  builder_packing : Packing;
  builder_grouping : option Grouping;
  builder_required : list StableName;
  builder_companions : list Companion;
  builder_metadata : gmap StableName MetadataValue
}.

Definition storage_builder (encoding : ImplementationId) (shape : list N) (payload : SourceSpan)
    (packing : Packing) : QuantizedStorageBuilder :=
  {| builder_encoding := encoding; builder_shape := shape; builder_payload := payload;
     builder_packing := packing; builder_grouping := None; builder_required := [];
     builder_companions := []; builder_metadata := ∅ |}.

(** The setters of the builder. *)
Inductive StorageSetting :=
  | SetGrouping (grouping : Grouping)
  | ExtendRequired (roles : list StableName)
  | ExtendCompanions (companions : list Companion)
  | SetMetadata (metadata : gmap StableName MetadataValue).

Definition apply_storage_setting (b : QuantizedStorageBuilder) (s : StorageSetting)
  : QuantizedStorageBuilder :=
  let 'Build_QuantizedStorageBuilder e sh p k g r c m := b in
  match s with
  | SetGrouping g => Build_QuantizedStorageBuilder e sh p k (Some g) r c m
  | ExtendRequired roles => Build_QuantizedStorageBuilder e sh p k g (r ++ roles) c m
  | ExtendCompanions cs => Build_QuantizedStorageBuilder e sh p k g r (c ++ cs) m
  | SetMetadata m => Build_QuantizedStorageBuilder e sh p k g r c m
  end.

Definition insert_companion (companions : gmap StableName CompanionTensor) (companion : Companion)
  : result (gmap StableName CompanionTensor) :=
  _ ← reject (bool_decide (is_Some (companions !! role companion))) Binding;
  mret (<[role companion := companion_tensor companion]> companions).

Definition build_storage (b : QuantizedStorageBuilder) : result QuantizedStorage :=
  _ ← validate_shape_and_packing (builder_shape b) (builder_payload b) (builder_packing b);
  _ ← match builder_grouping b with
      | Some grouping => validate_axis (grouping_axis grouping) (length (builder_shape b))
      | None => mret tt
      end;
  let required := sort_unstable (builder_required b) in
  _ ← reject (windows_any (fun x y => bool_decide (x = y)) required) Binding;
  companions ← try_fold insert_companion ∅ (builder_companions b);
  _ ← reject (existsb (fun role => negb (bool_decide (is_Some (companions !! role)))) required)
        Binding;
  mret {| schema_version := QUANTIZED_STORAGE_SCHEMA_VERSION; encoding := builder_encoding b;
          logical_shape := builder_shape b; payload := builder_payload b;
          packing := builder_packing b; grouping := builder_grouping b;
          required_companions := required; companions := companions;
          metadata := builder_metadata b |}.

Definition QuantizedStorage_new (encoding : ImplementationId) (shape : list N) (payload : SourceSpan)
    (packing : Packing) : result QuantizedStorage :=
  build_storage (storage_builder encoding shape payload packing).

(** A map in key order, as [BTreeMap] iterates. *)
Definition btree_list `{Countable K} `{Keyed K} {A} (m : gmap K A) : list (K * A) :=
  omap (fun k => (fun a => (k, a)) <$> m !! k) (sort_unstable (map fst (map_to_list m))).

(** The wire value has the fields of the descriptor. *)
Definition QuantizedStorage_try_from (wire : QuantizedStorage) : result QuantizedStorage :=
  _ ← reject (negb (schema_version wire =? QUANTIZED_STORAGE_SCHEMA_VERSION)) InvalidFormat;
  let companions := map (fun '(role, tensor) => {| role := role; companion_tensor := tensor |})
                      (btree_list (companions wire)) in
  let builder :=
    foldl apply_storage_setting
      (storage_builder (encoding wire) (logical_shape wire) (payload wire) (packing wire))
      [ExtendRequired (required_companions wire); ExtendCompanions companions;
       SetMetadata (metadata wire)] in
  match grouping wire with
  | Some grouping => build_storage (apply_storage_setting builder (SetGrouping grouping))
  | None => build_storage builder
  end.

Inductive Storage :=
  | Plain (dtype : DType) (span : SourceSpan)
  | Quantized (storage : QuantizedStorage).

#[export] Instance QuantizedStorage_eq_dec : EqDecision QuantizedStorage.
Proof. solve_decision. Defined.
#[export] Instance Storage_eq_dec : EqDecision Storage.
Proof. solve_decision. Defined.

Definition storage_span (s : Storage) : SourceSpan :=
  match s with Plain _ span => span | Quantized storage => payload storage end.

Definition storage_logical_dtype (s : Storage) : option DType :=
  match s with Plain dtype _ => Some dtype | Quantized _ => None end.

(** ** Routes and capabilities *)

Record BackendId := { backend_digest : ContentDigest }.

#[export] Instance BackendId_eq_dec : EqDecision BackendId.
Proof. solve_decision. Defined.

Inductive QuantizedRoute :=
  | HostDequant (target_dtype : DType)
  | PackedDirect
  | FusedInTile
  | DeviceDequantToScratch (target_dtype : DType)
  | Repack (target_encoding : ImplementationId).

#[export] Instance QuantizedRoute_eq_dec : EqDecision QuantizedRoute.
Proof. solve_decision. Defined.

Record LayoutRequirement := {
  layout_name : StableName;
  layout_version : N;
  layout_parameters : bytes
}.

#[export] Instance LayoutRequirement_eq_dec : EqDecision LayoutRequirement.
Proof. solve_decision. Defined.

Definition from_layout (l : Layout) : option LayoutRequirement :=
  match l with
  | Contiguous => None
  | Custom name version parameters =>
      Some {| layout_name := name; layout_version := version; layout_parameters := parameters |}
  end.

Definition matches_layout (r : LayoutRequirement) (l : Layout) : bool :=
  match l with
  | Contiguous => false
  | Custom name version parameters =>
      bool_decide (name = layout_name r) && (version =? layout_version r) &&
      bool_decide (parameters = layout_parameters r)
  end.

Record RouteCapability := {
  source_encoding : ImplementationId;
  route : QuantizedRoute;
  capability_implementation : ImplementationId;
  backend : option BackendId;
  target_layout : option LayoutRequirement
}.

#[export] Instance RouteCapability_eq_dec : EqDecision RouteCapability.
Proof. solve_decision. Defined.

Definition needs_backend (r : QuantizedRoute) : bool :=
  match r with
  | PackedDirect | FusedInTile | DeviceDequantToScratch _ => true
  | HostDequant _ | Repack _ => false
  end.

Definition RouteCapability_new (source : ImplementationId) (route : QuantizedRoute)
    (implementation : ImplementationId) (backend : option BackendId)
    (layout : option LayoutRequirement) : result RouteCapability :=
  _ ← reject (needs_backend route && bool_decide (backend = None)) Unsupported;
  mret {| source_encoding := source; route := route; capability_implementation := implementation;
          backend := backend; target_layout := layout |}.

(** The wire value has the fields of the declaration. *)
Definition RouteCapability_try_from (wire : RouteCapability) : result RouteCapability :=
  RouteCapability_new (source_encoding wire) (route wire) (capability_implementation wire)
    (backend wire) (target_layout wire).

Definition capability_matches (c : RouteCapability) (source : ImplementationId)
    (r : QuantizedRoute) (b : option BackendId) (l : option LayoutRequirement) : bool :=
  bool_decide (source_encoding c = source) && bool_decide (route c = r) &&
  bool_decide (backend c = b) && bool_decide (target_layout c = l).

(** *** The derived order *)

Definition dtype_index (d : DType) : N :=
  match d with
  | Bool => 0 | U8 => 1 | I8 => 2 | U16 => 3 | I16 => 4 | U32 => 5 | I32 => 6 | U64 => 7
  | I64 => 8 | F16 => 9 | Bf16 => 10 | F32 => 11 | F64 => 12 | C64 => 13 | F8E5M2 => 14
  | F8E4M3 => 15 | F8E8M0 => 16 | F8E4M3Fnuz => 17 | F8E5M2Fnuz => 18
  end.

Definition route_key (r : QuantizedRoute) : list (list N) :=
  match r with
  | HostDequant d => [[0]; [dtype_index d]]
  | PackedDirect => [[1]]
  | FusedInTile => [[2]]
  | DeviceDequantToScratch d => [[3]; [dtype_index d]]
  | Repack i => [4] :: implementation_key i
  end.

Definition backend_key (b : option BackendId) : list (list N) :=
  match b with
  | None => [[0]]
  | Some b => [[1]; bytes_key (digest_bytes (backend_digest b))]
  end.

Definition layout_key (l : option LayoutRequirement) : list (list N) :=
  match l with
  | None => [[0]]
  | Some l => [[1]; string_key (stable_name (layout_name l)); [layout_version l];
               bytes_key (layout_parameters l)]
  end.

Definition capability_key (c : RouteCapability) : list (list N) :=
  implementation_key (source_encoding c) ++ route_key (route c) ++
  implementation_key (capability_implementation c) ++ backend_key (backend c) ++
  layout_key (target_layout c).

Lemma dtype_index_inj d d' : dtype_index d = dtype_index d' -> d = d'.
Proof. by destruct d, d'. Qed.

Lemma implementation_key_app i j r r' :
  implementation_key i ++ r = implementation_key j ++ r' -> i = j /\ r = r'.
Proof.
  intros H. apply app_inj_1 in H as [H ->]; [|done]. split; [|done].
  by apply (inj (key (A := ImplementationId))).
Qed.

Lemma route_key_app q q' r r' :
  route_key q ++ r = route_key q' ++ r' -> q = q' /\ r = r'.
Proof.
  destruct q as [d| | |d|i], q' as [d'| | |d'|i']; cbn [route_key app]; intros H; try discriminate H.
  - injection H as Hd ->. by apply dtype_index_inj in Hd as ->.
  - by injection H as ->.
  - by injection H as ->.
  - injection H as Hd ->. by apply dtype_index_inj in Hd as ->.
  - apply (f_equal (@tl _)) in H. by apply implementation_key_app in H as [-> ->].
Qed.

Lemma backend_key_app b b' r r' :
  backend_key b ++ r = backend_key b' ++ r' -> b = b' /\ r = r'.
Proof.
  destruct b as [[[b]]|], b' as [[[b']]|]; cbn [backend_key app]; intros [= H]; subst; try done.
  by apply (inj bytes_key) in H as ->.
Qed.

Lemma layout_key_inj l l' : layout_key l = layout_key l' -> l = l'.
Proof.
  destruct l as [[[n] v p]|], l' as [[[n'] v' p']|]; cbn [layout_key]; intros H; try done.
  injection H as Hn Hv Hp. cbn in *. apply (inj string_key) in Hn as ->.
  apply (inj bytes_key) in Hp as ->. by subst.
Qed.

#[export] Instance RouteCapability_keyed : Keyed RouteCapability.
Proof.
  refine {| key := capability_key |}. intros [] [] H. unfold capability_key in H. cbn in H.
  apply implementation_key_app in H as [-> H]. apply route_key_app in H as [-> H].
  apply implementation_key_app in H as [-> H]. apply backend_key_app in H as [-> H].
  by apply layout_key_inj in H as ->.
Defined.

Record CapabilitySet := { capabilities : list RouteCapability }.

Definition CapabilitySet_new (cs : list RouteCapability) : result CapabilitySet :=
  let cs := sort_unstable cs in
  _ ← reject (windows_any (fun x y => bool_decide (x = y)) cs) Binding;
  mret {| capabilities := cs |}.

(** The wire value has the declarations in any order. *)
Definition CapabilitySet_try_from (wire : list RouteCapability) : result CapabilitySet :=
  CapabilitySet_new wire.

Definition matching (s : CapabilitySet) (source : ImplementationId) (r : QuantizedRoute)
    (b : option BackendId) (l : option LayoutRequirement) : list RouteCapability :=
  List.filter (fun c => capability_matches c source r b l) (capabilities s).

(** * Packed lengths, descriptors and capability sets *)

(** ** Packed lengths *)

(** The blocks that hold so many values. *)
Definition ceil_div (values block : N) : N := (values + (block - 1)) / block.

(** The bytes a packing needs for a shape. *)
Definition packed_bytes (block : BlockPacking) (shape : list N) : N :=
  match order block with
  | Flat => ceil_div (prodN shape) (values_per_block block) * bytes_per_block block
  | Axis axis =>
      prodN (delete (N.to_nat axis) shape) *
      (ceil_div (default 0 (shape !! N.to_nat axis)) (values_per_block block) * bytes_per_block block)
  end.

Lemma ceil_div_0 b : 0 < b -> ceil_div 0 b = 0.
Proof. intros H. unfold ceil_div. apply N.div_small. lia. Qed.

(** Just enough blocks. *)
Lemma ceil_div_spec v b : 0 < b -> v <= ceil_div v b * b /\ ceil_div v b * b < v + b.
Proof.
  intros Hb. unfold ceil_div. pose proof (N.div_mod (v + (b - 1)) b ltac:(lia)).
  pose proof (N.mod_lt (v + (b - 1)) b ltac:(lia)). rewrite (N.mul_comm _ b).
  generalize dependent ((v + (b - 1)) mod b). generalize (b * ((v + (b - 1)) / b)). intros. lia.
Qed.

Lemma block_bytes_Ok v b n r :
  0 < b -> block_bytes v b n = Ok r <->
  r = ceil_div v b * n /\ (v <> 0 -> v + (b - 1) <= u64_MAX /\ ceil_div v b * n <= u64_MAX).
Proof.
  intros Hb. unfold block_bytes. destruct (N.eqb_spec v 0) as [->|Hv].
  - rewrite ceil_div_0 by done. split; [intros [= <-]; split; [lia|done]|by intros [-> _]].
  - unfold unchecked_sub. rewrite (proj2 (N.leb_le _ _)) by lia. cbn [mbind result_bind].
    split.
    + intros H. res_inv. split; [done|]. intros _. unfold ceil_div. lia.
    + intros (-> & H). destruct (H Hv) as [H1 H2]. rewrite checked_add_ok by done.
      cbn [mbind result_bind ok_or]. by rewrite checked_mul_ok.
Qed.

Lemma prodN_delete shape i d : shape !! i = Some d -> prodN shape = d * prodN (delete i shape).
Proof.
  revert i. induction shape as [|e shape IH]; intros [|i] H; [done..| |].
  - by injection H as ->.
  - change (delete (S i) (e :: shape)) with (e :: delete i shape). rewrite !prodN_cons, (IH i H). lia.
Qed.

Lemma grouping_axis_Ok a n u : validate_axis a n = Ok u <-> a < N.of_nat n /\ a <= usize_MAX.
Proof.
  unfold validate_axis. split.
  - intros H. res_inv. done.
  - intros [Ha Hm]. rewrite (proj2 (usize_try_from_Ok a a)) by done. cbn [mbind result_bind].
    apply reject_Ok. by apply N.leb_gt.
Qed.

(** An accepted payload has exactly the bytes its blocks need. *)
Lemma validate_shape_and_packing_Ok shape span packing u :
  validate_shape_and_packing shape span packing = Ok u ->
  match packing with
  | Opaque => True
  | Blocks block =>
      0 < values_per_block block ->
      span_length span = packed_bytes block shape /\
      match order block with Flat => True | Axis a => a < N.of_nat (length shape) end
  end.
Proof.
  unfold validate_shape_and_packing. intros H. apply bind_Ok in H as (elements & He & H).
  apply try_fold_mul_Ok in He as [-> _]. rewrite N.mul_1_l in *.
  destruct packing as [block|]; [|done]. intros Hb. unfold packed_bytes.
  apply bind_Ok in H as (expected & Hx & H). res_inv. rewrite <-H.
  destruct (order block) as [|a].
  - apply block_bytes_Ok in Hx as [-> _]; [|done]. done.
  - apply bind_Ok in Hx as (? & [Ha _]%grouping_axis_Ok & Hx). split; [|done].
    apply bind_Ok in Hx as (i & [-> _]%usize_try_from_Ok & Hx).
    apply bind_Ok in Hx as (v & Hv%index_Ok & Hx). rewrite Hv. cbn [default].
    pose proof (prodN_delete _ _ _ Hv) as Hp.
    destruct (N.eqb_spec v 0) as [->|Hn]; [injection Hx as <-; rewrite ceil_div_0; lia|].
    apply bind_Ok in Hx as (bl & [-> _]%block_bytes_Ok & Hx); [|done]. res_inv.
    by rewrite Hx, Hp, (N.mul_comm v), N.div_mul.
Qed.

(** ** Descriptors *)

(** What a descriptor promises. *)
Record storage_wf (s : QuantizedStorage) : Prop := {
  storage_schema : schema_version s = QUANTIZED_STORAGE_SCHEMA_VERSION;
  storage_packed : validate_shape_and_packing (logical_shape s) (payload s) (packing s) = Ok tt;
  storage_axis g : grouping s = Some g -> grouping_axis g < N.of_nat (length (logical_shape s)) /\
    grouping_axis g <= usize_MAX;
  storage_roles : StronglySorted ord_lt (required_companions s);
  storage_present r : r ∈ required_companions s -> is_Some (companions s !! r)
}.

Lemma insert_companions_Ok cs : forall m m',
  try_fold insert_companion m cs = Ok m' <->
  NoDup (map role cs) /\ (forall r, r ∈ map role cs -> m !! r = None) /\
  m' = list_to_map (map (fun c => (role c, companion_tensor c)) cs) ∪ m.
Proof.
  induction cs as [|c cs IH]; intros m m'; cbn [try_fold map];
    rewrite ?list_to_map_nil, ?list_to_map_cons.
  - split; [intros [= <-]|intros (_ & _ & ->)]; [|by rewrite (left_id_L ∅ (∪))].
    split_and!; [constructor|set_solver|by rewrite (left_id_L ∅ (∪))].
  - assert (forall m1, insert_companion m c = Ok m1 <->
      m !! role c = None /\ m1 = <[role c := companion_tensor c]> m) as Hc.
    { intros m1. unfold insert_companion. rewrite bind_Ok. split.
      - intros (u & Hu%reject_Ok & [= <-]). apply bool_decide_eq_false in Hu.
        by rewrite <-eq_None_not_Some in Hu.
      - intros [Hn ->]. exists tt. split; [|done]. apply reject_Ok, bool_decide_eq_false.
        intros [? E]. congruence. }
    rewrite bind_Ok. split.
    + intros (m1 & [Hn ->]%Hc & (Hnd & Hfresh & ->)%IH). split_and!.
      * constructor; [|done]. intros Hin. specialize (Hfresh _ Hin).
        by rewrite lookup_insert_eq in Hfresh.
      * intros r [->|Hin]%elem_of_cons; [done|]. specialize (Hfresh r Hin).
        by apply lookup_insert_None in Hfresh as [? _].
      * rewrite <-(insert_union_l (M := gmap StableName)), (insert_union_r (M := gmap StableName)); [done|]. apply not_elem_of_list_to_map_1.
        rewrite map_map. intros Hin. specialize (Hfresh _ Hin).
        by rewrite lookup_insert_eq in Hfresh.
    + intros (Hnd & Hfresh & ->). apply NoDup_cons in Hnd as [Hc1 Hnd].
      eexists. split; [apply Hc; split; [apply Hfresh; by left|done]|]. apply IH. split_and!; [done| |].
      * intros r Hin. rewrite lookup_insert_ne by (by intros <-). apply Hfresh. by right.
      * rewrite <-(insert_union_l (M := gmap StableName)), (insert_union_r (M := gmap StableName)); [done|]. apply not_elem_of_list_to_map_1.
        by rewrite map_map.
Qed.

Lemma existsb_missing (m : gmap StableName CompanionTensor) l :
  existsb (fun r => negb (bool_decide (is_Some (m !! r)))) l = false <->
  forall r, r ∈ l -> is_Some (m !! r).
Proof.
  induction l as [|r l IH]; cbn [existsb]; [split; [set_solver|done]|].
  rewrite orb_false_iff, IH, negb_false_iff, bool_decide_eq_true. set_solver.
Qed.

(** Exactly which builders succeed, and what they build. *)
Lemma build_storage_Ok b s :
  build_storage b = Ok s <->
  validate_shape_and_packing (builder_shape b) (builder_payload b) (builder_packing b) = Ok tt /\
  (forall g, builder_grouping b = Some g ->
     grouping_axis g < N.of_nat (length (builder_shape b)) /\ grouping_axis g <= usize_MAX) /\
  NoDup (builder_required b) /\ NoDup (map role (builder_companions b)) /\
  builder_required b ⊆ map role (builder_companions b) /\
  s = {| schema_version := QUANTIZED_STORAGE_SCHEMA_VERSION; encoding := builder_encoding b;
         logical_shape := builder_shape b; payload := builder_payload b;
         packing := builder_packing b; grouping := builder_grouping b;
         required_companions := sort_unstable (builder_required b);
         companions := list_to_map (map (fun c => (role c, companion_tensor c)) (builder_companions b));
         metadata := builder_metadata b |}.
Proof.
  assert (forall r, is_Some ((list_to_map (map (fun c => (role c, companion_tensor c))
    (builder_companions b)) : gmap StableName CompanionTensor) !! r) <-> r ∈ map role (builder_companions b)) as Hdom.
  { intros r. rewrite <-elem_of_dom, dom_list_to_map_L, elem_of_list_to_set, map_map. done. }
  assert (match builder_grouping b with
          | Some g => validate_axis (grouping_axis g) (length (builder_shape b))
          | None => mret tt end = Ok tt <->
    (forall g, builder_grouping b = Some g ->
      grouping_axis g < N.of_nat (length (builder_shape b)) /\ grouping_axis g <= usize_MAX)) as Hg.
  { destruct (builder_grouping b) as [g|]; [rewrite grouping_axis_Ok; naive_solver|naive_solver]. }
  unfold build_storage. split.
  - intros H. apply bind_Ok in H as ([] & Hv & H). apply bind_Ok in H as ([] & Hgr & H).
    apply bind_Ok in H as (? & Hw%reject_Ok & H). apply bind_Ok in H as (m & Hm & H).
    apply bind_Ok in H as (? & Hp%reject_Ok & [= <-]).
    apply sorted_windows_distinct in Hw. apply insert_companions_Ok in Hm as (Hnd & _ & ->).
    rewrite (right_id_L ∅ (∪)) in *. pose proof (proj1 (existsb_missing _ _) Hp) as Hpres.
    split_and!; try done; [by apply Hg|]. intros r Hr. apply Hdom, Hpres.
    by rewrite sort_unstable_Permutation.
  - intros (Hv & Hgr & Hnd & Hndc & Hsub & ->). rewrite Hv. cbn [mbind result_bind].
    rewrite (proj2 Hg Hgr). cbn [mbind result_bind].
    rewrite (proj2 (sorted_windows_distinct _) Hnd). cbn [reject mbind result_bind].
    rewrite (proj2 (insert_companions_Ok _ _ _)
      (conj Hndc (conj (fun r _ => lookup_empty r) eq_refl))). cbn [mbind result_bind].
    rewrite (right_id_L ∅ (∪)), (proj2 (existsb_missing _ _)); [done|].
    intros r Hr. rewrite sort_unstable_Permutation in Hr. by apply Hdom, Hsub.
Qed.

(** A positive block size is all a descriptor needs not to panic. *)
Lemma block_bytes_not_Panic v b n : 0 < b -> block_bytes v b n <> Panic.
Proof.
  intros Hb. unfold block_bytes. destruct (v =? 0); [done|].
  apply bind_not_Panic; [|intros; no_panic]. apply bind_not_Panic; [|intros; no_panic].
  apply unchecked_sub_not_Panic. lia.
Qed.

Lemma validate_not_Panic shape span block :
  0 < values_per_block block -> validate_shape_and_packing shape span (Blocks block) <> Panic.
Proof.
  intros Hb. unfold validate_shape_and_packing.
  apply bind_not_Panic; [apply try_fold_mul_not_Panic|]. intros elements _.
  apply bind_not_Panic; [|intros; apply reject_not_Panic]. destruct (order block) as [|axis].
  { by apply block_bytes_not_Panic. }
  apply bind_not_Panic; [unfold validate_axis; no_panic|]. intros ? [Hax _]%grouping_axis_Ok.
  apply bind_not_Panic; [apply usize_try_from_not_Panic|]. intros i [-> _]%usize_try_from_Ok.
  apply bind_not_Panic; [apply index_not_Panic; lia|]. intros v _. destruct (v =? 0); [done|].
  apply bind_not_Panic; [by apply block_bytes_not_Panic|]. intros. apply ok_or_not_Panic.
Qed.

Lemma Quantized_new_not_Panic encoding shape span block :
  0 < values_per_block block -> QuantizedStorage_new encoding shape span (Blocks block) <> Panic.
Proof.
  intros Hb. unfold QuantizedStorage_new, build_storage.
  apply bind_not_Panic; [by apply validate_not_Panic|]. intros _ _. cbn. done.
Qed.

(** ** Wire form *)

Lemma btree_list_elem `{Countable K} `{Keyed K} {A} (m : gmap K A) k a :
  (k, a) ∈ btree_list m <-> m !! k = Some a.
Proof.
  unfold btree_list. rewrite list_elem_of_omap. split.
  - intros (k' & _ & Hk). destruct (m !! k') eqn:E; [|done]. by injection Hk as -> ->.
  - intros Hk. exists k. split; [|by rewrite Hk]. rewrite sort_unstable_Permutation.
    apply list_elem_of_fmap. exists (k, a). split; [done|]. by apply elem_of_map_to_list.
Qed.

Lemma btree_list_keys `{Countable K} `{Keyed K} {A} (m : gmap K A) :
  map fst (btree_list m) = sort_unstable (map fst (map_to_list m)).
Proof.
  unfold btree_list. assert (forall l, (forall k, k ∈ l -> is_Some (m !! k)) ->
    map fst (omap (fun k => (fun a => (k, a)) <$> m !! k) l) = l) as Hl.
  { induction l as [|k l IH]; intros Hall; [done|]. destruct (Hall k ltac:(by left)) as [a Ha].
    csimpl. rewrite Ha. csimpl. f_equal. apply IH. intros k' Hk'. apply Hall. by right. }
  apply Hl. intros k. rewrite sort_unstable_Permutation. intros ([k' a] & -> & Hin)%list_elem_of_fmap.
  apply elem_of_map_to_list in Hin. by exists a.
Qed.

Lemma btree_list_NoDup `{Countable K} `{Keyed K} {A} (m : gmap K A) : NoDup (map fst (btree_list m)).
Proof. rewrite btree_list_keys, sort_unstable_Permutation. apply NoDup_fst_map_to_list. Qed.

Lemma btree_list_to_map `{Countable K} `{Keyed K} {A} (m : gmap K A) : list_to_map (btree_list m) = m.
Proof.
  apply map_eq. intros k. apply option_eq. intros a.
  rewrite <-elem_of_list_to_map by apply btree_list_NoDup. apply btree_list_elem.
Qed.

Lemma build_storage_wf b s : build_storage b = Ok s -> storage_wf s.
Proof.
  intros (Hv & Hg & Hnd & Hndc & Hsub & ->)%build_storage_Ok. split;
    cbn [schema_version logical_shape payload packing grouping required_companions companions]; try done.
  - apply sorted_NoDup_lt; [apply sort_unstable_sorted|by rewrite sort_unstable_Permutation].
  - intros r Hr. rewrite sort_unstable_Permutation in Hr. apply Hsub in Hr.
    rewrite <-elem_of_dom, dom_list_to_map_L, elem_of_list_to_set, map_map. done.
Qed.

(** A wire value is accepted exactly when it is a valid descriptor up to the
    order of its required roles. *)
Lemma QuantizedStorage_try_from_wf s : storage_wf s -> QuantizedStorage_try_from s = Ok s.
Proof.
  intros [Hs Hv Hg Hr Hp]. unfold QuantizedStorage_try_from. rewrite Hs. cbn [reject mbind result_bind].
  apply ord_lt_NoDup in Hr as [Hnd Hsorted].
  pose (b := {| builder_encoding := encoding s; builder_shape := logical_shape s;
    builder_payload := payload s; builder_packing := packing s; builder_grouping := grouping s;
    builder_required := required_companions s;
    builder_companions := map (fun '(role, tensor) => {| role := role; companion_tensor := tensor |})
      (btree_list (companions s)); builder_metadata := metadata s |}).
  assert (build_storage b = Ok s) as Hb.
  { assert (map role (builder_companions b) = map fst (btree_list (companions s))) as Hroles.
    { cbn [b builder_companions]. rewrite map_map. apply map_ext. by intros [r t]. }
    apply build_storage_Ok. rewrite Hroles.
    cbn [b builder_encoding builder_shape builder_payload builder_packing builder_grouping
      builder_required builder_companions builder_metadata]. split_and!; try done.
    - apply btree_list_NoDup.
    - intros r Hin. destruct (Hp r Hin) as [t Ht]. apply list_elem_of_fmap. exists (r, t).
      split; [done|]. by apply btree_list_elem.
    - rewrite sort_unstable_id by done. rewrite map_map.
      rewrite (map_ext _ id) by (by intros [r t]). rewrite map_id, btree_list_to_map. destruct s; simpl in *; congruence. }
  rewrite <-Hb. unfold b. cbn [foldl apply_storage_setting storage_builder app].
  by destruct (grouping s).
Qed.

Lemma QuantizedStorage_try_from_Ok w s : QuantizedStorage_try_from w = Ok s -> storage_wf s.
Proof.
  unfold QuantizedStorage_try_from. intros H. apply bind_Ok in H as (? & _ & H).
  destruct (grouping w); by apply build_storage_wf in H.
Qed.

(** ** Capability sets *)

Lemma CapabilitySet_new_Ok cs s :
  CapabilitySet_new cs = Ok s <-> NoDup cs /\ s = {| capabilities := sort_unstable cs |}.
Proof.
  unfold CapabilitySet_new. rewrite bind_Ok. split.
  - intros (u & Hw%reject_Ok & [= <-]). by apply sorted_windows_distinct in Hw.
  - intros [Hnd ->]. exists tt. split; [|done]. by apply reject_Ok, sorted_windows_distinct.
Qed.

Lemma CapabilitySet_new_error cs e :
  CapabilitySet_new cs = Err e <-> ~ NoDup cs /\ e = Binding.
Proof.
  unfold CapabilitySet_new. rewrite <-sorted_windows_distinct.
  destruct (windows_any _ _); cbn [reject mbind result_bind]; split; try done.
  - by intros [= <-].
  - by intros [_ ->].
  - by intros [[] _].
Qed.

Lemma capability_matches_spec c source r b l :
  capability_matches c source r b l = true <->
  source_encoding c = source /\ route c = r /\ backend c = b /\ target_layout c = l.
Proof. unfold capability_matches. rewrite !andb_true_iff, !bool_decide_eq_true. tauto. Qed.
