(* ===== verification/Strides.v ===== *)
(** * Shape and stride arithmetic of [operation.rs]

    Element counts, row-major strides, the two stride validators and the
    coordinate arithmetic of the copy kernels, with the theory of row-major
    and of injective stride mappings the other files build on. *)

From S2P Require Import Prelude Errors Tensor.
Local Open Scope N_scope.

(** ** Definitions *)

Definition validate_rank (rank : nat) : result unit :=
  _ ← u32_try_from (N.of_nat rank); mret tt.

Definition checked_element_count (shape : list N) : result N :=
  try_fold mul_dimension 1 shape.

(** The reverse loop of [contiguous_strides]: the strides of the axes visited
    so far and the running [stride]. *)
Fixpoint contiguous_strides_loop (shape : list N) : result (list N * N) :=
  match shape with
  | [] => Ok ([], 1)
  | dimension :: shape =>
      '(strides, stride) ← contiguous_strides_loop shape;
      next ← ok_or (checked_mul stride dimension) ResourceLimit;
      mret (stride :: strides, next)
  end.

Definition contiguous_strides (shape : list N) : result (list N) :=
  _ ← validate_rank (length shape);
  '(strides, _) ← contiguous_strides_loop shape;
  mret strides.

(** The order both validators sort the varying axes by. *)
Definition stride_le (x y : N * N) : Prop := snd x <= snd y.

#[export] Instance stride_le_dec : RelDecision stride_le.
Proof. intros x y. unfold stride_le. apply _. Defined.

(** The axes with more than one index, as (dimension, stride) pairs. *)
Definition varying_axes (shape strides : list N) : list (N * N) :=
  filter (fun axis => 1 < fst axis) (zip shape strides).

Definition dense_step (expected_stride : N) (axis : N * N) : result N :=
  let '(dimension, stride) := axis in
  _ ← reject (negb (stride =? expected_stride)) InvalidFormat;
  ok_or (checked_mul expected_stride dimension) ResourceLimit.

Definition validate_dense_strides (shape strides : list N) (elements : N) : result unit :=
  if elements =? 0 then mret tt else
  let axes := merge_sort stride_le (varying_axes shape strides) in
  expected_stride ← try_fold dense_step 1 axes;
  reject (negb (expected_stride =? elements)) InvalidFormat.

Definition storage_step (span : N) (axis : N * N) : result N :=
  let '(dimension, stride) := axis in
  _ ← reject (stride <? span) InvalidFormat;
  ok_or (extent ← checked_sub dimension 1;
         extent ← checked_mul extent stride;
         checked_add extent span) ResourceLimit.

Definition validate_storage_strides (logical_shape storage_strides : list N)
    (logical_elements storage_elements : N) : result unit :=
  if logical_elements =? 0 then mret tt else
  _ ← reject (storage_elements =? 0) InvalidFormat;
  let axes := merge_sort stride_le (varying_axes logical_shape storage_strides) in
  span ← try_fold storage_step 1 axes;
  reject (storage_elements <? span) InvalidFormat.

Definition logical_coordinate (linear : N) (axis : nat) (shape row_strides : list N)
  : result N :=
  dimension ← ok_or (shape !! axis) Integrity;
  stride ← ok_or (row_strides !! axis) Integrity;
  _ ← reject ((dimension =? 0) || (stride =? 0)) Integrity;
  mret ((linear / stride) mod dimension).

Definition checked_offset_term (offset coordinate stride : N) : result N :=
  ok_or (term ← checked_mul coordinate stride; checked_add offset term) ResourceLimit.

(** ** Reference mappings *)

Fixpoint row_strides (shape : list N) : list N :=
  match shape with
  | [] => []
  | _ :: shape => prodN shape :: row_strides shape
  end.

(** The coordinates of a row-major linear index. *)
Fixpoint decode (shape : list N) (linear : N) : list N :=
  match shape with
  | [] => []
  | d :: shape => (linear / prodN shape) mod d :: decode shape linear
  end.

Definition encode (shape coords : list N) : N := dotN coords (row_strides shape).

Definition in_shape (shape coords : list N) : Prop := Forall2 N.lt coords shape.

(** Places the i-th value at position [order[i]]. *)
Definition scatter {A} (fill : A) (order : list nat) (values : list A) : list A :=
  foldl (fun acc '(a, x) => <[a := x]> acc) (replicate (length order) fill) (zip order values).

(** Distinct coordinates have distinct offsets. *)
Definition injective_strides (shape strides : list N) : Prop := forall c c',
  in_shape shape c -> in_shape shape c' -> dotN c strides = dotN c' strides -> c = c'.

Definition bounded_strides (shape strides : list N) (bound : N) : Prop := forall c,
  in_shape shape c -> dotN c strides < bound.

(** Every suffix product of the shape fits [u64]. *)
Definition suffixes_fit (shape : list N) : Prop :=
  Forall (fun n => n <= u64_MAX) (map (fun k => prodN (drop k shape)) (seq 0 (length shape))).

(** ** Row-major mappings *)

Lemma row_strides_length shape : length (row_strides shape) = length shape.
Proof. induction shape; simpl; auto. Qed.

Lemma decode_length shape l : length (decode shape l) = length shape.
Proof. induction shape; simpl; auto. Qed.

Lemma decode_add shape k l : decode shape (k * prodN shape + l) = decode shape l.
Proof.
  revert k l. induction shape as [|d shape IH]; intros k l; [done|].
  cbn [decode]. rewrite prodN_cons, N.mul_assoc. f_equal; [|apply IH].
  destruct (decide (prodN shape = 0)) as [->|Hp]; [by rewrite N.mul_0_r|].
  rewrite N.div_add_l by done. destruct (decide (d = 0)) as [->|Hd].
  { by rewrite N.mul_0_r. }
  by rewrite N.add_comm, N.Div0.mod_add.
Qed.

Lemma encode_decode_mod shape l :
  Forall (fun d => d <> 0) shape -> encode shape (decode shape l) = l mod prodN shape.
Proof.
  unfold encode. induction 1 as [|d shape Hd Hs IH]; [by rewrite N.mod_1_r|].
  cbn [decode row_strides]. rewrite dotN_cons, IH, prodN_cons.
  apply prodN_pos in Hs. rewrite (N.mul_comm d), N.Div0.mod_mul_r. lia.
Qed.

Lemma encode_decode shape l :
  l < prodN shape -> encode shape (decode shape l) = l.
Proof.
  intros H. rewrite encode_decode_mod; [by apply N.mod_small|].
  apply prodN_pos. lia.
Qed.

Lemma decode_in_shape shape l : prodN shape <> 0 -> in_shape shape (decode shape l).
Proof.
  intros H%prodN_pos. unfold in_shape.
  induction H as [|d shape Hd Hs IH]; [constructor|].
  constructor; [|done]. by apply N.mod_lt.
Qed.

Lemma in_shape_length shape c : in_shape shape c -> length c = length shape.
Proof. apply Forall2_length. Qed.

Lemma in_shape_pos shape c : in_shape shape c -> prodN shape <> 0.
Proof.
  intros H. apply prodN_pos. induction H; constructor; [lia|done].
Qed.

Lemma encode_bound shape c : in_shape shape c -> encode shape c < prodN shape.
Proof.
  unfold encode. induction 1 as [|x d c shape Hx Hc IH]; [done|].
  cbn [row_strides]. rewrite dotN_cons, prodN_cons. nia.
Qed.

Lemma decode_encode shape c : in_shape shape c -> decode shape (encode shape c) = c.
Proof.
  unfold encode. induction 1 as [|x d c shape Hx Hc IH]; [done|].
  pose proof (encode_bound _ _ Hc) as Hb. unfold encode in Hb.
  cbn [row_strides decode]. rewrite dotN_cons. f_equal.
  - rewrite N.div_add_l by lia. rewrite (N.div_small _ _ Hb), N.add_0_r.
    by apply N.mod_small.
  - by rewrite decode_add.
Qed.

Lemma decode_inj shape l l' :
  l < prodN shape -> l' < prodN shape -> decode shape l = decode shape l' -> l = l'.
Proof.
  intros H H' E. rewrite <-(encode_decode shape l), <-(encode_decode shape l') by done.
  by rewrite E.
Qed.

Lemma in_shape_decode shape c :
  in_shape shape c -> exists l, l < prodN shape /\ decode shape l = c.
Proof. intros H. exists (encode shape c). eauto using encode_bound, decode_encode. Qed.

(** ** The element count and the row-major strides *)

Lemma checked_element_count_Ok shape n :
  checked_element_count shape = Ok n -> n = prodN shape /\ n <= u64_MAX.
Proof.
  unfold checked_element_count. intros [-> Hb]%try_fold_mul_Ok.
  rewrite N.mul_1_l in *. split; [done|]. by apply Hb.
Qed.

Lemma contiguous_strides_loop_Ok shape s n :
  contiguous_strides_loop shape = Ok (s, n) -> s = row_strides shape /\ n = prodN shape.
Proof.
  revert s n. induction shape as [|d shape IH]; intros s n H; simpl in H.
  { injection H as <- <-. done. }
  res_inv. destruct a as [s' n']. res_inv.
  destruct (IH _ _ H0) as [-> ->]. injection H as <- <-.
  rewrite prodN_cons. simpl. split; [done|lia].
Qed.

Lemma contiguous_strides_Ok shape s :
  contiguous_strides shape = Ok s ->
  s = row_strides shape /\ N.of_nat (length shape) <= u32_MAX /\ prodN shape <= u64_MAX.
Proof.
  unfold contiguous_strides, validate_rank. intros H.
  apply bind_Ok in H as (? & Hr & H). apply bind_Ok in H as ([s' n] & Hl & H). res_inv.
  assert (prodN shape <= u64_MAX).
  { destruct shape as [|d shape]; [done|]. simpl in Hl.
    apply bind_Ok in Hl as ([? ?] & Hl & Hn). res_inv.
    apply contiguous_strides_loop_Ok in Hl as [_ ->]. rewrite prodN_cons. lia. }
  by apply contiguous_strides_loop_Ok in Hl as [-> _].
Qed.

Lemma contiguous_strides_loop_fits shape :
  Forall (fun d => d <> 0) shape -> prodN shape <= u64_MAX ->
  contiguous_strides_loop shape = Ok (row_strides shape, prodN shape).
Proof.
  induction 1 as [|d shape Hd Hs IH]; [done|]. rewrite prodN_cons. intros Hle.
  simpl. rewrite IH by (apply prodN_pos in Hs; nia). simpl.
  rewrite checked_mul_ok by lia. simpl. by rewrite N.mul_comm.
Qed.

(** A non-empty shape within the numeric limits always has row-major strides. *)
Lemma contiguous_strides_complete shape :
  N.of_nat (length shape) <= u32_MAX -> prodN shape <> 0 -> prodN shape <= u64_MAX ->
  contiguous_strides shape = Ok (row_strides shape).
Proof.
  intros Hr Hp Hle. unfold contiguous_strides, validate_rank, u32_try_from.
  apply N.leb_le in Hr. rewrite Hr. simpl.
  rewrite contiguous_strides_loop_fits; [done | by apply prodN_pos | done].
Qed.

Lemma contiguous_strides_loop_not_Panic shape : contiguous_strides_loop shape <> Panic.
Proof.
  induction shape as [|d shape IH]; simpl; [done|].
  apply bind_not_Panic; [done|]. intros [s n] _. no_panic.
Qed.

Lemma contiguous_strides_not_Panic shape : contiguous_strides shape <> Panic.
Proof.
  unfold contiguous_strides, validate_rank. apply bind_not_Panic; [no_panic|intros _ _].
  apply bind_not_Panic; [apply contiguous_strides_loop_not_Panic|]. by intros [s n] _.
Qed.

#[export] Hint Resolve contiguous_strides_not_Panic : no_panic.

(** ** Coordinates *)

Lemma logical_coordinate_Ok linear axis shape c :
  prodN shape <> 0 -> decode shape linear !! axis = Some c ->
  logical_coordinate linear axis shape (row_strides shape) = Ok c.
Proof.
  unfold logical_coordinate. intros Hp%prodN_pos. revert axis.
  induction Hp as [|d shape Hd Hs IH]; intros [|axis] H; try done; simpl in *.
  - apply prodN_pos in Hs. apply N.eqb_neq in Hd, Hs. rewrite Hd, Hs. simpl.
    by injection H as <-.
  - by apply IH.
Qed.

Lemma checked_offset_term_Ok o c s :
  o + c * s <= u64_MAX -> checked_offset_term o c s = Ok (o + c * s).
Proof.
  intros H. unfold checked_offset_term.
  rewrite checked_mul_ok by lia. simpl. by rewrite checked_add_ok.
Qed.

(** ** Axes in any order *)

(** A coordinate pair with its axis. *)
Definition paired (c c' : list N) (axes : list (N * N)) : list ((N * N) * (N * N)) :=
  zip (zip c c') axes.

Definition offset_l (l : list ((N * N) * (N * N))) : N :=
  sumN (map (fun x => fst (fst x) * snd (snd x)) l).
Definition offset_r (l : list ((N * N) * (N * N))) : N :=
  sumN (map (fun x => snd (fst x) * snd (snd x)) l).

Definition pair_valid (x : (N * N) * (N * N)) : Prop :=
  fst (fst x) < fst (snd x) /\ snd (fst x) < fst (snd x).

(** The storage check on any list of axes: below the span, offsets of distinct
    coordinates differ, and the final span bounds them. *)
Lemma storage_fold_spec l : forall span a a' final,
  try_fold storage_step span (map snd l) = Ok final ->
  Forall pair_valid l -> a < span -> a' < span ->
  a + offset_l l < final /\
  (a + offset_l l = a' + offset_r l -> a = a' /\ Forall (fun x => fst (fst x) = snd (fst x)) l).
Proof.
  induction l as [|[[c c'] [d s]] l IH]; intros span a a' final H Hv Ha Ha'; simpl in H.
  { injection H as <-. unfold offset_l, offset_r; simpl.
    rewrite !N.add_0_r. split; [lia|]. intros ->. auto. }
  apply Forall_cons in Hv as [[Hc Hc'] Hv]. simpl in Hc, Hc'.
  apply bind_Ok in H as (span' & Hs & H). res_inv.
  unfold mbind, option_bind in *. repeat case_match; try done. res_inv.
  destruct (IH _ (a + c * s) (a' + c' * s) _ H Hv) as [Hb Hi]; [nia|nia|].
  change (offset_l (((c, c'), (d, s)) :: l)) with (c * s + offset_l l).
  change (offset_r (((c, c'), (d, s)) :: l)) with (c' * s + offset_r l).
  split; [lia|]. intros E.
  destruct Hi as [He Hl]; [lia|]. assert (c = c') as -> by nia.
  split; [lia|]. by constructor.
Qed.

Lemma map_snd_paired c c' axes :
  length c = length axes -> length c' = length axes -> map snd (paired c c' axes) = axes.
Proof. intros. unfold paired. apply snd_zip. rewrite length_zip_with. lia. Qed.

Lemma offset_l_paired c c' shape strides :
  length c = length shape -> length c' = length shape -> length strides = length shape ->
  offset_l (paired c c' (zip shape strides)) = dotN c strides.
Proof.
  unfold paired, offset_l, dotN. revert c' shape strides.
  induction c as [|x c IH]; intros [|y c'] [|d shape] [|s strides]; simpl; try done.
  intros. rewrite sumN_cons. by rewrite IH by lia.
Qed.

Lemma offset_r_paired c c' shape strides :
  length c = length shape -> length c' = length shape -> length strides = length shape ->
  offset_r (paired c c' (zip shape strides)) = dotN c' strides.
Proof.
  unfold paired, offset_r, dotN. revert c' shape strides.
  induction c as [|x c IH]; intros [|y c'] [|d shape] [|s strides]; simpl; try done.
  intros. rewrite sumN_cons. by rewrite IH by lia.
Qed.

Lemma paired_valid c c' shape strides :
  in_shape shape c -> in_shape shape c' -> Forall pair_valid (paired c c' (zip shape strides)).
Proof.
  unfold in_shape, paired. intros Hc. revert c' strides.
  induction Hc as [|x d c shape Hx Hc IH]; intros c' strides Hc'.
  { by inversion Hc'; subst. }
  inversion Hc'; subst. destruct strides as [|s strides]; simpl; [constructor|].
  constructor; [done|]. by apply IH.
Qed.

(** The pairs on the varying axes. *)
Definition varying (l : list ((N * N) * (N * N))) : list ((N * N) * (N * N)) :=
  filter (fun x => 1 < fst (snd x)) l.

Lemma map_snd_varying l : map snd (varying l) = filter (fun axis => 1 < fst axis) (map snd l).
Proof.
  unfold varying. induction l as [|[p [d s]] l IH]; [done|].
  cbn [map]. rewrite !filter_cons. simpl. by case_decide; simpl; rewrite IH.
Qed.

Lemma varying_offsets l :
  Forall pair_valid l ->
  offset_l (varying l) = offset_l l /\ offset_r (varying l) = offset_r l.
Proof.
  unfold varying. induction 1 as [|[[c c'] [d s]] l [Hc Hc'] _ [IHl IHr]]; [done|].
  simpl in Hc, Hc'. rewrite filter_cons.
  change (offset_l (((c, c'), (d, s)) :: l)) with (c * s + offset_l l).
  change (offset_r (((c, c'), (d, s)) :: l)) with (c' * s + offset_r l).
  case_decide as Hd; simpl in Hd.
  - change (offset_l (((c, c'), (d, s)) :: filter (fun x => 1 < fst (snd x)) l))
      with (c * s + offset_l (filter (fun x => 1 < fst (snd x)) l)).
    change (offset_r (((c, c'), (d, s)) :: filter (fun x => 1 < fst (snd x)) l))
      with (c' * s + offset_r (filter (fun x => 1 < fst (snd x)) l)).
    by rewrite IHl, IHr.
  - assert (c = 0) as -> by lia. assert (c' = 0) as -> by lia. by rewrite IHl, IHr.
Qed.

Lemma varying_equal l :
  Forall pair_valid l ->
  Forall (fun x => fst (fst x) = snd (fst x)) (varying l) ->
  Forall (fun x => fst (fst x) = snd (fst x)) l.
Proof.
  rewrite !Forall_forall. intros Hv He [[c c'] [d s]] Hx.
  specialize (Hv _ Hx) as [Hc Hc']. simpl in *. destruct (decide (1 < d)).
  - apply (He ((c, c'), (d, s))). unfold varying. by apply list_elem_of_filter.
  - lia.
Qed.

Lemma paired_equal c c' axes :
  length c = length axes -> length c' = length axes ->
  Forall (fun x => fst (fst x) = snd (fst x)) (paired c c' axes) -> c = c'.
Proof.
  unfold paired. revert c' axes.
  induction c as [|x c IH]; intros [|y c'] [|a axes]; simpl; try done.
  intros Hl Hl' [Hx H]%Forall_cons. simpl in Hx. f_equal; [done|].
  eapply IH; [| |exact H]; lia.
Qed.

(** The storage fold over any ordering of the varying axes. *)
Lemma storage_fold_sound shape strides axes span :
  length strides = length shape ->
  Permutation (varying_axes shape strides) axes ->
  try_fold storage_step 1 axes = Ok span ->
  injective_strides shape strides /\ bounded_strides shape strides span.
Proof.
  intros Hlen Hperm Hfold.
  assert (forall c c', in_shape shape c -> in_shape shape c' ->
    dotN c strides < span /\ (dotN c strides = dotN c' strides -> c = c')) as Hmain.
  { intros c c' Hc Hc'. pose proof (in_shape_length _ _ Hc). pose proof (in_shape_length _ _ Hc').
    assert (length (zip shape strides) = length shape) as Hz by (rewrite length_zip_with; lia).
    pose proof (paired_valid _ _ _ strides Hc Hc') as Hv.
    set (l := paired c c' (zip shape strides)) in *.
    assert (map snd l = zip shape strides) as Hsnd by (apply map_snd_paired; lia).
    unfold varying_axes in Hperm. rewrite <-Hsnd, <-map_snd_varying in Hperm.
    symmetry in Hperm. apply Permutation_map_inv in Hperm as (k & -> & Hk).
    assert (Forall pair_valid k) as Hvk.
    { rewrite <-Hk. unfold varying. rewrite Forall_forall in Hv |- *.
      intros x [_ Hx]%list_elem_of_filter. by apply Hv. }
    destruct (storage_fold_spec _ _ 0 0 _ Hfold Hvk) as [Hb Hi]; [lia..|].
    assert (offset_l k = dotN c strides /\ offset_r k = dotN c' strides) as [El Er].
    { destruct (varying_offsets _ Hv) as [Hl Hr]. unfold offset_l, offset_r in *.
      rewrite <-(sumN_Permutation _ _ (Permutation_map _ Hk)), Hl.
      rewrite <-(sumN_Permutation _ _ (Permutation_map _ Hk)), Hr. split.
      - apply offset_l_paired; lia.
      - apply offset_r_paired; lia. }
    rewrite El in Hb. rewrite El, Er in Hi. split; [lia|]. intros E.
    destruct Hi as [_ He]; [lia|]. apply (paired_equal _ _ (zip shape strides)); [lia..|].
    fold l. apply varying_equal; [done|]. by rewrite Hk. }
  split.
  - intros c c' Hc Hc'. by apply Hmain.
  - intros c Hc. by apply (Hmain c c).
Qed.

(** ** The validators *)

Lemma validate_storage_strides_sound shape strides elements storage_elements :
  length strides = length shape -> elements <> 0 ->
  validate_storage_strides shape strides elements storage_elements = Ok tt ->
  injective_strides shape strides /\ bounded_strides shape strides storage_elements.
Proof.
  intros Hlen He. unfold validate_storage_strides. apply N.eqb_neq in He. rewrite He.
  intros H. apply bind_Ok in H as (? & _ & H). apply bind_Ok in H as (span & Hf & H). res_inv.
  destruct (storage_fold_sound _ _ _ _ Hlen (symmetry (merge_sort_Permutation _ _)) Hf)
    as [Hi Hb].
  split; [done|]. intros c Hc. specialize (Hb c Hc). lia.
Qed.

(** The dense check is the storage check with no gap. *)
Lemma dense_fold_storage axes : forall e r,
  Forall (fun axis => 1 < fst axis) axes ->
  try_fold dense_step e axes = Ok r -> try_fold storage_step e axes = Ok r.
Proof.
  induction axes as [|[d s] axes IH]; intros e r Hv H; [done|].
  apply Forall_cons in Hv as [Hd Hv]. simpl in *.
  apply bind_Ok in H as (e' & Hs & H). res_inv. subst.
  rewrite N.ltb_irrefl. simpl. rewrite checked_sub_ok by lia. simpl.
  rewrite checked_mul_ok by nia. simpl. rewrite checked_add_ok by nia. simpl.
  apply IH; [done|]. by replace ((d - 1) * e + e) with (e * d) by nia.
Qed.

Lemma validate_dense_strides_injective shape strides elements :
  length strides = length shape -> elements <> 0 ->
  validate_dense_strides shape strides elements = Ok tt ->
  injective_strides shape strides /\ bounded_strides shape strides elements.
Proof.
  intros Hlen He. unfold validate_dense_strides. apply N.eqb_neq in He. rewrite He.
  intros H. apply bind_Ok in H as (r & Hf & H). res_inv. subst.
  apply (storage_fold_sound _ _ (merge_sort stride_le (varying_axes shape strides)));
    [done | symmetry; apply merge_sort_Permutation |].
  apply dense_fold_storage; [|done].
  rewrite merge_sort_Permutation. unfold varying_axes.
  apply Forall_forall. by intros x [? _]%list_elem_of_filter.
Qed.

(** An injective mapping into as many slots as there are coordinates fills
    them all. *)
Lemma injective_strides_onto shape strides n :
  injective_strides shape strides -> bounded_strides shape strides (prodN shape) ->
  n < prodN shape -> exists c, in_shape shape c /\ dotN c strides = n.
Proof.
  intros Hi Hb Hn.
  assert (prodN shape <> 0) as Hp by lia.
  set (f := fun k => dotN (decode shape (N.of_nat k)) strides).
  set (xs := seq 0 (N.to_nat (prodN shape))).
  assert (NoDup (map f xs)) as Hnd.
  { apply NoDup_fmap_2_strong; [|apply NoDup_seq].
    intros x y Hx%elem_of_seq Hy%elem_of_seq E.
    apply Hi in E; [|by apply decode_in_shape..].
    apply decode_inj in E; lia. }
  assert (map f xs ⊆ map N.of_nat xs) as Hsub.
  { intros y (k & -> & Hk)%list_elem_of_fmap.
    assert (f k < prodN shape) by (apply Hb; by apply decode_in_shape).
    apply list_elem_of_fmap. exists (N.to_nat (f k)).
    split; [by rewrite N2Nat.id|]. apply elem_of_seq. lia. }
  assert (map f xs ≡ₚ map N.of_nat xs) as Hperm.
  { apply submseteq_length_Permutation.
    - by apply NoDup_submseteq.
    - by rewrite !length_map. }
  assert (n ∈ map f xs) as Hin.
  { rewrite Hperm. apply list_elem_of_fmap. exists (N.to_nat n).
    split; [by rewrite N2Nat.id|]. apply elem_of_seq. lia. }
  apply list_elem_of_fmap in Hin as (k & -> & _).
  exists (decode shape (N.of_nat k)). split; [by apply decode_in_shape|done].
Qed.

(** ** Scattering along a permutation *)

Lemma foldl_insert_length {A} (l : list (nat * A)) acc :
  length (foldl (fun acc '(a, x) => <[a := x]> acc) acc l) = length acc.
Proof.
  revert acc. induction l as [|[a x] l IH]; intros acc; [done|].
  simpl. by rewrite IH, length_insert.
Qed.

Lemma scatter_length {A} (fill : A) order values :
  length (scatter fill order values) = length order.
Proof. unfold scatter. by rewrite foldl_insert_length, length_replicate. Qed.

Lemma foldl_insert_lookup {A} (l : list (nat * A)) acc a x :
  NoDup (map fst l) -> (a, x) ∈ l -> (a < length acc)%nat ->
  foldl (fun acc '(a, x) => <[a := x]> acc) acc l !! a = Some x.
Proof.
  intros Hnd. revert acc. induction l as [|[b y] l IH]; intros acc Hin Ha.
  { by apply elem_of_nil in Hin. }
  simpl in *. apply NoDup_cons in Hnd as [Hb Hnd].
  apply elem_of_cons in Hin as [[= -> ->]|Hin].
  - clear IH. revert acc Ha. induction l as [|[c z] l IHl]; intros acc Ha; simpl.
    { by apply list_lookup_insert_eq. }
    simpl in Hb, Hnd. rewrite not_elem_of_cons in Hb. destruct Hb as [Hne Hb].
    apply NoDup_cons in Hnd as [_ Hnd].
    rewrite list_insert_insert_ne by done. apply IHl; [done|done|]. by rewrite length_insert.
  - apply IH; [done|done|]. by rewrite length_insert.
Qed.

Lemma scatter_lookup {A} (fill : A) order values i a :
  NoDup order -> Forall (fun a => (a < length order)%nat) order ->
  length values = length order -> order !! i = Some a ->
  scatter fill order values !! a = values !! i.
Proof.
  intros Hnd Hlt Hlen Hi.
  assert (is_Some (values !! i)) as [x Hx].
  { apply lookup_lt_is_Some. apply lookup_lt_Some in Hi. lia. }
  rewrite Hx. unfold scatter. apply foldl_insert_lookup.
  - change (map fst (zip order values)) with (fst <$> zip order values).
    rewrite fst_zip by lia. done.
  - apply list_elem_of_lookup. exists i. by rewrite lookup_zip_with, Hi; simpl; rewrite Hx.
  - rewrite length_replicate. rewrite Forall_forall in Hlt. apply Hlt.
    apply list_elem_of_lookup. eauto.
Qed.

(** [order] lists every axis below its length exactly once. *)
Definition is_order (order : list nat) : Prop :=
  NoDup order /\ Forall (fun a => (a < length order)%nat) order.

Lemma is_order_Permutation order :
  is_order order <-> Permutation order (seq 0 (length order)).
Proof.
  split.
  - intros [Hnd Hlt]. apply submseteq_length_Permutation.
    + apply NoDup_submseteq; [done|]. intros a Ha. rewrite Forall_forall in Hlt.
      apply elem_of_seq. specialize (Hlt a Ha). lia.
    + by rewrite length_seq.
  - intros H. split; [rewrite H; apply NoDup_seq|]. rewrite H at 1.
    apply Forall_forall. intros a Ha%elem_of_seq. lia.
Qed.

(** The values picked along [order]. *)
Definition gather (order : list nat) (c : list N) : list N := map (fun a => c !!! a) order.

Lemma gather_length order c : length (gather order c) = length order.
Proof. apply length_map. Qed.

Lemma gather_lookup order c i a :
  order !! i = Some a -> (a < length c)%nat -> gather order c !! i = c !! a.
Proof.
  intros Hi Ha. unfold gather.
  change (map (fun a => c !!! a) order) with ((fun a => c !!! a) <$> order).
  rewrite list_lookup_fmap, Hi. simpl. symmetry. by apply list_lookup_lookup_total_lt.
Qed.

Lemma is_order_surjective order a :
  is_order order -> (a < length order)%nat -> exists i, order !! i = Some a.
Proof.
  intros H%is_order_Permutation Ha. apply list_elem_of_lookup. rewrite H.
  apply elem_of_seq. lia.
Qed.

Lemma gather_scatter order c :
  is_order order -> length c = length order -> gather order (scatter 0 order c) = c.
Proof.
  intros [Hnd Hlt] Hc. apply list_eq. intros i.
  destruct (order !! i) as [a|] eqn:Hi.
  - rewrite (gather_lookup _ _ _ a Hi).
    + by apply scatter_lookup.
    + rewrite scatter_length. rewrite Forall_forall in Hlt. apply Hlt.
      apply list_elem_of_lookup. eauto.
  - apply lookup_ge_None in Hi. rewrite !lookup_ge_None_2; [done|lia|].
    rewrite gather_length. lia.
Qed.

Lemma scatter_gather order c :
  is_order order -> length c = length order -> scatter 0 order (gather order c) = c.
Proof.
  intros Ho Hc. apply list_eq. intros a.
  destruct (decide (a < length order)%nat) as [Ha|Ha].
  - destruct (is_order_surjective _ _ Ho Ha) as [i Hi]. destruct Ho as [Hnd Hlt].
    rewrite (scatter_lookup _ _ _ i) by (rewrite ?gather_length; done).
    apply gather_lookup; [done|lia].
  - rewrite !lookup_ge_None_2; [done|lia|]. rewrite scatter_length. lia.
Qed.

(** Coordinates moved along a permutation keep their offset when the strides
    move with them. *)
Lemma dotN_seq c s :
  length c = length s ->
  dotN c s = sumN (map (fun i => (c !!! i) * (s !!! i)) (seq 0 (length c))).
Proof.
  unfold dotN. revert s. induction c as [|x c IH]; intros [|y s]; simpl; try done.
  intros H. rewrite !sumN_cons, IH by lia. f_equal. by rewrite <-seq_shift, map_map.
Qed.

Lemma dotN_gather order c s :
  is_order order -> length c = length order -> length s = length order ->
  dotN (gather order c) (gather order s) = dotN c s.
Proof.
  intros Ho Hc Hs. rewrite (dotN_seq c s) by lia. rewrite Hc.
  rewrite <-(sumN_Permutation _ _ (Permutation_map _ (proj1 (is_order_Permutation _) Ho))).
  unfold dotN, gather. clear Ho Hc Hs. induction order as [|a order IH]; [done|].
  simpl. by rewrite !sumN_cons, IH.
Qed.

Lemma dotN_scatter order c s :
  is_order order -> length c = length order -> length s = length order ->
  dotN (scatter 0 order c) (scatter 0 order s) = dotN c s.
Proof.
  intros Ho Hc Hs.
  rewrite <-(dotN_gather order) by (rewrite ?scatter_length; done).
  by rewrite !gather_scatter.
Qed.

Lemma in_shape_gather order shape c :
  is_order order -> length shape = length order ->
  in_shape shape c -> in_shape (gather order shape) (gather order c).
Proof.
  unfold in_shape, gather. intros [_ Hlt] Hs Hc. rewrite Forall2_fmap. apply Forall_Forall2_diag.
  eapply Forall_impl; [exact Hlt|]. simpl. intros a Ha.
  assert (a < length shape)%nat as Hl by lia.
  pose proof (Forall2_length _ _ _ Hc).
  eapply Forall2_lookup_lr; [exact Hc| |]; apply list_lookup_lookup_total_lt; lia.
Qed.

Lemma in_shape_scatter order shape c :
  is_order order -> length shape = length order ->
  in_shape (gather order shape) c -> in_shape shape (scatter 0 order c).
Proof.
  intros Ho Hs Hc. pose proof (in_shape_length _ _ Hc) as Hl. rewrite gather_length in Hl.
  apply Forall2_same_length_lookup_2; [by rewrite scatter_length|].
  intros a x d Hx Hd. assert (a < length order)%nat as Ha.
  { apply lookup_lt_Some in Hd. lia. }
  destruct (is_order_surjective _ _ Ho Ha) as [i Hi]. destruct Ho as [Hnd Hlt].
  rewrite (scatter_lookup _ _ _ i) in Hx by done.
  eapply Forall2_lookup_lr; [exact Hc|exact Hx|].
  rewrite (gather_lookup _ _ _ a) by (done || lia). done.
Qed.

(** ** Ties of the unstable sort *)

Lemma storage_fold_increasing axes : forall span r,
  1 <= span -> Forall (fun axis => 1 < fst axis) axes ->
  try_fold storage_step span axes = Ok r ->
  Forall (fun axis => span <= snd axis) axes /\ NoDup (map snd axes).
Proof.
  induction axes as [|[d s] axes IH]; intros span r Hs Hv H.
  { split; constructor. }
  apply Forall_cons in Hv as [Hd Hv]. simpl in *.
  apply bind_Ok in H as (span' & Hst & H). res_inv.
  rewrite checked_sub_ok in Hst by lia. simpl in Hst.
  unfold mbind, option_bind in Hst. case_match; [|done]. res_inv.
  edestruct IH as [Hle Hnd]; [|exact Hv|exact H|]; [nia|].
  split.
  - constructor; [done|]. eapply Forall_impl; [exact Hle|]. simpl. nia.
  - simpl. constructor; [|done]. intros (x & -> & Hx)%list_elem_of_fmap.
    rewrite Forall_forall in Hle. specialize (Hle _ Hx). nia.
Qed.

(** Success of the storage check does not depend on how the unstable sort
    orders axes of equal stride: when one order is accepted it is the only one. *)
Lemma storage_fold_tie_free axes axes' r :
  Forall (fun axis => 1 < fst axis) axes ->
  StronglySorted stride_le axes -> StronglySorted stride_le axes' ->
  Permutation axes axes' ->
  try_fold storage_step 1 axes = Ok r -> axes' = axes.
Proof.
  intros Hv Hs Hs' Hp Hf.
  destruct (storage_fold_increasing axes 1 r (N.le_refl 1) Hv Hf) as [_ Hnd].
  symmetry. eapply (StronglySorted_unique_strong stride_le); [|done|done|done].
  intros x y Hx Hy Hxy Hyx. rewrite <-Hp in Hy. unfold stride_le in *.
  apply list_elem_of_lookup in Hx as [i Hi]. apply list_elem_of_lookup in Hy as [j Hj].
  assert (i = j) as ->; [|congruence].
  eapply NoDup_lookup; [exact Hnd| |]; rewrite list_lookup_fmap.
  - by rewrite Hi.
  - rewrite Hj. simpl. assert (snd y = snd x) as -> by lia. done.
Qed.
