(* ===== verification/Facts.v ===== *)
(** * Tensor facts of [operation.rs]

    [TensorFacts]: the checked description of one dense tensor, its
    constructors and the invariant every constructed value satisfies. *)

From S2P Require Import Prelude Errors Tensor Representation Strides.
Local Open Scope N_scope.

Record TensorFacts := {
  logical_shape : list N;
  storage_shape : list N;
  logical_strides : list N;
  storage_strides : list N;
  representation : Representation;
  facts_byte_len : N
}.

#[export] Instance TensorFacts_eq_dec : EqDecision TensorFacts.
Proof. solve_decision. Defined.

Definition TensorFacts_new (logical_shape storage_shape logical_strides storage_strides : list N)
    (representation : Representation) (given_byte_len : N) : result TensorFacts :=
  _ ← validate_rank (length logical_shape);
  _ ← validate_rank (length storage_shape);
  _ ← reject (bool_decide (length logical_shape <> length storage_shape)) InvalidFormat;
  _ ← reject (bool_decide (length logical_shape <> length logical_strides)) InvalidFormat;
  _ ← reject (bool_decide (length logical_shape <> length storage_strides)) InvalidFormat;
  logical_elements ← checked_element_count logical_shape;
  storage_elements ← checked_element_count storage_shape;
  _ ← validate_dense_strides logical_shape logical_strides logical_elements;
  _ ← validate_storage_strides logical_shape storage_strides logical_elements storage_elements;
  _ ← (if is_contiguous (layout representation) then
         expected_storage_strides ← contiguous_strides logical_shape;
         reject (bool_decide (storage_shape <> logical_shape) ||
                 bool_decide (storage_strides <> expected_storage_strides)) InvalidFormat
       else mret tt);
  expected_bytes ← byte_len (dtype representation) storage_shape;
  _ ← reject (negb (given_byte_len =? expected_bytes)) InvalidFormat;
  mret {| logical_shape := logical_shape; storage_shape := storage_shape;
          logical_strides := logical_strides; storage_strides := storage_strides;
          representation := representation; facts_byte_len := given_byte_len |}.

Definition TensorFacts_contiguous (shape : list N) (representation : Representation)
  : result TensorFacts :=
  _ ← reject (negb (is_contiguous (layout representation))) InvalidFormat;
  strides ← contiguous_strides shape;
  len ← byte_len (dtype representation) shape;
  TensorFacts_new shape shape strides strides representation len.

Definition element_count (f : TensorFacts) : N :=
  foldl saturating_mul 1 (logical_shape f).

Definition is_canonical_contiguous (f : TensorFacts) : bool :=
  is_contiguous (layout (representation f)) &&
  bool_decide (logical_shape f = storage_shape f) &&
  match contiguous_strides (logical_shape f) with
  | Ok strides =>
      bool_decide (strides = logical_strides f) && bool_decide (strides = storage_strides f)
  | _ => false
  end.

(** The wire form has the same fields; deserialization replays the checks. *)
Record TensorFactsWire := {
  wire_logical_shape : list N;
  wire_storage_shape : list N;
  wire_logical_strides : list N;
  wire_storage_strides : list N;
  wire_representation : Representation;
  wire_byte_len : N
}.

Definition TensorFacts_try_from (w : TensorFactsWire) : result TensorFacts :=
  TensorFacts_new (wire_logical_shape w) (wire_storage_shape w) (wire_logical_strides w)
    (wire_storage_strides w) (wire_representation w) (wire_byte_len w).

Definition TensorFacts_serialize (f : TensorFacts) : TensorFactsWire := {|
  wire_logical_shape := logical_shape f; wire_storage_shape := storage_shape f;
  wire_logical_strides := logical_strides f; wire_storage_strides := storage_strides f;
  wire_representation := representation f; wire_byte_len := facts_byte_len f |}.

(** ** The invariant *)

Definition facts_dtype (f : TensorFacts) : DType := dtype (representation f).

(** Bytes per scalar. *)
Definition width (f : TensorFacts) : N := bits (facts_dtype f) / 8.

(** The physical element offset of a logical coordinate. *)
Definition offset_of (f : TensorFacts) (c : list N) : N := dotN c (storage_strides f).

Record facts_wf (f : TensorFacts) : Prop := {
  wf_rank : N.of_nat (length (logical_shape f)) <= u32_MAX;
  wf_storage_rank : length (storage_shape f) = length (logical_shape f);
  wf_logical_strides : length (logical_strides f) = length (logical_shape f);
  wf_storage_strides : length (storage_strides f) = length (logical_shape f);
  wf_elements : prodN (logical_shape f) <= u64_MAX;
  wf_bytes : facts_byte_len f = prodN (storage_shape f) * width f;
  wf_bytes_fit : facts_byte_len f <= u64_MAX;
  wf_logical_injective : prodN (logical_shape f) <> 0 ->
    injective_strides (logical_shape f) (logical_strides f);
  wf_logical_dense : prodN (logical_shape f) <> 0 ->
    bounded_strides (logical_shape f) (logical_strides f) (prodN (logical_shape f));
  wf_injective : prodN (logical_shape f) <> 0 ->
    injective_strides (logical_shape f) (storage_strides f);
  wf_bounded : prodN (logical_shape f) <> 0 ->
    bounded_strides (logical_shape f) (storage_strides f) (prodN (storage_shape f));
  wf_contiguous : is_contiguous (layout (representation f)) = true ->
    storage_shape f = logical_shape f /\ storage_strides f = row_strides (logical_shape f)
}.

(** Row-major strides of the logical shape are representable; this can only
    fail for an empty tensor. *)
Definition addressable (f : TensorFacts) : Prop :=
  contiguous_strides (logical_shape f) = Ok (row_strides (logical_shape f)).

(** ** Construction establishes the invariant *)

Lemma TensorFacts_new_fields ls ss lst sst r n f :
  TensorFacts_new ls ss lst sst r n = Ok f ->
  f = {| logical_shape := ls; storage_shape := ss; logical_strides := lst;
         storage_strides := sst; representation := r; facts_byte_len := n |}.
Proof.
  unfold TensorFacts_new. intros H.
  repeat (apply bind_Ok in H as (? & _ & H)). by res_inv.
Qed.

Lemma TensorFacts_new_wf ls ss lst sst r n f :
  TensorFacts_new ls ss lst sst r n = Ok f -> facts_wf f.
Proof.
  intros H. pose proof (TensorFacts_new_fields _ _ _ _ _ _ _ H) as ->.
  unfold TensorFacts_new in H.
  apply bind_Ok in H as (? & Hrank & H). apply bind_Ok in H as (? & _ & H).
  do 3 (apply bind_Ok in H as (? & ?%reject_Ok & H)).
  apply bind_Ok in H as (le & Hle & H). apply bind_Ok in H as (se & Hse & H).
  apply bind_Ok in H as ([] & Hdense & H). apply bind_Ok in H as ([] & Hstor & H).
  apply bind_Ok in H as ([] & Hcont & H). apply bind_Ok in H as (eb & Heb & H).
  unfold validate_rank in Hrank. res_inv. subst.
  apply checked_element_count_Ok in Hle as [-> Hle], Hse as [-> Hse].
  apply byte_len_Ok in Heb as (-> & Hb & _).
  repeat match goal with E : ~ _ <> _ |- _ => apply dec_stable in E end.
  constructor; simpl; auto; try congruence.
  - intros Hp. by eapply validate_dense_strides_injective in Hdense as [? _].
  - intros Hp. by eapply validate_dense_strides_injective in Hdense as [_ ?].
  - intros Hp. by eapply validate_storage_strides_sound in Hstor as [? _].
  - intros Hp. by eapply validate_storage_strides_sound in Hstor as [_ ?].
  - intros Hc. rewrite Hc in Hcont.
    apply bind_Ok in Hcont as (st & Hst & Hcont).
    apply contiguous_strides_Ok in Hst as (-> & _ & _). res_inv.
    repeat match goal with E : ~ _ <> _ |- _ => apply dec_stable in E end. done.
Qed.

Lemma TensorFacts_contiguous_Ok shape r f :
  TensorFacts_contiguous shape r = Ok f ->
  facts_wf f /\ logical_shape f = shape /\ storage_shape f = shape /\
  logical_strides f = row_strides shape /\ storage_strides f = row_strides shape /\
  representation f = r /\ is_contiguous (layout r) = true /\ addressable f.
Proof.
  unfold TensorFacts_contiguous. intros H.
  apply bind_Ok in H as (? & Hc & H). apply bind_Ok in H as (st & Hst & H).
  apply bind_Ok in H as (len & _ & H). res_inv.
  pose proof (contiguous_strides_Ok _ _ Hst) as (-> & _).
  pose proof (TensorFacts_new_wf _ _ _ _ _ _ _ H).
  pose proof (TensorFacts_new_fields _ _ _ _ _ _ _ H) as ->.
  unfold addressable. simpl. auto 10.
Qed.

(** The wire form of constructed facts deserializes to the same facts. *)
Lemma TensorFacts_roundtrip ls ss lst sst r n f :
  TensorFacts_new ls ss lst sst r n = Ok f ->
  TensorFacts_try_from (TensorFacts_serialize f) = Ok f.
Proof.
  intros H. pose proof (TensorFacts_new_fields _ _ _ _ _ _ _ H) as ->. exact H.
Qed.

Lemma TensorFacts_try_from_wf w f : TensorFacts_try_from w = Ok f -> facts_wf f.
Proof. apply TensorFacts_new_wf. Qed.

(** ** Consequences *)

Lemma width_pos f : 0 < width f <= 8.
Proof. unfold width. apply bits_aligned. Qed.

Lemma element_count_saturates shape acc :
  acc <= u64_MAX -> foldl saturating_mul acc shape <= u64_MAX.
Proof.
  revert acc. induction shape as [|d shape IH]; intros acc H; simpl; [done|].
  apply IH. unfold saturating_mul. lia.
Qed.

Lemma foldl_saturating_mul acc shape :
  prefix_products_fit acc shape = true -> foldl saturating_mul acc shape = acc * prodN shape.
Proof.
  revert acc. induction shape as [|d shape IH]; intros acc H; simpl in *.
  { unfold prodN; simpl. lia. }
  bool_to_prop. unfold saturating_mul at 2. rewrite N.min_l by done.
  rewrite IH by done. by rewrite prodN_cons, N.mul_assoc.
Qed.

Lemma prefix_products_fit_nonzero acc shape :
  Forall (fun d => d <> 0) shape -> acc * prodN shape <= u64_MAX ->
  prefix_products_fit acc shape = true.
Proof.
  intros H. revert acc. induction H as [|d shape Hd Hs IH]; intros acc Hle; [done|].
  rewrite prodN_cons in Hle. apply prodN_pos in Hs as Hp. simpl.
  apply andb_true_iff. split; [apply N.leb_le; nia|]. apply IH. by rewrite <-N.mul_assoc.
Qed.

Lemma foldl_saturating_zero shape : foldl saturating_mul 0 shape = 0.
Proof.
  induction shape as [|d shape IH]; [done|]. simpl. unfold saturating_mul at 2.
  by rewrite N.mul_0_l, N.min_0_l.
Qed.

Lemma foldl_saturating_zero_dim acc shape :
  prodN shape = 0 -> foldl saturating_mul acc shape = 0.
Proof.
  revert acc. induction shape as [|d shape IH]; intros acc H; [done|].
  rewrite prodN_cons in H. simpl. destruct (decide (d = 0)) as [->|Hd].
  - unfold saturating_mul at 2. rewrite N.mul_0_r, N.min_0_l. apply foldl_saturating_zero.
  - apply IH. nia.
Qed.

(** The saturating count is the exact count. *)
Lemma element_count_exact f : facts_wf f -> element_count f = prodN (logical_shape f).
Proof.
  intros H. unfold element_count. destruct (decide (prodN (logical_shape f) = 0)) as [E|E].
  - by rewrite E, foldl_saturating_zero_dim.
  - rewrite foldl_saturating_mul; [lia|]. apply prefix_products_fit_nonzero.
    + by apply prodN_pos.
    + rewrite N.mul_1_l. apply H.
Qed.

(** An element of a well-formed tensor lies inside its bytes. *)
Lemma element_in_bytes f c :
  facts_wf f -> in_shape (logical_shape f) c ->
  (offset_of f c + 1) * width f <= facts_byte_len f.
Proof.
  intros Hwf Hc. pose proof (in_shape_pos _ _ Hc) as Hp.
  pose proof (wf_bounded f Hwf Hp c Hc) as Hb.
  rewrite (wf_bytes f Hwf). unfold offset_of. nia.
Qed.

Lemma addressable_nonempty f :
  facts_wf f -> prodN (logical_shape f) <> 0 -> addressable f.
Proof. intros H Hp. apply contiguous_strides_complete; [apply H|done|apply H]. Qed.

Lemma is_canonical_contiguous_true f :
  is_canonical_contiguous f = true ->
  is_contiguous (layout (representation f)) = true /\
  storage_shape f = logical_shape f /\
  logical_strides f = row_strides (logical_shape f) /\
  storage_strides f = row_strides (logical_shape f) /\ addressable f.
Proof.
  unfold is_canonical_contiguous, addressable. intros H. bool_to_prop.
  destruct (contiguous_strides (logical_shape f)) as [st| |] eqn:E; [|done..].
  pose proof (contiguous_strides_Ok _ _ E) as (-> & _).
  bool_to_prop. auto 6.
Qed.

Lemma TensorFacts_new_not_Panic ls ss lst sst r n : TensorFacts_new ls ss lst sst r n <> Panic.
Proof.
  unfold TensorFacts_new, validate_rank, checked_element_count.
  unfold validate_dense_strides, validate_storage_strides.
  no_panic; auto using try_fold_mul_not_Panic, contiguous_strides_not_Panic.
  all: try (apply try_fold_not_Panic; intros ? [] _; unfold dense_step, storage_step; no_panic).
Qed.
