(* ===== verification/Operation.v ===== *)
(** * Typed operations and output inference of [operation.rs]

    The operation parameters with their checked constructors, and
    [infer_outputs], which computes and validates the facts of every output
    before any storage exists. Parameters that come from deserialization have
    not been through the constructors; inference validates them again. *)

From S2P Require Import Prelude Errors Tensor Identity Representation Strides Facts.
From Stdlib Require Strings.String.
Local Open Scope N_scope.

(** ** Parameters *)

Record Axis := from_index { axis_index : N }.

#[export] Instance Axis_eq_dec : EqDecision Axis.
Proof. solve_decision. Defined.

Definition axis_as_usize (a : Axis) : result nat :=
  i ← usize_try_from (axis_index a); mret (N.to_nat i).

Definition Axis_try_from (i : nat) : result Axis :=
  i ← u32_try_from (N.of_nat i); mret (from_index i).

Record AxisRange := {
  range_start : N;
  range_end : N
}.

#[export] Instance AxisRange_eq_dec : EqDecision AxisRange.
Proof. solve_decision. Defined.

Definition AxisRange_new (first last : N) : result AxisRange :=
  _ ← reject (last <? first) InvalidFormat;
  mret {| range_start := first; range_end := last |}.

(** The unchecked [end - start]. *)
Definition range_len (r : AxisRange) : result N := unchecked_sub (range_end r) (range_start r).
Definition range_is_empty (r : AxisRange) : bool := range_start r =? range_end r.

Record Concat := { concat_axis : Axis }.

Inductive PermuteMode :=
  | Logical
  | Storage (target_layout : Layout).

Record Permute := {
  permute_order : list N;
  permute_mode : PermuteMode
}.

(** One step of the loop over [order], which marks the axes seen. *)
Definition mark_axis (seen : list bool) (axis : N) : result (list bool) :=
  i ← usize_try_from axis;
  slot ← ok_or (seen !! N.to_nat i) InvalidFormat;
  _ ← reject slot InvalidFormat;
  mret (<[N.to_nat i := true]> seen).

Definition validate_permutation (order : list N) : result unit :=
  _ ← validate_rank (length order);
  _ ← try_fold mark_axis (replicate (length order) false) order;
  mret tt.

Definition Permute_new (order : list N) (mode : PermuteMode) : result Permute :=
  _ ← validate_permutation order;
  mret {| permute_order := order; permute_mode := mode |}.

Definition Permute_logical (order : list N) : result Permute := Permute_new order Logical.
Definition Permute_storage (order : list N) (target_layout : Layout) : result Permute :=
  Permute_new order (Storage target_layout).

Record Pad := {
  pad_order : list N;
  pad_storage_shape : list N;
  pad_target_layout : Layout
}.

Definition Pad_storage_zero (order storage_shape : list N) (target_layout : Layout)
  : result Pad :=
  _ ← validate_permutation order;
  _ ← reject (bool_decide (length order <> length storage_shape)) InvalidFormat;
  mret {| pad_order := order; pad_storage_shape := storage_shape;
          pad_target_layout := target_layout |}.

Record Slice := { slice_ranges : list AxisRange }.

Record Split := {
  split_axis : Axis;
  split_ranges : list AxisRange
}.

(** The test [previous_end.is_some_and(|end| range.start() < end)]. *)
Definition overlaps (previous_end : option N) (r : AxisRange) : bool :=
  match previous_end with Some e => range_start r <? e | None => false end.

Definition split_new_step (previous_end : option N) (r : AxisRange) : result (option N) :=
  _ ← reject (range_is_empty r) InvalidFormat;
  _ ← reject (overlaps previous_end r) InvalidFormat;
  mret (Some (range_end r)).

Definition Split_new (axis : Axis) (ranges : list AxisRange) : result Split :=
  _ ← reject (bool_decide (ranges = [])) InvalidFormat;
  _ ← try_fold split_new_step None ranges;
  mret {| split_axis := axis; split_ranges := ranges |}.

Record Reshape := { reshape_shape : list N }.

Inductive Operation :=
  | Op_Concat (c : Concat)
  | Op_Permute (p : Permute)
  | Op_Pad (p : Pad)
  | Op_Slice (s : Slice)
  | Op_Split (s : Split)
  | Op_Reshape (r : Reshape)
  | Op_Prepare (t : PlannedTransform).

#[export] Instance Concat_eq_dec : EqDecision Concat.
Proof. solve_decision. Defined.
#[export] Instance PermuteMode_eq_dec : EqDecision PermuteMode.
Proof. solve_decision. Defined.
#[export] Instance Permute_eq_dec : EqDecision Permute.
Proof. solve_decision. Defined.
#[export] Instance Pad_eq_dec : EqDecision Pad.
Proof. solve_decision. Defined.
#[export] Instance Slice_eq_dec : EqDecision Slice.
Proof. solve_decision. Defined.
#[export] Instance Split_eq_dec : EqDecision Split.
Proof. solve_decision. Defined.
#[export] Instance Reshape_eq_dec : EqDecision Reshape.
Proof. solve_decision. Defined.
#[export] Instance Operation_eq_dec : EqDecision Operation.
Proof. solve_decision. Defined.

Definition operation_name (o : Operation) : string :=
  match o with
  | Op_Concat _ => "concat"
  | Op_Permute _ => "permute"
  | Op_Pad _ => "pad"
  | Op_Slice _ => "slice"
  | Op_Split _ => "split"
  | Op_Reshape _ => "reshape"
  | Op_Prepare _ => "prepare"
  end.

Definition builtin_implementation (o : Operation) : result ImplementationId :=
  match o with
  | Op_Prepare t => Ok (implementation (transform t))
  | _ =>
      p ← StableName_parse "model-weights";
      n ← StableName_parse (operation_name o);
      mret {| provider := p; operation := n; version := 1 |}
  end.

(** ** Validation helpers *)

Definition validate_axis (axis : Axis) (rank : nat) : result nat :=
  i ← axis_as_usize axis;
  _ ← reject (bool_decide (rank <= i)%nat) Binding;
  mret i.

Definition validate_range (r : AxisRange) (dimension : N) : result unit :=
  reject ((range_end r <? range_start r) || (dimension <? range_end r)) Binding.

Definition validate_host_len (n : N) : result N := usize_try_from n.

Definition permutation_indices (order : list N) : result (list nat) :=
  mapM (fun axis => i ← usize_try_from axis; mret (N.to_nat i)) order.

Definition is_identity_order (order : list N) : bool :=
  bool_decide (order = map N.of_nat (seq 0 (length order))).

(** [storage_strides[logical_axis] = physical_strides[physical_axis]] for every
    position of [order], over zeroes. *)
Definition scatter_strides (rank : nat) (order : list nat) (physical_strides : list N)
  : result (list N) :=
  try_fold (fun strides '(physical_axis, logical_axis) =>
              s ← index physical_strides physical_axis;
              index_set strides logical_axis s)
    (replicate rank 0) (enumerate order).

Definition one_input (inputs : list TensorFacts) : result TensorFacts :=
  match inputs with [input] => Ok input | _ => Err Binding end.

(** ** Inference *)

Definition pad_axis_step (input : TensorFacts) (p : Pad) (has_padding : bool)
    (axes : nat * nat) : result bool :=
  let '(physical_axis, logical_axis) := axes in
  logical ← index (logical_shape input) logical_axis;
  physical ← index (pad_storage_shape p) physical_axis;
  _ ← reject (physical <? logical) Binding;
  mret (has_padding || (logical <? physical)).

Definition infer_pad (p : Pad) (input : TensorFacts) : result (list TensorFacts) :=
  _ ← validate_permutation (pad_order p);
  let rank := length (logical_shape input) in
  _ ← reject (bool_decide (length (pad_order p) <> rank) ||
              bool_decide (length (pad_storage_shape p) <> rank)) Binding;
  _ ← reject (is_contiguous (pad_target_layout p)) Binding;
  order ← permutation_indices (pad_order p);
  has_padding ← try_fold (pad_axis_step input p) false (enumerate order);
  _ ← reject (negb has_padding) Binding;
  physical_strides ← contiguous_strides (pad_storage_shape p);
  strides ← scatter_strides rank order physical_strides;
  len ← byte_len (facts_dtype input) (pad_storage_shape p);
  output ← TensorFacts_new (logical_shape input) (pad_storage_shape p)
             (logical_strides input) strides
             {| dtype := facts_dtype input; layout := pad_target_layout p |} len;
  mret [output].

(** Whether some dimension outside [axis] differs. *)
Definition shapes_disagree (axis : nat) (actual expected : list N) : bool :=
  existsb (fun '(i, (a, e)) => negb (i =? axis)%nat && negb (a =? e))
    (enumerate (zip actual expected)).

Definition concat_step (first : TensorFacts) (axis : nat) (output_shape : list N)
    (input : TensorFacts) : result (list N) :=
  _ ← reject (bool_decide (length (logical_shape input) <> length (logical_shape first)))
        Binding;
  _ ← reject (bool_decide (facts_dtype input <> facts_dtype first)) Binding;
  _ ← reject (shapes_disagree axis (logical_shape input) (logical_shape first)) Binding;
  total ← index output_shape axis;
  dimension ← index (logical_shape input) axis;
  total ← ok_or (checked_add total dimension) ResourceLimit;
  index_set output_shape axis total.

Definition infer_concat (c : Concat) (inputs : list TensorFacts) : result (list TensorFacts) :=
  match inputs with
  | first :: _ :: _ =>
      axis ← validate_axis (concat_axis c) (length (logical_shape first));
      zeroed ← index_set (logical_shape first) axis 0;
      output_shape ← try_fold (concat_step first axis) zeroed inputs;
      output ← TensorFacts_contiguous output_shape
                 (Representation_contiguous (facts_dtype first));
      mret [output]
  | _ => Err Binding
  end.

Definition infer_permute (p : Permute) (input : TensorFacts) : result (list TensorFacts) :=
  _ ← validate_permutation (permute_order p);
  _ ← reject (bool_decide (length (permute_order p) <> length (logical_shape input))) Binding;
  order ← permutation_indices (permute_order p);
  output ←
    match permute_mode p with
    | Logical =>
        shape ← mapM (index (logical_shape input)) order;
        TensorFacts_contiguous shape (Representation_contiguous (facts_dtype input))
    | Storage target_layout =>
        _ ← reject (is_contiguous target_layout &&
                    existsb (fun '(axis, src) => negb (axis =? src)%nat) (enumerate order))
              Binding;
        storage_shape ← mapM (index (logical_shape input)) order;
        physical_axis_strides ← contiguous_strides storage_shape;
        strides ← scatter_strides (length order) order physical_axis_strides;
        len ← byte_len (facts_dtype input) storage_shape;
        TensorFacts_new (logical_shape input) storage_shape (logical_strides input) strides
          {| dtype := facts_dtype input; layout := target_layout |} len
    end;
  mret [output].

Definition slice_step (output_shape : list N) (x : AxisRange * N) : result (list N) :=
  let '(r, dimension) := x in
  _ ← validate_range r dimension;
  len ← range_len r;
  mret (output_shape ++ [len]).

Definition infer_slice (s : Slice) (input : TensorFacts) : result (list TensorFacts) :=
  _ ← reject (bool_decide (length (slice_ranges s) <> length (logical_shape input))) Binding;
  output_shape ← try_fold slice_step [] (zip (slice_ranges s) (logical_shape input));
  output ← TensorFacts_contiguous output_shape (Representation_contiguous (facts_dtype input));
  mret [output].

Definition split_step (input : TensorFacts) (axis : nat)
    (st : option N * list TensorFacts) (r : AxisRange) : result (option N * list TensorFacts) :=
  let '(previous_end, outputs) := st in
  _ ← reject (range_is_empty r) Binding;
  dimension ← index (logical_shape input) axis;
  _ ← validate_range r dimension;
  _ ← reject (overlaps previous_end r) Binding;
  len ← range_len r;
  shape ← index_set (logical_shape input) axis len;
  output ← TensorFacts_contiguous shape (Representation_contiguous (facts_dtype input));
  mret (Some (range_end r), outputs ++ [output]).

Definition infer_split (s : Split) (input : TensorFacts) : result (list TensorFacts) :=
  axis ← validate_axis (split_axis s) (length (logical_shape input));
  '(_, outputs) ← try_fold (split_step input axis) (None, []) (split_ranges s);
  _ ← reject (bool_decide (outputs = [])) Binding;
  mret outputs.

Definition infer_reshape (r : Reshape) (input : TensorFacts) : result (list TensorFacts) :=
  _ ← reject (negb (is_canonical_contiguous input)) Binding;
  _ ← validate_rank (length (reshape_shape r));
  output_elements ← checked_element_count (reshape_shape r);
  _ ← reject (negb (output_elements =? element_count input)) Binding;
  output ← TensorFacts_contiguous (reshape_shape r) (representation input);
  mret [output].

Definition infer_prepare (t : PlannedTransform) (input : TensorFacts) : result (list TensorFacts) :=
  _ ← reject (negb (is_canonical_contiguous input)) Binding;
  _ ← reject (bool_decide (source (transform t) <> representation input)) Binding;
  _ ← reject (negb (is_contiguous (layout (source (transform t)))) ||
              negb (is_contiguous (layout (target (transform t))))) Binding;
  expected ← byte_len (dtype (target (transform t))) (logical_shape input);
  _ ← reject (negb (output_size t =? expected)) Binding;
  _ ← validate_host_len (output_size t);
  _ ← validate_host_len (transform_scratch_bytes t);
  output ← TensorFacts_contiguous (logical_shape input) (target (transform t));
  mret [output].

Definition infer_outputs (o : Operation) (inputs : list TensorFacts) : result (list TensorFacts) :=
  match o with
  | Op_Concat c => infer_concat c inputs
  | Op_Permute p => input ← one_input inputs; infer_permute p input
  | Op_Pad p => input ← one_input inputs; infer_pad p input
  | Op_Slice s => input ← one_input inputs; infer_slice s input
  | Op_Split s => input ← one_input inputs; infer_split s input
  | Op_Reshape r => input ← one_input inputs; infer_reshape r input
  | Op_Prepare t => input ← one_input inputs; infer_prepare t input
  end.
