(* ===== verification/Kernels.v ===== *)
(** * Structural copy kernels of [operation.rs]

    The element-wise kernels behind concatenation, permutation, padding and
    slicing, with the allocation they write into. Every offset is computed with
    checked arithmetic and every element is copied through bounds-checked
    ranges, as in the source. *)

From S2P Require Import Prelude Errors Cancel Tensor Representation Strides Facts Operation.
Local Open Scope N_scope.

Definition COPY_TILE_ELEMENTS : N := 16 * 1024.
Definition ALLOCATION_TILE_BYTES : N := 1024 * 1024.

Definition blen (bs : bytes) : N := N.of_nat (length bs).

Definition validate_view_len (view : ByteView) (expected : N) : result unit :=
  reject (negb (view_len view =? expected)) Integrity.

Definition dtype_width (d : DType) : result N :=
  _ ← reject ((bits d =? 0) || negb (bits d mod 8 =? 0)) Unsupported;
  mret (bits d / 8).

Definition check_copy_cancellation (element : N) : M unit :=
  if element mod COPY_TILE_ELEMENTS =? 0 then check else mret tt.

(** A range [start..end] checked against the length of a buffer. *)
Definition checked_byte_range (offset length_ bound : N) : result (N * N) :=
  last ← ok_or (checked_add offset length_) ResourceLimit;
  start ← usize_try_from offset;
  last ← usize_try_from last;
  _ ← reject (bound <? last) Integrity;
  mret (start, last).

(** The slice accessor [bytes.get(start..end)]. *)
Definition get_range (bs : bytes) (r : N * N) : option bytes :=
  if (fst r <=? snd r) && (snd r <=? blen bs)
  then Some (take (N.to_nat (snd r - fst r)) (drop (N.to_nat (fst r)) bs)) else None.

(** [target[start..].copy_from_slice(src)] on a range of the length of [src]. *)
Definition copy_from_slice (target : bytes) (r : N * N) (src : bytes) : result bytes :=
  if snd r - fst r =? blen src
  then Ok (list_inserts (N.to_nat (fst r)) src target) else Panic.

Definition copy_element (source : bytes) (source_element : N) (target : bytes)
    (target_element width : N) : result bytes :=
  source_start ← ok_or (checked_mul source_element width) ResourceLimit;
  target_start ← ok_or (checked_mul target_element width) ResourceLimit;
  source_range ← checked_byte_range source_start width (blen source);
  target_range ← checked_byte_range target_start width (blen target);
  _ ← ok_or (get_range target target_range) Integrity;
  element ← ok_or (get_range source source_range) Integrity;
  copy_from_slice target target_range element.

(** The fill loop of [allocate_tensor]; each round adds at least one byte. *)
Fixpoint zero_fill (fuel : nat) (length_ : N) (bs : bytes) : M bytes :=
  match fuel with
  | O => mret bs
  | S fuel =>
      if blen bs <? length_ then
        _ ← check;
        let next := N.min (saturating_add (blen bs) ALLOCATION_TILE_BYTES) length_ in
        zero_fill fuel length_ (bs ++ replicate (N.to_nat (next - blen bs)) Byte.x00)
      else mret bs
  end.

Definition allocate_tensor (facts : TensorFacts) : M bytes :=
  _ ← check;
  length_ ← lift (validate_host_len (facts_byte_len facts));
  _ ← try_reserve_exact length_;
  bs ← zero_fill (S (N.to_nat (length_ / ALLOCATION_TILE_BYTES)) + 1) length_ [];
  _ ← check;
  mret bs.

(** The loop [for linear in 0..count] every element-wise kernel runs: check
    for cancellation, locate the element, copy it. *)
Definition copy_loop (count : N) (locate : N -> result (bytes * N * N)) (width : N)
    (output : bytes) : M bytes :=
  for_range 0 count (fun linear output =>
    _ ← check_copy_cancellation linear;
    lift ('(source, source_element, target_element) ← locate linear;
          copy_element source source_element output target_element width)) output.

(** ** Storage copy: equal logical shapes, any two storage mappings *)

Definition storage_offset_step (input_facts output_facts : TensorFacts) (strides : list N)
    (linear : N) (st : N * N) (logical_axis : nat) : result (N * N) :=
  let '(source_element, target_element) := st in
  coordinate ← logical_coordinate linear logical_axis (logical_shape output_facts) strides;
  source_stride ← index (storage_strides input_facts) logical_axis;
  source_element ← checked_offset_term source_element coordinate source_stride;
  target_stride ← index (storage_strides output_facts) logical_axis;
  target_element ← checked_offset_term target_element coordinate target_stride;
  mret (source_element, target_element).

Definition execute_storage_copy (input_facts output_facts : TensorFacts) (input : ByteView)
    (output : bytes) : M bytes :=
  _ ← lift (validate_view_len input (facts_byte_len input_facts));
  _ ← lift (reject (bool_decide (logical_shape input_facts <> logical_shape output_facts))
              Integrity);
  w ← lift (dtype_width (facts_dtype input_facts));
  strides ← lift (contiguous_strides (logical_shape output_facts));
  output ← copy_loop (element_count output_facts) (fun linear =>
    '(s, t) ← try_fold (storage_offset_step input_facts output_facts strides linear) (0, 0)
                (seq 0 (length (logical_shape output_facts)));
    mret (as_slice input, s, t)) w output;
  _ ← check;
  mret output.

(** ** Permutation *)

Definition permute_offset_step (input_facts output_facts : TensorFacts) (strides : list N)
    (linear : N) (st : N * N) (axes : nat * nat) : result (N * N) :=
  let '(source_element, target_element) := st in
  let '(output_axis, input_axis) := axes in
  coordinate ← logical_coordinate linear output_axis (logical_shape output_facts) strides;
  source_stride ← index (storage_strides input_facts) input_axis;
  source_element ← checked_offset_term source_element coordinate source_stride;
  target_stride ← index (storage_strides output_facts) output_axis;
  target_element ← checked_offset_term target_element coordinate target_stride;
  mret (source_element, target_element).

Definition execute_permute_bytes (p : Permute) (input_facts output_facts : TensorFacts)
    (input : ByteView) (output : bytes) : M bytes :=
  _ ← lift (validate_view_len input (facts_byte_len input_facts));
  match permute_mode p with
  | Storage _ => execute_storage_copy input_facts output_facts input output
  | Logical =>
      w ← lift (dtype_width (facts_dtype input_facts));
      strides ← lift (contiguous_strides (logical_shape output_facts));
      order ← lift (permutation_indices (permute_order p));
      output ← copy_loop (element_count output_facts) (fun linear =>
        '(s, t) ← try_fold (permute_offset_step input_facts output_facts strides linear) (0, 0)
                    (enumerate order);
        mret (as_slice input, s, t)) w output;
      _ ← check;
      mret output
  end.

(** ** Slicing *)

Definition slice_offset_step (input_facts output_facts : TensorFacts) (strides : list N)
    (linear : N) (st : N * N) (x : nat * AxisRange) : result (N * N) :=
  let '(source_element, target_element) := st in
  let '(logical_axis, range) := x in
  output_coordinate ←
    logical_coordinate linear logical_axis (logical_shape output_facts) strides;
  source_coordinate ← ok_or (checked_add (range_start range) output_coordinate) ResourceLimit;
  source_stride ← index (storage_strides input_facts) logical_axis;
  source_element ← checked_offset_term source_element source_coordinate source_stride;
  target_stride ← index (storage_strides output_facts) logical_axis;
  target_element ← checked_offset_term target_element output_coordinate target_stride;
  mret (source_element, target_element).

Definition execute_slice_bytes (ranges : list AxisRange) (input_facts : TensorFacts)
    (input : ByteView) (output_facts : TensorFacts) (output : bytes) : M bytes :=
  _ ← lift (validate_view_len input (facts_byte_len input_facts));
  _ ← lift (reject (bool_decide (length ranges <> length (logical_shape input_facts)))
              Integrity);
  w ← lift (dtype_width (facts_dtype input_facts));
  strides ← lift (contiguous_strides (logical_shape output_facts));
  output ← copy_loop (element_count output_facts) (fun linear =>
    '(s, t) ← try_fold (slice_offset_step input_facts output_facts strides linear) (0, 0)
                (enumerate ranges);
    mret (as_slice input, s, t)) w output;
  _ ← check;
  mret output.

(** ** Concatenation *)

(** The first axis index of every input, in order. *)
Definition axis_starts_step (axis : nat) (st : list N * N) (facts : TensorFacts)
  : result (list N * N) :=
  let '(axis_starts, next_start) := st in
  dimension ← index (logical_shape facts) axis;
  next ← ok_or (checked_add next_start dimension) ResourceLimit;
  mret (axis_starts ++ [next_start], next).

(** [position] of the first input whose end lies beyond the coordinate. *)
Fixpoint find_input (axis : nat) (axis_coordinate : N) (starts : list (N * TensorFacts))
    (i : nat) : result (option nat) :=
  match starts with
  | [] => Ok None
  | (start, facts) :: starts =>
      dimension ← index (logical_shape facts) axis;
      if axis_coordinate <? saturating_add start dimension then Ok (Some i)
      else find_input axis axis_coordinate starts (S i)
  end.

Definition concat_offset_step (input output_facts : TensorFacts) (axis : nat) (start : N)
    (strides : list N) (linear : N) (st : N * N) (logical_axis : nat) : result (N * N) :=
  let '(source_element, target_element) := st in
  coordinate ← logical_coordinate linear logical_axis (logical_shape output_facts) strides;
  coordinate ← (if (logical_axis =? axis)%nat
                then ok_or (checked_sub coordinate start) Integrity
                else mret coordinate);
  source_stride ← index (storage_strides input) logical_axis;
  source_element ← checked_offset_term source_element coordinate source_stride;
  output_coordinate ←
    logical_coordinate linear logical_axis (logical_shape output_facts) strides;
  target_stride ← index (storage_strides output_facts) logical_axis;
  target_element ← checked_offset_term target_element output_coordinate target_stride;
  mret (source_element, target_element).

(** The length checks both concatenation paths start with. *)
Definition validate_concat_inputs (input_facts : list TensorFacts) (inputs : list ByteView)
  : result unit :=
  _ ← reject (bool_decide (length input_facts <> length inputs)) Integrity;
  try_fold (fun _ '(facts, view) => validate_view_len view (facts_byte_len facts)) tt
    (zip input_facts inputs).

Definition concat_locate (axis : nat) (input_facts : list TensorFacts)
    (output_facts : TensorFacts) (inputs : list ByteView) (axis_starts strides : list N)
    (linear : N) : result (bytes * N * N) :=
  axis_coordinate ← logical_coordinate linear axis (logical_shape output_facts) strides;
  position ← find_input axis axis_coordinate (zip axis_starts input_facts) 0;
  input_index ← ok_or position Integrity;
  input ← index input_facts input_index;
  start ← index axis_starts input_index;
  '(s, t) ← try_fold (concat_offset_step input output_facts axis start strides linear) (0, 0)
              (seq 0 (length (logical_shape output_facts)));
  view ← index inputs input_index;
  mret (as_slice view, s, t).

Definition execute_concat_bytes (c : Concat) (input_facts : list TensorFacts)
    (output_facts : TensorFacts) (inputs : list ByteView) (output : bytes) : M bytes :=
  _ ← lift (validate_concat_inputs input_facts inputs);
  axis ← lift (validate_axis (concat_axis c) (length (logical_shape output_facts)));
  w ← lift (dtype_width (facts_dtype output_facts));
  strides ← lift (contiguous_strides (logical_shape output_facts));
  '(axis_starts, _) ← lift (try_fold (axis_starts_step axis) ([], 0) input_facts);
  output ← copy_loop (element_count output_facts)
    (concat_locate axis input_facts output_facts inputs axis_starts strides) w output;
  _ ← check;
  mret output.
