(* ===== verification/InferSpecs.v ===== *)
(** * Correctness of output inference

    What [infer_outputs] guarantees about the facts it returns: every output is
    well formed, and its logical shape and dtype are those of the operation. *)

From S2P Require Import Prelude Errors Tensor Identity Representation Strides Facts Operation.
Local Open Scope N_scope.

(** ** Permutations *)

Lemma mark_axes_Ok order : forall seen seen',
  try_fold mark_axis seen order = Ok seen' ->
  NoDup order /\ Forall (fun a => a <= usize_MAX /\ seen !! N.to_nat a = Some false) order.
Proof.
  induction order as [|a order IH]; intros seen seen' H; [split; constructor|].
  simpl in H. apply bind_Ok in H as (seen1 & Hm & H). unfold mark_axis in Hm.
  apply bind_Ok in Hm as (i & (-> & Hi)%usize_try_from_Ok & Hm).
  apply bind_Ok in Hm as (slot & Hslot%ok_or_Ok & Hm).
  apply bind_Ok in Hm as (? & ->%reject_Ok & Hm). injection Hm as <-.
  destruct (IH _ _ H) as [Hnd Hall]. rewrite Forall_forall in Hall. split.
  - constructor; [|done]. intros Hin. destruct (Hall _ Hin) as [_ Hf].
    rewrite list_lookup_insert_eq in Hf by (by eapply lookup_lt_Some). done.
  - constructor; [done|]. apply Forall_forall. intros b Hb.
    destruct (Hall b Hb) as [Hle Hf]. split; [done|].
    destruct (decide (N.to_nat a = N.to_nat b)) as [E|E].
    + rewrite E, list_lookup_insert_eq in Hf; [done|].
      rewrite <-E. by eapply lookup_lt_Some.
    + by rewrite list_lookup_insert_ne in Hf.
Qed.

(** [validate_permutation] accepts exactly the complete permutations. *)
Lemma validate_permutation_Ok order :
  validate_permutation order = Ok tt ->
  is_order (map N.to_nat order) /\ permutation_indices order = Ok (map N.to_nat order) /\
  N.of_nat (length order) <= u32_MAX.
Proof.
  unfold validate_permutation. intros H.
  apply bind_Ok in H as (? & Hr & H). apply bind_Ok in H as (seen & H & _).
  apply mark_axes_Ok in H as [Hnd Hall]. split_and!.
  - split.
    + by apply (NoDup_fmap_2 N.to_nat).
    + rewrite length_map. apply Forall_forall.
      intros ? (a & -> & Ha)%list_elem_of_fmap. rewrite Forall_forall in Hall.
      destruct (Hall a Ha) as [_ Hf]. apply lookup_lt_Some in Hf.
      by rewrite length_replicate in Hf.
  - apply mapM_Ok. apply Forall2_fmap_r, Forall_Forall2_diag.
    eapply Forall_impl; [exact Hall|]. intros a [Hle _]. simpl.
    unfold usize_try_from. apply N.leb_le in Hle. by rewrite Hle.
  - unfold validate_rank in Hr. res_inv. done.
Qed.

Lemma mark_axes_complete order : forall seen,
  NoDup order -> Forall (fun a => a <= usize_MAX /\ seen !! N.to_nat a = Some false) order ->
  exists seen', try_fold mark_axis seen order = Ok seen'.
Proof.
  induction order as [|a order IH]; intros seen Hnd Hall; [by exists seen|].
  apply NoDup_cons in Hnd as [Ha Hnd]. apply Forall_cons in Hall as [[Hle Hf] Hall].
  assert (mark_axis seen a = Ok (<[N.to_nat a := true]> seen)) as Hm.
  { unfold mark_axis, usize_try_from. apply N.leb_le in Hle. rewrite Hle. simpl.
    by rewrite Hf. }
  simpl. rewrite Hm. simpl. apply IH; [done|].
  rewrite Forall_forall in Hall |- *. intros b Hb. destruct (Hall b Hb). split; [done|].
  rewrite list_lookup_insert_ne; [done|]. intros E. apply Ha.
  by assert (a = b) as -> by lia.
Qed.

Lemma validate_permutation_iff order :
  validate_permutation order = Ok tt <->
  is_order (map N.to_nat order) /\ N.of_nat (length order) <= u32_MAX.
Proof.
  split; [intros H%validate_permutation_Ok; tauto|].
  intros [[Hnd Hlt] Hr]. unfold validate_permutation, validate_rank, u32_try_from.
  apply N.leb_le in Hr as Hr'. rewrite Hr'. simpl.
  destruct (mark_axes_complete order (replicate (length order) false)) as [seen Hs].
  - eapply NoDup_fmap_1. exact Hnd.
  - apply Forall_forall. intros a Ha. rewrite Forall_forall in Hlt.
    specialize (Hlt (N.to_nat a)). rewrite length_map in Hlt.
    assert (N.to_nat a < length order)%nat by (apply Hlt; by apply list_elem_of_fmap_2).
    split; [|by apply lookup_replicate_2].
    transitivity (N.of_nat (length order)); [lia|]. etransitivity; [exact Hr|]. by vm_compute.
  - by rewrite Hs.
Qed.

Lemma is_identity_order_true order :
  is_identity_order order = true -> map N.to_nat order = seq 0 (length order).
Proof.
  unfold is_identity_order. intros H. bool_to_prop.
  revert H. generalize (length order) as n. intros n ->. rewrite map_map.
  rewrite <-(map_id (seq 0 n)) at 2. apply map_ext. intros. apply Nat2N.id.
Qed.

Lemma mapM_index_Ok (l : list N) order k :
  mapM (index l) order = Ok k -> k = gather order l /\ Forall (fun a => (a < length l)%nat) order.
Proof.
  intros H%mapM_Ok. induction H as [|a x order k Ha Hk [-> Hall]]; [by split|].
  apply index_Ok in Ha. split.
  - unfold gather. simpl. f_equal. symmetry. by apply list_lookup_total_correct.
  - constructor; [by eapply lookup_lt_Some|done].
Qed.

(** ** Shapes of the outputs *)

Lemma one_input_Ok inputs f : one_input inputs = Ok f <-> inputs = [f].
Proof. destruct inputs as [|? []]; simpl; naive_solver. Qed.

Lemma contiguous_output shape d f :
  TensorFacts_contiguous shape (Representation_contiguous d) = Ok f ->
  facts_wf f /\ logical_shape f = shape /\ facts_dtype f = d /\ addressable f /\
  storage_strides f = row_strides shape /\ storage_shape f = shape.
Proof.
  intros H. destruct (TensorFacts_contiguous_Ok _ _ _ H) as (? & ? & ? & ? & ? & Hr & _ & ?).
  unfold facts_dtype. rewrite Hr. auto 10.
Qed.

Lemma infer_permute_Ok p input outputs :
  infer_permute p input = Ok outputs ->
  let order := map N.to_nat (permute_order p) in
  is_order order /\ length order = length (logical_shape input) /\
  permutation_indices (permute_order p) = Ok order /\
  exists f, outputs = [f] /\ facts_wf f /\ facts_dtype f = facts_dtype input /\
    match permute_mode p with
    | Logical => logical_shape f = gather order (logical_shape input) /\ addressable f
    | Storage l =>
        logical_shape f = logical_shape input /\
        storage_shape f = gather order (logical_shape input) /\ layout (representation f) = l
    end.
Proof.
  unfold infer_permute. intros H. apply bind_Ok in H as ([] & Hv & H).
  apply bind_Ok in H as (? & Hl%reject_Ok & H). apply bind_Ok in H as (order & Ho & H).
  apply bind_Ok in H as (f & Hf & H). injection H as <-.
  apply validate_permutation_Ok in Hv as (Hord & Ho' & _). rewrite Ho' in Ho.
  injection Ho as <-. bool_to_prop. apply dec_stable in Hl.
  rewrite length_map. split_and!; [done..|]. exists f. split; [done|].
  destruct (permute_mode p) as [|l].
  - apply bind_Ok in Hf as (shape & Hs & Hf). apply mapM_index_Ok in Hs as [-> _].
    apply contiguous_output in Hf as (? & ? & ? & ? & _). auto 6.
  - apply bind_Ok in Hf as (? & _ & Hf). apply bind_Ok in Hf as (shape & Hs & Hf).
    apply mapM_index_Ok in Hs as [-> _].
    apply bind_Ok in Hf as (phys & _ & Hf). apply bind_Ok in Hf as (strides & _ & Hf).
    apply bind_Ok in Hf as (len & _ & Hf).
    pose proof (TensorFacts_new_wf _ _ _ _ _ _ _ Hf).
    pose proof (TensorFacts_new_fields _ _ _ _ _ _ _ Hf) as ->. auto 6.
Qed.

(** The physical strides of a storage permutation. *)
Lemma infer_permute_storage p input f l :
  infer_permute p input = Ok [f] -> permute_mode p = Storage l ->
  let order := map N.to_nat (permute_order p) in
  scatter_strides (length order) order (row_strides (gather order (logical_shape input))) =
    Ok (storage_strides f) /\
  storage_shape f = gather order (logical_shape input).
Proof.
  unfold infer_permute. intros H Hm. apply bind_Ok in H as ([] & Hv & H).
  apply bind_Ok in H as (? & Hl%reject_Ok & H). apply bind_Ok in H as (order & Ho & H).
  apply bind_Ok in H as (f' & Hf & H). injection H as ->.
  apply validate_permutation_Ok in Hv as (_ & Ho' & _). rewrite Ho' in Ho. injection Ho as <-.
  rewrite Hm in Hf. apply bind_Ok in Hf as (? & _ & Hf). apply bind_Ok in Hf as (shape & Hs & Hf).
  apply mapM_index_Ok in Hs as [-> _].
  apply bind_Ok in Hf as (phys & Hp & Hf). apply bind_Ok in Hf as (strides & Hst & Hf).
  apply bind_Ok in Hf as (len & _ & Hf). apply contiguous_strides_Ok in Hp as (-> & _ & _).
  pose proof (TensorFacts_new_fields _ _ _ _ _ _ _ Hf) as ->. done.
Qed.

Lemma infer_pad_Ok p input outputs :
  infer_pad p input = Ok outputs ->
  exists f, outputs = [f] /\ facts_wf f /\ facts_dtype f = facts_dtype input /\
    logical_shape f = logical_shape input /\ storage_shape f = pad_storage_shape p.
Proof.
  unfold infer_pad. intros H.
  do 8 (apply bind_Ok in H as (? & _ & H)). apply bind_Ok in H as (len & _ & H).
  apply bind_Ok in H as (f & Hf & H). injection H as <-. exists f.
  pose proof (TensorFacts_new_wf _ _ _ _ _ _ _ Hf).
  pose proof (TensorFacts_new_fields _ _ _ _ _ _ _ Hf) as ->. auto 6.
Qed.

Lemma validate_range_Ok r d u :
  validate_range r d = Ok u <-> range_start r <= range_end r /\ range_end r <= d.
Proof. unfold validate_range. rewrite reject_Ok, orb_false_iff, !N.ltb_ge. tauto. Qed.

(** A slice of every axis: the ranges fit and the output dimensions are their
    lengths. *)
Definition ranges_fit (ranges : list AxisRange) (shape : list N) : Prop :=
  Forall2 (fun r d => range_start r <= range_end r /\ range_end r <= d) ranges shape.
Definition range_lens (ranges : list AxisRange) : list N :=
  map (fun r => range_end r - range_start r) ranges.

Lemma slice_fold_Ok ranges shape : forall acc out,
  length ranges = length shape ->
  try_fold slice_step acc (zip ranges shape) = Ok out ->
  ranges_fit ranges shape /\ out = acc ++ range_lens ranges.
Proof.
  unfold ranges_fit. revert shape.
  induction ranges as [|r ranges IH]; intros [|d shape] acc out Hl H; try done.
  { simpl in H. injection H as <-. by rewrite app_nil_r. }
  simpl in H. apply bind_Ok in H as (acc' & Hs & H).
  apply bind_Ok in Hs as (? & Hr%validate_range_Ok & Hs).
  apply bind_Ok in Hs as (len & Hlen & Hs). injection Hs as <-.
  unfold range_len in Hlen. apply unchecked_sub_Ok in Hlen as [_ ->].
  apply IH in H as [Hf ->]; [|simpl in Hl; lia]. split; [by constructor|].
  by rewrite <-app_assoc.
Qed.

Lemma infer_slice_Ok s input outputs :
  infer_slice s input = Ok outputs ->
  ranges_fit (slice_ranges s) (logical_shape input) /\
  exists f, outputs = [f] /\ facts_wf f /\ facts_dtype f = facts_dtype input /\
    logical_shape f = range_lens (slice_ranges s) /\ addressable f.
Proof.
  unfold infer_slice. intros H. apply bind_Ok in H as (? & Hl%reject_Ok & H).
  bool_to_prop. apply dec_stable in Hl.
  apply bind_Ok in H as (shape & Hs & H). apply bind_Ok in H as (f & Hf & H). injection H as <-.
  apply slice_fold_Ok in Hs as [Hfit ->]; [|done].
  apply contiguous_output in Hf as (? & ? & ? & ? & _). split; [done|]. exists f. auto 6.
Qed.

Lemma axis_as_usize_Ok a i : axis_as_usize a = Ok i -> i = N.to_nat (axis_index a).
Proof. unfold axis_as_usize. intros H. by res_inv. Qed.

Lemma validate_axis_Ok a rank i :
  validate_axis a rank = Ok i -> i = N.to_nat (axis_index a) /\ (i < rank)%nat.
Proof.
  unfold validate_axis. intros H. apply bind_Ok in H as (j & Hj & H).
  apply axis_as_usize_Ok in Hj. res_inv. subst. split; [done|lia].
Qed.

(** One output of a split: a slice of the whole input but for one axis. *)
Definition split_output_ok (input : TensorFacts) (axis : nat) (r : AxisRange) (f : TensorFacts)
  : Prop :=
  range_start r < range_end r /\
  (exists d, logical_shape input !! axis = Some d /\ range_end r <= d) /\
  facts_wf f /\ facts_dtype f = facts_dtype input /\ addressable f /\
  logical_shape f = <[axis := range_end r - range_start r]> (logical_shape input).

Lemma split_fold_Ok input axis ranges : forall prev outs prev' outs',
  try_fold (split_step input axis) (prev, outs) ranges = Ok (prev', outs') ->
  exists new, outs' = outs ++ new /\ Forall2 (split_output_ok input axis) ranges new.
Proof.
  induction ranges as [|r ranges IH]; intros prev outs prev' outs' H.
  { simpl in H. injection H as <- <-. exists []. rewrite app_nil_r. auto. }
  simpl in H. apply bind_Ok in H as ([prev1 outs1] & Hs & H).
  apply bind_Ok in Hs as (? & He%reject_Ok & Hs).
  apply bind_Ok in Hs as (d & Hd%index_Ok & Hs).
  apply bind_Ok in Hs as (? & Hr%validate_range_Ok & Hs).
  apply bind_Ok in Hs as (? & _ & Hs). apply bind_Ok in Hs as (len & Hlen & Hs).
  apply bind_Ok in Hs as (shape & [? ->]%index_set_Ok & Hs).
  apply bind_Ok in Hs as (f & Hf & Hs). injection Hs as <- <-.
  unfold range_len in Hlen. apply unchecked_sub_Ok in Hlen as [_ ->].
  apply contiguous_output in Hf as (? & ? & ? & ? & _).
  apply IH in H as (new & -> & Hnew). exists (f :: new). split; [by rewrite <-app_assoc|].
  constructor; [|done]. unfold range_is_empty in He. bool_to_prop.
  unfold split_output_ok. split_and!; auto; [lia|]. exists d. tauto.
Qed.

Lemma infer_split_Ok s input outputs :
  infer_split s input = Ok outputs ->
  exists axis, axis = N.to_nat (axis_index (split_axis s)) /\
    (axis < length (logical_shape input))%nat /\
    Forall2 (split_output_ok input axis) (split_ranges s) outputs /\
    validate_axis (split_axis s) (length (logical_shape input)) = Ok axis.
Proof.
  unfold infer_split. intros H. apply bind_Ok in H as (axis & Ha & H).
  apply bind_Ok in H as ([prev outs] & Hf & H). apply bind_Ok in H as (? & _ & H).
  injection H as <-. destruct (validate_axis_Ok _ _ _ Ha).
  apply split_fold_Ok in Hf as (new & -> & Hnew). exists axis. auto.
Qed.

Lemma infer_reshape_Ok r input outputs :
  facts_wf input -> infer_reshape r input = Ok outputs ->
  is_canonical_contiguous input = true /\
  prodN (reshape_shape r) = prodN (logical_shape input) /\
  exists f, outputs = [f] /\ facts_wf f /\ representation f = representation input /\
    logical_shape f = reshape_shape r /\ storage_strides f = row_strides (reshape_shape r) /\
    storage_shape f = reshape_shape r.
Proof.
  intros Hwf. unfold infer_reshape. intros H.
  apply bind_Ok in H as (? & Hc%reject_Ok & H). apply negb_false_iff in Hc.
  apply bind_Ok in H as (? & _ & H). apply bind_Ok in H as (n & Hn & H).
  apply bind_Ok in H as (? & He%reject_Ok & H). apply bind_Ok in H as (f & Hf & H).
  injection H as <-. apply checked_element_count_Ok in Hn as [-> _]. bool_to_prop.
  rewrite element_count_exact in He by done. split_and!; [done|done|].
  destruct (TensorFacts_contiguous_Ok _ _ _ Hf) as (? & ? & ? & _ & ? & ? & _).
  exists f. auto 7.
Qed.

Lemma infer_prepare_Ok t input outputs :
  infer_prepare t input = Ok outputs ->
  is_canonical_contiguous input = true /\ source (transform t) = representation input /\
  exists f, outputs = [f] /\ facts_wf f /\ representation f = target (transform t) /\
    logical_shape f = logical_shape input /\ is_canonical_contiguous f = true /\
    facts_byte_len f = output_size t.
Proof.
  unfold infer_prepare. intros H. apply bind_Ok in H as (? & Hc%reject_Ok & H).
  apply negb_false_iff in Hc. apply bind_Ok in H as (? & Hs%reject_Ok & H).
  apply bind_Ok in H as (? & Hlay%reject_Ok & H). apply bind_Ok in H as (n & Hn & H).
  apply bind_Ok in H as (? & He%reject_Ok & H). do 2 apply bind_Ok in H as (? & _ & H).
  apply bind_Ok in H as (f & Hf & H). injection H as <-. bool_to_prop. apply dec_stable in Hs.
  split_and!; [done|done|].
  destruct (TensorFacts_contiguous_Ok _ _ _ Hf) as (Hwf & Hls & Hss & Hlst & Hsst & Hr & Hrc & Ha).
  exists f. split_and!; [done|done|done|done| |].
  - unfold is_canonical_contiguous. unfold addressable in Ha. rewrite Ha, Hr, Hrc.
    rewrite !bool_decide_eq_true_2 by congruence. done.
  - apply byte_len_Ok in Hn as (-> & _). rewrite (wf_bytes f Hwf), Hss. unfold width, facts_dtype.
    rewrite Hr. done.
Qed.

(** ** Concatenation *)

(** An input that can be joined to [first] along [axis]. *)
Definition joins (first : TensorFacts) (axis : nat) (input : TensorFacts) : Prop :=
  length (logical_shape input) = length (logical_shape first) /\
  facts_dtype input = facts_dtype first /\
  forall i, i <> axis -> logical_shape input !! i = logical_shape first !! i.

(** The dimension of every input along the axis. *)
Definition axis_dims (axis : nat) (inputs : list TensorFacts) : list N :=
  map (fun f => logical_shape f !!! axis) inputs.

Lemma shapes_disagree_false axis l k :
  length l = length k -> shapes_disagree axis l k = false ->
  forall i, i <> axis -> l !! i = k !! i.
Proof.
  unfold shapes_disagree, enumerate. intros Hl H i Hi.
  destruct (l !! i) as [x|] eqn:Hx.
  - assert (exists y, k !! i = Some y) as [y Hy].
    { apply lookup_lt_is_Some. rewrite <-Hl. by eapply lookup_lt_Some. }
    rewrite Hy. f_equal. destruct (decide (x = y)) as [->|Hne]; [done|].
    exfalso. apply not_true_iff_false in H. apply H. apply existsb_exists.
    exists (i, (x, y)). split.
    + apply list_elem_of_In, list_elem_of_lookup. exists i.
      rewrite lookup_zip_with, lookup_seq_lt.
      * simpl. rewrite lookup_zip_with, Hx. simpl. by rewrite Hy.
      * apply lookup_lt_is_Some. rewrite lookup_zip_with, Hx. simpl. rewrite Hy. eauto.
    + apply andb_true_iff. split; apply negb_true_iff; [by apply Nat.eqb_neq | by apply N.eqb_neq].
  - symmetry. apply lookup_ge_None. apply lookup_ge_None in Hx. lia.
Qed.

Lemma concat_fold_Ok first axis inputs : forall acc out total,
  acc !! axis = Some total ->
  try_fold (concat_step first axis) acc inputs = Ok out ->
  out = <[axis := total + sumN (axis_dims axis inputs)]> acc /\
  Forall (joins first axis) inputs /\
  (total <= u64_MAX -> total + sumN (axis_dims axis inputs) <= u64_MAX).
Proof.
  induction inputs as [|input inputs IH]; intros acc out total Ht H.
  { simpl in H. injection H as <-. change (sumN (axis_dims axis [])) with 0.
    rewrite N.add_0_r. split_and!; [symmetry; by apply list_insert_id|constructor|done]. }
  simpl in H. apply bind_Ok in H as (acc' & Hs & H). unfold concat_step in Hs.
  apply bind_Ok in Hs as (? & Hlen%reject_Ok & Hs).
  apply bind_Ok in Hs as (? & Hd%reject_Ok & Hs).
  apply bind_Ok in Hs as (? & Hsh%reject_Ok & Hs).
  apply bind_Ok in Hs as (t & Ht'%index_Ok & Hs). apply bind_Ok in Hs as (d & Hdim%index_Ok & Hs).
  apply bind_Ok in Hs as (t' & Hadd%ok_or_Ok & Hs).
  apply checked_add_Some in Hadd as [-> Hfit]. apply index_set_Ok in Hs as [Hlt ->].
  bool_to_prop. apply dec_stable in Hlen, Hd. rewrite Ht in Ht'. injection Ht' as <-.
  apply list_lookup_total_correct in Hdim as Hdim'.
  destruct (IH _ _ (total + d) (list_lookup_insert_eq _ _ _ Hlt) H) as (-> & Hall & Hle).
  unfold axis_dims in *. cbn [map]. rewrite sumN_cons, Hdim'.
  rewrite list_insert_insert_eq, <-N.add_assoc. split_and!; [done| |].
  - constructor; [|done]. split_and!; [done|done|]. by apply shapes_disagree_false.
  - intros _. rewrite N.add_assoc. by apply Hle.
Qed.

Lemma infer_concat_Ok c inputs outputs :
  infer_concat c inputs = Ok outputs ->
  exists first axis f, head inputs = Some first /\ (2 <= length inputs)%nat /\
    outputs = [f] /\ axis = N.to_nat (axis_index (concat_axis c)) /\
    (axis < length (logical_shape first))%nat /\
    validate_axis (concat_axis c) (length (logical_shape f)) = Ok axis /\
    Forall (joins first axis) inputs /\ facts_wf f /\ addressable f /\
    facts_dtype f = facts_dtype first /\
    logical_shape f = <[axis := sumN (axis_dims axis inputs)]> (logical_shape first) /\
    sumN (axis_dims axis inputs) <= u64_MAX /\
    storage_strides f = row_strides (logical_shape f).
Proof.
  unfold infer_concat. destruct inputs as [|first [|second rest]]; try done. intros H.
  apply bind_Ok in H as (axis & Ha & H). apply bind_Ok in H as (zeroed & Hz & H).
  apply index_set_Ok in Hz as [Hlt ->].
  apply bind_Ok in H as (shape & Hf & H). apply bind_Ok in H as (f & Hc & H). injection H as <-.
  destruct (validate_axis_Ok _ _ _ Ha) as [Ea _].
  apply (concat_fold_Ok _ _ _ _ _ 0) in Hf as (-> & Hall & Hle);
    [|by apply list_lookup_insert_eq].
  rewrite N.add_0_l, list_insert_insert_eq in *.
  apply contiguous_output in Hc as (? & Hsh & ? & ? & Hst & _).
  exists first, axis, f. split_and!; try done.
  - simpl. lia.
  - by rewrite Hsh, length_insert.
  - by apply Hle.
  - by rewrite Hst, Hsh.
Qed.

(** ** All operations *)

Lemma singleton_ok f : facts_wf f -> Forall facts_wf [f] /\ [f] <> [].
Proof. intros H. split; [by apply Forall_singleton|done]. Qed.

(** Every inferred output is well formed and there is at least one. *)
Lemma infer_outputs_wf o inputs outputs :
  Forall facts_wf inputs -> infer_outputs o inputs = Ok outputs ->
  Forall facts_wf outputs /\ outputs <> [].
Proof.
  intros Hin H. destruct o; simpl in H.
  - apply infer_concat_Ok in H as (? & ? & f & H). destruct_and! H. subst.
    by apply singleton_ok.
  - apply bind_Ok in H as (i & _ & H). apply infer_permute_Ok in H as (_ & _ & _ & f & -> & ? & _).
    by apply singleton_ok.
  - apply bind_Ok in H as (i & _ & H). apply infer_pad_Ok in H as (f & -> & ? & _).
    by apply singleton_ok.
  - apply bind_Ok in H as (i & _ & H). apply infer_slice_Ok in H as (_ & f & -> & ? & _).
    by apply singleton_ok.
  - apply bind_Ok in H as (i & _ & H). pose proof H as H'.
    apply infer_split_Ok in H as (axis & _ & _ & Hall & _). split.
    + apply Forall_forall. intros f (j & Hj)%list_elem_of_lookup.
      destruct (Forall2_lookup_r _ _ _ _ _ Hall Hj) as (r & _ & Hr). apply Hr.
    + unfold infer_split in H'. apply bind_Ok in H' as (? & _ & H').
      apply bind_Ok in H' as ([? ?] & _ & H'). apply bind_Ok in H' as (? & Hne%reject_Ok & H').
      injection H' as <-. bool_to_prop. intros ->. by apply Hne.
  - apply bind_Ok in H as (i & Hi%one_input_Ok & H). subst inputs.
    rewrite Forall_singleton in Hin.
    apply (infer_reshape_Ok _ _ _ Hin) in H as (_ & _ & f & -> & ? & _).
    by apply singleton_ok.
  - apply bind_Ok in H as (i & _ & H). apply infer_prepare_Ok in H as (_ & _ & f & -> & ? & _).
    by apply singleton_ok.
Qed.

(** * Inference never panics

    Every index and every subtraction of the inference functions is in bounds
    for any operation parameters, the ones no constructor would build
    included. *)

Lemma TensorFacts_contiguous_not_Panic shape r : TensorFacts_contiguous shape r <> Panic.
Proof.
  unfold TensorFacts_contiguous. no_panic; apply TensorFacts_new_not_Panic.
Qed.

Lemma validate_rank_not_Panic r : validate_rank r <> Panic.
Proof. unfold validate_rank. no_panic. Qed.

Lemma validate_range_not_Panic r d : validate_range r d <> Panic.
Proof. unfold validate_range. no_panic. Qed.

Lemma validate_axis_not_Panic a rank : validate_axis a rank <> Panic.
Proof. unfold validate_axis, axis_as_usize. no_panic. Qed.

Lemma permutation_indices_not_Panic order : permutation_indices order <> Panic.
Proof. unfold permutation_indices. apply mapM_not_Panic. intros. no_panic. Qed.

Lemma one_input_not_Panic inputs : one_input inputs <> Panic.
Proof. destruct inputs as [|? []]; done. Qed.

#[export] Hint Resolve TensorFacts_contiguous_not_Panic TensorFacts_new_not_Panic validate_rank_not_Panic
  validate_range_not_Panic validate_axis_not_Panic permutation_indices_not_Panic
  one_input_not_Panic : no_panic.

Lemma validate_permutation_not_Panic order : validate_permutation order <> Panic.
Proof.
  unfold validate_permutation. apply bind_not_Panic; [auto with no_panic|]. intros _ _.
  apply bind_not_Panic; [|no_panic].
  apply try_fold_not_Panic. intros seen axis _. unfold mark_axis. no_panic.
Qed.

Lemma enumerate_bounds {A} (l : list A) i x : (i, x) ∈ enumerate l -> (i < length l)%nat /\ x ∈ l.
Proof.
  unfold enumerate. intros (k & Hk)%list_elem_of_lookup.
  apply lookup_zip_with_Some in Hk as (a & b & [= <- <-] & Ha & Hb).
  apply lookup_seq in Ha as [-> Hlt]. split; [lia|]. by eapply list_elem_of_lookup_2.
Qed.

(** The axes of a valid permutation are in bounds. *)
Lemma permutation_bounds order indices :
  validate_permutation order = Ok tt -> permutation_indices order = Ok indices ->
  length indices = length order /\ forall a, a ∈ indices -> (a < length order)%nat.
Proof.
  intros Hv Hi. apply validate_permutation_Ok in Hv as ([_ Hlt] & Hi' & _).
  rewrite Hi in Hi'. injection Hi' as ->. rewrite length_map in *. split; [done|].
  rewrite Forall_forall in Hlt. exact Hlt.
Qed.

Lemma scatter_strides_not_Panic rank order strides :
  (forall a, a ∈ order -> (a < rank)%nat) -> (length order <= length strides)%nat ->
  scatter_strides rank order strides <> Panic.
Proof.
  intros Ho Hl. unfold scatter_strides.
  assert (forall l (acc : list N), length acc = rank ->
    (forall i x, (i, x) ∈ l -> (i < length strides)%nat /\ (x < rank)%nat) ->
    try_fold (fun strides' '(physical_axis, logical_axis) =>
      s ← index strides physical_axis; index_set strides' logical_axis s) acc l <> Panic) as H.
  { induction l as [|[i x] l IH]; intros acc Hacc Hin; [done|]. cbn [try_fold].
    destruct (Hin i x ltac:(left)) as [Hi Hx].
    apply bind_not_Panic.
    - apply bind_not_Panic; [auto with no_panic|]. intros s _. apply index_set_not_Panic. lia.
    - intros acc' Ha. apply bind_Ok in Ha as (s & _ & [_ ->]%index_set_Ok).
      apply IH; [by rewrite length_insert|]. intros j y Hj. apply Hin. by right. }
  apply H; [apply length_replicate|]. intros i x [Hi Hx]%enumerate_bounds. split; [lia|auto].
Qed.

Lemma gather_not_Panic (l : list N) order :
  (forall a, a ∈ order -> (a < length l)%nat) -> mapM (index l) order <> Panic.
Proof. intros H. apply mapM_not_Panic. auto with no_panic. Qed.

Lemma mapM_length {A B} (f : A -> result B) l k : mapM f l = Ok k -> length k = length l.
Proof. intros H%mapM_Ok. symmetry. by eapply Forall2_length. Qed.

Lemma contiguous_strides_length shape st : contiguous_strides shape = Ok st -> length st = length shape.
Proof. intros H. apply contiguous_strides_Ok in H as [-> _]. apply row_strides_length. Qed.

Lemma infer_pad_not_Panic p input : facts_wf input -> infer_pad p input <> Panic.
Proof.
  intros Hwf. unfold infer_pad. apply bind_not_Panic; [apply validate_permutation_not_Panic|].
  intros [] Hv. apply bind_not_Panic; [auto with no_panic|]. intros _ Hr%reject_Ok.
  apply orb_false_iff in Hr as [H1 H2]. bool_to_prop. apply dec_stable in H1, H2.
  apply bind_not_Panic; [auto with no_panic|]. intros _ _.
  apply bind_not_Panic; [auto with no_panic|]. intros order Ho.
  destruct (permutation_bounds _ _ Hv Ho) as [Hl Hb].
  apply bind_not_Panic.
  { apply try_fold_not_Panic. intros b [i axis] [Hi Ha]%enumerate_bounds. unfold pad_axis_step.
    specialize (Hb axis Ha). no_panic; apply index_not_Panic; lia. }
  intros padded _. apply bind_not_Panic; [auto with no_panic|]. intros _ _.
  apply bind_not_Panic; [auto with no_panic|]. intros st Hst%contiguous_strides_length.
  apply bind_not_Panic; [|intros; no_panic].
  apply scatter_strides_not_Panic; [|lia]. intros a Ha. specialize (Hb a Ha). lia.
Qed.

Lemma infer_permute_not_Panic p input : facts_wf input -> infer_permute p input <> Panic.
Proof.
  intros Hwf. unfold infer_permute. apply bind_not_Panic; [apply validate_permutation_not_Panic|].
  intros [] Hv. apply bind_not_Panic; [auto with no_panic|]. intros _ Hr%reject_Ok.
  bool_to_prop. apply dec_stable in Hr.
  apply bind_not_Panic; [auto with no_panic|]. intros order Ho.
  destruct (permutation_bounds _ _ Hv Ho) as [Hl Hb]. rewrite Hr in Hb.
  apply bind_not_Panic; [|done]. destruct (permute_mode p).
  - apply bind_not_Panic; [by apply gather_not_Panic|auto with no_panic].
  - apply bind_not_Panic; [auto with no_panic|]. intros _ _.
    apply bind_not_Panic; [by apply gather_not_Panic|]. intros ss Hss%mapM_length.
    apply bind_not_Panic; [auto with no_panic|]. intros st Hst%contiguous_strides_length.
    apply bind_not_Panic; [|intros; no_panic].
    apply scatter_strides_not_Panic; [|lia]. intros a Ha. specialize (Hb a Ha). lia.
Qed.

Lemma concat_step_not_Panic first axis shape input :
  (axis < length (logical_shape first))%nat -> length shape = length (logical_shape first) ->
  concat_step first axis shape input <> Panic /\
  forall shape', concat_step first axis shape input = Ok shape' ->
    length shape' = length (logical_shape first).
Proof.
  intros Ha Hs. unfold concat_step. split.
  - apply bind_not_Panic; [auto with no_panic|]. intros _ Hr%reject_Ok. bool_to_prop.
    apply dec_stable in Hr. no_panic; try apply index_not_Panic; try apply index_set_not_Panic; lia.
  - intros shape' H. do 6 (apply bind_Ok in H as (? & _ & H)).
    apply index_set_Ok in H as [_ ->]. by rewrite length_insert.
Qed.

Lemma infer_concat_not_Panic c inputs : infer_concat c inputs <> Panic.
Proof.
  unfold infer_concat. destruct inputs as [|first [|second rest]]; [done..|].
  apply bind_not_Panic; [auto with no_panic|]. intros axis [_ Hax]%validate_axis_Ok.
  apply bind_not_Panic; [auto with no_panic|]. intros zeroed [_ ->]%index_set_Ok.
  apply bind_not_Panic; [|intros; no_panic].
  generalize (first :: second :: rest) as l. intros l.
  assert (length (<[axis := 0]> (logical_shape first)) = length (logical_shape first)) as Hl
    by apply length_insert.
  revert Hl. generalize (<[axis := 0]> (logical_shape first)) as shape.
  induction l as [|input l IH]; intros shape Hl; [done|]. cbn [try_fold].
  destruct (concat_step_not_Panic first axis shape input Hax Hl) as [Hp Hn].
  apply bind_not_Panic; [done|]. intros shape' Hs. apply IH. by apply Hn.
Qed.

Lemma range_len_not_Panic r d : validate_range r d = Ok tt -> range_len r <> Panic.
Proof. intros [H _]%validate_range_Ok. unfold range_len. auto with no_panic. Qed.

Lemma infer_slice_not_Panic s input : infer_slice s input <> Panic.
Proof.
  unfold infer_slice. apply bind_not_Panic; [auto with no_panic|]. intros _ _.
  apply bind_not_Panic; [|intros; no_panic]. apply try_fold_not_Panic. intros acc [r d] _.
  unfold slice_step. apply bind_not_Panic; [auto with no_panic|]. intros [] Hr.
  apply bind_not_Panic; [by eapply range_len_not_Panic|done].
Qed.

Lemma infer_split_not_Panic s input : infer_split s input <> Panic.
Proof.
  unfold infer_split. apply bind_not_Panic; [auto with no_panic|]. intros axis [_ Hax]%validate_axis_Ok.
  apply bind_not_Panic; [|intros [] _; no_panic]. apply try_fold_not_Panic. intros [prev outs] r _.
  unfold split_step. apply bind_not_Panic; [auto with no_panic|]. intros _ _.
  apply bind_not_Panic; [auto with no_panic|]. intros d _.
  apply bind_not_Panic; [auto with no_panic|]. intros [] Hr.
  apply bind_not_Panic; [auto with no_panic|]. intros _ _.
  apply bind_not_Panic; [by eapply range_len_not_Panic|]. intros len _.
  apply bind_not_Panic; [auto with no_panic|]. intros; no_panic.
Qed.

Lemma infer_outputs_not_Panic o inputs :
  Forall facts_wf inputs -> infer_outputs o inputs <> Panic.
Proof.
  intros Hwf. destruct o; cbn [infer_outputs]; [apply infer_concat_not_Panic|..];
    (apply bind_not_Panic; [auto with no_panic|]; intros i ->%one_input_Ok;
     rewrite Forall_singleton in Hwf).
  - by apply infer_permute_not_Panic.
  - by apply infer_pad_not_Panic.
  - apply infer_slice_not_Panic.
  - apply infer_split_not_Panic.
  - unfold infer_reshape, checked_element_count. no_panic.
  - unfold infer_prepare, validate_host_len. no_panic.
Qed.
