(* ===== verification/Semantics.v ===== *)
(** * What the operations mean

    An abstract tensor maps a logical coordinate to the bytes of one scalar.
    [represents] says which abstract tensor a buffer stores under given facts,
    and the [sem_] functions are the meaning of each operation on abstract
    tensors, with no strides, no buffers and no machine integers. *)

From S2P Require Import Prelude Errors Tensor Representation Strides Facts Operation Kernels.
Local Open Scope N_scope.

Abbreviation tensor := (list N -> bytes).

(** The bytes of the element at a physical element offset. *)
Definition element (w e : N) (bs : bytes) : bytes :=
  take (N.to_nat w) (drop (N.to_nat (e * w)) bs).

Definition represents (f : TensorFacts) (bs : bytes) (T : tensor) : Prop :=
  blen bs = facts_byte_len f /\
  forall c, in_shape (logical_shape f) c -> element (width f) (offset_of f c) bs = T c.

(** The tensor a buffer stores. *)
Definition read_tensor (f : TensorFacts) (bs : bytes) : tensor :=
  fun c => element (width f) (offset_of f c) bs.

(** Row-major contiguous bytes of an abstract tensor. *)
Definition flatten (shape : list N) (T : tensor) : bytes :=
  concat (map (fun l => T (decode shape (N.of_nat l))) (seq 0 (N.to_nat (prodN shape)))).

(** The input that holds an axis coordinate, and the coordinate inside it. *)
Fixpoint locate_input (dims : list N) (x : N) (i : nat) : nat * N :=
  match dims with
  | [] => (i, x)
  | d :: dims => if x <? d then (i, x) else locate_input dims (x - d) (S i)
  end.

Definition sem_concat (axis : nat) (dims : list N) (Ts : list tensor) : tensor := fun c =>
  let '(i, x) := locate_input dims (c !!! axis) 0 in
  default (fun _ => []) (Ts !! i) (<[axis := x]> c).

(** Output coordinate [i] is input coordinate [order[i]]. *)
Definition sem_permute (order : list nat) (T : tensor) : tensor := fun c =>
  T (scatter 0 order c).

Definition sem_slice (ranges : list AxisRange) (T : tensor) : tensor := fun c =>
  T (zip_with (fun r x => range_start r + x) ranges c).

Definition sem_split (axis : nat) (r : AxisRange) (T : tensor) : tensor := fun c =>
  T (alter (fun x => range_start r + x) axis c).

Definition sem_reshape (input_shape output_shape : list N) (T : tensor) : tensor := fun c =>
  T (decode input_shape (encode output_shape c)).

(** ** Elements of a buffer *)

Lemma element_length w e bs : (e + 1) * w <= blen bs -> length (element w e bs) = N.to_nat w.
Proof. unfold element, blen. intros. rewrite length_take, length_drop. lia. Qed.

Lemma element_lookup w e bs i :
  (i < N.to_nat w)%nat -> element w e bs !! i = bs !! (N.to_nat (e * w) + i)%nat.
Proof. intros. unfold element. rewrite lookup_take_lt by done. apply lookup_drop. Qed.

(** Two buffers of equal length with equal elements are equal. *)
Lemma elements_determine w n a b :
  0 < w -> blen a = n * w -> blen b = n * w ->
  (forall e, e < n -> element w e a = element w e b) -> a = b.
Proof.
  intros Hw Ha Hb H. apply list_eq. intros i.
  destruct (decide (N.of_nat i < n * w)) as [Hi|Hi].
  - pose proof (N.div_mod (N.of_nat i) w ltac:(lia)) as Hi'.
    pose proof (N.mod_lt (N.of_nat i) w ltac:(lia)) as Hk.
    assert (N.of_nat i / w < n) as He by (apply N.Div0.div_lt_upper_bound; lia).
    assert (i = N.to_nat (N.of_nat i / w * w) + N.to_nat (N.of_nat i mod w))%nat as Ei by lia.
    rewrite Ei, <-!element_lookup by lia. by rewrite (H _ He).
  - unfold blen in *. rewrite !lookup_ge_None_2 by lia. done.
Qed.

Lemma get_range_element bs e w :
  (e + 1) * w <= blen bs -> get_range bs (e * w, e * w + w) = Some (element w e bs).
Proof.
  intros H. unfold get_range, element. simpl.
  assert ((e * w <=? e * w + w) = true) as -> by (apply N.leb_le; lia).
  assert ((e * w + w <=? blen bs) = true) as -> by (apply N.leb_le; lia).
  simpl. by replace (e * w + w - e * w) with w by lia.
Qed.

Lemma checked_byte_range_Ok o n b :
  o + n <= b -> b <= usize_MAX -> checked_byte_range o n b = Ok (o, o + n).
Proof.
  intros H Hb. change usize_MAX with u64_MAX in Hb. unfold checked_byte_range, usize_try_from.
  change usize_MAX with u64_MAX. rewrite checked_add_ok by lia. simpl.
  assert ((o <=? u64_MAX) = true) as -> by (apply N.leb_le; lia). simpl.
  assert ((o + n <=? u64_MAX) = true) as -> by (apply N.leb_le; lia). simpl.
  assert ((b <? o + n) = false) as -> by (apply N.ltb_ge; lia). done.
Qed.

(** What one in-bounds element copy does to the target. *)
Lemma copy_element_spec source s target t w :
  (s + 1) * w <= blen source -> (t + 1) * w <= blen target ->
  blen source <= u64_MAX -> blen target <= u64_MAX ->
  exists target',
    copy_element source s target t w = Ok target' /\ blen target' = blen target /\
    element w t target' = element w s source /\
    forall e, e <> t -> element w e target' = element w e target.
Proof.
  intros Hs Ht Hbs Hbt. exists (list_inserts (N.to_nat (t * w)) (element w s source) target).
  pose proof (element_length w s source Hs) as Hlen. split_and!.
  - unfold copy_element. rewrite !checked_mul_ok by lia. simpl.
    rewrite !checked_byte_range_Ok by (change usize_MAX with u64_MAX; lia). simpl.
    rewrite !get_range_element by lia. simpl. unfold copy_from_slice, blen. simpl.
    rewrite Hlen, N2Nat.id.
    by replace (t * w + w - t * w =? w) with true by (symmetry; apply N.eqb_eq; lia).
  - unfold blen. by rewrite length_inserts.
  - apply list_eq. intros i. destruct (decide (i < N.to_nat w)%nat) as [Hi|Hi].
    + rewrite element_lookup by done. unfold blen in *. rewrite list_lookup_inserts by lia.
      f_equal. lia.
    + rewrite !lookup_ge_None_2; [done | lia |]. unfold element. rewrite length_take. lia.
  - intros e He. apply list_eq. intros i. destruct (decide (i < N.to_nat w)%nat) as [Hi|Hi].
    + rewrite !element_lookup by done. destruct (decide (e < t)).
      * apply list_lookup_inserts_lt. nia.
      * apply list_lookup_inserts_ge. rewrite Hlen. nia.
    + rewrite !lookup_ge_None_2; [done | |]; unfold element; rewrite length_take; lia.
Qed.

(** ** Contiguous buffers *)

Lemma concat_uniform_length (l : list bytes) w :
  Forall (fun x => length x = w) l -> length (concat l) = (length l * w)%nat.
Proof. induction 1; simpl; [done|]. rewrite length_app. lia. Qed.

Lemma concat_uniform_element (l : list bytes) w i x :
  Forall (fun x => length x = w) l -> l !! i = Some x ->
  take w (drop (i * w) (concat l)) = x.
Proof.
  intros H. revert i. induction H as [|y l Hy Hl IH]; intros [|i] Hi; simplify_eq/=.
  - rewrite drop_0. by apply take_app_length.
  - rewrite drop_app_ge by lia. replace (length y + i * length y - length y)%nat
      with (i * length y)%nat by lia. by apply IH.
Qed.
