(* ===== verification/KernelSpecs.v ===== *)
(** * Correctness of the structural kernels

    Each element-wise kernel of [Kernels] ends, unless the environment
    interrupts it, with a buffer that stores the abstract result of its
    operation, and leaves every physical element no coordinate maps to as it
    was. *)

From S2P Require Import Prelude Errors Cancel Tensor Representation Strides Facts Operation Kernels InferSpecs.
From S2P Require Import Semantics.
Local Open Scope N_scope.

(** The elements outside the image of the logical coordinates are those of
    [before]. *)
Definition keeps_padding (f : TensorFacts) (before after : bytes) : Prop := forall e,
  (forall c, in_shape (logical_shape f) c -> offset_of f c <> e) ->
  element (width f) e after = element (width f) e before.

(** ** Allocation *)

Lemma zero_fill_spec fuel len bs :
  len <= blen bs + ALLOCATION_TILE_BYTES * N.of_nat fuel -> blen bs <= len -> len <= u64_MAX ->
  succeeds (zero_fill fuel len bs)
    (fun out => out = bs ++ replicate (N.to_nat (len - blen bs)) Byte.x00).
Proof.
  revert bs. induction fuel as [|fuel IH]; intros bs Hf Hb Hm; cbn [zero_fill].
  { apply succeeds_ret. replace (len - blen bs) with 0 by lia. by rewrite app_nil_r. }
  destruct (blen bs <? len) eqn:E; bool_to_prop.
  - apply succeeds_check_bind.
    set (next := N.min (saturating_add (blen bs) ALLOCATION_TILE_BYTES) len).
    assert (blen bs < next <= len /\ (next = len \/ next = blen bs + ALLOCATION_TILE_BYTES)) as Hn.
    { unfold next, saturating_add, ALLOCATION_TILE_BYTES in *. lia. }
    assert (blen (bs ++ replicate (N.to_nat (next - blen bs)) Byte.x00) = next) as Hl.
    { unfold blen in *. rewrite length_app, length_replicate. lia. }
    pose proof (IH (bs ++ replicate (N.to_nat (next - blen bs)) Byte.x00)) as IH'.
    rewrite Hl in IH'. eapply succeeds_mono; [apply IH'; lia|].
    intros out ->. rewrite <-app_assoc, <-replicate_add. do 2 f_equal. lia.
  - apply succeeds_ret. replace (len - blen bs) with 0 by lia. by rewrite app_nil_r.
Qed.

(** The allocation is exactly the declared number of zero bytes. *)
Lemma allocate_tensor_spec f :
  facts_byte_len f <= isize_MAX ->
  succeeds (allocate_tensor f)
    (fun out => out = replicate (N.to_nat (facts_byte_len f)) Byte.x00).
Proof.
  intros Hle. unfold allocate_tensor. run_step. run_step.
  { unfold validate_host_len, usize_try_from.
    assert ((facts_byte_len f <=? usize_MAX) = true) as ->; [|reflexivity].
    apply N.leb_le. etransitivity; [exact Hle|]. by vm_compute. }
  run_step; [done|]. eapply succeeds_then.
  - apply zero_fill_spec; [|change (blen []) with 0; lia|].
    + change (blen []) with 0. unfold ALLOCATION_TILE_BYTES.
      pose proof (N.div_mod (facts_byte_len f) (1024 * 1024) ltac:(done)).
      pose proof (N.mod_lt (facts_byte_len f) (1024 * 1024) ltac:(done)). lia.
    + etransitivity; [exact Hle|]. by vm_compute.
  - intros out ->. run_step. run_step. change (blen []) with 0. by rewrite N.sub_0_r.
Qed.

Lemma allocate_tensor_limit f :
  isize_MAX < facts_byte_len f -> fails (allocate_tensor f) ResourceLimit.
Proof.
  intros Hlt. unfold allocate_tensor. apply fails_then with (P := fun _ => True).
  { by apply succeeds_check. }
  intros [] _. unfold validate_host_len, usize_try_from.
  destruct (facts_byte_len f <=? usize_MAX).
  - apply fails_then with (P := fun n => n = facts_byte_len f); [by eapply succeeds_lift|].
    intros ? ->. apply fails_bind. apply wp_try_reserve_exact; [lia|done].
  - apply fails_bind, fails_lift.
Qed.

(** ** The copy loop *)

Lemma copy_loop_spec count locate w output (src : N -> bytes) (s t : N -> N) :
  blen output <= u64_MAX ->
  (forall l, l < count ->
     locate l = Ok (src l, s l, t l) /\ (s l + 1) * w <= blen (src l) /\
     blen (src l) <= u64_MAX /\ (t l + 1) * w <= blen output) ->
  (forall l l', l < count -> l' < count -> t l = t l' -> l = l') ->
  succeeds (copy_loop count locate w output) (fun out =>
    blen out = blen output /\
    (forall l, l < count -> element w (t l) out = element w (s l) (src l)) /\
    (forall e, (forall l, l < count -> t l <> e) -> element w e out = element w e output)).
Proof.
  intros Hlen Hloc Hinj. unfold copy_loop.
  apply (succeeds_for_range (fun i out => blen out = blen output /\
    (forall l, l < i -> element w (t l) out = element w (s l) (src l)) /\
    (forall e, (forall l, l < i -> t l <> e) -> element w e out = element w e output)));
    [lia | split_and!; [done | lia | done] |].
  intros i out [_ Hi] (Hl & Hdone & Hrest).
  destruct (Hloc i Hi) as (Hlocate & Hs & Hsrc & Ht).
  eapply (succeeds_then _ _ (fun _ => True)).
  { unfold check_copy_cancellation. case_match; [by apply succeeds_check | by apply succeeds_ret]. }
  intros [] _. rewrite Hlocate. simpl.
  destruct (copy_element_spec (src i) (s i) out (t i) w) as (out' & Hc & Hl' & Het & Hee);
    [done | lia.. |].
  eapply succeeds_lift; [exact Hc|]. split_and!; [congruence| |].
  - intros l Hl2. destruct (decide (l = i)) as [->|Hne]; [done|].
    rewrite Hee; [apply Hdone; lia|]. intros E. apply Hne, Hinj; [lia|lia|done].
  - intros e He. rewrite Hee by (intros ->; apply (He i); [lia|done]).
    apply Hrest. intros l ?. apply He. lia.
Qed.

(** The loop of a kernel that reads output coordinate [c] from a source element
    holding [T c]. *)
Lemma copy_kernel_spec f locate output (T : tensor) :
  facts_wf f -> blen output = facts_byte_len f ->
  (forall c, in_shape (logical_shape f) c ->
     exists src s, locate (encode (logical_shape f) c) = Ok (src, s, offset_of f c) /\
       (s + 1) * width f <= blen src /\ blen src <= u64_MAX /\
       element (width f) s src = T c) ->
  succeeds (copy_loop (element_count f) locate (width f) output)
    (fun out => represents f out T /\ keeps_padding f output out).
Proof.
  intros Hwf Hlen Hloc. rewrite element_count_exact by done.
  set (shape := logical_shape f) in *.
  assert (forall l, l < prodN shape -> in_shape shape (decode shape l)) as Hin.
  { intros l Hl. apply decode_in_shape. lia. }
  set (at_ := fun l => match locate l with Ok x => x | _ => ([], 0, 0) end).
  assert (forall l, l < prodN shape -> exists src s,
    locate l = Ok (src, s, offset_of f (decode shape l)) /\
    (s + 1) * width f <= blen src /\ blen src <= u64_MAX /\
    element (width f) s src = T (decode shape l)) as Hat.
  { intros l Hl. destruct (Hloc _ (Hin l Hl)) as (src & s & H).
    rewrite encode_decode in H by done. eauto. }
  eapply succeeds_mono.
  - apply (copy_loop_spec _ _ _ _ (fun l => (at_ l).1.1) (fun l => (at_ l).1.2)
             (fun l => offset_of f (decode shape l))).
    + rewrite Hlen. apply Hwf.
    + intros l Hl. destruct (Hat l Hl) as (src & s & E & Hs & Hsrc & _).
      unfold at_. rewrite E. simpl. split_and!; [done|done|done|].
      rewrite Hlen. apply element_in_bytes; auto.
    + intros l l' Hl Hl' E. apply (decode_inj shape); [done|done|].
      apply (wf_injective f Hwf); fold shape; auto. clear -Hl. lia.
  - intros out (Hl & Hdone & Hrest). split; [split|].
    + by rewrite Hl.
    + intros c Hc. pose proof (encode_bound _ _ Hc) as Hb. specialize (Hdone _ Hb).
      destruct (Hat _ Hb) as (src & s & E & _ & _ & Hel). unfold at_ in Hdone.
      rewrite E in Hdone. simpl in Hdone. rewrite decode_encode in * by done.
      by rewrite Hdone.
    + intros e He. apply Hrest. intros l Hlt. apply He. by apply Hin.
Qed.

(** ** Offsets *)

Lemma fold_offsets {X} (step : N * N -> X -> result (N * N)) (f g : X -> N) xs a b :
  (forall x a b, x ∈ xs -> a + f x <= u64_MAX -> b + g x <= u64_MAX ->
     step (a, b) x = Ok (a + f x, b + g x)) ->
  a + sumN (map f xs) <= u64_MAX -> b + sumN (map g xs) <= u64_MAX ->
  try_fold step (a, b) xs = Ok (a + sumN (map f xs), b + sumN (map g xs)).
Proof.
  revert a b. induction xs as [|x xs IH]; intros a b Hs Ha Hb; simpl in *.
  { change (sumN []) with 0. by rewrite !N.add_0_r. }
  rewrite !sumN_cons in *. rewrite Hs; [|by left|lia|lia]. simpl.
  rewrite IH; [by rewrite !N.add_assoc| |lia|lia].
  intros y a' b' Hy. apply Hs. by right.
Qed.

Lemma index_total {A} `{Inhabited A} (l : list A) i : (i < length l)%nat -> index l i = Ok (l !!! i).
Proof. intros. apply index_Ok. by apply list_lookup_lookup_total_lt. Qed.

Lemma logical_coordinate_total l axis shape :
  prodN shape <> 0 -> (axis < length shape)%nat ->
  logical_coordinate l axis shape (row_strides shape) = Ok (decode shape l !!! axis).
Proof.
  intros Hp Ha. apply logical_coordinate_Ok; [done|].
  apply list_lookup_lookup_total_lt. by rewrite decode_length.
Qed.

Lemma offset_fits f c :
  facts_wf f -> in_shape (logical_shape f) c -> offset_of f c <= u64_MAX.
Proof.
  intros Hwf Hc. pose proof (element_in_bytes f c Hwf Hc). pose proof (width_pos f).
  pose proof (wf_bytes_fit f Hwf). nia.
Qed.

Lemma dtype_width_Ok d : dtype_width d = Ok (bits d / 8).
Proof. by destruct d. Qed.

Lemma validate_view_len_Ok v n : view_len v = n -> validate_view_len v n = Ok tt.
Proof. intros <-. unfold validate_view_len. by rewrite N.eqb_refl. Qed.

Lemma represents_view_len f v T :
  view_wf v -> represents f (as_slice v) T -> view_len v = facts_byte_len f.
Proof. intros Hv [Hl _]. rewrite <-Hl. unfold blen. by rewrite as_slice_length. Qed.

(** The source element of a coordinate of a represented tensor. *)
Lemma represents_element f bs T c :
  facts_wf f -> represents f bs T -> in_shape (logical_shape f) c ->
  (offset_of f c + 1) * width f <= blen bs /\ blen bs <= u64_MAX /\
  element (width f) (offset_of f c) bs = T c.
Proof.
  intros Hwf [Hl HT] Hc. rewrite Hl. split_and!.
  - by apply element_in_bytes.
  - apply Hwf.
  - by apply HT.
Qed.

(** ** Storage copy *)

Lemma storage_offsets fin fout c :
  facts_wf fin -> facts_wf fout -> logical_shape fin = logical_shape fout ->
  in_shape (logical_shape fout) c ->
  try_fold (storage_offset_step fin fout (row_strides (logical_shape fout))
              (encode (logical_shape fout) c)) (0, 0) (seq 0 (length (logical_shape fout))) =
  Ok (offset_of fin c, offset_of fout c).
Proof.
  intros Hwi Hwo Hsh Hc. pose proof (in_shape_length _ _ Hc) as Hl.
  pose proof (offset_fits fout c Hwo Hc) as Hfo.
  assert (offset_of fin c <= u64_MAX) as Hfi by (apply offset_fits; [done|by rewrite Hsh]).
  pose proof (wf_storage_strides fin Hwi) as Hsi. rewrite Hsh in Hsi.
  pose proof (wf_storage_strides fout Hwo) as Hso.
  unfold offset_of in *. rewrite (dotN_seq c), Hl in Hfi by congruence.
  rewrite (dotN_seq c), Hl in Hfo by congruence. rewrite !(dotN_seq c) by congruence. rewrite Hl.
  apply (fold_offsets _ (fun i => c !!! i * storage_strides fin !!! i)
           (fun i => c !!! i * storage_strides fout !!! i) _ 0 0); [|done|done].
  intros i a b Hi%elem_of_seq Ha Hb. unfold storage_offset_step.
  rewrite logical_coordinate_total by (try lia; by apply in_shape_pos in Hc). simpl.
  rewrite decode_encode by done. rewrite index_total by lia. simpl.
  rewrite checked_offset_term_Ok by done. simpl. rewrite index_total by lia. simpl.
  by rewrite checked_offset_term_Ok.
Qed.

Lemma execute_storage_copy_spec fin fout input output (T : tensor) :
  facts_wf fin -> facts_wf fout -> addressable fout ->
  logical_shape fin = logical_shape fout -> facts_dtype fin = facts_dtype fout ->
  view_wf input -> represents fin (as_slice input) T -> blen output = facts_byte_len fout ->
  succeeds (execute_storage_copy fin fout input output)
    (fun out => represents fout out T /\ keeps_padding fout output out).
Proof.
  intros Hwi Hwo Ha Hsh Hd Hv HT Hlen. unfold execute_storage_copy.
  run_step; [apply validate_view_len_Ok; by eapply represents_view_len|].
  run_step; [by rewrite bool_decide_eq_false_2 by (by intros [])|].
  run_step; [apply dtype_width_Ok|]. run_step; [exact Ha|].
  replace (bits (facts_dtype fin) / 8) with (width fout) by (unfold width; by rewrite Hd).
  eapply succeeds_then; [apply copy_kernel_spec with (T := T); [done|done|]|].
  - intros c Hc. rewrite storage_offsets by done. simpl.
    destruct (represents_element fin _ T c Hwi HT) as (? & ? & ?); [by rewrite Hsh|].
    unfold width in *. rewrite <-Hd. eauto 10.
  - intros out Hout. run_step. by run_step.
Qed.

(** ** Enumerated loops *)

Lemma enumerate_seq {A} `{Inhabited A} (l : list A) :
  enumerate l = map (fun i => (i, l !!! i)) (seq 0 (length l)).
Proof.
  apply list_eq. intros i. unfold enumerate.
  change (map (fun i => (i, l !!! i)) (seq 0 (length l)))
    with ((fun i => (i, l !!! i)) <$> seq 0 (length l)).
  rewrite lookup_zip_with, list_lookup_fmap.
  destruct (decide (i < length l)%nat) as [Hi|Hi].
  - rewrite lookup_seq_lt by done. simpl. by rewrite (list_lookup_lookup_total_lt l).
  - by rewrite lookup_seq_ge by lia.
Qed.

Lemma sum_enumerate {A} `{Inhabited A} (l : list A) (g : nat * A -> N) :
  sumN (map g (enumerate l)) = sumN (map (fun i => g (i, l !!! i)) (seq 0 (length l))).
Proof. by rewrite enumerate_seq, map_map. Qed.

(** A dot product as the sum an enumerated loop accumulates. *)
Lemma dotN_enumerate {A} `{Inhabited A} (l : list A) c s :
  length c = length l -> length s = length l ->
  dotN c s = sumN (map (fun x => c !!! x.1 * s !!! x.1) (enumerate l)).
Proof. intros Hc Hs. rewrite sum_enumerate, dotN_seq by congruence. by rewrite Hc. Qed.

Lemma elem_of_enumerate {A} `{Inhabited A} (l : list A) i a :
  (i, a) ∈ enumerate l -> l !! i = Some a /\ a = l !!! i /\ (i < length l)%nat.
Proof.
  rewrite enumerate_seq. intros (j & [= -> ->] & Hj%elem_of_seq)%list_elem_of_fmap.
  split_and!; [apply list_lookup_lookup_total_lt; lia|done|lia].
Qed.

(** ** Logical permutation *)

Section Permutation.
Context (fin fout : TensorFacts) (order : list nat).
Context (Hwi : facts_wf fin) (Hwo : facts_wf fout).
Context (Hord : is_order order) (Hrank : length order = length (logical_shape fin)).
Context (Hshape : logical_shape fout = gather order (logical_shape fin)).

Lemma permuted_in_shape c :
  in_shape (logical_shape fout) c -> in_shape (logical_shape fin) (scatter 0 order c).
Proof using Hord Hrank Hshape.
  rewrite Hshape. intros Hc. by apply in_shape_scatter.
Qed.

Lemma permute_offsets c :
  in_shape (logical_shape fout) c ->
  try_fold (permute_offset_step fin fout (row_strides (logical_shape fout))
              (encode (logical_shape fout) c)) (0, 0) (enumerate order) =
  Ok (offset_of fin (scatter 0 order c), offset_of fout c).
Proof using All.
  intros Hc. pose proof (in_shape_length _ _ Hc) as Hl.
  assert (length c = length order) as Hlc by (by rewrite Hl, Hshape, gather_length).
  pose proof (offset_fits fout c Hwo Hc) as Hfo.
  pose proof (offset_fits fin _ Hwi (permuted_in_shape c Hc)) as Hfi.
  pose proof (wf_storage_strides fin Hwi) as Hsi. pose proof (wf_storage_strides fout Hwo) as Hso.
  unfold offset_of in *.
  rewrite <-(dotN_gather order), gather_scatter in Hfi |- *
    by (rewrite ?scatter_length; congruence || lia).
  rewrite (dotN_enumerate order c) in Hfi, Hfo by (rewrite ?gather_length; congruence).
  rewrite !(dotN_enumerate order c) by (rewrite ?gather_length; congruence).
  apply (fold_offsets _ (fun x => c !!! x.1 * gather order (storage_strides fin) !!! x.1)
           (fun x => c !!! x.1 * storage_strides fout !!! x.1) _ 0 0); [|done|done].
  intros [i a] x y (Hi & _ & Hlt)%elem_of_enumerate Hx Hy. simpl in Hx, Hy |- *.
  unfold permute_offset_step.
  rewrite logical_coordinate_total by (try lia; by apply in_shape_pos in Hc). simpl.
  rewrite decode_encode by done.
  assert (a < length order)%nat as Ha.
  { destruct Hord as [_ Ho]. rewrite Forall_forall in Ho. apply Ho.
    apply list_elem_of_lookup. eauto. }
  assert (gather order (storage_strides fin) !!! i = storage_strides fin !!! a) as Eg.
  { apply list_lookup_total_correct. rewrite (gather_lookup _ _ _ a) by (done || lia).
    apply list_lookup_lookup_total_lt. lia. }
  rewrite Eg in *. rewrite index_total by lia. simpl.
  rewrite checked_offset_term_Ok by done. simpl. rewrite index_total by lia. simpl.
  by rewrite checked_offset_term_Ok.
Qed.
End Permutation.

Lemma execute_permute_bytes_spec p fin fout input output (T : tensor) :
  let order := map N.to_nat (permute_order p) in
  facts_wf fin -> facts_wf fout -> addressable fout ->
  facts_dtype fout = facts_dtype fin ->
  is_order order -> length order = length (logical_shape fin) ->
  permutation_indices (permute_order p) = Ok order ->
  match permute_mode p with
  | Logical => logical_shape fout = gather order (logical_shape fin)
  | Storage _ => logical_shape fout = logical_shape fin
  end ->
  view_wf input -> represents fin (as_slice input) T -> blen output = facts_byte_len fout ->
  succeeds (execute_permute_bytes p fin fout input output)
    (fun out => represents fout out match permute_mode p with
                                    | Logical => sem_permute order T
                                    | Storage _ => T
                                    end /\ keeps_padding fout output out).
Proof.
  intros order Hwi Hwo Ha Hd Hord Hrank Hidx Hsh Hv HT Hlen. unfold execute_permute_bytes.
  run_step; [apply validate_view_len_Ok; by eapply represents_view_len|].
  destruct (permute_mode p); [|by apply execute_storage_copy_spec].
  run_step; [apply dtype_width_Ok|]. run_step; [exact Ha|]. run_step; [exact Hidx|].
  replace (bits (facts_dtype fin) / 8) with (width fout) by (unfold width; by rewrite Hd).
  eapply succeeds_then; [apply copy_kernel_spec with (T := sem_permute order T); [done|done|]|].
  - intros c Hc. rewrite permute_offsets by done. simpl.
    pose proof (permuted_in_shape _ _ _ Hord Hrank Hsh c Hc) as Hin.
    destruct (represents_element fin _ T _ Hwi HT Hin) as (? & ? & ?).
    unfold width in *. rewrite Hd. eauto 10.
  - intros out Hout. run_step. by run_step.
Qed.

(** ** Slicing *)

#[export] Instance AxisRange_inhabited : Inhabited AxisRange :=
  populate {| range_start := 0; range_end := 0 |}.

(** The source coordinate of a slice. *)
Definition shift_coords (ranges : list AxisRange) (c : list N) : list N :=
  zip_with (fun r x => range_start r + x) ranges c.

Lemma shift_in_shape ranges shape c :
  ranges_fit ranges shape -> in_shape (range_lens ranges) c ->
  in_shape shape (shift_coords ranges c).
Proof.
  unfold in_shape. intros H. revert c. induction H as [|r d ranges shape [Hr Hd] Hf IH]; intros c Hc.
  { by inversion Hc; subst. }
  simpl in Hc. inversion Hc as [|x ? c' ? Hx Hc']; subst. simpl. constructor; [lia|]. by apply IH.
Qed.

Section Slicing.
Context (fin fout : TensorFacts) (ranges : list AxisRange).
Context (Hwi : facts_wf fin) (Hwo : facts_wf fout).
Context (Hfit : ranges_fit ranges (logical_shape fin)).
Context (Hshape : logical_shape fout = range_lens ranges).

Lemma shifted_in_shape c :
  in_shape (logical_shape fout) c -> in_shape (logical_shape fin) (shift_coords ranges c).
Proof using Hfit Hshape. rewrite Hshape. by apply shift_in_shape. Qed.

Lemma slice_offsets c :
  in_shape (logical_shape fout) c ->
  try_fold (slice_offset_step fin fout (row_strides (logical_shape fout))
              (encode (logical_shape fout) c)) (0, 0) (enumerate ranges) =
  Ok (offset_of fin (shift_coords ranges c), offset_of fout c).
Proof using All.
  intros Hc. pose proof (in_shape_length _ _ Hc) as Hl.
  assert (length c = length ranges) as Hlc.
  { rewrite Hl, Hshape. apply length_map. }
  pose proof (Forall2_length _ _ _ Hfit) as Hlr.
  pose proof (offset_fits fout c Hwo Hc) as Hfo.
  pose proof (shifted_in_shape c Hc) as Hin.
  pose proof (offset_fits fin _ Hwi Hin) as Hfi.
  pose proof (wf_storage_strides fin Hwi) as Hsi. pose proof (wf_storage_strides fout Hwo) as Hso.
  pose proof (in_shape_length _ _ Hin) as Hl'.
  unfold offset_of in *.
  rewrite (dotN_enumerate ranges) in Hfi, Hfo by congruence.
  rewrite !(dotN_enumerate ranges) by congruence.
  apply (fold_offsets _ (fun x => shift_coords ranges c !!! x.1 * storage_strides fin !!! x.1)
           (fun x => c !!! x.1 * storage_strides fout !!! x.1) _ 0 0); [|done|done].
  intros [i r] x y (Hi & _ & Hlt)%elem_of_enumerate Hx Hy. simpl in Hx, Hy |- *.
  unfold slice_offset_step.
  rewrite logical_coordinate_total by (try lia; by apply in_shape_pos in Hc). simpl.
  rewrite decode_encode by done.
  assert (shift_coords ranges c !!! i = range_start r + c !!! i) as Es.
  { apply list_lookup_total_correct. unfold shift_coords. rewrite lookup_zip_with, Hi. simpl.
    by rewrite (list_lookup_lookup_total_lt c) by lia. }
  assert (shift_coords ranges c !!! i <= u64_MAX) as Hb.
  { transitivity (prodN (logical_shape fin)); [|apply Hwi].
    assert (exists d, logical_shape fin !! i = Some d) as [d Hd]
      by (apply lookup_lt_is_Some; lia).
    assert (shift_coords ranges c !!! i < d).
    { eapply Forall2_lookup_lr; [exact Hin| |exact Hd]. apply list_lookup_lookup_total_lt. lia. }
    apply in_shape_pos in Hin as Hp.
    pose proof (prodN_elem_of d _ (list_elem_of_lookup_2 _ _ _ Hd) Hp). lia. }
  rewrite Es in *. rewrite checked_add_ok by done. simpl.
  rewrite index_total by lia. simpl.
  rewrite checked_offset_term_Ok by done. simpl. rewrite index_total by lia. simpl.
  by rewrite checked_offset_term_Ok.
Qed.
End Slicing.

Lemma execute_slice_bytes_spec ranges fin fout input output (T : tensor) :
  facts_wf fin -> facts_wf fout -> addressable fout ->
  facts_dtype fout = facts_dtype fin ->
  ranges_fit ranges (logical_shape fin) -> logical_shape fout = range_lens ranges ->
  view_wf input -> represents fin (as_slice input) T -> blen output = facts_byte_len fout ->
  succeeds (execute_slice_bytes ranges fin input fout output)
    (fun out => represents fout out (sem_slice ranges T) /\ keeps_padding fout output out).
Proof.
  intros Hwi Hwo Ha Hd Hfit Hsh Hv HT Hlen. unfold execute_slice_bytes.
  run_step; [apply validate_view_len_Ok; by eapply represents_view_len|].
  run_step; [by rewrite bool_decide_eq_false_2 by (intros []; by eapply Forall2_length)|].
  run_step; [apply dtype_width_Ok|]. run_step; [exact Ha|].
  replace (bits (facts_dtype fin) / 8) with (width fout) by (unfold width; by rewrite Hd).
  eapply succeeds_then; [apply copy_kernel_spec with (T := sem_slice ranges T); [done|done|]|].
  - intros c Hc. rewrite slice_offsets by done. simpl.
    pose proof (shifted_in_shape _ _ _ Hfit Hsh c Hc) as Hin.
    destruct (represents_element fin _ T _ Hwi HT Hin) as (? & ? & ?).
    unfold width in *. rewrite Hd. eauto 10.
  - intros out Hout. run_step. by run_step.
Qed.

(** ** Dense storage *)

(** Without padding elements, the bytes are determined by the tensor. *)
Lemma represents_unique f a b T :
  facts_wf f -> prodN (storage_shape f) = prodN (logical_shape f) ->
  represents f a T -> represents f b T -> a = b.
Proof.
  intros Hwf Hd [Hla Ha] [Hlb Hb]. apply (elements_determine (width f) (prodN (storage_shape f))).
  - apply width_pos.
  - rewrite Hla. apply Hwf.
  - rewrite Hlb. apply Hwf.
  - intros e He. rewrite Hd in He.
    assert (prodN (logical_shape f) <> 0) as Hp by lia.
    pose proof (wf_bounded f Hwf Hp) as Hbd. rewrite Hd in Hbd.
    destruct (injective_strides_onto _ _ e (wf_injective f Hwf Hp) Hbd He) as (c & Hc & <-).
    fold (offset_of f c). by rewrite Ha, Hb.
Qed.

(** * Correctness of the element-wise concatenation kernel *)

(** The first axis index of every input when the first starts at [s]. *)
Fixpoint prefix_sums (s : N) (dims : list N) : list N :=
  match dims with
  | [] => []
  | d :: dims => s :: prefix_sums (s + d) dims
  end.

(** ** Locating the input of an axis coordinate *)

Lemma locate_input_spec dims x i :
  x < sumN dims ->
  exists k y, locate_input dims x i = ((i + k)%nat, y) /\
    (exists d, dims !! k = Some d /\ y < d) /\ y <= x /\
    (forall s, prefix_sums s dims !! k = Some (s + (x - y))).
Proof.
  revert x i. induction dims as [|d dims IH]; intros x i Hx; [unfold sumN in Hx; simpl in Hx; lia|].
  rewrite sumN_cons in Hx. simpl. destruct (x <? d) eqn:E; bool_to_prop.
  - exists 0%nat, x. rewrite Nat.add_0_r. split_and!; [done|by exists d|lia|].
    intros s. simpl. f_equal. lia.
  - destruct (IH (x - d) (S i) ltac:(lia)) as (k & y & -> & Hd & Hy & Hs).
    exists (S k), y. split_and!; [f_equal; lia|done|lia|].
    intros s. simpl. rewrite Hs. f_equal. lia.
Qed.

Lemma axis_starts_fold axis inputs : forall acc s,
  Forall (fun f => (axis < length (logical_shape f))%nat) inputs ->
  s + sumN (axis_dims axis inputs) <= u64_MAX ->
  try_fold (axis_starts_step axis) (acc, s) inputs =
  Ok (acc ++ prefix_sums s (axis_dims axis inputs), s + sumN (axis_dims axis inputs)).
Proof.
  induction inputs as [|f inputs IH]; intros acc s Hax Hle.
  { simpl. rewrite app_nil_r. change (sumN (axis_dims axis [])) with 0. by rewrite N.add_0_r. }
  apply Forall_cons in Hax as [Hf Hax]. unfold axis_dims in *. cbn [map] in *.
  rewrite sumN_cons in *. simpl. rewrite index_total by done. simpl.
  rewrite checked_add_ok by lia. simpl. rewrite IH by (done || lia).
  by rewrite <-app_assoc, N.add_assoc.
Qed.

Lemma find_input_spec axis inputs : forall s x i,
  Forall (fun f => (axis < length (logical_shape f))%nat) inputs ->
  s + sumN (axis_dims axis inputs) <= u64_MAX -> x < sumN (axis_dims axis inputs) ->
  find_input axis (s + x) (zip (prefix_sums s (axis_dims axis inputs)) inputs) i =
  Ok (Some (locate_input (axis_dims axis inputs) x i).1).
Proof.
  induction inputs as [|f inputs IH]; intros s x i Hax Hle Hx.
  { change (sumN (axis_dims axis [])) with 0 in Hx. lia. }
  apply Forall_cons in Hax as [Hf Hax]. unfold axis_dims in *. cbn [map] in *.
  rewrite sumN_cons in *. simpl. rewrite index_total by done. simpl.
  unfold saturating_add. rewrite N.min_l by lia.
  set (d := logical_shape f !!! axis) in *.
  destruct (x <? d) eqn:E; bool_to_prop.
  - assert ((s + x <? s + d) = true) as -> by (apply N.ltb_lt; lia). done.
  - assert ((s + x <? s + d) = false) as -> by (apply N.ltb_ge; lia).
    replace (s + x) with (s + d + (x - d)) by lia. apply IH; [done|lia|lia].
Qed.

(** ** Offsets *)

Lemma concat_offsets fin fout axis start c y :
  facts_wf fin -> facts_wf fout ->
  in_shape (logical_shape fout) c -> in_shape (logical_shape fin) (<[axis := y]> c) ->
  (axis < length c)%nat -> c !!! axis = start + y ->
  try_fold (concat_offset_step fin fout axis start (row_strides (logical_shape fout))
              (encode (logical_shape fout) c)) (0, 0) (seq 0 (length (logical_shape fout))) =
  Ok (offset_of fin (<[axis := y]> c), offset_of fout c).
Proof.
  intros Hwi Hwo Hc Hin Hax Hy. pose proof (in_shape_length _ _ Hc) as Hl.
  pose proof (in_shape_length _ _ Hin) as Hl'. rewrite length_insert in Hl'.
  pose proof (offset_fits fout c Hwo Hc) as Hfo. pose proof (offset_fits fin _ Hwi Hin) as Hfi.
  pose proof (wf_storage_strides fin Hwi) as Hsi. pose proof (wf_storage_strides fout Hwo) as Hso.
  unfold offset_of in *.
  rewrite (dotN_seq (<[axis := y]> c)), length_insert, Hl in Hfi
    by (rewrite length_insert; congruence).
  rewrite (dotN_seq c), Hl in Hfo by congruence.
  rewrite (dotN_seq (<[axis := y]> c)), (dotN_seq c), length_insert, Hl
    by (rewrite ?length_insert; congruence).
  apply (fold_offsets _ (fun i => <[axis := y]> c !!! i * storage_strides fin !!! i)
           (fun i => c !!! i * storage_strides fout !!! i) _ 0 0); [|done|done].
  intros i a b Hi%elem_of_seq Ha Hb. unfold concat_offset_step.
  rewrite logical_coordinate_total by (try lia; by apply in_shape_pos in Hc). simpl.
  rewrite decode_encode by done.
  assert ((if (i =? axis)%nat then ok_or (checked_sub (c !!! i) start) Integrity
           else mret (c !!! i)) = Ok (<[axis := y]> c !!! i)) as ->.
  { destruct (i =? axis)%nat eqn:E.
    - apply Nat.eqb_eq in E as ->. rewrite list_lookup_total_insert_eq by done.
      rewrite Hy, checked_sub_ok by lia. simpl. f_equal. lia.
    - apply Nat.eqb_neq in E. by rewrite list_lookup_total_insert_ne. }
  simpl. rewrite index_total by lia. simpl.
  rewrite checked_offset_term_Ok by done. simpl. rewrite index_total by lia. simpl.
  by rewrite checked_offset_term_Ok.
Qed.

(** ** The kernel *)

(** Ordered views of ordered inputs, each storing its tensor. *)
Definition views_represent (facts : list TensorFacts) (views : list ByteView)
    (Ts : list tensor) : Prop :=
  length views = length facts /\ length Ts = length facts /\
  forall k f v T, facts !! k = Some f -> views !! k = Some v -> Ts !! k = Some T ->
    facts_wf f /\ view_wf v /\ represents f (as_slice v) T.

Section Concatenation.
Context (axis : nat) (first : TensorFacts) (facts : list TensorFacts) (fout : TensorFacts).
Context (views : list ByteView) (Ts : list tensor).
Context (Hjoin : Forall (joins first axis) facts) (Hwo : facts_wf fout).
Context (Hax : (axis < length (logical_shape first))%nat).
Context (Hsum : sumN (axis_dims axis facts) <= u64_MAX).
Context (Hdt : facts_dtype fout = facts_dtype first).
Context (Hshape : logical_shape fout = <[axis := sumN (axis_dims axis facts)]> (logical_shape first)).
Context (Hviews : views_represent facts views Ts).

Lemma axis_in_inputs : Forall (fun f => (axis < length (logical_shape f))%nat) facts.
Proof using Hax Hjoin.
  eapply Forall_impl; [exact Hjoin|]. intros f (Hl & _). by rewrite Hl.
Qed.

(** The coordinate inside the input that holds it. *)
Lemma local_in_shape c k y f :
  in_shape (logical_shape fout) c -> facts !! k = Some f -> y < logical_shape f !!! axis ->
  in_shape (logical_shape f) (<[axis := y]> c).
Proof using All.
  intros Hc Hf Hy. rewrite Forall_forall in Hjoin.
  destruct (Hjoin f (list_elem_of_lookup_2 _ _ _ Hf)) as (Hl & _ & Hother).
  pose proof (in_shape_length _ _ Hc) as Hlc. rewrite Hshape, length_insert in Hlc.
  apply Forall2_same_length_lookup_2; [rewrite length_insert; congruence|].
  intros i x d Hx Hd. destruct (decide (i = axis)) as [->|Hne].
  - rewrite list_lookup_insert_eq in Hx by lia. injection Hx as <-.
    by rewrite <-(list_lookup_total_correct _ _ _ Hd).
  - rewrite list_lookup_insert_ne in Hx by done. rewrite Hother in Hd by done.
    eapply Forall2_lookup_lr; [exact Hc|exact Hx|].
    by rewrite Hshape, list_lookup_insert_ne.
Qed.

Lemma concat_locate_spec c :
  in_shape (logical_shape fout) c ->
  exists src s,
    concat_locate axis facts fout views (prefix_sums 0 (axis_dims axis facts))
      (row_strides (logical_shape fout)) (encode (logical_shape fout) c) =
    Ok (src, s, offset_of fout c) /\
    (s + 1) * width fout <= blen src /\ blen src <= u64_MAX /\
    element (width fout) s src = sem_concat axis (axis_dims axis facts) Ts c.
Proof using All.
  intros Hc. pose proof (in_shape_length _ _ Hc) as Hlc.
  assert (axis < length c)%nat as Hac by (rewrite Hlc, Hshape, length_insert; done).
  assert (c !!! axis < sumN (axis_dims axis facts)) as Hx.
  { eapply Forall2_lookup_lr; [exact Hc|by apply list_lookup_lookup_total_lt|].
    rewrite Hshape. by apply list_lookup_insert_eq. }
  destruct (locate_input_spec _ _ 0 Hx) as (k & y & Hloc & (d & Hd & Hy) & Hle & Hstart).
  simpl in Hloc. unfold axis_dims in Hd. apply list_lookup_fmap_Some in Hd as (f & -> & Hf).
  destruct Hviews as (Hlv & HlT & Hrep). pose proof (lookup_lt_Some _ _ _ Hf) as Hk.
  destruct (lookup_lt_is_Some_2 views k) as [v Hv]; [lia|].
  destruct (lookup_lt_is_Some_2 Ts k) as [T HT]; [lia|].
  destruct (Hrep k f v T Hf Hv HT) as (Hwf & Hvw & HTr).
  pose proof (local_in_shape c k y f Hc Hf Hy) as Hin.
  pose proof (represents_element f _ T _ Hwf HTr Hin) as (Hb & Hu & He).
  assert (width fout = width f) as Hw.
  { unfold width. rewrite Hdt. rewrite Forall_forall in Hjoin.
    by destruct (Hjoin f (list_elem_of_lookup_2 _ _ _ Hf)) as (_ & -> & _). }
  exists (as_slice v), (offset_of f (<[axis := y]> c)). rewrite Hw. split_and!; [|done|done|].
  - unfold concat_locate.
    rewrite logical_coordinate_total by (lia || by apply in_shape_pos in Hc). simpl.
    rewrite decode_encode by done. rewrite <-(N.add_0_l (c !!! axis)).
    rewrite find_input_spec by (apply axis_in_inputs || done). simpl.
    rewrite Hloc. simpl. rewrite (proj2 (index_Ok facts k f) Hf). simpl.
    rewrite (proj2 (index_Ok _ k _) (Hstart 0)). simpl.
    rewrite (concat_offsets _ _ _ _ _ y) by (done || lia). simpl.
    by rewrite (proj2 (index_Ok views k v) Hv).
  - rewrite He. unfold sem_concat. rewrite Hloc, HT. done.
Qed.

Lemma validate_concat_inputs_Ok : validate_concat_inputs facts views = Ok tt.
Proof using Hviews.
  destruct Hviews as (Hlv & HlT & Hrep). unfold validate_concat_inputs.
  rewrite bool_decide_eq_false_2 by (intros []; done). simpl.
  assert (forall l, (forall x, x ∈ l -> x ∈ zip facts views) ->
    try_fold (fun _ '(f, v) => validate_view_len v (facts_byte_len f)) tt l = Ok tt) as Hall;
    [|by apply Hall].
  induction l as [|[f v] l IH]; intros Hl; [done|]. simpl.
  assert ((f, v) ∈ zip facts views) as Hin by (apply Hl; left).
  apply list_elem_of_lookup in Hin as [k Hk].
  apply lookup_zip_with_Some in Hk as (? & ? & [= <- <-] & Hf & Hv).
  destruct (lookup_lt_is_Some_2 Ts k) as [T HT]; [rewrite HlT; by eapply lookup_lt_Some|].
  destruct (Hrep k f v T Hf Hv HT) as (_ & Hvw & HTr).
  rewrite (validate_view_len_Ok v) by (by eapply represents_view_len). simpl.
  apply IH. intros x ?. apply Hl. by right.
Qed.
End Concatenation.

Lemma execute_concat_bytes_spec c axis first facts fout views output Ts :
  Forall (joins first axis) facts -> facts_wf fout -> addressable fout ->
  (axis < length (logical_shape first))%nat -> sumN (axis_dims axis facts) <= u64_MAX ->
  facts_dtype fout = facts_dtype first ->
  logical_shape fout = <[axis := sumN (axis_dims axis facts)]> (logical_shape first) ->
  validate_axis (concat_axis c) (length (logical_shape fout)) = Ok axis ->
  views_represent facts views Ts -> blen output = facts_byte_len fout ->
  succeeds (execute_concat_bytes c facts fout views output)
    (fun out => represents fout out (sem_concat axis (axis_dims axis facts) Ts) /\
                keeps_padding fout output out).
Proof.
  intros Hj Hwo Ha Hax Hsum Hdt Hsh Hva Hv Hlen. unfold execute_concat_bytes.
  run_step; [by eapply validate_concat_inputs_Ok|]. run_step; [exact Hva|].
  run_step; [apply dtype_width_Ok|]. run_step; [exact Ha|].
  run_step; [apply axis_starts_fold; [by eapply axis_in_inputs|done]|].
  cbn beta iota. rewrite app_nil_l. fold (width fout).
  eapply succeeds_then; [apply copy_kernel_spec; [done|done|]|].
  - intros c' Hc'. by eapply concat_locate_spec.
  - intros out Hout. run_step. by run_step.
Qed.
