(* ===== verification/Simd.v ===== *)
(** * The 3x3 sixteen-bit kernel of [operation_simd.rs]

    Sixteen-bit scalars are opaque byte pairs here: the kernel only moves them.
    The AVX2 intrinsics it uses are part of the Rust standard library; their
    documented effect on the sixteen 16-bit lanes of a register is written out
    as list functions, for lanes of any type. *)

From S2P Require Import Prelude Errors Cancel Tensor Representation Strides Facts Operation.
From S2P Require Import Kernels.
Local Open Scope N_scope.

Definition SPATIAL_ELEMENTS : N := 9.
Definition ELEMENT_BYTES : N := 2.
Definition SOURCE_CHANNEL_BYTES : N := SPATIAL_ELEMENTS * ELEMENT_BYTES.
Definition SIMD_CHANNELS : N := 16.
Definition SIMD_SOURCE_BYTES : N := SIMD_CHANNELS * SOURCE_CHANNEL_BYTES.
Definition SIMD_OUTPUT_BYTES : N := SIMD_CHANNELS * ELEMENT_BYTES.
Definition CANCELLATION_CHANNELS : N :=
  SIMD_CHANNELS * ((16 * 1024) / (SPATIAL_ELEMENTS * SIMD_CHANNELS)).

(** ** Registers of sixteen lanes *)

(** The unpack intrinsics interleave, in each 128-bit half, the groups of [g]
    lanes that start at lane [from] of the half. *)
Definition unpack_half {A} (g from : nat) (a b : list A) : list A :=
  concat (map (fun i => take g (drop (from + i * g) a) ++ take g (drop (from + i * g) b))
            (seq 0 (4 / g))).

Definition unpack {A} (g from : nat) (a b : list A) : list A :=
  unpack_half g from (take 8 a) (take 8 b) ++ unpack_half g from (drop 8 a) (drop 8 b).

Definition mm256_unpacklo_epi16 {A} : list A -> list A -> list A := unpack 1 0.
Definition mm256_unpackhi_epi16 {A} : list A -> list A -> list A := unpack 1 4.
Definition mm256_unpacklo_epi32 {A} : list A -> list A -> list A := unpack 2 0.
Definition mm256_unpackhi_epi32 {A} : list A -> list A -> list A := unpack 2 4.
Definition mm256_unpacklo_epi64 {A} : list A -> list A -> list A := unpack 4 0.
Definition mm256_unpackhi_epi64 {A} : list A -> list A -> list A := unpack 4 4.

(** [_mm256_inserti128_si256::<1>(_mm256_castsi128_si256(low), high)]. *)
Definition pair_halves {A} (low high : list A) : list A := take 8 low ++ take 8 high.

(** The register network of [transpose_16_channels_8_spatial]: from sixteen
    rows of eight lanes to eight columns of sixteen. *)
Definition transpose_network {A} (rows : list (list A)) : list (list A) :=
  let row i := default [] (rows !! i) in
  let paired i := pair_halves (row i) (row (i + 8)%nat) in
  let t0 := mm256_unpacklo_epi16 (paired 0%nat) (paired 1%nat) in
  let t1 := mm256_unpackhi_epi16 (paired 0%nat) (paired 1%nat) in
  let t2 := mm256_unpacklo_epi16 (paired 2%nat) (paired 3%nat) in
  let t3 := mm256_unpackhi_epi16 (paired 2%nat) (paired 3%nat) in
  let t4 := mm256_unpacklo_epi16 (paired 4%nat) (paired 5%nat) in
  let t5 := mm256_unpackhi_epi16 (paired 4%nat) (paired 5%nat) in
  let t6 := mm256_unpacklo_epi16 (paired 6%nat) (paired 7%nat) in
  let t7 := mm256_unpackhi_epi16 (paired 6%nat) (paired 7%nat) in
  let u0 := mm256_unpacklo_epi32 t0 t2 in
  let u1 := mm256_unpackhi_epi32 t0 t2 in
  let u2 := mm256_unpacklo_epi32 t4 t6 in
  let u3 := mm256_unpackhi_epi32 t4 t6 in
  let u4 := mm256_unpacklo_epi32 t1 t3 in
  let u5 := mm256_unpackhi_epi32 t1 t3 in
  let u6 := mm256_unpacklo_epi32 t5 t7 in
  let u7 := mm256_unpackhi_epi32 t5 t7 in
  [mm256_unpacklo_epi64 u0 u2; mm256_unpackhi_epi64 u0 u2;
   mm256_unpacklo_epi64 u1 u3; mm256_unpackhi_epi64 u1 u3;
   mm256_unpacklo_epi64 u4 u6; mm256_unpackhi_epi64 u4 u6;
   mm256_unpacklo_epi64 u5 u7; mm256_unpackhi_epi64 u5 u7].

(** The 16-bit lanes of a byte block. *)
Definition lanes (n : nat) (block : bytes) : list bytes :=
  map (fun i => take 2 (drop (2 * i) block)) (seq 0 n).

(** The eight stored columns of a block of sixteen channels. *)
Definition transpose_16_channels_8_spatial (source : bytes) : list bytes :=
  let source_row channel :=
    take 16 (drop (channel * N.to_nat SOURCE_CHANNEL_BYTES) source) in
  map (@concat byte)
    (transpose_network (map (fun channel => lanes 8 (source_row channel)) (seq 0 16))).

(** ** Rows of one output channel *)

Definition checked_lengths (output_channels input_channels : N) : result (N * N) :=
  output_channel_bytes ← ok_or (checked_mul input_channels SOURCE_CHANNEL_BYTES) ResourceLimit;
  expected_bytes ← ok_or (checked_mul output_channels output_channel_bytes) ResourceLimit;
  mret (output_channel_bytes, expected_bytes).

Definition channel_range (output_channel output_channel_bytes : N) : result (N * N) :=
  start ← ok_or (checked_mul output_channel output_channel_bytes) ResourceLimit;
  stop ← ok_or (checked_add start output_channel_bytes) ResourceLimit;
  mret (start, stop).

(** The nine rows an output channel is split into. *)
Fixpoint split_rows (count : nat) (output : bytes) (row_bytes : N) : result (list bytes * bytes) :=
  match count with
  | O => Ok ([], output)
  | S count =>
      _ ← reject (blen output <? row_bytes) Integrity;
      '(rows, rest) ← split_rows count (drop (N.to_nat row_bytes) output) row_bytes;
      mret (take (N.to_nat row_bytes) output :: rows, rest)
  end.

Definition OutputRows_new (output_channel : bytes) (input_channels : N) : result (list bytes) :=
  row_bytes ← ok_or (checked_mul input_channels ELEMENT_BYTES) ResourceLimit;
  '(rows, rest) ← split_rows (N.to_nat SPATIAL_ELEMENTS) output_channel row_bytes;
  _ ← reject (bool_decide (rest <> [])) Integrity;
  mret rows.

(** One element of [copy_scalar_row]. *)
Definition copy_scalar_element (source_channel : bytes) (spatial_index input_channel : N)
    (output_row : bytes) : result bytes :=
  source_start ← ok_or (offset ← checked_mul input_channel SOURCE_CHANNEL_BYTES;
                        spatial ← checked_mul spatial_index ELEMENT_BYTES;
                        checked_add offset spatial) ResourceLimit;
  source_end ← ok_or (checked_add source_start ELEMENT_BYTES) ResourceLimit;
  output_start ← ok_or (checked_mul input_channel ELEMENT_BYTES) ResourceLimit;
  output_end ← ok_or (checked_add output_start ELEMENT_BYTES) ResourceLimit;
  src ← ok_or (get_range source_channel (source_start, source_end)) Integrity;
  _ ← ok_or (get_range output_row (output_start, output_end)) Integrity;
  copy_from_slice output_row (output_start, output_end) src.

(** The integers [first..last]. *)
Definition span_list (first last : N) : list N :=
  map (fun i => first + N.of_nat i) (seq 0 (N.to_nat (last - first))).

Definition copy_scalar_row (source_channel : bytes) (rows : list bytes)
    (channel_start channel_end : N) (spatial_index : nat) : result (list bytes) :=
  output_row ← ok_or (rows !! spatial_index) Integrity;
  output_row ← try_fold (fun row input_channel =>
      copy_scalar_element source_channel (N.of_nat spatial_index) input_channel row)
    output_row (span_list channel_start channel_end);
  mret (<[spatial_index := output_row]> rows).

Definition copy_scalar_channels (source_channel : bytes) (rows : list bytes)
    (channel_start channel_end : N) : result (list bytes) :=
  try_fold (fun rows spatial_index =>
      copy_scalar_row source_channel rows channel_start channel_end spatial_index)
    rows (seq 0 (N.to_nat SPATIAL_ELEMENTS)).

Definition copy_scalar_ninth (source_channel : bytes) (rows : list bytes) (input_channel : N)
  : result (list bytes) :=
  stop ← unchecked_add input_channel SIMD_CHANNELS;
  copy_scalar_row source_channel rows input_channel stop 8.

(** Stores one column into the block of its row that starts at [start]. *)
Definition store_column (start stop : N) (x : bytes * bytes) : result bytes :=
  let '(row, column) := x in
  _ ← ok_or (get_range row (start, stop)) Integrity;
  copy_from_slice row (start, stop) column.

(** [block_16] with the transposition into it: the first eight rows. *)
Definition transpose_block (source_channel : bytes) (rows : list bytes) (input_channel : N)
  : result (list bytes) :=
  source_start ← ok_or (checked_mul input_channel SOURCE_CHANNEL_BYTES) ResourceLimit;
  source_end ← ok_or (checked_add source_start SIMD_SOURCE_BYTES) ResourceLimit;
  source_block ← ok_or (get_range source_channel (source_start, source_end)) Integrity;
  start ← ok_or (checked_mul input_channel ELEMENT_BYTES) ResourceLimit;
  stop ← ok_or (checked_add start SIMD_OUTPUT_BYTES) ResourceLimit;
  stored ← mapM (store_column start stop)
             (zip (take 8 rows) (transpose_16_channels_8_spatial source_block));
  mret (stored ++ drop 8 rows).

(** The vector loop over whole blocks of sixteen channels. *)
Fixpoint vector_blocks (fuel : nat) (source_channel : bytes) (channel_end : N)
    (input_channel : N) (rows : list bytes) : result (N * list bytes) :=
  match fuel with
  | O => Ok (input_channel, rows)
  | S fuel =>
      next ← unchecked_add input_channel SIMD_CHANNELS;
      if next <=? channel_end then
        rows ← transpose_block source_channel rows input_channel;
        rows ← copy_scalar_ninth source_channel rows input_channel;
        vector_blocks fuel source_channel channel_end next rows
      else Ok (input_channel, rows)
  end.

(** The copy of one bounded chunk of channels, by dispatch. *)
Inductive Dispatch :=
  | Scalar
  | Avx2.

Definition copy_chunk (dispatch : Dispatch) (source_channel : bytes)
    (channel_start channel_end : N) (rows : list bytes) : result (list bytes) :=
  match dispatch with
  | Scalar => copy_scalar_channels source_channel rows channel_start channel_end
  | Avx2 =>
      '(input_channel, rows) ←
        vector_blocks (S (N.to_nat ((channel_end - channel_start) / SIMD_CHANNELS)))
          source_channel channel_end channel_start rows;
      copy_scalar_channels source_channel rows input_channel channel_end
  end.

(** The loop over cancellation chunks; each covers at least one channel. *)
Fixpoint channel_chunks (fuel : nat) (dispatch : Dispatch) (source_channel : bytes)
    (input_channels channel_start : N) (rows : list bytes) : M (list bytes) :=
  match fuel with
  | O => mret rows
  | S fuel =>
      if channel_start <? input_channels then
        _ ← check;
        let channel_end := N.min (saturating_add channel_start CANCELLATION_CHANNELS)
                             input_channels in
        rows ← lift (copy_chunk dispatch source_channel channel_start channel_end rows);
        channel_chunks fuel dispatch source_channel input_channels channel_end rows
      else mret rows
  end.

(** One output channel: its slices, its rows, and the rows written back. *)
Definition permute_channel (dispatch : Dispatch) (input : bytes)
    (input_channels output_channel_bytes output_channel : N) (output : bytes) : M bytes :=
  '(start, stop) ← lift (channel_range output_channel output_channel_bytes);
  source_channel ← lift (ok_or (get_range input (start, stop)) Integrity);
  output_channel ← lift (ok_or (get_range output (start, stop)) Integrity);
  rows ← lift (OutputRows_new output_channel input_channels);
  rows ← channel_chunks (S (N.to_nat (input_channels / CANCELLATION_CHANNELS)) + 1) dispatch
           source_channel input_channels 0 rows;
  mret (take (N.to_nat start) output ++ concat rows ++ drop (N.to_nat stop) output).

(** [permute_scalar] and [permute_avx2]. *)
Definition permute_channels (dispatch : Dispatch) (input output : bytes)
    (output_channels input_channels output_channel_bytes : N) : M bytes :=
  output ← for_range 0 output_channels (fun output_channel output =>
      permute_channel dispatch input input_channels output_channel_bytes output_channel output)
    output;
  _ ← check;
  mret output.

(** [avx2] is what runtime feature detection reports. *)
Definition permute_oihw_to_ohwi_3x3_u16 (avx2 : bool) (input output : bytes)
    (output_channels input_channels : N) : M bytes :=
  '(output_channel_bytes, expected_bytes) ← lift (checked_lengths output_channels input_channels);
  _ ← lift (reject (negb (blen input =? expected_bytes) || negb (blen output =? expected_bytes))
              Integrity);
  _ ← check;
  if expected_bytes =? 0 then mret output else
  permute_channels (if avx2 then Avx2 else Scalar) input output output_channels input_channels
    output_channel_bytes.
