(* ===== verification/FastPaths.v ===== *)
(** * Specialised kernels of [operation.rs]

    Concatenation of canonical inputs by whole chunks, and the OIHW to OHWI
    storage permutation: code paths the executor takes instead of the
    element-wise kernels when the facts allow it. *)

From S2P Require Import Prelude Errors Cancel Tensor Representation Strides Facts Operation.
From S2P Require Import Kernels Simd.
Local Open Scope N_scope.

(** ** Contiguous concatenation *)

Definition TILE_BYTES : N := 1024 * 1024.

(** The loop of [append_byte_range_tiled]; each round copies at least a byte. *)
Fixpoint append_tiles (fuel : nat) (source : bytes) (source_offset byte_len copied : N)
    (target : bytes) : M bytes :=
  match fuel with
  | O => mret target
  | S fuel =>
      if copied <? byte_len then
        _ ← check;
        let tile := N.min TILE_BYTES (byte_len - copied) in
        source_start ← lift (ok_or (checked_add source_offset copied) ResourceLimit);
        source_range ← lift (checked_byte_range source_start tile (blen source));
        chunk ← lift (ok_or (get_range source source_range) Integrity);
        copied ← lift (ok_or (checked_add copied tile) ResourceLimit);
        append_tiles fuel source source_offset byte_len copied (target ++ chunk)
      else mret target
  end.

Definition append_byte_range_tiled (source : bytes) (source_offset byte_len : N)
    (target : bytes) : M bytes :=
  append_tiles (S (N.to_nat (byte_len / TILE_BYTES)) + 1) source source_offset byte_len 0 target.

(** The slices [shape[..axis]] and [shape[axis + 1..]], which panic out of
    range. *)
Definition shape_before (shape : list N) (axis : nat) : result (list N) :=
  if (axis <=? length shape)%nat then Ok (take axis shape) else Panic.
Definition shape_after (shape : list N) (axis : nat) : result (list N) :=
  if (axis + 1 <=? length shape)%nat then Ok (drop (axis + 1) shape) else Panic.

(** One input of one outer row. *)
Definition concat_chunk (axis : nat) (inner_bytes outer_index : N) (x : TensorFacts * ByteView)
    (st : bytes * N) : M (bytes * N) :=
  let '(facts, input) := x in
  let '(output, target_offset) := st in
  dimension ← lift (index (logical_shape facts) axis);
  chunk_bytes ← lift (ok_or (checked_mul dimension inner_bytes) ResourceLimit);
  source_offset ← lift (ok_or (checked_mul outer_index chunk_bytes) ResourceLimit);
  output ← append_byte_range_tiled (as_slice input) source_offset chunk_bytes output;
  target_offset ← lift (ok_or (checked_add target_offset chunk_bytes) ResourceLimit);
  mret (output, target_offset).

Definition build_contiguous_concat (axis : Axis) (input_facts : list TensorFacts)
    (output_facts : TensorFacts) (inputs : list ByteView) : M bytes :=
  _ ← check;
  _ ← lift (validate_concat_inputs input_facts inputs);
  axis ← lift (validate_axis axis (length (logical_shape output_facts)));
  output_length ← lift (validate_host_len (facts_byte_len output_facts));
  _ ← try_reserve_exact output_length;
  first ← lift (index input_facts 0);
  outer_shape ← lift (shape_before (logical_shape first) axis);
  outer ← lift (checked_element_count outer_shape);
  inner_shape ← lift (shape_after (logical_shape first) axis);
  inner_elements ← lift (checked_element_count inner_shape);
  width ← lift (dtype_width (facts_dtype first));
  inner_bytes ← lift (ok_or (checked_mul inner_elements width) ResourceLimit);
  '(output, target_offset) ← for_range 0 outer (fun outer_index st =>
      _ ← check;
      for_each (zip input_facts inputs) (concat_chunk axis inner_bytes outer_index) st) ([], 0);
  _ ← lift (reject (negb (target_offset =? blen output) || negb (blen output =? output_length))
              Integrity);
  _ ← check;
  mret output.

(** ** OIHW to OHWI *)

Definition COPY_TILE_ELEMENTS_USIZE : N := 16 * 1024.

(** [input.get(start..)] followed by [first_chunk::<WIDTH>]. *)
Definition first_chunk (input : bytes) (start width : N) : option bytes :=
  get_range input (start, start + width).

(** One pushed element; the source offset advances unless it was the last. *)
Definition push_channel (width source_channel_stride : N) (input : bytes)
    (block_end input_channel : N) (st : N * list bytes) : result (N * list bytes) :=
  let '(source_start, output) := st in
  chunk ← ok_or (first_chunk input source_start width) Integrity;
  source_start ← (if input_channel + 1 <? block_end
                  then unchecked_add source_start source_channel_stride
                  else mret source_start);
  mret (source_start, output ++ [chunk]).

(** The loop over blocks of input channels at one spatial position. *)
Fixpoint channel_blocks (fuel : nat) (width spatial source_channel_stride : N) (input : bytes)
    (input_channels channel_base spatial_index block_start : N) (output : list bytes)
  : M (list bytes) :=
  match fuel with
  | O => mret output
  | S fuel =>
      if block_start <? input_channels then
        _ ← check;
        let block_end := N.min (saturating_add block_start COPY_TILE_ELEMENTS_USIZE)
                           input_channels in
        block_offset ← lift (ok_or (checked_mul block_start spatial) ResourceLimit);
        source_element ← lift (ok_or (offset ← checked_add channel_base block_offset;
                                      checked_add offset spatial_index) ResourceLimit);
        source_start ← lift (ok_or (checked_mul source_element width) ResourceLimit);
        '(_, output) ← for_range block_start block_end (fun input_channel st =>
            lift (push_channel width source_channel_stride input block_end input_channel st))
          (source_start, output);
        channel_blocks fuel width spatial source_channel_stride input input_channels
          channel_base spatial_index block_end output
      else mret output
  end.

Definition build_oihw_to_ohwi_elements (width : N) (input : bytes)
    (output_channels input_channels spatial elements : N) : M bytes :=
  if elements =? 0 then _ ← check; mret [] else
  _ ← try_reserve_exact (elements * width);
  source_channel_stride ← lift (ok_or (checked_mul spatial width) ResourceLimit);
  output_channel_elements ← lift (ok_or (checked_mul input_channels spatial) ResourceLimit);
  output ← for_range 0 output_channels (fun output_channel output =>
      channel_base ← lift (ok_or (checked_mul output_channel output_channel_elements)
                             ResourceLimit);
      for_range 0 spatial (fun spatial_index output =>
          channel_blocks (S (N.to_nat (input_channels / COPY_TILE_ELEMENTS_USIZE)) + 1)
            width spatial source_channel_stride input input_channels channel_base
            spatial_index 0 output) output) [];
  _ ← lift (reject (negb (N.of_nat (length output) =? elements)) Integrity);
  _ ← check;
  mret (concat output).

Definition dimension_as_usize (dimension : N) : result N := usize_try_from dimension.

Definition is_half_width (d : DType) : bool :=
  match d with F16 | Bf16 => true | _ => false end.

(** The checked spatial and total element counts of an OIHW tensor. *)
Definition oihw_elements (o i h w : N) : result (N * N) :=
  spatial ← ok_or (checked_mul h w) ResourceLimit;
  output_channel_elements ← ok_or (checked_mul i spatial) ResourceLimit;
  elements ← ok_or (checked_mul o output_channel_elements) ResourceLimit;
  mret (spatial, elements).

(** [None] sends the executor back to the element-wise kernel. *)
Definition build_oihw_to_ohwi_if_supported (avx2 : bool) (permute : Permute)
    (input_facts output_facts : TensorFacts) (input : bytes) : M (option bytes) :=
  if match permute_mode permute with Storage _ => false | Logical => true end ||
     bool_decide (permute_order permute <> [0; 2; 3; 1]) ||
     negb (is_canonical_contiguous input_facts)
  then mret None else
  _ ← check;
  match logical_shape input_facts with
  | [o; i; h; w] =>
      output_channels ← lift (dimension_as_usize o);
      input_channels ← lift (dimension_as_usize i);
      kernel_height ← lift (dimension_as_usize h);
      kernel_width ← lift (dimension_as_usize w);
      '(spatial, elements) ←
        lift (oihw_elements output_channels input_channels kernel_height kernel_width);
      width ← lift (dtype_width (facts_dtype input_facts));
      expected_bytes ← lift (ok_or (checked_mul elements width) ResourceLimit);
      output_bytes ← lift (validate_host_len (facts_byte_len output_facts));
      _ ← lift (reject (negb (blen input =? expected_bytes) ||
                        negb (output_bytes =? expected_bytes)) Integrity);
      if (width =? 2) && (spatial =? 9) && is_half_width (facts_dtype input_facts) && avx2 then
        output ← allocate_tensor output_facts;
        output ← permute_oihw_to_ohwi_3x3_u16 avx2 input output output_channels input_channels;
        mret (Some output)
      else if bool_decide (width ∈ [1; 2; 4; 8]) then
        output ← build_oihw_to_ohwi_elements width input output_channels input_channels spatial
                   elements;
        mret (Some output)
      else mret None
  | _ => mret None
  end.
