(* ===== verification/FastPathSpecs.v ===== *)
(** * Correctness of the fast paths

    The generic OIHW to OHWI builder and the 3x3 sixteen-bit kernel, scalar or
    vector, produce the same bytes: the elements of the input in OHWI order. A
    concatenation by whole chunks stores the same abstract tensor as the
    element-wise kernel. *)


From S2P Require Import Prelude Errors Cancel Tensor Representation Strides Facts Operation Kernels InferSpecs.
From S2P Require Import Semantics KernelSpecs Simd FastPaths.
Local Open Scope N_scope.

(** The OIHW element stored at OHWI position [p], for [i] input channels and
    [s] spatial positions. *)
Definition oihw_source (i s p : N) : N :=
  (p / i / s * i + p mod i) * s + (p / i) mod s.

(** The first [n] elements in OHWI order. *)
Definition ohwi_prefix (w i s : N) (input : bytes) (n : N) : list bytes :=
  map (fun p => element w (oihw_source i s (N.of_nat p)) input) (seq 0 (N.to_nat n)).

Lemma oihw_source_at i s oc x ic :
  ic < i -> x < s -> oihw_source i s ((oc * s + x) * i + ic) = (oc * i + ic) * s + x.
Proof.
  intros Hi Hx. unfold oihw_source.
  assert (((oc * s + x) * i + ic) / i = oc * s + x) as ->.
  { rewrite N.div_add_l, N.div_small by lia. lia. }
  assert (((oc * s + x) * i + ic) mod i = ic) as ->.
  { rewrite N.add_comm, N.Div0.mod_add. by apply N.mod_small. }
  assert ((oc * s + x) / s = oc) as ->.
  { rewrite N.div_add_l, N.div_small by lia. lia. }
  assert ((oc * s + x) mod s = x) as ->; [|done].
  rewrite N.add_comm, N.Div0.mod_add. by apply N.mod_small.
Qed.

Lemma ohwi_prefix_step w i s input n :
  ohwi_prefix w i s input (n + 1) =
  ohwi_prefix w i s input n ++ [element w (oihw_source i s n) input].
Proof.
  unfold ohwi_prefix. replace (N.to_nat (n + 1)) with (S (N.to_nat n)) by lia.
  rewrite seq_S, map_app. cbn [map]. do 4 f_equal. lia.
Qed.

Lemma ohwi_prefix_length w i s input n : length (ohwi_prefix w i s input n) = N.to_nat n.
Proof. unfold ohwi_prefix. by rewrite length_map, length_seq. Qed.

Lemma oihw_in_range o i s oc x ic :
  oc < o -> x < s -> ic < i -> (oc * i + ic) * s + x + 1 <= o * i * s.
Proof.
  intros Ho Hx Hi. transitivity ((oc * i + ic + 1) * s); [lia|].
  apply N.mul_le_mono_r. transitivity ((oc + 1) * i); [lia|]. by apply N.mul_le_mono_r; lia.
Qed.

(** ** The generic builder *)

Section Builder.
Context (w o i s : N) (input : bytes).
Context (Hlen : blen input = o * i * s * w) (Hfit : blen input <= u64_MAX) (Hw : 0 < w).

Let prefix := ohwi_prefix w i s input.

(** The byte offset of a source element. *)
Definition byte_at (oc x ic : N) : N := ((oc * i + ic) * s + x) * w.

Lemma byte_at_bound oc x ic : oc < o -> x < s -> ic < i -> byte_at oc x ic + w <= blen input.
Proof using All.
  intros Ho Hx Hi. pose proof (oihw_in_range o i s oc x ic Ho Hx Hi) as H. unfold byte_at.
  rewrite Hlen. transitivity (((oc * i + ic) * s + x + 1) * w); [lia|]. by apply N.mul_le_mono_r.
Qed.

Lemma push_channels_spec oc x b e start out :
  oc < o -> x < s -> b < e -> e <= i ->
  out = prefix ((oc * s + x) * i + b) -> start = byte_at oc x b ->
  succeeds (for_range b e (fun ic st => lift (push_channel w (s * w) input e ic st)) (start, out))
    (fun st => st.2 = prefix ((oc * s + x) * i + e)).
Proof using All.
  intros Ho Hx Hbe Hei -> ->. eapply succeeds_mono.
  - apply (succeeds_for_range (fun ic st => st.2 = prefix ((oc * s + x) * i + ic) /\
      (ic < e -> st.1 = byte_at oc x ic))); [lia|done|].
    intros ic [start out] [Hb He] [Hout Hstart]. cbn [fst snd] in *. specialize (Hstart He). subst.
    pose proof (byte_at_bound oc x ic Ho Hx ltac:(lia)) as Hin.
    assert (first_chunk input (byte_at oc x ic) w =
            Some (element w ((oc * i + ic) * s + x) input)) as Hchunk.
    { unfold first_chunk, byte_at. apply get_range_element. unfold byte_at in Hin. lia. }
    unfold push_channel. rewrite Hchunk. cbn [ok_or mbind result_bind].
    assert (prefix ((oc * s + x) * i + ic) ++ [element w ((oc * i + ic) * s + x) input] =
            prefix ((oc * s + x) * i + (ic + 1))) as Hpre.
    { unfold prefix. rewrite N.add_assoc, ohwi_prefix_step, oihw_source_at by lia. done. }
    destruct (ic + 1 <? e) eqn:E; bool_to_prop.
    + pose proof (byte_at_bound oc x (ic + 1) Ho Hx ltac:(lia)) as Hin'.
      assert (byte_at oc x ic + s * w = byte_at oc x (ic + 1)) as Hnext by (unfold byte_at; lia).
      unfold unchecked_add. rewrite Hnext.
      assert ((byte_at oc x (ic + 1) <=? u64_MAX) = true) as ->
        by (apply N.leb_le; lia).
      eapply succeeds_lift; [done|]. cbn [fst snd]. by rewrite Hpre.
    + eapply succeeds_lift; [done|]. cbn [fst snd]. split; [done|lia].
  - by intros st [-> _].
Qed.

Lemma channel_blocks_spec fuel oc x b out :
  oc < o -> x < s -> b <= i -> i <= b + COPY_TILE_ELEMENTS_USIZE * N.of_nat fuel ->
  out = prefix ((oc * s + x) * i + b) ->
  succeeds (channel_blocks fuel w s (s * w) input i (oc * (i * s)) x b out)
    (fun out => out = prefix ((oc * s + x) * i + i)).
Proof using All.
  intros Ho Hx. revert b out. induction fuel as [|fuel IH]; intros b out Hb Hf ->;
    cbn [channel_blocks].
  { apply succeeds_ret. by replace b with i by lia. }
  destruct (b <? i) eqn:E; bool_to_prop.
  2: { apply succeeds_ret. by replace b with i by lia. }
  pose proof (byte_at_bound oc x b Ho Hx E) as Hin. unfold byte_at in Hin.
  pose proof Hfit as Hfit'. change u64_MAX with u64_MAX in *.
  assert ((oc * i + b) * s + x <= ((oc * i + b) * s + x) * w) as Hle
    by (rewrite <-(N.mul_1_r ((oc * i + b) * s + x)) at 1; apply N.mul_le_mono_l; lia).
  run_step. run_step; [rewrite checked_mul_ok by lia; done|].
  run_step; [rewrite checked_add_ok by lia; cbn; rewrite checked_add_ok by lia; done|].
  run_step; [rewrite checked_mul_ok by lia; done|].
  set (e := N.min (saturating_add b COPY_TILE_ELEMENTS_USIZE) i).
  assert (b < e /\ e <= i /\ (e = i \/ e = b + COPY_TILE_ELEMENTS_USIZE)) as (Hbe & Hei & He).
  { assert (i <= u64_MAX).
    { transitivity (i * (o * s * w)); [|rewrite Hlen in Hfit'; lia].
      rewrite <-(N.mul_1_r i) at 1. apply N.mul_le_mono_l.
      assert (o * s * w <> 0); [|lia]. rewrite <-!N.neq_mul_0. lia. }
    assert (COPY_TILE_ELEMENTS_USIZE = 16384) as HT by done.
    unfold e, saturating_add. lia. }
  eapply succeeds_then; [apply (push_channels_spec oc x b e); [done..|unfold byte_at; lia]|].
  intros [start out] Hout. cbn [snd] in Hout. apply IH; [done|lia|done].
Qed.

Lemma build_oihw_to_ohwi_elements_spec :
  o * i * s * w <= isize_MAX ->
  succeeds (build_oihw_to_ohwi_elements w input o i s (o * (i * s)))
    (fun out => out = concat (prefix (o * i * s))).
Proof using All.
  intros His. unfold build_oihw_to_ohwi_elements.
  destruct (o * (i * s) =? 0) eqn:E; bool_to_prop.
  { run_step. run_step. rewrite <-N.mul_assoc, E. done. }
  assert (o <> 0 /\ i <> 0 /\ s <> 0) as (Ho & Hi & Hs).
  { apply N.neq_mul_0 in E as [? E]. apply N.neq_mul_0 in E. tauto. }
  pose proof Hfit as Hf. rewrite Hlen in Hf.
  assert (i * s <= o * i * s * w /\ s * w <= o * i * s * w) as [His' Hsw].
  { assert (1 <= o * w) by (assert (o * w <> 0) by (apply N.neq_mul_0; lia); lia).
    assert (1 <= o * i) by (assert (o * i <> 0) by (apply N.neq_mul_0; lia); lia). split.
    - replace (o * i * s * w) with (o * w * (i * s)) by lia.
      rewrite <-(N.mul_1_l (i * s)) at 1. by apply N.mul_le_mono_r.
    - replace (o * i * s * w) with (o * i * (s * w)) by lia.
      rewrite <-(N.mul_1_l (s * w)) at 1. by apply N.mul_le_mono_r. }
  run_step; [lia|]. run_step; [rewrite checked_mul_ok by lia; done|].
  run_step; [rewrite checked_mul_ok by lia; done|].
  eapply succeeds_then.
  - apply (succeeds_for_range (fun oc out => out = prefix (oc * s * i))); [lia|done|].
    intros oc out [_ Hoc] ->. cbv beta. run_step.
    { rewrite checked_mul_ok; [done|]. transitivity (o * (i * s)).
      - apply N.mul_le_mono_r. lia.
      - rewrite <-(N.mul_1_r (o * (i * s))). replace (o * i * s * w) with (o * (i * s) * w) in Hf by lia.
        transitivity (o * (i * s) * w); [apply N.mul_le_mono_l; lia|done]. }
    eapply succeeds_mono.
    + apply (succeeds_for_range (fun x out => out = prefix ((oc * s + x) * i)));
        [lia|by rewrite N.add_0_r|].
      intros x out [_ Hx] ->. eapply succeeds_mono.
      * apply (channel_blocks_spec _ oc x 0); [done|done|lia| |by rewrite N.add_0_r].
        unfold COPY_TILE_ELEMENTS_USIZE. pose proof (N.div_mod i (16 * 1024) ltac:(done)).
        pose proof (N.mod_lt i (16 * 1024) ltac:(done)). lia.
      * intros out ->. f_equal. lia.
    + intros out ->. f_equal. lia.
  - intros out ->. run_step.
    { unfold prefix. rewrite ohwi_prefix_length, N2Nat.id.
      by replace (o * s * i =? o * (i * s)) with true by (symmetry; apply N.eqb_eq; lia). }
    run_step. run_step. do 2 f_equal. lia.
Qed.
End Builder.

(** * Correctness of the contiguous concatenation

    Concatenation by whole chunks stores the same abstract tensor as the
    element-wise kernel. *)

(** ** Ranges of elements *)

(** The [n] elements of a buffer from element [a] on. *)
Definition elements_from (w a : N) (n : nat) (bs : bytes) : list bytes :=
  map (fun e => element w (a + N.of_nat e) bs) (seq 0 n).

Lemma elements_from_length w a n bs : length (elements_from w a n bs) = n.
Proof. unfold elements_from. by rewrite length_map, length_seq. Qed.

Lemma elements_from_lookup w a n bs i :
  (i < n)%nat -> elements_from w a n bs !! i = Some (element w (a + N.of_nat i) bs).
Proof.
  intros Hi. unfold elements_from. change (map ?f ?l) with (f <$> l).
  by rewrite list_lookup_fmap, lookup_seq_lt.
Qed.

Lemma elements_from_uniform w a n bs :
  (a + N.of_nat n) * w <= blen bs ->
  Forall (fun x => length x = N.to_nat w) (elements_from w a n bs).
Proof.
  intros H. apply Forall_forall. intros x (e & -> & He%elem_of_seq)%list_elem_of_fmap.
  apply element_length. nia.
Qed.

Lemma bytes_of_elements w a n bs :
  (a + N.of_nat n) * w <= blen bs ->
  take (n * N.to_nat w) (drop (N.to_nat (a * w)) bs) = concat (elements_from w a n bs).
Proof.
  revert a. induction n as [|n IH]; intros a H; [by rewrite take_0|].
  unfold elements_from. cbn [seq map concat]. rewrite N.add_0_r.
  replace (S n * N.to_nat w)%nat with (N.to_nat w + n * N.to_nat w)%nat by lia.
  rewrite <-take_take_drop, drop_drop. f_equal.
  replace (N.to_nat (a * w) + N.to_nat w)%nat with (N.to_nat ((a + 1) * w)) by lia.
  rewrite IH by lia. unfold elements_from. rewrite <-seq_shift, map_map.
  f_equal. apply map_ext. intros e. f_equal. lia.
Qed.

(** ** Tiled appends *)

Lemma append_tiles_spec fuel source offset len copied target base :
  offset + len <= blen source -> blen source <= u64_MAX ->
  copied <= len -> len <= copied + TILE_BYTES * N.of_nat fuel ->
  target = base ++ take (N.to_nat copied) (drop (N.to_nat offset) source) ->
  succeeds (append_tiles fuel source offset len copied target)
    (fun out => out = base ++ take (N.to_nat len) (drop (N.to_nat offset) source)).
Proof.
  intros Hb Hm. revert copied target. induction fuel as [|fuel IH]; intros copied target Hc Hf ->;
    cbn [append_tiles].
  { apply succeeds_ret. by replace copied with len by lia. }
  destruct (copied <? len) eqn:E; bool_to_prop.
  2: { apply succeeds_ret. by replace copied with len by lia. }
  set (tile := N.min TILE_BYTES (len - copied)).
  assert (tile <= len - copied /\ (tile = TILE_BYTES \/ tile = len - copied)) as Ht by lia.
  change usize_MAX with u64_MAX in *.
  run_step. run_step; [rewrite checked_add_ok by lia; done|].
  run_step; [apply checked_byte_range_Ok; change usize_MAX with u64_MAX; lia|].
  run_step.
  { unfold get_range. cbn [fst snd].
    assert ((offset + copied <=? offset + copied + tile) = true) as -> by (apply N.leb_le; lia).
    assert ((offset + copied + tile <=? blen source) = true) as -> by (apply N.leb_le; lia).
    done. }
  run_step; [rewrite checked_add_ok by lia; done|].
  apply IH; [lia|lia|]. rewrite <-app_assoc. f_equal.
  replace (N.to_nat (offset + copied + tile - (offset + copied))) with (N.to_nat tile) by lia.
  replace (N.to_nat (copied + tile)) with (N.to_nat copied + N.to_nat tile)%nat by lia.
  rewrite <-take_take_drop, drop_drop. do 3 f_equal. lia.
Qed.

Lemma append_byte_range_tiled_spec source offset len target :
  offset + len <= blen source -> blen source <= u64_MAX ->
  succeeds (append_byte_range_tiled source offset len target)
    (fun out => out = target ++ take (N.to_nat len) (drop (N.to_nat offset) source)).
Proof.
  intros Hb Hm. apply append_tiles_spec; [done|done|lia| |by rewrite app_nil_r].
  unfold TILE_BYTES. pose proof (N.div_mod len (1024 * 1024) ltac:(done)).
  pose proof (N.mod_lt len (1024 * 1024) ltac:(done)). lia.
Qed.

(** ** Row-major offsets around one axis *)

Lemma encode_split pre d post cpre x cpost :
  length cpre = length pre ->
  encode (pre ++ d :: post) (cpre ++ x :: cpost) =
  (encode pre cpre * d + x) * prodN post + encode post cpost.
Proof.
  unfold encode. revert cpre. induction pre as [|p pre IH]; intros [|y cpre] Hl; try done; simpl.
  rewrite !dotN_cons, IH by (simpl in Hl; lia). rewrite prodN_app, prodN_cons. ring.
Qed.

Lemma split_at {A} `{Inhabited A} (l : list A) i :
  (i < length l)%nat -> l = take i l ++ l !!! i :: drop (i + 1) l.
Proof.
  intros Hi. rewrite <-(take_drop_middle l i (l !!! i)) at 1
    by (by apply list_lookup_lookup_total_lt). do 3 f_equal. lia.
Qed.

(** A row-major offset in terms of the axis coordinate. *)
Lemma encode_axis shape axis c :
  (axis < length shape)%nat -> length c = length shape ->
  encode shape c =
  (encode (take axis shape) (take axis c) * (shape !!! axis) + c !!! axis)
    * prodN (drop (axis + 1) shape) + encode (drop (axis + 1) shape) (drop (axis + 1) c).
Proof.
  intros Ha Hl. rewrite (split_at shape axis) at 1 by done.
  rewrite (split_at c axis) at 1 by lia. rewrite encode_split; [done|].
  rewrite !length_take. lia.
Qed.

Lemma prodN_axis shape axis :
  (axis < length shape)%nat ->
  prodN shape = prodN (take axis shape) * ((shape !!! axis) * prodN (drop (axis + 1) shape)).
Proof.
  intros Ha. rewrite (split_at shape axis) at 1 by done. by rewrite prodN_app, prodN_cons.
Qed.

(** ** Looking up in a concatenation of chunks *)

Lemma concat_chunks_lookup {X A} (chunk : X -> list A) (dim : X -> nat) xs n i k y r x :
  (forall z, z ∈ xs -> length (chunk z) = (dim z * n)%nat) ->
  xs !! k = Some x -> (y < dim x)%nat -> (r < n)%nat ->
  i = ((sum_list (map dim (take k xs)) + y) * n + r)%nat ->
  concat (map chunk xs) !! i = chunk x !! (y * n + r)%nat.
Proof.
  intros Hlen. revert k i. induction xs as [|z xs IH]; intros k i Hk Hy Hr ->; [done|].
  assert (length (chunk z) = (dim z * n)%nat) as Hz by (apply Hlen; left).
  destruct k as [|k]; simpl in *.
  - injection Hk as ->. rewrite lookup_app_l; [done|]. rewrite Hz. nia.
  - rewrite lookup_app_r by nia. rewrite Hz.
    erewrite IH; [done| |done..|nia]. intros. apply Hlen. by right.
Qed.

Lemma sum_list_ones {A} (l : list A) : sum_list (map (fun _ => 1%nat) l) = length l.
Proof. induction l; simpl; [done|]. lia. Qed.

(** The starts of the inputs along the axis as sums over the first inputs. *)
Lemma prefix_sums_nat axis facts views : forall k s n,
  (k < length views)%nat -> prefix_sums s (axis_dims axis facts) !! k = Some n ->
  N.to_nat n = (N.to_nat s +
    sum_list (map (fun x : TensorFacts * ByteView => N.to_nat (logical_shape x.1 !!! axis))
      (take k (zip facts views))))%nat.
Proof.
  revert views. induction facts as [|f facts IH]; intros views k s n Hk Hn; [done|].
  destruct views as [|v views]; [simpl in Hk; lia|].
  unfold axis_dims in *. cbn [map prefix_sums] in Hn. destruct k as [|k].
  - injection Hn as <-. simpl. lia.
  - simpl in Hk. apply (IH views) in Hn; [|lia]. rewrite Hn. simpl. lia.
Qed.

(** ** The fast path *)

Section FastConcat.
Context (axis : nat) (first : TensorFacts) (facts : list TensorFacts) (fout : TensorFacts).
Context (views : list ByteView) (Ts : list tensor).
Context (Hjoin : Forall (joins first axis) facts) (Hwo : facts_wf fout).
Context (Hax : (axis < length (logical_shape first))%nat).
Context (Hsum : sumN (axis_dims axis facts) <= u64_MAX).
Context (Hdt : facts_dtype fout = facts_dtype first).
Context (Hshape : logical_shape fout = <[axis := sumN (axis_dims axis facts)]> (logical_shape first)).
Context (Hviews : views_represent facts views Ts).
Context (Hcanon : Forall (fun f => storage_strides f = row_strides (logical_shape f) /\
                                   storage_shape f = logical_shape f) facts).
Context (Hout : storage_strides fout = row_strides (logical_shape fout) /\
                storage_shape fout = logical_shape fout).
Context (Hne : prodN (logical_shape fout) <> 0).

Let pre := take axis (logical_shape first).
Let post := drop (axis + 1) (logical_shape first).
Let outer := prodN pre.
Let inner := prodN post.
Let w := width fout.

(** The elements of one input in one outer row, and those of the row. *)
Definition chunk (o : N) (x : TensorFacts * ByteView) : list bytes :=
  let d := logical_shape x.1 !!! axis in
  elements_from w (o * (d * inner)) (N.to_nat (d * inner)) (as_slice x.2).
Definition row (o : nat) : list bytes := concat (map (chunk (N.of_nat o)) (zip facts views)).

Lemma joined_split f : f ∈ facts ->
  take axis (logical_shape f) = pre /\ drop (axis + 1) (logical_shape f) = post /\
  (axis < length (logical_shape f))%nat.
Proof using All.
  intros Hf. rewrite Forall_forall in Hjoin. destruct (Hjoin f Hf) as (Hl & _ & Ho).
  split_and!; [| |by rewrite Hl]; apply list_eq; intros i; unfold pre, post.
  - destruct (decide (i < axis)%nat).
    + rewrite !lookup_take_lt by done. apply Ho. lia.
    + by rewrite !lookup_take_ge by lia.
  - rewrite !lookup_drop. apply Ho. lia.
Qed.

Lemma output_split :
  take axis (logical_shape fout) = pre /\ drop (axis + 1) (logical_shape fout) = post /\
  logical_shape fout !!! axis = sumN (axis_dims axis facts) /\
  (axis < length (logical_shape fout))%nat.
Proof using All.
  rewrite Hshape. split_and!.
  - by rewrite take_insert_ge.
  - by rewrite drop_insert_lt by lia.
  - by rewrite list_lookup_total_insert_eq.
  - by rewrite length_insert.
Qed.

Lemma output_factors :
  prodN (logical_shape fout) = outer * (sumN (axis_dims axis facts) * inner) /\
  facts_byte_len fout = outer * (sumN (axis_dims axis facts) * inner) * w.
Proof using All.
  destruct output_split as (Hp & Hq & Hd & Ha).
  rewrite (wf_bytes fout Hwo), (proj2 Hout), (prodN_axis _ _ Ha), Hp, Hq, Hd. done.
Qed.

(** An input of the loop: its dimension divides its bytes. *)
Lemma input_chunk f v o : (f, v) ∈ zip facts views -> o < outer ->
  let d := logical_shape f !!! axis in
  width f = w /\ facts_wf f /\ view_wf v /\
  blen (as_slice v) = outer * (d * inner) * w /\ blen (as_slice v) <= u64_MAX /\
  (o * (d * inner) + d * inner) * w <= blen (as_slice v).
Proof using All.
  intros Hin Ho d. apply list_elem_of_lookup in Hin as [k Hk].
  apply lookup_zip_with_Some in Hk as (? & ? & [= <- <-] & Hf & Hv).
  destruct Hviews as (Hlv & HlT & Hrep).
  destruct (lookup_lt_is_Some_2 Ts k) as [T HT]; [rewrite HlT; by eapply lookup_lt_Some|].
  destruct (Hrep k f v T Hf Hv HT) as (Hwf & Hvw & Hl & _).
  apply list_elem_of_lookup_2 in Hf as Hmem.
  destruct (joined_split f Hmem) as (Hp & Hq & Ha).
  assert (width f = w) as Hw.
  { unfold w, width. rewrite Hdt. rewrite Forall_forall in Hjoin.
    by destruct (Hjoin f Hmem) as (_ & -> & _). }
  rewrite Forall_forall in Hcanon. destruct (Hcanon f Hmem) as [_ Hss].
  assert (facts_byte_len f = outer * (d * inner) * w) as Hb.
  { rewrite (wf_bytes f Hwf), Hss, (prodN_axis _ _ Ha), Hp, Hq, Hw. done. }
  split_and!; [done..|by rewrite Hl| |].
  - rewrite Hl. apply Hwf.
  - rewrite Hl, Hb. transitivity ((o + 1) * (d * inner) * w); [lia|].
    apply N.mul_le_mono_r, N.mul_le_mono_r. lia.
Qed.

Lemma chunk_length o x : length (chunk o x) = N.to_nat ((logical_shape x.1 !!! axis) * inner).
Proof using All. apply elements_from_length. Qed.

Lemma concat_uniform_blen (l : list bytes) :
  Forall (fun x => length x = N.to_nat w) l -> blen (concat l) = N.of_nat (length l) * w.
Proof using All. intros H. unfold blen. rewrite (concat_uniform_length _ _ H). lia. Qed.

Lemma chunk_uniform o x : x ∈ zip facts views -> o < outer ->
  Forall (fun e => length e = N.to_nat w) (chunk o x).
Proof using All.
  intros Hx Ho. destruct x as [f v]. destruct (input_chunk f v o Hx Ho) as (_ & _ & _ & _ & _ & Hb).
  apply elements_from_uniform. simpl. by rewrite N2Nat.id.
Qed.

(** The elements of the first inputs of a row. *)
Lemma chunks_uniform o xs :
  (forall x, x ∈ xs -> x ∈ zip facts views) -> o < outer ->
  Forall (fun e => length e = N.to_nat w) (concat (map (chunk o) xs)) /\
  N.of_nat (length (concat (map (chunk o) xs))) =
    sumN (map (fun x => logical_shape x.1 !!! axis) xs) * inner.
Proof using All.
  intros Hxs Ho. induction xs as [|x xs IH]; [split; [constructor|done]|].
  destruct IH as [IHu IHl]; [intros; apply Hxs; by right|]. cbn [map concat]. split.
  - apply Forall_app. split; [|done]. apply chunk_uniform; [apply Hxs; by left|done].
  - rewrite length_app, chunk_length, sumN_cons. lia.
Qed.

Lemma zip_dims : map (fun x => logical_shape x.1 !!! axis) (zip facts views) = axis_dims axis facts.
Proof using All.
  destruct Hviews as (Hlv & _). unfold axis_dims.
  rewrite <-(fst_zip facts views) at 2 by lia. by rewrite map_map.
Qed.

Lemma row_uniform o : N.of_nat o < outer ->
  Forall (fun e => length e = N.to_nat w) (row o) /\
  N.of_nat (length (row o)) = sumN (axis_dims axis facts) * inner.
Proof using All. intros Ho. rewrite <-zip_dims. by apply chunks_uniform. Qed.

Lemma rows_uniform n : N.of_nat n <= outer ->
  Forall (fun e => length e = N.to_nat w) (concat (map row (seq 0 n))) /\
  N.of_nat (length (concat (map row (seq 0 n)))) =
    N.of_nat n * (sumN (axis_dims axis facts) * inner).
Proof using All.
  induction n as [|n IH]; intros Hn; [by split; [constructor|]|].
  rewrite seq_S, map_app, concat_app. simpl. rewrite app_nil_r, length_app.
  destruct IH as [IHu IHl]; [lia|]. destruct (row_uniform n) as [Hu Hl]; [lia|].
  split; [by apply Forall_app|lia].
Qed.

Lemma prefix_blen o xs base :
  (forall x, x ∈ xs -> x ∈ zip facts views) -> o < outer ->
  blen (base ++ concat (concat (map (chunk o) xs))) =
  blen base + sumN (map (fun x => logical_shape x.1 !!! axis) xs) * inner * w.
Proof using All.
  intros Hxs Ho. destruct (chunks_uniform o xs Hxs Ho) as [Hu Hl].
  pose proof (concat_uniform_blen _ Hu) as Hb. unfold blen in *. rewrite length_app. lia.
Qed.

Lemma concat_chunk_step o done_ x rest base out off :
  zip facts views = done_ ++ x :: rest -> o < outer ->
  blen base = o * (sumN (axis_dims axis facts) * inner) * w ->
  out = base ++ concat (concat (map (chunk o) done_)) -> off = blen out ->
  succeeds (concat_chunk axis (inner * w) o x (out, off)) (fun st =>
    st.1 = base ++ concat (concat (map (chunk o) (done_ ++ [x]))) /\ st.2 = blen st.1).
Proof using All.
  intros Hzip Ho Hbase Hout' ->.
  assert (forall y, y ∈ done_ ++ [x] -> y ∈ zip facts views) as Hmem.
  { intros y Hy. rewrite Hzip. apply elem_of_app in Hy as [Hy|Hy%list_elem_of_singleton];
      apply elem_of_app; [by left|right; subst; by left]. }
  destruct x as [f v]. assert ((f, v) ∈ zip facts views) as Hx.
  { apply Hmem, elem_of_app. right. by left. }
  destruct (input_chunk f v o Hx Ho) as (Hw & Hwf & Hvw & Hb & Hm & Hend).
  set (d := logical_shape f !!! axis) in *.
  assert (f ∈ facts) as Hf.
  { apply list_elem_of_lookup in Hx as [k Hk].
    apply lookup_zip_with_Some in Hk as (? & ? & [= <- <-] & Hf & _). by eapply list_elem_of_lookup_2. }
  destruct (joined_split f Hf) as (_ & _ & Ha).
  assert (d * inner * w <= blen (as_slice v)) as Hchunk.
  { rewrite Hb. replace (d * inner * w) with (1 * (d * inner) * w) by lia.
    apply N.mul_le_mono_r, N.mul_le_mono_r. lia. }
  assert (blen (base ++ concat (concat (map (chunk o) (done_ ++ [(f, v)])))) <= u64_MAX) as Htotal.
  { rewrite prefix_blen by done. rewrite map_app, sumN_app, Hbase.
    destruct output_factors as [_ Hfb]. pose proof (wf_bytes_fit fout Hwo) as Hfit. rewrite Hfb in Hfit.
    pose proof (f_equal (fun l => sumN (map (fun x => logical_shape x.1 !!! axis) l)) Hzip) as Hs.
    cbv beta in Hs. rewrite zip_dims, map_app, sumN_app in Hs. cbn [map fst] in *.
    rewrite sumN_cons in *. change (sumN []) with 0. fold d in Hs |- *.
    set (D := sumN (axis_dims axis facts)) in *.
    transitivity (o * (D * inner) * w + D * inner * w).
    - apply N.add_le_mono_l, N.mul_le_mono_r, N.mul_le_mono_r. lia.
    - transitivity (outer * (D * inner) * w); [|done].
      replace (o * (D * inner) * w + D * inner * w) with ((o + 1) * (D * inner) * w) by lia.
      apply N.mul_le_mono_r, N.mul_le_mono_r. lia. }
  assert (take (N.to_nat (d * (inner * w))) (drop (N.to_nat (o * (d * (inner * w)))) (as_slice v))
          = concat (chunk o (f, v))) as Hbytes.
  { unfold chunk. cbn [fst snd]. fold d. rewrite <-bytes_of_elements by (by rewrite N2Nat.id).
    f_equal; [lia|]. f_equal. lia. }
  assert (blen (out ++ concat (chunk o (f, v))) =
          blen out + d * (inner * w)) as Hblen.
  { pose proof (concat_uniform_blen _ (chunk_uniform o (f, v) Hx Ho)) as Hc.
    rewrite chunk_length in Hc. cbn [fst] in Hc. fold d in Hc. unfold blen in *.
    rewrite length_app. lia. }
  assert (out ++ concat (chunk o (f, v)) =
          base ++ concat (concat (map (chunk o) (done_ ++ [(f, v)])))) as Happ.
  { rewrite Hout', map_app, !concat_app. cbn [map concat]. by rewrite !app_nil_r, app_assoc. }
  rewrite <-Happ, Hblen in Htotal. unfold concat_chunk.
  run_step; [by apply index_total|]. fold d.
  run_step; [rewrite checked_mul_ok by lia; done|].
  run_step; [rewrite checked_mul_ok; [done|lia]|].
  eapply succeeds_then; [apply append_byte_range_tiled_spec; [|done]|].
  { transitivity ((o * (d * inner) + d * inner) * w); [lia|done]. }
  intros out' ->. rewrite Hbytes. run_step; [rewrite checked_add_ok by done; done|].
  run_step. cbn [fst snd]. split; [exact Happ|by rewrite Hblen].
Qed.

Lemma concat_rows_spec :
  succeeds (for_range 0 outer (fun outer_index st =>
      _ ← check; for_each (zip facts views) (concat_chunk axis (inner * w) outer_index) st) ([], 0))
    (fun st => st.1 = concat (concat (map row (seq 0 (N.to_nat outer)))) /\ st.2 = blen st.1).
Proof using All.
  apply (succeeds_for_range (fun i st =>
    st.1 = concat (concat (map row (seq 0 (N.to_nat i)))) /\ st.2 = blen st.1)); [lia|done|].
  intros i [out off] [_ Hi] [Hout' Hoff]. cbn [fst snd] in *. run_step.
  eapply succeeds_mono.
  - apply (succeeds_for_each (fun done_ st =>
      st.1 = out ++ concat (concat (map (chunk i) done_)) /\ st.2 = blen st.1)).
    + cbn. by rewrite app_nil_r.
    + intros done_ x rest [out' off'] Hz [Ho' Hf']. cbn [fst snd] in *.
      eapply concat_chunk_step; [exact Hz|done| |done|done].
      destruct (rows_uniform (N.to_nat i)) as [Hu Hl]; [lia|].
      rewrite Hout', concat_uniform_blen by done. rewrite Hl, N2Nat.id. done.
  - intros st [-> ->]. split; [|done].
    replace (N.to_nat (i + 1)) with (S (N.to_nat i)) by lia.
    rewrite seq_S, map_app, !concat_app, Hout'. cbn [map concat]. rewrite !app_nil_r.
    unfold row. rewrite Nat.add_0_l, N2Nat.id. done.
Qed.

(** The element of the joined bytes at a coordinate. *)
Lemma joined_element c : in_shape (logical_shape fout) c ->
  element w (offset_of fout c) (concat (concat (map row (seq 0 (N.to_nat outer))))) =
  sem_concat axis (axis_dims axis facts) Ts c.
Proof using All.
  intros Hc. destruct output_split as (Hp & Hq & Hd & Ha).
  pose proof (in_shape_length _ _ Hc) as Hlc.
  assert (c !!! axis < sumN (axis_dims axis facts)) as Hx.
  { eapply Forall2_lookup_lr; [exact Hc|apply list_lookup_lookup_total_lt; lia|].
    rewrite <-Hd. by apply list_lookup_lookup_total_lt. }
  destruct (locate_input_spec _ _ 0 Hx) as (k & y & Hloc & (d & Hdk & Hy) & Hle & Hstart).
  simpl in Hloc. unfold axis_dims in Hdk. apply list_lookup_fmap_Some in Hdk as (f & -> & Hf).
  pose proof Hviews as (Hlv & HlT & Hrep). pose proof (lookup_lt_Some _ _ _ Hf) as Hk.
  destruct (lookup_lt_is_Some_2 views k) as [v Hv]; [lia|].
  destruct (lookup_lt_is_Some_2 Ts k) as [T HT]; [lia|].
  destruct (Hrep k f v T Hf Hv HT) as (Hwf & Hvw & HTr).
  assert ((zip facts views) !! k = Some (f, v)) as Hz.
  { apply lookup_zip_with_Some. exists f, v. done. }
  destruct (joined_split f (list_elem_of_lookup_2 _ _ _ Hf)) as (Hpf & Hqf & Haf).
  unfold sem_concat. rewrite Hloc, HT. cbn [default from_option id].
  set (o := encode pre (take axis c)). set (r := encode post (drop (axis + 1) c)).
  assert (in_shape pre (take axis c)) as Hinp by (rewrite <-Hp; by apply Forall2_take).
  assert (in_shape post (drop (axis + 1) c)) as Hinq by (rewrite <-Hq; by apply Forall2_drop).
  pose proof (encode_bound _ _ Hinp) as Ho. pose proof (encode_bound _ _ Hinq) as Hr.
  fold o outer in Ho. fold r inner in Hr.
  set (D := sumN (axis_dims axis facts)) in *. set (df := logical_shape f !!! axis) in *.
  assert (offset_of fout c = (o * D + c !!! axis) * inner + r) as Hoff.
  { unfold offset_of. rewrite (proj1 Hout). fold (encode (logical_shape fout) c).
    rewrite (encode_axis _ axis) by done. rewrite Hp, Hq, Hd. done. }
  assert (offset_of f (<[axis := y]> c) = (o * df + y) * inner + r) as Hoff'.
  { unfold offset_of. rewrite Forall_forall in Hcanon.
    rewrite (proj1 (Hcanon f (list_elem_of_lookup_2 _ _ _ Hf))).
    fold (encode (logical_shape f) (<[axis := y]> c)).
    assert (length (logical_shape f) = length (logical_shape fout)) as Hls.
    { rewrite Hshape, length_insert. rewrite Forall_forall in Hjoin.
      apply (Hjoin f), list_elem_of_lookup_2 with k. done. }
    rewrite (encode_axis _ axis) by (rewrite ?length_insert; lia). rewrite Hpf, Hqf.
    rewrite take_insert_ge, drop_insert_lt, list_lookup_total_insert_eq by lia. done. }
  assert (in_shape (logical_shape f) (<[axis := y]> c)) as Hin
    by (eapply (local_in_shape axis first facts fout views Ts); eassumption).
  destruct (represents_element f _ T _ Hwf HTr Hin) as (_ & _ & <-). rewrite Hoff, Hoff'.
  destruct (input_chunk f v o (list_elem_of_lookup_2 _ _ _ Hz) Ho) as (Hwf' & _). rewrite Hwf'.
  fold df in Hy. destruct (rows_uniform (N.to_nat outer)) as [Hu _]; [lia|].
  assert (sum_list (map (fun x : TensorFacts * ByteView => N.to_nat (logical_shape x.1 !!! axis))
            (take k (zip facts views))) = N.to_nat (c !!! axis - y)) as Hsumk.
  { assert (k < length views)%nat as Hkv by lia.
    pose proof (prefix_sums_nat axis facts views k 0 _ Hkv (Hstart 0)) as Hps. lia. }
  unfold element at 1.
  replace (N.to_nat (((o * D + c !!! axis) * inner + r) * w))
    with (N.to_nat ((o * D + c !!! axis) * inner + r) * N.to_nat w)%nat by lia.
  apply concat_uniform_element; [done|].
  rewrite (concat_chunks_lookup row (fun _ => 1%nat) (seq 0 (N.to_nat outer))
             (N.to_nat (D * inner)) _ (N.to_nat o) 0
             (N.to_nat ((c !!! axis) * inner + r)) (N.to_nat o)).
  - rewrite Nat.mul_0_l, Nat.add_0_l. unfold row at 1.
    rewrite (concat_chunks_lookup (chunk (N.of_nat (N.to_nat o)))
               (fun x => N.to_nat (logical_shape x.1 !!! axis)) (zip facts views)
               (N.to_nat inner) _ k (N.to_nat y) (N.to_nat r) (f, v)).
    + unfold chunk. cbn [fst snd]. fold df. rewrite N2Nat.id, elements_from_lookup.
      * do 2 f_equal. lia.
      * assert ((y + 1) * inner <= df * inner) by (apply N.mul_le_mono_r; lia). lia.
    + intros x _. rewrite chunk_length. lia.
    + done.
    + cbn [fst]. fold df. lia.
    + lia.
    + rewrite Hsumk. replace (N.to_nat (c !!! axis - y) + N.to_nat y)%nat with (N.to_nat (c !!! axis)) by lia. lia.
  - intros o' Ho'%elem_of_seq. destruct (row_uniform o') as [_ Hl]; [lia|]. lia.
  - apply lookup_seq_lt. lia.
  - lia.
  - assert ((c !!! axis + 1) * inner <= D * inner) by (apply N.mul_le_mono_r; lia). lia.
  - assert (sum_list (map (fun _ : nat => 1%nat) (take (N.to_nat o) (seq 0 (N.to_nat outer))))
            = N.to_nat o) as ->; [|lia].
    rewrite <-(Nat.mul_1_r (N.to_nat o)) at 2.
    rewrite sum_list_ones, length_take, length_seq. lia.
Qed.

(** The partial products the fast path computes do not overflow. *)
Lemma partial_counts :
  checked_element_count pre = Ok outer /\ checked_element_count post = Ok inner /\
  inner * w <= u64_MAX.
Proof using All.
  destruct output_factors as [Hp Hb]. rewrite Hp in Hne.
  assert (outer <> 0 /\ sumN (axis_dims axis facts) <> 0 /\ inner <> 0) as (Ho & HD & Hi)
    by (apply N.neq_mul_0 in Hne as [? Hne]; apply N.neq_mul_0 in Hne; tauto).
  pose proof (wf_bytes_fit fout Hwo) as Hfit. rewrite Hb in Hfit.
  pose proof (wf_elements fout Hwo) as Hel. rewrite Hp in Hel.
  set (D := sumN (axis_dims axis facts)) in *.
  assert (forall l, prodN l <> 0 -> prodN l <= u64_MAX -> checked_element_count l = Ok (prodN l)) as Hc.
  { intros l Hn Hl. unfold checked_element_count. rewrite try_fold_mul_spec.
    rewrite prefix_products_fit_nonzero; [by rewrite N.mul_1_l|by apply prodN_pos|by rewrite N.mul_1_l]. }
  assert (1 <= outer * D) by (assert (outer * D <> 0) by (apply N.neq_mul_0; tauto); lia).
  split_and!.
  - apply Hc; [done|]. fold outer.
    assert (outer * 1 <= outer * (D * inner)); [|lia].
    apply N.mul_le_mono_l. assert (D * inner <> 0) by (apply N.neq_mul_0; tauto). lia.
  - apply Hc; [done|]. fold inner. assert (1 * inner <= outer * D * inner); [|lia].
    by apply N.mul_le_mono_r.
  - assert (1 * inner * w <= outer * D * inner * w); [|lia]. by apply N.mul_le_mono_r, N.mul_le_mono_r.
Qed.

Lemma build_contiguous_concat_spec c :
  head facts = Some first -> facts_byte_len fout <= isize_MAX ->
  validate_axis (concat_axis c) (length (logical_shape fout)) = Ok axis ->
  succeeds (build_contiguous_concat (concat_axis c) facts fout views)
    (fun out => represents fout out (sem_concat axis (axis_dims axis facts) Ts)).
Proof using All.
  intros Hhead Hle Hva. destruct partial_counts as (Hco & Hci & Hiw).
  destruct output_factors as [_ Hfb].
  unfold build_contiguous_concat. run_step. run_step; [by eapply validate_concat_inputs_Ok|].
  run_step; [exact Hva|]. run_step.
  { apply usize_try_from_Ok. split; [reflexivity|]. apply Hwo. }
  run_step; [done|]. run_step.
  { apply index_Ok. rewrite <-head_lookup. exact Hhead. }
  run_step.
  { unfold shape_before. assert ((axis <=? length (logical_shape first))%nat = true) as ->
      by (apply Nat.leb_le; lia). done. }
  run_step; [exact Hco|]. run_step.
  { unfold shape_after. assert ((axis + 1 <=? length (logical_shape first))%nat = true) as ->
      by (apply Nat.leb_le; lia). done. }
  run_step; [exact Hci|]. run_step; [apply dtype_width_Ok|].
  rewrite <-Hdt. fold (width fout) w. run_step; [by rewrite checked_mul_ok|].
  eapply succeeds_then; [apply concat_rows_spec|]. intros [out off] [Hout' Hoff]. cbn [fst snd] in *. subst off.
  destruct (rows_uniform (N.to_nat outer)) as [Hu Hl]; [lia|].
  assert (blen out = facts_byte_len fout) as Hblen.
  { rewrite Hout', concat_uniform_blen, Hl, Hfb, N2Nat.id by done. lia. }
  run_step; [rewrite N.eqb_refl; simpl; rewrite Hblen, N.eqb_refl; done|].
  run_step. run_step. split; [done|]. intros c' Hc'. rewrite Hout'. by apply joined_element.
Qed.
End FastConcat.
