(* ===== verification/SimdSpecs.v ===== *)
(** * Correctness of the 3x3 sixteen-bit kernel

    The register network transposes, the vector and scalar copies of a chunk
    agree, and the kernel writes the input in OHWI order whichever dispatch
    runs. *)

From S2P Require Import Prelude Errors Cancel Tensor Representation Strides Facts Operation Kernels InferSpecs.
From S2P Require Import Semantics KernelSpecs Simd FastPaths FastPathSpecs.
Local Open Scope N_scope.

(** ** The register network *)

(** Lane [s] of row [c] ends in lane [c] of column [s], for lanes of any
    type. *)
Lemma transpose_network_spec {A} (src : nat -> nat -> A) :
  transpose_network (map (fun c => map (src c) (seq 0 8)) (seq 0 16)) =
  map (fun s => map (fun c => src c s) (seq 0 16)) (seq 0 8).
Proof. reflexivity. Qed.

(** Element [s] of channel [c] of a block. *)
Definition lane (source : bytes) (s c : nat) : bytes :=
  element 2 (N.of_nat (c * 9 + s)) source.

Lemma lanes_of_row source c :
  lanes 8 (take 16 (drop (c * N.to_nat SOURCE_CHANNEL_BYTES) source)) =
  map (fun s => lane source s c) (seq 0 8).
Proof.
  unfold lanes. apply map_ext_in. intros s Hs%in_seq. unfold lane, element.
  change (N.to_nat SOURCE_CHANNEL_BYTES) with 18%nat. change (N.to_nat 2) with 2%nat.
  rewrite skipn_firstn_comm, firstn_firstn, drop_drop. f_equal; [lia|]. f_equal. lia.
Qed.

Lemma transpose_block_spec source :
  transpose_16_channels_8_spatial source =
  map (fun s => concat (map (lane source s) (seq 0 16))) (seq 0 8).
Proof.
  unfold transpose_16_channels_8_spatial.
  assert (map (fun channel => lanes 8 (take 16 (drop (channel * N.to_nat SOURCE_CHANNEL_BYTES)
            source))) (seq 0 16) =
          map (fun c => map ((fun c s => lane source s c) c) (seq 0 8)) (seq 0 16)) as ->.
  { apply map_ext. intros c. apply lanes_of_row. }
  rewrite transpose_network_spec, map_map. done.
Qed.

(** ** Filling rows *)

Lemma split_rows_concat n rows :
  Forall (fun r => blen r = n) rows -> split_rows (length rows) (concat rows) n = Ok (rows, []).
Proof.
  induction 1 as [|r rows Hr _ IH]; [done|]. cbn [length split_rows concat].
  assert ((blen (r ++ concat rows) <? n) = false) as ->.
  { apply N.ltb_ge. unfold blen in *. rewrite length_app. lia. }
  cbn [reject mbind result_bind].
  replace (N.to_nat n) with (length r) by (unfold blen in Hr; lia).
  by rewrite drop_app_length, take_app_length, IH.
Qed.

Section Rows.
Context (source : bytes) (channels : nat).
Context (Hsource : blen source = N.of_nat channels * 18) (Hfit : blen source <= u64_MAX).

Lemma lane_length s c : (s < 9)%nat -> (c < channels)%nat -> length (lane source s c) = 2%nat.
Proof using All. intros. unfold lane. apply (element_length 2). lia. Qed.

(** Row [s] with its first [c] channels written over [row]. *)
Definition filled (s c : nat) (row : bytes) : bytes :=
  concat (map (lane source s) (seq 0 c)) ++ drop (2 * c) row.

Lemma lanes_length s a n : (s < 9)%nat -> (a + n <= channels)%nat ->
  length (concat (map (lane source s) (seq a n))) = (2 * n)%nat.
Proof using All.
  intros Hs Hn. rewrite (concat_uniform_length _ 2).
  - rewrite length_map, length_seq. lia.
  - apply Forall_forall. intros x (c & -> & Hc%elem_of_seq)%list_elem_of_fmap.
    apply lane_length; lia.
Qed.

Lemma filled_length s c row : (s < 9)%nat -> (c <= channels)%nat ->
  length row = (2 * channels)%nat -> length (filled s c row) = (2 * channels)%nat.
Proof using All.
  intros Hs Hc Hl. unfold filled. rewrite length_app, lanes_length, length_drop by lia. lia.
Qed.

Lemma filled_insert s c n row : (s < 9)%nat -> (c + n <= channels)%nat ->
  length row = (2 * channels)%nat ->
  list_inserts (2 * c) (concat (map (lane source s) (seq c n))) (filled s c row) =
  filled s (c + n) row.
Proof using All.
  intros Hs Hn Hl. pose proof (lanes_length s c n Hs Hn) as Hk.
  pose proof (lanes_length s 0 c Hs ltac:(lia)) as Hc.
  rewrite list_inserts_split by (rewrite Hk, filled_length by lia; lia). rewrite Hk.
  unfold filled. rewrite seq_app, map_app, concat_app, <-app_assoc. rewrite Nat.add_0_l.
  f_equal; [|f_equal].
  - rewrite <-Hc. by rewrite take_app_length.
  - rewrite drop_app_ge by lia. rewrite drop_drop. f_equal. lia.
Qed.

(** The rows with [n s] channels of row [s] written. *)
Definition rows_at (n : nat -> nat) (rows0 : list bytes) : list bytes :=
  imap (fun s row => filled s (n s) row) rows0.

Lemma rows_at_ext n n' rows0 :
  (forall s, (s < length rows0)%nat -> n s = n' s) -> rows_at n rows0 = rows_at n' rows0.
Proof using All.
  intros H. apply imap_ext. intros s row Hs. f_equal. apply H. by eapply lookup_lt_Some.
Qed.

Lemma rows_at_lookup n s row rows0 :
  rows0 !! s = Some row -> rows_at n rows0 !! s = Some (filled s (n s) row).
Proof using All. intros Hs. unfold rows_at. by rewrite list_lookup_imap, Hs. Qed.

Lemma rows_at_insert n s b row rows0 :
  rows0 !! s = Some row ->
  <[s := filled s b row]> (rows_at n rows0) = rows_at (fun t => if decide (t = s) then b else n t) rows0.
Proof using All.
  intros Hs. apply list_eq. intros t. unfold rows_at. rewrite list_lookup_imap.
  destruct (decide (t = s)) as [->|Hne].
  - rewrite list_lookup_insert_eq by (rewrite length_imap; by eapply lookup_lt_Some).
    rewrite Hs. simpl. done.
  - by rewrite list_lookup_insert_ne, list_lookup_imap by done.
Qed.

Lemma copy_scalar_element_spec s c row : (s < 9)%nat -> (c < channels)%nat ->
  length row = (2 * channels)%nat ->
  copy_scalar_element source (N.of_nat s) (N.of_nat c) (filled s c row) = Ok (filled s (c + 1) row).
Proof using All.
  intros Hs Hc Hl. unfold copy_scalar_element, SOURCE_CHANNEL_BYTES, SPATIAL_ELEMENTS, ELEMENT_BYTES.
  change (9 * 2) with 18. pose proof (filled_length s c row Hs ltac:(lia) Hl) as Hlen.
  rewrite (checked_mul_ok (N.of_nat c) 18), (checked_mul_ok (N.of_nat s) 2),
    (checked_mul_ok (N.of_nat c) 2) by lia.
  assert ((offset ← Some (N.of_nat c * 18); spatial ← Some (N.of_nat s * 2);
           checked_add offset spatial) = Some (N.of_nat c * 18 + N.of_nat s * 2)) as ->
    by (apply checked_add_ok; lia).
  cbn [ok_or mbind result_bind].
  rewrite !checked_add_ok by lia. cbn [ok_or mbind result_bind].
  replace (N.of_nat c * 18 + N.of_nat s * 2) with (N.of_nat (c * 9 + s) * 2) by lia.
  rewrite (get_range_element source) by lia. cbn [ok_or mbind result_bind].
  rewrite (get_range_element (filled s c row)) by (unfold blen; lia). cbn [ok_or mbind result_bind].
  fold (lane source s c). unfold copy_from_slice, blen. cbn [fst snd].
  rewrite lane_length by lia.
  assert ((N.of_nat c * 2 + 2 - N.of_nat c * 2 =? N.of_nat 2) = true) as -> by (apply N.eqb_eq; lia).
  f_equal. rewrite <-(filled_insert s c 1) by lia. cbn [seq map concat]. rewrite app_nil_r.
  f_equal. lia.
Qed.

Lemma span_list_cons a b : a < b -> span_list a b = a :: span_list (a + 1) b.
Proof using All.
  intros H. unfold span_list. replace (N.to_nat (b - a)) with (S (N.to_nat (b - (a + 1)))) by lia.
  cbn [seq map]. rewrite N.add_0_r. f_equal. rewrite <-seq_shift, map_map.
  apply map_ext. intros. lia.
Qed.

Lemma scalar_row_fold s row n : forall a, (s < 9)%nat -> (a + n <= channels)%nat ->
  length row = (2 * channels)%nat ->
  try_fold (fun row c => copy_scalar_element source (N.of_nat s) c row) (filled s a row)
    (span_list (N.of_nat a) (N.of_nat (a + n))) = Ok (filled s (a + n) row).
Proof using All.
  induction n as [|n IH]; intros a Hs Hn Hl.
  { rewrite Nat.add_0_r. unfold span_list. by rewrite N.sub_diag. }
  rewrite span_list_cons by lia. cbn [try_fold]. rewrite copy_scalar_element_spec by lia.
  cbn [mbind result_bind]. replace (N.of_nat a + 1) with (N.of_nat (a + 1)) by lia.
  replace (a + S n)%nat with (a + 1 + n)%nat by lia. apply IH; [done|lia|done].
Qed.

Lemma copy_scalar_row_spec s n rows0 row b : (s < 9)%nat ->
  rows0 !! s = Some row -> length row = (2 * channels)%nat -> (n s <= b)%nat -> (b <= channels)%nat ->
  copy_scalar_row source (rows_at n rows0) (N.of_nat (n s)) (N.of_nat b) s =
  Ok (rows_at (fun t => if decide (t = s) then b else n t) rows0).
Proof using All.
  intros Hs Hrow Hl Hb Hc. unfold copy_scalar_row.
  rewrite (rows_at_lookup n s row) by done. cbn [ok_or mbind result_bind].
  replace b with (n s + (b - n s))%nat at 1 by lia. rewrite scalar_row_fold by (done || lia).
  cbn [mbind result_bind]. replace (n s + (b - n s))%nat with b by lia.
  by rewrite rows_at_insert.
Qed.

Context (rows0 : list bytes) (Hrows : length rows0 = 9%nat).
Context (Hrow : Forall (fun r => length r = (2 * channels)%nat) rows0).

Lemma row_at s : (s < 9)%nat -> exists row, rows0 !! s = Some row /\ length row = (2 * channels)%nat.
Proof using All.
  intros Hs. destruct (lookup_lt_is_Some_2 rows0 s) as [row Hr]; [lia|]. exists row.
  split; [done|]. by eapply Forall_lookup in Hr; [|exact Hrow].
Qed.

Lemma copy_scalar_channels_spec a b : (a <= b)%nat -> (b <= channels)%nat ->
  copy_scalar_channels source (rows_at (fun _ => a) rows0) (N.of_nat a) (N.of_nat b) =
  Ok (rows_at (fun _ => b) rows0).
Proof using All.
  intros Hab Hb. unfold copy_scalar_channels. change (N.to_nat SPATIAL_ELEMENTS) with 9%nat.
  cut (forall m k, (k + m = 9)%nat ->
    try_fold (fun rows s => copy_scalar_row source rows (N.of_nat a) (N.of_nat b) s)
      (rows_at (fun t => if decide (t < k)%nat then b else a) rows0) (seq k m) =
    Ok (rows_at (fun _ => b) rows0)).
  { intros Hc. rewrite <-(Hc 9%nat 0%nat) by done. f_equal. }
  induction m as [|m IH]; intros k Hk; cbn [try_fold seq].
  { f_equal. apply rows_at_ext. intros s Hs. rewrite decide_True; [done|lia]. }
  destruct (row_at k) as (row & Hr & Hl); [lia|].
  pose proof (copy_scalar_row_spec k (fun t => if decide (t < k)%nat then b else a) rows0 row b
                ltac:(lia) Hr Hl) as Hspec.
  cbv beta in Hspec. rewrite decide_False in Hspec by lia. rewrite Hspec by done.
  cbn [mbind result_bind]. rewrite <-(IH (S k)) by lia. f_equal. apply rows_at_ext. intros s Hs.
  destruct (decide (s = k)) as [->|]; [by rewrite decide_True by lia|].
  destruct (decide (s < k)%nat); [by rewrite decide_True by lia|by rewrite decide_False by lia].
Qed.

Lemma block_lane c s k : (c + 16 <= channels)%nat -> (s < 9)%nat -> (k < 16)%nat ->
  lane (take 288 (drop (c * 18) source)) s k = lane source s (c + k).
Proof using All.
  intros Hc Hs Hk. unfold lane, element. change (N.to_nat 2) with 2%nat.
  replace (N.to_nat (N.of_nat (k * 9 + s) * 2)) with ((k * 9 + s) * 2)%nat by lia.
  replace (N.to_nat (N.of_nat ((c + k) * 9 + s) * 2)) with (((c + k) * 9 + s) * 2)%nat by lia.
  rewrite skipn_firstn_comm, firstn_firstn, drop_drop. f_equal; [lia|]. f_equal. lia.
Qed.

(** The stored columns extend the first eight rows by sixteen channels. *)
Lemma store_column_spec c s row : (c + 16 <= channels)%nat -> (s < 9)%nat ->
  length row = (2 * channels)%nat ->
  store_column (N.of_nat c * 2) (N.of_nat c * 2 + 32)
    (filled s c row, concat (map (lane (take 288 (drop (c * 18) source)) s) (seq 0 16))) =
  Ok (filled s (c + 16) row).
Proof using All.
  intros Hc Hs Hl. unfold store_column.
  assert (map (lane (take 288 (drop (c * 18) source)) s) (seq 0 16) =
          map (lane source s) (seq c 16)) as ->.
  { rewrite <-(Nat.add_0_r c) at 2. rewrite <-fmap_add_seq.
    change (map (lane source s) (Nat.add c <$> seq 0 16))
      with (map (lane source s) (map (Nat.add c) (seq 0 16))).
    rewrite map_map. apply map_ext_in. intros k Hk%in_seq. apply block_lane; lia. }
  pose proof (filled_length s c row Hs ltac:(lia) Hl) as Hlen.
  unfold get_range. cbn [fst snd].
  assert ((N.of_nat c * 2 <=? N.of_nat c * 2 + 32) = true) as -> by (apply N.leb_le; lia).
  assert ((N.of_nat c * 2 + 32 <=? blen (filled s c row)) = true) as ->
    by (apply N.leb_le; unfold blen; lia).
  cbn [andb ok_or mbind result_bind]. unfold copy_from_slice, blen. cbn [fst snd].
  rewrite (lanes_length s c 16) by lia.
  assert ((N.of_nat c * 2 + 32 - N.of_nat c * 2 =? N.of_nat (2 * 16)) = true) as ->
    by (apply N.eqb_eq; lia).
  f_equal. rewrite <-(filled_insert s c 16) by lia. f_equal. lia.
Qed.

Lemma transpose_block_rows c : (c + 16 <= channels)%nat ->
  transpose_block source (rows_at (fun _ => c) rows0) (N.of_nat c) =
  Ok (rows_at (fun s => if decide (s < 8)%nat then (c + 16)%nat else c) rows0).
Proof using All.
  intros Hc. unfold transpose_block, SOURCE_CHANNEL_BYTES, SPATIAL_ELEMENTS, ELEMENT_BYTES,
    SIMD_SOURCE_BYTES, SIMD_OUTPUT_BYTES, SIMD_CHANNELS, SOURCE_CHANNEL_BYTES, SPATIAL_ELEMENTS,
    ELEMENT_BYTES. change (16 * (9 * 2)) with 288. change (9 * 2) with 18. change (16 * 2) with 32.
  rewrite (checked_mul_ok (N.of_nat c) 18), (checked_mul_ok (N.of_nat c) 2) by lia.
  cbn [ok_or mbind result_bind]. rewrite !checked_add_ok by lia. cbn [ok_or mbind result_bind].
  assert (get_range source (N.of_nat c * 18, N.of_nat c * 18 + 288) =
          Some (take 288 (drop (c * 18) source))) as ->.
  { unfold get_range. cbn [fst snd].
    assert ((N.of_nat c * 18 <=? N.of_nat c * 18 + 288) = true) as -> by (apply N.leb_le; lia).
    assert ((N.of_nat c * 18 + 288 <=? blen source) = true) as -> by (apply N.leb_le; lia).
    cbn [andb]. do 2 f_equal; [lia|f_equal; lia]. }
  cbn [ok_or mbind result_bind]. rewrite transpose_block_spec.
  pose proof Hrows as Hnine. pose proof Hrow as Hall. revert Hnine Hall. generalize rows0 as rows.
  intros [|r0 [|r1 [|r2 [|r3 [|r4 [|r5 [|r6 [|r7 [|r8 []]]]]]]]]] Hnine Hall; try done.
  repeat match type of Hall with
         | Forall _ (_ :: _) => apply Forall_cons in Hall as [? Hall]
         end.
  unfold rows_at. cbn [imap take drop zip zip_with map seq mapM].
  cbv [compose]. rewrite !store_column_spec by lia. reflexivity.
Qed.

Lemma copy_scalar_ninth_rows c : (c + 16 <= channels)%nat ->
  copy_scalar_ninth source (rows_at (fun s => if decide (s < 8)%nat then (c + 16)%nat else c) rows0)
    (N.of_nat c) = Ok (rows_at (fun _ => (c + 16)%nat) rows0).
Proof using All.
  intros Hc. unfold copy_scalar_ninth, unchecked_add, SIMD_CHANNELS.
  assert ((N.of_nat c + 16 <=? u64_MAX) = true) as -> by (apply N.leb_le; lia).
  cbn [mbind result_bind]. destruct (row_at 8) as (row & Hr & Hl); [lia|].
  replace (N.of_nat c + 16) with (N.of_nat (c + 16)) by lia.
  pose proof (copy_scalar_row_spec 8 (fun s => if decide (s < 8)%nat then (c + 16)%nat else c)
                rows0 row (c + 16) ltac:(lia) Hr Hl) as Hspec.
  cbv beta in Hspec. rewrite decide_False in Hspec by lia. rewrite Hspec by lia.
  f_equal. apply rows_at_ext. intros s Hs. destruct (decide (s = 8%nat)); [done|].
  by rewrite decide_True by lia.
Qed.

Lemma vector_blocks_spec fuel : forall a b, (a <= b)%nat -> (b <= channels)%nat ->
  exists c, (a <= c <= b)%nat /\
    vector_blocks fuel source (N.of_nat b) (N.of_nat a) (rows_at (fun _ => a) rows0) =
    Ok (N.of_nat c, rows_at (fun _ => c) rows0).
Proof using All.
  induction fuel as [|fuel IH]; intros a b Hab Hb; cbn [vector_blocks]; [by exists a|].
  unfold unchecked_add at 1.
  destruct (N.of_nat a + SIMD_CHANNELS <=? u64_MAX) eqn:E.
  2: { bool_to_prop. unfold SIMD_CHANNELS in E. exfalso. clear -E Hab Hb Hfit Hsource. unfold u64_MAX in *. lia. }
  cbn [mbind result_bind]. destruct (N.of_nat a + SIMD_CHANNELS <=? N.of_nat b) eqn:E2; bool_to_prop.
  - unfold SIMD_CHANNELS in E2. rewrite transpose_block_rows by lia. cbn [mbind result_bind].
    rewrite copy_scalar_ninth_rows by lia. cbn [mbind result_bind].
    destruct (IH (a + 16)%nat b) as (c & Hc & Heq); [lia|done|]. exists c. split; [lia|].
    rewrite <-Heq. f_equal. unfold SIMD_CHANNELS. lia.
  - by exists a.
Qed.

(** A chunk of channels is written whichever dispatch runs. *)
Lemma copy_chunk_spec dispatch a b : (a <= b)%nat -> (b <= channels)%nat ->
  copy_chunk dispatch source (N.of_nat a) (N.of_nat b) (rows_at (fun _ => a) rows0) =
  Ok (rows_at (fun _ => b) rows0).
Proof using All.
  intros Hab Hb. destruct dispatch; [by apply copy_scalar_channels_spec|]. unfold copy_chunk.
  edestruct (vector_blocks_spec (S (N.to_nat ((N.of_nat b - N.of_nat a) / SIMD_CHANNELS))) a b)
    as (c & Hc & ->); [done|done|]. cbn [mbind result_bind].
  apply copy_scalar_channels_spec; lia.
Qed.

Lemma channel_chunks_spec dispatch fuel : forall a, (a <= channels)%nat ->
  N.of_nat channels <= N.of_nat a + CANCELLATION_CHANNELS * N.of_nat fuel ->
  succeeds (channel_chunks fuel dispatch source (N.of_nat channels) (N.of_nat a)
              (rows_at (fun _ => a) rows0)) (fun rows => rows = rows_at (fun _ => channels) rows0).
Proof using All.
  induction fuel as [|fuel IH]; intros a Ha Hf; cbn [channel_chunks].
  { apply succeeds_ret. apply rows_at_ext. intros. lia. }
  destruct (N.of_nat a <? N.of_nat channels) eqn:E; bool_to_prop.
  2: { apply succeeds_ret. apply rows_at_ext. intros. lia. }
  run_step.
  set (e := N.min (saturating_add (N.of_nat a) CANCELLATION_CHANNELS) (N.of_nat channels)).
  assert (CANCELLATION_CHANNELS = 1808) as HT by done.
  assert (N.of_nat a < e <= N.of_nat channels /\
          (e = N.of_nat channels \/ e = N.of_nat a + CANCELLATION_CHANNELS)) as [He Hcase].
  { unfold e, saturating_add. clear -E Hfit Hsource HT. lia. }
  replace e with (N.of_nat (N.to_nat e)) by lia.
  run_step; [apply copy_chunk_spec; lia|]. apply IH; lia.
Qed.

Lemma OutputRows_split : OutputRows_new (concat rows0) (N.of_nat channels) = Ok rows0.
Proof using All.
  unfold OutputRows_new, ELEMENT_BYTES. rewrite checked_mul_ok by lia. cbn [ok_or mbind result_bind].
  change (N.to_nat SPATIAL_ELEMENTS) with 9%nat. rewrite <-Hrows.
  rewrite (split_rows_concat (N.of_nat channels * 2)); [done|].
  eapply Forall_impl; [exact Hrow|]. intros r Hr. unfold blen. simpl in Hr |- *. lia.
Qed.
End Rows.

(** ** Whole channels *)

Lemma rows_exist n m : forall bs : bytes, length bs = (n * m)%nat ->
  exists rows, length rows = n /\ Forall (fun r => length r = m) rows /\ concat rows = bs.
Proof.
  induction n as [|n IH]; intros bs Hl.
  { exists []. split_and!; [done|constructor|]. by destruct bs. }
  destruct (IH (drop m bs)) as (rows & Hn & Hr & Hc); [rewrite length_drop; lia|].
  exists (take m bs :: rows). split_and!; [simpl; lia| |].
  - constructor; [|done]. rewrite length_take. lia.
  - simpl. rewrite Hc. apply take_drop.
Qed.

Lemma ohwi_prefix_add w i s input n m :
  ohwi_prefix w i s input (n + m) =
  ohwi_prefix w i s input n ++
  map (fun k => element w (oihw_source i s (n + N.of_nat k)) input) (seq 0 (N.to_nat m)).
Proof.
  unfold ohwi_prefix. rewrite N2Nat.inj_add, seq_app, map_app. f_equal.
  rewrite Nat.add_0_l. rewrite <-(Nat.add_0_r (N.to_nat n)) at 1. rewrite <-fmap_add_seq.
  change (map ?f (?h <$> ?l)) with (map f (map h l)). rewrite map_map.
  apply map_ext. intros k. do 3 f_equal. lia.
Qed.

Section Channels.
Context (o i : N) (input : bytes).
Context (Hlen : blen input = o * i * 9 * 2) (Hfit : blen input <= u64_MAX).

Let channel_bytes := i * 18.
Let prefix n := concat (ohwi_prefix 2 i 9 input n).
Let source oc := take (N.to_nat channel_bytes) (drop (N.to_nat (oc * channel_bytes)) input).

Lemma source_blen oc : oc < o -> blen (source oc) = i * 18.
Proof using All.
  intros Ho. unfold source, channel_bytes, blen in *. rewrite length_take, length_drop.
  assert ((oc + 1) * (i * 18) <= o * (i * 18)) by (apply N.mul_le_mono_r; lia). lia.
Qed.

(** The rows of a channel, in order, extend the OHWI prefix. *)
Lemma channel_rows_prefix oc k : oc < o -> (k <= 9)%nat ->
  prefix (oc * 9 * i) ++
    concat (map (fun s => concat (map (lane (source oc) s) (seq 0 (N.to_nat i)))) (seq 0 k)) =
  prefix ((oc * 9 + N.of_nat k) * i).
Proof using All.
  intros Ho. induction k as [|k IH]; intros Hk.
  { simpl. rewrite app_nil_r. f_equal. lia. }
  rewrite seq_S, map_app, concat_app. cbn [map concat]. rewrite app_nil_r, app_assoc, IH by lia.
  replace ((oc * 9 + N.of_nat (S k)) * i) with ((oc * 9 + N.of_nat k) * i + i) by lia.
  unfold prefix. rewrite ohwi_prefix_add, concat_app. do 2 f_equal.
  apply map_ext_in. intros ic Hic%in_seq. rewrite Nat.add_0_l, oihw_source_at by lia.
  unfold lane, source, element, channel_bytes. change (N.to_nat 2) with 2%nat.
  rewrite skipn_firstn_comm, firstn_firstn, drop_drop. f_equal; [lia|]. f_equal. lia.
Qed.

Lemma prefix_blen_ohwi n : n <= o * i * 9 -> blen (prefix n) = n * 2.
Proof using All.
  intros Hn. unfold prefix, blen. rewrite (concat_uniform_length _ 2), ohwi_prefix_length; [lia|].
  apply Forall_forall. intros x (p & -> & Hp%elem_of_seq)%list_elem_of_fmap.
  apply (element_length 2). rewrite Hlen.
  destruct (decide (i = 0)) as [->|Hi]; [lia|].
  pose proof (N.div_mod (N.of_nat p) i Hi) as Hd. pose proof (N.mod_lt (N.of_nat p) i Hi) as Hm.
  pose proof (N.div_mod (N.of_nat p / i) 9 ltac:(done)) as Hd9.
  pose proof (N.mod_lt (N.of_nat p / i) 9 ltac:(done)) as Hm9.
  unfold oihw_source. assert (N.of_nat p / i / 9 < o) as Hq.
  { apply N.Div0.div_lt_upper_bound, N.Div0.div_lt_upper_bound. lia. }
  pose proof (oihw_in_range o i 9 _ _ _ Hq Hm9 Hm). lia.
Qed.

Lemma permute_channel_spec dispatch output0 oc output :
  oc < o -> blen output0 = o * i * 9 * 2 ->
  output = prefix (oc * 9 * i) ++ drop (N.to_nat (oc * channel_bytes)) output0 ->
  succeeds (permute_channel dispatch input i (i * SOURCE_CHANNEL_BYTES) oc output)
    (fun out => out = prefix ((oc + 1) * 9 * i) ++ drop (N.to_nat ((oc + 1) * channel_bytes)) output0).
Proof using All.
  intros Ho Hl0 ->. unfold permute_channel, channel_range, SOURCE_CHANNEL_BYTES, SPATIAL_ELEMENTS,
    ELEMENT_BYTES. change (9 * 2) with 18. fold channel_bytes.
  assert ((oc + 1) * channel_bytes <= blen input) as Hend.
  { rewrite Hlen. unfold channel_bytes. replace (o * i * 9 * 2) with (o * (i * 18)) by lia.
    apply N.mul_le_mono_r. lia. }
  assert (oc * 9 * i <= o * i * 9) as Hpre.
  { replace (oc * 9 * i) with (oc * (i * 9)) by lia. replace (o * i * 9) with (o * (i * 9)) by lia.
    apply N.mul_le_mono_r. lia. }
  pose proof (prefix_blen_ohwi _ Hpre) as Hpb.
  assert (length (prefix (oc * 9 * i)) = N.to_nat (oc * channel_bytes)) as Hpl
    by (unfold blen, channel_bytes in *; lia).
  set (out0 := drop (N.to_nat (oc * channel_bytes)) output0).
  assert (length out0 = N.to_nat (blen input - oc * channel_bytes)) as Ho0.
  { unfold out0. rewrite length_drop. unfold blen in *. lia. }
  assert (forall bs, blen bs = blen input ->
    get_range bs (oc * channel_bytes, oc * channel_bytes + channel_bytes) =
    Some (take (N.to_nat channel_bytes) (drop (N.to_nat (oc * channel_bytes)) bs))) as Hget.
  { intros bs Hbs. unfold get_range. cbn [fst snd].
    assert ((oc * channel_bytes <=? oc * channel_bytes + channel_bytes) = true) as ->
      by (apply N.leb_le; lia).
    assert ((oc * channel_bytes + channel_bytes <=? blen bs) = true) as -> by (apply N.leb_le; lia).
    cbn [andb]. do 2 f_equal. lia. }
  run_step; [rewrite checked_mul_ok by lia; cbn [ok_or mbind result_bind];
    rewrite checked_add_ok by lia; reflexivity|]. cbn beta iota.
  run_step; [by rewrite (Hget input)|]. run_step.
  { rewrite Hget; [done|]. unfold blen in *. rewrite length_app. lia. }
  fold (source oc). rewrite <-Hpl, drop_app_length.
  destruct (rows_exist 9 (N.to_nat (2 * i)) (take (N.to_nat channel_bytes) out0))
    as (rows0 & Hn & Hr & Hc).
  { rewrite length_take. unfold channel_bytes in *. lia. }
  assert (Forall (fun r => length r = (2 * N.to_nat i)%nat) rows0) as Hr'.
  { eapply Forall_impl; [exact Hr|]. intros r E. simpl in E. lia. }
  pose proof (source_blen oc Ho) as Hsrc.
  assert (blen (source oc) = N.of_nat (N.to_nat i) * 18) as Hsrc' by lia.
  assert (blen (source oc) <= u64_MAX) as Hsf.
  { rewrite Hsrc. transitivity ((oc + 1) * channel_bytes); [unfold channel_bytes; lia|lia]. }
  rewrite <-Hc. run_step.
  { rewrite <-(N2Nat.id i). by apply (OutputRows_split (source oc) (N.to_nat i)). }
  pose proof (channel_chunks_spec (source oc) (N.to_nat i) Hsrc' Hsf rows0 Hn Hr' dispatch
    (S (N.to_nat (i / CANCELLATION_CHANNELS)) + 1) 0 ltac:(lia)) as Hchunks.
  assert (rows_at (source oc) (fun _ => 0%nat) rows0 = rows0) as Hzero.
  { apply list_eq. intros s. unfold rows_at, filled. rewrite list_lookup_imap.
    destruct (rows0 !! s); [cbn; by rewrite drop_0|done]. }
  rewrite Hzero, N2Nat.id in Hchunks. eapply succeeds_then; [apply Hchunks|].
  { assert (CANCELLATION_CHANNELS = 1808) as -> by done.
    pose proof (N.div_mod i 1808 ltac:(done)). pose proof (N.mod_lt i 1808 ltac:(done)). lia. }
  intros rows ->. run_step.
  replace ((oc + 1) * 9 * i) with ((oc * 9 + N.of_nat 9) * i) by lia.
  rewrite <-channel_rows_prefix by (done || lia). rewrite <-app_assoc.
  rewrite take_app_length. f_equal. f_equal.
  - assert (rows_at (source oc) (fun _ => N.to_nat i) rows0 =
            map (fun s => concat (map (lane (source oc) s) (seq 0 (N.to_nat i)))) (seq 0 9)) as ->; [|done].
    apply list_eq. intros s. unfold rows_at. rewrite list_lookup_imap.
    change (map ?f (seq 0 9)) with (f <$> seq 0 9). rewrite list_lookup_fmap.
    destruct (decide (s < 9)%nat) as [Hs|Hs].
    + rewrite lookup_seq_lt by done. destruct (lookup_lt_is_Some_2 rows0 s) as [r Hrs]; [lia|].
      rewrite Hrs. cbn. unfold filled. pose proof (proj1 (Forall_lookup _ _) Hr' s r Hrs) as Hrl.
      simpl in Hrl. rewrite (drop_ge r) by lia. by rewrite app_nil_r.
    + rewrite lookup_seq_ge by lia. by rewrite (lookup_ge_None_2 rows0) by lia.
  - rewrite drop_app_ge by lia. unfold out0. rewrite drop_drop. f_equal. lia.
Qed.

(** Both dispatches write the whole input in OHWI order. *)
Lemma permute_oihw_to_ohwi_3x3_u16_spec avx2 output :
  o <> 0 -> blen output = o * i * 9 * 2 ->
  succeeds (permute_oihw_to_ohwi_3x3_u16 avx2 input output o i)
    (fun out => out = prefix (o * i * 9)).
Proof using All.
  intros Ho Hlo. unfold permute_oihw_to_ohwi_3x3_u16, checked_lengths.
  assert (i * SOURCE_CHANNEL_BYTES = channel_bytes) as Hcb by done.
  assert (o * channel_bytes = o * i * 9 * 2) as Hob by (unfold channel_bytes; lia).
  assert (channel_bytes <= o * channel_bytes) as Hle.
  { rewrite <-(N.mul_1_l channel_bytes) at 1. apply N.mul_le_mono_r. lia. }
  run_step.
  { rewrite (checked_mul_ok i) by (rewrite Hcb; lia). cbn [ok_or mbind result_bind].
    rewrite Hcb, checked_mul_ok by lia. reflexivity. }
  cbn beta iota. rewrite Hob. run_step.
  { rewrite Hlen, Hlo, N.eqb_refl. reflexivity. }
  run_step. destruct (o * i * 9 * 2 =? 0) eqn:E; bool_to_prop.
  { run_step. assert (blen (prefix (o * i * 9)) = 0) as Hz by (rewrite prefix_blen_ohwi by lia; lia).
    unfold blen in *. destruct output; [|simpl in Hlo; lia]. by destruct (prefix _). }
  unfold permute_channels. rewrite <-Hcb. eapply succeeds_then.
  - apply (succeeds_for_range (fun oc out =>
      out = prefix (oc * 9 * i) ++ drop (N.to_nat (oc * channel_bytes)) output)); [lia| |].
    + rewrite !N.mul_0_l, drop_0. done.
    + intros oc out [_ Hoc] Hout. cbv beta. by apply permute_channel_spec.
  - intros out ->. run_step. run_step. rewrite drop_ge by (unfold blen in *; lia).
    rewrite app_nil_r. f_equal. lia.
Qed.
End Channels.

(** * The OIHW to OHWI fast path of the executor

    When the executor takes the fast path, the bytes it builds store the
    permuted tensor, as those of the element-wise kernel do. *)

(** A shape of four dimensions, and a coordinate in it. *)
Lemma in_shape_four o i h x c :
  in_shape [o; i; h; x] c -> exists co ci ch cx, c = [co; ci; ch; cx] /\
    co < o /\ ci < i /\ ch < h /\ cx < x.
Proof.
  intros H. unfold in_shape in H. apply Forall2_cons_inv_r in H as (co & c1 & Ho & H & ->).
  apply Forall2_cons_inv_r in H as (ci & c2 & Hi & H & ->).
  apply Forall2_cons_inv_r in H as (ch & c3 & Hh & H & ->).
  apply Forall2_cons_inv_r in H as (cx & c4 & Hx & H & ->).
  apply Forall2_nil_inv_r in H as ->. eauto 10.
Qed.

Section Oihw.
Context (fin fout : TensorFacts) (o i h x : N) (input : bytes) (T : tensor).
Context (Hwi : facts_wf fin) (Hwo : facts_wf fout).
Context (Hshape : logical_shape fin = [o; i; h; x]).
Context (Hcanon : storage_strides fin = row_strides [o; i; h; x] /\
                  storage_shape fin = [o; i; h; x]).
Context (Hls : logical_shape fout = [o; i; h; x]).
Context (Hss : storage_shape fout = [o; h; x; i]).
Context (Hstr : storage_strides fout = [h * (x * i); 1; x * i; i]).
Context (Hdt : facts_dtype fout = facts_dtype fin).
Context (Hrep : represents fin input T).

Let w := width fin.
Let s := h * x.

Lemma oihw_bytes : facts_byte_len fin = o * i * s * w /\ facts_byte_len fout = o * i * s * w.
Proof using All.
  rewrite (wf_bytes fin Hwi), (wf_bytes fout Hwo), Hss, (proj2 Hcanon).
  assert (width fout = w) as -> by (unfold w, width; by rewrite Hdt).
  fold w. unfold prodN, s; cbn [foldr]. split; f_equal; ring.
Qed.

Lemma ohwi_elements_uniform :
  Forall (fun e => length e = N.to_nat w) (ohwi_prefix w i s input (o * i * s)).
Proof using All.
  destruct oihw_bytes as [Hb _]. destruct Hrep as [Hl _].
  apply Forall_forall. intros e (p & -> & Hp%elem_of_seq)%list_elem_of_fmap.
  apply element_length. rewrite Hl, Hb.
  assert (i <> 0 /\ s <> 0) as [Hi Hs] by (split; intros E; rewrite E in Hp; lia).
  pose proof (N.div_mod (N.of_nat p) i Hi) as Hd. pose proof (N.mod_lt (N.of_nat p) i Hi) as Hm.
  pose proof (N.div_mod (N.of_nat p / i) s Hs) as Hds.
  pose proof (N.mod_lt (N.of_nat p / i) s Hs) as Hms.
  assert (N.of_nat p / i / s < o) as Hq.
  { apply N.Div0.div_lt_upper_bound, N.Div0.div_lt_upper_bound. lia. }
  pose proof (oihw_in_range o i s _ _ _ Hq Hms Hm) as Hr. unfold oihw_source.
  by apply N.mul_le_mono_r.
Qed.

Lemma oihw_represents :
  represents fout (concat (ohwi_prefix w i s input (o * i * s))) T.
Proof using All.
  destruct oihw_bytes as [Hb Hbo]. pose proof ohwi_elements_uniform as Hu.
  assert (width fout = w) as Hw by (unfold w, width; by rewrite Hdt). split.
  - unfold blen. rewrite (concat_uniform_length _ _ Hu), ohwi_prefix_length, Hbo. lia.
  - intros c Hc. rewrite Hls in Hc. rewrite Hw.
    assert (in_shape (logical_shape fin) c) as Hcin by (by rewrite Hshape).
    rewrite <-(proj2 Hrep c Hcin). unfold offset_of. rewrite Hstr, (proj1 Hcanon).
    destruct (in_shape_four _ _ _ _ _ Hc) as (co & ci & ch & cx & -> & Ho & Hi & Hh & Hx).
    set (sp := ch * x + cx). assert (sp < s) as Hsp.
    { unfold sp, s. assert ((ch + 1) * x <= h * x) by (apply N.mul_le_mono_r; lia). lia. }
    assert (dotN [co; ci; ch; cx] [h * (x * i); 1; x * i; i] = (co * s + sp) * i + ci) as ->.
    { unfold dotN, sumN, s, sp. cbn [zip_with foldr]. ring. }
    assert (dotN [co; ci; ch; cx] (row_strides [o; i; h; x]) = (co * i + ci) * s + sp) as ->.
    { unfold dotN, sumN, s, sp. cbn [zip_with foldr row_strides]. unfold prodN. cbn [foldr]. ring. }
    assert ((co * s + sp) * i + ci < o * i * s) as Hp.
    { assert ((co + 1) * s <= o * s) by (apply N.mul_le_mono_r; lia).
      assert ((co * s + sp + 1) * i <= o * s * i) by (apply N.mul_le_mono_r; lia). lia. }
    unfold element at 1.
    replace (N.to_nat (((co * s + sp) * i + ci) * w))
      with (N.to_nat ((co * s + sp) * i + ci) * N.to_nat w)%nat by lia.
    apply concat_uniform_element; [done|]. unfold ohwi_prefix.
    change (map ?f ?l) with (f <$> l). rewrite list_lookup_fmap, lookup_seq_lt by lia.
    cbn. rewrite N2Nat.id, oihw_source_at by done. done.
Qed.

(** Positive dimensions keep every partial product below the byte length. *)
Lemma oihw_partial : o * i * s <> 0 ->
  o <> 0 /\ h * x <= u64_MAX /\ i * (h * x) <= u64_MAX /\ o * (i * (h * x)) <= u64_MAX /\
  Forall (fun d => d <= usize_MAX) [o; i; h; x].
Proof using All.
  intros Hne. pose proof (wf_elements fin Hwi) as Hel. rewrite Hshape in Hel.
  unfold prodN in Hel. cbn [foldr] in Hel. rewrite N.mul_1_r in Hel.
  change usize_MAX with u64_MAX. unfold s in *.
  rewrite <-!N.neq_mul_0 in Hne. destruct Hne as [[Ho Hi] [Hh Hx]].
  assert (forall a b, a <> 0 -> b <= a * b) as Hle.
  { intros a b Ha. rewrite <-(N.mul_1_l b) at 1. apply N.mul_le_mono_r. lia. }
  pose proof (Hle o (i * (h * x)) Ho). pose proof (Hle i (h * x) Hi).
  pose proof (Hle h x Hh). pose proof (Hle x h Hx).
  assert (i * 1 <= i * (h * x)) by (apply N.mul_le_mono_l; rewrite N.mul_comm in H2; lia).
  assert (i * (h * x) <> 0) by (rewrite <-!N.neq_mul_0; tauto).
  assert (o * 1 <= o * (i * (h * x))) by (apply N.mul_le_mono_l; lia).
  split_and!; [done|lia|lia|lia|]. repeat constructor; lia.
Qed.
End Oihw.

Lemma build_oihw_to_ohwi_if_supported_spec avx2 p fin fout input T :
  facts_wf fin -> infer_permute p fin = Ok [fout] -> prodN (logical_shape fin) <> 0 ->
  facts_byte_len fout <= isize_MAX -> represents fin input T ->
  succeeds (build_oihw_to_ohwi_if_supported avx2 p fin fout input)
    (fun r => forall out, r = Some out ->
       (exists l, permute_mode p = Storage l) /\ represents fout out T).
Proof.
  intros Hwi Hinf Hne Hle Hrep. unfold build_oihw_to_ohwi_if_supported.
  destruct (permute_mode p) as [|l] eqn:Em; cbn [orb]; [by run_step|].
  destruct (bool_decide (permute_order p <> [0; 2; 3; 1])) eqn:Eo; cbn [orb]; [by run_step|].
  destruct (negb (is_canonical_contiguous fin)) eqn:Ec; cbn [orb]; [by run_step|].
  bool_to_prop. apply dec_stable in Eo. run_step.
  destruct (logical_shape fin) as [|o [|i [|h [|x []]]]] eqn:Esh; try by run_step.
  apply is_canonical_contiguous_true in Ec as (_ & Hss & _ & Hst & _). rewrite Esh in Hss, Hst.
  destruct (infer_permute_Ok _ _ _ Hinf) as (_ & _ & _ & f & [= <-] & Hwo & Hdt & Hmode).
  rewrite Em in Hmode. destruct Hmode as (Hls & _ & _). rewrite Esh in Hls.
  destruct (infer_permute_storage _ _ _ _ Hinf Em) as [Hstr Hsso]. rewrite Eo, Esh in Hstr, Hsso.
  change (map N.to_nat [0; 2; 3; 1]) with [0; 2; 3; 1]%nat in *.
  change (gather [0; 2; 3; 1]%nat [o; i; h; x]) with [o; h; x; i] in *.
  assert (storage_strides fout = [h * (x * i); 1; x * i; i]) as Hstr'.
  { cbn in Hstr. injection Hstr as <-.
    unfold prodN. cbn [foldr]. by rewrite !N.mul_1_r. }
  destruct (oihw_partial fin fout o i h x input T) as (Ho & Hs & His & Hel & Hdims);
    try done.
  { unfold prodN in Hne. cbn [foldr] in Hne. rewrite N.mul_1_r in Hne. by rewrite <-N.mul_assoc. }
  destruct (oihw_bytes fin fout o i h x input T) as [Hb Hbo]; try done.
  apply Forall_cons in Hdims as [Ho' Hdims]. apply Forall_cons in Hdims as [Hi' Hdims].
  apply Forall_cons in Hdims as [Hh' Hdims]. apply Forall_cons in Hdims as [Hx' _].
  unfold dimension_as_usize.
  do 4 (run_step; [apply usize_try_from_Ok; split; [reflexivity|done]|]).
  run_step.
  { unfold oihw_elements. rewrite checked_mul_ok by done. cbn [ok_or mbind result_bind].
    rewrite checked_mul_ok by done. cbn [ok_or mbind result_bind].
    rewrite checked_mul_ok by done. reflexivity. }
  cbn beta iota. run_step; [apply dtype_width_Ok|]. fold (width fin).
  replace (o * (i * (h * x)) * width fin) with (o * i * (h * x) * width fin) by lia.
  pose proof (wf_bytes_fit fin Hwi) as Hfit.
  run_step; [replace (o * (i * (h * x))) with (o * i * (h * x)) by lia;
    rewrite checked_mul_ok by lia; reflexivity|].
  run_step; [apply usize_try_from_Ok; split; [reflexivity|apply Hwo]|].
  pose proof (proj1 Hrep) as Hlen. run_step.
  { rewrite Hlen, Hb, Hbo, N.eqb_refl. reflexivity. }
  pose proof (oihw_represents fin fout o i h x input T Hwi Hwo Esh (conj Hst Hss) Hls Hsso Hstr' Hdt Hrep)
    as Hres.
  assert (blen input = o * i * (h * x) * width fin) as Hin by congruence.
  assert (blen input <= u64_MAX) as Hif by lia.
  destruct ((width fin =? 2) && (h * x =? 9) && _ && avx2) eqn:Esimd.
  - apply andb_true_iff in Esimd as [Esimd _]. apply andb_true_iff in Esimd as [Esimd _].
    apply andb_true_iff in Esimd as [Hw2%N.eqb_eq Hs9%N.eqb_eq].
    assert (blen input = o * i * 9 * 2) as Hin' by congruence.
    eapply succeeds_then; [by apply allocate_tensor_spec|]. intros output ->.
    eapply succeeds_then; [apply (permute_oihw_to_ohwi_3x3_u16_spec o i input Hin' Hif)|].
    + done.
    + unfold blen. rewrite length_replicate, N2Nat.id. congruence.
    + intros out ->. run_step. intros ? [= <-]. split; [by exists l|].
      by rewrite Hw2, Hs9 in Hres.
  - assert (bool_decide (width fin ∈ [1; 2; 4; 8]) = true) as ->.
    { unfold width. by destruct (facts_dtype fin). }
    eapply succeeds_then.
    + apply (build_oihw_to_ohwi_elements_spec (width fin) o i (h * x) input Hin Hif);
        [apply width_pos|]. congruence.
    + intros out ->. run_step. intros ? [= <-]. split; [by exists l|done].
Qed.
