(* ===== verification/Graph.v ===== *)
(** * Operation graphs of [operation.rs]

    Graph values, the incremental builder, the finished graph, its wire form
    and the alias analysis. [graph_wf] is the invariant of every graph the
    builder or the deserializer returns: well-formed input facts, unique input
    names, edges that point only to earlier values, and outputs that are
    exactly what inference computes. *)

From S2P Require Import Prelude Errors Tensor Identity Representation Strides Facts Operation.
From S2P Require Import InferSpecs.
Local Open Scope N_scope.

Definition OPERATION_GRAPH_SCHEMA_VERSION : N := 1.

Record InputId := input_from_ordinal { input_ordinal : N }.
Record NodeId := node_from_ordinal { node_ordinal : N }.
Record OutputIndex := output_from_ordinal { output_ordinal : N }.

Inductive ValueRef :=
  | Input (input : InputId)
  | NodeOutput (node : NodeId) (output : OutputIndex).

#[export] Instance InputId_eq_dec : EqDecision InputId.
Proof. solve_decision. Defined.
#[export] Instance NodeId_eq_dec : EqDecision NodeId.
Proof. solve_decision. Defined.
#[export] Instance OutputIndex_eq_dec : EqDecision OutputIndex.
Proof. solve_decision. Defined.
#[export] Instance ValueRef_eq_dec : EqDecision ValueRef.
Proof. solve_decision. Defined.
#[export] Instance ValueRef_countable : Countable ValueRef.
Proof.
  apply (inj_countable'
    (fun v => match v with
              | Input i => inl (input_ordinal i)
              | NodeOutput n o => inr (node_ordinal n, output_ordinal o)
              end)
    (fun x => match x with
              | inl i => Input (input_from_ordinal i)
              | inr (n, o) => NodeOutput (node_from_ordinal n) (output_from_ordinal o)
              end)).
  by intros [[] | [] []].
Defined.

Record OperationInput := {
  input_name : TensorName;
  input_facts : TensorFacts
}.

Record OperationNode := {
  node_implementation : ImplementationId;
  node_inputs : list ValueRef;
  node_operation : Operation;
  node_outputs : list TensorFacts
}.

Record OperationNodeWire := {
  wire_node_implementation : ImplementationId;
  wire_node_inputs : list ValueRef;
  wire_node_operation : Operation
}.

Record OperationGraphBuilder := {
  builder_inputs : list OperationInput;
  builder_input_names : gset TensorName;
  builder_nodes : list OperationNode
}.

Definition OperationGraphBuilder_new : OperationGraphBuilder :=
  {| builder_inputs := []; builder_input_names := ∅; builder_nodes := [] |}.

Record OperationGraph := {
  schema_version : N;
  graph_inputs : list OperationInput;
  graph_nodes : list OperationNode;
  graph_output : ValueRef
}.

#[export] Instance OperationInput_eq_dec : EqDecision OperationInput.
Proof. solve_decision. Defined.
#[export] Instance OperationNode_eq_dec : EqDecision OperationNode.
Proof. solve_decision. Defined.
#[export] Instance OperationGraph_eq_dec : EqDecision OperationGraph.
Proof. solve_decision. Defined.

(** The lookup both the builder and the graph implement: an ordinal that does
    not fit [usize] finds nothing, like one out of range. *)
Definition lookup_facts (inputs : list OperationInput) (nodes : list OperationNode)
    (value : ValueRef) : option TensorFacts :=
  match value with
  | Input i => input_facts <$> inputs !! N.to_nat (input_ordinal i)
  | NodeOutput n o =>
      node ← nodes !! N.to_nat (node_ordinal n);
      node_outputs node !! N.to_nat (output_ordinal o)
  end.

Definition builder_facts (b : OperationGraphBuilder) : ValueRef -> option TensorFacts :=
  lookup_facts (builder_inputs b) (builder_nodes b).

Definition graph_facts (g : OperationGraph) : ValueRef -> option TensorFacts :=
  lookup_facts (graph_inputs g) (graph_nodes g).

Definition add_input (b : OperationGraphBuilder) (name : TensorName) (facts : TensorFacts)
  : result (OperationGraphBuilder * ValueRef) :=
  _ ← reject (bool_decide (name ∈ builder_input_names b)) Binding;
  ordinal ← u32_try_from (N.of_nat (length (builder_inputs b)));
  mret ({| builder_inputs := builder_inputs b ++
             [{| input_name := name; input_facts := facts |}];
           builder_input_names := {[name]} ∪ builder_input_names b;
           builder_nodes := builder_nodes b |},
        Input (input_from_ordinal ordinal)).

Definition add_operation (b : OperationGraphBuilder) (implementation : ImplementationId)
    (o : Operation) (inputs : list ValueRef)
  : result (OperationGraphBuilder * list ValueRef) :=
  facts ← mapM (fun value => ok_or (builder_facts b value) Binding) inputs;
  outputs ← infer_outputs o facts;
  node_ordinal ← u32_try_from (N.of_nat (length (builder_nodes b)));
  output_count ← u32_try_from (N.of_nat (length outputs));
  mret ({| builder_inputs := builder_inputs b;
           builder_input_names := builder_input_names b;
           builder_nodes := builder_nodes b ++
             [{| node_implementation := implementation; node_inputs := inputs;
                 node_operation := o; node_outputs := outputs |}] |},
        map (fun output => NodeOutput (node_from_ordinal node_ordinal)
                             (output_from_ordinal (N.of_nat output)))
          (seq 0 (N.to_nat output_count))).

Definition build (b : OperationGraphBuilder) (output : ValueRef) : result OperationGraph :=
  _ ← reject (bool_decide (builder_facts b output = None)) Binding;
  mret {| schema_version := OPERATION_GRAPH_SCHEMA_VERSION; graph_inputs := builder_inputs b;
          graph_nodes := builder_nodes b; graph_output := output |}.

(** [unreachable!] when the validated output is missing. *)
Definition output_facts (g : OperationGraph) : result TensorFacts :=
  match graph_facts g (graph_output g) with Some f => Ok f | None => Panic end.

(** ** Aliases *)

Definition node_output_alias_input (g : OperationGraph) (node : OperationNode)
    (output_index : nat) : option nat :=
  if negb (output_index =? 0)%nat then None else
  match node_inputs node, node_outputs node with
  | [input], [output_facts] =>
      match node_operation node with
      | Op_Reshape _ => Some 0%nat
      | Op_Permute permute =>
          if is_identity_order (permute_order permute) &&
             bool_decide (graph_facts g input = Some output_facts)
          then Some 0%nat else None
      | _ => None
      end
  | _, _ => None
  end.

(** The loop of [output_input_alias]: every round moves to an input of the
    node it looks at, an earlier value. *)
Fixpoint alias_loop (fuel : nat) (g : OperationGraph) (value : ValueRef) : option nat :=
  match fuel with
  | O => None
  | S fuel =>
      match value with
      | Input i =>
          let index := N.to_nat (input_ordinal i) in
          if (index <? length (graph_inputs g))%nat then Some index else None
      | NodeOutput n o =>
          node ← graph_nodes g !! N.to_nat (node_ordinal n);
          input_index ← node_output_alias_input g node (N.to_nat (output_ordinal o));
          value ← node_inputs node !! input_index;
          alias_loop fuel g value
      end
  end.

Definition output_input_alias (g : OperationGraph) : option nat :=
  alias_loop (S (length (graph_nodes g))) g (graph_output g).

(** ** Wire form *)

Record OperationGraphWire := {
  wire_schema_version : N;
  wire_inputs : list OperationInput;
  wire_nodes : list OperationNodeWire;
  wire_output : ValueRef
}.

Definition OperationGraph_try_from (w : OperationGraphWire) : result OperationGraph :=
  _ ← reject (negb (wire_schema_version w =? OPERATION_GRAPH_SCHEMA_VERSION)) Binding;
  b ← try_fold (fun b input =>
        '(b, _) ← add_input b (input_name input) (input_facts input); mret b)
        OperationGraphBuilder_new (wire_inputs w);
  b ← try_fold (fun b node =>
        '(b, _) ← add_operation b (wire_node_implementation node)
                    (wire_node_operation node) (wire_node_inputs node); mret b)
        b (wire_nodes w);
  build b (wire_output w).

(** Serialization writes every field but the inferred outputs. *)
Definition node_serialize (n : OperationNode) : OperationNodeWire :=
  {| wire_node_implementation := node_implementation n;
     wire_node_inputs := node_inputs n; wire_node_operation := node_operation n |}.
Definition OperationGraph_serialize (g : OperationGraph) : OperationGraphWire :=
  {| wire_schema_version := schema_version g; wire_inputs := graph_inputs g;
     wire_nodes := map node_serialize (graph_nodes g); wire_output := graph_output g |}.
