(* ===== verification/GraphSpecs.v ===== *)
(** * The invariant of operation graphs

    Every graph the builder or the deserializer returns is well formed, and a
    well-formed graph survives serialization. *)

From S2P Require Import Prelude Errors Tensor Identity Representation Strides Facts Operation.
From S2P Require Import InferSpecs Graph.
Local Open Scope N_scope.

(** A node whose edges lead to values of [inputs] and [earlier] and whose
    outputs are the inferred ones. *)
Definition node_ok (inputs : list OperationInput) (earlier : list OperationNode)
    (node : OperationNode) : Prop :=
  N.of_nat (length (node_outputs node)) <= u32_MAX /\
  exists facts,
    Forall2 (fun value f => lookup_facts inputs earlier value = Some f) (node_inputs node) facts /\
    infer_outputs (node_operation node) facts = Ok (node_outputs node).

Record builder_wf (b : OperationGraphBuilder) : Prop := {
  wf_input_facts : Forall (fun i => facts_wf (input_facts i)) (builder_inputs b);
  wf_names : builder_input_names b = list_to_set (map input_name (builder_inputs b));
  wf_names_unique : NoDup (map input_name (builder_inputs b));
  wf_input_count : N.of_nat (length (builder_inputs b)) <= u32_MAX + 1;
  wf_node_count : N.of_nat (length (builder_nodes b)) <= u32_MAX + 1;
  wf_nodes : forall k node, builder_nodes b !! k = Some node ->
    node_ok (builder_inputs b) (take k (builder_nodes b)) node
}.

(** The builder state a finished graph came from. *)
Definition graph_builder (g : OperationGraph) : OperationGraphBuilder :=
  {| builder_inputs := graph_inputs g;
     builder_input_names := list_to_set (map input_name (graph_inputs g));
     builder_nodes := graph_nodes g |}.

Record graph_wf (g : OperationGraph) : Prop := {
  wf_schema : schema_version g = OPERATION_GRAPH_SCHEMA_VERSION;
  wf_builder : builder_wf (graph_builder g);
  wf_output : exists f, graph_facts g (graph_output g) = Some f
}.

(** ** Lookups are stable under extension *)

Lemma lookup_facts_app inputs nodes more_inputs more value f :
  lookup_facts inputs nodes value = Some f ->
  lookup_facts (inputs ++ more_inputs) (nodes ++ more) value = Some f.
Proof.
  destruct value as [i|n o]; simpl.
  - intros (x & Hx & ->)%fmap_Some. by rewrite (lookup_app_l_Some _ _ _ _ Hx).
  - intros (node & Hn & Ho)%bind_Some. by rewrite (lookup_app_l_Some _ _ _ _ Hn).
Qed.

Lemma lookup_facts_take inputs nodes k value f :
  lookup_facts inputs (take k nodes) value = Some f ->
  lookup_facts inputs nodes value = Some f.
Proof.
  intros H. rewrite <-(take_drop k nodes), <-(app_nil_r inputs). by apply lookup_facts_app.
Qed.

Lemma node_ok_app inputs nodes more_inputs more node :
  node_ok inputs nodes node -> node_ok (inputs ++ more_inputs) (nodes ++ more) node.
Proof.
  intros (Hc & facts & Hf & Hi). split; [done|]. exists facts. split; [|done].
  eapply Forall2_impl; [exact Hf|]. intros. by apply lookup_facts_app.
Qed.

(** ** The builder preserves the invariant *)

Lemma builder_new_wf : builder_wf OperationGraphBuilder_new.
Proof.
  constructor; simpl; [constructor|done|constructor|by vm_compute|by vm_compute|].
  intros k node Hk. by rewrite lookup_nil in Hk.
Qed.

Lemma add_input_Ok b name facts b' value :
  add_input b name facts = Ok (b', value) ->
  name ∉ builder_input_names b /\ N.of_nat (length (builder_inputs b)) <= u32_MAX /\
  b' = {| builder_inputs := builder_inputs b ++ [{| input_name := name; input_facts := facts |}];
          builder_input_names := {[name]} ∪ builder_input_names b;
          builder_nodes := builder_nodes b |} /\
  value = Input (input_from_ordinal (N.of_nat (length (builder_inputs b)))).
Proof.
  unfold add_input. intros H. apply bind_Ok in H as (? & Hn%reject_Ok & H).
  apply bind_Ok in H as (ord & Ho & H). injection H as <- <-.
  apply u32_try_from_Ok in Ho as [-> Ho]. bool_to_prop. auto.
Qed.

Lemma add_input_wf b name facts b' value :
  builder_wf b -> facts_wf facts -> add_input b name facts = Ok (b', value) -> builder_wf b'.
Proof.
  intros Hwf Hf (Hn & Hl & -> & ->)%add_input_Ok. constructor; simpl.
  - apply Forall_app. split; [apply Hwf|]. by rewrite Forall_singleton.
  - rewrite map_app, list_to_set_app_L, (wf_names b Hwf). simpl. set_solver.
  - rewrite map_app. apply NoDup_app. split_and!; [apply Hwf| |apply NoDup_singleton].
    intros x Hx ->%list_elem_of_singleton. apply Hn. rewrite (wf_names b Hwf).
    by apply elem_of_list_to_set.
  - rewrite length_app. simpl. lia.
  - apply Hwf.
  - intros k node Hk. rewrite <-(app_nil_r (take k _)). apply node_ok_app.
    by apply (wf_nodes b Hwf).
Qed.

Lemma add_operation_Ok b implementation o inputs b' values :
  add_operation b implementation o inputs = Ok (b', values) ->
  exists outputs,
    N.of_nat (length (builder_nodes b)) <= u32_MAX /\
    let node := {| node_implementation := implementation; node_inputs := inputs;
                   node_operation := o; node_outputs := outputs |} in
    node_ok (builder_inputs b) (builder_nodes b) node /\
    b' = {| builder_inputs := builder_inputs b; builder_input_names := builder_input_names b;
            builder_nodes := builder_nodes b ++ [node] |} /\
    values = map (fun j => NodeOutput (node_from_ordinal (N.of_nat (length (builder_nodes b))))
                             (output_from_ordinal (N.of_nat j))) (seq 0 (length outputs)).
Proof.
  unfold add_operation. intros H. apply bind_Ok in H as (facts & Hf & H).
  apply bind_Ok in H as (outputs & Hi & H). apply bind_Ok in H as (ord & Ho & H).
  apply bind_Ok in H as (count & Hc & H). injection H as <- <-. exists outputs.
  apply u32_try_from_Ok in Ho as [-> Ho]. apply u32_try_from_Ok in Hc as [-> Hc].
  split; [done|]. split_and!; [|done|].
  - split; [done|]. exists facts. split; [|done]. apply mapM_Ok in Hf.
    eapply Forall2_impl; [exact Hf|]. intros v f E. simpl in E. by apply ok_or_Ok in E.
  - by rewrite Nat2N.id.
Qed.

Lemma add_operation_wf b implementation o inputs b' values :
  builder_wf b -> add_operation b implementation o inputs = Ok (b', values) -> builder_wf b'.
Proof.
  intros Hwf (outputs & Hl & Hok & -> & _)%add_operation_Ok.
  constructor; simpl; try apply Hwf.
  - rewrite length_app. simpl. lia.
  - intros k node Hk. destruct (decide (k < length (builder_nodes b))%nat) as [Hlt|Hge].
    + rewrite lookup_app_l in Hk by done. rewrite take_app_le by lia.
      by apply (wf_nodes b Hwf).
    + rewrite lookup_app_r in Hk by lia.
      destruct (k - length (builder_nodes b))%nat as [|j] eqn:E; simplify_eq/=.
      rewrite take_app_ge, E, take_0, app_nil_r by lia. done.
Qed.

Lemma build_Ok b output g :
  build b output = Ok g ->
  (exists f, builder_facts b output = Some f) /\
  g = {| schema_version := OPERATION_GRAPH_SCHEMA_VERSION; graph_inputs := builder_inputs b;
         graph_nodes := builder_nodes b; graph_output := output |}.
Proof.
  unfold build. intros H. apply bind_Ok in H as (? & Hn%reject_Ok & H). injection H as <-.
  bool_to_prop. split; [|done]. destruct (builder_facts b output); [eauto|done].
Qed.

Lemma build_wf b output g : builder_wf b -> build b output = Ok g -> graph_wf g.
Proof.
  intros Hwf ([f Hf] & ->)%build_Ok. constructor; [done| |by exists f].
  unfold graph_builder. simpl. rewrite <-(wf_names b Hwf). by destruct b.
Qed.

(** ** Deserialization *)

Definition wire_step_input (b : OperationGraphBuilder) (input : OperationInput) :=
  '(b, _) ← add_input b (input_name input) (input_facts input); mret b.
Definition wire_step_node (b : OperationGraphBuilder) (node : OperationNodeWire) :=
  '(b, _) ← add_operation b (wire_node_implementation node)
              (wire_node_operation node) (wire_node_inputs node); mret b.

Lemma wire_inputs_wf inputs : forall b b',
  Forall (fun i => facts_wf (input_facts i)) inputs -> builder_wf b ->
  try_fold wire_step_input b inputs = Ok b' -> builder_wf b'.
Proof.
  induction inputs as [|i inputs IH]; intros b b' Hi Hb H; simpl in H; [by injection H as <-|].
  apply Forall_cons in Hi as [Hi Hin]. apply bind_Ok in H as (b1 & H1 & H).
  unfold wire_step_input in H1. apply bind_Ok in H1 as ([b2 v] & H1 & [= <-]).
  eapply IH; [done| |exact H]. by eapply add_input_wf.
Qed.

Lemma wire_nodes_wf nodes : forall b b',
  builder_wf b -> try_fold wire_step_node b nodes = Ok b' -> builder_wf b'.
Proof.
  induction nodes as [|n nodes IH]; intros b b' Hb H; simpl in H; [by injection H as <-|].
  apply bind_Ok in H as (b1 & H1 & H). unfold wire_step_node in H1.
  apply bind_Ok in H1 as ([b2 v] & H1 & [= <-]). eapply IH; [|exact H].
  by eapply add_operation_wf.
Qed.

Lemma try_from_wf w g :
  Forall (fun i => facts_wf (input_facts i)) (wire_inputs w) ->
  OperationGraph_try_from w = Ok g -> graph_wf g.
Proof.
  intros Hi H. unfold OperationGraph_try_from in H.
  apply bind_Ok in H as (? & _ & H). apply bind_Ok in H as (b1 & H1 & H).
  apply bind_Ok in H as (b2 & H2 & H). eapply build_wf; [|exact H].
  eapply wire_nodes_wf; [|exact H2]. by eapply wire_inputs_wf; [exact Hi|apply builder_new_wf|].
Qed.

Lemma wire_step_input_ok b i :
  input_name i ∉ builder_input_names b -> N.of_nat (length (builder_inputs b)) <= u32_MAX ->
  wire_step_input b i =
  Ok {| builder_inputs := builder_inputs b ++ [i];
        builder_input_names := {[input_name i]} ∪ builder_input_names b;
        builder_nodes := builder_nodes b |}.
Proof.
  intros Hn Hl. unfold wire_step_input, add_input, u32_try_from.
  rewrite bool_decide_eq_false_2 by done. apply N.leb_le in Hl. rewrite Hl. by destruct i.
Qed.

Lemma wire_step_node_ok b n :
  node_ok (builder_inputs b) (builder_nodes b) n ->
  N.of_nat (length (builder_nodes b)) <= u32_MAX ->
  wire_step_node b (node_serialize n) =
  Ok {| builder_inputs := builder_inputs b; builder_input_names := builder_input_names b;
        builder_nodes := builder_nodes b ++ [n] |}.
Proof.
  intros (Hc & facts & Hf & Hi) Hl. destruct n as [impl ins op outs]. simpl in *.
  assert (mapM (fun value => ok_or (builder_facts b value) Binding) ins = Ok facts) as Hm.
  { apply mapM_Ok. eapply Forall2_impl; [exact Hf|]. intros v f E. simpl in E.
    apply ok_or_Ok. exact E. }
  unfold wire_step_node, add_operation, u32_try_from. simpl. rewrite Hm. simpl. rewrite Hi. simpl.
  apply N.leb_le in Hl, Hc. rewrite Hl. simpl. by rewrite Hc.
Qed.

Lemma replay_inputs inputs : forall done_inputs,
  NoDup (map input_name (done_inputs ++ inputs)) ->
  N.of_nat (length (done_inputs ++ inputs)) <= u32_MAX + 1 ->
  try_fold wire_step_input
    {| builder_inputs := done_inputs;
       builder_input_names := list_to_set (map input_name done_inputs);
       builder_nodes := [] |} inputs =
  Ok {| builder_inputs := done_inputs ++ inputs;
        builder_input_names := list_to_set (map input_name (done_inputs ++ inputs));
        builder_nodes := [] |}.
Proof.
  induction inputs as [|i inputs IH]; intros pre Hn Hl; cbn [try_fold]; [by rewrite app_nil_r|].
  assert (input_name i ∉ (list_to_set (map input_name pre) : gset TensorName)) as Hi.
  { rewrite elem_of_list_to_set. intros Hin. rewrite map_app in Hn.
    apply NoDup_app in Hn as (_ & Hd & _). apply (Hd _ Hin). simpl. by left. }
  rewrite wire_step_input_ok; [cbn [mbind result_bind builder_inputs builder_input_names
    builder_nodes]|done|].
  2: { cbn [builder_inputs]. rewrite length_app in Hl. simpl in Hl. lia. }
  replace (pre ++ i :: inputs) with ((pre ++ [i]) ++ inputs) in * by (by rewrite <-app_assoc).
  rewrite <-IH by done. do 2 f_equal. rewrite map_app, list_to_set_app_L. simpl. set_solver.
Qed.

Lemma replay_nodes inputs names nodes : forall done_nodes,
  (forall k node, (done_nodes ++ nodes) !! k = Some node ->
     node_ok inputs (take k (done_nodes ++ nodes)) node) ->
  N.of_nat (length (done_nodes ++ nodes)) <= u32_MAX + 1 ->
  try_fold wire_step_node
    {| builder_inputs := inputs; builder_input_names := names; builder_nodes := done_nodes |}
    (map node_serialize nodes) =
  Ok {| builder_inputs := inputs; builder_input_names := names;
        builder_nodes := done_nodes ++ nodes |}.
Proof.
  induction nodes as [|n nodes IH]; intros pre Hok Hl; cbn [try_fold map]; [by rewrite app_nil_r|].
  assert (node_ok inputs pre n) as Hn.
  { rewrite <-(take_app_length pre (n :: nodes)). apply Hok. by rewrite lookup_app_r, Nat.sub_diag. }
  rewrite wire_step_node_ok; [cbn [mbind result_bind builder_inputs builder_input_names
    builder_nodes]|done|].
  2: { cbn [builder_nodes]. rewrite length_app in Hl. simpl in Hl. lia. }
  replace (pre ++ n :: nodes) with ((pre ++ [n]) ++ nodes) in * by (by rewrite <-app_assoc).
  by apply IH.
Qed.

(** The wire form of a well-formed graph deserializes to the graph itself:
    replayed inference finds the same outputs. *)
Lemma graph_roundtrip g :
  graph_wf g -> OperationGraph_try_from (OperationGraph_serialize g) = Ok g.
Proof.
  intros [Hs Hb [f Hf]]. unfold OperationGraph_try_from, OperationGraph_serialize. simpl.
  rewrite Hs. simpl. fold wire_step_input wire_step_node.
  pose proof (replay_inputs (graph_inputs g) []) as Hr. simpl in Hr.
  unfold OperationGraphBuilder_new.
  rewrite Hr by (apply Hb). clear Hr. simpl.
  pose proof (replay_nodes (graph_inputs g) (list_to_set (map input_name (graph_inputs g)))
                (graph_nodes g) []) as Hr. simpl in Hr.
  rewrite Hr by (apply Hb). simpl. unfold build, builder_facts. simpl.
  unfold graph_facts in Hf. rewrite Hf. rewrite bool_decide_eq_false_2 by done. simpl.
  destruct g. simpl in *. by subst.
Qed.

(** ** Values of a well-formed graph *)

(** Every available value has well-formed facts. *)
Lemma lookup_facts_wf inputs nodes value f :
  Forall (fun i => facts_wf (input_facts i)) inputs ->
  (forall k node, nodes !! k = Some node -> node_ok inputs (take k nodes) node) ->
  lookup_facts inputs nodes value = Some f -> facts_wf f.
Proof.
  intros Hin Hok. destruct value as [i|n o]; simpl.
  { intros (x & Hx & ->)%fmap_Some. rewrite Forall_forall in Hin. apply Hin.
    by eapply list_elem_of_lookup_2. }
  intros (node & Hn & Ho)%bind_Some. revert node Hn o f Ho.
  induction (N.to_nat (node_ordinal n)) as [k IH] using lt_wf_ind. intros node Hn o f Ho.
  destruct (Hok k node Hn) as (_ & facts & Hf & Hi).
  apply infer_outputs_wf in Hi as [Hall _].
  2: { apply Forall_forall. intros g (j & Hj)%list_elem_of_lookup.
    destruct (Forall2_lookup_r _ _ _ _ _ Hf Hj) as (v & _ & Hv).
    destruct v as [i'|n' o']; simpl in Hv.
    - apply fmap_Some in Hv as (x & Hx & ->). rewrite Forall_forall in Hin. apply Hin.
      by eapply list_elem_of_lookup_2.
    - apply bind_Some in Hv as (node' & Hn' & Ho'). apply lookup_take_Some in Hn' as [Hn' Hlt].
      by eapply IH. }
  rewrite Forall_forall in Hall. apply Hall. by eapply list_elem_of_lookup_2.
Qed.

Lemma graph_facts_wf g value f : graph_wf g -> graph_facts g value = Some f -> facts_wf f.
Proof.
  intros [_ Hb _]. apply lookup_facts_wf; apply Hb.
Qed.

(** The inputs of a node of a graph: their facts, and that they are earlier. *)
Lemma graph_node_ok g k node :
  graph_wf g -> graph_nodes g !! k = Some node ->
  exists facts,
    Forall2 (fun v f => lookup_facts (graph_inputs g) (take k (graph_nodes g)) v = Some f /\
                        graph_facts g v = Some f /\ facts_wf f) (node_inputs node) facts /\
    infer_outputs (node_operation node) facts = Ok (node_outputs node) /\
    N.of_nat (length (node_outputs node)) <= u32_MAX.
Proof.
  intros Hg Hk. destruct (wf_nodes _ (wf_builder g Hg) k node Hk) as (Hc & facts & Hf & Hi).
  exists facts. split_and!; [|done|done]. eapply Forall2_impl; [exact Hf|].
  intros v f E. simpl in E. pose proof (lookup_facts_take _ _ _ _ _ E) as E'.
  split_and!; [done|done|]. by eapply graph_facts_wf.
Qed.

(** ** Aliases *)

(** An aliasing output is an unmodified view of its node's only input. *)
Lemma node_alias_input g k node j i :
  graph_wf g -> graph_nodes g !! k = Some node -> node_output_alias_input g node j = Some i ->
  j = 0%nat /\ i = 0%nat /\
  exists input fin fout, node_inputs node = [input] /\ node_outputs node = [fout] /\
    lookup_facts (graph_inputs g) (take k (graph_nodes g)) input = Some fin /\
    graph_facts g input = Some fin /\ facts_wf fin /\
    infer_outputs (node_operation node) [fin] = Ok [fout] /\
    ((exists r, node_operation node = Op_Reshape r) \/
     (exists p, node_operation node = Op_Permute p /\
        is_identity_order (permute_order p) = true /\ fout = fin)).
Proof.
  intros Hg Hk H. unfold node_output_alias_input in H.
  destruct (j =? 0)%nat eqn:Ej; [|done]. apply Nat.eqb_eq in Ej as ->. simpl in H.
  destruct (graph_node_ok g k node Hg Hk) as (facts & Hf & Hi & _).
  destruct (node_inputs node) as [|input [|]]; try done.
  destruct (node_outputs node) as [|fout [|]]; try done.
  inversion Hf as [|? fin ? ? (Hl & Hgf & Hw) Hnil]; subst. inversion Hnil; subst.
  destruct (node_operation node) as [|p| | | |r|] eqn:Eop; try done.
  - destruct (is_identity_order (permute_order p) && _) eqn:E; [|done]. injection H as <-.
    bool_to_prop. rewrite Hgf in *. simplify_eq/=. split_and!; try done.
    exists input, fout, fout. split_and!; try done. right. eauto.
  - injection H as <-. split_and!; try done. exists input, fin, fout. split_and!; eauto.
Qed.

(** The number of nodes a value may depend on. *)
Definition value_depth (v : ValueRef) : nat :=
  match v with
  | Input _ => 0
  | NodeOutput n _ => S (N.to_nat (node_ordinal n))
  end.

(** The alias walk ends: more fuel than the depth of the value changes
    nothing. *)
Lemma alias_loop_fuel g fuel fuel' v :
  graph_wf g -> (value_depth v < fuel)%nat -> (value_depth v < fuel')%nat ->
  alias_loop fuel g v = alias_loop fuel' g v.
Proof.
  intros Hg. revert fuel' v. induction fuel as [|fuel IH]; intros fuel' v Hv Hv'; [lia|].
  destruct fuel' as [|fuel']; [lia|]. simpl. destruct v as [i|n o]; [done|].
  destruct (graph_nodes g !! N.to_nat (node_ordinal n)) as [node|] eqn:En; [|done]. simpl.
  destruct (node_output_alias_input g node _) as [i|] eqn:Ea; [|done]. simpl.
  destruct (node_alias_input g _ _ _ _ Hg En Ea)
    as (_ & -> & input & fin & fout & Hin & _ & Hl & _).
  rewrite Hin. simpl. simpl in Hv, Hv'.
  assert (value_depth input <= N.to_nat (node_ordinal n))%nat as Hd.
  { destruct input as [i'|n' o']; simpl; [lia|]. simpl in Hl.
    apply bind_Some in Hl as (? & Hn' & _). apply lookup_take_Some in Hn' as [_ ?]. lia. }
  apply IH; lia.
Qed.
