(* ===== verification/Liveness.v ===== *)
(** * Liveness accounting of [operation.rs]

    [LivenessSchedule] counts the remaining uses of every graph value, the
    values that are live and the allocations they share, and tracks the live
    and peak byte totals. [estimate_host_scratch_bytes] runs it over a graph
    without executing anything. *)

From S2P Require Import Prelude Errors Tensor Identity Representation Strides Facts Operation.
From S2P Require Import InferSpecs Graph.
Local Open Scope N_scope.

Record LiveValue := { live_allocation : option N }.

Record LiveAllocation := {
  allocation_bytes : N;
  references : N
}.

Record LivenessSchedule := {
  remaining_uses : gmap ValueRef N;
  values : gmap ValueRef LiveValue;
  allocations : gmap N LiveAllocation;
  next_allocation : N;
  live_bytes : N;
  peak_bytes : N
}.

Definition index_as_u32 (i : nat) : result N := u32_try_from (N.of_nat i).

Definition increment_count (counts : gmap ValueRef N) (value : ValueRef)
  : result (gmap ValueRef N) :=
  count ← ok_or (checked_add (default 0 (counts !! value)) 1) ResourceLimit;
  mret (<[value := count]> counts).

Definition schedule_input (values : gmap ValueRef LiveValue) (input_index : nat)
  : result (gmap ValueRef LiveValue) :=
  input ← index_as_u32 input_index;
  mret (<[Input (input_from_ordinal input) := {| live_allocation := None |}]> values).

Definition LivenessSchedule_new (g : OperationGraph) : result LivenessSchedule :=
  uses ← try_fold (fun uses node => try_fold increment_count uses (node_inputs node))
           ∅ (graph_nodes g);
  uses ← increment_count uses (graph_output g);
  vs ← try_fold schedule_input ∅ (seq 0 (length (graph_inputs g)));
  mret {| remaining_uses := uses; values := vs; allocations := ∅; next_allocation := 0;
          live_bytes := 0; peak_bytes := 0 |}.

Definition create_allocation (s : LivenessSchedule) (bytes : N) : result (LivenessSchedule * N) :=
  let allocation := next_allocation s in
  next ← ok_or (checked_add (next_allocation s) 1) ResourceLimit;
  live ← ok_or (checked_add (live_bytes s) bytes) ResourceLimit;
  mret ({| remaining_uses := remaining_uses s; values := values s;
           allocations := <[allocation := {| allocation_bytes := bytes; references := 0 |}]>
                            (allocations s);
           next_allocation := next; live_bytes := live;
           peak_bytes := N.max (peak_bytes s) live |}, allocation).

Definition add_reference (allocations : gmap N LiveAllocation) (allocation : N)
  : result (gmap N LiveAllocation) :=
  state ← ok_or (allocations !! allocation) Integrity;
  n ← ok_or (checked_add (references state) 1) ResourceLimit;
  mret (<[allocation := {| allocation_bytes := allocation_bytes state; references := n |}]>
          allocations).

Definition insert_value (s : LivenessSchedule) (value : ValueRef) (allocation : option N)
  : result LivenessSchedule :=
  _ ← reject (bool_decide (is_Some (values s !! value))) Integrity;
  allocs ← match allocation with
           | Some a => add_reference (allocations s) a
           | None => mret (allocations s)
           end;
  mret {| remaining_uses := remaining_uses s;
          values := <[value := {| live_allocation := allocation |}]> (values s);
          allocations := allocs; next_allocation := next_allocation s;
          live_bytes := live_bytes s; peak_bytes := peak_bytes s |}.

Definition observe_transient (s : LivenessSchedule) (scratch : N) : result LivenessSchedule :=
  with_scratch ← ok_or (checked_add (live_bytes s) scratch) ResourceLimit;
  mret {| remaining_uses := remaining_uses s; values := values s; allocations := allocations s;
          next_allocation := next_allocation s; live_bytes := live_bytes s;
          peak_bytes := N.max (peak_bytes s) with_scratch |}.

(** Drops a value, and its allocation with the last reference to it. *)
Definition remove_value (s : LivenessSchedule) (value : ValueRef) : result LivenessSchedule :=
  live ← ok_or (values s !! value) Integrity;
  let vs := delete value (values s) in
  match live_allocation live with
  | None =>
      mret {| remaining_uses := remaining_uses s; values := vs; allocations := allocations s;
              next_allocation := next_allocation s; live_bytes := live_bytes s;
              peak_bytes := peak_bytes s |}
  | Some allocation =>
      state ← ok_or (allocations s !! allocation) Integrity;
      n ← ok_or (checked_sub (references state) 1) Integrity;
      if n =? 0 then
        live ← ok_or (checked_sub (live_bytes s) (allocation_bytes state)) Integrity;
        mret {| remaining_uses := remaining_uses s; values := vs;
                allocations := delete allocation (allocations s);
                next_allocation := next_allocation s; live_bytes := live;
                peak_bytes := peak_bytes s |}
      else
        mret {| remaining_uses := remaining_uses s; values := vs;
                allocations := <[allocation := {| allocation_bytes := allocation_bytes state;
                                                  references := n |}]> (allocations s);
                next_allocation := next_allocation s; live_bytes := live_bytes s;
                peak_bytes := peak_bytes s |}
  end.

(** Whether the last use of the value was consumed. *)
Definition consume_value (s : LivenessSchedule) (value : ValueRef)
  : result (LivenessSchedule * bool) :=
  uses ← ok_or (remaining_uses s !! value) Integrity;
  uses ← ok_or (checked_sub uses 1) Integrity;
  let s := {| remaining_uses := <[value := uses]> (remaining_uses s); values := values s;
              allocations := allocations s; next_allocation := next_allocation s;
              live_bytes := live_bytes s; peak_bytes := peak_bytes s |} in
  if uses =? 0 then s ← remove_value s value; mret (s, true)
  else mret (s, false).

Definition consume_inputs (s : LivenessSchedule) (inputs : list ValueRef)
  : result LivenessSchedule :=
  try_fold (fun s input => '(s, _) ← consume_value s input; mret s) s inputs.

Definition uses_left (s : LivenessSchedule) (value : ValueRef) : N :=
  default 0 (remaining_uses s !! value).

Definition remove_unused (s : LivenessSchedule) (vs : list ValueRef) : result LivenessSchedule :=
  try_fold (fun s value => if uses_left s value =? 0 then remove_value s value else mret s) s vs.

Definition scratch_excluding_output (s : LivenessSchedule) (output : ValueRef) : result N :=
  let output_bytes :=
    default 0 (live ← values s !! output;
               allocation ← live_allocation live;
               allocation_bytes <$> allocations s !! allocation) in
  ok_or (checked_sub (peak_bytes s) output_bytes) Integrity.

(** ** The estimate *)

Definition node_value (node_index output_index : N) : ValueRef :=
  NodeOutput (node_from_ordinal node_index) (output_from_ordinal output_index).

(** The declared transient scratch of an operation. *)
Definition declared_scratch (o : Operation) : N :=
  match o with Op_Prepare t => transform_scratch_bytes t | _ => 0 end.

Definition estimate_output (g : OperationGraph) (node : OperationNode) (node_id : N)
    (st : LivenessSchedule * list ValueRef) (x : nat * TensorFacts)
  : result (LivenessSchedule * list ValueRef) :=
  let '(s, produced) := st in
  let '(output_index, facts) := x in
  output ← index_as_u32 output_index;
  let value := node_value node_id output in
  '(s, allocation) ←
    match node_output_alias_input g node output_index with
    | Some input_index =>
        input ← ok_or (node_inputs node !! input_index) Integrity;
        live ← ok_or (values s !! input) Integrity;
        mret (s, live_allocation live)
    | None =>
        '(s, a) ← create_allocation s (facts_byte_len facts);
        mret (s, Some a)
    end;
  s ← insert_value s value allocation;
  mret (s, produced ++ [value]).

Definition estimate_node (g : OperationGraph) (s : LivenessSchedule)
    (x : nat * OperationNode) : result LivenessSchedule :=
  let '(node_index, node) := x in
  node_id ← index_as_u32 node_index;
  '(s, produced) ← try_fold (estimate_output g node node_id) (s, [])
                     (enumerate (node_outputs node));
  s ← observe_transient s (declared_scratch (node_operation node));
  s ← consume_inputs s (node_inputs node);
  remove_unused s produced.

Definition estimate_host_scratch_bytes (g : OperationGraph) : result N :=
  s ← LivenessSchedule_new g;
  s ← try_fold (estimate_node g) s (enumerate (graph_nodes g));
  scratch_excluding_output s (graph_output g).
