(* ===== verification/LivenessSpecs.v ===== *)
(** * The liveness accounting is exact

    [ledger] relates the allocations to the live values that share them, and
    [tracks] relates the use counts to the uses still to come. Every operation
    of the schedule preserves both and fails only when a 64-bit counter
    overflows. *)

From S2P Require Import Prelude Errors Tensor Identity Representation Strides Facts Operation InferSpecs Graph.
From S2P Require Import GraphSpecs Liveness.
Local Open Scope N_scope.

(** The bytes of all live allocations. *)
Definition alloc_total (m : gmap N LiveAllocation) : N :=
  map_fold (fun _ al acc => allocation_bytes al + acc) 0 m.

(** The live values that share an allocation. *)
Definition holders (vs : gmap ValueRef LiveValue) (a : N) : gmap ValueRef LiveValue :=
  filter (fun x => live_allocation x.2 = Some a) vs.

(** Allocations are those of live values, counted once each; [loose] is the
    allocation created for a value that is not inserted yet. *)
Record ledger (loose : option N) (s : LivenessSchedule) : Prop := {
  ledger_references : forall a al, allocations s !! a = Some al ->
    references al = N.of_nat (size (holders (values s) a));
  ledger_used : forall a al, allocations s !! a = Some al -> Some a <> loose ->
    references al <> 0;
  ledger_known : forall v lv a, values s !! v = Some lv -> live_allocation lv = Some a ->
    is_Some (allocations s !! a);
  ledger_fresh : forall a, is_Some (allocations s !! a) -> a < next_allocation s;
  ledger_live : live_bytes s = alloc_total (allocations s);
  ledger_peak : live_bytes s <= peak_bytes s
}.

(** The number of uses of a value in a list of uses to come. *)
Definition uses_in (v : ValueRef) (uses : list ValueRef) : nat := count_occ ValueRef_eq_dec uses v.
#[global] Arguments uses_in : simpl never.

(** [all]: every use of the graph; [pending]: the uses still to come;
    [created]: the values made so far; [grace]: values kept without a use. *)
Record tracks (all pending : list ValueRef) (created grace : gset ValueRef)
    (s : LivenessSchedule) : Prop := {
  tracks_uses : forall v, remaining_uses s !! v =
    if decide (v ∈ all) then Some (N.of_nat (uses_in v pending)) else None;
  tracks_live : forall v, is_Some (values s !! v) <-> v ∈ created /\ (v ∈ pending \/ v ∈ grace)
}.

(** ** Use lists *)

Lemma uses_in_pos v uses : v ∈ uses <-> (0 < uses_in v uses)%nat.
Proof. rewrite list_elem_of_In. apply count_occ_In. Qed.

Lemma uses_in_cons v x uses :
  uses_in v (x :: uses) = ((if decide (x = v) then 1 else 0) + uses_in v uses)%nat.
Proof. unfold uses_in. simpl. destruct (ValueRef_eq_dec x v), (decide (x = v)); done. Qed.

Lemma uses_in_le v uses : (uses_in v uses <= length uses)%nat.
Proof. unfold uses_in. apply count_occ_bound. Qed.

(** ** Allocation totals *)

Lemma alloc_total_insert m a al :
  m !! a = None -> alloc_total (<[a := al]> m) = allocation_bytes al + alloc_total m.
Proof. intros. unfold alloc_total. rewrite map_fold_insert_L; [done|intros; lia|done]. Qed.

Lemma alloc_total_delete m a al :
  m !! a = Some al -> alloc_total m = allocation_bytes al + alloc_total (delete a m).
Proof.
  intros H. rewrite <-(alloc_total_insert (delete a m) a al) by apply lookup_delete_eq.
  by rewrite insert_delete_id.
Qed.

Lemma alloc_total_update m a al al' :
  m !! a = Some al -> allocation_bytes al' = allocation_bytes al ->
  alloc_total (<[a := al']> m) = alloc_total m.
Proof.
  intros H E. rewrite (alloc_total_delete m a al H), <-E, <-insert_delete_eq.
  apply alloc_total_insert, lookup_delete_eq.
Qed.

(** ** Holders *)

Lemma holders_insert_same vs v lv a :
  vs !! v = None -> live_allocation lv = Some a ->
  size (holders (<[v := lv]> vs) a) = S (size (holders vs a)).
Proof.
  intros Hv Ha. unfold holders. rewrite map_filter_insert_True by done.
  apply map_size_insert_None. by rewrite map_lookup_filter, Hv.
Qed.

Lemma holders_insert_other vs v lv a :
  vs !! v = None -> live_allocation lv <> Some a ->
  holders (<[v := lv]> vs) a = holders vs a.
Proof.
  intros Hv Ha. unfold holders. apply map_filter_insert_not'; [done|].
  intros y Hy. congruence.
Qed.

Lemma holders_delete_same vs v lv a :
  vs !! v = Some lv -> live_allocation lv = Some a ->
  size (holders vs a) = S (size (holders (delete v vs) a)).
Proof.
  intros Hv Ha. rewrite <-(holders_insert_same _ v lv) by (done || apply lookup_delete_eq).
  by rewrite insert_delete_id.
Qed.

Lemma holders_delete_other vs v lv a :
  vs !! v = Some lv -> live_allocation lv <> Some a ->
  holders (delete v vs) a = holders vs a.
Proof.
  intros Hv Ha. rewrite <-(holders_insert_other (delete v vs) v lv)
    by (done || apply lookup_delete_eq). by rewrite insert_delete_id.
Qed.

Lemma holders_size vs a : (size (holders vs a) <= size vs)%nat.
Proof. unfold holders. rewrite <-!size_dom. apply subseteq_size, dom_filter_subseteq. Qed.

(** ** Operations *)

Lemma create_allocation_spec s bytes :
  ledger None s -> next_allocation s + 1 <= u64_MAX -> live_bytes s + bytes <= u64_MAX ->
  exists s', create_allocation s bytes = Ok (s', next_allocation s) /\
    ledger (Some (next_allocation s)) s' /\ values s' = values s /\
    remaining_uses s' = remaining_uses s /\ next_allocation s' = next_allocation s + 1 /\
    live_bytes s' = live_bytes s + bytes /\ is_Some (allocations s' !! next_allocation s) /\
    peak_bytes s' = N.max (peak_bytes s) (live_bytes s + bytes).
Proof.
  intros [Hr Hu Hk Hf Hl Hp] Hn Hb. unfold create_allocation.
  rewrite checked_add_ok by done. simpl. rewrite checked_add_ok by done. simpl.
  eexists. split; [done|].
  assert (allocations s !! next_allocation s = None) as Hnone.
  { apply eq_None_not_Some. intros H%Hf. lia. }
  assert (holders (values s) (next_allocation s) = ∅) as Hh.
  { apply map_empty_filter_2. intros v lv Hv Ha. simpl in Ha.
    destruct (Hk v lv _ Hv Ha) as [al Hal]. congruence. }
  split_and!; simpl; [|done..|by rewrite lookup_insert_eq|done]. constructor; simpl.
  - intros a al Ha. destruct (decide (a = next_allocation s)) as [->|Hne].
    + rewrite lookup_insert_eq in Ha. injection Ha as <-. simpl. by rewrite Hh, map_size_empty.
    + rewrite lookup_insert_ne in Ha by done. by apply Hr.
  - intros a al Ha Hne. rewrite lookup_insert_ne in Ha by congruence. by apply (Hu a).
  - intros v lv a Hv Ha. destruct (decide (a = next_allocation s)) as [->|Hne].
    + rewrite lookup_insert_eq. eauto.
    + rewrite lookup_insert_ne by done. by eapply Hk.
  - intros a Ha. destruct (decide (a = next_allocation s)) as [->|Hne]; [lia|].
    rewrite lookup_insert_ne in Ha by done. specialize (Hf a Ha). lia.
  - rewrite alloc_total_insert by done. simpl. lia.
  - lia.
Qed.

Lemma insert_value_spec loose s v allocation :
  ledger loose s -> values s !! v = None -> (loose = None \/ loose = allocation) ->
  (forall a, allocation = Some a -> is_Some (allocations s !! a)) ->
  N.of_nat (size (values s)) + 1 <= u64_MAX ->
  exists s', insert_value s v allocation = Ok s' /\ ledger None s' /\
    values s' = <[v := {| live_allocation := allocation |}]> (values s) /\
    remaining_uses s' = remaining_uses s /\ next_allocation s' = next_allocation s /\
    live_bytes s' = live_bytes s /\ peak_bytes s' = peak_bytes s.
Proof.
  intros [Hr Hu Hk Hf Hl Hp] Hv Hloose Halloc Hsize. unfold insert_value.
  rewrite bool_decide_eq_false_2 by (rewrite Hv; intros []; done). simpl.
  destruct allocation as [a|]; simpl.
  - destruct (Halloc a eq_refl) as [al Hal]. unfold add_reference. rewrite Hal. simpl.
    pose proof (Hr a al Hal) as Hra. pose proof (holders_size (values s) a) as Hhs.
    rewrite checked_add_ok by lia. simpl. eexists. split; [done|].
    split_and!; simpl; try done. constructor; simpl.
    + intros b bl Hb. destruct (decide (b = a)) as [->|Hne].
      * rewrite lookup_insert_eq in Hb. injection Hb as <-. simpl.
        rewrite holders_insert_same by done. lia.
      * rewrite lookup_insert_ne in Hb by done. rewrite holders_insert_other by naive_solver.
        by apply Hr.
    + intros b bl Hb _. destruct (decide (b = a)) as [->|Hne].
      * rewrite lookup_insert_eq in Hb. injection Hb as <-. simpl. lia.
      * rewrite lookup_insert_ne in Hb by done. apply (Hu b); [done|]. naive_solver.
    + intros w lw b Hw Hb. rewrite lookup_insert_is_Some. destruct (decide (a = b)); [by left|].
      right. split; [done|]. destruct (decide (w = v)) as [->|].
      * rewrite lookup_insert_eq in Hw. simplify_eq/=.
      * rewrite lookup_insert_ne in Hw by done. by eapply Hk.
    + intros b [<-|[_ Hb]]%lookup_insert_is_Some; apply Hf; eauto.
    + rewrite (alloc_total_update _ _ al) by done. done.
    + done.
  - eexists. split; [done|]. split_and!; simpl; try done. constructor; simpl; auto.
    + intros b bl Hb. rewrite holders_insert_other by done. by apply Hr.
    + intros b bl Hb _. apply (Hu b); [done|]. naive_solver.
    + intros w lw b Hw Hb. destruct (decide (w = v)) as [->|].
      * rewrite lookup_insert_eq in Hw. by simplify_eq/=.
      * rewrite lookup_insert_ne in Hw by done. by eapply Hk.
Qed.

Lemma observe_transient_spec s scratch :
  ledger None s -> live_bytes s + scratch <= u64_MAX ->
  exists s', observe_transient s scratch = Ok s' /\ ledger None s' /\ values s' = values s /\
    remaining_uses s' = remaining_uses s /\ next_allocation s' = next_allocation s /\
    live_bytes s' = live_bytes s /\ peak_bytes s' = N.max (peak_bytes s) (live_bytes s + scratch).
Proof.
  intros [Hr Hu Hk Hf Hl Hp] Hs. unfold observe_transient. rewrite checked_add_ok by done.
  simpl. eexists. split; [done|]. split_and!; simpl; try done. constructor; simpl; auto. lia.
Qed.

Lemma remove_value_spec s v lv :
  ledger None s -> values s !! v = Some lv ->
  exists s', remove_value s v = Ok s' /\ ledger None s' /\ values s' = delete v (values s) /\
    remaining_uses s' = remaining_uses s /\ next_allocation s' = next_allocation s /\
    live_bytes s' <= live_bytes s /\ peak_bytes s' = peak_bytes s.
Proof.
  intros [Hr Hu Hk Hf Hl Hp] Hv. unfold remove_value. rewrite Hv. simpl.
  assert (forall w lw b, delete v (values s) !! w = Some lw -> live_allocation lw = Some b ->
    is_Some (allocations s !! b)) as Hk'.
  { intros w lw b [_ Hw]%lookup_delete_Some Hb. by eapply Hk. }
  destruct (live_allocation lv) as [a|] eqn:Ea.
  2: { eexists. split; [done|]. split_and!; simpl; try done. constructor; simpl; auto.
       intros b bl Hb. rewrite (holders_delete_other _ _ lv) by (done || congruence).
       by apply Hr. }
  destruct (Hk v lv a Hv Ea) as [al Hal]. rewrite Hal. simpl.
  pose proof (Hr a al Hal) as Hra.
  pose proof (holders_delete_same _ _ _ _ Hv Ea) as Hd.
  rewrite (checked_sub_ok (references al) 1) by lia. simpl.
  destruct (references al - 1 =? 0) eqn:E; bool_to_prop.
  - pose proof (alloc_total_delete _ _ _ Hal) as Ht. rewrite checked_sub_ok by lia. simpl.
    assert (size (holders (delete v (values s)) a) = 0%nat) as H0 by lia.
    eexists. split; [done|]. split_and!; simpl; try done; [|lia]. constructor; simpl.
    + intros b bl [Hne Hb]%lookup_delete_Some.
      rewrite (holders_delete_other _ _ lv) by (done || congruence). by apply Hr.
    + intros b bl [Hne Hb]%lookup_delete_Some. by apply (Hu b).
    + intros w lw b Hw Hb. destruct (decide (a = b)) as [<-|Hne].
      * apply map_size_empty_inv in H0. exfalso.
        assert (holders (delete v (values s)) a !! w = Some lw) as Hin
          by (apply map_lookup_filter_Some; done). rewrite H0 in Hin. by rewrite lookup_empty in Hin.
      * rewrite lookup_delete_ne by done. by eapply Hk'.
    + intros b [bl [_ Hb]%lookup_delete_Some]. apply Hf. eauto.
    + lia.
    + lia.
  - eexists. split; [done|]. split_and!; simpl; try done. constructor; simpl.
    + intros b bl Hb. destruct (decide (b = a)) as [->|Hne].
      * rewrite lookup_insert_eq in Hb. injection Hb as <-. simpl. lia.
      * rewrite lookup_insert_ne in Hb by done.
        rewrite (holders_delete_other _ _ lv) by (done || congruence). by apply Hr.
    + intros b bl Hb _. destruct (decide (b = a)) as [->|Hne].
      * rewrite lookup_insert_eq in Hb. injection Hb as <-. simpl. lia.
      * rewrite lookup_insert_ne in Hb by done. by apply (Hu b).
    + intros w lw b Hw Hb. rewrite lookup_insert_is_Some. destruct (decide (a = b)); [by left|].
      right. split; [done|]. by eapply Hk'.
    + intros b [<-|[_ Hb]]%lookup_insert_is_Some; apply Hf; eauto.
    + rewrite (alloc_total_update _ _ al) by done. done.
    + done.
Qed.

Lemma consume_value_spec all pending created grace s v :
  ledger None s -> tracks all (v :: pending) created grace s -> v ∈ all -> v ∈ created ->
  v ∉ grace ->
  exists s', consume_value s v = Ok (s', bool_decide (v ∉ pending)) /\ ledger None s' /\
    tracks all pending created grace s' /\ next_allocation s' = next_allocation s /\
    live_bytes s' <= live_bytes s /\ peak_bytes s' = peak_bytes s /\
    values s' = if bool_decide (v ∉ pending) then delete v (values s) else values s.
Proof.
  intros Hl [Hu Hlive] Hall Hc Hg. unfold consume_value.
  rewrite Hu, decide_True by done. simpl. rewrite uses_in_cons, decide_True by done.
  rewrite checked_sub_ok by lia. simpl.
  replace (N.of_nat (S (uses_in v pending)) - 1) with (N.of_nat (uses_in v pending)) by lia.
  set (s1 := {| remaining_uses := _ |}).
  assert (ledger None s1) as Hl1 by (destruct Hl; constructor; done).
  assert (forall w, remaining_uses s1 !! w =
    if decide (w ∈ all) then Some (N.of_nat (uses_in w pending)) else None) as Hu1.
  { intros w. unfold s1. simpl. destruct (decide (w = v)) as [->|Hne].
    - by rewrite lookup_insert_eq, decide_True.
    - rewrite lookup_insert_ne, Hu by done. destruct (decide (w ∈ all)); [|done].
      rewrite uses_in_cons. rewrite (decide_False (P := v = w)); done. }
  destruct (decide (v ∈ pending)) as [Hin|Hin].
  - rewrite bool_decide_eq_false_2 by (intros ?; done). apply uses_in_pos in Hin as Hpos.
    assert ((N.of_nat (uses_in v pending) =? 0) = false) as -> by (apply N.eqb_neq; lia).
    exists s1. split_and!; try done. constructor; [done|]. intros w. simpl. rewrite Hlive.
    rewrite elem_of_cons. naive_solver.
  - rewrite bool_decide_eq_true_2 by done.
    assert (uses_in v pending = 0)%nat as H0 by (rewrite uses_in_pos in Hin; lia).
    rewrite H0. simpl. destruct (proj2 (Hlive v)) as [lv Hlv]; [split; [done|left; by left]|].
    destruct (remove_value_spec s1 v lv Hl1 Hlv) as (s' & -> & Hl' & Hv' & Hr' & Hn' & Hb' & Hp').
    simpl. exists s'. split_and!; try done. constructor; [by rewrite Hr'|].
    intros w. rewrite Hv'. simpl. destruct (decide (w = v)) as [->|Hne].
    + rewrite lookup_delete_eq. split; [by intros []|naive_solver].
    + rewrite lookup_delete_ne by done. rewrite Hlive, elem_of_cons. naive_solver.
Qed.

Lemma consume_inputs_spec all created grace inputs : forall pending s,
  ledger None s -> tracks all (inputs ++ pending) created grace s ->
  Forall (fun v => v ∈ all /\ v ∈ created /\ v ∉ grace) inputs ->
  exists s', consume_inputs s inputs = Ok s' /\ ledger None s' /\
    tracks all pending created grace s' /\ next_allocation s' = next_allocation s /\
    live_bytes s' <= live_bytes s /\ peak_bytes s' = peak_bytes s.
Proof.
  unfold consume_inputs. induction inputs as [|v inputs IH]; intros pending s Hl Ht Hin.
  { exists s. by split_and!. }
  apply Forall_cons in Hin as [(Ha & Hc & Hg) Hin]. simpl.
  destruct (consume_value_spec _ _ _ _ _ _ Hl Ht Ha Hc Hg)
    as (s1 & -> & Hl1 & Ht1 & Hn1 & Hb1 & Hp1 & _). simpl.
  destruct (IH pending s1 Hl1 Ht1 Hin) as (s2 & -> & Hl2 & Ht2 & Hn2 & Hb2 & Hp2).
  exists s2. split_and!; auto; [congruence|lia|congruence].
Qed.

Lemma uses_left_zero all pending created grace s v :
  tracks all pending created grace s -> (forall w, w ∈ pending -> w ∈ all) ->
  uses_left s v = 0 <-> v ∉ pending.
Proof.
  intros [Hu _] Hall. unfold uses_left. rewrite Hu. destruct (decide (v ∈ all)) as [Ha|Ha]; simpl.
  - rewrite uses_in_pos. lia.
  - split; [|done]. intros _ Hin. auto.
Qed.

(** One round of [remove_unused]: afterwards the value is not kept by grace. *)
Lemma remove_unused_step all pending created grace s v :
  ledger None s -> tracks all pending created grace s -> (forall w, w ∈ pending -> w ∈ all) ->
  v ∈ created -> v ∈ grace ->
  exists s', (if uses_left s v =? 0 then remove_value s v else mret s) = Ok s' /\ ledger None s' /\
    tracks all pending created (grace ∖ {[v]}) s' /\ next_allocation s' = next_allocation s /\
    live_bytes s' <= live_bytes s /\ peak_bytes s' = peak_bytes s /\
    values s' = if uses_left s v =? 0 then delete v (values s) else values s.
Proof.
  intros Hl Ht Hall Hc Hg. pose proof (uses_left_zero _ _ _ _ _ v Ht Hall) as Hz.
  destruct (uses_left s v =? 0) eqn:E; bool_to_prop.
  - apply Hz in E. destruct Ht as [Hu Hlive].
    destruct (proj2 (Hlive v)) as [lv Hlv]; [auto|].
    destruct (remove_value_spec s v lv Hl Hlv) as (s' & -> & Hl' & Hv' & Hr' & Hn' & Hb' & Hp').
    exists s'. split_and!; try done. constructor; [by rewrite Hr'|]. intros w. rewrite Hv'.
    destruct (decide (w = v)) as [->|Hne].
    + rewrite lookup_delete_eq. split; [by intros []|set_solver].
    + rewrite lookup_delete_ne by done. rewrite Hlive. set_solver.
  - assert (v ∈ pending) as Hp by (destruct (decide (v ∈ pending)); [done|tauto]).
    exists s. split_and!; try done. destruct Ht as [Hu Hlive]. constructor; [done|].
    intros w. rewrite Hlive. destruct (decide (w = v)) as [->|]; set_solver.
Qed.

Lemma remove_unused_spec all pending created vs : forall grace s,
  ledger None s -> tracks all pending created grace s -> (forall w, w ∈ pending -> w ∈ all) ->
  NoDup vs -> Forall (fun v => v ∈ created /\ v ∈ grace) vs ->
  exists s', remove_unused s vs = Ok s' /\ ledger None s' /\
    tracks all pending created (grace ∖ list_to_set vs) s' /\
    next_allocation s' = next_allocation s /\
    live_bytes s' <= live_bytes s /\ peak_bytes s' = peak_bytes s.
Proof.
  unfold remove_unused. induction vs as [|v vs IH]; intros grace s Hl Ht Hall Hnd Hin.
  { exists s. simpl. rewrite difference_empty_L. by split_and!. }
  apply Forall_cons in Hin as [[Hc Hg] Hin]. apply NoDup_cons in Hnd as [Hv Hnd]. cbn [try_fold].
  destruct (remove_unused_step _ _ _ _ _ _ Hl Ht Hall Hc Hg)
    as (s1 & -> & Hl1 & Ht1 & Hn1 & Hb1 & Hp1 & _). cbn [mbind result_bind].
  destruct (IH (grace ∖ {[v]}) s1) as (s2 & -> & Hl2 & Ht2 & Hn2 & Hb2 & Hp2); auto.
  { rewrite Forall_forall in Hin |- *. intros w Hw. specialize (Hin w Hw). set_solver. }
  exists s2. split_and!; auto; [|congruence|lia|congruence].
  replace (grace ∖ list_to_set (v :: vs)) with (grace ∖ {[v]} ∖ list_to_set vs) by set_solver.
  done.
Qed.

(** ** The values and uses of a graph *)

Definition graph_uses (g : OperationGraph) : list ValueRef :=
  concat (map node_inputs (graph_nodes g)) ++ [graph_output g].

(** The uses still to come before node [k] runs. *)
Definition uses_from (g : OperationGraph) (k : nat) : list ValueRef :=
  concat (map node_inputs (drop k (graph_nodes g))) ++ [graph_output g].

Definition input_values (g : OperationGraph) : list ValueRef :=
  map (fun i => Input (input_from_ordinal (N.of_nat i))) (seq 0 (length (graph_inputs g))).

Definition node_values (k : nat) (node : OperationNode) : list ValueRef :=
  map (fun j => node_value (N.of_nat k) (N.of_nat j)) (seq 0 (length (node_outputs node))).

(** The values that exist before node [k] runs. *)
Definition created_before (g : OperationGraph) (k : nat) : list ValueRef :=
  input_values g ++
  concat (map (fun '(i, node) => node_values i node) (enumerate (take k (graph_nodes g)))).

(** Inputs no node and no output uses stay live to the end. *)
Definition idle_inputs (g : OperationGraph) : gset ValueRef :=
  list_to_set (filter (fun v => v ∉ graph_uses g) (input_values g)).

(** The bytes of the outputs of the nodes before [k], and of all nodes. *)
Definition output_bytes_before (g : OperationGraph) (k : nat) : N :=
  sumN (map facts_byte_len (concat (map node_outputs (take k (graph_nodes g))))).
Definition total_output_bytes (g : OperationGraph) : N :=
  sumN (map facts_byte_len (concat (map node_outputs (graph_nodes g)))).

(** No 64-bit counter of the accounting can overflow on the graph. *)
Record graph_fits (g : OperationGraph) : Prop := {
  fits_uses : N.of_nat (length (graph_uses g)) <= u64_MAX;
  fits_values : N.of_nat (length (created_before g (length (graph_nodes g)))) + 1 <= u64_MAX;
  fits_bytes : total_output_bytes g <= u64_MAX;
  fits_scratch : Forall (fun node =>
    total_output_bytes g + declared_scratch (node_operation node) <= u64_MAX) (graph_nodes g)
}.

Lemma uses_from_step g k node :
  graph_nodes g !! k = Some node -> uses_from g k = node_inputs node ++ uses_from g (S k).
Proof.
  intros Hk. unfold uses_from. rewrite (drop_S _ _ _ Hk). simpl. by rewrite <-app_assoc.
Qed.

Lemma uses_from_incl g k v : v ∈ uses_from g k -> v ∈ graph_uses g.
Proof.
  unfold uses_from, graph_uses. rewrite !elem_of_app. intros [H|H]; [left|by right].
  rewrite <-(take_drop k (graph_nodes g)), map_app, concat_app, elem_of_app. by right.
Qed.

Lemma enumerate_app_one {A} (l : list A) x : enumerate (l ++ [x]) = enumerate l ++ [(length l, x)].
Proof.
  unfold enumerate. rewrite length_app. simpl. rewrite seq_app. simpl.
  rewrite zip_with_app by (by rewrite length_seq). done.
Qed.

Lemma created_before_step g k node :
  graph_nodes g !! k = Some node ->
  created_before g (S k) = created_before g k ++ node_values k node.
Proof.
  intros Hk. unfold created_before. rewrite (take_S_r _ _ _ Hk), enumerate_app_one.
  rewrite map_app, concat_app. simpl. rewrite app_nil_r, app_assoc. do 2 f_equal.
  rewrite length_take_le; [done|]. apply lookup_lt_Some in Hk. lia.
Qed.

Lemma created_before_mono g k d :
  (length (created_before g k) <= length (created_before g (k + d)))%nat.
Proof.
  induction d as [|d IH]; [by rewrite Nat.add_0_r|]. rewrite Nat.add_succ_r.
  destruct (graph_nodes g !! (k + d)%nat) as [node|] eqn:E.
  - rewrite (created_before_step _ _ _ E), length_app. lia.
  - apply lookup_ge_None in E.
    assert (created_before g (S (k + d)) = created_before g (k + d)) as ->; [|done].
    unfold created_before. by rewrite !(take_ge (graph_nodes g)) by lia.
Qed.

Lemma created_before_length g k :
  (length (created_before g k) <= length (created_before g (length (graph_nodes g))))%nat.
Proof.
  destruct (decide (k < length (graph_nodes g))%nat) as [Hk|Hk].
  - replace (length (graph_nodes g)) with (k + (length (graph_nodes g) - k))%nat by lia.
    apply created_before_mono.
  - unfold created_before. by rewrite !(take_ge (graph_nodes g)) by lia.
Qed.

Lemma output_bytes_step g k node :
  graph_nodes g !! k = Some node ->
  output_bytes_before g (S k) = output_bytes_before g k + sumN (map facts_byte_len (node_outputs node)).
Proof.
  intros Hk. unfold output_bytes_before. rewrite (take_S_r _ _ _ Hk).
  rewrite map_app, concat_app, map_app, sumN_app. simpl. by rewrite app_nil_r.
Qed.

Lemma output_bytes_before_le g k : output_bytes_before g k <= total_output_bytes g.
Proof.
  unfold output_bytes_before, total_output_bytes.
  rewrite <-(take_drop k (graph_nodes g)) at 2.
  rewrite map_app, concat_app, map_app, sumN_app. lia.
Qed.

Lemma elem_of_node_values v k node :
  v ∈ node_values k node <-> exists j, v = node_value (N.of_nat k) (N.of_nat j) /\
                                       (j < length (node_outputs node))%nat.
Proof.
  unfold node_values. change (map ?f ?l) with (f <$> l). rewrite list_elem_of_fmap.
  setoid_rewrite elem_of_seq. naive_solver lia.
Qed.

Lemma elem_of_input_values v g :
  v ∈ input_values g <-> exists i, v = Input (input_from_ordinal (N.of_nat i)) /\
                                   (i < length (graph_inputs g))%nat.
Proof.
  unfold input_values. change (map ?f ?l) with (f <$> l). rewrite list_elem_of_fmap.
  setoid_rewrite elem_of_seq. naive_solver lia.
Qed.

(** The created values are the ones the graph can look up. *)
Lemma elem_of_created_before g k v :
  v ∈ created_before g k <->
  is_Some (lookup_facts (graph_inputs g) (take k (graph_nodes g)) v).
Proof.
  unfold created_before. rewrite elem_of_app, elem_of_input_values.
  assert (v ∈ concat (map (fun '(i, node) => node_values i node)
                       (enumerate (take k (graph_nodes g)))) <->
    exists i node, take k (graph_nodes g) !! i = Some node /\ v ∈ node_values i node) as ->.
  { rewrite list_elem_of_In, in_concat. split.
    - intros (l & Hl & Hv). apply in_map_iff in Hl as ([i node] & <- & Hin).
      apply list_elem_of_In, lookup_enumerate in Hin. exists i, node. split; [done|].
      by apply list_elem_of_In.
    - intros (i & node & Hi & Hv). exists (node_values i node).
      split; [|by apply list_elem_of_In]. apply in_map_iff. exists (i, node).
      split; [done|]. by apply list_elem_of_In, lookup_enumerate. }
  setoid_rewrite elem_of_node_values. destruct v as [[i]|[n] [o]]; simpl.
  - rewrite fmap_is_Some, lookup_lt_is_Some. split.
    + intros [(j & [= ->] & Hj)|(? & ? & _ & ? & [=] & _)]. by rewrite Nat2N.id.
    + intros Hi. left. exists (N.to_nat i). by rewrite N2Nat.id.
  - split.
    + intros [(? & [=] & _)|(i & node & Hi & j & [= -> ->] & Hj)]. rewrite !Nat2N.id, Hi. simpl.
      by apply lookup_lt_is_Some.
    + intros (f & (node & Hn & Ho)%bind_Some). right. exists (N.to_nat n), node. split; [done|].
      exists (N.to_nat o). rewrite !N2Nat.id. split; [done|]. by eapply lookup_lt_Some.
Qed.

(** * The schedule over a whole graph

    On a well-formed graph whose counters fit 64 bits the accounting runs to
    the end: no value is missing, no count underflows, and the estimate is a
    number. *)

(** The largest transient scratch a node declares. *)
Definition max_scratch (g : OperationGraph) : N :=
  foldr N.max 0 (map (fun node => declared_scratch (node_operation node)) (graph_nodes g)).

(** The state of the accounting before node [k] runs. *)
Record at_node (g : OperationGraph) (k : nat) (s : LivenessSchedule) : Prop := {
  at_ledger : ledger None s;
  at_tracks : tracks (graph_uses g) (uses_from g k) (list_to_set (created_before g k))
                (idle_inputs g) s;
  at_next : next_allocation s <= N.of_nat (length (created_before g k));
  at_live : live_bytes s <= output_bytes_before g k;
  at_peak : peak_bytes s <= output_bytes_before g k + max_scratch g
}.

(** The state after [j] outputs of node [k] were placed. *)
Record placing (g : OperationGraph) (k : nat) (node : OperationNode) (j : nat)
    (s : LivenessSchedule) : Prop := {
  placing_ledger : ledger None s;
  placing_tracks : tracks (graph_uses g) (uses_from g k)
    (list_to_set (created_before g k ++ take j (node_values k node)))
    (idle_inputs g ∪ list_to_set (take j (node_values k node))) s;
  placing_next : next_allocation s <= N.of_nat (length (created_before g k) + j);
  placing_live : live_bytes s <=
    output_bytes_before g k + sumN (map facts_byte_len (take j (node_outputs node)));
  placing_peak : peak_bytes s <=
    output_bytes_before g k + sumN (map facts_byte_len (take j (node_outputs node))) + max_scratch g
}.

(** Inserts a value over a given allocation, or over one of its own. *)
Definition place (s : LivenessSchedule) (value : ValueRef) (shared : option (option N)) (bytes : N)
  : result (LivenessSchedule * option N) :=
  '(s, allocation) ← match shared with
                     | Some allocation => mret (s, allocation)
                     | None => '(s, a) ← create_allocation s bytes; mret (s, Some a)
                     end;
  s ← insert_value s value allocation;
  mret (s, allocation).

(** ** The initial schedule *)

Lemma try_fold_concat {A B S} (f : S -> B -> result S) (h : A -> list B) l : forall s,
  try_fold (fun s a => try_fold f s (h a)) s l = try_fold f s (concat (map h l)).
Proof.
  induction l as [|a l IH]; intros s; simpl; [done|]. rewrite try_fold_app.
  destruct (try_fold f s (h a)); simpl; auto.
Qed.

(** An invariant of a loop over an enumerated list. *)
Lemma enumerate_fold {A St} (step : St -> nat * A -> result St) (I : nat -> St -> Prop) l :
  (forall k x s, l !! k = Some x -> I k s -> exists s', step s (k, x) = Ok s' /\ I (S k) s') ->
  forall s, I 0%nat s -> exists s', try_fold step s (enumerate l) = Ok s' /\ I (length l) s'.
Proof.
  intros Hstep s H0. induction l as [|x l IH] using rev_ind; [by exists s|].
  destruct IH as (s1 & Hs1 & HI).
  { intros k y s1 Hk. apply Hstep. by apply lookup_app_l_Some. }
  destruct (Hstep (length l) x s1) as (s2 & Hs2 & HI2); [by apply list_lookup_middle|done|].
  exists s2. rewrite enumerate_app_one, try_fold_app, Hs1, length_app, Nat.add_1_r. simpl.
  by rewrite Hs2.
Qed.

Lemma increment_count_ok m x :
  default 0 (m !! x) + 1 <= u64_MAX ->
  increment_count m x = Ok (<[x := default 0 (m !! x) + 1]> m).
Proof. intros H. unfold increment_count. by rewrite checked_add_ok. Qed.

Lemma increment_counts uses : forall m,
  (forall v, default 0 (m !! v) + N.of_nat (length uses) <= u64_MAX) ->
  exists m', try_fold increment_count m uses = Ok m' /\
    forall v, m' !! v = if decide (v ∈ uses) then Some (default 0 (m !! v) + N.of_nat (uses_in v uses))
                        else m !! v.
Proof.
  induction uses as [|x uses IH]; intros m Hm.
  { exists m. split; [done|]. intros v. by rewrite decide_False by apply not_elem_of_nil. }
  cbn [try_fold]. rewrite increment_count_ok.
  2: { specialize (Hm x). cbn [length] in Hm. lia. }
  cbn [mbind result_bind].
  destruct (IH (<[x := default 0 (m !! x) + 1]> m)) as (m' & -> & Hm').
  { intros v. specialize (Hm v). cbn [length] in Hm. destruct (decide (v = x)) as [->|Hne].
    - rewrite lookup_insert_eq. simpl. lia.
    - rewrite lookup_insert_ne by done. lia. }
  exists m'. split; [done|]. intros v. rewrite Hm', uses_in_cons. destruct (decide (x = v)) as [->|Hne].
  - rewrite lookup_insert_eq. rewrite (decide_True (P := v ∈ v :: uses)) by left. simpl.
    destruct (decide (v ∈ uses)) as [Hin|Hin]; [f_equal; lia|].
    assert (uses_in v uses = 0)%nat as -> by (rewrite uses_in_pos in Hin; lia). f_equal; lia.
  - rewrite lookup_insert_ne by done. destruct (decide (v ∈ uses)) as [Hin|Hin].
    + rewrite decide_True by (by right). f_equal.
    + rewrite decide_False; [done|]. by intros [->|]%elem_of_cons.
Qed.

Lemma schedule_input_ok m i :
  N.of_nat i <= u32_MAX ->
  schedule_input m i =
  Ok (<[Input (input_from_ordinal (N.of_nat i)) := {| live_allocation := None |}]> m).
Proof.
  intros H. unfold schedule_input, index_as_u32.
  by rewrite (proj2 (u32_try_from_Ok _ _) (conj eq_refl H)).
Qed.

Lemma schedule_inputs ns : forall m : gmap ValueRef LiveValue,
  Forall (fun i => N.of_nat i <= u32_MAX) ns ->
  exists m', try_fold schedule_input m ns = Ok m' /\
    forall v, m' !! v =
      if decide (v ∈ map (fun i => Input (input_from_ordinal (N.of_nat i))) ns)
      then Some {| live_allocation := None |} else m !! v.
Proof.
  induction ns as [|n ns IH]; intros m Hns.
  { exists m. split; [done|]. intros v. by rewrite decide_False by apply not_elem_of_nil. }
  apply Forall_cons in Hns as [Hn Hns]. cbn [try_fold map].
  rewrite schedule_input_ok by done. cbn [mbind result_bind].
  destruct (IH (<[Input (input_from_ordinal (N.of_nat n)) := {| live_allocation := None |}]> m) Hns)
    as (m' & -> & Hm'). exists m'. split; [done|]. intros v. rewrite Hm'.
  set (x := Input (input_from_ordinal (N.of_nat n))).
  set (l := map _ ns). destruct (decide (v ∈ l)) as [Hin|Hin].
  - by rewrite decide_True by (by right).
  - destruct (decide (v = x)) as [->|Hne].
    + rewrite lookup_insert_eq, decide_True by left. done.
    + rewrite lookup_insert_ne by done. rewrite decide_False; [done|]. by intros [->|]%elem_of_cons.
Qed.

Lemma LivenessSchedule_new_spec g :
  graph_wf g -> graph_fits g ->
  exists s, LivenessSchedule_new g = Ok s /\ at_node g 0 s /\
    forall v, values s !! v =
      if decide (v ∈ input_values g) then Some {| live_allocation := None |} else None.
Proof.
  intros Hg Hfit. unfold LivenessSchedule_new.
  rewrite (try_fold_concat increment_count node_inputs).
  destruct (increment_counts (graph_uses g) ∅) as (m & Hm & Hcount).
  { intros v. rewrite lookup_empty. apply (fits_uses g Hfit). }
  unfold graph_uses in Hm. rewrite try_fold_app in Hm.
  destruct (try_fold increment_count ∅ _) as [m1| |]; try done. simpl in Hm |- *.
  destruct (increment_count m1 (graph_output g)) as [m2| |]; try done. simpl in Hm |- *.
  injection Hm as ->.
  destruct (schedule_inputs (seq 0 (length (graph_inputs g))) ∅) as (vs & -> & Hvs).
  { apply Forall_forall. intros i Hi%elem_of_seq.
    pose proof (wf_input_count _ (wf_builder g Hg)) as Hc. simpl in Hc. lia. }
  simpl. eexists. split; [done|]. fold (input_values g) in Hvs.
  assert (forall v, vs !! v =
    if decide (v ∈ input_values g) then Some {| live_allocation := None |} else None) as Hvs'.
  { intros v. rewrite Hvs. by destruct (decide _). }
  split; [|done]. constructor; simpl; [..|lia].
  - constructor; simpl; try done.
    intros v lv a Hv Ha. rewrite Hvs' in Hv. destruct (decide _); by simplify_eq/=.
    intros a [al Hal]. by rewrite lookup_empty in Hal.
  - constructor; simpl.
    + intros v. rewrite Hcount, lookup_empty. by destruct (decide _).
    + intros v. rewrite Hvs'. unfold created_before, uses_from. rewrite take_0, drop_0.
      fold (graph_uses g). simpl. rewrite app_nil_r, elem_of_list_to_set.
      unfold idle_inputs. rewrite elem_of_list_to_set, list_elem_of_filter.
      destruct (decide (v ∈ input_values g)) as [Hin|Hin].
      * split; [|by eauto]. intros _. split; [done|].
        destruct (decide (v ∈ graph_uses g)); auto.
      * split; [by intros []|tauto].
  - lia.
  - unfold output_bytes_before. rewrite take_0. done.
Qed.

(** ** Placing the outputs of a node *)

Lemma node_values_length k node : length (node_values k node) = length (node_outputs node).
Proof. unfold node_values. by rewrite length_map, length_seq. Qed.

Lemma node_values_lookup k node j :
  (j < length (node_outputs node))%nat ->
  node_values k node !! j = Some (node_value (N.of_nat k) (N.of_nat j)).
Proof.
  intros Hj. unfold node_values. change (map ?f ?l) with (f <$> l).
  by rewrite list_lookup_fmap, lookup_seq_lt.
Qed.

Lemma node_values_NoDup k node : NoDup (node_values k node).
Proof.
  unfold node_values. apply (NoDup_fmap_2_strong _ (seq _ _)); [|apply NoDup_seq].
  unfold node_value. intros x y _ _ E. injection E as E. lia.
Qed.

Lemma node_value_not_earlier g k j : node_value (N.of_nat k) j ∉ created_before g k.
Proof.
  rewrite elem_of_created_before. unfold node_value. simpl. rewrite Nat2N.id.
  rewrite lookup_take_ge by done. simpl. by intros [].
Qed.

Lemma fresh_value g k node j :
  (j < length (node_outputs node))%nat ->
  node_value (N.of_nat k) (N.of_nat j) ∉ created_before g k ++ take j (node_values k node).
Proof.
  intros Hj [H|H]%elem_of_app; [by eapply node_value_not_earlier|].
  apply list_elem_of_lookup in H as [i Hi]. apply lookup_take_Some in Hi as [Hi Hlt].
  rewrite node_values_lookup in Hi by lia. injection Hi as Hi. lia.
Qed.

Lemma take_node_values k node j :
  (j < length (node_outputs node))%nat ->
  take (S j) (node_values k node) =
  take j (node_values k node) ++ [node_value (N.of_nat k) (N.of_nat j)].
Proof. intros Hj. apply take_S_r. by apply node_values_lookup. Qed.

Lemma sum_outputs_step node j facts :
  node_outputs node !! j = Some facts ->
  sumN (map facts_byte_len (take (S j) (node_outputs node))) =
  sumN (map facts_byte_len (take j (node_outputs node))) + facts_byte_len facts.
Proof.
  intros Hj. rewrite (take_S_r _ _ _ Hj), map_app, sumN_app.
  change (sumN (map facts_byte_len [facts])) with (facts_byte_len facts + 0). lia.
Qed.

Lemma sum_outputs_le node j :
  sumN (map facts_byte_len (take j (node_outputs node))) <=
  sumN (map facts_byte_len (node_outputs node)).
Proof.
  rewrite <-(take_drop j (node_outputs node)) at 2. rewrite map_app, sumN_app. lia.
Qed.

Lemma size_list_to_set_le (l : list ValueRef) :
  (size (list_to_set l : gset ValueRef) <= length l)%nat.
Proof.
  induction l as [|v l IH]; cbn [list_to_set length]; [done|].
  rewrite size_union_alt, size_singleton.
  assert (size (list_to_set l ∖ {[v]} : gset ValueRef) <= size (list_to_set l : gset ValueRef))%nat
    by (apply subseteq_size; set_solver). lia.
Qed.

Lemma tracked_size all pending created grace s :
  tracks all pending (list_to_set created) grace s -> (size (values s) <= length created)%nat.
Proof.
  intros [_ Hlive]. rewrite <-size_dom. etransitivity.
  - apply (subseteq_size _ (list_to_set created : gset ValueRef)).
    intros v Hv. apply elem_of_dom, Hlive in Hv as [Hv _]. done.
  - apply size_list_to_set_le.
Qed.

Section Placing.
Context (g : OperationGraph) (k : nat) (node : OperationNode).
Context (Hfit : graph_fits g) (Hk : graph_nodes g !! k = Some node).

Lemma room_for_output j :
  (j < length (node_outputs node))%nat ->
  N.of_nat (length (created_before g k) + j) + 2 <= u64_MAX.
Proof using Hfit Hk.
  intros Hj. pose proof (fits_values g Hfit). pose proof (created_before_length g (S k)) as Hl.
  rewrite (created_before_step _ _ _ Hk), length_app, node_values_length in Hl. lia.
Qed.

Lemma room_for_bytes j facts :
  node_outputs node !! j = Some facts ->
  output_bytes_before g k + sumN (map facts_byte_len (take j (node_outputs node))) +
    facts_byte_len facts <= u64_MAX.
Proof using Hfit Hk.
  intros Hj. pose proof (fits_bytes g Hfit). pose proof (output_bytes_before_le g (S k)) as Hb.
  rewrite (output_bytes_step _ _ _ Hk) in Hb. pose proof (sum_outputs_step _ _ _ Hj).
  pose proof (sum_outputs_le node (S j)). lia.
Qed.

Lemma track_insert j s s' allocation :
  (j < length (node_outputs node))%nat ->
  placing g k node j s -> remaining_uses s' = remaining_uses s ->
  values s' = <[node_value (N.of_nat k) (N.of_nat j) := {| live_allocation := allocation |}]>
                (values s) ->
  tracks (graph_uses g) (uses_from g k)
    (list_to_set (created_before g k ++ take (S j) (node_values k node)))
    (idle_inputs g ∪ list_to_set (take (S j) (node_values k node))) s'.
Proof using All.
  intros Hj [_ [Hu Hlive] _ _ _] Hr Hv. constructor; [by rewrite Hr|].
  intros v. rewrite Hv, lookup_insert_is_Some, Hlive.
  rewrite take_node_values by done.
  rewrite !elem_of_list_to_set, !elem_of_union, !elem_of_list_to_set, !elem_of_app,
    !list_elem_of_singleton. clear. destruct (decide (node_value (N.of_nat k) (N.of_nat j) = v));
    intuition congruence.
Qed.

Lemma place_spec j s shared facts :
  placing g k node j s -> node_outputs node !! j = Some facts ->
  (forall a, shared = Some (Some a) -> is_Some (allocations s !! a)) ->
  exists s' a, place s (node_value (N.of_nat k) (N.of_nat j)) shared (facts_byte_len facts)
      = Ok (s', a) /\ placing g k node (S j) s' /\
    values s' = <[node_value (N.of_nat k) (N.of_nat j) := {| live_allocation := a |}]> (values s).
Proof using Hfit Hk.
  intros Hp Hj Hshared. pose proof (lookup_lt_Some _ _ _ Hj) as Hlt.
  pose proof (room_for_output j Hlt) as Hroom. pose proof (room_for_bytes j facts Hj) as Hbytes.
  pose proof (sum_outputs_step _ _ _ Hj) as Hsum.
  assert (values s !! node_value (N.of_nat k) (N.of_nat j) = None) as Hnone.
  { apply eq_None_not_Some. intros [Hc _]%(tracks_live _ _ _ _ _ (placing_tracks _ _ _ _ _ Hp)).
    apply elem_of_list_to_set in Hc. by eapply fresh_value. }
  assert (N.of_nat (size (values s)) + 1 <= u64_MAX) as Hsize.
  { pose proof (tracked_size _ _ _ _ _ (placing_tracks _ _ _ _ _ Hp)) as Hs.
    rewrite length_app, length_take, node_values_length in Hs. lia. }
  pose proof Hp as [Hl Ht Hn Hlive Hpeak]. unfold place. destruct shared as [a|].
  - simpl. destruct (insert_value_spec None s (node_value (N.of_nat k) (N.of_nat j)) a)
      as (s' & -> & Hl' & Hv' & Hr' & Hn' & Hb' & Hp'); [done|done|by left|naive_solver|done|].
    simpl. exists s', a. split_and!; [done| |done].
    constructor; [done|by eapply track_insert|lia|lia|lia].
  - destruct (create_allocation_spec s (facts_byte_len facts))
      as (s1 & -> & Hl1 & Hv1 & Hr1 & Hn1 & Hb1 & Ha1 & Hp1); [done|lia|lia|]. simpl.
    destruct (insert_value_spec (Some (next_allocation s)) s1
                (node_value (N.of_nat k) (N.of_nat j)) (Some (next_allocation s)))
      as (s' & -> & Hl' & Hv' & Hr' & Hn' & Hb' & Hp');
      [done|by rewrite Hv1|by right|naive_solver|by rewrite Hv1|].
    simpl. rewrite Hv1 in Hv'. exists s', (Some (next_allocation s)). split_and!; [done| |done].
    constructor; [done|eapply track_insert; [done|done|congruence|done]|lia|lia|lia].
Qed.

(** ** Ending a node *)

Lemma placing_start s : at_node g k s -> placing g k node 0 s.
Proof using All.
  intros [Hl Ht Hn Hb Hp]. constructor; rewrite ?take_0, ?app_nil_r; cbn [map list_to_set];
    change (sumN []) with 0; rewrite ?N.add_0_r, ?Nat.add_0_r; [done| |done..].
  by rewrite union_empty_r_L.
Qed.
End Placing.

Lemma node_input_tracked g k node v :
  graph_wf g -> graph_nodes g !! k = Some node -> v ∈ node_inputs node ->
  v ∈ graph_uses g /\ v ∈ created_before g k /\
  v ∉ idle_inputs g ∪ list_to_set (node_values k node).
Proof.
  intros Hg Hk Hv. assert (v ∈ graph_uses g) as Hu.
  { apply (uses_from_incl g k). rewrite (uses_from_step _ _ _ Hk), elem_of_app. by left. }
  assert (v ∈ created_before g k) as Hc.
  { apply elem_of_created_before. destruct (graph_node_ok g k node Hg Hk) as (facts & Hf & _).
    apply list_elem_of_lookup in Hv as [i Hi].
    destruct (Forall2_lookup_l _ _ _ _ _ Hf Hi) as (f & _ & Hl & _). eauto. }
  split_and!; [done|done|]. rewrite elem_of_union. unfold idle_inputs. rewrite !elem_of_list_to_set.
  intros [H|H]; [by apply list_elem_of_filter in H as [? _]|].
  apply elem_of_node_values in H as (j & -> & _). by eapply node_value_not_earlier.
Qed.

Lemma idle_after g k node :
  (idle_inputs g ∪ list_to_set (node_values k node)) ∖ list_to_set (node_values k node)
  = idle_inputs g.
Proof.
  assert (idle_inputs g ## list_to_set (node_values k node)); [|set_solver].
  intros v Hi Hn. unfold idle_inputs in Hi. rewrite elem_of_list_to_set in Hi, Hn.
  apply list_elem_of_filter in Hi as [_ (i & -> & _)%elem_of_input_values].
  by apply elem_of_node_values in Hn as (j & [=] & _).
Qed.

Lemma max_scratch_bound g node :
  node ∈ graph_nodes g -> declared_scratch (node_operation node) <= max_scratch g.
Proof.
  unfold max_scratch. induction 1 as [|? ? ? _ IH]; simpl; lia.
Qed.

(** After the outputs are placed, the rest of the accounting of a node. *)
Lemma finish_node g k node s scratch :
  graph_wf g -> graph_fits g -> graph_nodes g !! k = Some node ->
  placing g k node (length (node_outputs node)) s ->
  scratch <= declared_scratch (node_operation node) ->
  exists s1 s2 s3, observe_transient s scratch = Ok s1 /\
    consume_inputs s1 (node_inputs node) = Ok s2 /\
    remove_unused s2 (node_values k node) = Ok s3 /\ at_node g (S k) s3 /\
    values s1 = values s.
Proof.
  intros Hg Hfit Hk [Hl Ht Hn Hb Hp] Hs.
  pose proof (output_bytes_step _ _ _ Hk) as Hstep. pose proof (output_bytes_before_le g (S k)) as Hle.
  pose proof (max_scratch_bound g node (list_elem_of_lookup_2 _ _ _ Hk)) as Hmax.
  pose proof (fits_scratch g Hfit) as Hfs. rewrite Forall_forall in Hfs.
  specialize (Hfs node (list_elem_of_lookup_2 _ _ _ Hk)).
  rewrite !take_ge in Ht by (by rewrite node_values_length).
  rewrite take_ge in Hb by done. rewrite take_ge in Hp by done.
  rewrite <-(created_before_step _ _ _ Hk) in Ht.
  destruct (observe_transient_spec s scratch) as (s1 & -> & Hl1 & Hv1 & Hr1 & Hn1 & Hb1 & Hp1);
    [done|lia|].
  rewrite (uses_from_step _ _ _ Hk) in Ht.
  assert (tracks (graph_uses g) (node_inputs node ++ uses_from g (S k))
            (list_to_set (created_before g (S k)))
            (idle_inputs g ∪ list_to_set (node_values k node)) s1) as Ht1.
  { destruct Ht as [Hu Hlive]. constructor; [by rewrite Hr1|by rewrite Hv1]. }
  destruct (consume_inputs_spec _ _ _ _ _ _ Hl1 Ht1) as (s2 & Hc2 & Hl2 & Ht2 & Hn2 & Hb2 & Hp2).
  { apply Forall_forall. intros v Hv.
    destruct (node_input_tracked g k node v Hg Hk Hv) as (? & Hc & ?). split_and!; [done| |done].
    rewrite elem_of_list_to_set, (created_before_step _ _ _ Hk), elem_of_app. by left. }
  destruct (remove_unused_spec _ _ _ (node_values k node) _ s2 Hl2 Ht2)
    as (s3 & Hc3 & Hl3 & Ht3 & Hn3 & Hb3 & Hp3).
  { apply uses_from_incl. }
  { apply node_values_NoDup. }
  { apply Forall_forall. intros v Hv.
    rewrite elem_of_union, !elem_of_list_to_set, (created_before_step _ _ _ Hk), elem_of_app. auto. }
  rewrite idle_after in Ht3. exists s1, s2, s3. split_and!; [done|done|done| |done].
  constructor; [done|done| |lia|lia].
  rewrite (created_before_step _ _ _ Hk), length_app, node_values_length. lia.
Qed.

(** ** The estimate *)

(** The allocation an aliasing output shares: that of its live input. *)
Lemma alias_allocation g k node j i s :
  graph_wf g -> graph_nodes g !! k = Some node -> placing g k node j s ->
  node_output_alias_input g node j = Some i ->
  exists input lv, node_inputs node !! i = Some input /\ values s !! input = Some lv /\
    forall a, live_allocation lv = Some a -> is_Some (allocations s !! a).
Proof.
  intros Hg Hk Hp Ha. destruct (node_alias_input g k node j i Hg Hk Ha)
    as (-> & -> & input & fin & fout & Hin & _ & _ & _ & _ & _).
  assert (input ∈ node_inputs node) as Hmem by (rewrite Hin; left).
  destruct (node_input_tracked g k node input Hg Hk Hmem) as (_ & Hc & _).
  destruct (proj2 (tracks_live _ _ _ _ _ (placing_tracks _ _ _ _ _ Hp) input)) as [lv Hlv].
  { rewrite elem_of_list_to_set, elem_of_app. split; [by left|left].
    rewrite (uses_from_step _ _ _ Hk), elem_of_app. by left. }
  exists input, lv. split_and!; [by rewrite Hin|done|].
  intros a Hla. eapply ledger_known; [apply Hp|exact Hlv|done].
Qed.

Lemma node_index_u32 g k node :
  graph_wf g -> graph_nodes g !! k = Some node -> index_as_u32 k = Ok (N.of_nat k).
Proof.
  intros Hg Hk. apply u32_try_from_Ok. split; [done|].
  pose proof (wf_node_count _ (wf_builder g Hg)) as Hc. simpl in Hc.
  apply lookup_lt_Some in Hk. lia.
Qed.

Lemma output_index_u32 g k node j :
  graph_wf g -> graph_nodes g !! k = Some node -> (j < length (node_outputs node))%nat ->
  index_as_u32 j = Ok (N.of_nat j).
Proof.
  intros Hg Hk Hj. apply u32_try_from_Ok. split; [done|].
  destruct (graph_node_ok g k node Hg Hk) as (? & _ & _ & Hc). lia.
Qed.

(** One output of the estimate places one value. *)
Lemma estimate_output_as_place g node k j facts s produced shared s' a :
  index_as_u32 j = Ok (N.of_nat j) ->
  match node_output_alias_input g node j with
  | None => shared = None
  | Some i => exists input lv, node_inputs node !! i = Some input /\ values s !! input = Some lv /\
                               shared = Some (live_allocation lv)
  end ->
  place s (node_value (N.of_nat k) (N.of_nat j)) shared (facts_byte_len facts) = Ok (s', a) ->
  estimate_output g node (N.of_nat k) (s, produced) (j, facts) =
  Ok (s', produced ++ [node_value (N.of_nat k) (N.of_nat j)]).
Proof.
  intros Hj Hshared Hp. unfold estimate_output. rewrite Hj. cbn [mbind result_bind].
  unfold place in Hp. destruct (node_output_alias_input g node j) as [i|].
  - destruct Hshared as (input & lv & -> & Hlv & ->). simpl in Hp |- *. rewrite Hlv. simpl.
    destruct (insert_value s _ _); try done. simpl in *. by injection Hp as -> _.
  - subst shared. simpl in Hp |- *. destruct (create_allocation s _) as [[s1 a1]| |]; try done.
    simpl in *. destruct (insert_value s1 _ _); try done. simpl in *. by injection Hp as -> _.
Qed.

Lemma estimate_output_place g k node j facts s produced :
  graph_wf g -> graph_fits g -> graph_nodes g !! k = Some node -> placing g k node j s ->
  node_outputs node !! j = Some facts ->
  exists s', estimate_output g node (N.of_nat k) (s, produced) (j, facts) =
      Ok (s', produced ++ [node_value (N.of_nat k) (N.of_nat j)]) /\ placing g k node (S j) s'.
Proof.
  intros Hg Hfit Hk Hp Hj.
  assert (index_as_u32 j = Ok (N.of_nat j)) as Hi
    by (eapply output_index_u32; [done..|by eapply lookup_lt_Some]).
  destruct (node_output_alias_input g node j) as [i|] eqn:Ha.
  - destruct (alias_allocation g k node j i s Hg Hk Hp Ha) as (input & lv & Hin & Hlv & Hal).
    destruct (place_spec g k node Hfit Hk j s (Some (live_allocation lv)) facts Hp Hj)
      as (s' & a & Hpl & Hp' & _); [naive_solver|]. exists s'. split; [|done].
    eapply estimate_output_as_place; [done| |exact Hpl]. rewrite Ha. eauto.
  - destruct (place_spec g k node Hfit Hk j s None facts Hp Hj) as (s' & a & Hpl & Hp' & _); [by intros ? [=]|].
    exists s'. split; [|done]. eapply estimate_output_as_place; [done| |exact Hpl]. by rewrite Ha.
Qed.

Lemma estimate_outputs_place g k node s :
  graph_wf g -> graph_fits g -> graph_nodes g !! k = Some node -> placing g k node 0 s ->
  exists s', try_fold (estimate_output g node (N.of_nat k)) (s, []) (enumerate (node_outputs node)) =
      Ok (s', node_values k node) /\
    placing g k node (length (node_outputs node)) s'.
Proof.
  intros Hg Hfit Hk Hp.
  destruct (enumerate_fold (estimate_output g node (N.of_nat k))
    (fun j st => st.2 = take j (node_values k node) /\ placing g k node j st.1)
    (node_outputs node)) with (s := (s, @nil ValueRef)) as ([s' vs] & -> & Hvs & Hp'); [|by rewrite take_0|].
  - intros j facts [s1 vs] Hj [Hvs Hp1]. simpl in Hvs, Hp1. subst vs.
    destruct (estimate_output_place g k node j facts s1 (take j (node_values k node)) Hg Hfit Hk Hp1 Hj)
      as (s2 & -> & Hp2). eexists. split; [done|]. split; [|done].
    symmetry. apply take_node_values. by eapply lookup_lt_Some.
  - simpl in Hvs. rewrite take_ge in Hvs by (by rewrite node_values_length). subst vs. eauto.
Qed.

Lemma estimate_node_step g k node s :
  graph_wf g -> graph_fits g -> graph_nodes g !! k = Some node -> at_node g k s ->
  exists s', estimate_node g s (k, node) = Ok s' /\ at_node g (S k) s'.
Proof.
  intros Hg Hfit Hk Hs. unfold estimate_node. rewrite (node_index_u32 g k node) by done. simpl.
  destruct (estimate_outputs_place g k node s Hg Hfit Hk) as (s1 & -> & Hp1);
    [by apply placing_start|]. simpl.
  destruct (finish_node g k node s1 (declared_scratch (node_operation node)) Hg Hfit Hk Hp1)
    as (s2 & s3 & s4 & -> & H3 & H4 & Hat & _); [done|]. simpl. rewrite H3. simpl. eauto.
Qed.

(** The output is live at the end, so its bytes are part of the peak. *)
Lemma scratch_total g s :
  at_node g (length (graph_nodes g)) s ->
  exists n, scratch_excluding_output s (graph_output g) = Ok n /\ n <= peak_bytes s.
Proof.
  intros [Hl Ht Hn Hb Hp]. unfold scratch_excluding_output.
  set (out := default 0 _). assert (out <= peak_bytes s) as Hle.
  { unfold out. destruct (values s !! graph_output g) as [lv|] eqn:Ev; simpl; [|lia].
    destruct (live_allocation lv) as [a|] eqn:Ea; simpl; [|lia].
    destruct (ledger_known _ _ Hl _ _ _ Ev Ea) as [al Hal]. rewrite Hal. simpl.
    pose proof (alloc_total_delete _ _ _ Hal). pose proof (ledger_live _ _ Hl).
    pose proof (ledger_peak _ _ Hl). lia. }
  rewrite checked_sub_ok by done. exists (peak_bytes s - out). split; [done|lia].
Qed.

Lemma estimate_host_scratch_bytes_total g :
  graph_wf g -> graph_fits g ->
  exists n, estimate_host_scratch_bytes g = Ok n /\ n <= total_output_bytes g + max_scratch g.
Proof.
  intros Hg Hfit. unfold estimate_host_scratch_bytes.
  destruct (LivenessSchedule_new_spec g Hg Hfit) as (s & -> & Hs & _). simpl.
  destruct (enumerate_fold (estimate_node g) (at_node g) (graph_nodes g)) with (s := s)
    as (s' & -> & Hs'); [|done|].
  { intros. by eapply estimate_node_step. }
  simpl. destruct (scratch_total g s' Hs') as (n & Hn & Hle). exists n. split; [done|].
  destruct Hs' as [_ _ _ _ Hp]. pose proof (output_bytes_before_le g (length (graph_nodes g))). lia.
Qed.
