(* ===== verification/Cast.v ===== *)
(** * Built-in float casts of [prepare.rs]

    Two implementations of the same element-wise cast: one writes into a given
    buffer, the other builds the output in order. Scalars are their bit
    patterns. The half-precision conversions belong to the [half] crate and are
    parameters; the exact conversion of a byte to [f32] is the language's. *)

From S2P Require Import Prelude Errors Cancel Tensor Identity Representation Strides Facts.
From S2P Require Import Operation Kernels.
Local Open Scope N_scope.

Definition CAST_BLOCK_ELEMENTS : N := 16 * 1024.

(** The conversions of [half], between bit patterns. *)
Record HalfConversions := {
  f16_from_f32 : N -> N;
  f16_to_f32 : N -> N;
  bf16_from_f32 : N -> N;
  bf16_to_f32 : N -> N
}.

(** [f32::from] of a [u8]: the exact binary32 pattern of a small integer. *)
Definition f32_from_u8 (n : N) : N :=
  if n =? 0 then 0
  else N.shiftl (127 + N.log2 n) 23 + N.shiftl (n - 2 ^ N.log2 n) (23 - N.log2 n).

(** [u16::from_le_bytes] and [f32::from_le_bytes]. *)
Fixpoint from_le_bytes (bs : bytes) : N :=
  match bs with
  | [] => 0
  | b :: bs => Byte.to_N b + 256 * from_le_bytes bs
  end.

Definition is_builtin_float (d : DType) : bool :=
  match d with F32 | F16 | Bf16 => true | _ => false end.

Definition float_width (d : DType) : result N :=
  match d with
  | U8 => Ok 1
  | F32 => Ok 4
  | F16 | Bf16 => Ok 2
  | _ => Err Unsupported
  end.

Definition validate_float_cast (source_dtype : DType) (source : bytes) (target_dtype : DType)
    (output_len : N) : result (N * N * N) :=
  source_width ← float_width source_dtype;
  target_width ← float_width target_dtype;
  _ ← reject (negb (blen source mod source_width =? 0)) Integrity;
  let elements := blen source / source_width in
  expected_output ← ok_or (checked_mul elements target_width) ResourceLimit;
  _ ← reject (negb (output_len =? expected_output)) Integrity;
  mret (source_width, target_width, elements).

(** [chunks_exact]: whole chunks only. *)
Fixpoint chunks (fuel : nat) (w : nat) (bs : bytes) : list bytes :=
  match fuel with
  | O => []
  | S fuel => if (w <=? length bs)%nat then take w bs :: chunks fuel w (drop w bs) else []
  end.
Definition chunks_exact (w : N) (bs : bytes) : list bytes := chunks (length bs) (N.to_nat w) bs.

Section Casts.
Context (half : HalfConversions).

(** ** The writer *)

Definition read_u16 (bs : bytes) : result N :=
  match bs with [_; _] => Ok (from_le_bytes bs) | _ => Err Integrity end.
Definition read_f32 (bs : bytes) : result N :=
  match bs with [_; _; _; _] => Ok (from_le_bytes bs) | _ => Err Integrity end.
Definition write_u16 (target : bytes) (value : N) : result bytes :=
  match target with [_; _] => Ok (to_le_bytes 2 value) | _ => Err Integrity end.
Definition write_f32 (target : bytes) (value : N) : result bytes :=
  match target with [_; _; _; _] => Ok (to_le_bytes 4 value) | _ => Err Integrity end.

(** The loop over zipped source and target chunks: targets beyond the shorter
    sequence keep their bytes. *)
Fixpoint write_zipped (write : bytes -> bytes -> result bytes) (sources : list bytes) (w : nat)
    (output : bytes) : result bytes :=
  match sources with
  | [] => Ok output
  | src :: sources =>
      if (w <=? length output)%nat then
        written ← write src (take w output);
        rest ← write_zipped write sources w (drop w output);
        mret (written ++ rest)
      else Ok output
  end.

Definition cast_float_block (source_dtype : DType) (source : bytes) (target_dtype : DType)
    (output : bytes) : result bytes :=
  match source_dtype, target_dtype with
  | U8, F32 =>
      write_zipped (fun src target => write_f32 target (f32_from_u8 (from_le_bytes src)))
        (map (fun b => [b]) source) 4 output
  | F32, F16 =>
      write_zipped (fun src target => v ← read_f32 src; write_u16 target (f16_from_f32 half v))
        (chunks_exact 4 source) 2 output
  | F32, Bf16 =>
      write_zipped (fun src target => v ← read_f32 src; write_u16 target (bf16_from_f32 half v))
        (chunks_exact 4 source) 2 output
  | F16, F32 =>
      write_zipped (fun src target => v ← read_u16 src; write_f32 target (f16_to_f32 half v))
        (chunks_exact 2 source) 4 output
  | Bf16, F32 =>
      write_zipped (fun src target => v ← read_u16 src; write_f32 target (bf16_to_f32 half v))
        (chunks_exact 2 source) 4 output
  | F16, Bf16 =>
      write_zipped (fun src target => v ← read_u16 src;
                      write_u16 target (bf16_from_f32 half (f16_to_f32 half v)))
        (chunks_exact 2 source) 2 output
  | Bf16, F16 =>
      write_zipped (fun src target => v ← read_u16 src;
                      write_u16 target (f16_from_f32 half (bf16_to_f32 half v)))
        (chunks_exact 2 source) 2 output
  | _, _ => Err Unsupported
  end.

(** The byte range of [count] elements of width [w] from element [start]. *)
Definition block_range (start count w : N) : result (N * N) :=
  first ← ok_or (checked_mul start w) ResourceLimit;
  last ← ok_or (length_ ← checked_mul count w; checked_add first length_) ResourceLimit;
  mret (first, last).

(** The number of rounds of [(0..elements).step_by(CAST_BLOCK_ELEMENTS)]. *)
Definition cast_rounds (elements : N) : N :=
  (elements + CAST_BLOCK_ELEMENTS - 1) / CAST_BLOCK_ELEMENTS.

Definition cast_float_bytes (source_dtype : DType) (source : bytes) (target_dtype : DType)
    (output : bytes) : M bytes :=
  '(source_width, target_width, elements) ←
    lift (validate_float_cast source_dtype source target_dtype (blen output));
  output ← for_range 0 (cast_rounds elements) (fun round output =>
      let element_start := round * CAST_BLOCK_ELEMENTS in
      _ ← check;
      let block_elements := N.min CAST_BLOCK_ELEMENTS (elements - element_start) in
      lift (source_range ← block_range element_start block_elements source_width;
            target_range ← block_range element_start block_elements target_width;
            source_block ← ok_or (get_range source source_range) Integrity;
            output_block ← ok_or (get_range output target_range) Integrity;
            written ← cast_float_block source_dtype source_block target_dtype output_block;
            copy_from_slice output target_range written)) output;
  _ ← check;
  mret output.

(** ** The builder *)

(** Reads by index, which panics on a short chunk. *)
Definition read_u16_exact (bs : bytes) : result N :=
  a ← index bs 0; b ← index bs 1; mret (from_le_bytes [a; b]).
Definition read_f32_exact (bs : bytes) : result N :=
  a ← index bs 0; b ← index bs 1; c ← index bs 2; d ← index bs 3;
  mret (from_le_bytes [a; b; c; d]).

Definition collect_cast_blocks (target_width : N) (source : bytes)
    (source_width elements output_len : N) (convert : bytes -> result bytes) : M bytes :=
  _ ← try_reserve_exact (elements * target_width);
  _ ← check;
  output ← for_range 0 (cast_rounds elements) (fun round output =>
      let element_start := round * CAST_BLOCK_ELEMENTS in
      _ ← check;
      let block_elements := N.min CAST_BLOCK_ELEMENTS (elements - element_start) in
      lift (source_range ← block_range element_start block_elements source_width;
            source_block ← ok_or (get_range source source_range) Integrity;
            converted ← mapM convert (chunks_exact source_width source_block);
            mret (output ++ converted))) [];
  _ ← check;
  _ ← lift (reject (negb (blen (concat output) =? output_len)) Integrity);
  mret (concat output).

Definition cast_float_bytes_owned (source_dtype : DType) (source : bytes) (target_dtype : DType)
    (output_len : N) : M bytes :=
  '(source_width, _, elements) ←
    lift (validate_float_cast source_dtype source target_dtype output_len);
  match source_dtype, target_dtype with
  | U8, F32 => collect_cast_blocks 4 source source_width elements output_len
      (fun src => b ← index src 0; mret (to_le_bytes 4 (f32_from_u8 (Byte.to_N b))))
  | F32, F16 => collect_cast_blocks 2 source source_width elements output_len
      (fun src => v ← read_f32_exact src; mret (to_le_bytes 2 (f16_from_f32 half v)))
  | F32, Bf16 => collect_cast_blocks 2 source source_width elements output_len
      (fun src => v ← read_f32_exact src; mret (to_le_bytes 2 (bf16_from_f32 half v)))
  | F16, F32 => collect_cast_blocks 4 source source_width elements output_len
      (fun src => v ← read_u16_exact src; mret (to_le_bytes 4 (f16_to_f32 half v)))
  | Bf16, F32 => collect_cast_blocks 4 source source_width elements output_len
      (fun src => v ← read_u16_exact src; mret (to_le_bytes 4 (bf16_to_f32 half v)))
  | F16, Bf16 => collect_cast_blocks 2 source source_width elements output_len
      (fun src => v ← read_u16_exact src;
         mret (to_le_bytes 2 (bf16_from_f32 half (f16_to_f32 half v))))
  | Bf16, F16 => collect_cast_blocks 2 source source_width elements output_len
      (fun src => v ← read_u16_exact src;
         mret (to_le_bytes 2 (f16_from_f32 half (bf16_to_f32 half v))))
  | _, _ => lift (Err Unsupported)
  end.
End Casts.
