(* ===== verification/FileReader.v ===== *)
(** * The buffered header reader of [gguf.rs]

    Positional reads of a file ([read_exact_at] of [checkpoint.rs]) and the
    [Reader] that serves small reads from a buffer of 64 KiB, within a file size
    and a header limit. *)

From S2P Require Import Prelude Errors Cancel Tensor Identity Cast.
Local Open Scope N_scope.

(** ** Files *)

(** An open file: its bytes, and how many of them one positional read of so
    many bytes at an offset returns. *)
Record File := {
  contents : bytes;
  read_at : N -> N -> result N
}.

(** The documented behaviour of a positional read: it returns some of the
    requested bytes, none only at the end of the file, or an I/O error. *)
Record file_ok (f : File) : Prop := {
  read_at_some offset length n :
    read_at f offset length = Ok n ->
    n <= length /\ (n = 0 \/ offset + n <= N.of_nat (List.length (contents f)));
  read_at_none offset length :
    read_at f offset length = Ok 0 -> length = 0 \/ N.of_nat (List.length (contents f)) <= offset;
  read_at_error offset length : read_at f offset length <> Panic
}.

(** A file whose reads do not fail. *)
Definition reliable (f : File) : Prop :=
  forall offset length, exists n, read_at f offset length = Ok n.

(** The bytes [bs[offset..offset + length]]. *)
Definition slice (bs : bytes) (offset length : N) : bytes :=
  take (N.to_nat length) (drop (N.to_nat offset) bs).

(** The slice expression, which panics out of range. *)
Definition slice_index (bs : bytes) (offset length : N) : result bytes :=
  if offset + length <=? N.of_nat (List.length bs) then Ok (slice bs offset length) else Panic.

(** [read_exact_at], the bytes it writes to its buffer. A round that reads
    nothing returns, so there are at most [length] others. *)
Fixpoint read_exact_loop (f : File) (fuel : nat) (offset length : N) : result bytes :=
  if length =? 0 then mret [] else
  match fuel with
  | O => Panic
  | S fuel =>
      amount ← read_at f offset length;
      _ ← reject (amount =? 0) Integrity;
      next ← ok_or (checked_add offset amount) ResourceLimit;
      rest ← (remaining ← unchecked_sub length amount; read_exact_loop f fuel next remaining);
      mret (slice (contents f) offset amount ++ rest)
  end.

Definition read_exact_at (f : File) (offset length : N) : result bytes :=
  read_exact_loop f (N.to_nat length) offset length.

(** ** The reader *)

Definition READER_BUFFER_BYTES : N := 64 * 1024.

Record Reader := {
  file : File;
  file_size : N;
  limit : N;
  offset : N;
  buffer : bytes;
  buffer_start : N;
  buffer_len : N
}.

Definition Reader_new (f : File) (size limit : N) : Reader :=
  {| file := f; file_size := size; limit := limit; offset := 0;
     buffer := replicate (N.to_nat READER_BUFFER_BYTES) Byte.x00; buffer_start := 0;
     buffer_len := 0 |}.

(** Calls that change the reader. *)
Definition RM (A : Type) : Type := Reader -> M (A * Reader).

#[export] Instance RM_ret : MRet RM := fun A a r => mret (a, r).
#[export] Instance RM_bind : MBind RM := fun A B f m r => '(a, r) ← m r; f a r.

#[export] Instance RM_fmap : FMap RM := fun A B f m => a ← m; mret (f a).

Definition run {A} (m : M A) : RM A := fun r => a ← m; mret (a, r).
Definition get_reader : RM Reader := fun r => mret (r, r).
Definition put_reader (r : Reader) : RM unit := fun _ => mret (tt, r).
Definition try {A} (r : result A) : RM A := run (lift r).

(** [self.buffer[..amount]] becomes the bytes read. *)
Definition fill_buffer : RM unit :=
  r ← get_reader;
  let remaining := saturating_sub (N.min (file_size r) (limit r)) (offset r) in
  _ ← try (reject (remaining =? 0) InvalidFormat);
  amount ← try (usize_try_from (N.min remaining READER_BUFFER_BYTES));
  bs ← try (read_exact_at (file r) (offset r) amount);
  put_reader {| file := file r; file_size := file_size r; limit := limit r; offset := offset r;
                buffer := bs ++ drop (length bs) (buffer r); buffer_start := offset r;
                buffer_len := amount |}.

Definition set_offset (n : N) (r : Reader) : Reader :=
  {| file := file r; file_size := file_size r; limit := limit r; offset := n;
     buffer := buffer r; buffer_start := buffer_start r; buffer_len := buffer_len r |}.

(** [read_into], the bytes it writes to its output. Every round writes at
    least one of them. *)
Fixpoint read_into (fuel : nat) (remaining : N) : RM bytes :=
  if remaining =? 0 then mret [] else
  match fuel with
  | O => try Panic
  | S fuel =>
      _ ← run check;
      r ← get_reader;
      buffer_end ← try (ok_or (checked_add (buffer_start r) (buffer_len r)) ResourceLimit);
      _ ← (if (offset r <? buffer_start r) || (buffer_end <=? offset r) then fill_buffer else mret tt);
      r ← get_reader;
      relative ← try (d ← unchecked_sub (offset r) (buffer_start r); usize_try_from d);
      available ← try (unchecked_sub (buffer_len r) relative);
      let amount := N.min available remaining in
      bs ← try (slice_index (buffer r) relative amount);
      next ← try (ok_or (checked_add (offset r) amount) ResourceLimit);
      _ ← put_reader (set_offset next r);
      rest ← read_into fuel (remaining - amount);
      mret (bs ++ rest)
  end.

(** The checks of [read] and [bytes] before they read. *)
Definition check_end (length : N) : RM unit :=
  r ← get_reader;
  last ← try (ok_or (checked_add (offset r) length) ResourceLimit);
  _ ← try (reject (limit r <? last) ResourceLimit);
  try (reject (file_size r <? last) InvalidFormat).

(** [Reader::read], for an array of [n] bytes. *)
Definition read (n : nat) : RM bytes :=
  _ ← run check;
  _ ← check_end (N.of_nat n);
  read_into n (N.of_nat n).

(** [Reader::bytes]. *)
Definition read_bytes (length : N) : RM bytes :=
  _ ← check_end length;
  _ ← run (try_reserve_exact length);
  read_into (N.to_nat length) length.

(** ** Typed reads *)

Definition bounded_count (value maximum : N) : result N :=
  value ← usize_try_from value;
  _ ← reject (maximum <? value) ResourceLimit;
  mret value.

(** [String::from_utf8] accepts the well-formed sequences of the Unicode
    standard. *)
Definition utf8_tail (b : byte) : bool := (128 <=? Byte.to_N b) && (Byte.to_N b <=? 191).
Definition utf8_second (first second : byte) : bool :=
  let '(b, c) := (Byte.to_N first, Byte.to_N second) in
  utf8_tail second &&
  (negb (b =? 224) || (160 <=? c)) && (negb (b =? 237) || (c <=? 159)) &&
  (negb (b =? 240) || (144 <=? c)) && (negb (b =? 244) || (c <=? 143)).
Fixpoint utf8_valid (bs : bytes) : bool :=
  match bs with
  | [] => true
  | b :: bs =>
      let n := Byte.to_N b in
      if n <? 128 then utf8_valid bs else
      if (194 <=? n) && (n <=? 223) then
        match bs with c :: bs => utf8_second b c && utf8_valid bs | [] => false end
      else if (224 <=? n) && (n <=? 239) then
        match bs with
        | c :: d :: bs => utf8_second b c && utf8_tail d && utf8_valid bs
        | _ => false
        end
      else if (240 <=? n) && (n <=? 244) then
        match bs with
        | c :: d :: e :: bs => utf8_second b c && utf8_tail d && utf8_tail e && utf8_valid bs
        | _ => false
        end
      else false
  end.

Definition from_utf8 (bs : bytes) : result string :=
  _ ← reject (negb (utf8_valid bs)) InvalidFormat;
  mret (String.string_of_list_byte bs).

Definition read_u8 : RM N := bs ← read 1; mret (from_le_bytes bs).
Definition read_u16 : RM N := bs ← read 2; mret (from_le_bytes bs).
Definition read_u32 : RM N := bs ← read 4; mret (from_le_bytes bs).
Definition read_u64 : RM N := bs ← read 8; mret (from_le_bytes bs).

(** The two's complement value of an integer of so many bytes. *)
Definition signed (width : nat) (n : N) : Z :=
  if n <? 2 ^ (8 * N.of_nat width - 1) then Z.of_N n
  else (Z.of_N n - 2 ^ (8 * Z.of_nat width))%Z.

Definition read_i8 : RM Z := n ← read_u8; mret (signed 1 n).
Definition read_i16 : RM Z := n ← read_u16; mret (signed 2 n).
Definition read_i32 : RM Z := n ← read_u32; mret (signed 4 n).
Definition read_i64 : RM Z := n ← read_u64; mret (signed 8 n).

(** Floating-point values by their bits. *)
Definition read_f32 : RM N := read_u32.
Definition read_f64 : RM N := read_u64.

Definition read_boolean : RM bool :=
  n ← read_u8;
  if n =? 0 then mret false else if n =? 1 then mret true else try (Err InvalidFormat).

(** [Reader::string]. *)
Definition read_string (maximum : N) : RM string :=
  length ← read_u64;
  length ← try (bounded_count length maximum);
  bs ← read_bytes length;
  try (from_utf8 bs).
