(* ===== verification/Inventory.v ===== *)
(** * Checkpoint inventories of [inventory.rs], paths and source kinds of [source.rs] *)


From S2P Require Import Prelude Errors Tensor Identity Order Representation Quantization.
From Stdlib Require Strings.String.
Local Open Scope N_scope.

(** ** Repository paths *)

Record RepoPath := { repo_path : string }.

#[export] Instance RepoPath_eq_dec : EqDecision RepoPath.
Proof. solve_decision. Defined.

#[export] Instance RepoPath_keyed : Keyed RepoPath.
Proof.
  refine {| key p := [string_key (repo_path p)] |}.
  intros [x] [y] [= Hxy]. simpl in Hxy. by apply (inj string_key) in Hxy as ->.
Defined.

(** [str::split('/')]. *)
Fixpoint split_slash (bs : bytes) : list bytes :=
  match bs with
  | [] => [[]]
  | b :: bs =>
      match split_slash bs with
      | component :: rest =>
          if bool_decide (b = Byte.x2f) then [] :: component :: rest else (b :: component) :: rest
      | [] => []
      end
  end.

(** [chars().any(char::is_control)] on UTF-8 text: C0, DEL and the two-byte
    encodings of C1. *)
Fixpoint any_control (bs : bytes) : bool :=
  match bs with
  | [] => false
  | b :: tail =>
      let n := Byte.to_N b in
      (n <? 32) || (n =? 127) ||
      match tail with
      | c :: _ => (n =? 194) && (128 <=? Byte.to_N c) && (Byte.to_N c <=? 159)
      | [] => false
      end || any_control tail
  end.

Definition dot : bytes := [Byte.x2e].
Definition dot_dot : bytes := [Byte.x2e; Byte.x2e].

(** [RepoPath::parse]. On a Unix system a path has no prefix component, a root
    component when it starts with a slash, and a parent component for each [..]. *)
Definition RepoPath_parse (value : string) : result RepoPath :=
  let bs := String.list_byte_of_string value in
  let invalid_text :=
    bool_decide (bs = []) || bool_decide (Byte.x5c ∈ bs) || bool_decide (Byte.x3a ∈ bs) ||
    bool_decide (Byte.x00 ∈ bs) || any_control bs || bool_decide (head bs = Some Byte.x2f) ||
    bool_decide (last bs = Some Byte.x2f) in
  let invalid_component :=
    existsb (fun c => bool_decide (c = []) || bool_decide (c = dot) || bool_decide (c = dot_dot))
      (split_slash bs) in
  let platform_absolute :=
    bool_decide (head bs = Some Byte.x2f) ||
    existsb (fun c => bool_decide (c = dot_dot)) (split_slash bs) in
  _ ← reject (invalid_text || invalid_component || platform_absolute) InvalidPath;
  mret {| repo_path := value |}.

(** ** Files *)

Inductive DigestPolicy :=
  | ComputeOnDemand
  | VerifyOnDemand (digest : ContentDigest)
  | TrustExternal (digest : ContentDigest)
  | TrustRetained (digest : ContentDigest).

Inductive SourceKind :=
  | Local
  | RetainedSnapshot.

Inductive DigestState :=
  | Deferred
  | Expected (digest : ContentDigest)
  | Trusted (digest : ContentDigest).

Definition DigestState_from (p : DigestPolicy) : DigestState :=
  match p with
  | ComputeOnDemand => Deferred
  | VerifyOnDemand digest => Expected digest
  | TrustExternal digest | TrustRetained digest => Trusted digest
  end.

Record FileRecord := {
  file_id : FileId;
  file_path : RepoPath;
  record_size : N;
  file_kind : SourceKind;
  file_digest : DigestState
}.

(** ** Tensors *)

Record TensorRecord := {
  record_name : string;
  record_shape : list N;
  record_storage : Storage
}.

Definition name_le (x y : TensorRecord) : Prop := String.le (record_name x) (record_name y).

#[export] Instance name_le_dec : RelDecision name_le.
Proof. intros x y. unfold name_le. apply _. Defined.

Record Inventory := {
  files : list FileRecord;
  tensors : list TensorRecord
}.

Definition validate_inventory_span (span : SourceSpan) (files : list FileRecord) : result unit :=
  file_index ← usize_try_from (ordinal (span_file span));
  file ← ok_or (files !! N.to_nat file_index) InvalidFormat;
  last ← span_end span;
  reject (record_size file <? last) InvalidFormat.

(** The checks of one file, by its index. *)
Definition validate_file (files : list FileRecord) (index : nat) (file : FileRecord)
  : result unit :=
  ordinal ← u32_try_from (N.of_nat index);
  _ ← reject (negb (bool_decide (file_id file = from_ordinal ordinal))) InvalidFormat;
  match index with
  | O => mret tt
  | S before =>
      previous ← Errors.index files before;
      reject (bool_decide (ord_le (file_path file) (file_path previous))) InvalidFormat
  end.

Fixpoint validate_files (all : list FileRecord) (index : nat) (files : list FileRecord)
  : result unit :=
  match files with
  | [] => mret tt
  | file :: files => _ ← validate_file all index file; validate_files all (S index) files
  end.

Definition validate_tensor (files : list FileRecord) (_ : unit) (tensor : TensorRecord)
  : result unit :=
  _ ← reject (bool_decide (record_name tensor = "")) InvalidFormat;
  match record_storage tensor with
  | Plain dtype span =>
      length ← byte_len dtype (record_shape tensor);
      _ ← reject (negb (length =? span_length span)) InvalidFormat;
      validate_inventory_span span files
  | Quantized storage =>
      _ ← reject (negb (bool_decide (logical_shape storage = record_shape tensor))) InvalidFormat;
      _ ← validate_inventory_span (payload storage) files;
      try_fold (fun _ c => validate_inventory_span (companion_span (snd c)) files) tt
        (btree_list (companions storage))
  end.

Definition Inventory_new (files : list FileRecord) (tensors : list TensorRecord)
  : result Inventory :=
  _ ← reject (bool_decide (files = [])) InvalidFormat;
  _ ← validate_files files 0 files;
  let tensors := merge_sort name_le tensors in
  _ ← reject (windows_any (fun x y => bool_decide (record_name x = record_name y)) tensors)
        InvalidFormat;
  _ ← try_fold (validate_tensor files) tt tensors;
  mret {| files := files; tensors := tensors |}.

(** The wire value has the same fields. *)
Definition Inventory_try_from (wire : Inventory) : result Inventory :=
  Inventory_new (files wire) (tensors wire).

(** The binary search in a list with distinct sorted names finds the only
    tensor of the name. *)
Definition inventory_tensor (i : Inventory) (name : string) : option TensorRecord :=
  List.find (fun t => bool_decide (record_name t = name)) (tensors i).

(** * What inventories and repository paths promise *)

(** ** Repository paths *)

Fixpoint join_slash (components : list bytes) : bytes :=
  match components with
  | [] => []
  | [c] => c
  | c :: components => c ++ Byte.x2f :: join_slash components
  end.

Lemma split_slash_cons bs : exists c rest, split_slash bs = c :: rest.
Proof.
  induction bs as [|b bs (c & rest & IH)]; cbn [split_slash]; [by exists [], []|].
  rewrite IH. case_bool_decide; eauto.
Qed.

(** Splitting is inverted by joining. *)
Lemma split_slash_join bs : join_slash (split_slash bs) = bs.
Proof.
  induction bs as [|b bs IH]; [done|]. cbn [split_slash].
  destruct (split_slash_cons bs) as (c & rest & Hs). rewrite Hs in *.
  case_bool_decide as Hb; rewrite <-IH; [by subst b|]. by destruct rest.
Qed.

Lemma split_slash_no_slash bs : Forall (fun c => Byte.x2f ∉ c) (split_slash bs).
Proof.
  induction bs as [|b bs IH]; cbn [split_slash]; [constructor; [by intros ?%elem_of_nil|constructor]|].
  destruct (split_slash_cons bs) as (c & rest & Hs). rewrite Hs in *.
  case_bool_decide as Hb; [by constructor; [intros ?%elem_of_nil|]|].
  apply Forall_cons in IH as [Hc IH]. constructor; [|done]. by intros [Heq|?]%elem_of_cons.
Qed.

Definition path_component (c : bytes) : Prop := c <> [] /\ c <> dot /\ c <> dot_dot.

Lemma existsb_Forall {A} (f : A -> bool) l : existsb f l = false <-> Forall (fun x => f x = false) l.
Proof.
  induction l as [|x l IH]; cbn [existsb]; [split; [constructor|done]|].
  by rewrite orb_false_iff, IH, Forall_cons.
Qed.

(** The first and last characters of a path of good components are not slashes. *)
Lemma split_slash_head bs : Forall path_component (split_slash bs) -> bs <> [] /\ head bs <> Some Byte.x2f.
Proof.
  destruct bs as [|b bs]; cbn [split_slash].
  { intros (Hc & _)%Forall_cons. by destruct Hc. }
  intros Hc. split; [done|]. intros [= ->]. destruct (split_slash_cons bs) as (c & rest & Hs).
  rewrite Hs, bool_decide_true in Hc by done. apply Forall_cons in Hc as [[Hc _] _]. done.
Qed.

Lemma split_slash_last bs : last bs = Some Byte.x2f -> last (split_slash bs) = Some [].
Proof.
  intros [l ->]%last_Some. assert (split_slash (l ++ [Byte.x2f]) = split_slash l ++ [[]]) as ->.
  { induction l as [|b l IH]; [done|]. cbn [app split_slash]. rewrite IH.
    destruct (split_slash_cons l) as (c & rest & ->). cbn [app]. by case_bool_decide. }
  apply last_snoc.
Qed.

(** Exactly which texts are repository paths. *)
Lemma RepoPath_parse_Ok value p :
  RepoPath_parse value = Ok p <->
  let bs := String.list_byte_of_string value in
  repo_path p = value /\ Forall path_component (split_slash bs) /\
  Byte.x5c ∉ bs /\ Byte.x3a ∉ bs /\ Byte.x00 ∉ bs /\ any_control bs = false.
Proof.
  unfold RepoPath_parse. set (bs := String.list_byte_of_string value). cbn zeta.
  assert (existsb (fun c => bool_decide (c = []) || bool_decide (c = dot) || bool_decide (c = dot_dot))
    (split_slash bs) = false <-> Forall path_component (split_slash bs)) as Hc.
  { rewrite existsb_Forall. apply Forall_iff. intros c.
    rewrite !orb_false_iff, !bool_decide_eq_false. unfold path_component. tauto. }
  split.
  - intros H. apply bind_Ok in H as (u & Hr%reject_Ok & [= <-]).
    rewrite !orb_false_iff, Hc, !bool_decide_eq_false in Hr. cbn [repo_path]. tauto.
  - intros (Hv & Hcomp & H1 & H2 & H3 & H4).
    destruct (split_slash_head bs Hcomp) as [Hne Hhead].
    assert (last bs <> Some Byte.x2f) as Hlast.
    { intros Hl%split_slash_last. apply last_Some_elem_of in Hl. rewrite Forall_forall in Hcomp. by destruct (Hcomp _ Hl). }
    rewrite (proj2 (reject_Ok _ _ tt)); [by destruct p; simpl in *; subst|].
    rewrite !orb_false_iff, Hc, !bool_decide_eq_false. split_and!; try done.
    apply existsb_Forall. eapply Forall_impl; [exact Hcomp|]. intros c (_ & _ & Hd). by apply bool_decide_eq_false.
Qed.

(** ** Files *)

Record files_ok (files : list FileRecord) : Prop := {
  files_some : files <> [];
  files_numbered i f : files !! i = Some f ->
    file_id f = from_ordinal (N.of_nat i) /\ N.of_nat i <= u32_MAX;
  files_sorted : StronglySorted ord_lt (map file_path files)
}.

Lemma validate_file_Ok all i f u :
  validate_file all i f = Ok u <->
  file_id f = from_ordinal (N.of_nat i) /\ N.of_nat i <= u32_MAX /\
  match i with O => True | S j => exists g, all !! j = Some g /\ ord_lt (file_path g) (file_path f) end.
Proof.
  destruct u. unfold validate_file. rewrite bind_Ok. setoid_rewrite bind_Ok. setoid_rewrite reject_Ok.
  setoid_rewrite negb_false_iff. setoid_rewrite bool_decide_eq_true. setoid_rewrite u32_try_from_Ok.
  assert (forall g, ~ ord_le (file_path f) (file_path g) <-> ord_lt (file_path g) (file_path f)) as Hlt.
  { intros g. unfold ord_le. split.
    - intros Hn. destruct (ord_trichotomy (file_path f) (file_path g)) as [?|[?|?]]; [destruct Hn; auto..|done].
    - intros Hl [He|He]; [rewrite He in Hl; by apply ord_lt_irrefl in Hl|].
      apply (ord_lt_irrefl (file_path f)). by trans (file_path g). }
  destruct i as [|j].
  - split; [by intros (? & [-> ?] & [] & Hid & _)|]. intros (Hid & Hle & _). by exists (N.of_nat 0); split; [|exists tt].
  - setoid_rewrite bind_Ok. setoid_rewrite index_Ok. setoid_rewrite reject_Ok.
    setoid_rewrite bool_decide_eq_false. setoid_rewrite Hlt. split.
    + intros (? & [-> ?] & [] & Hid & g & Hg). eauto.
    + intros (Hid & Hle & g & Hg). exists (N.of_nat (S j)). split; [done|]. exists tt. eauto.
Qed.

Lemma validate_files_Ok all fs i :
  validate_files all i fs = Ok tt <->
  forall j f, fs !! j = Some f -> validate_file all (i + j) f = Ok tt.
Proof.
  revert i. induction fs as [|f fs IH]; intros i; cbn [validate_files]; [by split|].
  rewrite bind_Ok. setoid_rewrite IH. split.
  - intros ([] & Hf & Hfs) [|j] g Hg; simpl in Hg.
    + injection Hg as <-. by rewrite Nat.add_0_r.
    + rewrite <-Nat.add_succ_comm. by apply Hfs.
  - intros H. exists tt. split; [rewrite <-(Nat.add_0_r i); by apply (H O)|].
    intros j g Hg. rewrite Nat.add_succ_comm. by apply (H (S j)).
Qed.

(** Neighbours in order make a sorted list. *)
Lemma neighbours_sorted {A} (R : A -> A -> Prop) `{!Transitive R} l :
  StronglySorted R l <-> forall i x y, l !! i = Some x -> l !! S i = Some y -> R x y.
Proof.
  split.
  - induction 1 as [|x l _ IH Hx]; intros [|i] y z Hy Hz; simpl in Hy, Hz; try done.
    + injection Hy as <-. rewrite Forall_forall in Hx. apply Hx. by eapply list_elem_of_lookup_2.
    + by apply (IH i).
  - intros H. apply Sorted_StronglySorted; [done|]. induction l as [|x l IH]; constructor.
    + apply IH. intros i. apply (H (S i)).
    + destruct l; constructor. by apply (H 0%nat).
Qed.

Lemma files_ok_validate files :
  files <> [] /\ validate_files files 0 files = Ok tt <-> files_ok files.
Proof.
  rewrite validate_files_Ok. setoid_rewrite validate_file_Ok. simpl. split.
  - intros [Hne H]. split; [done|intros i f Hf; by destruct (H i f Hf) as (? & ? & _)|].
    apply neighbours_sorted; [apply _|]. intros i x y (f & -> & Hf)%list_lookup_fmap_Some_1 (g & -> & Hg)%list_lookup_fmap_Some_1.
    destruct (H _ _ Hg) as (_ & _ & f' & Hf' & Hlt). by rewrite Hf in Hf'; injection Hf' as <-.
  - intros [Hne Hn Hs]. split; [done|]. intros [|i] f Hf; destruct (Hn _ _ Hf) as [? ?]; [done|].
    split; [done|]. split; [done|].
    assert (is_Some (files !! i)) as [g Hg] by (apply lookup_lt_is_Some; apply lookup_lt_Some in Hf; lia).
    exists g. split; [done|]. rewrite (neighbours_sorted ord_lt) in Hs.
    apply (Hs i); rewrite list_lookup_fmap; [by rewrite Hg|by rewrite Hf].
Qed.

(** ** Tensors *)

(** A span inside its file. *)
Definition span_inside (files : list FileRecord) (span : SourceSpan) : Prop :=
  exists f, files !! N.to_nat (ordinal (span_file span)) = Some f /\
    span_offset span + span_length span <= N.min (record_size f) u64_MAX.

Definition tensor_ok (files : list FileRecord) (t : TensorRecord) : Prop :=
  record_name t <> "" /\
  match record_storage t with
  | Plain dtype span => byte_len dtype (record_shape t) = Ok (span_length span) /\ span_inside files span
  | Quantized s =>
      logical_shape s = record_shape t /\ span_inside files (payload s) /\
      forall r c, companions s !! r = Some c -> span_inside files (companion_span c)
  end.

Lemma validate_span_Ok files span u :
  files_ok files -> validate_inventory_span span files = Ok u <-> span_inside files span.
Proof.
  intros [_ Hn _]. destruct u. unfold validate_inventory_span, span_inside. rewrite bind_Ok. split.
  - intros (i & [-> Hi]%usize_try_from_Ok & H). apply bind_Ok in H as (f & Hf%ok_or_Ok & H).
    apply bind_Ok in H as (e & He & Hr%reject_Ok). bool_to_prop. unfold span_end in He.
    destruct (_ <=? _) eqn:E; [|done]. injection He as <-. bool_to_prop. exists f. split; [done|lia].
  - intros (f & Hf & Hle). exists (ordinal (span_file span)). destruct (Hn _ _ Hf) as [_ Hu].
    rewrite usize_try_from_Ok. split; [split; [done|assert (u32_MAX <= usize_MAX) by done; lia]|].
    rewrite Hf. cbn [ok_or mbind result_bind]. unfold span_end. rewrite (proj2 (N.leb_le _ _)) by lia.
    cbn [mbind result_bind]. apply reject_Ok, N.ltb_ge. lia.
Qed.

Lemma try_fold_unit_Ok {A} (f : A -> result unit) l :
  try_fold (fun _ a => f a) tt l = Ok tt <-> Forall (fun a => f a = Ok tt) l.
Proof.
  induction l as [|a l IH]; cbn [try_fold]; [split; [constructor|done]|].
  rewrite bind_Ok, Forall_cons. split; [by intros ([] & ? & ?%IH)|intros [? ?%IH]; by exists tt].
Qed.

Lemma validate_companions_Ok files (m : gmap StableName CompanionTensor) :
  files_ok files ->
  try_fold (fun _ c => validate_inventory_span (companion_span (snd c)) files) tt (btree_list m) = Ok tt <->
  forall r c, m !! r = Some c -> span_inside files (companion_span c).
Proof.
  intros Hf. rewrite (try_fold_unit_Ok (fun c => validate_inventory_span (companion_span (snd c)) files)).
  rewrite Forall_forall. split.
  - intros H r c Hrc. apply (validate_span_Ok _ _ tt Hf), (H (r, c)). by apply btree_list_elem.
  - intros H [r c] Hrc%btree_list_elem. by eapply validate_span_Ok, H.
Qed.

Lemma validate_tensor_Ok files t u :
  files_ok files -> validate_tensor files u t = Ok tt <-> tensor_ok files t.
Proof.
  intros Hf. unfold validate_tensor, tensor_ok. destruct (record_storage t) as [d span|s]; split.
  - intros H. apply bind_Ok in H as (? & Hn%reject_Ok & H). apply bind_Ok in H as (len & Hl & H).
    apply bind_Ok in H as (? & Hx%reject_Ok & Hs). bool_to_prop. subst len.
    by apply validate_span_Ok in Hs.
  - intros (Hn & Hl & Hs). rewrite bool_decide_false by done. cbn [reject mbind result_bind].
    rewrite Hl. cbn [mbind result_bind]. rewrite N.eqb_refl. cbn [negb reject mbind result_bind].
    by apply validate_span_Ok.
  - intros H. apply bind_Ok in H as (? & Hn%reject_Ok & H). apply bind_Ok in H as (? & Hl%reject_Ok & H).
    apply bind_Ok in H as (? & Hs%validate_span_Ok & Hc); [|done]. bool_to_prop.
    pose proof (proj1 (validate_companions_Ok files (companions s) Hf) Hc). by split_and!.
  - intros (Hn & Hl & Hs & Hc). rewrite (bool_decide_false (record_name t = "")) by done. cbn [reject mbind result_bind].
    rewrite bool_decide_true by done. cbn [negb reject mbind result_bind].
    rewrite (proj2 (validate_span_Ok files (payload s) tt Hf) Hs). cbn [mbind result_bind].
    by apply validate_companions_Ok.
Qed.

(** ** Inventories *)

#[export] Instance name_le_total : Total name_le.
Proof. intros x y. apply String.le_total. Qed.
#[export] Instance name_le_trans : Transitive name_le.
Proof. intros x y z. unfold name_le. apply transitivity. Qed.

Definition inventory_names (ts : list TensorRecord) : list string := map record_name ts.

(** In a list sorted by name, equal names are neighbours. *)
Lemma windows_names ts :
  StronglySorted name_le ts ->
  windows_any (fun x y => bool_decide (record_name x = record_name y)) ts = false <->
  NoDup (inventory_names ts).
Proof.
  induction 1 as [|x l Hs IH Hx]; [split; [constructor|done]|].
  destruct l as [|y l]; [split; [intros _; apply NoDup_singleton|done]|].
  rewrite windows_any_cons, orb_false_iff, IH, bool_decide_eq_false.
  change (inventory_names (x :: y :: l)) with (record_name x :: inventory_names (y :: l)).
  rewrite NoDup_cons. apply StronglySorted_inv in Hs as [_ Hy]. split; intros [Hn Hd]; (split; [|done]).
  - intros (z & Hz & Hin)%list_elem_of_fmap. apply elem_of_cons in Hin as [->|Hin]; [done|].
    apply Hn. apply (anti_symm String.le).
    + rewrite Forall_forall in Hx. apply (Hx y). by left.
    + rewrite Hz. rewrite Forall_forall in Hy. by apply Hy.
  - intros He. apply Hn. rewrite He. by left.
Qed.

(** What a validated inventory promises. *)
Record inventory_ok (i : Inventory) : Prop := {
  inventory_files : files_ok (files i);
  inventory_sorted : StronglySorted name_le (tensors i);
  inventory_distinct : NoDup (inventory_names (tensors i));
  inventory_tensors : Forall (tensor_ok (files i)) (tensors i)
}.

Lemma try_fold_tensors_Ok fs ts : files_ok fs ->
  try_fold (validate_tensor fs) tt ts = Ok tt <-> Forall (tensor_ok fs) ts.
Proof.
  intros Hf. induction ts as [|t ts IH]; cbn [try_fold]; [split; [constructor|done]|].
  rewrite bind_Ok, Forall_cons. split.
  - by intros ([] & ?%validate_tensor_Ok & ?%IH).
  - intros [? ?%IH]. exists tt. split; [by apply validate_tensor_Ok|done].
Qed.

(** Exactly the valid files and tensors make an inventory, sorted by name. *)
Lemma Inventory_new_Ok fs ts i :
  Inventory_new fs ts = Ok i <->
  files_ok fs /\ NoDup (inventory_names ts) /\ Forall (tensor_ok fs) ts /\
  i = {| files := fs; tensors := merge_sort name_le ts |}.
Proof.
  pose proof (merge_sort_Permutation name_le ts) as Hp.
  assert (NoDup (inventory_names (merge_sort name_le ts)) <-> NoDup (inventory_names ts)) as Hnd.
  { unfold inventory_names. by rewrite Hp. }
  unfold Inventory_new. rewrite bind_Ok. split.
  - intros (? & Hne%reject_Ok & H). apply bind_Ok in H as ([] & Hv & H).
    apply bind_Ok in H as (? & Hw%reject_Ok & H). apply bind_Ok in H as ([] & Ht & [= <-]).
    bool_to_prop. assert (files_ok fs) as Hf by (by apply files_ok_validate).
    rewrite windows_names in Hw by apply (StronglySorted_merge_sort name_le).
    apply try_fold_tensors_Ok in Ht; [|done]. rewrite Hp in Ht. split_and!; [done|by apply Hnd|done..].
  - intros (Hf & Hd & Ht & ->). pose proof Hf as Hf'. apply files_ok_validate in Hf' as [Hne Hv].
    exists tt. rewrite bool_decide_false by done. split; [done|]. rewrite Hv. cbn [mbind result_bind].
    rewrite (proj2 (windows_names _ (StronglySorted_merge_sort name_le ts))) by by apply Hnd.
    cbn [reject mbind result_bind]. rewrite (proj2 (try_fold_tensors_Ok fs _ Hf)); [done|]. by rewrite Hp.
Qed.

Lemma Inventory_new_ok fs ts i : Inventory_new fs ts = Ok i -> inventory_ok i.
Proof.
  intros (Hf & Hd & Ht & ->)%Inventory_new_Ok. split; cbn [files tensors]; [done|..].
  - apply (StronglySorted_merge_sort name_le).
  - unfold inventory_names. by rewrite (merge_sort_Permutation name_le ts).
  - by rewrite (merge_sort_Permutation name_le ts).
Qed.

(** Sorting by distinct names leaves a sorted list as it is. *)
Lemma merge_sort_names_id ts :
  StronglySorted name_le ts -> NoDup (inventory_names ts) -> merge_sort name_le ts = ts.
Proof.
  apply (merge_sort_distinct_id name_le record_name). intros x y H1 H2. by apply (anti_symm String.le).
Qed.

Lemma Inventory_try_from_ok i : inventory_ok i -> Inventory_try_from i = Ok i.
Proof.
  intros [Hf Hs Hd Ht]. apply Inventory_new_Ok. split_and!; [done..|].
  rewrite merge_sort_names_id by done. by destruct i.
Qed.

Lemma inventory_tensor_spec i name t :
  inventory_ok i -> inventory_tensor i name = Some t <-> t ∈ tensors i /\ record_name t = name.
Proof.
  intros [_ _ Hd _]. unfold inventory_tensor. induction (tensors i) as [|x l IH]; cbn [List.find].
  { by split; [|intros [?%elem_of_nil _]]. }
  apply NoDup_cons in Hd as [Hx Hd]. case_bool_decide as Hn.
  - split; [by intros [= <-]; split; [left|]|]. intros [[->|Hin]%elem_of_cons Ht]; [done|].
    destruct Hx. rewrite Hn, <-Ht. apply list_elem_of_fmap. by exists t.
  - rewrite (IH Hd), elem_of_cons. naive_solver.
Qed.
