(* ===== verification/Gguf.v ===== *)
(** * GGUF containers of [gguf.rs]

    Metadata and the tensor table of a GGUF file, read through the buffered
    reader, and the records of its tensors. *)

From S2P Require Import Prelude Errors Cancel Tensor Identity Order Limits Quantization Inventory.
From S2P Require Import FileReader.
Local Open Scope N_scope.

(** [b"GGUF"]. *)
Definition MAGIC : bytes := [Byte.x47; Byte.x47; Byte.x55; Byte.x46].
Definition DEFAULT_ALIGNMENT : N := 32.
Definition MIN_VERSION : N := 2.
Definition MAX_VERSION : N := 3.
Definition ENCODING_VERSION : N := 1.
Definition MAX_METADATA_NESTING_DEPTH : nat := 64.

(** ** Values *)

(** Signed integers by value, floating-point numbers by their bits. *)
Inductive GgufArray :=
  | Arrays (values : list GgufArray)
  | U8s (values : list N)
  | I8s (values : list Z)
  | U16s (values : list N)
  | I16s (values : list Z)
  | U32s (values : list N)
  | I32s (values : list Z)
  | F32s (values : list N)
  | Bools (values : list bool)
  | Strings (values : list string)
  | U64s (values : list N)
  | I64s (values : list Z)
  | F64s (values : list N).

Inductive GgufValue :=
  | GgufU8 (value : N)
  | GgufI8 (value : Z)
  | GgufU16 (value : N)
  | GgufI16 (value : Z)
  | GgufU32 (value : N)
  | GgufI32 (value : Z)
  | GgufF32 (value : N)
  | GgufBool (value : bool)
  | GgufString (value : string)
  | GgufArrayValue (value : GgufArray)
  | GgufU64 (value : N)
  | GgufI64 (value : Z)
  | GgufF64 (value : N).

Definition as_u64 (v : GgufValue) : option N :=
  match v with
  | GgufU8 n | GgufU16 n | GgufU32 n | GgufU64 n => Some n
  | _ => None
  end.

Definition as_str (v : GgufValue) : option string :=
  match v with GgufString s => Some s | _ => None end.

Record GgufMetadata := {
  gguf_version : N;
  gguf_alignment : N;
  gguf_entries : gmap string GgufValue
}.

(** ** Storage types *)

Inductive GgmlType :=
  | Ggml_F32 | Ggml_F16 | Ggml_Q4_0 | Ggml_Q4_1 | Ggml_Q5_0 | Ggml_Q5_1
  | Ggml_Q8_0 | Ggml_Q8_1 | Ggml_Q2K | Ggml_Q3K | Ggml_Q4K | Ggml_Q5K
  | Ggml_Q6K | Ggml_Q8K | Ggml_Iq2Xxs | Ggml_Iq2Xs | Ggml_Iq3Xxs | Ggml_Iq1S
  | Ggml_Iq4Nl | Ggml_Iq3S | Ggml_Iq2S | Ggml_Iq4Xs | Ggml_I8 | Ggml_I16
  | Ggml_I32 | Ggml_I64 | Ggml_F64 | Ggml_Iq1M | Ggml_Bf16 | Ggml_Tq1_0
  | Ggml_Tq2_0 | Ggml_Mxfp4 | Ggml_Nvfp4 | Ggml_Q1_0 | Ggml_Q2_0.

#[export] Instance GgmlType_eq_dec : EqDecision GgmlType.
Proof. solve_decision. Defined.

Definition GgmlType_ALL : list GgmlType :=
  [Ggml_F32; Ggml_F16; Ggml_Q4_0; Ggml_Q4_1; Ggml_Q5_0; Ggml_Q5_1;
   Ggml_Q8_0; Ggml_Q8_1; Ggml_Q2K; Ggml_Q3K; Ggml_Q4K; Ggml_Q5K;
   Ggml_Q6K; Ggml_Q8K; Ggml_Iq2Xxs; Ggml_Iq2Xs; Ggml_Iq3Xxs; Ggml_Iq1S;
   Ggml_Iq4Nl; Ggml_Iq3S; Ggml_Iq2S; Ggml_Iq4Xs; Ggml_I8; Ggml_I16;
   Ggml_I32; Ggml_I64; Ggml_F64; Ggml_Iq1M; Ggml_Bf16; Ggml_Tq1_0;
   Ggml_Tq2_0; Ggml_Mxfp4; Ggml_Nvfp4; Ggml_Q1_0; Ggml_Q2_0].

Definition ggml_from_code (code : N) : result GgmlType :=
  match code with
  | 0 => Ok Ggml_F32 | 1 => Ok Ggml_F16 | 2 => Ok Ggml_Q4_0 | 3 => Ok Ggml_Q4_1
  | 6 => Ok Ggml_Q5_0 | 7 => Ok Ggml_Q5_1 | 8 => Ok Ggml_Q8_0 | 9 => Ok Ggml_Q8_1
  | 10 => Ok Ggml_Q2K | 11 => Ok Ggml_Q3K | 12 => Ok Ggml_Q4K | 13 => Ok Ggml_Q5K
  | 14 => Ok Ggml_Q6K | 15 => Ok Ggml_Q8K | 16 => Ok Ggml_Iq2Xxs | 17 => Ok Ggml_Iq2Xs
  | 18 => Ok Ggml_Iq3Xxs | 19 => Ok Ggml_Iq1S | 20 => Ok Ggml_Iq4Nl | 21 => Ok Ggml_Iq3S
  | 22 => Ok Ggml_Iq2S | 23 => Ok Ggml_Iq4Xs | 24 => Ok Ggml_I8 | 25 => Ok Ggml_I16
  | 26 => Ok Ggml_I32 | 27 => Ok Ggml_I64 | 28 => Ok Ggml_F64 | 29 => Ok Ggml_Iq1M
  | 30 => Ok Ggml_Bf16 | 34 => Ok Ggml_Tq1_0 | 35 => Ok Ggml_Tq2_0 | 39 => Ok Ggml_Mxfp4
  | 40 => Ok Ggml_Nvfp4 | 41 => Ok Ggml_Q1_0 | 42 => Ok Ggml_Q2_0
  | _ => Err Unsupported
  end.

Definition ggml_code (t : GgmlType) : N :=
  match t with
  | Ggml_F32 => 0 | Ggml_F16 => 1 | Ggml_Q4_0 => 2 | Ggml_Q4_1 => 3 | Ggml_Q5_0 => 6
  | Ggml_Q5_1 => 7 | Ggml_Q8_0 => 8 | Ggml_Q8_1 => 9 | Ggml_Q2K => 10 | Ggml_Q3K => 11
  | Ggml_Q4K => 12 | Ggml_Q5K => 13 | Ggml_Q6K => 14 | Ggml_Q8K => 15 | Ggml_Iq2Xxs => 16
  | Ggml_Iq2Xs => 17 | Ggml_Iq3Xxs => 18 | Ggml_Iq1S => 19 | Ggml_Iq4Nl => 20 | Ggml_Iq3S => 21
  | Ggml_Iq2S => 22 | Ggml_Iq4Xs => 23 | Ggml_I8 => 24 | Ggml_I16 => 25 | Ggml_I32 => 26
  | Ggml_I64 => 27 | Ggml_F64 => 28 | Ggml_Iq1M => 29 | Ggml_Bf16 => 30 | Ggml_Tq1_0 => 34
  | Ggml_Tq2_0 => 35 | Ggml_Mxfp4 => 39 | Ggml_Nvfp4 => 40 | Ggml_Q1_0 => 41 | Ggml_Q2_0 => 42
  end.

Definition ggml_name (t : GgmlType) : string :=
  match t with
  | Ggml_F32 => "f32" | Ggml_F16 => "f16" | Ggml_Q4_0 => "q4_0" | Ggml_Q4_1 => "q4_1"
  | Ggml_Q5_0 => "q5_0" | Ggml_Q5_1 => "q5_1" | Ggml_Q8_0 => "q8_0" | Ggml_Q8_1 => "q8_1"
  | Ggml_Q2K => "q2_k" | Ggml_Q3K => "q3_k" | Ggml_Q4K => "q4_k" | Ggml_Q5K => "q5_k"
  | Ggml_Q6K => "q6_k" | Ggml_Q8K => "q8_k" | Ggml_Iq2Xxs => "iq2_xxs" | Ggml_Iq2Xs => "iq2_xs"
  | Ggml_Iq3Xxs => "iq3_xxs" | Ggml_Iq1S => "iq1_s" | Ggml_Iq4Nl => "iq4_nl" | Ggml_Iq3S => "iq3_s"
  | Ggml_Iq2S => "iq2_s" | Ggml_Iq4Xs => "iq4_xs" | Ggml_I8 => "i8" | Ggml_I16 => "i16"
  | Ggml_I32 => "i32" | Ggml_I64 => "i64" | Ggml_F64 => "f64" | Ggml_Iq1M => "iq1_m"
  | Ggml_Bf16 => "bf16" | Ggml_Tq1_0 => "tq1_0" | Ggml_Tq2_0 => "tq2_0" | Ggml_Mxfp4 => "mxfp4"
  | Ggml_Nvfp4 => "nvfp4" | Ggml_Q1_0 => "q1_0" | Ggml_Q2_0 => "q2_0"
  end.

Definition ggml_values_per_block (t : GgmlType) : N :=
  match t with
  | Ggml_F32 | Ggml_F16 | Ggml_I8 | Ggml_I16 | Ggml_I32 | Ggml_I64
  | Ggml_F64 | Ggml_Bf16 => 1
  | Ggml_Q4_0 | Ggml_Q4_1 | Ggml_Q5_0 | Ggml_Q5_1 | Ggml_Q8_0 | Ggml_Q8_1
  | Ggml_Iq4Nl | Ggml_Mxfp4 => 32
  | Ggml_Nvfp4 | Ggml_Q2_0 => 64
  | Ggml_Q1_0 => 128
  | Ggml_Q2K | Ggml_Q3K | Ggml_Q4K | Ggml_Q5K | Ggml_Q6K | Ggml_Q8K
  | Ggml_Iq2Xxs | Ggml_Iq2Xs | Ggml_Iq3Xxs | Ggml_Iq1S | Ggml_Iq3S | Ggml_Iq2S
  | Ggml_Iq4Xs | Ggml_Iq1M | Ggml_Tq1_0 | Ggml_Tq2_0 => 256
  end.

Definition ggml_bytes_per_block (t : GgmlType) : N :=
  match t with
  | Ggml_F32 | Ggml_I32 => 4
  | Ggml_F16 | Ggml_I16 | Ggml_Bf16 => 2
  | Ggml_I8 => 1
  | Ggml_I64 | Ggml_F64 => 8
  | Ggml_Q4_0 | Ggml_Iq4Nl | Ggml_Q1_0 | Ggml_Q2_0 => 18
  | Ggml_Q4_1 => 20
  | Ggml_Q5_0 => 22
  | Ggml_Q5_1 => 24
  | Ggml_Q8_0 => 34
  | Ggml_Q8_1 | Ggml_Nvfp4 => 36
  | Ggml_Q2K => 84
  | Ggml_Q3K | Ggml_Iq3S => 110
  | Ggml_Q4K => 144
  | Ggml_Q5K => 176
  | Ggml_Q6K => 210
  | Ggml_Q8K => 292
  | Ggml_Iq2Xxs | Ggml_Tq2_0 => 66
  | Ggml_Iq2Xs => 74
  | Ggml_Iq3Xxs => 98
  | Ggml_Iq1S => 50
  | Ggml_Iq2S => 82
  | Ggml_Iq4Xs => 136
  | Ggml_Iq1M => 56
  | Ggml_Tq1_0 => 54
  | Ggml_Mxfp4 => 17
  end.

Definition ggml_dtype (t : GgmlType) : option DType :=
  match t with
  | Ggml_F32 => Some F32 | Ggml_F16 => Some F16 | Ggml_I8 => Some I8 | Ggml_I16 => Some I16
  | Ggml_I32 => Some I32 | Ggml_I64 => Some I64 | Ggml_F64 => Some F64 | Ggml_Bf16 => Some Bf16
  | _ => None
  end.
(** [GgmlType::encoding]. The names are valid, so [expect] does not panic. *)
Definition ggml_encoding (t : GgmlType) : result (option ImplementationId) :=
  let expect (r : result StableName) := match r with Ok n => Ok n | _ => Panic end in
  match ggml_dtype t with
  | Some _ => mret None
  | None =>
      provider ← expect (StableName_parse "gguf");
      operation ← expect (StableName_parse (ggml_name t));
      mret (Some {| provider := provider; operation := operation; version := ENCODING_VERSION |})
  end.

(** ** Metadata *)

Inductive ValueType :=
  | Type_U8 | Type_I8 | Type_U16 | Type_I16 | Type_U32 | Type_I32 | Type_F32 | Type_Bool
  | Type_String | Type_Array | Type_U64 | Type_I64 | Type_F64.

Definition ValueType_from_raw (value : N) : result ValueType :=
  match value with
  | 0 => Ok Type_U8 | 1 => Ok Type_I8 | 2 => Ok Type_U16 | 3 => Ok Type_I16 | 4 => Ok Type_U32
  | 5 => Ok Type_I32 | 6 => Ok Type_F32 | 7 => Ok Type_Bool | 8 => Ok Type_String
  | 9 => Ok Type_Array | 10 => Ok Type_U64 | 11 => Ok Type_I64 | 12 => Ok Type_F64
  | _ => Err InvalidFormat
  end.

Definition element_bytes (t : ValueType) : N :=
  match t with
  | Type_U8 | Type_I8 | Type_Bool => 1
  | Type_U16 | Type_I16 => 2
  | Type_U32 | Type_I32 | Type_F32 => 4
  | Type_String | Type_U64 | Type_I64 | Type_F64 => 8
  | Type_Array => 12
  end.

(** A reservation of so many items of a size the language does not fix: the
    allocator, or the bound of its capacity, may refuse. *)
Definition reserve_items (count : N) : M unit := fun env t =>
  if grants env t count then Ok (tt, S t) else Err ResourceLimit.

(** The loop [for _ in 0..count { values.push(read(reader)?) }]. *)
Fixpoint read_times {A} (count : nat) (read : RM A) : RM (list A) :=
  match count with
  | O => mret []
  | S count => a ← read; rest ← read_times count read; mret (a :: rest)
  end.

(** [reserve_vec] and the loop. *)
Definition read_elements {A} (count : N) (read : RM A) : RM (list A) :=
  _ ← run (reserve_items count); read_times (N.to_nat count) read.

(** [read_array] at the nesting depth [MAX_METADATA_NESTING_DEPTH - levels]. *)
Fixpoint read_array (levels : nat) (metadata_limit : N) : RM GgufArray :=
  match levels with
  | O => try (Err ResourceLimit)
  | S levels =>
      raw ← read_u32;
      element_type ← try (ValueType_from_raw raw);
      let max_elements := metadata_limit / element_bytes element_type in
      count ← read_u64;
      count ← try (bounded_count count max_elements);
      match element_type with
      | Type_U8 => U8s <$> read_elements count read_u8
      | Type_I8 => I8s <$> read_elements count read_i8
      | Type_U16 => U16s <$> read_elements count read_u16
      | Type_I16 => I16s <$> read_elements count read_i16
      | Type_U32 => U32s <$> read_elements count read_u32
      | Type_I32 => I32s <$> read_elements count read_i32
      | Type_F32 => F32s <$> read_elements count read_f32
      | Type_Bool => Bools <$> read_elements count read_boolean
      | Type_String => Strings <$> read_elements count (read_string metadata_limit)
      | Type_U64 => U64s <$> read_elements count read_u64
      | Type_I64 => I64s <$> read_elements count read_i64
      | Type_F64 => F64s <$> read_elements count read_f64
      | Type_Array => Arrays <$> read_elements count (read_array levels metadata_limit)
      end
  end.

Definition read_value (t : ValueType) (metadata_limit : N) : RM GgufValue :=
  match t with
  | Type_U8 => GgufU8 <$> read_u8
  | Type_I8 => GgufI8 <$> read_i8
  | Type_U16 => GgufU16 <$> read_u16
  | Type_I16 => GgufI16 <$> read_i16
  | Type_U32 => GgufU32 <$> read_u32
  | Type_I32 => GgufI32 <$> read_i32
  | Type_F32 => GgufF32 <$> read_f32
  | Type_Bool => GgufBool <$> read_boolean
  | Type_String => GgufString <$> read_string metadata_limit
  | Type_Array => GgufArrayValue <$> read_array MAX_METADATA_NESTING_DEPTH metadata_limit
  | Type_U64 => GgufU64 <$> read_u64
  | Type_I64 => GgufI64 <$> read_i64
  | Type_F64 => GgufF64 <$> read_f64
  end.

(** One round of the loop of [read_metadata]. *)
Definition read_entry (limits : ResourceLimits) (metadata_limit metadata_start : N)
    (entries : gmap string GgufValue) : RM (gmap string GgufValue) :=
  _ ← run check;
  key ← read_string (max_name_bytes limits);
  raw ← read_u32;
  value_type ← try (ValueType_from_raw raw);
  value ← read_value value_type metadata_limit;
  r ← get_reader;
  metadata_bytes ← try (d ← unchecked_sub (offset r) metadata_start; usize_try_from d);
  _ ← try (reject (metadata_limit <? metadata_bytes) ResourceLimit);
  _ ← try (reject (bool_decide (is_Some (entries !! key))) InvalidFormat);
  mret (<[key := value]> entries).

Fixpoint read_entries (count : nat) (limits : ResourceLimits) (metadata_limit metadata_start : N)
    (entries : gmap string GgufValue) : RM (gmap string GgufValue) :=
  match count with
  | O => mret entries
  | S count =>
      entries ← read_entry limits metadata_limit metadata_start entries;
      read_entries count limits metadata_limit metadata_start entries
  end.

Definition read_metadata (limits : ResourceLimits) : RM (gmap string GgufValue) :=
  let metadata_limit :=
    match usize_try_from (max_header_bytes limits) with Ok n => n | _ => usize_MAX end in
  count ← read_u64;
  metadata_count ← try (bounded_count count (metadata_limit / 12));
  r ← get_reader;
  read_entries (N.to_nat metadata_count) limits metadata_limit (offset r) ∅.

Definition is_power_of_two (n : N) : bool :=
  match n with
  | 0 => false
  | Npos p => bool_decide (n = 2 ^ N.log2 n)
  end.

Definition metadata_alignment (entries : gmap string GgufValue) : result N :=
  let alignment := default DEFAULT_ALIGNMENT (entries !! "general.alignment" ≫= as_u64) in
  _ ← reject ((alignment =? 0) || negb (is_power_of_two alignment)) InvalidFormat;
  mret alignment.

(** ** Tensors *)

Record RawTensor := {
  raw_name : string;
  dimensions : list N;
  ggml_type : N;
  relative_offset : N
}.

Definition read_tensor_info (limits : ResourceLimits) : RM RawTensor :=
  _ ← run check;
  name ← read_string (max_name_bytes limits);
  raw_rank ← read_u32;
  rank ← try (bounded_count raw_rank (max_rank limits));
  _ ← try (reject (rank =? 0) InvalidFormat);
  _ ← run (reserve_items rank);
  dimensions ← read_times (N.to_nat rank) read_u64;
  ggml_type ← read_u32;
  relative_offset ← read_u64;
  mret {| raw_name := name; dimensions := dimensions; ggml_type := ggml_type;
          relative_offset := relative_offset |}.

Definition read_tensor_infos (tensor_count : N) (limits : ResourceLimits) : RM (list RawTensor) :=
  _ ← run (reserve_items tensor_count);
  read_times (N.to_nat tensor_count) (read_tensor_info limits).

(** [storage]. *)
Definition gguf_storage (file : FileId) (offset : N) (shape : list N) (code : N) : result Storage :=
  t ← ggml_from_code code;
  match ggml_dtype t with
  | Some dtype =>
      length ← byte_len dtype shape;
      span ← SourceSpan_new file offset length;
      mret (Plain dtype span)
  | None =>
      axis ← ok_or (checked_sub (N.of_nat (length shape)) 1) InvalidFormat;
      let values_per_block := ggml_values_per_block t in
      let bytes_per_block := ggml_bytes_per_block t in
      axis_values ← index shape (N.to_nat axis);
      _ ← reject (negb (axis_values mod values_per_block =? 0)) InvalidFormat;
      elements ← try_fold mul_dimension 1 shape;
      length ← ok_or
        (blocks ← (if values_per_block =? 0 then None else Some (elements / values_per_block));
         checked_mul blocks bytes_per_block) ResourceLimit;
      span ← SourceSpan_new file offset length;
      axis ← u32_try_from axis;
      block ← BlockPacking_new values_per_block bytes_per_block (Axis axis);
      encoding ← ggml_encoding t;
      encoding ← ok_or encoding InvalidFormat;
      storage ← QuantizedStorage_new encoding shape span (Blocks block);
      mret (Quantized storage)
  end.

Definition align_up (value alignment : N) : result N :=
  step ← unchecked_sub alignment 1;
  rounded ← ok_or (checked_add value step) ResourceLimit;
  mret (N.ldiff rounded step).

(** One round of the loop of [build_tensor_records]. *)
Definition build_tensor_record (file_id : FileId) (file_size data_base alignment : N)
    (raw : RawTensor) (built : list (N * N) * list TensorRecord)
  : M (list (N * N) * list TensorRecord) :=
  let '(occupied, tensors) := built in
  _ ← check;
  _ ← lift (reject (negb (relative_offset raw mod alignment =? 0)) InvalidFormat);
  absolute_offset ← lift (ok_or (checked_add data_base (relative_offset raw)) ResourceLimit);
  let shape := rev (dimensions raw) in
  storage ← lift (gguf_storage file_id absolute_offset shape (ggml_type raw));
  let span := storage_span storage in
  last ← lift (span_end span);
  _ ← lift (reject (file_size <? last) InvalidFormat);
  mret (occupied ++ [(span_offset span, last)],
        tensors ++ [{| record_name := raw_name raw; record_shape := shape;
                       record_storage := storage |}]).

(** The order of pairs of integers. *)
Definition span_le (x y : N * N) : Prop := fst x < fst y \/ fst x = fst y /\ snd x <= snd y.

#[export] Instance span_le_dec : RelDecision span_le.
Proof. intros x y. unfold span_le. apply _. Defined.

Definition build_tensor_records (raw_tensors : list RawTensor) (file_id : FileId)
    (file_size data_base alignment : N) : M (list TensorRecord) :=
  _ ← reserve_items (N.of_nat (length raw_tensors));
  _ ← reserve_items (N.of_nat (length raw_tensors));
  '(occupied, tensors) ←
    for_each raw_tensors (build_tensor_record file_id file_size data_base alignment) ([], []);
  let occupied := merge_sort span_le occupied in
  _ ← lift (reject (windows_any (fun x y => fst y <? snd x) occupied) InvalidFormat);
  mret tensors.

(** ** Containers *)

(** The part of [parse] that reads the header: the version, the entries, the
    alignment and the tensor table. *)
Definition read_header (limits : ResourceLimits)
  : RM (N * gmap string GgufValue * N * list RawTensor) :=
  magic ← read 4;
  _ ← try (reject (negb (bool_decide (magic = MAGIC))) InvalidFormat);
  version ← read_u32;
  _ ← try (reject (negb ((MIN_VERSION <=? version) && (version <=? MAX_VERSION))) Unsupported);
  count ← read_u64;
  tensor_count ← try (bounded_count count (max_tensors limits));
  entries ← read_metadata limits;
  alignment ← try (metadata_alignment entries);
  raw_tensors ← read_tensor_infos tensor_count limits;
  mret (version, entries, alignment, raw_tensors).

Definition parse (f : File) (file_id : FileId) (file_size : N) (limits : ResourceLimits)
  : M (GgufMetadata * list TensorRecord) :=
  '(header, r) ← read_header limits (Reader_new f file_size (max_header_bytes limits));
  let '(version, entries, alignment, raw_tensors) := header in
  data_base ← lift (align_up (offset r) alignment);
  _ ← lift (reject (file_size <? data_base) InvalidFormat);
  _ ← lift (reject (max_header_bytes limits <? data_base) ResourceLimit);
  tensors ← build_tensor_records raw_tensors file_id file_size data_base alignment;
  mret ({| gguf_version := version; gguf_alignment := alignment; gguf_entries := entries |}, tensors).
