(* ===== verification/ReaderSpecs.v ===== *)
(** * The buffered reader reads the file

    Whatever the buffer holds and however short the positional reads are, a
    successful read returns the next bytes of the file, within its size and the
    header limit; it never panics, and on a file that can be read it fails only
    for one of those two bounds. *)

From S2P Require Import Prelude Errors Cancel Tensor Identity Cast FileReader Gguf.
From Stdlib Require Strings.String.
Local Open Scope N_scope.

(** ** Slices *)

Lemma slice_length bs o n : o + n <= N.of_nat (length bs) -> length (slice bs o n) = N.to_nat n.
Proof. intros H. unfold slice. rewrite length_take, length_drop. lia. Qed.

Lemma slice_0 bs o : slice bs o 0 = [].
Proof. done. Qed.

Lemma slice_app bs o a b : slice bs o (a + b) = slice bs o a ++ slice bs (o + a) b.
Proof.
  unfold slice. rewrite !N2Nat.inj_add, <-take_take_drop, drop_drop. f_equal; f_equal; f_equal; lia.
Qed.

Lemma slice_slice bs o n o' n' :
  o' + n' <= n -> slice (slice bs o n) o' n' = slice bs (o + o') n'.
Proof.
  intros H. unfold slice. rewrite skipn_firstn_comm, take_take, drop_drop.
  f_equal; [lia|]. f_equal. lia.
Qed.

Lemma slice_prefix bs o n : slice bs o n `prefix_of` drop (N.to_nat o) bs.
Proof. unfold slice. apply prefix_take. Qed.

Lemma prefix_slice bs o l : l `prefix_of` drop (N.to_nat o) bs -> slice bs o (N.of_nat (length l)) = l.
Proof. intros [k Hk]. unfold slice. rewrite Hk, Nat2N.id. apply take_app_length. Qed.

(** ** Positional reads *)

Lemma read_exact_loop_spec f fuel : file_ok f -> forall o n,
  (N.to_nat n <= fuel)%nat ->
  match read_exact_loop f fuel o n with
  | Ok bs => bs = slice (contents f) o n /\ (n = 0 \/ o + n <= N.of_nat (length (contents f)))
  | Err _ => ~ reliable f \/ N.of_nat (length (contents f)) < o + n \/ u64_MAX < o + n
  | Panic => False
  end.
Proof.
  intros [Hs Hn He]. induction fuel as [|fuel IH]; intros o n Hfuel; cbn [read_exact_loop];
    (destruct (N.eqb_spec n 0) as [->|Hz]; [by split; [|left]|]); [lia|].
  destruct (read_at f o n) as [a|e|] eqn:Ea; cbn [mbind result_bind].
  - destruct (N.eqb_spec a 0) as [->|Ha]; cbn [reject mbind result_bind].
    { right. left. destruct (Hn o n Ea); lia. }
    destruct (Hs o n a Ea) as [Hle [?|Hin]]; [done|].
    destruct (checked_add o a) as [next|] eqn:En; cbn [ok_or mbind result_bind].
    2: { right. right. unfold checked_add in En. destruct (_ <=? _) eqn:E; [done|]. bool_to_prop. lia. }
    apply checked_add_Some in En as [-> _]. unfold unchecked_sub.
    rewrite (proj2 (N.leb_le _ _)) by lia. cbn [mbind result_bind].
    specialize (IH (o + a) (n - a) ltac:(lia)). replace (o + a + (n - a)) with (o + n) in IH by lia.
    destruct (read_exact_loop f fuel (o + a) (n - a)) as [bs|e|]; cbn [mbind result_bind]; [|done..].
    destruct IH as [-> Hend]. rewrite <-slice_app. replace (a + (n - a)) with n by lia.
    split; [done|]. right. destruct Hend; lia.
  - left. intros Hr. destruct (Hr o n). congruence.
  - by destruct (He o n).
Qed.

Lemma read_exact_at_spec f o n :
  file_ok f ->
  match read_exact_at f o n with
  | Ok bs => bs = slice (contents f) o n /\ (n = 0 \/ o + n <= N.of_nat (length (contents f)))
  | Err _ => ~ reliable f \/ N.of_nat (length (contents f)) < o + n \/ u64_MAX < o + n
  | Panic => False
  end.
Proof. intros Hf. by apply read_exact_loop_spec. Qed.

(** ** The invariant *)

Record reader_ok (r : Reader) : Prop := {
  reader_file : file_ok (file r);
  reader_size : file_size r <= u64_MAX;
  reader_offset : offset r <= file_size r /\ offset r <= limit r;
  reader_buffer : length (buffer r) = N.to_nat READER_BUFFER_BYTES;
  reader_filled : buffer_start r + buffer_len r <= file_size r /\
    buffer_len r <= READER_BUFFER_BYTES;
  reader_inside : buffer_len r = 0 \/ buffer_start r + buffer_len r <= N.of_nat (length (contents (file r)));
  reader_bytes : slice (buffer r) 0 (buffer_len r) = slice (contents (file r)) (buffer_start r) (buffer_len r)
}.

(** The same reader, so many bytes further. *)
Record advanced (r r' : Reader) (n : N) : Prop := {
  advanced_ok : reader_ok r';
  advanced_file : file r' = file r;
  advanced_size : file_size r' = file_size r;
  advanced_limit : limit r' = limit r;
  advanced_offset : offset r' = offset r + n
}.

(** The bytes not read yet. *)
Definition unread (r : Reader) : bytes := drop (N.to_nat (offset r)) (contents (file r)).

(** The file can be read to its size. *)
Record readable (r : Reader) : Prop := {
  readable_reads : reliable (file r);
  readable_size : file_size r <= N.of_nat (length (contents (file r)));
  readable_isize : file_size r <= isize_MAX
}.

Lemma Reader_new_ok f size lim : file_ok f -> size <= u64_MAX -> reader_ok (Reader_new f size lim).
Proof.
  intros Hf Hs. split; cbn [Reader_new file file_size limit offset buffer buffer_start buffer_len];
    try done; lia.
Qed.

Lemma advanced_refl r : reader_ok r -> advanced r r 0.
Proof. intros H. split; try done. lia. Qed.

Lemma advanced_trans r1 r2 r3 n m : advanced r1 r2 n -> advanced r2 r3 m -> advanced r1 r3 (n + m).
Proof. intros [] []. split; try congruence. lia. Qed.

Lemma advanced_readable r r' n : advanced r r' n -> readable r -> readable r'.
Proof. intros [? Hf Hs ? ?] [H1 H2 H3]. split; rewrite ?Hf, ?Hs; done. Qed.

Lemma advanced_unread r r' n : advanced r r' n -> unread r' = drop (N.to_nat n) (unread r).
Proof. intros [? Hf ? ? Ho]. unfold unread. rewrite Hf, Ho, drop_drop. f_equal. lia. Qed.

(** ** Rules *)

Section Rules.
Context {A B : Type}.

Lemma rwp_bind (m : RM A) (f : A -> RM B) r (Q : result (B * Reader) -> Prop) :
  wp (m r) (fun res => match res with
                       | Ok (a, r') => wp (f a r') Q
                       | Err e => Q (Err e)
                       | Panic => Q Panic
                       end) -> wp ((m ≫= f) r) Q.
Proof using Type. intros H. apply wp_bind. eapply wp_mono; [exact H|]. by intros [[a r']| |]. Qed.

Lemma rwp_ret (a : A) r (Q : result (A * Reader) -> Prop) : Q (Ok (a, r)) -> wp (mret (M := RM) a r) Q.
Proof using Type. apply wp_ret. Qed.

Lemma rwp_try (x : result A) r (Q : result (A * Reader) -> Prop) :
  match x with Ok a => Q (Ok (a, r)) | Err e => Q (Err e) | Panic => Q Panic end ->
  wp (try x r) Q.
Proof using Type.
  intros H. unfold try, run. apply wp_bind, wp_lift. destruct x; [by apply wp_ret|done..].
Qed.

Lemma rwp_run (m : M A) r (Q : result (A * Reader) -> Prop) :
  wp m (fun x => match x with Ok a => Q (Ok (a, r)) | Err e => Q (Err e) | Panic => Q Panic end) ->
  wp (run m r) Q.
Proof using Type.
  intros H. apply wp_bind. eapply wp_mono; [exact H|]. intros [a| |]; [by apply wp_ret|done..].
Qed.
End Rules.

Lemma rwp_get r (Q : result (Reader * Reader) -> Prop) : Q (Ok (r, r)) -> wp (get_reader r) Q.
Proof. apply wp_ret. Qed.
Lemma rwp_put r r' (Q : result (unit * Reader) -> Prop) : Q (Ok (tt, r')) -> wp (put_reader r' r) Q.
Proof. apply wp_ret. Qed.
Lemma rwp_check r (Q : result (unit * Reader) -> Prop) : Q (Ok (tt, r)) -> wp (run check r) Q.
Proof. intros H. by apply rwp_run, wp_check. Qed.

(** ** Filling the buffer *)

Lemma fill_buffer_spec r (Q : result (unit * Reader) -> Prop) :
  reader_ok r -> offset r < file_size r -> offset r < limit r ->
  (forall r', advanced r r' 0 -> buffer_start r' = offset r' -> 0 < buffer_len r' -> Q (Ok (tt, r'))) ->
  (forall e, ~ readable r -> Q (Err e)) ->
  wp (fill_buffer r) Q.
Proof.
  intros [Hf Hsz Ho Hb Hfl Hi Hbs] Hs Hl HQ HE. unfold fill_buffer. apply rwp_bind, rwp_get.
  unfold saturating_sub. set (remaining := N.min (file_size r) (limit r) - offset r).
  assert (0 < remaining) as Hrem by (unfold remaining; lia).
  apply rwp_bind, rwp_try. rewrite (proj2 (N.eqb_neq remaining 0)) by lia. cbn [reject].
  set (amount := N.min remaining READER_BUFFER_BYTES).
  assert (amount <= READER_BUFFER_BYTES) as Hle by (unfold amount; lia).
  assert (0 < amount) as Ham by (unfold amount, READER_BUFFER_BYTES; lia).
  assert (offset r + amount <= file_size r) as Hend by (unfold amount, remaining; lia).
  apply rwp_bind, rwp_try. rewrite (proj2 (usize_try_from_Ok amount amount)) by (unfold usize_MAX; lia).
  apply rwp_bind, rwp_try. pose proof (read_exact_at_spec (file r) (offset r) amount Hf) as Hx.
  destruct (read_exact_at (file r) (offset r) amount) as [bs|e|] eqn:E; [| |done].
  - apply rwp_put. destruct Hx as [-> [?|Hin]]; [lia|].
    pose proof (slice_length _ _ _ Hin) as Hlen. apply HQ; [|done|done]. split; try done; cbn [offset]; [|lia].
    split; cbn [file file_size limit offset buffer buffer_start buffer_len]; try done.
    + rewrite length_app, length_drop, Hlen, Hb. lia.
    + by right.
    + unfold slice at 1. change (N.to_nat 0) with 0%nat. rewrite drop_0, <-Hlen. apply take_app_length.
  - apply HE. intros [Hr Hsize _]. destruct Hx as [?|[?|?]]; [done|lia|lia].
Qed.

(** ** Reading through the buffer *)

Lemma read_into_spec fuel : forall n r (Q : result (bytes * Reader) -> Prop),
  (N.to_nat n <= fuel)%nat -> reader_ok r -> offset r + n <= file_size r -> offset r + n <= limit r ->
  (forall bs r', bs = slice (contents (file r)) (offset r) n -> length bs = N.to_nat n ->
     advanced r r' n -> Q (Ok (bs, r'))) ->
  (forall e, ~ readable r -> Q (Err e)) ->
  wp (read_into fuel n r) Q.
Proof.
  induction fuel as [|fuel IH]; intros n r Q Hfuel Hr Hs Hl HQ HE; cbn [read_into];
    (destruct (N.eqb_spec n 0) as [->|Hz]; [apply rwp_ret, HQ; [done|done|by apply advanced_refl]|]); [lia|].
  pose proof Hr as [Hf Hsz Ho Hb [Hfl1 Hfl2] Hi Hbs].
  apply rwp_bind, rwp_check, rwp_bind, rwp_get, rwp_bind, rwp_try.
  rewrite checked_add_ok by lia. cbn [ok_or]. apply rwp_bind.
  (* After a possible refill the offset lies in the buffer. *)
  assert (forall Q' : result (unit * Reader) -> Prop,
    (forall r', advanced r r' 0 -> buffer_start r' <= offset r' ->
       offset r' < buffer_start r' + buffer_len r' -> Q' (Ok (tt, r'))) ->
    (forall e, ~ readable r -> Q' (Err e)) ->
    wp ((if (offset r <? buffer_start r) || (buffer_start r + buffer_len r <=? offset r)
         then fill_buffer else mret tt) r) Q') as Hfill.
  { intros Q' H1 H2. destruct ((offset r <? buffer_start r) || _) eqn:E.
    - apply fill_buffer_spec; [done|lia|lia| |done]. intros r' Hadv Hst Hlen.
      apply H1; [done|lia|lia].
    - apply rwp_ret, H1; [by apply advanced_refl|..]; bool_to_prop; lia. }
  apply Hfill; clear Hfill; [|done].
  intros r' Hadv Hst Hin. pose proof Hadv as [Hr' Hfile Hsize Hlimit Hoff].
  pose proof Hr' as [_ Hsz' Ho' Hb' [Hfl1' Hfl2'] Hi' Hbs'].
  apply rwp_bind, rwp_get, rwp_bind, rwp_try. unfold unchecked_sub.
  rewrite (proj2 (N.leb_le _ _) Hst). cbn [mbind result_bind].
  rewrite (proj2 (usize_try_from_Ok _ _)) by (split; [done|unfold usize_MAX; lia]).
  set (relative := offset r' - buffer_start r').
  apply rwp_bind, rwp_try. rewrite (proj2 (N.leb_le relative (buffer_len r'))) by (unfold relative; lia).
  set (amount := N.min (buffer_len r' - relative) n).
  assert (0 < amount /\ amount <= n /\ relative + amount <= buffer_len r') as (Ha1 & Ha2 & Ha3)
    by (unfold amount, relative; lia).
  apply rwp_bind, rwp_try. unfold slice_index.
  rewrite (proj2 (N.leb_le _ _)) by (rewrite Hb', N2Nat.id; lia).
  apply rwp_bind, rwp_try. rewrite checked_add_ok by lia. cbn [ok_or].
  apply rwp_bind, rwp_put.
  assert (slice (buffer r') relative amount = slice (contents (file r)) (offset r) amount) as Hslice.
  { pose proof (slice_slice (buffer r') 0 (buffer_len r') relative amount Ha3) as Hx.
    rewrite Hbs', slice_slice, Hfile, N.add_0_l in Hx by done. rewrite <-Hx, Hoff in *. f_equal. lia. }
  assert (advanced r (set_offset (offset r' + amount) r') amount) as Hadv2.
  { split; cbn [set_offset file file_size limit offset]; try done; [|lia].
    split; cbn [set_offset file file_size limit offset buffer buffer_start buffer_len]; try done.
    - by rewrite Hfile.
    - lia. }
  pose proof Hadv2 as [Hok2 Hfile2 Hsize2 Hlimit2 Hoff2].
  apply rwp_bind, IH; [lia|done|lia|lia| |].
  - intros bs r'' Hbs'' Hlen Hadv3. apply rwp_ret. apply HQ.
    + rewrite Hslice, Hbs'', Hfile2, Hoff2, <-slice_app. f_equal. lia.
    + rewrite length_app, Hlen, Hslice, slice_length; [lia|].
      destruct Hi' as [?|Hi']; [lia|]. rewrite Hfile in Hi'. lia.
    + replace n with (amount + (n - amount)) by lia. by eapply advanced_trans.
  - intros e Hnr. apply HE. intros Hrd. apply Hnr. by eapply advanced_readable.
Qed.

(** * Readers and the formats they accept

    A format relates a value to the bytes that encode it. [parses m fmt] says
    that a call of the reader accepts exactly the format: it returns a value
    only after reading an encoding of it, and refuses a readable file only when
    no encoding within the bounds comes next. Formats compose the way the calls
    do. *)

(** ** Formats *)

Definition format (A : Type) : Type := A -> bytes -> Prop.

(** Two encodings that start the same bytes encode the same value. *)
Definition unambiguous {A} (fmt : format A) : Prop := forall a bs a' bs' l,
  fmt a bs -> fmt a' bs' -> bs `prefix_of` l -> bs' `prefix_of` l -> a = a' /\ bs = bs'.

Definition fits (r : Reader) (bs : bytes) : Prop :=
  offset r + N.of_nat (length bs) <= file_size r /\ offset r + N.of_nat (length bs) <= limit r.

(** What one call of a reader may return. *)
Definition parsed {A} (fmt : format A) (r : Reader) (res : result (A * Reader)) : Prop :=
  match res with
  | Ok (a, r') => exists bs, fmt a bs /\ bs `prefix_of` unread r /\ advanced r r' (N.of_nat (length bs))
  | Err _ => readable r -> forall a bs, fmt a bs -> bs `prefix_of` unread r -> ~ fits r bs
  | Panic => False
  end.

(** The formats of the combinators. *)
Definition fmt_ret {A} (a : A) : format A := fun a' bs => a' = a /\ bs = [].
Definition fmt_bind {A B} (f1 : format A) (f2 : A -> format B) : format B := fun b bs =>
  exists a bs1 bs2, f1 a bs1 /\ f2 a b bs2 /\ bs = bs1 ++ bs2.
Definition fmt_try {A} (x : result A) : format A := fun a bs => x = Ok a /\ bs = [].
Definition fmt_map {A B} (f : A -> B) (fmt : format A) : format B := fun b bs =>
  exists a, fmt a bs /\ b = f a.
(** A list of values one after another. *)
Definition fmt_times {A} (count : nat) (fmt : format A) : format (list A) := fun l bs =>
  length l = count /\ exists bss, Forall2 fmt l bss /\ bs = concat bss.

(** An encoder of the values that satisfy a predicate. *)
Definition encodes {A} (P : A -> Prop) (enc : A -> bytes) : format A := fun a bs => P a /\ bs = enc a.

Lemma fits_app r bs1 bs2 : fits r (bs1 ++ bs2) -> fits r bs1.
Proof. intros []. unfold fits. rewrite length_app in *. lia. Qed.

Lemma fits_advanced r r' bs1 bs2 :
  advanced r r' (N.of_nat (length bs1)) -> fits r (bs1 ++ bs2) -> fits r' bs2.
Proof.
  intros [_ _ Hs Hl Ho] []. unfold fits. rewrite length_app, Hs, Hl, Ho in *. lia.
Qed.

Lemma prefix_advanced r r' bs1 bs2 :
  advanced r r' (N.of_nat (length bs1)) -> bs1 `prefix_of` unread r ->
  bs2 `prefix_of` unread r' <-> bs1 ++ bs2 `prefix_of` unread r.
Proof.
  intros Hadv [k Hk]. rewrite (advanced_unread _ _ _ Hadv), Hk, Nat2N.id, drop_app_length.
  split; [apply prefix_app|apply prefix_app_inv].
Qed.

(** ** Parsers *)

Section Parses.
(** What the parsers of a component know of the reader throughout. *)
Context (Pre : Reader -> Prop).

Record parses {A} (m : RM A) (fmt : format A) : Prop := {
  parses_unambiguous : unambiguous fmt;
  parses_run r : reader_ok r -> Pre r -> wp (m r) (parsed fmt r)
}.

Lemma parses_equiv {A} (m : RM A) (f1 f2 : format A) :
  parses m f1 -> (forall a bs, f2 a bs <-> f1 a bs) -> parses m f2.
Proof using Type.
  intros [Hu Hr] He. split.
  - intros a bs a' bs' l H1 H2. apply He in H1, H2. exact (Hu _ _ _ _ _ H1 H2).
  - intros r Hok HP. eapply wp_mono; [exact (Hr r Hok HP)|]. intros [[a r']|e|]; [| |done].
    + intros (bs & H1 & H2). exists bs. split; [by apply He|done].
    + intros H Hrd a bs Ha%He. exact (H Hrd a bs Ha).
Qed.

Lemma parses_ret {A} (a : A) : parses (mret a) (fmt_ret a).
Proof using Type.
  split.
  - intros ????? [-> ->] [-> ->]. done.
  - intros r Hok _. apply rwp_ret. exists []. split; [done|]. split; [apply prefix_nil|].
    by apply advanced_refl.
Qed.

Lemma parses_try {A} (x : result A) : x <> Panic -> parses (try x) (fmt_try x).
Proof using Type.
  intros Hx. split.
  - intros ????? [H1 ->] [H2 ->]. split; [congruence|done].
  - intros r Hok _. apply rwp_try. destruct x as [a|e|]; [| |done].
    + exists []. split; [done|]. split; [apply prefix_nil|]. by apply advanced_refl.
    + by intros _ a bs [].
Qed.

Lemma parses_run_M {A} (m : M A) (a : A) : succeeds m (fun a' => a' = a) -> parses (run m) (fmt_ret a).
Proof using Type.
  intros Hm. split; [by apply parses_ret|]. intros r Hok HP. apply rwp_run.
  eapply wp_mono; [exact Hm|]. intros ? (? & -> & ->). exists []. split; [done|].
  split; [apply prefix_nil|]. by apply advanced_refl.
Qed.

Lemma parses_check : parses (run check) (fmt_ret tt).
Proof using Type. apply parses_run_M. by apply succeeds_check. Qed.

Context (Pre_advanced : forall r r' n, advanced r r' n -> Pre r -> Pre r').

Lemma parses_bind {A B} (m : RM A) (f : A -> RM B) f1 f2 :
  parses m f1 -> (forall a, (exists bs, f1 a bs) -> parses (f a) (f2 a)) ->
  parses (m ≫= f) (fmt_bind f1 f2).
Proof using Pre_advanced.
  intros [Hu1 H1] H2. split.
  - intros b bs b' bs' l (a & bs1 & bs2 & Ha & Hb & ->) (a' & bs1' & bs2' & Ha' & Hb' & ->) Hp Hp'.
    destruct (Hu1 a bs1 a' bs1' l) as [<- <-]; [done..|by eapply prefix_app_l|by eapply prefix_app_l|].
    destruct Hp as [k ->]. rewrite <-!app_assoc in Hp'. apply prefix_app_inv in Hp'.
    destruct (parses_unambiguous _ _ (H2 a ltac:(eauto)) b bs2 b' bs2' (bs2 ++ k)) as [<- <-]; try done.
    by apply prefix_app_r.
  - intros r Hok HP. apply rwp_bind. eapply wp_mono; [exact (H1 r Hok HP)|]. intros [[a r']|e|]; [| |done].
    + intros (bs1 & Ha & Hp1 & Hadv).
      eapply wp_mono;
        [exact (parses_run _ _ (H2 a ltac:(eauto)) r' (advanced_ok _ _ _ Hadv) (Pre_advanced _ _ _ Hadv HP))|].
      intros [[b r'']|e|]; [| |done].
      * intros (bs2 & Hb & Hp2 & Hadv2). exists (bs1 ++ bs2). split; [by repeat eexists|].
        split; [by apply (prefix_advanced _ _ _ _ Hadv Hp1)|]. rewrite length_app, Nat2N.inj_add.
        by eapply advanced_trans.
      * intros He Hrd b ? (a' & bs1' & bs2 & Ha' & Hb & ->) Hp Hf.
        destruct (Hu1 a bs1 a' bs1' (unread r)) as [<- <-]; [done..|by eapply prefix_app_l|].
        exact (He (advanced_readable _ _ _ Hadv Hrd) b bs2 Hb (proj2 (prefix_advanced _ _ _ _ Hadv Hp1) Hp)
          (fits_advanced _ _ _ _ Hadv Hf)).
    + intros He Hrd b ? (a' & bs1' & bs2 & Ha' & Hb & ->) Hp Hf.
      exact (He Hrd a' bs1' Ha' (prefix_app_l _ _ _ Hp) (fits_app _ _ _ Hf)).
Qed.

Lemma parses_fmap {A B} (f : A -> B) (m : RM A) fmt : parses m fmt -> parses (f <$> m) (fmt_map f fmt).
Proof using Pre_advanced.
  intros Hm. eapply parses_equiv.
  - apply parses_bind with (f2 := fun a => fmt_ret (f a)); [exact Hm|]. intros a _. apply parses_ret.
  - intros b bs. split.
    + intros (a & Ha & ->). exists a, bs, []. split; [done|]. by rewrite app_nil_r.
    + intros (a & bs1 & bs2 & Ha & [-> ->] & ->). exists a. by rewrite app_nil_r.
Qed.

Lemma parses_times {A} (m : RM A) fmt count : parses m fmt -> parses (read_times count m) (fmt_times count fmt).
Proof using Pre_advanced.
  intros Hm. induction count as [|count IH]; cbn [read_times].
  - eapply parses_equiv; [apply parses_ret|]. intros l bs. split.
    + intros (Hl & bss & Hf & ->). destruct l; [|done]. by apply Forall2_nil_inv_l in Hf as ->.
    + intros [-> ->]. split; [done|]. by exists [].
  - eapply parses_equiv.
    + eapply parses_bind; [exact Hm|]. intros a _. eapply parses_bind; [exact IH|]. intros rest _.
      apply parses_ret.
    + intros l bs. split.
      * intros (Hl & bss & Hf & ->). destruct l as [|a l]; [done|].
        apply Forall2_cons_inv_l in Hf as (b & bss' & Hb & Hf & ->).
        exists a, b, (concat bss'). split; [done|]. split; [|done].
        exists l, (concat bss'), []. rewrite app_nil_r. repeat split; [by injection Hl|].
        by exists bss'.
      * intros (a & b & ? & Ha & (rest & bs2 & ? & (Hl & bss & Hf & ->) & [-> ->] & ->) & ->).
        split; [by simpl; f_equal|]. exists (b :: bss). rewrite app_nil_r. split; [by constructor|done].
Qed.

Lemma parses_reserve count : parses (run (reserve_items count)) (fmt_ret tt).
Proof using Type.
  apply parses_run_M. intros env t. unfold reserve_items.
  destruct (grants env t count) eqn:E; [by split; [lia|eexists]|]. right. right. eauto 6.
Qed.

Lemma parses_elements {A} (m : RM A) fmt count :
  parses m fmt -> parses (read_elements count m) (fmt_times (N.to_nat count) fmt).
Proof using Pre_advanced.
  intros Hm. eapply parses_equiv.
  - eapply parses_bind; [apply parses_reserve|]. intros a _. by apply parses_times.
  - intros l bs. split; [by intros; exists tt, [], bs|]. by intros ([] & ? & ? & [_ ->] & ? & ->).
Qed.

(** ** Bytes *)

Definition fmt_bytes (n : N) : format bytes := fun a bs => bs = a /\ length a = N.to_nat n.

Lemma fmt_bytes_unambiguous n : unambiguous (fmt_bytes n).
Proof using Type.
  intros a ? a' ? l [-> Ha] [-> Ha'] [k1 ->] [k2 Hl].
  apply app_inj_1 in Hl as [? _]; [done|congruence].
Qed.

Lemma wp_check_end r n (Q : result (unit * Reader) -> Prop) :
  reader_ok r ->
  (offset r + n <= file_size r -> offset r + n <= limit r -> Q (Ok (tt, r))) ->
  (forall e, file_size r < offset r + n \/ limit r < offset r + n -> Q (Err e)) ->
  wp (check_end n r) Q.
Proof using Type.
  intros Hok HQ HE. pose proof (reader_size _ Hok). unfold check_end. apply rwp_bind, rwp_get, rwp_bind, rwp_try.
  destruct (checked_add (offset r) n) as [last|] eqn:E; cbn [ok_or].
  2: { apply HE. left. unfold checked_add in E. destruct (_ <=? _) eqn:El; [done|]. bool_to_prop. lia. }
  apply checked_add_Some in E as [-> _]. apply rwp_bind, rwp_try.
  destruct (limit r <? offset r + n) eqn:El; cbn [reject]; bool_to_prop; [apply HE; by right|].
  apply rwp_try. destruct (file_size r <? offset r + n) eqn:Es; cbn [reject]; bool_to_prop;
    [apply HE; by left|]. by apply HQ.
Qed.

Lemma wp_read_bytes r n fuel :
  reader_ok r -> (N.to_nat n <= fuel)%nat -> offset r + n <= file_size r -> offset r + n <= limit r ->
  wp (read_into fuel n r) (parsed (fmt_bytes n) r).
Proof using Type.
  intros Hok Hfuel Hs Hl. apply read_into_spec; [done..| |].
  - intros bs r' Hbs Hlen Hadv. exists bs. split; [done|]. rewrite Hlen, N2Nat.id. split; [|done].
    rewrite Hbs. apply slice_prefix.
  - by intros e Hnr Hrd.
Qed.

(** What does not fit is refused. *)
Lemma parsed_refused {A} (fmt : format A) r n e :
  (forall a bs, fmt a bs -> length bs = N.to_nat n) ->
  file_size r < offset r + n \/ limit r < offset r + n -> parsed fmt r (Err e).
Proof using Type.
  intros Hlen Hn _ a bs Ha _ []. apply Hlen in Ha. lia.
Qed.

Lemma fmt_bytes_length n a bs : fmt_bytes n a bs -> length bs = N.to_nat n.
Proof using Type. by intros [-> ?]. Qed.

Lemma parses_read n : parses (read n) (fmt_bytes (N.of_nat n)).
Proof using Type.
  split; [apply fmt_bytes_unambiguous|]. intros r Hok _. unfold read.
  apply rwp_bind, rwp_check, rwp_bind, wp_check_end; [done| |].
  - intros. apply wp_read_bytes; [done|lia|done..].
  - intros e He. eapply parsed_refused; [apply fmt_bytes_length|exact He].
Qed.

Lemma parses_read_bytes n : parses (read_bytes n) (fmt_bytes n).
Proof using Type.
  split; [apply fmt_bytes_unambiguous|]. intros r Hok _. unfold read_bytes.
  apply rwp_bind, wp_check_end; [done| |].
  - intros Hs Hl. apply rwp_bind, rwp_run, wp_try_reserve_exact.
    + intros _. by apply wp_read_bytes.
    + intros Hn [_ _ Hi]. lia.
  - intros e He. eapply parsed_refused; [apply fmt_bytes_length|exact He].
Qed.

(** ** Integers *)

Definition le_bytes (w : nat) : format N := encodes (fun n => n < 256 ^ N.of_nat w) (to_le_bytes w).

Lemma from_to_le_bytes w n : n < 256 ^ N.of_nat w -> from_le_bytes (to_le_bytes w n) = n.
Proof using Type.
  revert n. induction w as [|w IH]; intros n Hn; cbn [to_le_bytes from_le_bytes].
  { change (256 ^ N.of_nat 0) with 1 in Hn. lia. }
  rewrite Nat2N.inj_succ, N.pow_succ_r' in Hn.
  rewrite IH by (apply N.Div0.div_lt_upper_bound; lia).
  replace (Byte.to_N (byte_of_N n)) with (n mod 256); [pose proof (N.div_mod' n 256); lia|].
  rewrite <-(byte_of_N_small (n mod 256)) by (apply N.mod_upper_bound; lia).
  unfold byte_of_N. by rewrite N.Div0.mod_mod.
Qed.

Lemma from_le_bytes_bound bs : from_le_bytes bs < 256 ^ N.of_nat (length bs).
Proof using Type.
  induction bs as [|b bs IH]; cbn [from_le_bytes length]; [done|].
  rewrite Nat2N.inj_succ, N.pow_succ_r'. pose proof (Byte.to_N_bounded b). lia.
Qed.

Lemma to_from_le_bytes bs : to_le_bytes (length bs) (from_le_bytes bs) = bs.
Proof using Type.
  induction bs as [|b bs IH]; cbn [from_le_bytes to_le_bytes length]; [done|].
  pose proof (Byte.to_N_bounded b). f_equal.
  - rewrite <-(byte_of_to_N b) at 2. unfold byte_of_N. by rewrite N.mul_comm, N.Div0.mod_add.
  - rewrite N.mul_comm, N.div_add, (N.div_small (Byte.to_N b)) by lia. exact IH.
Qed.

Lemma parses_le w : parses (bs ← read w; mret (from_le_bytes bs)) (le_bytes w).
Proof using Pre_advanced.
  eapply parses_equiv; [eapply parses_bind; [apply parses_read|intros; apply parses_ret]|].
  intros n bs. split.
  - intros [Hn ->]. exists (to_le_bytes w n), (to_le_bytes w n), []. unfold fmt_bytes.
    rewrite to_le_bytes_length, Nat2N.id, app_nil_r. repeat split.
    by rewrite from_to_le_bytes.
  - intros (a & ? & ? & [-> Ha] & [-> ->] & ->). rewrite Nat2N.id in Ha. subst w.
    rewrite app_nil_r. split; [apply from_le_bytes_bound|]. by rewrite to_from_le_bytes.
Qed.

Lemma parses_u8 : parses read_u8 (le_bytes 1).
Proof using Pre_advanced. apply parses_le. Qed.
Lemma parses_u16 : parses read_u16 (le_bytes 2).
Proof using Pre_advanced. apply parses_le. Qed.
Lemma parses_u32 : parses read_u32 (le_bytes 4).
Proof using Pre_advanced. apply parses_le. Qed.
Lemma parses_u64 : parses read_u64 (le_bytes 8).
Proof using Pre_advanced. apply parses_le. Qed.

(** Two's complement. *)
Definition unsigned (w : nat) (z : Z) : N := Z.to_N (z mod 2 ^ (8 * Z.of_nat w)).
Definition signed_range (w : nat) (z : Z) : Prop :=
  (- 2 ^ (8 * Z.of_nat w - 1) <= z < 2 ^ (8 * Z.of_nat w - 1))%Z.
Definition signed_bytes (w : nat) : format Z :=
  encodes (signed_range w) (fun z => to_le_bytes w (unsigned w z)).

Lemma two_powers w : (0 < w)%nat ->
  Z.of_N (2 ^ (8 * N.of_nat w - 1)) = (2 ^ (8 * Z.of_nat w - 1))%Z /\
  Z.of_N (256 ^ N.of_nat w) = (2 ^ (8 * Z.of_nat w))%Z /\
  (2 ^ (8 * Z.of_nat w))%Z = (2 * 2 ^ (8 * Z.of_nat w - 1))%Z.
Proof using Type.
  intros Hw. repeat split.
  - rewrite N2Z.inj_pow, N2Z.inj_sub by lia. f_equal. lia.
  - change 256 with (2 ^ 8). rewrite <-N.pow_mul_r, N2Z.inj_pow. f_equal. lia.
  - rewrite <-Z.pow_succ_r by lia. f_equal. lia.
Qed.

Lemma signed_unsigned w n : (0 < w)%nat -> n < 256 ^ N.of_nat w ->
  signed_range w (signed w n) /\ unsigned w (signed w n) = n.
Proof using Type.
  intros Hw Hn. destruct (two_powers w Hw) as (H1 & H2 & H3). unfold signed, signed_range, unsigned.
  apply N2Z.inj_lt in Hn. destruct (N.ltb_spec n (2 ^ (8 * N.of_nat w - 1))) as [Hl|Hl].
  - apply N2Z.inj_lt in Hl. split; [lia|]. rewrite Z.mod_small by lia. lia.
  - apply N2Z.inj_le in Hl. split; [lia|].
    rewrite <-(Z.mod_add _ 1), Z.mod_small by lia. lia.
Qed.

Lemma unsigned_signed w z : (0 < w)%nat -> signed_range w z ->
  unsigned w z < 256 ^ N.of_nat w /\ signed w (unsigned w z) = z.
Proof using Type.
  intros Hw Hz. destruct (two_powers w Hw) as (H1 & H2 & H3). unfold signed, signed_range, unsigned in *.
  pose proof (Z.mod_pos_bound z (2 ^ (8 * Z.of_nat w)) ltac:(lia)) as Hb. split; [lia|].
  rewrite Z2N.id by lia. destruct (decide (0 <= z)%Z) as [Hp|Hp].
  - rewrite Z.mod_small in * by lia. by rewrite (proj2 (N.ltb_lt _ _)) by lia.
  - rewrite <-(Z.mod_add _ 1), Z.mod_small in * by lia. rewrite (proj2 (N.ltb_ge _ _)) by lia. lia.
Qed.

Lemma parses_signed w (m : RM N) : (0 < w)%nat -> parses m (le_bytes w) ->
  parses (n ← m; mret (signed w n)) (signed_bytes w).
Proof using Pre_advanced.
  intros Hw Hm. eapply parses_equiv; [eapply parses_bind; [exact Hm|intros; apply parses_ret]|].
  intros z bs. split.
  - intros [Hz ->]. apply unsigned_signed in Hz as [Hb Hs]; [|done].
    exists (unsigned w z), (to_le_bytes w (unsigned w z)), []. rewrite app_nil_r. by repeat split.
  - intros (n & ? & ? & [Hn ->] & [-> ->] & ->). apply signed_unsigned in Hn as [Hr Hs]; [|done].
    rewrite app_nil_r. split; [done|]. by rewrite Hs.
Qed.

(** ** Guards *)

Lemma parses_bind_try {A B} (x : result A) (f : A -> RM B) f2 :
  x <> Panic -> (forall a, x = Ok a -> parses (f a) (f2 a)) ->
  parses (try x ≫= f) (fun b bs => exists a, x = Ok a /\ f2 a b bs).
Proof using Pre_advanced.
  intros Hx Hf. eapply parses_equiv.
  - eapply parses_bind; [by apply parses_try|]. intros a (bs & Ha & _). by apply Hf.
  - intros b bs. split.
    + intros (a & Ha & Hb). exists a, [], bs. done.
    + intros (a & ? & ? & [Ha ->] & Hb & ->). by exists a.
Qed.

Lemma parses_bind_guard {B} (bad : bool) e (m : RM B) fmt :
  (bad = false -> parses m fmt) ->
  parses (_ ← try (reject bad e); m) (fun b bs => bad = false /\ fmt b bs).
Proof using Pre_advanced.
  intros Hm. eapply parses_equiv.
  - apply (parses_bind_try (reject bad e) (fun _ => m) (fun _ => fmt)); [by destruct bad|].
    intros u Hu%reject_Ok. by apply Hm.
  - intros b bs. split.
    + intros [-> Hb]. by exists tt.
    + intros ([] & Hu%reject_Ok & Hb). done.
Qed.

Lemma parses_bind_skip {A B} (m : RM A) (f : A -> RM B) a fmt :
  parses m (fmt_ret a) -> parses (f a) fmt -> parses (m ≫= f) fmt.
Proof using Pre_advanced.
  intros Hm Hf. eapply parses_equiv.
  - eapply parses_bind with (f2 := fun a' b bs => a' = a /\ fmt b bs); [exact Hm|]. intros a' (bs & -> & _).
    eapply parses_equiv; [exact Hf|]. naive_solver.
  - intros b bs. split.
    + intros Hb. by exists a, [], bs.
    + by intros (a' & ? & ? & [-> ->] & [_ Hb] & ->).
Qed.

(** A call after an encoded value: the encodings follow one another. *)
Lemma parses_bind_enc {A B} (m : RM A) (f : A -> RM B) P enc f2 :
  parses m (encodes P enc) -> (forall a, P a -> parses (f a) (f2 a)) ->
  parses (m ≫= f) (fun b bs => exists a bs2, P a /\ f2 a b bs2 /\ bs = enc a ++ bs2).
Proof using Pre_advanced.
  intros Hm Hf. eapply parses_equiv.
  - eapply parses_bind; [exact Hm|]. intros a (bs & Ha & _). by apply Hf.
  - intros b bs. split.
    + intros (a & bs2 & Ha & Hb & ->). by exists a, (enc a), bs2.
    + intros (a & ? & bs2 & [Ha ->] & Hb & ->). by exists a, bs2.
Qed.

Lemma bounded_count_Ok value maximum n :
  bounded_count value maximum = Ok n <-> n = value /\ value <= usize_MAX /\ value <= maximum.
Proof using Type.
  unfold bounded_count, usize_try_from. destruct (_ <=? _) eqn:E; bool_to_prop; simpl; [|split; [done|lia]].
  destruct (_ <? _) eqn:E2; bool_to_prop; simpl; [split; [done|lia]|].
  split; [by intros [= <-]|by intros (-> & _)].
Qed.

Lemma bounded_count_not_Panic value maximum : bounded_count value maximum <> Panic.
Proof using Type. unfold bounded_count. no_panic. Qed.

(** ** Booleans and strings *)

Definition encode_bool (b : bool) : bytes := [if b then Byte.x01 else Byte.x00].

Lemma parses_boolean : parses read_boolean (encodes (fun _ => True) encode_bool).
Proof using Pre_advanced.
  eapply parses_equiv.
  - eapply parses_bind_enc with (f2 := fun n => fmt_try
      (if n =? 0 then Ok false else if n =? 1 then Ok true else Err InvalidFormat)); [apply parses_u8|].
    intros n _. destruct (n =? 0); [|destruct (n =? 1)].
    + eapply parses_equiv; [apply parses_ret|]. unfold fmt_ret, fmt_try. naive_solver.
    + eapply parses_equiv; [apply parses_ret|]. unfold fmt_ret, fmt_try. naive_solver.
    + by apply parses_try.
  - intros b bs. split.
    + intros [_ ->]. exists (if b then 1 else 0), []. by destruct b.
    + intros (n & ? & Hn & [Hb ->] & ->). split; [done|]. rewrite app_nil_r.
      destruct (N.eqb_spec n 0) as [->|]; [by injection Hb as <-|].
      destruct (N.eqb_spec n 1) as [->|]; [by injection Hb as <-|done].
Qed.

Definition string_bytes (s : string) : bytes := String.list_byte_of_string s.
Definition string_ok (maximum : N) (s : string) : Prop :=
  utf8_valid (string_bytes s) = true /\ N.of_nat (length (string_bytes s)) <= N.min maximum u64_MAX.
Definition encode_string (s : string) : bytes :=
  to_le_bytes 8 (N.of_nat (length (string_bytes s))) ++ string_bytes s.

Lemma from_utf8_Ok bs s : from_utf8 bs = Ok s <-> utf8_valid bs = true /\ bs = string_bytes s.
Proof using Type.
  unfold from_utf8, string_bytes. destruct (utf8_valid bs); simpl; [|by split; [|intros []]]. split.
  - intros [= <-]. by rewrite String.list_byte_of_string_of_list_byte.
  - intros [_ ->]. by rewrite String.string_of_list_byte_of_string.
Qed.

Lemma u64_bound n : n < 256 ^ N.of_nat 8 <-> n <= u64_MAX.
Proof using Type. unfold u64_MAX. change (256 ^ N.of_nat 8) with (2 ^ 64). lia. Qed.

Lemma parses_string maximum : parses (read_string maximum) (encodes (string_ok maximum) encode_string).
Proof using Pre_advanced.
  unfold read_string. eapply parses_equiv.
  - eapply parses_bind_enc; [apply parses_u64|]. intros n Hn.
    eapply parses_bind_try; [apply bounded_count_not_Panic|]. intros k _.
    eapply parses_bind; [apply parses_read_bytes|]. intros bs _. apply parses_try.
    unfold from_utf8. no_panic.
  - intros s bs. split.
    + intros [[Hv Hl] ->]. exists (N.of_nat (length (string_bytes s))), (string_bytes s).
      rewrite u64_bound. split; [lia|]. split; [|done]. eexists. rewrite bounded_count_Ok.
      split; [split; [done|unfold usize_MAX; lia]|].
      exists (string_bytes s), (string_bytes s), []. rewrite app_nil_r. unfold fmt_bytes.
      rewrite Nat2N.id. repeat split. by apply from_utf8_Ok.
    + intros (n & ? & Hn & (k & Hk & (bs' & ? & ? & [-> Hl] & [Hs ->] & ->)) & ->).
      apply bounded_count_Ok in Hk as (-> & _ & Hk). apply from_utf8_Ok in Hs as [Hv ->].
      rewrite u64_bound in Hn. rewrite app_nil_r. unfold encodes, string_ok, encode_string.
      assert (N.of_nat (length (string_bytes s)) = n) as -> by lia. split; [split; [done|lia]|done].
Qed.
End Parses.
