(* ===== verification/GgufSpecs.v ===== *)
(** * The format of a GGUF header

    Encoders of metadata and of the tensor table, and the proof that the
    functions of [gguf.rs] accept exactly what they write. *)

From S2P Require Import Prelude Errors Cancel Tensor Identity Order Limits Quantization Cast.
From S2P Require Import FileReader Inventory Gguf ReaderSpecs.
Local Open Scope N_scope.

(** ** Arrays *)

Definition value_code (t : ValueType) : N :=
  match t with
  | Type_U8 => 0 | Type_I8 => 1 | Type_U16 => 2 | Type_I16 => 3 | Type_U32 => 4
  | Type_I32 => 5 | Type_F32 => 6 | Type_Bool => 7 | Type_String => 8
  | Type_Array => 9 | Type_U64 => 10 | Type_I64 => 11 | Type_F64 => 12
  end.

Lemma ValueType_from_raw_Ok n t : ValueType_from_raw n = Ok t <-> n = value_code t.
Proof.
  split; [|intros ->; by destruct t].
  destruct n as [|[[[[p|p|]|[p|p|]|]|[[p|p|]|[p|p|]|]|]|[[[p|p|]|[p|p|]|]|[[p|p|]|[p|p|]|]|]|]];
    simpl; try done; by intros [= <-].
Qed.

Lemma ValueType_from_raw_not_Panic n : ValueType_from_raw n <> Panic.
Proof.
  destruct n as [|[[[[p|p|]|[p|p|]|]|[[p|p|]|[p|p|]|]|]|[[[p|p|]|[p|p|]|]|[[p|p|]|[p|p|]|]|]|]]; done.
Qed.

(** A type code, a count and the elements. *)
Definition encode_elements {A} (t : ValueType) (encode : A -> bytes) (l : list A) : bytes :=
  to_le_bytes 4 (value_code t) ++ to_le_bytes 8 (N.of_nat (length l)) ++ concat (map encode l).

Definition le (w : nat) : N -> bytes := to_le_bytes w.
Definition signed_le (w : nat) (z : Z) : bytes := to_le_bytes w (unsigned w z).

Fixpoint encode_array (a : GgufArray) : bytes :=
  match a with
  | Arrays l => encode_elements Type_Array encode_array l
  | U8s l => encode_elements Type_U8 (le 1) l
  | I8s l => encode_elements Type_I8 (signed_le 1) l
  | U16s l => encode_elements Type_U16 (le 2) l
  | I16s l => encode_elements Type_I16 (signed_le 2) l
  | U32s l => encode_elements Type_U32 (le 4) l
  | I32s l => encode_elements Type_I32 (signed_le 4) l
  | F32s l => encode_elements Type_F32 (le 4) l
  | Bools l => encode_elements Type_Bool encode_bool l
  | Strings l => encode_elements Type_String encode_string l
  | U64s l => encode_elements Type_U64 (le 8) l
  | I64s l => encode_elements Type_I64 (signed_le 8) l
  | F64s l => encode_elements Type_F64 (le 8) l
  end.

(** The elements of an array are values of their type, and their number is
    within the budget. *)
Definition elements_ok {A} (metadata_limit : N) (t : ValueType) (P : A -> Prop) (l : list A) : Prop :=
  N.of_nat (length l) <= N.min (metadata_limit / element_bytes t) u64_MAX /\ Forall P l.

Definition below (w : nat) (n : N) : Prop := n < 256 ^ N.of_nat w.

(** The arrays accepted with so many levels of nesting left. *)
Fixpoint array_ok (levels : nat) (lim : N) (a : GgufArray) : Prop :=
  match levels with
  | O => False
  | S levels =>
      match a with
      | Arrays l => elements_ok lim Type_Array (array_ok levels lim) l
      | U8s l => elements_ok lim Type_U8 (below 1) l
      | I8s l => elements_ok lim Type_I8 (signed_range 1) l
      | U16s l => elements_ok lim Type_U16 (below 2) l
      | I16s l => elements_ok lim Type_I16 (signed_range 2) l
      | U32s l => elements_ok lim Type_U32 (below 4) l
      | I32s l => elements_ok lim Type_I32 (signed_range 4) l
      | F32s l => elements_ok lim Type_F32 (below 4) l
      | Bools l => elements_ok lim Type_Bool (fun _ => True) l
      | Strings l => elements_ok lim Type_String (string_ok lim) l
      | U64s l => elements_ok lim Type_U64 (below 8) l
      | I64s l => elements_ok lim Type_I64 (signed_range 8) l
      | F64s l => elements_ok lim Type_F64 (below 8) l
      end
  end.

Section Formats.
Context (Pre : Reader -> Prop) (Pre_advanced : forall r r' n, advanced r r' n -> Pre r -> Pre r').

(** [count] elements under a constructor. *)
Definition fmt_elements {A B} (C : list A -> B) (count : N) (P : A -> Prop) (enc : A -> bytes) : format B :=
  fun b bs => exists l, b = C l /\ N.of_nat (length l) = count /\ Forall P l /\ bs = concat (map enc l).

Lemma parses_constructor {A B} (C : list A -> B) count (m : RM A) P enc :
  parses Pre m (encodes P enc) ->
  parses Pre (C <$> read_elements count m) (fmt_elements C count P enc).
Proof using Pre_advanced.
  intros Hm. eapply parses_equiv; [apply parses_fmap, parses_elements; eassumption|].
  intros b bs. split.
  - intros (l & -> & Hl & HP & ->). exists l. split; [|done]. split; [lia|].
    exists (map enc l). split; [|done]. clear Hl. induction HP; simpl; constructor; done.
  - intros (l & (Hl & bss & Hf & ->) & ->). exists l. split; [done|]. split; [lia|].
    clear Hl. induction Hf as [|a b l bss [Ha ->] _ [IH1 IH2]]; [by split|].
    split; [by constructor|]. simpl. by rewrite IH2.
Qed.

(** The elements after a type code and a count. *)
Definition fmt_array_elements (levels : nat) (lim : N) (t : ValueType) (count : N) : format GgufArray :=
  match t with
  | Type_U8 => fmt_elements U8s count (below 1) (le 1)
  | Type_I8 => fmt_elements I8s count (signed_range 1) (signed_le 1)
  | Type_U16 => fmt_elements U16s count (below 2) (le 2)
  | Type_I16 => fmt_elements I16s count (signed_range 2) (signed_le 2)
  | Type_U32 => fmt_elements U32s count (below 4) (le 4)
  | Type_I32 => fmt_elements I32s count (signed_range 4) (signed_le 4)
  | Type_F32 => fmt_elements F32s count (below 4) (le 4)
  | Type_Bool => fmt_elements Bools count (fun _ => True) encode_bool
  | Type_String => fmt_elements Strings count (string_ok lim) encode_string
  | Type_Array => fmt_elements Arrays count (array_ok levels lim) encode_array
  | Type_U64 => fmt_elements U64s count (below 8) (le 8)
  | Type_I64 => fmt_elements I64s count (signed_range 8) (signed_le 8)
  | Type_F64 => fmt_elements F64s count (below 8) (le 8)
  end.

Lemma fmt_array_elements_spec levels lim a bs :
  array_ok (S levels) lim a /\ bs = encode_array a <->
  exists t count rest, fmt_array_elements levels lim t count a rest /\
    count <= N.min (lim / element_bytes t) u64_MAX /\
    bs = to_le_bytes 4 (value_code t) ++ to_le_bytes 8 count ++ rest.
Proof using Type.
  split.
  - destruct a as [l|l|l|l|l|l|l|l|l|l|l|l|l]; intros [[Hc HP] ->];
      [exists Type_Array|exists Type_U8|exists Type_I8|exists Type_U16|exists Type_I16|exists Type_U32
      |exists Type_I32|exists Type_F32|exists Type_Bool|exists Type_String|exists Type_U64|exists Type_I64
      |exists Type_F64]; exists (N.of_nat (length l)); eexists; (split; [|split; [exact Hc|reflexivity]]);
      (exists l; by repeat split).
  - intros (t & count & rest & Ha & Hc & ->). destruct t; destruct Ha as (l & -> & <- & HP & ->);
      (split; [by split|done]).
Qed.

Lemma parses_array levels lim : parses Pre (read_array levels lim) (encodes (array_ok levels lim) encode_array).
Proof using Pre_advanced.
  induction levels as [|levels IH]; cbn [read_array].
  { eapply parses_equiv; [by apply parses_try|]. intros a bs. by split; [intros [[] _]|intros [[=] _]]. }
  eapply parses_equiv.
  - eapply parses_bind_enc; [done|by apply parses_u32|]. intros raw _.
    eapply parses_bind_try; [done|apply ValueType_from_raw_not_Panic|]. intros t _.
    eapply parses_bind_enc; [done|by apply parses_u64|]. intros value _.
    eapply parses_bind_try with (f2 := fmt_array_elements levels lim t);
      [done|apply bounded_count_not_Panic|]. intros count _.
    destruct t; apply parses_constructor; try (by apply parses_le); try (apply parses_signed; [done|lia|]; by apply parses_le);
      [by apply parses_boolean|by apply parses_string|exact IH].
  - intros a bs. unfold encodes. rewrite fmt_array_elements_spec. split.
    + intros (t & count & rest & Ha & Hc & ->).
      exists (value_code t), (to_le_bytes 8 count ++ rest). split; [by destruct t|]. split; [|done].
      exists t. rewrite ValueType_from_raw_Ok. split; [done|]. exists count, rest.
      rewrite u64_bound. split; [lia|]. split; [|done]. exists count.
      rewrite bounded_count_Ok. unfold usize_MAX. split; [lia|done].
    + intros (raw & ? & Hraw & (t & Ht & (value & rest & Hv & (count & Hc & Ha) & ->)) & ->).
      apply ValueType_from_raw_Ok in Ht as ->. apply bounded_count_Ok in Hc as (-> & _ & Hc).
      rewrite u64_bound in Hv. exists t, value, rest. split; [done|]. split; [lia|done].
Qed.

(** ** Values *)

Definition value_type (v : GgufValue) : ValueType :=
  match v with
  | GgufU8 _ => Type_U8 | GgufI8 _ => Type_I8 | GgufU16 _ => Type_U16 | GgufI16 _ => Type_I16
  | GgufU32 _ => Type_U32 | GgufI32 _ => Type_I32 | GgufF32 _ => Type_F32 | GgufBool _ => Type_Bool
  | GgufString _ => Type_String | GgufArrayValue _ => Type_Array | GgufU64 _ => Type_U64
  | GgufI64 _ => Type_I64 | GgufF64 _ => Type_F64
  end.

Definition encode_value (v : GgufValue) : bytes :=
  match v with
  | GgufU8 n => le 1 n
  | GgufI8 z => signed_le 1 z
  | GgufU16 n => le 2 n
  | GgufI16 z => signed_le 2 z
  | GgufU32 n | GgufF32 n => le 4 n
  | GgufI32 z => signed_le 4 z
  | GgufBool b => encode_bool b
  | GgufString s => encode_string s
  | GgufArrayValue a => encode_array a
  | GgufU64 n | GgufF64 n => le 8 n
  | GgufI64 z => signed_le 8 z
  end.

Definition value_ok (lim : N) (v : GgufValue) : Prop :=
  match v with
  | GgufU8 n => below 1 n
  | GgufI8 z => signed_range 1 z
  | GgufU16 n => below 2 n
  | GgufI16 z => signed_range 2 z
  | GgufU32 n | GgufF32 n => below 4 n
  | GgufI32 z => signed_range 4 z
  | GgufBool _ => True
  | GgufString s => string_ok lim s
  | GgufArrayValue a => array_ok MAX_METADATA_NESTING_DEPTH lim a
  | GgufU64 n | GgufF64 n => below 8 n
  | GgufI64 z => signed_range 8 z
  end.

Lemma parses_value_constructor {A} (C : A -> GgufValue) (m : RM A) P enc fmt :
  parses Pre m (encodes P enc) -> (forall v bs, fmt v bs <-> exists a, v = C a /\ P a /\ bs = enc a) ->
  parses Pre (C <$> m) fmt.
Proof using Pre_advanced.
  intros Hm Hf. eapply parses_equiv; [by apply parses_fmap|].
  intros v bs. rewrite Hf. unfold fmt_map, encodes. naive_solver.
Qed.

Lemma parses_value t lim :
  parses Pre (read_value t lim) (fun v bs => value_type v = t /\ value_ok lim v /\ bs = encode_value v).
Proof using Pre_advanced.
  destruct t; cbn [read_value];
    (eapply parses_value_constructor;
      [first [by apply parses_le|by apply parses_boolean|by apply parses_string|by apply parses_array
             |apply parses_signed; [done|lia|by apply parses_le]]|]);
    (intros v bs; split; [intros (Ht & Hok & ->); destruct v; try discriminate Ht; eauto
                         |by intros (a & -> & Hok & ->)]).
Qed.
End Formats.

(** ** Entries *)

Definition entry : Type := string * GgufValue.

Definition encode_entry (e : entry) : bytes :=
  encode_string (fst e) ++ to_le_bytes 4 (value_code (value_type (snd e))) ++ encode_value (snd e).

Definition entry_ok (limits : ResourceLimits) (lim : N) (e : entry) : Prop :=
  string_ok (max_name_bytes limits) (fst e) /\ value_ok lim (snd e).

(** The reader of the metadata: its limit, and where the entries start. *)
Definition at_least (maximum start : N) (r : Reader) : Prop := limit r = maximum /\ start <= offset r.

Lemma at_least_advanced maximum start r r' n :
  advanced r r' n -> at_least maximum start r -> at_least maximum start r'.
Proof. intros [_ _ _ Hl Ho] [<- Hs]. split; [done|lia]. Qed.

(** The budget of [read_metadata]. *)
Definition metadata_budget (limits : ResourceLimits) : N := N.min (max_header_bytes limits) usize_MAX.

(** The check after an entry cannot fail. *)
Lemma parses_metadata_bytes {B} limits start (m : RM B) fmt :
  parses (at_least (max_header_bytes limits) start) m fmt ->
  parses (at_least (max_header_bytes limits) start)
    (r ← get_reader;
     metadata_bytes ← try (d ← unchecked_sub (offset r) start; usize_try_from d);
     _ ← try (reject (metadata_budget limits <? metadata_bytes) ResourceLimit); m) fmt.
Proof.
  intros [Hu Hm]. split; [done|]. intros r Hok HP. pose proof HP as [Hl Hs].
  destruct (reader_offset _ Hok) as [H1 H2]. pose proof (reader_size _ Hok).
  apply rwp_bind, rwp_get, rwp_bind, rwp_try. unfold unchecked_sub.
  rewrite (proj2 (N.leb_le _ _) Hs). cbn [mbind result_bind].
  rewrite (proj2 (usize_try_from_Ok _ _)) by (split; [done|unfold usize_MAX; lia]).
  apply rwp_bind, rwp_try. unfold metadata_budget.
  rewrite (proj2 (N.ltb_ge _ _)) by (unfold usize_MAX; lia). cbn [reject]. by apply Hm.
Qed.

(** One more entry. *)
Definition fmt_entry limits (entries : gmap string GgufValue) : format (gmap string GgufValue) :=
  fun m bs => exists e, entry_ok limits (metadata_budget limits) e /\ entries !! fst e = None /\
    m = <[fst e := snd e]> entries /\ bs = encode_entry e.

Lemma parses_entry limits start entries :
  parses (at_least (max_header_bytes limits) start)
    (read_entry limits (metadata_budget limits) start entries) (fmt_entry limits entries).
Proof.
  unfold read_entry. eapply parses_equiv.
  - eapply parses_bind_skip; [exact (at_least_advanced _ _)|apply parses_check|].
    eapply parses_bind_enc; [exact (at_least_advanced _ _)|by apply parses_string, at_least_advanced|]. intros k _.
    eapply parses_bind_enc; [exact (at_least_advanced _ _)|by apply parses_u32, at_least_advanced|]. intros raw _.
    eapply parses_bind_try; [exact (at_least_advanced _ _)|apply ValueType_from_raw_not_Panic|]. intros t _.
    eapply parses_bind; [exact (at_least_advanced _ _)|by apply parses_value, at_least_advanced|]. intros v _.
    apply parses_metadata_bytes. eapply parses_bind_guard; [exact (at_least_advanced _ _)|]. intros _. apply parses_ret.
  - intros m bs. split.
    + intros ([k v] & [Hk Hv] & Hn & -> & ->). exists k. eexists. split; [done|]. split; [|reflexivity].
      exists (value_code (value_type v)), (encode_value v). split; [by destruct v|]. split; [|done].
      exists (value_type v). rewrite ValueType_from_raw_Ok. split; [done|].
      exists v, (encode_value v), []. rewrite app_nil_r. repeat split; [done|].
      apply bool_decide_eq_false. simpl in Hn. rewrite Hn. by intros [? [=]].
    + intros (k & ? & Hk & (raw & ? & Hraw & (t & Ht & (v & ? & ? & (Hvt & Hv & ->) & [Hn [-> ->]] & ->)) & ->) & ->).
      apply ValueType_from_raw_Ok in Ht as ->. exists (k, v). cbn [fst snd].
      apply bool_decide_eq_false in Hn. unfold encode_entry. cbn [fst snd]. rewrite Hvt, app_nil_r.
      split; [done|]. split; [by apply eq_None_not_Some|done].
Qed.

Lemma parses_entries limits start count entries :
  parses (at_least (max_header_bytes limits) start)
    (read_entries count limits (metadata_budget limits) start entries)
    (fun m bs => exists l, length l = count /\ Forall (entry_ok limits (metadata_budget limits)) l /\
       NoDup l.*1 /\ Forall (fun k => entries !! k = None) l.*1 /\
       m = list_to_map l ∪ entries /\ bs = concat (map encode_entry l)).
Proof.
  revert entries. induction count as [|count IH]; intros entries; cbn [read_entries].
  - eapply parses_equiv; [apply parses_ret|]. intros m bs. split.
    + intros (l & Hl & _ & _ & _ & -> & ->). destruct l; [|done]. split; [|done]. apply map_empty_union.
    + intros [-> ->]. exists []. cbn. rewrite map_empty_union. repeat split; constructor.
  - eapply parses_equiv; [eapply parses_bind; [exact (at_least_advanced _ _)|apply parses_entry|intros; apply IH]|].
    intros m bs. split.
    + intros (l & Hl & Hok & Hnd & Hnone & -> & ->). destruct l as [|[k v] l]; [done|].
      cbn in Hnd, Hnone. apply Forall_cons in Hok as [Hk Hok], Hnone as [Hn Hnone].
      apply NoDup_cons in Hnd as [Hni Hnd].
      exists (<[k := v]> entries), (encode_entry (k, v)), (concat (map encode_entry l)).
      split; [by exists (k, v)|]. split; [|done]. exists l. split; [by injection Hl|].
      split; [done|]. split; [done|]. split.
      * rewrite Forall_forall in *. intros k' Hk'. rewrite lookup_insert_ne; [by apply Hnone|].
        by intros ->.
      * split; [|done]. cbn. rewrite <-insert_union_l, insert_union_r; [done|].
        by apply not_elem_of_list_to_map_1.
    + intros (m' & ? & ? & ([k v] & Hk & Hn & -> & ->) & (l & Hl & Hok & Hnd & Hnone & -> & ->) & ->).
      cbn [fst snd] in *. assert (k ∉ l.*1) as Hni.
      { intros Hin. rewrite Forall_forall in Hnone. specialize (Hnone k Hin).
        by rewrite lookup_insert_eq in Hnone. }
      exists ((k, v) :: l). split; [by simpl; f_equal|]. split; [by constructor|].
      split; [by constructor|]. split.
      * cbn. constructor; [done|]. rewrite Forall_forall in *. intros k' Hk'.
        specialize (Hnone k' Hk'). rewrite lookup_insert_ne in Hnone; [done|]. by intros ->.
      * split; [|done]. cbn. rewrite <-insert_union_l, insert_union_r; [done|].
        by apply not_elem_of_list_to_map_1.
Qed.

Lemma metadata_budget_eq limits :
  match usize_try_from (max_header_bytes limits) with Ok n => n | _ => usize_MAX end =
  metadata_budget limits.
Proof.
  unfold usize_try_from, metadata_budget. destruct (_ <=? _) eqn:E; bool_to_prop; lia.
Qed.

Definition encode_metadata (l : list entry) : bytes :=
  to_le_bytes 8 (N.of_nat (length l)) ++ concat (map encode_entry l).

(** Entries with distinct keys, not too many of them. *)
Definition metadata_ok (limits : ResourceLimits) (l : list entry) : Prop :=
  N.of_nat (length l) <= metadata_budget limits / 12 /\
  Forall (entry_ok limits (metadata_budget limits)) l /\ NoDup l.*1.

Definition fmt_metadata (limits : ResourceLimits) : format (gmap string GgufValue) := fun m bs =>
  exists l, metadata_ok limits l /\ m = list_to_map l /\ bs = encode_metadata l.

(** A call that reads the reader's offset. *)
Lemma parses_offset {B} maximum (f : N -> RM B) fmt :
  (forall start, parses (at_least maximum start) (f start) fmt) ->
  parses (at_least maximum 0) (r ← get_reader; f (offset r)) fmt.
Proof.
  intros Hf. split; [apply (Hf 0)|]. intros r Hok [Hl _]. apply rwp_bind, rwp_get.
  by apply (parses_run _ _ _ (Hf (offset r))); [done|split].
Qed.

Lemma metadata_budget_u64 limits n : n <= metadata_budget limits / 12 -> n <= u64_MAX.
Proof.
  intros Hn. apply (N.le_trans _ _ _ Hn), (N.le_trans _ (metadata_budget limits)).
  - apply N.Div0.div_le_upper_bound. lia.
  - apply N.le_min_r.
Qed.

Lemma parses_metadata limits :
  parses (at_least (max_header_bytes limits) 0) (read_metadata limits) (fmt_metadata limits).
Proof.
  unfold read_metadata. rewrite metadata_budget_eq. eapply parses_equiv.
  - eapply parses_bind_enc; [exact (at_least_advanced _ _)|by apply parses_u64, at_least_advanced|]. intros n _.
    eapply parses_bind_try; [exact (at_least_advanced _ _)|apply bounded_count_not_Panic|]. intros count _.
    apply (parses_offset _ (fun start => read_entries (N.to_nat count) limits _ start ∅)). intros start.
    apply parses_entries.
  - intros m bs. split.
    + intros (l & (Hl & Hok & Hnd) & -> & ->). pose proof (metadata_budget_u64 _ _ Hl) as Hu.
      exists (N.of_nat (length l)), (concat (map encode_entry l)). rewrite u64_bound. split; [done|].
      split; [|done]. exists (N.of_nat (length l)). rewrite bounded_count_Ok. split; [done|].
      exists l. rewrite Nat2N.id, map_union_empty. repeat split; try done.
      apply Forall_forall. intros. apply lookup_empty.
    + intros (n & ? & Hn & (count & Hc & (l & Hl & Hok & Hnd & _ & -> & ->)) & ->).
      apply bounded_count_Ok in Hc as (-> & _ & Hc). exists l. rewrite map_union_empty.
      assert (N.of_nat (length l) = n) as Hln by lia. unfold metadata_ok, encode_metadata.
      rewrite Hln. repeat split; done.
Qed.

(** ** The tensor table *)

Definition encode_tensor_info (t : RawTensor) : bytes :=
  encode_string (raw_name t) ++ to_le_bytes 4 (N.of_nat (length (dimensions t))) ++
  concat (map (le 8) (dimensions t)) ++ to_le_bytes 4 (ggml_type t) ++ to_le_bytes 8 (relative_offset t).

Definition tensor_info_ok (limits : ResourceLimits) (t : RawTensor) : Prop :=
  string_ok (max_name_bytes limits) (raw_name t) /\
  0 < N.of_nat (length (dimensions t)) <= N.min (max_rank limits) u32_MAX /\
  Forall (below 8) (dimensions t) /\ below 4 (ggml_type t) /\ below 8 (relative_offset t).

Lemma u32_bound n : n < 256 ^ N.of_nat 4 <-> n <= u32_MAX.
Proof. unfold u32_MAX. change (256 ^ N.of_nat 4) with (2 ^ 32). lia. Qed.

Section Tables.
Context (Pre : Reader -> Prop) (Pre_advanced : forall r r' n, advanced r r' n -> Pre r -> Pre r').

Lemma parses_times_enc {A} (m : RM A) P enc count :
  parses Pre m (encodes P enc) ->
  parses Pre (read_times count m)
    (encodes (fun l => length l = count /\ Forall P l) (fun l => concat (map enc l))).
Proof using Pre_advanced.
  intros Hm. eapply parses_equiv; [by apply parses_times|]. intros l bs. split.
  - intros [[Hl HP] ->]. split; [done|]. exists (map enc l). split; [|done]. clear Hl.
    induction HP; simpl; by constructor.
  - intros (Hl & bss & Hf & ->). split.
    + split; [done|]. clear Hl. induction Hf as [|a b l bss [Ha ->] _ IH]; by constructor.
    + clear Hl. induction Hf as [|a b l bss [Ha ->] _ IH]; [done|]. simpl. by rewrite IH.
Qed.

Lemma parses_tensor_info limits :
  parses Pre (read_tensor_info limits) (encodes (tensor_info_ok limits) encode_tensor_info).
Proof using Pre_advanced.
  unfold read_tensor_info. eapply parses_equiv.
  - eapply parses_bind_skip; [done|apply parses_check|].
    eapply parses_bind_enc; [done|by apply parses_string|]. intros name _.
    eapply parses_bind_enc; [done|by apply parses_u32|]. intros raw _.
    eapply parses_bind_try; [done|apply bounded_count_not_Panic|]. intros rank _.
    eapply parses_bind_guard; [done|]. intros _.
    eapply parses_bind_skip; [done|apply parses_reserve|].
    eapply parses_bind_enc; [done|by apply parses_times_enc, parses_u64|]. intros dims _.
    eapply parses_bind_enc; [done|by apply parses_u32|]. intros code _.
    eapply parses_bind_enc; [done|by apply parses_u64|]. intros off _. apply parses_ret.
  - intros t bs. split.
    + destruct t as [name dims code off]. intros [(Hname & Hrank & Hdims & Hcode & Hoff) ->].
      cbn [raw_name dimensions ggml_type relative_offset] in *. exists name. eexists. split; [done|]. split; [|reflexivity].
      exists (N.of_nat (length dims)). eexists. rewrite u32_bound. split; [lia|]. split; [|reflexivity].
      exists (N.of_nat (length dims)). rewrite bounded_count_Ok.
      assert (u32_MAX <= usize_MAX) by done. split; [split; [done|split; lia]|].
      split; [apply N.eqb_neq; lia|].
      exists dims. eexists. split; [by rewrite Nat2N.id|]. split; [|reflexivity].
      exists code. eexists. split; [done|]. split; [|reflexivity]. exists off, []. by rewrite app_nil_r.
    + intros (name & ? & Hname & (raw & ? & Hraw & (rank & Hrank & Hnz & (dims & ? & [Hlen Hdims] &
        (code & ? & Hcode & (off & ? & Hoff & [-> ->] & ->) & ->) & ->)) & ->) & ->).
      apply bounded_count_Ok in Hrank as (-> & _ & Hrank). bool_to_prop. rewrite u32_bound in Hraw.
      unfold encodes, tensor_info_ok, encode_tensor_info.
      cbn [raw_name dimensions ggml_type relative_offset]. rewrite app_nil_r.
      assert (N.of_nat (length dims) = raw) as -> by lia.
      split; [|done]. split; [done|]. split; [lia|done].
Qed.

Lemma parses_tensor_infos limits count :
  parses Pre (read_tensor_infos count limits)
    (encodes (fun l => length l = N.to_nat count /\ Forall (tensor_info_ok limits) l)
       (fun l => concat (map encode_tensor_info l))).
Proof using Pre_advanced.
  eapply parses_bind_skip; [done|apply parses_reserve|]. by apply parses_times_enc, parses_tensor_info.
Qed.
End Tables.

(** * Tensor storage of a GGUF file

    The type table, the storage a type and a shape describe, alignment, and
    which tensor tables are laid out without overlap. *)

(** ** The type table *)

Lemma ggml_from_code_Ok n t : ggml_from_code n = Ok t <-> n = ggml_code t.
Proof.
  split; [|intros ->; by destruct t].
  destruct n as [|p]; [by intros [= <-]|]. do 6 (try destruct p as [p|p|]); simpl; try done; by intros [= <-].
Qed.

Lemma ggml_from_code_not_Panic n : ggml_from_code n <> Panic.
Proof. destruct n as [|p]; [done|]. do 6 (try destruct p as [p|p|]); done. Qed.

(** The encoding's name is that of the type. *)
Definition ggml_implementation (t : GgmlType) : ImplementationId :=
  {| provider := {| stable_name := "gguf" |}; operation := {| stable_name := ggml_name t |};
     version := ENCODING_VERSION |}.

Lemma ggml_encoding_eq t :
  ggml_encoding t = Ok (match ggml_dtype t with Some _ => None | None => Some (ggml_implementation t) end).
Proof. destruct t; vm_compute; reflexivity. Qed.

(** Blocks hold a number of values that divides the word, in some bytes; a
    plain type has one value of its size per block. *)
Lemma ggml_block_shape t :
  0 < ggml_values_per_block t <= 256 /\ 2 ^ 64 mod ggml_values_per_block t = 0 /\
  0 < ggml_bytes_per_block t /\
  (forall d, ggml_dtype t = Some d -> ggml_values_per_block t = 1 /\ ggml_bytes_per_block t = bits d / 8).
Proof. destruct t; (split_and!; [done..|]); intros d [= <-]; done. Qed.

(** ** Storage *)

(** The bytes of a tensor. *)
Definition ggml_length (t : GgmlType) (shape : list N) : N :=
  prodN shape / ggml_values_per_block t * ggml_bytes_per_block t.

(** The rows are the last axis, and blocks do not cross them. *)
Definition rows_ok (t : GgmlType) (shape : list N) : Prop :=
  exists row, last shape = Some row /\ row mod ggml_values_per_block t = 0.

Definition gguf_span (file : FileId) (offset : N) (t : GgmlType) (shape : list N) : SourceSpan :=
  {| span_file := file; span_offset := offset; span_length := ggml_length t shape |}.

Definition gguf_descriptor (file : FileId) (offset : N) (t : GgmlType) (shape : list N) : Storage :=
  match ggml_dtype t with
  | Some dtype => Plain dtype (gguf_span file offset t shape)
  | None => Quantized
      {| schema_version := QUANTIZED_STORAGE_SCHEMA_VERSION; encoding := ggml_implementation t;
         logical_shape := shape; payload := gguf_span file offset t shape;
         packing := Blocks {| values_per_block := ggml_values_per_block t;
                              bytes_per_block := ggml_bytes_per_block t;
                              order := Axis (N.of_nat (length shape) - 1) |};
         grouping := None; required_companions := []; companions := ∅; metadata := ∅ |}
  end.

Lemma SourceSpan_new_Ok file off len s :
  SourceSpan_new file off len = Ok s <->
  s = {| span_file := file; span_offset := off; span_length := len |} /\ off + len <= u64_MAX.
Proof.
  unfold SourceSpan_new. rewrite bind_Ok. setoid_rewrite ok_or_Ok. setoid_rewrite checked_add_Some.
  split; [by intros (? & [_ ?] & [= <-])|intros [-> ?]; eauto].
Qed.

Lemma last_index (shape : list N) row :
  last shape = Some row <-> shape <> [] /\ index shape (N.to_nat (N.of_nat (length shape) - 1)) = Ok row.
Proof.
  rewrite index_Ok, last_lookup. replace (N.to_nat (N.of_nat (length shape) - 1)) with (pred (length shape)) by lia.
  split; [|naive_solver]. intros H. split; [|done]. by intros ->.
Qed.

(** Blocks that tile the last axis tile the tensor. *)
Lemma row_blocks (shape : list N) i row v :
  shape !! i = Some row -> 0 < v -> row mod v = 0 ->
  prodN (delete i shape) * ceil_div row v = prodN shape / v.
Proof.
  intros Hi Hv Hm. rewrite (prodN_delete _ _ _ Hi). apply N.Div0.div_exact in Hm.
  unfold ceil_div. rewrite Hm at 1 2. generalize (row / v). intros q.
  rewrite (N.mul_comm v q), N.div_add_l, N.div_small, N.add_0_r by lia.
  replace (q * v * prodN (delete i shape)) with (prodN (delete i shape) * q * v) by lia.
  by rewrite N.div_mul by lia.
Qed.

Lemma Quantized_new_Ok encoding shape span packing s :
  QuantizedStorage_new encoding shape span packing = Ok s <->
  validate_shape_and_packing shape span packing = Ok tt /\
  s = {| schema_version := QUANTIZED_STORAGE_SCHEMA_VERSION; encoding := encoding;
         logical_shape := shape; payload := span; packing := packing; grouping := None;
         required_companions := []; companions := ∅; metadata := ∅ |}.
Proof.
  unfold QuantizedStorage_new. rewrite build_storage_Ok.
  cbn [storage_builder builder_encoding builder_shape builder_payload builder_packing builder_grouping
       builder_required builder_companions builder_metadata map list_to_map].
  split; [by intros (? & _ & _ & _ & _ & ->)|]. intros [? ->]. split_and!; try done; constructor.
Qed.

Definition row_packing (t : GgmlType) (shape : list N) : Packing :=
  Blocks {| values_per_block := ggml_values_per_block t; bytes_per_block := ggml_bytes_per_block t;
            order := Axis (N.of_nat (length shape) - 1) |}.

Lemma row_round_up t row : row <= u64_MAX -> row mod ggml_values_per_block t = 0 ->
  row + (ggml_values_per_block t - 1) <= u64_MAX.
Proof.
  intros Hr Hm. destruct (ggml_block_shape t) as (Hv & Hw & _). unfold u64_MAX in *.
  apply N.Div0.div_exact in Hm, Hw. revert Hm Hw.
  generalize (row / ggml_values_per_block t) (2 ^ 64 / ggml_values_per_block t). intros a b Ha Hb.
  assert (a < b) by nia. nia.
Qed.

Lemma factor_bound a b n : b <> 0 -> b * a <= n -> a <= n.
Proof. intros Hb. rewrite <-(N.mul_1_l a) at 2. nia. Qed.

(** The descriptor's own check agrees with the length computed here. *)
Lemma validate_rows t shape span :
  rows_ok t shape -> prodN shape <> 0 -> prefix_products_fit 1 shape = true ->
  N.of_nat (length shape) <= u32_MAX -> ggml_length t shape <= u64_MAX ->
  span_length span = ggml_length t shape ->
  validate_shape_and_packing shape span (row_packing t shape) = Ok tt.
Proof.
  intros (row & Hlast & Hm) Hnz Hfit Hrank Hlen Hspan. unfold validate_shape_and_packing.
  rewrite try_fold_mul_spec, Hfit, N.mul_1_l. cbn [mbind result_bind row_packing order values_per_block bytes_per_block].
  apply last_index in Hlast as [Hne Hidx]. set (axis := N.of_nat (length shape) - 1) in *.
  assert (axis < N.of_nat (length shape)) as Hax by (unfold axis; destruct shape; [done|simpl; lia]).
  assert (axis <= usize_MAX) as Hu by (assert (u32_MAX <= usize_MAX) by done; lia).
  rewrite (proj2 (grouping_axis_Ok axis (length shape) tt)) by done. cbn [mbind result_bind].
  rewrite (proj2 (usize_try_from_Ok axis axis)) by done. cbn [mbind result_bind].
  rewrite Hidx. cbn [mbind result_bind]. apply index_Ok in Hidx.
  destruct (ggml_block_shape t) as (Hv & _ & Hb & _).
  pose proof (prodN_delete _ _ _ Hidx) as Hp. pose proof (row_blocks _ _ _ _ Hidx (proj1 Hv) Hm) as Hblocks.
  assert (row <> 0 /\ prodN (delete (N.to_nat axis) shape) <> 0) as [Hr Hd] by (split; intros E; rewrite E in Hp; lia).
  assert (prodN shape <= u64_MAX) as Hle.
  { pose proof (try_fold_mul_spec 1 shape) as Hf. rewrite Hfit in Hf. apply try_fold_mul_Ok in Hf as [_ Hf].
    rewrite N.mul_1_l in Hf. by apply Hf. }
  assert (row <= u64_MAX) as Hrow by (apply (factor_bound _ _ _ Hd); lia).
  rewrite (proj2 (N.eqb_neq _ _) Hr), Hp, N.mul_comm, N.div_mul by done.
  unfold ggml_length in *. rewrite <-Hblocks, <-N.mul_assoc in *.
  rewrite (proj2 (block_bytes_Ok row (ggml_values_per_block t) (ggml_bytes_per_block t) _ (proj1 Hv))
    (conj eq_refl (fun _ => conj (row_round_up t row Hrow Hm)
                                  (factor_bound _ _ _ Hd Hlen)))).
  cbn [mbind result_bind]. rewrite checked_mul_ok by done. cbn [ok_or mbind result_bind].
  by rewrite Hspan, N.eqb_refl.
Qed.

(** What an accepted type, shape and offset describe. *)
Lemma gguf_storage_Ok file off shape code s :
  gguf_storage file off shape code = Ok s ->
  exists t, code = ggml_code t /\ s = gguf_descriptor file off t shape /\
    off + ggml_length t shape <= u64_MAX /\
    (ggml_dtype t = None -> rows_ok t shape /\
       validate_shape_and_packing shape (gguf_span file off t shape) (row_packing t shape) = Ok tt).
Proof.
  unfold gguf_storage. intros H. apply bind_Ok in H as (t & Ht%ggml_from_code_Ok & H).
  exists t. split; [done|]. destruct (ggml_block_shape t) as (Hv & _ & Hb & Hd).
  unfold gguf_descriptor, gguf_span, ggml_length. destruct (ggml_dtype t) as [d|] eqn:Et.
  - apply bind_Ok in H as (len & (-> & _ & _)%byte_len_Ok & H).
    apply bind_Ok in H as (? & [-> Hle]%SourceSpan_new_Ok & [= <-]).
    destruct (Hd d eq_refl) as [-> ->]. rewrite N.div_1_r. by repeat split.
  - apply bind_Ok in H as (axis & [Hax ->]%ok_or_Ok%checked_sub_Some & H).
    apply bind_Ok in H as (row & Hrow & H). apply bind_Ok in H as (? & Hm%reject_Ok & H).
    apply bind_Ok in H as (elements & [-> _]%try_fold_mul_Ok & H). rewrite N.mul_1_l in H.
    apply bind_Ok in H as (len & Hlen%ok_or_Ok & H).
    rewrite (proj2 (N.eqb_neq _ 0)) in Hlen by lia. cbn [mbind option_bind] in Hlen.
    apply checked_mul_Some in Hlen as [-> Hlen].
    apply bind_Ok in H as (? & [-> Hle]%SourceSpan_new_Ok & H).
    apply bind_Ok in H as (? & [-> _]%u32_try_from_Ok & H).
    apply bind_Ok in H as (block & Hblock & H). unfold BlockPacking_new in Hblock.
    apply bind_Ok in Hblock as (? & _ & [= <-]). rewrite ggml_encoding_eq, Et in H. cbn [mbind result_bind ok_or] in H.
    apply bind_Ok in H as (? & [Hval ->]%Quantized_new_Ok & [= <-]). bool_to_prop.
    split; [done|]. split; [done|]. intros _. split; [|done]. exists row. split; [|done].
    apply last_index. split; [|done]. intros ->. cbn in Hax. lia.
Qed.

(** Every shape with elements that meets the documented conditions is described. *)
Lemma gguf_storage_complete file off shape t :
  prefix_products_fit 1 shape = true -> prodN shape <> 0 -> N.of_nat (length shape) <= u32_MAX ->
  off + ggml_length t shape <= u64_MAX -> (ggml_dtype t = None -> rows_ok t shape) ->
  gguf_storage file off shape (ggml_code t) = Ok (gguf_descriptor file off t shape).
Proof.
  intros Hfit Hnz Hrank Hle Hrows. unfold gguf_storage.
  rewrite (proj2 (ggml_from_code_Ok _ t) eq_refl). cbn [mbind result_bind].
  destruct (ggml_block_shape t) as (Hv & _ & Hb & Hd). unfold gguf_descriptor.
  destruct (ggml_dtype t) as [d|] eqn:Et.
  - unfold byte_len, gguf_span, ggml_length in *. destruct (Hd d eq_refl) as [E1 E2]. rewrite E1, E2, N.div_1_r in *.
    rewrite try_fold_mul_spec, Hfit, N.mul_1_l. cbn [mbind result_bind].
    rewrite checked_mul_ok by lia. cbn [mbind result_bind ok_or].
    by rewrite (proj2 (SourceSpan_new_Ok _ _ _ _) (conj eq_refl Hle)).
  - specialize (Hrows eq_refl). pose proof Hrows as (row & Hlast & Hm). apply last_index in Hlast as [Hne Hidx].
    assert (1 <= N.of_nat (length shape)) as Hone by (destruct shape; [done|simpl; lia]).
    rewrite checked_sub_ok by done. cbn [mbind result_bind ok_or]. rewrite Hidx. cbn [mbind result_bind].
    rewrite Hm. cbn [negb N.eqb reject mbind result_bind]. rewrite try_fold_mul_spec, Hfit, N.mul_1_l.
    cbn [mbind result_bind]. rewrite (proj2 (N.eqb_neq _ 0)) by lia. cbn [mbind option_bind].
    fold (ggml_length t shape). rewrite checked_mul_ok by (fold (ggml_length t shape); lia). cbn [mbind result_bind ok_or].
    fold (ggml_length t shape).
    rewrite (proj2 (SourceSpan_new_Ok _ _ _ _) (conj eq_refl Hle)). cbn [mbind result_bind].
    rewrite (proj2 (u32_try_from_Ok _ _)) by (split; [done|lia]). cbn [mbind result_bind].
    unfold BlockPacking_new. rewrite (proj2 (N.eqb_neq _ 0)), (proj2 (N.eqb_neq _ 0)) by lia.
    cbn [orb reject mbind result_bind]. rewrite ggml_encoding_eq, Et. cbn [mbind result_bind ok_or].
    cbn [mret result_ret mbind result_bind].
    assert (validate_shape_and_packing shape (gguf_span file off t shape) (row_packing t shape) = Ok tt) as Hval.
    { apply validate_rows; try done. lia. }
    by rewrite (proj2 (Quantized_new_Ok _ _ _ _ _) (conj Hval eq_refl)).
Qed.

(** * The layout of the tensors of a GGUF file

    Alignment, and the tensor tables whose tensors lie aligned in the file
    without overlap: exactly those that [build_tensor_records] accepts. *)

(** ** Alignment *)

Lemma is_power_of_two_spec n : is_power_of_two n = true <-> exists k, n = 2 ^ k.
Proof.
  unfold is_power_of_two. destruct n as [|p].
  - split; [done|]. intros [k Hk]. symmetry in Hk. by apply N.pow_nonzero in Hk.
  - rewrite bool_decide_eq_true. split; [eauto|]. intros [k ->]. by rewrite N.log2_pow2 by lia.
Qed.

Lemma metadata_alignment_Ok m a :
  metadata_alignment m = Ok a <->
  a = default DEFAULT_ALIGNMENT (m !! "general.alignment" ≫= as_u64) /\ exists k, a = 2 ^ k.
Proof.
  unfold metadata_alignment. set (d := default _ _). rewrite bind_Ok. split.
  - intros (u & Hr%reject_Ok & [= <-]). bool_to_prop. by rewrite <-is_power_of_two_spec.
  - intros [-> Hp]. exists tt. split; [|done]. apply reject_Ok. rewrite (proj2 (is_power_of_two_spec d) Hp).
    destruct Hp as [k ->]. by rewrite (proj2 (N.eqb_neq _ 0)) by (by apply N.pow_nonzero).
Qed.

(** The least multiple of the alignment that is not below the value. *)
Lemma align_up_Ok v k r :
  align_up v (2 ^ k) = Ok r <-> r = ceil_div v (2 ^ k) * 2 ^ k /\ v + (2 ^ k - 1) <= u64_MAX.
Proof.
  assert (0 < 2 ^ k) as Hk by (apply N.neq_0_lt_0; by apply N.pow_nonzero).
  unfold align_up, unchecked_sub. rewrite (proj2 (N.leb_le _ _)) by lia. cbn [mbind result_bind].
  rewrite bind_Ok. setoid_rewrite ok_or_Ok. setoid_rewrite checked_add_Some.
  assert (forall n, N.ldiff n (2 ^ k - 1) = n / 2 ^ k * 2 ^ k) as Hl.
  { intros n. rewrite <-N.pred_sub, <-N.ones_equiv, N.ldiff_ones_r, N.shiftr_div_pow2, N.shiftl_mul_pow2. done. }
  split.
  - intros (? & [-> Hle] & [= <-]). by rewrite Hl.
  - intros [-> Hle]. eexists. split; [done|]. by rewrite Hl.
Qed.

Lemma align_up_not_Panic v k : align_up v (2 ^ k) <> Panic.
Proof.
  unfold align_up. assert (2 ^ k <> 0) by (by apply N.pow_nonzero).
  apply bind_not_Panic; [apply unchecked_sub_not_Panic; lia|]. intros. no_panic.
Qed.

(** ** Ranges without overlap *)

Definition range_disjoint (x y : N * N) : Prop := snd x <= fst y \/ snd y <= fst x.

Definition ranges_disjoint (l : list (N * N)) : Prop :=
  forall i j x y, l !! i = Some x -> l !! j = Some y -> i <> j -> range_disjoint x y.

Lemma ranges_disjoint_cons x l :
  ranges_disjoint (x :: l) <-> Forall (range_disjoint x) l /\ ranges_disjoint l.
Proof.
  split.
  - intros H. split.
    + apply Forall_forall. intros y [j Hj]%list_elem_of_lookup. by apply (H 0%nat (S j)).
    + intros i j y z Hi Hj Hij. apply (H (S i) (S j)); [done..|lia].
  - intros [Hx Hl] [|i] [|j] y z Hi Hj Hij; simpl in Hi, Hj; try done.
    + injection Hi as <-. rewrite Forall_forall in Hx. apply Hx. by eapply list_elem_of_lookup_2.
    + injection Hj as <-. rewrite Forall_forall in Hx. destruct (Hx y); [by eapply list_elem_of_lookup_2|by right|by left].
    + apply (Hl i j); [done..|lia].
Qed.

#[export] Instance ranges_disjoint_proper : Proper (Permutation ==> iff) ranges_disjoint.
Proof.
  assert (forall l k, Permutation l k -> ranges_disjoint l -> ranges_disjoint k) as H.
  { intros l k Hp Hl i j x y Hi Hj Hij. symmetry in Hp. apply Permutation_inj in Hp as (_ & f & Hf & Hlk).
    apply (Hl (f i) (f j)); [by rewrite <-Hlk..|]. intros E. by apply Hf in E. }
  intros l k Hp. split; apply H; done.
Qed.

(** In a sorted list of ranges it is enough that neighbours do not overlap. *)
Lemma windows_disjoint l :
  StronglySorted span_le l -> Forall (fun x => fst x <= snd x) l ->
  windows_any (fun x y => fst y <? snd x) l = false <-> ranges_disjoint l.
Proof.
  induction 1 as [|x l Hs IH Hx]; intros Hw; [by split; [intros _ i j x y Hi; rewrite lookup_nil in Hi|]|].
  apply Forall_cons in Hw as [Hwx Hw]. rewrite ranges_disjoint_cons.
  destruct l as [|y l]; [split; [intros _; split; [constructor|by apply IH]|done]|].
  rewrite windows_any_cons, orb_false_iff, (IH Hw), N.ltb_ge.
  apply Forall_cons in Hx as [Hxy Hx]. apply Forall_cons in Hw as [Hwy Hw].
  apply StronglySorted_inv in Hs as [_ Hy]. split.
  - intros [Hle Hd]. split; [|done]. constructor; [by left|].
    eapply Forall_impl; [exact Hy|]. unfold span_le, range_disjoint. intros z Hz. left. lia.
  - intros [Hd Hl]. split; [|done]. apply Forall_cons in Hd as [Hd _].
    unfold span_le, range_disjoint in *. lia.
Qed.

#[export] Instance span_le_total : Total span_le.
Proof. intros x y. unfold span_le. lia. Qed.
#[export] Instance span_le_trans : Transitive span_le.
Proof. intros x y z. unfold span_le. lia. Qed.

Lemma sorted_windows_disjoint l :
  Forall (fun x => fst x <= snd x) l ->
  windows_any (fun x y => fst y <? snd x) (merge_sort span_le l) = false <-> ranges_disjoint l.
Proof.
  intros Hw. rewrite windows_disjoint; [|apply (StronglySorted_merge_sort span_le)|].
  - by rewrite (merge_sort_Permutation span_le l).
  - by rewrite (merge_sort_Permutation span_le l).
Qed.

(** ** Tensor records *)

(** The range of the file a record occupies. *)
Definition record_range (t : TensorRecord) : N * N :=
  let span := storage_span (record_storage t) in
  (span_offset span, span_offset span + span_length span).

Section Layout.
Context (file_id : FileId) (file_size data_base alignment : N).

(** The record of one entry of the tensor table. *)
Record record_ok (raw : RawTensor) (t : TensorRecord) : Prop := {
  record_aligned : relative_offset raw mod alignment = 0;
  record_absolute : data_base + relative_offset raw <= u64_MAX;
  record_named : record_name t = raw_name raw;
  record_shaped : record_shape t = rev (dimensions raw);
  record_stored : gguf_storage file_id (data_base + relative_offset raw) (rev (dimensions raw)) (ggml_type raw) =
    Ok (record_storage t);
  record_inside : snd (record_range t) <= file_size
}.

Definition layout_ok (raws : list RawTensor) (ts : list TensorRecord) : Prop :=
  Forall2 record_ok raws ts /\ ranges_disjoint (map record_range ts).

(** Where an accepted storage lies. *)
Lemma gguf_storage_span off shape code s :
  gguf_storage file_id off shape code = Ok s ->
  span_offset (storage_span s) = off /\ off + span_length (storage_span s) <= u64_MAX.
Proof using Type.
  intros (t & -> & -> & Hle & _)%gguf_storage_Ok. unfold gguf_descriptor.
  destruct (ggml_dtype t); split; done.
Qed.

Lemma gguf_storage_file off shape code s :
  gguf_storage file_id off shape code = Ok s -> span_file (storage_span s) = file_id.
Proof using Type.
  intros (t & -> & -> & _)%gguf_storage_Ok. unfold gguf_descriptor. by destruct (ggml_dtype t).
Qed.

Lemma gguf_storage_not_Panic off shape code : gguf_storage file_id off shape code <> Panic.
Proof using Type.
  unfold gguf_storage. apply bind_not_Panic; [apply ggml_from_code_not_Panic|]. intros t _.
  destruct (ggml_dtype t) as [d|] eqn:Et.
  { apply bind_not_Panic; [apply byte_len_not_Panic|]. intros. unfold SourceSpan_new. no_panic. }
  apply bind_not_Panic; [apply ok_or_not_Panic|]. intros axis [Hax ->]%ok_or_Ok%checked_sub_Some.
  apply bind_not_Panic; [apply index_not_Panic; lia|]. intros row _.
  apply bind_not_Panic; [apply reject_not_Panic|]. intros _ _.
  apply bind_not_Panic; [apply try_fold_mul_not_Panic|]. intros elements _.
  apply bind_not_Panic; [apply ok_or_not_Panic|]. intros len _.
  apply bind_not_Panic; [unfold SourceSpan_new; no_panic|]. intros span _.
  apply bind_not_Panic; [apply u32_try_from_not_Panic|]. intros axis _.
  apply bind_not_Panic; [unfold BlockPacking_new; no_panic|]. intros block Hb.
  unfold BlockPacking_new in Hb. apply bind_Ok in Hb as (? & _ & [= <-]).
  rewrite ggml_encoding_eq, Et. cbn [mbind result_bind ok_or].
  apply bind_not_Panic; [|done]. apply Quantized_new_not_Panic, (ggml_block_shape t).
Qed.

(** What is stored is a valid tensor when its span is inside its file. *)
Lemma gguf_tensor_ok files off shape code t :
  gguf_storage file_id off shape code = Ok (record_storage t) -> record_shape t = shape ->
  span_inside files (storage_span (record_storage t)) ->
  match record_storage t with
  | Plain dtype span => byte_len dtype (record_shape t) = Ok (span_length span) /\ span_inside files span
  | Quantized s => logical_shape s = record_shape t /\ span_inside files (payload s) /\
      forall r c, companions s !! r = Some c -> span_inside files (companion_span c)
  end.
Proof using Type.
  intros Hst -> Hin. pose proof Hst as (g & -> & Hs & _)%gguf_storage_Ok. rewrite Hs in *.
  unfold gguf_descriptor in *. unfold gguf_storage in Hst.
  rewrite (proj2 (ggml_from_code_Ok _ g) eq_refl) in Hst. cbn [mbind result_bind] in Hst.
  destruct (ggml_dtype g) as [d|].
  - split; [|done]. apply bind_Ok in Hst as (len & Hlen & Hst).
    apply bind_Ok in Hst as (? & [-> _]%SourceSpan_new_Ok & [= Hl]). by rewrite Hlen, Hl.
  - split; [done|]. split; [done|]. intros r c Hc. cbn [companions] in Hc. by rewrite lookup_empty in Hc.
Qed.

(** The table determines the records. *)
Lemma record_ok_unique raws ts ts' : Forall2 record_ok raws ts -> Forall2 record_ok raws ts' -> ts = ts'.
Proof using Type.
  intros H. revert ts'. induction H as [|raw [n sh s] raws ts [_ _ Hn Hsh Hs _] _ IH]; intros ts' H'; inversion H' as [|? [n' sh' s'] ? ? [_ _ Hn' Hsh' Hs' _]]; subst; [done|].
  simpl in *. f_equal; [|by apply IH]. congruence.
Qed.

(** ** The table *)

Definition layout_result (raws : list RawTensor) (res : result (list TensorRecord)) : Prop :=
  match res with
  | Ok ts => layout_ok raws ts
  | Err _ => forall ts, ~ layout_ok raws ts
  | Panic => False
  end.

Lemma build_tensor_record_spec raw occupied ts :
  alignment <> 0 ->
  wp (build_tensor_record file_id file_size data_base alignment raw (occupied, ts)) (fun res =>
    match res with
    | Ok built => exists t, record_ok raw t /\ built = (occupied ++ [record_range t], ts ++ [t])
    | Err _ => forall t, ~ record_ok raw t
    | Panic => False
    end).
Proof using Type.
  intros Ha. unfold build_tensor_record. apply wp_bind, wp_check. apply wp_bind, wp_lift.
  destruct (N.eqb_spec (relative_offset raw mod alignment) 0) as [Hal|Hal]; cbn [negb reject]; [|by intros t []].
  apply wp_bind, wp_lift. destruct (checked_add data_base (relative_offset raw)) as [off|] eqn:Eo; cbn [ok_or].
  2: { intros t []. unfold checked_add in Eo. destruct (_ <=? _) eqn:E; [done|]. bool_to_prop. lia. }
  apply checked_add_Some in Eo as [-> Hoff]. apply wp_bind, wp_lift.
  destruct (gguf_storage file_id _ _ _) as [s|e|] eqn:Es; [| |by apply gguf_storage_not_Panic in Es].
  2: { intros t []. congruence. }
  destruct (gguf_storage_span _ _ _ _ Es) as [Hso Hsl]. apply wp_bind, wp_lift. unfold span_end.
  rewrite Hso, (proj2 (N.leb_le _ _) Hsl). apply wp_bind, wp_lift.
  destruct (N.ltb_spec file_size (data_base + relative_offset raw + span_length (storage_span s))) as [Hend|Hend]; cbn [reject].
  - intros t [_ _ _ _ Hs Hin]. rewrite Es in Hs. injection Hs as ->. unfold record_range in Hin. cbn [snd] in Hin. lia.
  - apply wp_ret. exists {| record_name := raw_name raw; record_shape := rev (dimensions raw); record_storage := s |}.
    split; [|unfold record_range; cbn [record_storage]; by rewrite Hso].
    split; try done. unfold record_range. cbn [record_storage snd]. by rewrite Hso.
Qed.

Lemma build_loop_spec raws : alignment <> 0 -> forall occupied ts,
  wp (for_each raws (build_tensor_record file_id file_size data_base alignment) (occupied, ts)) (fun res =>
    match res with
    | Ok built => exists new, Forall2 record_ok raws new /\
        built = (occupied ++ map record_range new, ts ++ new)
    | Err _ => forall new, ~ Forall2 record_ok raws new
    | Panic => False
    end).
Proof using Type.
  intros Ha. induction raws as [|raw raws IH]; intros occupied ts; cbn [for_each].
  { apply wp_ret. exists []. by rewrite !app_nil_r. }
  apply wp_bind. eapply wp_mono; [by apply build_tensor_record_spec|]. intros [built|e|]; [| |done].
  - intros (t & Ht & ->). eapply wp_mono; [apply IH|]. intros [built|e|]; [| |done].
    + intros (new & Hnew & ->). exists (t :: new). rewrite <-!app_assoc. by split; [constructor|].
    + intros Hno new Hf. inversion Hf; subst. by eapply Hno.
  - intros Hno new Hf. inversion Hf; subst. by eapply Hno.
Qed.

Lemma build_tensor_records_spec raws :
  alignment <> 0 ->
  wp (build_tensor_records raws file_id file_size data_base alignment) (layout_result raws).
Proof using Type.
  intros Ha. unfold build_tensor_records.
  assert (forall B n (m : M B) Q, wp m Q -> wp (_ ← reserve_items n; m) Q) as Hreserve.
  { intros B n m Q Hm. apply wp_bind. intros env k. unfold reserve_items.
    destruct (grants env k n) eqn:E; [by split; [lia|]|]. right. right. eauto 6. }
  apply Hreserve, Hreserve, wp_bind. eapply wp_mono; [by apply build_loop_spec|].
  intros [built|e|]; [| |done].
  - intros (ts & Hts & ->). cbn [app]. apply wp_bind, wp_lift.
    pose proof (sorted_windows_disjoint (map record_range ts)) as Hd.
    specialize (Hd ltac:(apply Forall_forall; intros x (t & -> & _)%list_elem_of_fmap; cbn; lia)).
    destruct (windows_any _ _); cbn [reject].
    + intros ts' [Hf Hdis]. assert (ts' = ts) as -> by by eapply record_ok_unique. by apply Hd in Hdis.
    + apply wp_ret. split; [done|]. by apply Hd.
  - intros Hno ts [Hf _]. by eapply Hno.
Qed.
End Layout.

(** * The format of a GGUF container

    A header, and tensors laid out after it from the next aligned offset.
    [parse] accepts exactly the files that start with such a container. *)

(** ** Headers *)

Record GgufHeader := {
  header_version : N;
  header_entries : list entry;
  header_tensors : list RawTensor
}.

Definition header_alignment (h : GgufHeader) : N :=
  default DEFAULT_ALIGNMENT ((list_to_map (header_entries h) : gmap string GgufValue) !! "general.alignment" ≫= as_u64).

Definition encode_header (h : GgufHeader) : bytes :=
  MAGIC ++ to_le_bytes 4 (header_version h) ++ to_le_bytes 8 (N.of_nat (length (header_tensors h))) ++
  encode_metadata (header_entries h) ++ concat (map encode_tensor_info (header_tensors h)).

Record header_ok (limits : ResourceLimits) (h : GgufHeader) : Prop := {
  header_versioned : MIN_VERSION <= header_version h <= MAX_VERSION;
  header_counted : N.of_nat (length (header_tensors h)) <= N.min (max_tensors limits) u64_MAX;
  header_metadata : metadata_ok limits (header_entries h);
  header_aligned : exists k, header_alignment h = 2 ^ k;
  header_listed : Forall (tensor_info_ok limits) (header_tensors h)
}.

Definition header_value (h : GgufHeader) : N * gmap string GgufValue * N * list RawTensor :=
  (header_version h, list_to_map (header_entries h), header_alignment h, header_tensors h).

Definition fmt_header (limits : ResourceLimits) : format (N * gmap string GgufValue * N * list RawTensor) :=
  fun v bs => exists h, header_ok limits h /\ v = header_value h /\ bs = encode_header h.

Lemma metadata_alignment_not_Panic m : metadata_alignment m <> Panic.
Proof. unfold metadata_alignment. no_panic. Qed.

Lemma parses_header limits :
  parses (at_least (max_header_bytes limits) 0) (read_header limits) (fmt_header limits).
Proof.
  pose proof (at_least_advanced (max_header_bytes limits) 0) as Hadv.
  unfold read_header. eapply parses_equiv.
  - eapply parses_bind; [exact Hadv|apply parses_read|]. intros magic _.
    eapply parses_bind_guard; [exact Hadv|]. intros _.
    eapply parses_bind_enc; [exact Hadv|by apply parses_u32|]. intros version _.
    eapply parses_bind_guard; [exact Hadv|]. intros _.
    eapply parses_bind_enc; [exact Hadv|by apply parses_u64|]. intros n _.
    eapply parses_bind_try; [exact Hadv|apply bounded_count_not_Panic|]. intros count _.
    eapply parses_bind; [exact Hadv|apply parses_metadata|]. intros entries _.
    eapply parses_bind_try; [exact Hadv|apply metadata_alignment_not_Panic|]. intros alignment _.
    eapply parses_bind_enc; [exact Hadv|by apply parses_tensor_infos|]. intros tensors _. apply parses_ret.
  - intros v bs. split.
    + intros ([version entries tensors] & [Hv Hc Hm Ha Hl] & -> & ->).
      unfold header_value, encode_header in *. cbn [header_version header_entries header_tensors] in *.
      exists MAGIC, MAGIC. eexists. split; [done|]. split; [|reflexivity].
      split; [by rewrite bool_decide_true|]. exists version. eexists.
      split; [unfold MAX_VERSION in Hv; change (256 ^ N.of_nat 4) with 4294967296; lia|]. split; [|reflexivity].
      split; [apply negb_false_iff, andb_true_iff; split; apply N.leb_le; apply Hv|].
      exists (N.of_nat (length tensors)). eexists. split; [apply u64_bound; lia|]. split; [|reflexivity].
      exists (N.of_nat (length tensors)). rewrite bounded_count_Ok.
      split; [unfold usize_MAX; split; [done|lia]|].
      exists (list_to_map entries), (encode_metadata entries). eexists.
      split; [by exists entries|]. split; [|reflexivity].
      eexists. rewrite metadata_alignment_Ok. split; [by split|].
      exists tensors, []. rewrite Nat2N.id. split; [by split|]. split; [done|]. by rewrite app_nil_r.
    + intros (magic & ? & ? & [-> _] & [Hmagic (version & ? & Hv4 & [Hv (n & ? & Hn & (count & Hc &
        (? & ? & ? & (entries & Hm & -> & ->) & (alignment & Ha & (tensors & ? & [Hlen Hl] & [-> ->] & ->)) & ->)) & ->)] & ->)] & ->).
      apply bounded_count_Ok in Hc as (-> & _ & Hc). apply metadata_alignment_Ok in Ha as [-> Ha].
      bool_to_prop. subst magic. rewrite u64_bound in Hn.
      assert (N.of_nat (length tensors) = n) as <- by lia.
      exists {| header_version := version; header_entries := entries; header_tensors := tensors |}.
      rewrite app_nil_r. split; [|done]. split; cbn [header_version header_entries header_tensors]; try done. lia.
Qed.

(** ** Containers *)

Definition header_length (h : GgufHeader) : N := N.of_nat (length (encode_header h)).

(** Where the tensor data starts: the next multiple of the alignment. *)
Definition header_data_base (h : GgufHeader) : N :=
  ceil_div (header_length h) (header_alignment h) * header_alignment h.

Record container_ok (f : File) (file_id : FileId) (size : N) (limits : ResourceLimits) (h : GgufHeader)
    (ts : list TensorRecord) : Prop := {
  container_header : header_ok limits h;
  container_prefix : encode_header h `prefix_of` contents f;
  container_base : header_length h + (header_alignment h - 1) <= u64_MAX;
  container_size : header_data_base h <= size;
  container_limit : header_data_base h <= max_header_bytes limits;
  container_layout : layout_ok file_id size (header_data_base h) (header_alignment h) (header_tensors h) ts
}.

Definition header_metadata_value (h : GgufHeader) : GgufMetadata :=
  {| gguf_version := header_version h; gguf_alignment := header_alignment h;
     gguf_entries := list_to_map (header_entries h) |}.

(** A file that can be read whole, of a size that a buffer may have. *)
Definition file_readable (f : File) (size : N) : Prop :=
  reliable f /\ size <= N.of_nat (length (contents f)) /\ size <= isize_MAX.

Lemma header_length_base h k : header_alignment h = 2 ^ k -> header_length h <= header_data_base h.
Proof.
  intros Hk. unfold header_data_base. apply ceil_div_spec. rewrite Hk. apply N.neq_0_lt_0. by apply N.pow_nonzero.
Qed.

(** What [parse] returns. *)
Definition parse_result (f : File) (file_id : FileId) (size : N) (limits : ResourceLimits)
    (res : result (GgufMetadata * list TensorRecord)) : Prop :=
  match res with
  | Ok (md, ts) => exists h, container_ok f file_id size limits h ts /\ md = header_metadata_value h
  | Err _ => file_readable f size -> forall h ts, ~ container_ok f file_id size limits h ts
  | Panic => False
  end.

(** The header of a container is determined by the file. *)
Lemma header_unique limits f h h' :
  header_ok limits h -> header_ok limits h' ->
  encode_header h `prefix_of` contents f -> encode_header h' `prefix_of` contents f ->
  header_value h = header_value h' /\ encode_header h = encode_header h'.
Proof.
  intros Hh Hh' Hp Hp'.
  eapply (parses_unambiguous _ _ _ (parses_header limits)); [by exists h|by exists h'|exact Hp|exact Hp'].
Qed.

Lemma parse_spec f file_id size limits :
  file_ok f -> size <= u64_MAX -> wp (parse f file_id size limits) (parse_result f file_id size limits).
Proof.
  intros Hf Hs. unfold parse. set (r0 := Reader_new f size (max_header_bytes limits)).
  assert (unread r0 = contents f) as Hunread by done.
  apply wp_bind. eapply wp_mono.
  { apply (parses_run _ _ _ (parses_header limits) r0); [by apply Reader_new_ok|done]. }
  intros [[v r]|e|]; [| |done].
  2: { intros Hno Hrd h ts [Hh Hp _ Hsz Hl _]. destruct (header_aligned _ _ Hh) as [k Hk].
    pose proof (header_length_base h k Hk). destruct Hrd as (H1 & H2 & H3).
    refine (Hno _ _ _ (ex_intro _ h (conj Hh (conj eq_refl eq_refl))) Hp _); [by split|].
    unfold fits, header_length in *. cbn [r0 Reader_new offset file_size limit]. lia. }
  intros (bs & (h & Hh & -> & ->) & Hp & [Hr _ _ _ Ho]). unfold header_value.
  cbn [r0 Reader_new offset] in Ho. rewrite N.add_0_l in Ho. fold (header_length h) in Ho.
  destruct (header_aligned _ _ Hh) as [k Hk]. rewrite Ho.
  assert (forall h' ts, container_ok f file_id size limits h' ts ->
    header_value h' = header_value h /\ encode_header h' = encode_header h) as Hunique.
  { intros h' ts [Hh' Hp' _ _ _ _]. by apply (header_unique limits f). }
  assert (forall h' ts, container_ok f file_id size limits h' ts -> container_ok f file_id size limits h ts) as Hsame.
  { intros h' ts Hc. destruct (Hunique h' ts Hc) as [[= H1 H2 H3 H4] H5]. destruct Hc as [_ _ Hb Hsz Hl Hlay].
    unfold header_data_base, header_length in *. rewrite H3, H4, H5 in *. by split. }
  apply wp_bind, wp_lift. destruct (align_up (header_length h) (header_alignment h)) as [base|e|] eqn:Eb.
  - rewrite Hk in Eb. apply align_up_Ok in Eb as [-> Hle]. rewrite <-Hk in *. fold (header_data_base h).
    apply wp_bind, wp_lift. destruct (N.ltb_spec size (header_data_base h)) as [Hx|Hx]; cbn [reject].
    { intros _ h' ts [_ _ _ ? _ _]%Hsame. lia. }
    apply wp_bind, wp_lift. destruct (N.ltb_spec (max_header_bytes limits) (header_data_base h)) as [Hy|Hy]; cbn [reject].
    { intros _ h' ts [_ _ _ _ ? _]%Hsame. lia. }
    apply wp_bind. eapply wp_mono; [apply build_tensor_records_spec; rewrite Hk; by apply N.pow_nonzero|].
    intros [ts|e|]; [| |done].
    + intros Hlay. apply wp_ret. by exists h.
    + intros Hno _ h' ts [_ _ _ _ _ Hlay]%Hsame. by apply (Hno ts).
  - intros _ h' ts [_ _ Hb _ _ _]%Hsame. rewrite Hk in *.
    by rewrite (proj2 (align_up_Ok _ k _) (conj eq_refl Hb)) in Eb.
  - rewrite Hk in Eb. by apply align_up_not_Panic in Eb.
Qed.
