(* ===== verification/Json.v ===== *)
(** * JSON visitors of [checkpoint.rs] and [inventory.rs]

    The deserializer ([serde_json]) is a parameter: it presents a text as a tree
    of values, in which a place it cannot read is [Malformed] or the end of an
    unclosed sequence or object. A visitor walks the tree, checks the
    cancellation flag as it goes and may abort with an error of its own; any
    other failure is reported as an invalid format. *)


From S2P Require Import Prelude Errors Cancel Tensor Identity Order Limits Inventory.
From Stdlib Require Strings.String.
Local Open Scope N_scope.

Inductive Json :=
  | Unit
  | Boolean (value : bool)
  | I64Number (value : Z)
  | U64Number (value : N)
  | F64Number (value : N)
  | Text (value : string)
  | Sequence (elements : list Json) (closed : bool)
  | Object (fields : list (string * Json)) (closed : bool)
  | Malformed.

(** A text: its value, and whether only white space follows it. *)
Record Document := {
  document_value : Json;
  document_ends : bool
}.

(** ** Calls of a visitor *)

(** [None] is an error of the deserializer's type; an error of the control
    ([abort]) ends the whole call with its own category. *)
Definition Visit (A : Type) : Type := M (option A).

#[export] Instance Visit_ret : MRet Visit := fun A a => mret (M := M) (Some a).
#[export] Instance Visit_bind : MBind Visit := fun A B f v =>
  mbind (M := M) (fun o => match o with Some a => f a | None => mret (M := M) None end) v.

Definition visit {A} (m : M A) : Visit A := mbind (M := M) (fun a => mret (M := M) (Some a)) m.
Definition serde_error {A} : Visit A := mret (M := M) None.

(** [control.check] and [control.limit]. *)
Definition control_check : Visit unit := visit check.
Definition control_limit {A} : Visit A := visit (lift (Err ResourceLimit)).

(** [classify_json_error]: an error of the control stands; otherwise the
    failure is a cancellation when the flag is set. *)
Definition classify_json_error {A} (v : Visit A) : M A :=
  o ← v;
  match o with
  | Some a => mret a
  | None => _ ← check; lift (Err InvalidFormat)
  end.

(** [deserialize_header_json] and [deserialize_shard_index_json]. *)
Definition deserialize_json {A} (visitor : Json -> Visit A) (d : Document) : M A :=
  a ← classify_json_error (visitor (document_value d));
  _ ← check;
  _ ← classify_json_error (if document_ends d then mret tt else serde_error);
  _ ← check;
  mret a.

(** ** Strings and numbers *)

Definition string_len (s : string) : N := N.of_nat (String.length s).

(** The visitors of bounded strings: [HeaderStringVisitor] and
    [IndexStringVisitor]. *)
Definition visit_string (maximum : N) (reject_empty : bool) (value : string) : Visit string :=
  _ ← control_check;
  if (maximum <? string_len value) || (reject_empty && bool_decide (value = "")) then control_limit
  else mret value.

(** Their seeds. *)
Definition string_seed (maximum : N) (reject_empty : bool) (j : Json) : Visit string :=
  _ ← control_check;
  match j with
  | Text value => visit_string maximum reject_empty value
  | _ => serde_error
  end.

Definition key_seed (maximum : N) (reject_empty : bool) (key : string) : Visit string :=
  _ ← control_check; visit_string maximum reject_empty key.

(** [u64::deserialize]. *)
Definition visit_u64 (j : Json) : Visit N :=
  match j with
  | U64Number n => mret n
  | I64Number z => if (z <? 0)%Z then serde_error else mret (Z.to_N z)
  | _ => serde_error
  end.

(** [<[u64; 2]>::deserialize]. *)
Definition visit_pair (j : Json) : Visit (N * N) :=
  match j with
  | Sequence [first; second] true =>
      a ← visit_u64 first; b ← visit_u64 second; mret (a, b)
  | _ => serde_error
  end.

(** ** Safetensors headers *)

Record HeaderTensor := {
  header_dtype : string;
  header_shape : list N;
  header_offsets : N * N
}.

(** [ShapeVisitor]. The sequences of the deserializer give no size hint. *)
Fixpoint visit_shape (limits : ResourceLimits) (elements : list Json) (closed : bool)
    (shape : list N) : Visit (list N) :=
  _ ← control_check;
  match elements with
  | [] => if closed then mret shape else serde_error
  | element :: elements =>
      dimension ← visit_u64 element;
      if max_rank limits <=? N.of_nat (length shape) then control_limit else
      visit_shape limits elements closed (shape ++ [dimension])
  end.

Definition shape_seed (limits : ResourceLimits) (j : Json) : Visit (list N) :=
  _ ← control_check;
  match j with
  | Sequence elements closed => visit_shape limits elements closed []
  | _ => serde_error
  end.

(** The fields read so far: dtype, shape and data offsets. *)
Definition RawFields : Type := option string * option (list N) * option (N * N).

(** [RawTensorVisitor]. *)
Fixpoint visit_raw_tensor (limits : ResourceLimits) (fields : list (string * Json)) (closed : bool)
    (raw : RawFields) : Visit HeaderTensor :=
  let '(dtype, shape, data_offsets) := raw in
  _ ← control_check;
  match fields with
  | [] =>
      if closed then
        match dtype, shape, data_offsets with
        | Some dtype, Some shape, Some data_offsets =>
            mret {| header_dtype := dtype; header_shape := shape; header_offsets := data_offsets |}
        | _, _, _ => serde_error
        end
      else serde_error
  | (field, value) :: fields =>
      if bool_decide (field = "dtype") then
        _ ← control_check;
        if bool_decide (is_Some dtype) then serde_error else
        dtype ← string_seed (max_name_bytes limits) false value;
        visit_raw_tensor limits fields closed (Some dtype, shape, data_offsets)
      else if bool_decide (field = "shape") then
        _ ← control_check;
        if bool_decide (is_Some shape) then serde_error else
        shape ← shape_seed limits value;
        visit_raw_tensor limits fields closed (dtype, Some shape, data_offsets)
      else if bool_decide (field = "data_offsets") then
        _ ← control_check;
        if bool_decide (is_Some data_offsets) then serde_error else
        data_offsets ← visit_pair value;
        visit_raw_tensor limits fields closed (dtype, shape, Some data_offsets)
      else serde_error
  end.

Definition raw_tensor_seed (limits : ResourceLimits) (j : Json) : Visit HeaderTensor :=
  _ ← control_check;
  match j with
  | Object fields closed => visit_raw_tensor limits fields closed (None, None, None)
  | _ => serde_error
  end.

(** [MetadataVisitor]. The text itself is not kept. *)
Fixpoint visit_metadata (limits : ResourceLimits) (fields : list (string * Json)) (closed : bool)
    (seen : gset string) (bytes : N) : Visit N :=
  _ ← control_check;
  match fields with
  | [] => if closed then mret bytes else serde_error
  | (field, value) :: fields =>
      key ← key_seed (saturating_sub (max_metadata_bytes limits) bytes) false field;
      if bool_decide (key ∈ seen) then serde_error else
      bytes ← visit (lift (unchecked_add bytes (string_len key)));
      value ← string_seed (saturating_sub (max_metadata_bytes limits) bytes) false value;
      bytes ← visit (lift (unchecked_add bytes (string_len value)));
      visit_metadata limits fields closed ({[key]} ∪ seen) bytes
  end.

Definition metadata_seed (limits : ResourceLimits) (j : Json) : Visit N :=
  _ ← control_check;
  match j with
  | Object fields closed => visit_metadata limits fields closed ∅ 0
  | _ => serde_error
  end.

Definition METADATA_KEY : string := "__metadata__".

(** [HeaderVisitor]. *)
Fixpoint visit_header (limits : ResourceLimits) (fields : list (string * Json)) (closed : bool)
    (tensors : gmap string HeaderTensor) (seen_metadata : bool) : Visit (gmap string HeaderTensor) :=
  _ ← control_check;
  match fields with
  | [] => if closed then mret tensors else serde_error
  | (field, value) :: fields =>
      name ← key_seed (N.max (max_name_bytes limits) (string_len METADATA_KEY)) true field;
      _ ← control_check;
      if bool_decide (name = METADATA_KEY) then
        if seen_metadata then serde_error else
        _ ← metadata_seed limits value;
        visit_header limits fields closed tensors true
      else if max_name_bytes limits <? string_len name then control_limit
      else if bool_decide (is_Some (tensors !! name)) then serde_error
      else if max_tensors limits <=? N.of_nat (size tensors) then control_limit
      else
        raw ← raw_tensor_seed limits value;
        visit_header limits fields closed (<[name := raw]> tensors) seen_metadata
  end.

(** [HeaderSeed]. *)
Definition header_seed (limits : ResourceLimits) (j : Json) : Visit (gmap string HeaderTensor) :=
  _ ← control_check;
  match j with
  | Object fields closed => visit_header limits fields closed ∅ false
  | _ => serde_error
  end.

(** [parse_header_json]. *)
Definition parse_header_json (json : bytes -> Document) (bs : bytes) (limits : ResourceLimits)
  : M (gmap string HeaderTensor) :=
  _ ← check;
  _ ← lift (reject (negb (bool_decide (head bs = Some Byte.x7b))) InvalidFormat);
  deserialize_json (header_seed limits) (json bs).

(** ** Shard indexes *)

(** [CancellableIgnoredAnyVisitor] and its seed. *)
Fixpoint ignore_any (j : Json) : Visit unit :=
  let fix ignore_sequence elements (closed : bool) :=
    _ ← control_check;
    match elements with
    | [] => if closed then mret tt else serde_error
    | element :: elements => _ ← ignore_any element; ignore_sequence elements closed
    end in
  let fix ignore_object fields (closed : bool) :=
    _ ← control_check;
    match fields with
    | [] => if closed then mret tt else serde_error
    | (_, value) :: fields =>
        _ ← (_ ← control_check; control_check);
        _ ← ignore_any value;
        ignore_object fields closed
    end in
  _ ← control_check;
  match j with
  | Malformed => serde_error
  | Sequence elements closed => ignore_sequence elements closed
  | Object fields closed => ignore_object fields closed
  | _ => control_check
  end.

(** [WeightMapVisitor]. *)
Fixpoint visit_weight_map (limits : ResourceLimits) (fields : list (string * Json)) (closed : bool)
    (result : gmap string RepoPath) (shards : list RepoPath) : Visit (gmap string RepoPath) :=
  _ ← control_check;
  match fields with
  | [] => if closed then mret result else serde_error
  | (field, value) :: fields =>
      name ← key_seed (max_name_bytes limits) true field;
      _ ← control_check;
      if bool_decide (is_Some (result !! name)) then serde_error else
      if max_tensors limits <=? N.of_nat (size result) then control_limit else
      raw_path ← string_seed (max_name_bytes limits) false value;
      path ← visit (lift (RepoPath_parse raw_path));
      let shards := if bool_decide (path ∈ shards) then shards else path :: shards in
      if max_shards limits <? N.of_nat (length shards) then control_limit else
      visit_weight_map limits fields closed (<[name := path]> result) shards
  end.

Definition weight_map_seed (limits : ResourceLimits) (j : Json) : Visit (gmap string RepoPath) :=
  _ ← control_check;
  match j with
  | Object fields closed => visit_weight_map limits fields closed ∅ []
  | _ => serde_error
  end.

(** [ShardIndexVisitor]. *)
Fixpoint visit_shard_index (limits : ResourceLimits) (fields : list (string * Json)) (closed : bool)
    (seen : gset string) (weight_map : option (gmap string RepoPath)) : Visit (gmap string RepoPath) :=
  _ ← control_check;
  match fields with
  | [] =>
      if closed then match weight_map with Some m => mret m | None => serde_error end
      else serde_error
  | (key, value) :: fields =>
      _ ← control_check;
      if bool_decide (key ∈ seen) then serde_error else
      let seen := {[key]} ∪ seen in
      if bool_decide (key = "weight_map") then
        m ← weight_map_seed limits value;
        visit_shard_index limits fields closed seen (Some m)
      else
        _ ← ignore_any value;
        visit_shard_index limits fields closed seen weight_map
  end.

Definition shard_index_seed (limits : ResourceLimits) (j : Json) : Visit (gmap string RepoPath) :=
  _ ← control_check;
  match j with
  | Object fields closed => visit_shard_index limits fields closed ∅ None
  | _ => serde_error
  end.

Record ShardIndex := { weight_map : gmap string RepoPath }.

(** [ShardIndex::from_json_with_cancellation]. *)
Definition ShardIndex_from_json (json : bytes -> Document) (bs : bytes) (limits : ResourceLimits)
  : M ShardIndex :=
  _ ← check;
  let byte_limit :=
    match usize_try_from (max_header_bytes limits) with Ok limit => limit | _ => usize_MAX end in
  _ ← lift (reject (byte_limit <? N.of_nat (length bs)) ResourceLimit);
  m ← deserialize_json (shard_index_seed limits) (json bs);
  _ ← check;
  mret {| weight_map := m |}.

(** Mappings in the order of their names. *)
Definition string_list {A} (m : gmap string A) : list (string * A) :=
  omap (fun k => (fun a => (k, a)) <$> m !! k) (merge_sort String.le (map fst (map_to_list m))).

(** [shards]: the distinct paths in order. *)
Definition shard_paths (i : ShardIndex) : list RepoPath :=
  sort_unstable (remove_dups (map snd (string_list (weight_map i)))).

(** * JSON visitors: no panic, and the headers they accept *)

(** ** Rules *)

(** A call of a visitor does not panic, and a value it returns satisfies [Q]. *)
Definition vwp {A} (v : Visit A) (Q : A -> Prop) : Prop :=
  wp v (fun r => match r with
                 | Ok (Some a) => Q a
                 | Ok None | Err _ => True
                 | Panic => False
                 end).

(** A call that is not interrupted returns a value that satisfies [Q]. *)
Definition accepts {A} (v : Visit A) (Q : A -> Prop) : Prop :=
  succeeds v (fun o => exists a, o = Some a /\ Q a).

Section Rules.
Context {A B : Type}.

Lemma vwp_bind (v : Visit A) (f : A -> Visit B) (Q : B -> Prop) :
  vwp v (fun a => vwp (f a) Q) -> vwp (v ≫= f) Q.
Proof using Type.
  intros H. apply (wp_bind v). eapply wp_mono; [exact H|]. by intros [[a|]|e|].
Qed.

Lemma vwp_ret (a : A) (Q : A -> Prop) : Q a -> vwp (mret a) Q.
Proof using Type. intros. by apply (wp_ret (Some a)). Qed.

Lemma vwp_error (Q : A -> Prop) : vwp serde_error Q.
Proof using Type. by apply (wp_ret (A := option A)). Qed.

Lemma vwp_limit (Q : A -> Prop) : vwp control_limit Q.
Proof using Type. apply wp_bind, wp_lift. done. Qed.

Lemma vwp_lift (r : result A) (Q : A -> Prop) :
  r <> Panic -> (forall a, r = Ok a -> Q a) -> vwp (visit (lift r)) Q.
Proof using Type.
  intros Hr HQ. apply wp_bind, wp_lift. destruct r as [a|e|]; [|done..]. by apply wp_ret, HQ.
Qed.

Lemma vwp_mono (v : Visit A) (P Q : A -> Prop) : vwp v P -> (forall a, P a -> Q a) -> vwp v Q.
Proof using Type. intros H HPQ. eapply wp_mono; [exact H|]. intros [[a|]|e|]; auto. Qed.

Lemma accepts_bind (v : Visit A) (f : A -> Visit B) (Q : B -> Prop) :
  accepts v (fun a => accepts (f a) Q) -> accepts (v ≫= f) Q.
Proof using Type.
  intros H. apply (succeeds_bind v). eapply succeeds_mono; [exact H|]. by intros ? (a & -> & Ha).
Qed.

Lemma accepts_ret (a : A) (Q : A -> Prop) : Q a -> accepts (mret a) Q.
Proof using Type. intros H. apply (succeeds_ret (Some a)). eauto. Qed.

Lemma accepts_lift (r : result A) a (Q : A -> Prop) : r = Ok a -> Q a -> accepts (visit (lift r)) Q.
Proof using Type.
  intros -> H. apply (succeeds_lift_bind _ a); [done|]. apply succeeds_ret. eauto.
Qed.

Lemma accepts_mono (v : Visit A) (P Q : A -> Prop) : accepts v P -> (forall a, P a -> Q a) -> accepts v Q.
Proof using Type. intros H HPQ. eapply succeeds_mono; [exact H|]. naive_solver. Qed.
End Rules.

Lemma vwp_check (Q : unit -> Prop) : Q tt -> vwp control_check Q.
Proof. intros H. by apply wp_bind, wp_check, wp_ret. Qed.
Lemma accepts_check (Q : unit -> Prop) : Q tt -> accepts control_check Q.
Proof. intros H. apply succeeds_check_bind, succeeds_ret. eauto. Qed.

(** Symbolic execution of a visitor. *)
Ltac vstep :=
  lazymatch goal with
  | |- vwp (mret _) _ => apply vwp_ret
  | |- vwp serde_error _ => apply vwp_error
  | |- vwp control_limit _ => apply vwp_limit
  | |- vwp control_check _ => apply vwp_check
  | |- vwp (mbind _ _) _ => apply vwp_bind
  | |- vwp (if ?b then _ else _) _ => let E := fresh "E" in destruct b eqn:E
  | |- accepts (mret _) _ => apply accepts_ret
  | |- accepts control_check _ => apply accepts_check
  | |- accepts (mbind _ _) _ => apply accepts_bind
  end.

(** ** Strings and numbers *)

Lemma visit_string_safe maximum reject value (Q : string -> Prop) :
  (string_len value <= maximum -> Q value) -> vwp (visit_string maximum reject value) Q.
Proof.
  intros H. unfold visit_string. repeat vstep. apply orb_false_iff in E as [E _]. bool_to_prop. auto.
Qed.

Lemma key_seed_safe maximum reject key (Q : string -> Prop) :
  (string_len key <= maximum -> Q key) -> vwp (key_seed maximum reject key) Q.
Proof. intros H. unfold key_seed. repeat vstep. by apply visit_string_safe. Qed.

Lemma string_seed_safe maximum reject j (Q : string -> Prop) :
  (forall s, string_len s <= maximum -> Q s) -> vwp (string_seed maximum reject j) Q.
Proof. intros H. unfold string_seed. vstep. vstep. destruct j; try vstep. apply visit_string_safe, H. Qed.

Lemma visit_u64_safe j : vwp (visit_u64 j) (fun _ => True).
Proof. destruct j; cbn [visit_u64]; repeat vstep; done. Qed.

Lemma visit_pair_safe j : vwp (visit_pair j) (fun _ => True).
Proof.
  destruct j as [| | | | | |[|x [|y [|]]] []|? ?|]; cbn [visit_pair]; try vstep.
  eapply vwp_mono; [apply visit_u64_safe|]. intros a _. vstep.
  eapply vwp_mono; [apply visit_u64_safe|]. intros b _. by vstep.
Qed.

(** ** Headers never panic *)

Section Safe.
Context (limits : ResourceLimits).

Lemma visit_shape_safe l closed : forall shape, vwp (visit_shape limits l closed shape) (fun _ => True).
Proof using Type.
  induction l as [|j l IH]; intros shape; cbn [visit_shape]; vstep; vstep; [by repeat vstep|].
  vstep. eapply vwp_mono; [apply visit_u64_safe|]. intros n _. vstep; [vstep|apply IH].
Qed.

Lemma visit_raw_tensor_safe l closed : forall raw, vwp (visit_raw_tensor limits l closed raw) (fun _ => True).
Proof using Type.
  induction l as [|[k j] l IH]; intros [[d s] o]; cbn [visit_raw_tensor]; vstep; vstep.
  { vstep; [|vstep]. destruct d, s, o; by vstep. }
  repeat (vstep; [vstep; vstep; vstep; [vstep|vstep]|]).
  - eapply string_seed_safe. intros ? _. apply IH.
  - unfold shape_seed. vstep. vstep. destruct j; try vstep.
    eapply vwp_mono; [apply visit_shape_safe|]. intros ? _. apply IH.
  - eapply vwp_mono; [apply visit_pair_safe|]. intros ? _. apply IH.
  - vstep.
Qed.

(** The metadata budget bounds the sum of its lengths. *)
Lemma visit_metadata_safe l closed : max_metadata_bytes limits <= usize_MAX -> forall seen bytes,
  bytes <= max_metadata_bytes limits -> vwp (visit_metadata limits l closed seen bytes) (fun _ => True).
Proof using Type.
  intros Hmax. induction l as [|[k j] l IH]; intros seen bytes Hb; cbn [visit_metadata]; vstep; vstep.
  { by vstep; vstep. }
  vstep. apply key_seed_safe. unfold saturating_sub. intros Hk. vstep; [vstep|]. vstep.
  assert (forall n, n <= max_metadata_bytes limits -> n <= u64_MAX) as Hu by (intros n Hn; unfold usize_MAX in Hmax; lia).
  assert (unchecked_add bytes (string_len k) = Ok (bytes + string_len k)) as Hadd.
  { unfold unchecked_add. rewrite (proj2 (N.leb_le _ _)); [done|]. apply Hu. lia. }
  apply vwp_lift; [by rewrite Hadd|]. rewrite Hadd. intros ? [= <-]. vstep. apply string_seed_safe.
  intros s Hs. vstep.
  assert (unchecked_add (bytes + string_len k) (string_len s) = Ok (bytes + string_len k + string_len s)) as Hadd2.
  { unfold unchecked_add. rewrite (proj2 (N.leb_le _ _)); [done|]. apply Hu. lia. }
  apply vwp_lift; [by rewrite Hadd2|]. rewrite Hadd2. intros ? [= <-]. apply IH. lia.
Qed.

Lemma visit_header_safe l closed : max_metadata_bytes limits <= usize_MAX -> forall m seen,
  vwp (visit_header limits l closed m seen) (fun _ => True).
Proof using Type.
  intros Hmax. induction l as [|[k j] l IH]; intros m seen; cbn [visit_header]; vstep; vstep.
  { by vstep; vstep. }
  vstep. apply key_seed_safe. intros _. vstep. vstep. vstep.
  - vstep; [vstep|]. vstep. unfold metadata_seed. vstep. vstep. destruct j; try vstep.
    eapply vwp_mono; [apply visit_metadata_safe; [done|lia]|]. intros _ _. apply IH.
  - vstep; [vstep|]. vstep; [vstep|]. vstep; [vstep|]. vstep. unfold raw_tensor_seed. vstep. vstep.
    destruct j; try vstep. eapply vwp_mono; [apply visit_raw_tensor_safe|]. intros ? _. apply IH.
Qed.

Lemma header_seed_safe j : max_metadata_bytes limits <= usize_MAX -> vwp (header_seed limits j) (fun _ => True).
Proof using Type.
  intros Hmax. unfold header_seed. vstep. vstep. destruct j; try vstep. by apply visit_header_safe.
Qed.
End Safe.

(** Deserialization never panics when the visitor does not. *)
Lemma deserialize_json_safe {A} (visitor : Json -> Visit A) d (Q : A -> Prop) :
  vwp (visitor (document_value d)) Q ->
  wp (deserialize_json visitor d) (fun r => match r with Ok a => Q a | Err _ => True | Panic => False end).
Proof.
  intros Hv. assert (forall B (v : Visit B) (P : B -> Prop), vwp v P ->
    wp (classify_json_error v) (fun r => match r with Ok a => P a | Err _ => True | Panic => False end)) as Hc.
  { intros B v P H. unfold classify_json_error. apply wp_bind. eapply wp_mono; [exact H|].
    intros [[b|]|e|] Hb; [by apply wp_ret|by apply wp_bind, wp_check, wp_lift|done|done]. }
  unfold deserialize_json. apply wp_bind. eapply wp_mono; [apply Hc, Hv|]. intros [a|e|]; try done.
  intros Ha. apply wp_bind, wp_check, wp_bind. eapply wp_mono; [apply (Hc _ _ (fun _ => True))|].
  { destruct (document_ends d); by vstep. }
  intros [[]|e|]; try done. intros _. by apply wp_bind, wp_check, wp_ret.
Qed.

Lemma deserialize_json_accepts {A} (visitor : Json -> Visit A) d (Q : A -> Prop) :
  document_ends d = true -> accepts (visitor (document_value d)) Q ->
  succeeds (deserialize_json visitor d) Q.
Proof.
  intros He Hv. unfold deserialize_json, classify_json_error. rewrite He.
  apply succeeds_bind, (succeeds_bind (visitor (document_value d))). eapply succeeds_mono; [exact Hv|].
  intros ? (a & -> & Ha). apply succeeds_ret, succeeds_check_bind, succeeds_bind.
  apply (succeeds_bind (mret (M := Visit) tt)), (succeeds_ret (Some tt)), succeeds_ret.
  by apply succeeds_check_bind, succeeds_ret.
Qed.

(** ** Encoded headers are accepted *)

Definition tensor_json (h : HeaderTensor) : Json :=
  Object [("dtype", Text (header_dtype h));
          ("shape", Sequence (map U64Number (header_shape h)) true);
          ("data_offsets", Sequence [U64Number (fst (header_offsets h)); U64Number (snd (header_offsets h))] true)]
    true.

Definition header_json (l : list (string * HeaderTensor)) : Json :=
  Object (map (fun '(name, h) => (name, tensor_json h)) l) true.

Record name_ok (limits : ResourceLimits) (name : string) : Prop := {
  name_nonempty : name <> "";
  name_not_metadata : name <> METADATA_KEY;
  name_bounded : string_len name <= max_name_bytes limits
}.

(** A header within the limits. *)
Record header_within (limits : ResourceLimits) (l : list (string * HeaderTensor)) : Prop := {
  within_names : Forall (name_ok limits) l.*1;
  within_distinct : NoDup l.*1;
  within_count : N.of_nat (length l) <= max_tensors limits;
  within_dtypes : Forall (fun h => string_len (header_dtype h) <= max_name_bytes limits) l.*2;
  within_ranks : Forall (fun h => N.of_nat (length (header_shape h)) <= max_rank limits) l.*2
}.

Section Accepts.
Context (limits : ResourceLimits).

Lemma visit_string_accepts maximum reject value (Q : string -> Prop) :
  string_len value <= maximum -> (reject = true -> value <> "") -> Q value ->
  accepts (visit_string maximum reject value) Q.
Proof using Type.
  intros Hl Hr HQ. unfold visit_string. vstep. vstep. rewrite (proj2 (N.ltb_ge _ _) Hl). cbn [orb].
  destruct reject; cbn [andb]; [rewrite bool_decide_false by auto|]; by vstep.
Qed.

Lemma visit_shape_accepts l (Q : list N -> Prop) : forall shape,
  N.of_nat (length shape + length l) <= max_rank limits -> Q (shape ++ l) ->
  accepts (visit_shape limits (map U64Number l) true shape) Q.
Proof using Type.
  induction l as [|d l IH]; intros shape Hn HQ; cbn [visit_shape map length] in *; vstep; vstep.
  { rewrite app_nil_r in HQ. by vstep. }
  vstep. cbn [visit_u64]. vstep. rewrite (proj2 (N.leb_gt _ _)) by lia. apply IH.
  - rewrite length_app. cbn [length]. by replace (length shape + 1 + length l)%nat with (length shape + S (length l))%nat by lia.
  - by rewrite <-app_assoc.
Qed.

Lemma raw_tensor_accepts h (Q : HeaderTensor -> Prop) :
  string_len (header_dtype h) <= max_name_bytes limits ->
  N.of_nat (length (header_shape h)) <= max_rank limits -> Q h ->
  accepts (raw_tensor_seed limits (tensor_json h)) Q.
Proof using Type.
  destruct h as [d s [a b]]. intros Hd Hs HQ. unfold raw_tensor_seed, tensor_json. vstep. vstep.
  cbn [visit_raw_tensor header_dtype header_shape header_offsets fst snd] in *.
  vstep. vstep. rewrite bool_decide_true by done. vstep. vstep.
  rewrite (bool_decide_false (is_Some None)) by by intros [? [=]]. vstep. unfold string_seed. vstep. vstep.
  apply visit_string_accepts; [done..|].
  vstep. vstep. rewrite (bool_decide_false ("shape" = "dtype")), (bool_decide_true ("shape" = "shape")) by done.
  vstep. vstep. rewrite (bool_decide_false (is_Some None)) by by intros [? [=]].
  vstep. unfold shape_seed. vstep. vstep. apply visit_shape_accepts; [done|].
  vstep. vstep.
  rewrite (bool_decide_false ("data_offsets" = "dtype")), (bool_decide_false ("data_offsets" = "shape")),
    (bool_decide_true ("data_offsets" = "data_offsets")) by done.
  vstep. vstep. rewrite (bool_decide_false (is_Some None)) by by intros [? [=]].
  vstep. cbn [visit_pair visit_u64]. vstep. vstep. vstep. vstep. vstep. vstep. vstep. by vstep.
Qed.

Lemma visit_header_accepts l (Q : gmap string HeaderTensor -> Prop) : forall m,
  Forall (name_ok limits) l.*1 -> NoDup l.*1 -> Forall (fun k => m !! k = None) l.*1 ->
  N.of_nat (size m + length l) <= max_tensors limits ->
  Forall (fun h => string_len (header_dtype h) <= max_name_bytes limits) l.*2 ->
  Forall (fun h => N.of_nat (length (header_shape h)) <= max_rank limits) l.*2 ->
  Q (list_to_map l ∪ m) ->
  accepts (visit_header limits (map (fun '(name, h) => (name, tensor_json h)) l) true m false) Q.
Proof using Type.
  induction l as [|[k h] l IH]; intros m Hn Hd Hfresh Hc Hdt Hr HQ; cbn [map visit_header]; vstep; vstep.
  { rewrite list_to_map_nil, map_empty_union in HQ. by vstep. }
  cbn in Hn, Hd, Hfresh, Hdt, Hr. apply Forall_cons in Hn as [[Hne Hnm Hnb] Hn].
  apply NoDup_cons in Hd as [Hni Hd]. apply Forall_cons in Hfresh as [Hk Hfresh].
  apply Forall_cons in Hdt as [Hdt1 Hdt], Hr as [Hr1 Hr].
  vstep. unfold key_seed. vstep. vstep. apply visit_string_accepts; [lia|done|]. vstep. vstep.
  rewrite bool_decide_false by done. rewrite (proj2 (N.ltb_ge _ _) Hnb).
  rewrite (bool_decide_false (is_Some _)) by (rewrite Hk; by intros [? [=]]).
  cbn [length] in Hc. rewrite (proj2 (N.leb_gt _ _)) by lia. vstep. apply raw_tensor_accepts; [done..|].
  apply IH; try done.
  - rewrite Forall_forall in *. intros k' Hk'. rewrite lookup_insert_ne; [by apply Hfresh|]. by intros ->.
  - rewrite map_size_insert_None by done. lia.
  - rewrite list_to_map_cons, <-insert_union_l, insert_union_r in HQ; [done|]. by apply not_elem_of_list_to_map_1.
Qed.

Lemma header_seed_accepts l (Q : gmap string HeaderTensor -> Prop) :
  header_within limits l -> Q (list_to_map l) -> accepts (header_seed limits (header_json l)) Q.
Proof using Type.
  intros [Hn Hd Hc Hdt Hr] HQ. unfold header_seed, header_json. vstep. vstep.
  apply visit_header_accepts; try done.
  - apply Forall_forall. intros. apply lookup_empty.
  - by rewrite map_union_empty.
Qed.
End Accepts.
