(* ===== verification/Safetensors.v ===== *)
(** * Safetensors tensors of [checkpoint.rs]

    The dtypes of a header, and the tensor records of a header whose data
    section they tile. *)


From S2P Require Import Prelude Errors Cancel Tensor Identity Order Limits Quantization.
From S2P Require Import Inventory Gguf GgufSpecs Json.
Local Open Scope N_scope.

(** ** Dtypes *)

Inductive HeaderDtype :=
  | HeaderPlain (dtype : DType)
  | HeaderQuantized (operation : string) (values_per_block bytes_per_block : N).

Definition header_byte_len (d : HeaderDtype) (shape : list N) : result N :=
  match d with
  | HeaderPlain dtype => byte_len dtype shape
  | HeaderQuantized _ values_per_block bytes_per_block =>
      elements ← try_fold mul_dimension 1 shape;
      if elements =? 0 then mret 0 else
      _ ← reject (negb (elements mod values_per_block =? 0)) InvalidFormat;
      ok_or (checked_mul (elements / values_per_block) bytes_per_block) ResourceLimit
  end.

Definition into_storage (d : HeaderDtype) (shape : list N) (span : SourceSpan) : result Storage :=
  match d with
  | HeaderPlain dtype => mret (Plain dtype span)
  | HeaderQuantized operation values_per_block bytes_per_block =>
      provider ← StableName_parse "safetensors";
      operation ← StableName_parse operation;
      packing ← flat_blocks values_per_block bytes_per_block;
      storage ← QuantizedStorage_new
        {| provider := provider; operation := operation; version := 1 |} shape span packing;
      mret (Quantized storage)
  end.

(** The dtypes a header may name. *)
Definition dtype_table : list (string * HeaderDtype) :=
  [("BOOL", HeaderPlain Bool);
   ("F4", HeaderQuantized "f4" 2 1);
   ("F6_E2M3", HeaderQuantized "f6-e2m3" 4 3);
   ("F6_E3M2", HeaderQuantized "f6-e3m2" 4 3);
   ("U8", HeaderPlain U8); ("I8", HeaderPlain I8); ("U16", HeaderPlain U16); ("I16", HeaderPlain I16);
   ("U32", HeaderPlain U32); ("I32", HeaderPlain I32); ("U64", HeaderPlain U64); ("I64", HeaderPlain I64);
   ("F16", HeaderPlain F16); ("BF16", HeaderPlain Bf16); ("F32", HeaderPlain F32);
   ("F64", HeaderPlain F64); ("C64", HeaderPlain C64); ("F8_E5M2", HeaderPlain F8E5M2);
   ("F8_E4M3", HeaderPlain F8E4M3); ("F8_E8M0", HeaderPlain F8E8M0);
   ("F8_E4M3FNUZ", HeaderPlain F8E4M3Fnuz); ("F8_E5M2FNUZ", HeaderPlain F8E5M2Fnuz)].

Definition parse_dtype (value : string) : result HeaderDtype :=
  match List.find (fun p => bool_decide (fst p = value)) dtype_table with
  | Some (_, d) => Ok d
  | None => Err Unsupported
  end.

(** ** Tensor entries *)

Record Entry := {
  entry_name : string;
  entry_shape : list N;
  entry_dtype : HeaderDtype;
  entry_start : N;
  entry_end : N
}.

(** One round of the first loop. *)
Definition check_entry (limits : ResourceLimits) (data_length : N) (tensor : string * HeaderTensor)
    (entries : list Entry) : M (list Entry) :=
  let '(name, raw) := tensor in
  _ ← check;
  _ ← lift (reject (max_rank limits <? N.of_nat (length (header_shape raw))) ResourceLimit);
  dtype ← lift (parse_dtype (header_dtype raw));
  let '(first, last) := header_offsets raw in
  _ ← lift (reject ((last <? first) || (data_length <? last)) InvalidFormat);
  expected ← lift (header_byte_len dtype (header_shape raw));
  length ← lift (unchecked_sub last first);
  _ ← lift (reject (negb (length =? expected)) InvalidFormat);
  mret (entries ++ [{| entry_name := name; entry_shape := header_shape raw; entry_dtype := dtype;
                       entry_start := first; entry_end := last |}]).

(** The order of [(start, end, name)]. *)
Definition entry_le (x y : Entry) : Prop :=
  entry_start x < entry_start y \/
  entry_start x = entry_start y /\
    (entry_end x < entry_end y \/
     entry_end x = entry_end y /\ String.le (entry_name x) (entry_name y)).

#[export] Instance entry_le_dec : RelDecision entry_le.
Proof. intros x y. unfold entry_le. apply _. Defined.

(** One round of the second loop: entries follow one another. *)
Definition advance_cursor (entry : Entry) (cursor : N) : M N :=
  _ ← check;
  _ ← lift (reject (negb (entry_start entry =? cursor)) InvalidFormat);
  mret (entry_end entry).

(** One round of the third loop. *)
Definition push_record (file : FileId) (data_base : N) (entry : Entry) (records : list TensorRecord)
  : M (list TensorRecord) :=
  _ ← check;
  offset ← lift (ok_or (checked_add data_base (entry_start entry)) ResourceLimit);
  length ← lift (unchecked_sub (entry_end entry) (entry_start entry));
  span ← lift (SourceSpan_new file offset length);
  storage ← lift (into_storage (entry_dtype entry) (entry_shape entry) span);
  mret (records ++ [{| record_name := entry_name entry; record_shape := entry_shape entry;
                       record_storage := storage |}]).

Definition validate_tensor_entries (file : FileId) (data_base data_length : N)
    (raw : gmap string HeaderTensor) (limits : ResourceLimits) : M (list TensorRecord) :=
  entries ← for_each (string_list raw) (check_entry limits data_length) [];
  let entries := merge_sort entry_le entries in
  cursor ← for_each entries advance_cursor 0;
  _ ← lift (reject (negb (cursor =? data_length)) InvalidFormat);
  records ← for_each entries (push_record file data_base) [];
  _ ← check;
  mret records.

(** * Which headers describe their data section

        [validate_tensor_entries] accepts a header exactly when the ranges of its
    tensors tile the data section and every range has the length of its dtype
    and shape. *)

(** ** Dtypes *)

Definition header_storage (d : HeaderDtype) (shape : list N) (span : SourceSpan) : Storage :=
  match d with
  | HeaderPlain dtype => Plain dtype span
  | HeaderQuantized op v b => Quantized
      {| schema_version := QUANTIZED_STORAGE_SCHEMA_VERSION;
         encoding := {| provider := {| stable_name := "safetensors" |};
                        operation := {| stable_name := op |}; version := 1 |};
         logical_shape := shape; payload := span;
         packing := Blocks {| values_per_block := v; bytes_per_block := b; order := Flat |};
         grouping := None; required_companions := []; companions := ∅; metadata := ∅ |}
  end.

(** Packed dtypes have a valid name and small blocks. *)
Lemma parse_dtype_packed s op v b :
  parse_dtype s = Ok (HeaderQuantized op v b) ->
  StableName_parse op = Ok {| stable_name := op |} /\ 0 < v /\ 0 < b /\ 2 ^ 64 mod v = 0.
Proof.
  unfold parse_dtype. destruct (List.find _ _) as [[n d]|] eqn:E; [|done]. intros [= ->].
  apply find_some in E as [Hin _]. cbn in Hin.
  repeat (destruct Hin as [Hin|Hin]; [first [discriminate Hin|injection Hin as _ <- <- <-; done]|]).
  done.
Qed.

Lemma parse_dtype_not_Panic s : parse_dtype s <> Panic.
Proof. unfold parse_dtype. by destruct (List.find _ _) as [[]|]. Qed.

Lemma header_byte_len_not_Panic d shape : header_byte_len d shape <> Panic.
Proof.
  destruct d; cbn [header_byte_len]; [apply byte_len_not_Panic|].
  apply bind_not_Panic; [apply try_fold_mul_not_Panic|]. intros elements _.
  destruct (elements =? 0); [done|]. no_panic.
Qed.

(** A multiple of a block that divides the word can be rounded up. *)
Lemma round_up_fits v n : 0 < v -> 2 ^ 64 mod v = 0 -> n <= u64_MAX -> n mod v = 0 -> n + (v - 1) <= u64_MAX.
Proof.
  intros Hv Hw Hr Hm. unfold u64_MAX in *. apply N.Div0.div_exact in Hm, Hw. revert Hm Hw.
  generalize (n / v) (2 ^ 64 / v). intros a b Ha Hb. assert (a < b) by nia. nia.
Qed.

Lemma ceil_div_exact v n : 0 < v -> n mod v = 0 -> ceil_div n v = n / v.
Proof.
  intros Hv Hm. apply N.Div0.div_exact in Hm. unfold ceil_div. rewrite Hm at 1. generalize (n / v). intros q.
  by rewrite (N.mul_comm v q), N.div_add_l, N.div_small, N.add_0_r by lia.
Qed.

(** A range of the length of its dtype and shape is stored as that dtype. *)
Lemma into_storage_Ok s d shape span :
  parse_dtype s = Ok d -> header_byte_len d shape = Ok (span_length span) ->
  into_storage d shape span = Ok (header_storage d shape span).
Proof.
  intros Hd Hlen. destruct d as [dtype|op v b]; [done|].
  apply parse_dtype_packed in Hd as (Hop & Hv & Hb & Hw). cbn [into_storage header_byte_len] in *.
  change (StableName_parse "safetensors") with (Ok {| stable_name := "safetensors" |}).
  cbn [mbind result_bind]. rewrite Hop. cbn [mbind result_bind]. unfold flat_blocks, BlockPacking_new.
  rewrite (proj2 (N.eqb_neq v 0)), (proj2 (N.eqb_neq b 0)) by lia.
  cbn [orb reject mbind result_bind mret result_ret].
  apply bind_Ok in Hlen as (elements & He & Hlen).
  assert (validate_shape_and_packing shape span
    (Blocks {| values_per_block := v; bytes_per_block := b; order := Flat |}) = Ok tt) as Hval.
  { unfold validate_shape_and_packing. rewrite He. cbn [mbind result_bind order values_per_block bytes_per_block].
    destruct (N.eqb_spec elements 0) as [->|Hne]; [injection Hlen as <-; done|].
    apply bind_Ok in Hlen as (? & Hm%reject_Ok & Hlen%ok_or_Ok). bool_to_prop.
    apply checked_mul_Some in Hlen as [-> Hle]. apply try_fold_mul_Ok in He as [-> Hel].
    rewrite (proj2 (block_bytes_Ok (1 * prodN shape) v b (1 * prodN shape / v * b) Hv)).
    - cbn [mbind result_bind]. by rewrite N.eqb_refl.
    - rewrite ceil_div_exact by done. split; [done|]. intros _. split; [|done].
      apply round_up_fits; [done..| |done]. by apply Hel. }
  by rewrite (proj2 (Quantized_new_Ok _ _ _ _ _) (conj Hval eq_refl)).
Qed.

(** ** Ranges that tile *)

(** The ranges follow one another from one offset to another. *)
Fixpoint tiles (cursor : N) (l : list (N * N)) (last : N) : Prop :=
  match l with
  | [] => cursor = last
  | (first, stop) :: l => first = cursor /\ tiles stop l last
  end.

#[export] Instance span_le_antisym : AntiSymm (=) span_le.
Proof. intros [a b] [c d]. unfold span_le. cbn. intros H1 H2. f_equal; lia. Qed.

Lemma tiles_sorted l : forall cursor last,
  Forall (fun x => fst x <= snd x) l -> tiles cursor l last ->
  StronglySorted span_le l /\ Forall (fun x => cursor <= fst x) l.
Proof.
  induction l as [|[s e] l IH]; intros cursor last Hw; [intros _; split; constructor|].
  apply Forall_cons in Hw as [Hse Hw]. cbn in Hse. intros [-> Ht].
  destruct (IH _ _ Hw Ht) as [Hs Hf]. split; constructor; try done.
  - destruct l as [|[s' e'] l]; [constructor|]. destruct Ht as [-> Ht].
    apply Forall_cons in Hw as [Hw1 Hw2]. cbn in Hw1. constructor; [unfold span_le; cbn; lia|].
    apply StronglySorted_inv in Hs as [_ Hs]. eapply Forall_impl; [exact Hs|].
    intros [a b]. unfold span_le. cbn. lia.
  - eapply Forall_impl; [exact Hf|]. intros [a b]. cbn. lia.
Qed.

(** ** Entries *)

Section Entries.
Context (limits : ResourceLimits) (data_length : N).

(** The entry of a named tensor. *)
Record entry_made (t : string * HeaderTensor) (e : Entry) : Prop := {
  made_name : entry_name e = fst t;
  made_shape : entry_shape e = header_shape (snd t);
  made_offsets : header_offsets (snd t) = (entry_start e, entry_end e);
  made_dtype : parse_dtype (header_dtype (snd t)) = Ok (entry_dtype e);
  made_rank : N.of_nat (length (header_shape (snd t))) <= max_rank limits;
  made_range : entry_start e <= entry_end e <= data_length;
  made_length : header_byte_len (entry_dtype e) (entry_shape e) = Ok (entry_end e - entry_start e)
}.

Definition entry_range (e : Entry) : N * N := (entry_start e, entry_end e).

Lemma check_entry_spec t entries :
  wp (check_entry limits data_length t entries) (fun res =>
    match res with
    | Ok entries' => exists e, entry_made t e /\ entries' = entries ++ [e]
    | Err _ => forall e, ~ entry_made t e
    | Panic => False
    end).
Proof using Type.
  destruct t as [name [dtype shape [first last]]]. unfold check_entry. cbn [header_shape header_dtype header_offsets].
  apply wp_bind, wp_check, wp_bind, wp_lift.
  destruct (N.ltb_spec (max_rank limits) (N.of_nat (length shape))) as [Hr|Hr]; cbn [reject].
  { intros e [_ _ _ _ H _ _]. cbn in H. lia. }
  apply wp_bind, wp_lift. destruct (parse_dtype dtype) as [d|e|] eqn:Ed; [| |by apply parse_dtype_not_Panic in Ed].
  2: { intros e' [_ _ _ H _ _ _]. cbn in H. congruence. }
  apply wp_bind, wp_lift. destruct (N.ltb_spec last first) as [Hfl|Hfl]; cbn [orb reject].
  { intros e [_ _ [= -> ->] _ _ H _]. lia. }
  destruct (N.ltb_spec data_length last) as [Hdl|Hdl]; cbn [reject].
  { intros e [_ _ [= -> ->] _ _ H _]. lia. }
  apply wp_bind, wp_lift. destruct (header_byte_len d shape) as [len|e|] eqn:El;
    [| |by apply header_byte_len_not_Panic in El].
  2: { intros e' [_ Hsh _ Hd _ _ Hl]. cbn in Hsh, Hd. rewrite Ed in Hd. injection Hd as Hd. rewrite <-Hd, Hsh, El in Hl. done. }
  apply wp_bind, wp_lift. unfold unchecked_sub. rewrite (proj2 (N.leb_le _ _) Hfl).
  apply wp_bind, wp_lift. destruct (N.eqb_spec (last - first) len) as [<-|Hne]; cbn [negb reject].
  - apply wp_ret. eexists. split; [|reflexivity]. by split.
  - intros e [_ Hsh [= -> ->] Hd _ _ Hl]. cbn in Hsh, Hd. rewrite Ed in Hd. injection Hd as Hd. rewrite <-Hd, Hsh, El in Hl.
    congruence.
Qed.

(** A loop that collects one value for each element. *)
Lemma wp_for_each_collect {A B} (R : A -> B -> Prop) (body : A -> list B -> M (list B)) l :
  (forall a acc, wp (body a acc) (fun res =>
     match res with
     | Ok acc' => exists b, R a b /\ acc' = acc ++ [b]
     | Err _ => forall b, ~ R a b
     | Panic => False
     end)) ->
  forall acc, wp (for_each l body acc) (fun res =>
    match res with
    | Ok acc' => exists bs, Forall2 R l bs /\ acc' = acc ++ bs
    | Err _ => forall bs, ~ Forall2 R l bs
    | Panic => False
    end).
Proof using Type.
  intros Hbody. induction l as [|a l IH]; intros acc; cbn [for_each].
  { apply wp_ret. exists []. by rewrite app_nil_r. }
  apply wp_bind. eapply wp_mono; [apply Hbody|]. intros [acc'|e|]; [| |done].
  - intros (b & Hb & ->). eapply wp_mono; [apply IH|]. intros [acc'|e|]; [| |done].
    + intros (bs & Hbs & ->). exists (b :: bs). rewrite <-app_assoc. by split; [constructor|].
    + intros Hno bs Hf. inversion Hf; subst. by eapply Hno.
  - intros Hno bs Hf. inversion Hf; subst. by eapply Hno.
Qed.

Lemma advance_cursor_spec entries : forall cursor,
  wp (for_each entries advance_cursor cursor) (fun res =>
    match res with
    | Ok last => tiles cursor (map entry_range entries) last
    | Err _ => forall last, ~ tiles cursor (map entry_range entries) last
    | Panic => False
    end).
Proof using Type.
  induction entries as [|e entries IH]; intros cursor; cbn [for_each map tiles]; [by apply wp_ret|].
  unfold advance_cursor at 1. apply wp_bind, wp_bind, wp_check, wp_bind, wp_lift.
  destruct (N.eqb_spec (entry_start e) cursor) as [Hc|Hc]; cbn [negb reject].
  - apply wp_ret. eapply wp_mono; [apply IH|]. unfold entry_range at 1 3. intros [last|er|]; naive_solver.
  - unfold entry_range at 1. naive_solver.
Qed.

Lemma entry_made_unique l bs : forall bs', Forall2 entry_made l bs -> Forall2 entry_made l bs' -> bs = bs'.
Proof using Type.
  revert bs. induction l as [|t l IH]; intros bs bs' H H'; inversion H as [|? [n sh d a b] ? ? H1 H2]; subst;
    inversion H' as [|? [n' sh' d' a' b'] ? ? H1' H2']; subst; [done|].
  destruct H1 as [Hn Hsh Ho Hd _ _ _], H1' as [Hn' Hsh' Ho' Hd' _ _ _]. cbn in *. f_equal; [|by eapply IH].
  rewrite Ho in Ho'. injection Ho' as -> ->. congruence.
Qed.

(** ** Records *)

Context (file : FileId) (data_base : N).

Definition record_of (e : Entry) : TensorRecord :=
  {| record_name := entry_name e; record_shape := entry_shape e;
     record_storage := header_storage (entry_dtype e) (entry_shape e)
       {| span_file := file; span_offset := data_base + entry_start e;
          span_length := entry_end e - entry_start e |} |}.

Lemma push_records_spec entries : data_base + data_length <= u64_MAX ->
  Forall (fun e => exists t, entry_made t e) entries -> forall records,
  succeeds (for_each entries (push_record file data_base) records)
    (fun records' => records' = records ++ map record_of entries).
Proof using Type.
  intros Hfit. induction 1 as [|e entries [t [_ _ _ Hd _ Hr Hl]] _ IH]; intros records; cbn [for_each map].
  { apply succeeds_ret. by rewrite app_nil_r. }
  assert (push_record file data_base e records =
    (_ ← check; mret (records ++ [record_of e]))) as ->.
  { unfold push_record. rewrite checked_add_ok by lia. cbn [ok_or].
    unfold unchecked_sub. rewrite (proj2 (N.leb_le _ _)) by lia.
    assert (SourceSpan_new file (data_base + entry_start e) (entry_end e - entry_start e) =
      Ok {| span_file := file; span_offset := data_base + entry_start e;
            span_length := entry_end e - entry_start e |}) as Hs by (apply SourceSpan_new_Ok; split; [done|lia]).
    unfold mbind, M_bind, lift. rewrite Hs, (into_storage_Ok _ _ _ _ Hd) by exact Hl. done. }
  apply succeeds_bind, succeeds_check_bind, succeeds_ret.
  eapply succeeds_mono; [apply IH|]. intros ? ->. by rewrite <-app_assoc.
Qed.

(** The entries tile the data section, in some order. *)
Definition data_tiled (entries : list Entry) : Prop :=
  exists l, Permutation l (map entry_range entries) /\ tiles 0 l data_length.

(** Sorting finds that order. *)
Lemma sorted_tiles entries :
  Forall (fun e => entry_start e <= entry_end e) entries ->
  tiles 0 (map entry_range (merge_sort entry_le entries)) data_length <-> data_tiled entries.
Proof using Type.
  intros Hw. assert (Transitive entry_le) as Htrans.
  { intros x y z. unfold entry_le. intros [?|(? & [?|(? & ?)])] [?|(? & [?|(? & ?)])]; try lia.
    right. split; [lia|]. right. split; [lia|]. by trans (entry_name y). }
  assert (Total entry_le) as Htotal.
  { intros x y. unfold entry_le.
    destruct (N.lt_trichotomy (entry_start x) (entry_start y)) as [?|[?|?]],
      (N.lt_trichotomy (entry_end x) (entry_end y)) as [?|[?|?]],
      (total String.le (entry_name x) (entry_name y)); naive_solver. }
  split.
  - intros Ht. exists (map entry_range (merge_sort entry_le entries)). split; [|done].
    by rewrite (merge_sort_Permutation entry_le entries).
  - intros (l & Hp & Ht).
    assert (Forall (fun x => fst x <= snd x) l) as Hl.
    { rewrite Hp. apply Forall_map. eapply Forall_impl; [exact Hw|done]. }
    destruct (tiles_sorted l 0 data_length Hl Ht) as [Hs _].
    assert (l = map entry_range (merge_sort entry_le entries)) as <-; [|done].
    apply (StronglySorted_unique span_le); [done| |by rewrite Hp, (merge_sort_Permutation entry_le entries)].
    pose proof (StronglySorted_merge_sort entry_le entries) as Hms.
    induction Hms as [|e l' _ IH He]; [constructor|]. cbn [map]. constructor; [exact IH|].
    apply Forall_map. eapply Forall_impl; [exact He|]. intros e'. unfold entry_le, span_le. cbn. lia.
Qed.

(** What [validate_tensor_entries] returns. *)
Definition entries_result (raw : gmap string HeaderTensor) (res : result (list TensorRecord)) : Prop :=
  match res with
  | Ok records => exists entries, Forall2 entry_made (string_list raw) entries /\ data_tiled entries /\
      records = map record_of (merge_sort entry_le entries)
  | Err _ => forall entries, Forall2 entry_made (string_list raw) entries -> ~ data_tiled entries
  | Panic => False
  end.

Lemma validate_tensor_entries_spec raw :
  data_base + data_length <= u64_MAX ->
  wp (validate_tensor_entries file data_base data_length raw limits) (entries_result raw).
Proof using Type.
  intros Hfit. unfold validate_tensor_entries. apply wp_bind.
  eapply wp_mono; [apply (wp_for_each_collect entry_made); intros; apply check_entry_spec|].
  intros [es|e|]; [| |done].
  2: { intros Hno entries Hf. by apply Hno in Hf. }
  intros (entries & Hmade & ->). cbn [app].
  assert (forall e, e ∈ entries -> exists t, entry_made t e) as Hall.
  { intros e [i Hi]%list_elem_of_lookup. destruct (Forall2_lookup_r _ _ _ _ _ Hmade Hi) as (t & _ & Ht). by exists t. }
  assert (Forall (fun e => entry_start e <= entry_end e) entries) as Hw.
  { apply Forall_forall. intros e [t Ht]%Hall. apply Ht. }
  apply wp_bind. eapply wp_mono; [apply advance_cursor_spec|]. intros [last|e|]; [| |done].
  2: { intros Hno es Hes Ht. rewrite (entry_made_unique _ _ _ Hes Hmade) in Ht.
       apply sorted_tiles in Ht; [|done]. by apply Hno in Ht. }
  intros Ht. apply wp_bind, wp_lift. destruct (N.eqb_spec last data_length) as [->|Hne]; cbn [negb reject].
  - apply wp_bind. eapply wp_mono.
    { apply push_records_spec; [done|]. apply Forall_forall. intros e He.
      rewrite (merge_sort_Permutation entry_le entries) in He. by apply Hall. }
    intros ? (? & -> & ->). apply wp_bind, wp_check, wp_ret. cbn [app]. exists entries.
    split; [done|]. split; [|done]. by apply sorted_tiles.
  - intros es Hes Ht'. rewrite (entry_made_unique _ _ _ Hes Hmade) in Ht'.
    apply sorted_tiles in Ht'; [|done]. apply Hne. clear -Ht Ht'. revert Ht Ht'.
    generalize (map entry_range (merge_sort entry_le entries)). generalize 0. intros c l. revert c.
    induction l as [|[s e] l IH]; intros c; cbn [tiles]; [congruence|]. intros [_ H1] [_ H2]. by eapply IH.
Qed.

(** ** What the records describe *)

Lemma records_names raw entries :
  Forall2 entry_made raw entries ->
  Permutation (map record_name (map record_of (merge_sort entry_le entries))) (map fst raw).
Proof using Type.
  intros Hmade. rewrite (merge_sort_Permutation entry_le entries). rewrite map_map.
  induction Hmade as [|t e raw entries [Hn _ _ _ _ _ _] _ IH]; [done|]. cbn [map record_of record_name]. by rewrite Hn, IH.
Qed.

Lemma storage_span_header d shape span : storage_span (header_storage d shape span) = span.
Proof using Type. by destruct d. Qed.

Lemma record_of_range e :
  entry_start e <= entry_end e -> record_range (record_of e) = (data_base + entry_start e, data_base + entry_end e).
Proof using Type.
  intros He. unfold record_range, record_of. cbn [record_storage]. rewrite storage_span_header. cbn. f_equal. lia.
Qed.

Lemma records_described raw entries r :
  Forall2 entry_made raw entries -> r ∈ map record_of (merge_sort entry_le entries) ->
  exists h d, (record_name r, h) ∈ raw /\ parse_dtype (header_dtype h) = Ok d /\ record_shape r = header_shape h /\
    record_storage r = header_storage d (header_shape h) (storage_span (record_storage r)) /\
    record_range r = (data_base + fst (header_offsets h), data_base + snd (header_offsets h)) /\
    header_byte_len d (header_shape h) = Ok (span_length (storage_span (record_storage r))).
Proof using Type.
  intros Hmade (e & -> & He)%list_elem_of_fmap. rewrite (merge_sort_Permutation entry_le entries) in He.
  apply list_elem_of_lookup in He as [i Hi]. destruct (Forall2_lookup_r _ _ _ _ _ Hmade Hi) as ([name h] & Hraw & Hmk).
  pose proof Hmk as [Hn Hs Ho Hd _ Hr Hl]. cbn [fst snd] in *. exists h, (entry_dtype e).
  rewrite record_of_range by lia. unfold record_of. cbn [record_name record_shape record_storage].
  rewrite storage_span_header, Ho. cbn [fst snd span_length]. rewrite <-Hs. split_and!; try done.
  rewrite Hn. by eapply list_elem_of_lookup_2.
Qed.

(** Ranges that tile hold every position once. *)
Lemma tiles_cover l : forall cursor last position,
  Forall (fun x => fst x <= snd x) l -> tiles cursor l last -> cursor <= position < last ->
  exists i x, l !! i = Some x /\ fst x <= position < snd x /\
    forall i' x', l !! i' = Some x' -> fst x' <= position < snd x' -> i' = i.
Proof using Type.
  induction l as [|[a b] l IH]; intros cursor last p Hw; cbn [tiles]; [lia|].
  intros [-> Ht] Hp. apply Forall_cons in Hw as [Hab Hw]. cbn [fst snd] in Hab.
  destruct (tiles_sorted l b last Hw Ht) as [_ Hall]. rewrite Forall_forall in Hall.
  destruct (N.lt_ge_cases p b) as [Hlt|Hge].
  - exists 0%nat, (cursor, b). split; [done|]. split; [cbn; lia|]. intros [|i'] x' Hx'; [done|]. intros Hin.
    cbn in Hx'. apply list_elem_of_lookup_2, Hall in Hx'. lia.
  - destruct (IH b last p Hw Ht ltac:(lia)) as (i & x & Hx & Hin & Huniq). exists (S i), x. split; [done|].
    split; [done|]. intros [|i'] x' Hx' Hin'; [|f_equal; by eapply Huniq].
    injection Hx' as <-. cbn in Hin'. lia.
Qed.

Lemma records_cover raw entries last position :
  Forall2 entry_made raw entries -> data_tiled entries -> data_base <= last -> data_length = last - data_base ->
  data_base <= position < last ->
  exists i r, map record_of (merge_sort entry_le entries) !! i = Some r /\
    fst (record_range r) <= position < snd (record_range r) /\
    forall i' r', map record_of (merge_sort entry_le entries) !! i' = Some r' ->
      fst (record_range r') <= position < snd (record_range r') -> i' = i.
Proof using Type.
  intros Hmade Ht Hle Hlen Hp.
  assert (Forall (fun e => entry_start e <= entry_end e) entries) as Hw.
  { apply Forall_forall. intros e [i Hi]%list_elem_of_lookup.
    destruct (Forall2_lookup_r _ _ _ _ _ Hmade Hi) as (t & _ & [_ _ _ _ _ Hr _]). lia. }
  apply sorted_tiles in Ht; [|done]. rewrite <-(merge_sort_Permutation entry_le entries) in Hw.
  destruct (tiles_cover (map entry_range (merge_sort entry_le entries)) 0 data_length (position - data_base))
    as (i & x & Hx & Hin & Huniq); [by apply Forall_map|done|lia|].
  rewrite list_lookup_fmap in Hx. destruct (merge_sort entry_le entries !! i) as [e|] eqn:Ee; [|done]. injection Hx as <-.
  exists i, (record_of e). split; [by rewrite list_lookup_fmap, Ee|].
  pose proof (Forall_lookup_1 _ _ _ _ Hw Ee) as Hwe. cbv beta in Hwe.
  rewrite record_of_range by done. cbn [entry_range fst snd] in *. split; [lia|].
  intros i' r' Hr' Hin'. rewrite list_lookup_fmap in Hr'.
  destruct (merge_sort entry_le entries !! i') as [e'|] eqn:Ee'; [|done]. injection Hr' as <-.
  pose proof (Forall_lookup_1 _ _ _ _ Hw Ee') as Hwe'. cbv beta in Hwe'.
  rewrite record_of_range in Hin' by done. cbn [fst snd] in Hin'.
  apply (Huniq i' (entry_range e')); [by rewrite list_lookup_fmap, Ee'|]. cbn. lia.
Qed.
End Entries.
