(* ===== verification/Recipe.v ===== *)
(** * Recipes and source tensors of [plan.rs]

    Conversion recipes, whose steps refer to declared inputs and to earlier
    steps, and the sources of plans and overlays. *)

From S2P Require Import Prelude Errors Tensor Identity Order Representation Quantization Inventory.
Local Open Scope N_scope.

#[export] Instance TensorName_keyed : Keyed TensorName.
Proof.
  refine {| key n := [string_key (tensor_name n)] |}. intros [x] [y] [= H].
  by apply (inj string_key) in H as ->.
Defined.

(** ** Recipes *)

(** The fields of an object are in the order of their names. *)
Inductive RecipeValue :=
  | RecipeBool (value : bool)
  | RecipeI64 (value : Z)
  | RecipeU64 (value : N)
  | RecipeText (value : string)
  | RecipeBytes (value : bytes)
  | RecipeSequence (elements : list RecipeValue)
  | RecipeObject (fields : list (StableName * RecipeValue)).

Inductive RecipeInput :=
  | External (name : TensorName)
  | Step (name : StableName).

Record RecipeStep := {
  step_output : StableName;
  step_operation : ImplementationId;
  step_inputs : list RecipeInput;
  step_parameters : list (StableName * RecipeValue)
}.

Record ConversionRecipe := {
  recipe_schema_version : N;
  recipe_implementation : ImplementationId;
  recipe_inputs : list TensorName;
  recipe_steps : list RecipeStep;
  recipe_outputs : gmap TensorName RecipeInput
}.

#[export] Instance RecipeValue_eq_dec : EqDecision RecipeValue.
Proof.
  refine (fix go (x y : RecipeValue) : Decision (x = y) :=
    match x, y with
    | RecipeBool a, RecipeBool b => cast_if (decide (a = b))
    | RecipeI64 a, RecipeI64 b => cast_if (decide (a = b))
    | RecipeU64 a, RecipeU64 b => cast_if (decide (a = b))
    | RecipeText a, RecipeText b => cast_if (decide (a = b))
    | RecipeBytes a, RecipeBytes b => cast_if (decide (a = b))
    | RecipeSequence a, RecipeSequence b => cast_if (@list_eq_dec _ go a b)
    | RecipeObject a, RecipeObject b => cast_if (@list_eq_dec _ (@prod_eq_dec _ _ _ go) a b)
    | _, _ => right _
    end); clear go; abstract congruence.
Defined.
#[export] Instance RecipeInput_eq_dec : EqDecision RecipeInput.
Proof. solve_decision. Defined.
#[export] Instance RecipeStep_eq_dec : EqDecision RecipeStep.
Proof. solve_decision. Defined.
#[export] Instance ConversionRecipe_eq_dec : EqDecision ConversionRecipe.
Proof. solve_decision. Defined.

(** Whether a value is declared or computed by now. *)
Definition input_available (declared : gset TensorName) (available : gset StableName)
    (input : RecipeInput) : bool :=
  match input with
  | External name => bool_decide (name ∈ declared)
  | Step name => bool_decide (name ∈ available)
  end.

(** One round of the loop over the steps. *)
Definition check_step (declared : gset TensorName) (available : gset StableName) (step : RecipeStep)
  : result (gset StableName) :=
  _ ← reject (bool_decide (step_output step ∈ available)) Binding;
  _ ← reject (negb (forallb (input_available declared available) (step_inputs step))) Binding;
  mret ({[step_output step]} ∪ available).

Definition ConversionRecipe_new (schema_version : N) (implementation : ImplementationId)
    (inputs : list TensorName) (steps : list RecipeStep) (outputs : gmap TensorName RecipeInput)
  : result ConversionRecipe :=
  _ ← reject (schema_version =? 0) Binding;
  let declared : gset TensorName := list_to_set inputs in
  _ ← reject (negb (size declared =? length inputs)%nat) Binding;
  _ ← reject (bool_decide (outputs = ∅)) Binding;
  available ← try_fold (check_step declared) ∅ steps;
  _ ← reject (negb (forallb (fun output => input_available declared available (snd output)) (map_to_list outputs)))
        Binding;
  mret {| recipe_schema_version := schema_version; recipe_implementation := implementation;
          recipe_inputs := inputs; recipe_steps := steps; recipe_outputs := outputs |}.

(** The wire value has the same fields. *)
Definition ConversionRecipe_try_from (wire : ConversionRecipe) : result ConversionRecipe :=
  ConversionRecipe_new (recipe_schema_version wire) (recipe_implementation wire) (recipe_inputs wire)
    (recipe_steps wire) (recipe_outputs wire).

(** ** Source tensors *)

Record SourceTensor := {
  source_name : TensorName;
  source_shape : list N;
  source_storage : Storage
}.

#[export] Instance SourceTensor_eq_dec : EqDecision SourceTensor.
Proof. solve_decision. Defined.

Definition SourceTensor_new (name : TensorName) (shape : list N) (storage : Storage)
  : result SourceTensor :=
  _ ← match storage with
      | Plain dtype span =>
          length ← byte_len dtype shape;
          reject (negb (length =? span_length span)) InvalidFormat
      | Quantized quantized =>
          reject (negb (bool_decide (logical_shape quantized = shape))) InvalidFormat
      end;
  mret {| source_name := name; source_shape := shape; source_storage := storage |}.

(** The wire value has the same fields; its storage is read by its own reader. *)
Definition SourceTensor_try_from (wire : SourceTensor) : result SourceTensor :=
  SourceTensor_new (source_name wire) (source_shape wire) (source_storage wire).

(** The source of an inventory record. *)
Definition SourceTensor_from_record (record : TensorRecord) : result SourceTensor :=
  name ← TensorName_parse (record_name record);
  SourceTensor_new name (record_shape record) (record_storage record).

(** * Recipes and source tensors read back *)

(** Values that their readers return as they are. *)
Definition source_valid (s : SourceTensor) : Prop := SourceTensor_try_from s = Ok s.
Definition recipe_valid (r : ConversionRecipe) : Prop := ConversionRecipe_try_from r = Ok r.

Lemma SourceTensor_new_valid name shape storage s : SourceTensor_new name shape storage = Ok s -> source_valid s.
Proof.
  unfold source_valid, SourceTensor_try_from. intros H.
  assert (source_name s = name /\ source_shape s = shape /\ source_storage s = storage) as (-> & -> & ->); [|done].
  unfold SourceTensor_new in H. by apply bind_Ok in H as (u & _ & [= <-]).
Qed.

Lemma SourceTensor_try_from_Ok w s : SourceTensor_try_from w = Ok s -> s = w /\ source_valid s.
Proof.
  intros H. split; [|by eapply SourceTensor_new_valid]. unfold SourceTensor_try_from, SourceTensor_new in H.
  apply bind_Ok in H as (u & _ & [= <-]). by destruct w.
Qed.

Lemma ConversionRecipe_try_from_Ok w r : ConversionRecipe_try_from w = Ok r -> r = w /\ recipe_valid r.
Proof.
  intros H. assert (r = w) as ->; [|done]. unfold ConversionRecipe_try_from, ConversionRecipe_new in H.
  repeat (apply bind_Ok in H as (? & _ & H)). injection H as <-. by destruct w.
Qed.
