(* ===== verification/Plan.v ===== *)
(** * Targets of [plan.rs]

    The targets of a consumer contract, their builder and wire form, and the
    identities that a plan depends on. *)

From S2P Require Import Prelude Errors Tensor Identity Order Quantization Representation Strides Facts Operation Graph Recipe.
Local Open Scope N_scope.

Definition PLAN_SCHEMA_VERSION : N := 2.

Inductive Requirement := Required | Optional.

#[export] Instance Requirement_eq_dec : EqDecision Requirement.
Proof. solve_decision. Defined.

Record TargetTensor := {
  target_name : TensorName;
  target_aliases : list TensorName;
  requirement : Requirement;
  target_source_shape : list N;
  target_shape : list N;
  target_storage_shape : list N;
  target_logical_strides : list N;
  target_storage_strides : list N;
  target_representation : Representation;
  transforms : list PlannedTransform;
  operation_graph : option OperationGraph;
  quantized_route : option RouteCapability;
  conversion_recipe : option ConversionRecipe;
  target_output_size : N;
  shared_source_group : option StableName
}.

#[export] Instance TargetTensor_eq_dec : EqDecision TargetTensor.
Proof. solve_decision. Defined.

(** The builder, with what was not given yet as [None]. *)
Record TargetTensorBuilder := {
  given_name : TensorName;
  given_aliases : list TensorName;
  given_requirement : Requirement;
  given_source_shape : list N;
  given_shape : list N;
  given_storage_shape : option (list N);
  given_logical_strides : option (list N);
  given_storage_strides : option (list N);
  given_representation : Representation;
  given_transforms : list PlannedTransform;
  given_graph : option OperationGraph;
  given_route : option RouteCapability;
  given_recipe : option ConversionRecipe;
  given_output_size : N;
  given_group : option StableName
}.

Definition target_builder (name : TensorName) (requirement : Requirement) (shape : list N)
    (representation : Representation) (output_size : N) : TargetTensorBuilder :=
  {| given_name := name; given_aliases := []; given_requirement := requirement; given_source_shape := shape;
     given_shape := shape; given_storage_shape := None; given_logical_strides := None;
     given_storage_strides := None; given_representation := representation; given_transforms := [];
     given_graph := None; given_route := None; given_recipe := None; given_output_size := output_size;
     given_group := None |}.

(** The setters of the builder. *)
Inductive TargetSetting :=
  | ExtendAliases (aliases : list TensorName)
  | SetSourceShape (shape : list N)
  | SetStorageShape (shape : list N)
  | SetLogicalStrides (strides : list N)
  | SetStorageStrides (strides : list N)
  | ExtendTransforms (transforms : list PlannedTransform)
  | SetGraph (graph : OperationGraph)
  | SetRoute (capability : RouteCapability)
  | SetRecipe (recipe : ConversionRecipe)
  | SetGroup (group : StableName).

Definition apply_target_setting (b : TargetTensorBuilder) (s : TargetSetting) : TargetTensorBuilder :=
  let 'Build_TargetTensorBuilder n a r so sh ss ls st rep ts g q c o gr := b in
  match s with
  | ExtendAliases l => Build_TargetTensorBuilder n (a ++ l) r so sh ss ls st rep ts g q c o gr
  | SetSourceShape v => Build_TargetTensorBuilder n a r v sh ss ls st rep ts g q c o gr
  | SetStorageShape v => Build_TargetTensorBuilder n a r so sh (Some v) ls st rep ts g q c o gr
  | SetLogicalStrides v => Build_TargetTensorBuilder n a r so sh ss (Some v) st rep ts g q c o gr
  | SetStorageStrides v => Build_TargetTensorBuilder n a r so sh ss ls (Some v) rep ts g q c o gr
  | ExtendTransforms l => Build_TargetTensorBuilder n a r so sh ss ls st rep (ts ++ l) g q c o gr
  | SetGraph v => Build_TargetTensorBuilder n a r so sh ss ls st rep ts (Some v) q c o gr
  | SetRoute v => Build_TargetTensorBuilder n a r so sh ss ls st rep ts g (Some v) c o gr
  | SetRecipe v => Build_TargetTensorBuilder n a r so sh ss ls st rep ts g q (Some v) o gr
  | SetGroup v => Build_TargetTensorBuilder n a r so sh ss ls st rep ts g q c o (Some v)
  end.

(** ** Validation *)

Definition checked_elements (shape : list N) : result N := try_fold mul_dimension 1 shape.

(** The same loop as that of [operation.rs], without its check of the rank. *)
Definition checked_contiguous_strides (shape : list N) : result (list N) :=
  '(strides, _) ← contiguous_strides_loop shape; mret strides.

Definition is_some {A} (o : option A) : bool := match o with Some _ => true | None => false end.
Definition is_empty {A} (l : list A) : bool := match l with [] => true | _ :: _ => false end.

(** One round of the loop over the steps. *)
Definition check_transform_step (shape : list N) (elements : N) (_ : unit) (planned : PlannedTransform)
  : result unit :=
  _ ← reject ((0 <? elements) && (output_size planned =? 0)) Binding;
  if is_contiguous (layout (target (transform planned))) then
    len ← byte_len (dtype (target (transform planned))) shape;
    reject (negb (len =? output_size planned)) Binding
  else mret tt.

Definition validate_transform_chain (transforms : list PlannedTransform) (target_representation : Representation)
    (shape : list N) (final_output_size : N) : result unit :=
  _ ← reject (windows_any (fun x y => negb (bool_decide (target (transform x) = source (transform y)))) transforms)
        Binding;
  _ ← reject (match last transforms with
              | Some planned => negb (bool_decide (target (transform planned) = target_representation)) ||
                                negb (output_size planned =? final_output_size)
              | None => false
              end) Binding;
  elements ← checked_elements shape;
  try_fold (check_transform_step shape elements) tt transforms.

(** [TargetTensorBuilder::build]. The aliases are sorted when they are searched
    for the name, so the binary search finds it when it is among them. *)
Definition TargetTensor_build (b : TargetTensorBuilder) : result TargetTensor :=
  let storage_shape := default (given_shape b) (given_storage_shape b) in
  logical_strides ← match given_logical_strides b with
                    | Some strides => mret strides
                    | None => checked_contiguous_strides (given_shape b)
                    end;
  storage_strides ← match given_storage_strides b with
                    | Some strides => mret strides
                    | None => checked_contiguous_strides (given_shape b)
                    end;
  let aliases := sort_unstable (given_aliases b) in
  _ ← reject (windows_any (fun x y => bool_decide (x = y)) aliases) Binding;
  _ ← reject (bool_decide (given_name b ∈ aliases)) Binding;
  _ ← reject (is_some (given_recipe b) && negb (is_empty (given_transforms b))) Binding;
  _ ← reject (is_some (given_graph b) &&
              (negb (is_empty (given_transforms b)) || is_some (given_recipe b) || is_some (given_route b))) Binding;
  _ ← reject (is_some (given_graph b) && negb (is_empty aliases)) Binding;
  _ ← validate_transform_chain (given_transforms b) (given_representation b) (given_shape b) (given_output_size b);
  _ ← reject (negb (bool_decide (given_source_shape b = given_shape b)) && negb (is_some (given_recipe b)) &&
              negb (is_some (given_graph b)) && negb (is_some (given_route b))) Binding;
  _ ← reject (negb (length logical_strides =? length (given_shape b))%nat) Binding;
  _ ← reject (negb (length storage_strides =? length (given_shape b))%nat) Binding;
  elements ← checked_elements (given_shape b);
  _ ← reject ((0 <? elements) && (given_output_size b =? 0)) Binding;
  _ ← match given_recipe b with
      | Some recipe =>
          _ ← reject (is_some (given_route b)) Binding;
          _ ← reject (negb (length (recipe_inputs recipe) =? 1)%nat) Binding;
          reject (negb (bool_decide (is_Some (recipe_outputs recipe !! given_name b)))) Binding
      | None => mret tt
      end;
  _ ← match given_graph b with
      | Some graph =>
          facts ← TensorFacts_new (given_shape b) storage_shape logical_strides storage_strides
                    (given_representation b) (given_output_size b);
          graph_facts ← output_facts graph;
          reject (negb (bool_decide (graph_facts = facts))) Binding
      | None => mret tt
      end;
  mret {| target_name := given_name b; target_aliases := aliases; requirement := given_requirement b;
          target_source_shape := given_source_shape b; target_shape := given_shape b;
          target_storage_shape := storage_shape; target_logical_strides := logical_strides;
          target_storage_strides := storage_strides; target_representation := given_representation b;
          transforms := given_transforms b; operation_graph := given_graph b; quantized_route := given_route b;
          conversion_recipe := given_recipe b; target_output_size := given_output_size b;
          shared_source_group := given_group b |}.

Definition optional_setting {A} (set : A -> TargetSetting) (value : option A) : list TargetSetting :=
  match value with Some a => [set a] | None => [] end.

(** The wire value has the same fields. *)
Definition TargetTensor_try_from (wire : TargetTensor) : result TargetTensor :=
  TargetTensor_build (foldl apply_target_setting
    (target_builder (target_name wire) (requirement wire) (target_shape wire) (target_representation wire)
       (target_output_size wire))
    ([ExtendAliases (target_aliases wire); SetSourceShape (target_source_shape wire);
      SetStorageShape (target_storage_shape wire); SetLogicalStrides (target_logical_strides wire);
      SetStorageStrides (target_storage_strides wire); ExtendTransforms (transforms wire)] ++
     optional_setting SetGraph (operation_graph wire) ++ optional_setting SetRoute (quantized_route wire) ++
     optional_setting SetRecipe (conversion_recipe wire) ++ optional_setting SetGroup (shared_source_group wire))).
