(* ===== verification/Planner.v ===== *)
(** * The planner of [plan.rs]

    Matching of sources to targets, the diagnostics of a contract, and the
    canonical plan with its identity. The JSON writer ([serde_json]), SHA-256
    and the answers of the allocator are parameters. *)

From S2P Require Import Prelude Errors Tensor Identity Order Quantization Representation Strides Facts.
From S2P Require Import Operation Graph Recipe Plan.
From stdpp Require Import pretty.
From Stdlib Require Strings.String.
Local Open Scope N_scope.

(** ** Identities *)

Record ManifestId := { manifest_digest : ContentDigest }.
Record SelectionId := { selection_digest : ContentDigest }.
Record ContractId := { contract_digest : ContentDigest }.
Record PlanId := { plan_id_digest : ContentDigest }.

#[export] Instance PlanId_eq_dec : EqDecision PlanId.
Proof. solve_decision. Defined.

Record PlanInputs := {
  manifest : ManifestId;
  selection : SelectionId;
  contract : ContractId;
  plan_backend : BackendId;
  source_digests : list ContentDigest
}.

Inductive ExtraSourcePolicy := RejectExtra | AllowExtra.

(** ** Diagnostics *)

Inductive DiagnosticSeverity := Info | Warning | Error.

#[export] Instance DiagnosticSeverity_eq_dec : EqDecision DiagnosticSeverity.
Proof. solve_decision. Defined.

Inductive DiagnosticCode :=
  | DuplicateSource | DuplicateTarget | MissingRequired | MissingOptional | AmbiguousBinding | ShapeMismatch
  | MissingSourceDigest | ConflictingSourceReuse | UnsupportedTransform | UnsupportedQuantizedRoute | ExtraSource.

#[export] Instance DiagnosticCode_eq_dec : EqDecision DiagnosticCode.
Proof. solve_decision. Defined.

(** A message is a text, or the text of an error, which stands here for its
    category: a target has at most one diagnostic with the text of an error, so
    neither the order of diagnostics nor their repetitions depend on that text. *)
Inductive DiagnosticMessage :=
  | Message (text : string)
  | ErrorMessage (category : ErrorCategory).

#[export] Instance DiagnosticMessage_eq_dec : EqDecision DiagnosticMessage.
Proof. solve_decision. Defined.

Record PlanDiagnostic := {
  severity : DiagnosticSeverity;
  code : DiagnosticCode;
  subject : TensorName;
  related : list TensorName;
  message : DiagnosticMessage
}.

#[export] Instance PlanDiagnostic_eq_dec : EqDecision PlanDiagnostic.
Proof. solve_decision. Defined.

(** *** The derived order *)

Definition severity_index (s : DiagnosticSeverity) : N :=
  match s with Info => 0 | Warning => 1 | Error => 2 end.

Definition code_index (c : DiagnosticCode) : N :=
  match c with
  | DuplicateSource => 0 | DuplicateTarget => 1 | MissingRequired => 2 | MissingOptional => 3
  | AmbiguousBinding => 4 | ShapeMismatch => 5 | MissingSourceDigest => 6 | ConflictingSourceReuse => 7
  | UnsupportedTransform => 8 | UnsupportedQuantizedRoute => 9 | ExtraSource => 10
  end.

Definition category_index (c : ErrorCategory) : N :=
  match c with
  | Io => 0 | InvalidPath => 1 | InvalidFormat => 2 | Integrity => 3 | ResourceLimit => 4 | Binding => 5
  | Unsupported => 6 | Cache => 7 | Cancelled => 8 | Delivery => 9
  end.

(** A text is before the text of an error. *)
Definition message_key (m : DiagnosticMessage) : list (list N) :=
  match m with
  | Message text => [[0]; string_key text]
  | ErrorMessage category => [[1]; [category_index category]]
  end.

(** A list is before its extensions: every element is marked by a one, the end
    by a zero. *)
Definition names_key (l : list TensorName) : list (list N) :=
  map (fun n => 1 :: string_key (tensor_name n)) l ++ [[0]].

Definition diagnostic_key (d : PlanDiagnostic) : list (list N) :=
  [severity_index (severity d)] :: [code_index (code d)] :: string_key (tensor_name (subject d)) ::
  names_key (related d) ++ message_key (message d).

Lemma names_key_inj l k m m' : names_key l ++ m = names_key k ++ m' -> l = k /\ m = m'.
Proof.
  revert k. induction l as [|[x] l IH]; intros [|[y] k]; try done; cbn [names_key map app].
  - by intros [= ->].
  - intros [= Hxy%string_key_inj H]. apply IH in H as [-> ->]. by subst.
Qed.

#[export] Instance PlanDiagnostic_keyed : Keyed PlanDiagnostic.
Proof.
  refine {| key := diagnostic_key |}. intros [s c [n] r m] [s' c' [n'] r' m'] H. unfold diagnostic_key in H. cbn in H.
  injection H as Hs Hc Hn%string_key_inj Hr%names_key_inj. destruct Hr as [-> Hm].
  assert (s = s') as -> by (by destruct s, s'). assert (c = c') as -> by (by destruct c, c'). subst. f_equal.
  destruct m as [t|e], m' as [t'|e']; cbn in Hm; try done.
  - injection Hm as Hm%string_key_inj. by subst.
  - injection Hm as Hm. f_equal. by destruct e, e'.
Defined.

(** [PlanDiagnostic::new]. *)
Definition PlanDiagnostic_new (s : DiagnosticSeverity) (c : DiagnosticCode) (n : TensorName)
    (related : list TensorName) (m : DiagnosticMessage) : PlanDiagnostic :=
  {| severity := s; code := c; subject := n; related := canonical related; message := m |}.

(** A list of numbers in the format of [{:?}]. *)
Definition debug_shape (shape : list N) : string := "[" ++ String.concat ", " (map pretty shape) ++ "]".

(** ** Binding checks *)

(** Whether a file has no digest. *)
Definition undigested (digest_count : nat) (ordinal : N) : bool :=
  match usize_try_from ordinal with Ok i => N.of_nat digest_count <=? i | _ => true end.

Definition first_missing_digest_ordinal (s : Quantization.Storage) (digest_count : nat) : option N :=
  let primary := ordinal (span_file (storage_span s)) in
  if undigested digest_count primary then Some primary else
  match s with
  | Plain _ _ => None
  | Quantized q =>
      List.find (undigested digest_count)
        (map (fun c => ordinal (span_file (companion_span (snd c)))) (btree_list (companions q)))
  end.

Definition layout_matches (l : Layout) (r : option LayoutRequirement) : bool :=
  match from_layout l, r with
  | None, None => true
  | Some _, Some r => matches_layout r l
  | _, _ => false
  end.

Definition validate_contiguous_output (t : TargetTensor) : result unit :=
  if is_contiguous (layout (target_representation t)) then
    expected_strides ← checked_contiguous_strides (target_shape t);
    _ ← reject (negb (bool_decide (target_storage_shape t = target_shape t)) ||
                negb (bool_decide (target_logical_strides t = expected_strides)) ||
                negb (bool_decide (target_storage_strides t = expected_strides))) Binding;
    expected ← byte_len (dtype (target_representation t)) (target_shape t);
    reject (negb (expected =? target_output_size t)) Binding
  else mret tt.

Definition validate_conversion_binding (s : SourceTensor) (t : TargetTensor) : result unit :=
  match conversion_recipe t with
  | None => mret tt
  | Some recipe =>
      _ ← reject (negb (is_empty (transforms t))) Binding;
      _ ← reject (negb (length (recipe_inputs recipe) =? 1)%nat ||
                  negb (bool_decide (head (recipe_inputs recipe) = Some (source_name s)))) Binding;
      reject (negb (bool_decide (is_Some (recipe_outputs recipe !! target_name t)))) Binding
  end.

(** The arm of [validate_binding] for plain storage. *)
Definition validate_plain_binding (t : TargetTensor) (dtype : DType) (span : SourceSpan) : result unit :=
  _ ← reject (is_some (quantized_route t)) Unsupported;
  if is_some (conversion_recipe t) then validate_contiguous_output t else
  let source_representation := Representation_contiguous dtype in
  _ ← match transforms t with
      | first :: _ => reject (negb (bool_decide (source (transform first) = source_representation))) Unsupported
      | [] => reject (negb (bool_decide (target_representation t = source_representation))) Unsupported
      end;
  _ ← reject (is_empty (transforms t) && negb (target_output_size t =? span_length span)) Binding;
  validate_contiguous_output t.

(** The arm for quantized storage. *)
Definition validate_quantized_binding (inputs : PlanInputs) (t : TargetTensor) (q : QuantizedStorage) : result unit :=
  _ ← reject (negb (is_empty (transforms t))) Unsupported;
  capability ← ok_or (quantized_route t) Unsupported;
  _ ← reject (negb (bool_decide (source_encoding capability = encoding q))) Unsupported;
  _ ← reject (match backend capability with
              | Some b => negb (bool_decide (b = plan_backend inputs))
              | None => false
              end) Unsupported;
  _ ← reject (negb (layout_matches (layout (target_representation t)) (target_layout capability))) Unsupported;
  match route capability with
  | HostDequant d | DeviceDequantToScratch d =>
      _ ← reject (negb (bool_decide (d = dtype (target_representation t)))) Unsupported;
      validate_contiguous_output t
  | PackedDirect => reject (negb (target_output_size t =? span_length (payload q))) Binding
  | FusedInTile | Repack _ => mret tt
  end.

Definition validate_binding (inputs : PlanInputs) (s : SourceTensor) (t : TargetTensor) : result unit :=
  _ ← reject (negb (bool_decide (source_shape s = target_source_shape t))) Binding;
  _ ← reject (is_some (first_missing_digest_ordinal (source_storage s) (length (source_digests inputs)))) Binding;
  _ ← validate_conversion_binding s t;
  match source_storage s with
  | Plain dtype span => validate_plain_binding t dtype span
  | Quantized q => validate_quantized_binding inputs t q
  end.

(** One round of the loop of [validate_operation_binding]. *)
Definition validate_operation_input (inputs : PlanInputs) (pair : OperationInput * SourceTensor) : result unit :=
  let '(input, s) := pair in
  _ ← reject (negb (bool_decide (input_name input = source_name s))) Binding;
  _ ← reject (is_some (first_missing_digest_ordinal (source_storage s) (length (source_digests inputs)))) Binding;
  match source_storage s with
  | Quantized _ => Err Unsupported
  | Plain dtype span =>
      actual ← TensorFacts_contiguous (source_shape s) (Representation_contiguous dtype);
      reject (negb (bool_decide (input_facts input = actual)) ||
              negb (facts_byte_len (input_facts input) =? span_length span)) Binding
  end.

Definition validate_operation_binding (inputs : PlanInputs) (sources : list SourceTensor) (t : TargetTensor)
  : result unit :=
  graph ← ok_or (operation_graph t) Binding;
  _ ← reject (negb (length (graph_inputs graph) =? length sources)%nat) Binding;
  try_fold (fun _ => validate_operation_input inputs) tt (zip (graph_inputs graph) sources).

(** ** Resolution *)

#[export] Instance nat_keyed : Keyed nat.
Proof. refine {| key n := [[N.of_nat n]] |}. intros x y [= H]. lia. Defined.

Record Resolution := {
  matches : gmap nat (list nat);
  unused_sources : list nat;
  diagnostics : list PlanDiagnostic
}.

(** The indices of every name, in order. *)
Definition group_names (entries : list (nat * TensorName)) : gmap TensorName (list nat) :=
  foldl (fun grouped '(i, n) => <[n := default [] (grouped !! n) ++ [i]]> grouped) ∅ entries.

Definition duplicate_diagnostics (c : DiagnosticCode) (text : string) (grouped : gmap TensorName (list nat))
  : list PlanDiagnostic :=
  omap (fun '(n, indices) => if (1 <? length indices)%nat
                             then Some (PlanDiagnostic_new Error c n [] (Message text)) else None) (btree_list grouped).

(** A result whose error is looked at. *)
Definition capture {A} (r : result A) : result (option ErrorCategory) :=
  match r with Ok _ => Ok None | Err e => Ok (Some e) | Panic => Panic end.

Definition names_at (sources : list SourceTensor) (indices : list nat) : result (list TensorName) :=
  try_map (fun i => s ← index sources i; mret (source_name s)) indices.

Section Resolve.
(** [reserves t]: whether the allocator grants the vector of the indices of a
    target. *)
Context (reserves : TargetTensor -> bool).
Context (inputs : PlanInputs) (sources : list SourceTensor) (targets : list TargetTensor) (policy : ExtraSourcePolicy).

Definition State : Type := gmap nat (list nat) * list PlanDiagnostic.

Definition missing_diagnostic (t : TargetTensor) (names : list TensorName) (required optional : string) : PlanDiagnostic :=
  match requirement t with
  | Required => PlanDiagnostic_new Error MissingRequired (target_name t) names (Message required)
  | Optional => PlanDiagnostic_new Info MissingOptional (target_name t) names (Message optional)
  end.

Definition candidates (source_names : gmap TensorName (list nat)) (t : TargetTensor) : gset nat :=
  list_to_set (concat (map (fun n => default [] (source_names !! n)) (target_name t :: target_aliases t))).

(** The diagnostics of a target and the one source it matches. *)
Definition match_diagnostics (s : SourceTensor) (t : TargetTensor) : result (list PlanDiagnostic) :=
  failure ← capture (validate_binding inputs s t);
  mret (
    (if bool_decide (source_shape s = target_source_shape t) then [] else
       [PlanDiagnostic_new Error ShapeMismatch (target_name t) [source_name s]
          (Message ("source shape " ++ debug_shape (source_shape s) ++ " does not match expected shape " ++
                    debug_shape (target_source_shape t)))]) ++
    (if is_some (first_missing_digest_ordinal (source_storage s) (length (source_digests inputs))) then
       [PlanDiagnostic_new Error MissingSourceDigest (source_name s) [target_name t]
          (Message "source or quantized companion file ordinal has no ordered content digest")]
     else []) ++
    match failure with
    | Some e => [PlanDiagnostic_new Error
                   match source_storage s with Plain _ _ => UnsupportedTransform | Quantized _ => UnsupportedQuantizedRoute end
                   (target_name t) [source_name s] (ErrorMessage e)]
    | None => []
    end)%list.

Definition resolve_named_binding (source_names : gmap TensorName (list nat)) (st : State) (target_index : nat)
    (t : TargetTensor) : result State :=
  let '(matches, ds) := st in
  match sort_unstable (elements (candidates source_names t)) with
  | [] => mret (matches, ds ++ [missing_diagnostic t (target_aliases t)
                                  "no inventory tensor matched the required target or its aliases"
                                  "no inventory tensor matched the optional target or its aliases"])
  | [i] =>
      s ← index sources i;
      found ← match_diagnostics s t;
      mret (<[target_index := [i]]> matches, ds ++ found)
  | indices =>
      names ← names_at sources indices;
      mret (matches, ds ++ [PlanDiagnostic_new Error AmbiguousBinding (target_name t) names
                              (Message "more than one inventory tensor matched the target name or aliases")])
  end.

(** One round of the loop over the inputs of a graph. *)
Definition resolve_input (source_names : gmap TensorName (list nat))
    (acc : list nat * list TensorName * list TensorName) (input : OperationInput)
  : result (list nat * list TensorName * list TensorName) :=
  let '(indices, missing, ambiguous) := acc in
  match source_names !! input_name input with
  | None | Some [] => mret (indices, missing ++ [input_name input], ambiguous)
  | Some [i] => mret (indices ++ [i], missing, ambiguous)
  | Some many => names ← names_at sources many; mret (indices, missing, ambiguous ++ names)
  end.

Definition resolve_operation_graph_binding (source_names : gmap TensorName (list nat)) (st : State) (target_index : nat)
    (t : TargetTensor) : result State :=
  let '(matches, ds) := st in
  match operation_graph t with
  | None => mret (matches, ds ++ [PlanDiagnostic_new Error UnsupportedTransform (target_name t) []
                                    (Message "operation-graph resolver received a target without a graph")])
  | Some graph =>
      if negb ((8 * N.of_nat (length (graph_inputs graph)) <=? isize_MAX) && reserves t) then
        mret (matches, ds ++ [PlanDiagnostic_new Error UnsupportedTransform (target_name t) []
                                (Message "could not allocate ordered operation-graph source metadata")])
      else
      '(indices, missing, ambiguous) ← try_fold (resolve_input source_names) ([], [], []) (graph_inputs graph);
      if negb (is_empty ambiguous) then
        mret (matches, ds ++ [PlanDiagnostic_new Error AmbiguousBinding (target_name t) ambiguous
                                (Message "an operation-graph input matched more than one inventory tensor")])
      else if negb (is_empty missing) then
        mret (matches, ds ++ [missing_diagnostic t missing "one or more required operation-graph inputs are absent"
                                "one or more optional operation-graph inputs are absent"])
      else
      selected ← try_map (index sources) indices;
      failure ← capture (validate_operation_binding inputs selected t);
      mret (<[target_index := indices]> matches,
            ds ++ match failure with
                  | Some e => [PlanDiagnostic_new Error UnsupportedTransform (target_name t) (map source_name selected)
                                 (ErrorMessage e)]
                  | None => []
                  end)
  end.

(** One round of the loop over the targets. *)
Definition resolve_target (source_names target_names : gmap TensorName (list nat)) (st : State)
    (indexed : nat * TargetTensor) : result State :=
  let '(target_index, t) := indexed in
  if match target_names !! target_name t with Some indices => (1 <? length indices)%nat | None => false end
  then mret st
  else if is_some (operation_graph t) then resolve_operation_graph_binding source_names st target_index t
  else resolve_named_binding source_names st target_index t.

Definition indexed_le (x y : nat * TargetTensor) : Prop := ord_le (target_name (snd x)) (target_name (snd y)).
#[export] Instance indexed_le_dec : RelDecision indexed_le.
Proof using Type. intros x y. unfold indexed_le. apply _. Defined.

(** The targets that use each source. *)
Definition reused (matches : gmap nat (list nat)) : gmap nat (list nat) :=
  foldl (fun reused '(target_index, indices) =>
    foldl (fun reused i => <[i := default [] (reused !! i) ++ [target_index]]> reused) reused (canonical indices))
    ∅ (btree_list matches).

Definition reuse_diagnostics (used : nat * list nat) : result (list PlanDiagnostic) :=
  let '(i, target_indices) := used in
  if (length target_indices <? 2)%nat then mret [] else
  ts ← try_map (index targets) target_indices;
  first ← index ts 0;
  let group := shared_source_group first in
  if is_some group && forallb (fun t => bool_decide (shared_source_group t = group)) ts then mret [] else
  s ← index sources i;
  mret (map (fun t => PlanDiagnostic_new Error ConflictingSourceReuse (target_name t) (map target_name ts)
               (Message ("source " ++ tensor_name (source_name s) ++
                         " is shared without one explicit tied-weight group"))) ts).

Definition extra_diagnostic (i : nat) : result PlanDiagnostic :=
  s ← index sources i;
  mret (PlanDiagnostic_new match policy with RejectExtra => Error | AllowExtra => Warning end ExtraSource (source_name s) []
          (Message "inventory tensor was not selected by the target contract")).

(** [resolve_bindings]. *)
Definition resolve_bindings : result Resolution :=
  let source_names := group_names (enumerate (map source_name sources)) in
  let target_names := group_names (enumerate (map target_name targets)) in
  let duplicates :=
    (duplicate_diagnostics DuplicateSource "inventory contains more than one tensor with this name" source_names ++
     duplicate_diagnostics DuplicateTarget "contract contains more than one target with this name" target_names)%list in
  '(matches, ds) ← try_fold (resolve_target source_names target_names) (∅, duplicates)
                     (merge_sort indexed_le (enumerate targets));
  conflicts ← try_map reuse_diagnostics (btree_list (reused matches));
  let used : gset nat := list_to_set (concat (map snd (btree_list matches))) in
  let unused := filter (fun i => i ∉ used) (seq 0 (length sources)) in
  extras ← try_map extra_diagnostic unused;
  mret {| matches := matches; unused_sources := unused; diagnostics := canonical (ds ++ concat conflicts ++ extras) |}.
End Resolve.

(** ** Plans *)

Record Binding := {
  binding_sources : list SourceTensor;
  binding_target : TargetTensor
}.

#[export] Instance Binding_eq_dec : EqDecision Binding.
Proof. solve_decision. Defined.

Definition Binding_new (sources : list SourceTensor) (t : TargetTensor) : result Binding :=
  _ ← reject (is_empty sources) Errors.Binding;
  mret {| binding_sources := sources; binding_target := t |}.

(** The wire value has the same fields. *)
Definition Binding_try_from (wire : Binding) : result Binding :=
  Binding_new (binding_sources wire) (binding_target wire).

(** [Binding::source]: the first source; [expect] panics without one. *)
Definition binding_source (b : Binding) : result SourceTensor :=
  match binding_sources b with s :: _ => Ok s | [] => Panic end.

Record BindingPlan := {
  plan_schema : N;
  plan_id : PlanId;
  plan_inputs : PlanInputs;
  plan_sources : list SourceTensor;
  plan_targets : list TargetTensor;
  extra_source_policy : ExtraSourcePolicy;
  plan_bindings : list Binding;
  missing_optional : list TensorName;
  plan_unused : list TensorName
}.

(** The values written as canonical JSON. The wire value has the fields of the
    plan, in the same order. *)
Inductive PlanPayload :=
  | PlanIdentityPayload (schema_version : N) (inputs : PlanInputs) (sources : list SourceTensor)
      (targets : list TargetTensor) (policy : ExtraSourcePolicy) (bindings : list Binding)
      (missing_optional unused_sources : list TensorName)
  | BindingPlanPayload (plan : BindingPlan).

Record PlanBuilder := {
  builder_inputs : PlanInputs;
  builder_sources : list SourceTensor;
  builder_targets : list TargetTensor;
  builder_policy : ExtraSourcePolicy
}.

Definition plan_builder (inputs : PlanInputs) : PlanBuilder :=
  {| builder_inputs := inputs; builder_sources := []; builder_targets := []; builder_policy := RejectExtra |}.

(** The setters of the builder. *)
Inductive PlanSetting :=
  | ExtendSources (sources : list SourceTensor)
  | ExtendTargets (targets : list TargetTensor)
  | SetPolicy (policy : ExtraSourcePolicy).

Definition apply_plan_setting (b : PlanBuilder) (s : PlanSetting) : PlanBuilder :=
  let 'Build_PlanBuilder i ss ts p := b in
  match s with
  | ExtendSources l => Build_PlanBuilder i (ss ++ l) ts p
  | ExtendTargets l => Build_PlanBuilder i ss (ts ++ l) p
  | SetPolicy p => Build_PlanBuilder i ss ts p
  end.

Definition is_error (d : PlanDiagnostic) : bool := bool_decide (severity d = Error).

(** [PlanAnalysis::is_valid]. *)
Definition is_valid (ds : list PlanDiagnostic) : bool := negb (existsb is_error ds).

Definition source_le (x y : SourceTensor) : Prop := ord_le (source_name x) (source_name y).
Definition target_le (x y : TargetTensor) : Prop := ord_le (target_name x) (target_name y).
Definition binding_le (x y : Binding) : Prop := target_le (binding_target x) (binding_target y).
#[export] Instance source_le_dec : RelDecision source_le.
Proof. intros x y. unfold source_le. apply _. Defined.
#[export] Instance target_le_dec : RelDecision target_le.
Proof. intros x y. unfold target_le. apply _. Defined.
#[export] Instance binding_le_dec : RelDecision binding_le.
Proof. intros x y. unfold binding_le. apply _. Defined.

#[export] Instance source_le_trans : Transitive source_le.
Proof. intros x y z. apply (transitivity (R := ord_le)). Qed.
#[export] Instance source_le_total : Total source_le.
Proof. intros x y. apply (total ord_le). Qed.
#[export] Instance target_le_trans : Transitive target_le.
Proof. intros x y z. apply (transitivity (R := ord_le)). Qed.
#[export] Instance target_le_total : Total target_le.
Proof. intros x y. apply (total ord_le). Qed.
#[export] Instance binding_le_trans : Transitive binding_le.
Proof. intros x y z. apply (transitivity (R := target_le)). Qed.
#[export] Instance binding_le_total : Total binding_le.
Proof. intros x y. apply (total target_le). Qed.

(** [validate_sorted_unique]: every name is after the one before it. *)
Fixpoint validate_sorted_unique (previous : option TensorName) (l : list TensorName) : result unit :=
  match l with
  | [] => mret tt
  | n :: l =>
      _ ← reject (match previous with Some p => bool_decide (ord_le n p) | None => false end) InvalidFormat;
      validate_sorted_unique (Some n) l
  end.

Section Plans.
Context (reserves : TargetTensor -> bool) (sha256 : bytes -> bytes) (write_json : PlanPayload -> result bytes).

Definition analyze (b : PlanBuilder) : result (list PlanDiagnostic) :=
  resolution ← resolve_bindings reserves (builder_inputs b) (builder_sources b) (builder_targets b) (builder_policy b);
  mret (diagnostics resolution).

Definition canonical_json (value : PlanPayload) : result bytes :=
  match write_json value with
  | Err _ => Err InvalidFormat
  | r => r
  end.

Definition compute_plan_id (payload : PlanPayload) : result PlanId :=
  bs ← canonical_json payload;
  mret {| plan_id_digest := digest_hash sha256 (String.list_byte_of_string "binding-plan-v2") [bs] |}.

(** The binding of one entry of the matches. *)
Definition make_binding (sources : list SourceTensor) (targets : list TargetTensor) (entry : nat * list nat)
  : result Binding :=
  let '(target_index, indices) := entry in
  ss ← try_map (index sources) indices;
  t ← index targets target_index;
  Binding_new ss t.

(** Whether a target is optional and has no binding. *)
Definition optional_unbound (bindings : list Binding) (t : TargetTensor) : bool :=
  bool_decide (requirement t = Optional) &&
  negb (existsb (fun b => bool_decide (target_name (binding_target b) = target_name t)) bindings).

Definition PlanBuilder_build (b : PlanBuilder) : result BindingPlan :=
  let sources := merge_sort source_le (builder_sources b) in
  let targets := merge_sort target_le (builder_targets b) in
  resolution ← resolve_bindings reserves (builder_inputs b) sources targets (builder_policy b);
  _ ← reject (existsb is_error (diagnostics resolution)) Errors.Binding;
  bindings ← try_map (make_binding sources targets) (btree_list (matches resolution));
  let bindings := merge_sort binding_le bindings in
  let missing := canonical (map target_name (List.filter (optional_unbound bindings) targets)) in
  unused ← names_at sources (unused_sources resolution);
  let unused := canonical unused in
  id ← compute_plan_id (PlanIdentityPayload PLAN_SCHEMA_VERSION (builder_inputs b) sources targets (builder_policy b)
                          bindings missing unused);
  mret {| plan_schema := PLAN_SCHEMA_VERSION; plan_id := id; plan_inputs := builder_inputs b; plan_sources := sources;
          plan_targets := targets; extra_source_policy := builder_policy b; plan_bindings := bindings;
          missing_optional := missing; plan_unused := unused |}.

(** What the readers of its parts make of a wire plan. *)
Definition read_binding (wire : Binding) : result Binding :=
  sources ← try_map SourceTensor_try_from (binding_sources wire);
  t ← TargetTensor_try_from (binding_target wire);
  Binding_try_from {| binding_sources := sources; binding_target := t |}.

Definition read_plan (wire : BindingPlan) : result BindingPlan :=
  sources ← try_map SourceTensor_try_from (plan_sources wire);
  targets ← try_map TargetTensor_try_from (plan_targets wire);
  bindings ← try_map read_binding (plan_bindings wire);
  mret {| plan_schema := plan_schema wire; plan_id := plan_id wire; plan_inputs := plan_inputs wire;
          plan_sources := sources; plan_targets := targets; extra_source_policy := extra_source_policy wire;
          plan_bindings := bindings; missing_optional := missing_optional wire; plan_unused := plan_unused wire |}.

(** [from_canonical_json]: [parse] is the deserializer before the readers of
    this file check what it read. *)
Definition from_canonical_json (parse : bytes -> option BindingPlan) (bs : bytes) : result BindingPlan :=
  wire ← ok_or (parse bs) InvalidFormat;
  wire ← match read_plan wire with Err _ => Err InvalidFormat | r => r end;
  canonical ← canonical_json (BindingPlanPayload wire);
  _ ← reject (negb (bool_decide (canonical = bs))) InvalidFormat;
  _ ← reject (negb (plan_schema wire =? PLAN_SCHEMA_VERSION)) InvalidFormat;
  _ ← validate_sorted_unique None (map source_name (plan_sources wire));
  _ ← validate_sorted_unique None (map target_name (plan_targets wire));
  _ ← validate_sorted_unique None (map (fun b => target_name (binding_target b)) (plan_bindings wire));
  _ ← validate_sorted_unique None (missing_optional wire);
  _ ← validate_sorted_unique None (plan_unused wire);
  rebuilt ← PlanBuilder_build (foldl apply_plan_setting (plan_builder (plan_inputs wire))
              [ExtendSources (plan_sources wire); ExtendTargets (plan_targets wire);
               SetPolicy (extra_source_policy wire)]);
  _ ← reject (negb (bool_decide (plan_bindings rebuilt = plan_bindings wire))) Errors.Binding;
  _ ← reject (negb (bool_decide (missing_optional rebuilt = missing_optional wire))) Errors.Binding;
  _ ← reject (negb (bool_decide (plan_unused rebuilt = plan_unused wire))) Errors.Binding;
  _ ← reject (negb (bool_decide (plan_id rebuilt = plan_id wire))) Integrity;
  mret rebuilt.
End Plans.
