(* ===== verification/PlannerSpecs.v ===== *)
(** * How the planner matches sources to targets

    The index maps of the planner against filters of its inputs: what each
    target is bound to and which diagnostics it causes. *)

From S2P Require Import Prelude Errors Tensor Identity Order Representation Quantization.
From S2P Require Import Strides Facts Operation InferSpecs Graph Recipe Plan Planner.
From Stdlib Require Strings.String.
Local Open Scope N_scope.

(** ** Positions *)

Section Positions.
Context {A : Type}.
Implicit Types (l : list A) (P : A -> Prop).

(** The indices of the elements that satisfy [P]. *)
Definition positions P `{!forall a, Decision (P a)} l : list nat := map fst (filter (fun x => P (snd x)) (enumerate l)).

Definition positions_from P `{!forall a, Decision (P a)} (start : nat) l : list nat :=
  map fst (filter (fun x => P (snd x)) (zip (seq start (length l)) l)).

Lemma positions_from_cons P `{!forall a, Decision (P a)} start a l :
  positions_from P start (a :: l) = (if decide (P a) then [start] else []) ++ positions_from P (S start) l.
Proof using Type. unfold positions_from. cbn [length seq zip zip_with]. rewrite filter_cons. cbn [snd]. by case_decide. Qed.

Lemma positions_from_elem P `{!forall a, Decision (P a)} start l i :
  i ∈ positions_from P start l <-> exists k a, i = (start + k)%nat /\ l !! k = Some a /\ P a.
Proof using Type.
  unfold positions_from. rewrite list_elem_of_fmap. setoid_rewrite list_elem_of_filter. split.
  - intros ([j a] & -> & Ha & (k & Hk)%list_elem_of_lookup). apply lookup_zip_Some in Hk as [Hj Hl]. cbn in *.
    apply lookup_seq in Hj as [-> _]. by exists k, a.
  - intros (k & a & -> & Hl & Ha). exists ((start + k)%nat, a). split; [done|]. split; [done|]. apply list_elem_of_lookup.
    exists k. apply lookup_zip_Some. split; [|done]. apply lookup_seq. split; [done|]. by apply lookup_lt_Some in Hl.
Qed.

Lemma positions_elem P `{!forall a, Decision (P a)} l i : i ∈ positions P l <-> exists a, l !! i = Some a /\ P a.
Proof using Type.
  etrans; [apply (positions_from_elem P 0)|]. split.
  - intros (k & a & -> & Hl). by exists a.
  - intros (a & Hl). by exists i, a.
Qed.

Lemma positions_from_sorted P `{!forall a, Decision (P a)} start l : StronglySorted lt (positions_from P start l).
Proof using Type.
  revert start. induction l as [|a l IH]; intros start; [constructor|]. rewrite positions_from_cons. case_decide; [|apply IH].
  constructor; [apply IH|]. apply Forall_forall. intros i (k & b & -> & _)%positions_from_elem. lia.
Qed.

Lemma index_cons (a : A) l i : index (a :: l) (S i) = index l i.
Proof using Type. done. Qed.

Lemma positions_from_index P `{!forall a, Decision (P a)} l : forall before,
  try_map (index (before ++ l)) (positions_from P (length before) l) = Ok (filter P l).
Proof using Type.
  induction l as [|a l IH]; intros before; [done|]. rewrite positions_from_cons, filter_cons.
  specialize (IH (before ++ [a])). rewrite <-app_assoc, length_app, Nat.add_1_r in IH. cbn [app] in IH.
  case_decide; [|exact IH]. cbn [app try_map]. rewrite (proj2 (index_Ok _ _ a)); [|by rewrite list_lookup_middle].
  cbn [mbind result_bind]. by rewrite IH.
Qed.

(** The elements at the positions are those a filter keeps. *)
Lemma positions_index P `{!forall a, Decision (P a)} l : try_map (index l) (positions P l) = Ok (filter P l).
Proof using Type. exact (positions_from_index P l []). Qed.

Lemma positions_length P `{!forall a, Decision (P a)} l : length (positions P l) = length (filter P l).
Proof using Type. pose proof (positions_index P l) as Hf. apply try_map_Ok in Hf. by apply Forall2_length in Hf. Qed.

Lemma nat_sorted_ord (l : list nat) : StronglySorted lt l -> StronglySorted ord_lt l.
Proof using Type.
  induction 1 as [|i l _ IH Hi]; [constructor|]. constructor; [done|]. eapply Forall_impl; [exact Hi|]. intros j Hj. left. left.
  change (N.of_nat i < N.of_nat j). lia.
Qed.

Lemma positions_sorted P `{!forall a, Decision (P a)} l : StronglySorted ord_lt (positions P l).
Proof using Type. apply nat_sorted_ord, (positions_from_sorted P 0). Qed.
End Positions.

(** ** Groups of names *)

Lemma group_names_lookup (entries : list (nat * TensorName)) n : forall grouped : gmap TensorName (list nat),
  foldl (fun grouped '(i, n) => <[n := default [] (grouped !! n) ++ [i]]> grouped) grouped entries !! n =
  let found := map fst (filter (fun e => snd e = n) entries) in
  if is_empty found then grouped !! n else Some (default [] (grouped !! n) ++ found).
Proof.
  induction entries as [|[i m] entries IH]; intros grouped; [done|]. cbn [foldl]. rewrite IH, filter_cons. cbn [snd].
  case_decide as Hm; cbn [map fst is_empty]; cbv zeta.
  - subst m. rewrite lookup_insert_eq. cbn [default]. destruct (map fst _) as [|j found]; [done|]. cbn [is_empty].
    unfold id. by rewrite <-app_assoc.
  - by rewrite lookup_insert_ne.
Qed.

Section Groups.
Context {A} (name_of : A -> TensorName) (l : list A).

Definition named (n : TensorName) (a : A) : Prop := name_of a = n.
#[export] Instance named_dec n a : Decision (named n a).
Proof using Type. unfold named. apply _. Defined.

Lemma enumerate_names_filter n :
  map fst (filter (fun e => snd e = n) (enumerate (map name_of l))) = positions (named n) l.
Proof using Type.
  unfold positions, enumerate. rewrite length_map. generalize 0%nat. induction l as [|a l' IH]; intros start; [done|].
  cbn [length seq map zip zip_with]. rewrite !filter_cons. cbn [snd].
  case_decide as Ha; case_decide as Hb; try done; cbn [map fst]; by rewrite IH.
Qed.

Lemma grouped_lookup n :
  group_names (enumerate (map name_of l)) !! n =
  if is_empty (positions (named n) l) then None else Some (positions (named n) l).
Proof using Type. unfold group_names. rewrite group_names_lookup. cbv zeta. by rewrite enumerate_names_filter, lookup_empty. Qed.

Lemma grouped_default n : default [] (group_names (enumerate (map name_of l)) !! n) = positions (named n) l.
Proof using Type. rewrite grouped_lookup. by destruct (positions (named n) l). Qed.

Lemma grouped_many n :
  match group_names (enumerate (map name_of l)) !! n with Some indices => (1 <? length indices)%nat | None => false end =
  (1 <? length (filter (named n) l))%nat.
Proof using Type. rewrite grouped_lookup, <-positions_length. by destruct (positions (named n) l). Qed.
End Groups.

(** ** Checks never panic *)

Lemma capture_Ok {A} (r : result A) o :
  capture r = Ok o <-> match r with Ok _ => o = None | Err e => o = Some e | Panic => False end.
Proof. destruct r; cbn; naive_solver. Qed.

Lemma checked_contiguous_strides_not_Panic shape : checked_contiguous_strides shape <> Panic.
Proof.
  unfold checked_contiguous_strides. apply bind_not_Panic; [apply contiguous_strides_loop_not_Panic|by intros []].
Qed.

Lemma validate_contiguous_output_not_Panic t : validate_contiguous_output t <> Panic.
Proof.
  unfold validate_contiguous_output. case_match; [|done]. apply bind_not_Panic; [apply checked_contiguous_strides_not_Panic|].
  intros strides _. no_panic; auto using byte_len_not_Panic.
Qed.

Lemma validate_binding_not_Panic inputs s t : validate_binding inputs s t <> Panic.
Proof.
  unfold validate_binding, validate_conversion_binding. no_panic.
  - destruct (conversion_recipe t); no_panic.
  - destruct (source_storage s) as [d span|q].
    + unfold validate_plain_binding. no_panic; auto using validate_contiguous_output_not_Panic.
      destruct (transforms t); no_panic.
    + unfold validate_quantized_binding. no_panic. destruct (route a3); no_panic; auto using validate_contiguous_output_not_Panic.
Qed.

Lemma validate_operation_binding_not_Panic inputs ss t : validate_operation_binding inputs ss t <> Panic.
Proof.
  unfold validate_operation_binding. no_panic. apply try_fold_not_Panic. intros [] [i s] _. unfold validate_operation_input.
  no_panic. destruct (source_storage s); no_panic; auto using byte_len_not_Panic, TensorFacts_contiguous_not_Panic.
Qed.

(** ** The sources of a target *)

Definition wanted (t : TargetTensor) (s : SourceTensor) : Prop := source_name s ∈ target_name t :: target_aliases t.
#[export] Instance wanted_dec t s : Decision (wanted t s).
Proof. unfold wanted. apply _. Defined.

Section Matching.
Context (reserves : TargetTensor -> bool) (inputs : PlanInputs).
Context (sources : list SourceTensor) (targets : list TargetTensor).

Definition repeated (t : TargetTensor) : bool :=
  (1 <? length (filter (named target_name (target_name t)) targets))%nat.

Definition found (n : TensorName) : list SourceTensor := filter (named source_name n) sources.

Definition reservable (t : TargetTensor) (g : OperationGraph) : bool :=
  (8 * N.of_nat (length (graph_inputs g)) <=? isize_MAX) && reserves t.

Definition input_names (g : OperationGraph) : list TensorName := map input_name (graph_inputs g).

(** What a target is bound to: the one candidate of its name and aliases, or
    the sources named by the inputs of its graph, in order. *)
Definition select_from {X} (candidates : TargetTensor -> list X) (found : TensorName -> list X) (t : TargetTensor)
  : option (list X) :=
  if repeated t then None else
  match operation_graph t with
  | None => match candidates t with [x] => Some [x] | _ => None end
  | Some g => if reservable t g && forallb (fun n => (length (found n) =? 1)%nat) (input_names g)
              then Some (concat (map found (input_names g))) else None
  end.

Definition chosen : TargetTensor -> option (list SourceTensor) := select_from (fun t => filter (wanted t) sources) found.

Definition chosen_at : TargetTensor -> option (list nat) :=
  select_from (fun t => positions (wanted t) sources) (fun n => positions (named source_name n) sources).

(** The diagnostics of a target. *)
Definition named_diagnostics (t : TargetTensor) : list PlanDiagnostic :=
  match filter (wanted t) sources with
  | [] => [missing_diagnostic t (target_aliases t) "no inventory tensor matched the required target or its aliases"
             "no inventory tensor matched the optional target or its aliases"]
  | [s] => match match_diagnostics inputs s t with Ok ds => ds | _ => [] end
  | ss => [PlanDiagnostic_new Error AmbiguousBinding (target_name t) (map source_name ss)
             (Message "more than one inventory tensor matched the target name or aliases")]
  end.

Definition ambiguous_names (g : OperationGraph) : list TensorName :=
  concat (map (fun n => if (1 <? length (found n))%nat then map source_name (found n) else []) (input_names g)).

Definition missing_names (g : OperationGraph) : list TensorName :=
  filter (fun n => found n = []) (input_names g).

Definition graph_diagnostics (t : TargetTensor) (g : OperationGraph) : list PlanDiagnostic :=
  if negb (reservable t g) then
    [PlanDiagnostic_new Error UnsupportedTransform (target_name t) []
       (Message "could not allocate ordered operation-graph source metadata")]
  else if negb (is_empty (ambiguous_names g)) then
    [PlanDiagnostic_new Error AmbiguousBinding (target_name t) (ambiguous_names g)
       (Message "an operation-graph input matched more than one inventory tensor")]
  else if negb (is_empty (missing_names g)) then
    [missing_diagnostic t (missing_names g) "one or more required operation-graph inputs are absent"
       "one or more optional operation-graph inputs are absent"]
  else
    let ss := concat (map found (input_names g)) in
    match validate_operation_binding inputs ss t with
    | Err e => [PlanDiagnostic_new Error UnsupportedTransform (target_name t) (map source_name ss) (ErrorMessage e)]
    | _ => []
    end.

Definition target_diagnostics (t : TargetTensor) : list PlanDiagnostic :=
  if repeated t then [] else
  match operation_graph t with
  | None => named_diagnostics t
  | Some g => graph_diagnostics t g
  end.

Definition source_names : gmap TensorName (list nat) := group_names (enumerate (map source_name sources)).
Definition target_names : gmap TensorName (list nat) := group_names (enumerate (map target_name targets)).

Lemma candidates_positions t : sort_unstable (elements (candidates source_names t)) = positions (wanted t) sources.
Proof using Type.
  apply sorted_lt_unique.
  - apply sorted_NoDup_lt; [apply sort_unstable_sorted|]. rewrite sort_unstable_Permutation. apply NoDup_elements.
  - apply positions_sorted.
  - intros i. rewrite sort_unstable_Permutation, elem_of_elements, positions_elem. unfold candidates.
    rewrite elem_of_list_to_set, concat_elem. setoid_rewrite list_elem_of_fmap. unfold source_names, wanted. split.
    + intros (l & (n & -> & Hn) & Hi).  rewrite grouped_default in Hi. apply positions_elem in Hi as (s & Hs & <-).
      by exists s.
    + intros (s & Hs & Hw). exists (positions (named source_name (source_name s)) sources). split.
      * exists (source_name s). split; [by rewrite grouped_default|done].
      * apply positions_elem. by exists s.
Qed.

Lemma names_at_filter P `{!forall s, Decision (P s)} :
  names_at sources (positions P sources) = Ok (map source_name (filter P sources)).
Proof using Type.
  unfold names_at. apply try_map_Ok. pose proof (positions_index P sources) as Hp. apply try_map_Ok in Hp.
  clear -Hp. induction Hp as [|i s is' ss Hi _ IH]; [constructor|]. cbn [map]. constructor; [by rewrite Hi|done].
Qed.

Lemma match_diagnostics_Ok s t : exists ds, match_diagnostics inputs s t = Ok ds.
Proof using Type.
  unfold match_diagnostics. pose proof (validate_binding_not_Panic inputs s t).
  destruct (validate_binding inputs s t); [by eexists..|done].
Qed.

Lemma resolve_named_spec m ds k t :
  repeated t = false -> operation_graph t = None ->
  resolve_named_binding inputs sources source_names (m, ds) k t =
  Ok (match chosen_at t with Some indices => <[k := indices]> m | None => m end, ds ++ target_diagnostics t).
Proof using Type.
  intros Hr Hg. unfold resolve_named_binding, chosen_at, select_from, target_diagnostics, named_diagnostics.
  rewrite Hr, Hg, candidates_positions. pose proof (positions_index (wanted t) sources) as Hp.
  pose proof (names_at_filter (wanted t)) as Hn.
  destruct (positions (wanted t) sources) as [|i [|j l]].
  - cbn in Hp. by injection Hp as <-.
  - cbn [try_map mbind result_bind] in Hp. apply bind_Ok in Hp as (s & Hs & [= <-]). rewrite Hs. cbn [mbind result_bind].
    destruct (match_diagnostics_Ok s t) as [found Hf]. by rewrite Hf.
  - rewrite Hn. apply try_map_Ok in Hp. cbn [mbind result_bind]. by destruct (filter (wanted t) sources) as [|s [|s' ss]];
      [by apply Forall2_length in Hp..|].
Qed.

(** *** Graphs *)

Definition found_at (n : TensorName) : list nat := positions (named source_name n) sources.
Definition single_at (n : TensorName) : list nat := if (length (found n) =? 1)%nat then found_at n else [].
Definition ambiguous_of (n : TensorName) : list TensorName :=
  if (1 <? length (found n))%nat then map source_name (found n) else [].

Lemma resolve_input_spec ixs miss amb i :
  resolve_input sources source_names (ixs, miss, amb) i =
  Ok (ixs ++ single_at (input_name i), miss ++ filter (fun n => found n = []) [input_name i], amb ++ ambiguous_of (input_name i)).
Proof using Type.
  unfold resolve_input, source_names, single_at, ambiguous_of, found_at. rewrite grouped_lookup, filter_cons, filter_nil.
  pose proof (positions_index (named source_name (input_name i)) sources) as Hp.
  pose proof (names_at_filter (named source_name (input_name i))) as Hn. unfold found.
  destruct (positions (named source_name (input_name i)) sources) as [|j [|k l]].
  - cbn in Hp. injection Hp as <-. cbn. by rewrite !app_nil_r.
  - apply try_map_Ok in Hp. destruct (filter (named source_name (input_name i)) sources) as [|s [|s' ss]];
      [by apply Forall2_length in Hp| |by apply Forall2_length in Hp].
    cbn. rewrite decide_False by done. by rewrite !app_nil_r.
  - apply try_map_Ok in Hp. destruct (filter (named source_name (input_name i)) sources) as [|s [|s' ss]];
      [by apply Forall2_length in Hp..|]. cbn [is_empty length Nat.eqb]. rewrite Hn. cbn [mbind result_bind].
    rewrite decide_False by done. by rewrite !app_nil_r.
Qed.

Lemma resolve_inputs_spec l : forall ixs miss amb,
  try_fold (resolve_input sources source_names) (ixs, miss, amb) l =
  Ok (ixs ++ concat (map single_at (map input_name l)), miss ++ filter (fun n => found n = []) (map input_name l),
      amb ++ concat (map ambiguous_of (map input_name l))).
Proof using Type.
  induction l as [|i l IH]; intros ixs miss amb; cbn [try_fold map concat]; [by rewrite !app_nil_r|].
  rewrite resolve_input_spec. cbn [mbind result_bind]. rewrite IH, <-!app_assoc.
  change (input_name i :: map input_name l) with ([input_name i] ++ map input_name l). by rewrite filter_app.
Qed.

(** Every input has one source exactly when none is ambiguous and none missing. *)
Lemma inputs_single ns :
  forallb (fun n => (length (found n) =? 1)%nat) ns =
  is_empty (concat (map ambiguous_of ns)) && is_empty (filter (fun n => found n = []) ns).
Proof using Type.
  induction ns as [|n ns IH]; [done|]. cbn [forallb map concat]. rewrite IH, filter_cons. unfold ambiguous_of at 2.
  destruct (found n) as [|s [|s' ss]] eqn:E; cbn [length Nat.eqb Nat.ltb Nat.leb].
  - rewrite decide_True by done. cbn. by rewrite andb_false_r.
  - by rewrite decide_False by done.
  - done.
Qed.

Lemma single_concat ns :
  forallb (fun n => (length (found n) =? 1)%nat) ns = true -> map single_at ns = map found_at ns.
Proof using Type.
  induction ns as [|n ns IH]; [done|]. cbn [forallb map]. intros [Hn Hs]%andb_true_iff. unfold single_at at 1.
  by rewrite Hn, IH.
Qed.

Lemma found_index ns : try_map (index sources) (concat (map found_at ns)) = Ok (concat (map found ns)).
Proof using Type.
  apply try_map_Ok. induction ns as [|n ns IH]; [constructor|]. cbn [map concat]. apply Forall2_app; [|done].
  apply try_map_Ok, positions_index.
Qed.

Lemma found_at_length n : length (found_at n) = length (found n).
Proof using Type. apply positions_length. Qed.

Lemma found_at_single ns :
  forallb (fun n => (length (found_at n) =? 1)%nat) ns = forallb (fun n => (length (found n) =? 1)%nat) ns.
Proof using Type. induction ns as [|n ns IH]; [done|]. cbn [forallb]. by rewrite found_at_length, IH. Qed.

Lemma resolve_graph_spec m ds k t g :
  repeated t = false -> operation_graph t = Some g ->
  resolve_operation_graph_binding reserves inputs sources source_names (m, ds) k t =
  Ok (match chosen_at t with Some indices => <[k := indices]> m | None => m end, ds ++ target_diagnostics t).
Proof using Type.
  intros Hr Hg. unfold resolve_operation_graph_binding, chosen_at, select_from, target_diagnostics, graph_diagnostics.
  rewrite Hr, Hg. fold (reservable t g). destruct (reservable t g); [|done]. cbn [negb andb].
  change (fun n => positions (named source_name n) sources) with found_at. rewrite found_at_single, resolve_inputs_spec.
  cbn [mbind result_bind app]. fold (input_names g).
  change (concat (map ambiguous_of (input_names g))) with (ambiguous_names g).
  change (filter (fun n => found n = []) (input_names g)) with (missing_names g).
  pose proof (inputs_single (input_names g)) as Hs.
  change (concat (map ambiguous_of (input_names g))) with (ambiguous_names g) in Hs.
  change (filter (fun n => found n = []) (input_names g)) with (missing_names g) in Hs. rewrite Hs.
  destruct (is_empty (ambiguous_names g)); [|done]. destruct (is_empty (missing_names g)); [|done]. cbn [negb andb].
  rewrite single_concat by done. rewrite found_index. cbn [mbind result_bind].
  pose proof (validate_operation_binding_not_Panic inputs (concat (map found (input_names g))) t).
  destruct (validate_operation_binding _ _ _); done.
Qed.

(** One target: its sources are recorded and its diagnostics appended. *)
Lemma resolve_target_spec m ds k t :
  resolve_target reserves inputs sources source_names target_names (m, ds) (k, t) =
  Ok (match chosen_at t with Some indices => <[k := indices]> m | None => m end, ds ++ target_diagnostics t).
Proof using Type.
  unfold resolve_target, target_names. rewrite grouped_many. fold (repeated t). destruct (repeated t) eqn:Hr.
  - unfold chosen_at, select_from, target_diagnostics. rewrite Hr. by rewrite app_nil_r.
  - destruct (operation_graph t) as [g|] eqn:Hg; cbn [is_some].
    + by apply (resolve_graph_spec m ds k t g).
    + by apply resolve_named_spec.
Qed.

(** *** All targets *)

Definition record_matches (m : gmap nat (list nat)) (l : list (nat * TargetTensor)) : gmap nat (list nat) :=
  foldl (fun m '(k, t) => match chosen_at t with Some indices => <[k := indices]> m | None => m end) m l.

Lemma resolve_targets_spec l : forall m ds,
  try_fold (resolve_target reserves inputs sources source_names target_names) (m, ds) l =
  Ok (record_matches m l, ds ++ concat (map (fun x => target_diagnostics (snd x)) l)).
Proof using Type.
  induction l as [|[k t] l IH]; intros m ds; cbn [try_fold map concat]; [by rewrite app_nil_r|].
  rewrite resolve_target_spec. cbn [mbind result_bind]. by rewrite IH, <-app_assoc.
Qed.

Lemma record_matches_lookup l k indices : forall m,
  NoDup (map fst l) -> (forall x, x ∈ l -> m !! fst x = None) ->
  record_matches m l !! k = Some indices <->
  m !! k = Some indices \/ exists t, (k, t) ∈ l /\ chosen_at t = Some indices.
Proof using Type.
  induction l as [|[j t] l IH]; intros m Hd Hm; cbn [record_matches foldl].
  { split; [by left|]. by intros [?|(t & ?%elem_of_nil & _)]. }
  cbn [map] in Hd. apply NoDup_cons in Hd as [Hj Hd]. change (foldl _ ?m l) with (record_matches m l).
  assert (m !! j = None) as Hmj by (apply (Hm (j, t)); by left).
  assert (forall x, x ∈ l -> fst x <> j) as Hne.
  { intros x Hx <-. apply Hj. apply list_elem_of_fmap. by exists x. }
  rewrite IH; [|done|].
  - destruct (chosen_at t) as [indices'|] eqn:E; [rewrite lookup_insert_Some|]; split.
    + intros [[[-> ->]|[_ ?]]|(t' & Hin & Ht)]; [right; exists t; split; [by left|done]|by left|].
      right. exists t'. split; [by right|done].
    + intros [H|(t' & Hin & Ht)]; [left; right; split; [by intros ->; congruence|done]|].
      apply elem_of_cons in Hin as [[= -> ->]|Hin]; [left; left; split; congruence|]. right. by exists t'.
    + intros [?|(t' & Hin & Ht)]; [by left|]. right. exists t'. split; [by right|done].
    + intros [?|(t' & Hin & Ht)]; [by left|]. apply elem_of_cons in Hin as [[= -> ->]|Hin]; [congruence|]. right. by exists t'.
  - intros x Hx. destruct (chosen_at t); [rewrite lookup_insert_ne by (intros ->; by apply (Hne x Hx))|]; apply Hm; by right.
Qed.

Definition target_matches : gmap nat (list nat) := record_matches ∅ (merge_sort indexed_le (enumerate targets)).

Lemma target_matches_lookup k indices :
  target_matches !! k = Some indices <-> exists t, targets !! k = Some t /\ chosen_at t = Some indices.
Proof using Type.
  unfold target_matches. rewrite record_matches_lookup.
  - rewrite lookup_empty. setoid_rewrite (merge_sort_Permutation indexed_le). setoid_rewrite lookup_enumerate.
    split; [by intros [?|?]|by right].
  - rewrite (merge_sort_Permutation indexed_le). unfold enumerate. change (map ?f ?l) with (f <$> l).
    rewrite fst_zip by (by rewrite length_seq). apply NoDup_seq.
  - intros. apply lookup_empty.
Qed.
End Matching.

(** * Shared and unused sources, and all diagnostics of a contract *)

Section Resolution.
Context (reserves : TargetTensor -> bool) (inputs : PlanInputs).
Context (sources : list SourceTensor) (targets : list TargetTensor) (policy : ExtraSourcePolicy).

#[local] Notation found := (found sources).
#[local] Notation repeated := (repeated targets).
#[local] Notation chosen := (chosen reserves sources targets).
#[local] Notation chosen_at := (chosen_at reserves sources targets).
#[local] Notation target_matches := (target_matches reserves sources targets).

(** ** The sources of a target by index *)

Lemma chosen_at_spec t :
  match chosen_at t with
  | Some indices => exists ss, chosen t = Some ss /\ try_map (index sources) indices = Ok ss
  | None => chosen t = None
  end.
Proof using Type.
  unfold PlannerSpecs.chosen_at, PlannerSpecs.chosen, select_from. destruct (repeated t); [done|].
  destruct (operation_graph t) as [g|].
  - change (fun n => (length (positions (named source_name n) sources) =? 1)%nat) with
      (fun n => (length (found_at sources n) =? 1)%nat). rewrite found_at_single.
    destruct (reservable reserves t g && _); [|done]. eexists. split; [done|]. apply found_index.
  - pose proof (positions_index (wanted t) sources) as Hp. pose proof (positions_length (wanted t) sources) as Hl.
    destruct (positions (wanted t) sources) as [|i [|j l]]; destruct (filter (wanted t) sources) as [|s [|s' ss]]; try done.
    by exists [s].
Qed.

(** A chosen source is the only one of its name. *)
Lemma chosen_found t ss s : chosen t = Some ss -> s ∈ ss -> found (source_name s) = [s].
Proof using Type.
  unfold PlannerSpecs.chosen, select_from. destruct (repeated t); [done|]. destruct (operation_graph t) as [g|].
  - destruct (reservable reserves t g); [|done]. cbn [andb]. destruct (forallb _ _) eqn:Hf; [|done]. intros [= <-].
    rewrite concat_elem. setoid_rewrite list_elem_of_fmap. intros (l & (n & -> & Hn) & Hs).
    rewrite List.forallb_forall in Hf. apply list_elem_of_In in Hn. specialize (Hf n Hn).
    destruct (found n) as [|s' [|s'' l]] eqn:E; [done| |done]. apply list_elem_of_singleton in Hs as ->.
    assert (s' ∈ found n) as Hin by (rewrite E; by left). apply list_elem_of_filter in Hin as [Hname _].
    unfold named in Hname. by rewrite Hname.
  - destruct (filter (wanted t) sources) as [|s' [|s'' l]] eqn:E; try done. intros [= <-] ->%list_elem_of_singleton.
    unfold PlannerSpecs.found. assert (s' ∈ filter (wanted t) sources) as [Hw _]%list_elem_of_filter by (rewrite E; by left).
    rewrite <-(list_filter_filter_l (named source_name (source_name s')) (wanted t)).
    + rewrite E, filter_cons, filter_nil. by rewrite decide_True.
    + intros s. unfold named, wanted. by intros ->.
Qed.

(** The position of a chosen source is determined. *)
Lemma found_position s i j : found (source_name s) = [s] -> sources !! i = Some s ->
  sources !! j = Some s -> i = j.
Proof using Type.
  intros Hf Hi Hj. pose proof (positions_length (named source_name (source_name s)) sources) as Hl.
  change (filter _ sources) with (found (source_name s)) in Hl. rewrite Hf in Hl.
  assert (forall k, sources !! k = Some s -> k ∈ positions (named source_name (source_name s)) sources) as Hin.
  { intros k Hk. apply positions_elem. by exists s. }
  apply Hin in Hi, Hj. destruct (positions _ sources) as [|p [|q l]]; try done.
  apply list_elem_of_singleton in Hi, Hj. congruence.
Qed.

(** ** Users of a source *)

Definition uses (s : SourceTensor) (t : TargetTensor) : Prop :=
  match chosen t with Some ss => s ∈ ss | None => False end.
#[export] Instance uses_dec s t : Decision (uses s t).
Proof using Type. unfold uses. destruct (chosen t); apply _. Defined.

Definition users (s : SourceTensor) : list TargetTensor := filter (uses s) targets.

Definition uses_at (i : nat) (t : TargetTensor) : Prop :=
  match chosen_at t with Some indices => i ∈ indices | None => False end.
#[export] Instance uses_at_dec i t : Decision (uses_at i t).
Proof using Type. unfold uses_at. destruct (chosen_at t); apply _. Defined.

Lemma uses_at_spec i s t : sources !! i = Some s -> uses_at i t <-> uses s t.
Proof using Type.
  intros Hi. unfold uses_at, uses. pose proof (chosen_at_spec t) as Hc. destruct (chosen_at t) as [indices|]; [|by rewrite Hc].
  destruct Hc as (ss & Hc & Hm). rewrite Hc. apply try_map_Ok in Hm. split.
  - intros [k Hk]%list_elem_of_lookup. destruct (Forall2_lookup_l _ _ _ _ _ Hm Hk) as (s' & Hs' & Hx).
    apply index_Ok in Hx. assert (s' = s) as -> by congruence. by eapply list_elem_of_lookup_2.
  - intros Hs. pose proof Hs as [k Hk]%list_elem_of_lookup. destruct (Forall2_lookup_r _ _ _ _ _ Hm Hk) as (j & Hj & Hx).
    apply index_Ok in Hx. rewrite (found_position s i j (chosen_found t ss s Hc Hs) Hi Hx). by eapply list_elem_of_lookup_2.
Qed.

Lemma reused_fold i l : forall r : gmap nat (list nat),
  foldl (fun reused '(k, indices) =>
    foldl (fun reused i => <[i := default [] (reused !! i) ++ [k]]> reused) reused (canonical indices)) r l !! i =
  let ks := map fst (filter (fun e => i ∈ snd e) l) in
  if is_empty ks then r !! i else Some (default [] (r !! i) ++ ks).
Proof using Type.
  assert (forall (k : nat) is' (r : gmap nat (list nat)), NoDup is' ->
    foldl (fun reused i => <[i := default [] (reused !! i) ++ [k]]> reused) r is' !! i =
    if bool_decide (i ∈ is') then Some (default [] (r !! i) ++ [k]) else r !! i) as Hin.
  { induction is' as [|j is' IH]; intros r Hd; [done|]. apply NoDup_cons in Hd as [Hj Hd]. cbn [foldl]. rewrite IH by done.
    destruct (decide (i = j)) as [->|Hne].
    - rewrite bool_decide_false by done. rewrite bool_decide_true by (by left). by rewrite lookup_insert_eq.
    - rewrite lookup_insert_ne by done. by rewrite (bool_decide_ext (i ∈ is') (i ∈ j :: is')) by set_solver. }
  induction l as [|[k indices] l IH]; intros r; [done|]. cbn [foldl]. rewrite IH, filter_cons. cbn [snd].
  assert (NoDup (canonical indices)) as Hd by (apply ord_lt_NoDup, canonical_sorted).
  rewrite (Hin k _ r Hd). rewrite (bool_decide_ext (i ∈ canonical indices) (i ∈ indices)) by apply canonical_elem.
  case_decide as Hi; [rewrite bool_decide_true by done|rewrite bool_decide_false by done; done]. cbn [map fst is_empty]. cbv zeta.
  destruct (map fst _) as [|k' ks]; [done|]. cbn [is_empty]. unfold default, from_option, id. by rewrite <-app_assoc.
Qed.

Lemma reused_positions i :
  map fst (filter (fun e => i ∈ snd e) (btree_list target_matches)) = positions (uses_at i) targets.
Proof using Type.
  apply sorted_lt_unique; [|apply positions_sorted|].
  - assert (StronglySorted ord_lt (map fst (btree_list target_matches))) as Hs.
    { rewrite btree_list_keys. apply sorted_NoDup_lt; [apply sort_unstable_sorted|].
      rewrite sort_unstable_Permutation. apply NoDup_fst_map_to_list. }
    induction (btree_list target_matches) as [|e l IH]; [done|]. cbn [map] in Hs. apply StronglySorted_inv in Hs as [Hs He].
    rewrite filter_cons. case_decide; [|by apply IH]. cbn [map]. constructor; [by apply IH|].
    rewrite Forall_forall in He |- *. intros k (e' & -> & Hin)%list_elem_of_fmap. apply He, list_elem_of_fmap.
    exists e'. split; [done|]. by apply list_elem_of_filter in Hin as [_ ?].
  - intros k. rewrite list_elem_of_fmap, positions_elem. setoid_rewrite list_elem_of_filter. split.
    + intros ([k' is'] & -> & Hi & Hin). apply btree_list_elem in Hin. cbn in *. apply target_matches_lookup in Hin as (t & Ht & Hc).
      exists t. split; [done|]. unfold uses_at. by rewrite Hc.
    + intros (t & Ht & Hu). unfold uses_at in Hu. destruct (chosen_at t) as [is'|] eqn:E; [|done].
      exists (k, is'). split; [done|]. split; [done|]. apply btree_list_elem, target_matches_lookup. by exists t.
Qed.

Lemma reused_lookup i :
  reused target_matches !! i =
  if is_empty (positions (uses_at i) targets) then None else Some (positions (uses_at i) targets).
Proof using Type. unfold reused. rewrite reused_fold. cbv zeta. by rewrite reused_positions, lookup_empty. Qed.
(** ** Shared sources *)

Definition same_group (ts : list TargetTensor) : bool :=
  match ts with
  | [] => true
  | first :: _ => is_some (shared_source_group first) &&
                  forallb (fun t => bool_decide (shared_source_group t = shared_source_group first)) ts
  end.

Definition conflict_diagnostics (s : SourceTensor) : list PlanDiagnostic :=
  if (length (users s) <? 2)%nat || same_group (users s) then [] else
  map (fun t => PlanDiagnostic_new Error ConflictingSourceReuse (target_name t) (map target_name (users s))
         (Message ("source " ++ tensor_name (source_name s) ++ " is shared without one explicit tied-weight group")))
    (users s).

Lemma users_positions i s : sources !! i = Some s ->
  try_map (index targets) (positions (uses_at i) targets) = Ok (users s).
Proof using Type.
  intros Hi. rewrite positions_index. f_equal. apply list_filter_iff. intros t. by apply uses_at_spec.
Qed.

Lemma reuse_diagnostics_spec i s : sources !! i = Some s ->
  reuse_diagnostics sources targets (i, positions (uses_at i) targets) = Ok (conflict_diagnostics s).
Proof using Type.
  intros Hi. unfold reuse_diagnostics, conflict_diagnostics. pose proof (users_positions i s Hi) as Hu.
  assert (length (positions (uses_at i) targets) = length (users s)) as Hl
    by (apply try_map_Ok in Hu; by apply Forall2_length in Hu).
  rewrite Hl. destruct (length (users s) <? 2)%nat eqn:E; [done|]. cbn [orb]. rewrite Hu. cbn [mbind result_bind].
  destruct (users s) as [|first ts] eqn:Eu; [done|]. cbn [index lookup list_lookup mbind result_bind same_group].
  destruct (is_some (shared_source_group first) && _); [done|]. unfold index. by rewrite Hi.
Qed.

Lemma conflicts_spec : exists conflicts,
  try_map (reuse_diagnostics sources targets) (btree_list (reused target_matches)) = Ok conflicts /\
  forall d, d ∈ concat conflicts <-> d ∈ concat (map conflict_diagnostics sources).
Proof using Type.
  assert (forall e, e ∈ btree_list (reused target_matches) -> exists s, sources !! fst e = Some s /\
    reuse_diagnostics sources targets e = Ok (conflict_diagnostics s)) as He.
  { intros [i ks] Hin%btree_list_elem. rewrite reused_lookup in Hin.
    destruct (positions (uses_at i) targets) as [|k l] eqn:E; [done|]. cbn [is_empty] in Hin. injection Hin as <-.
    assert (k ∈ positions (uses_at i) targets) as Hk by (rewrite E; by left).
    apply positions_elem in Hk as (t & _ & Ht). unfold uses_at in Ht. pose proof (chosen_at_spec t) as Hc.
    destruct (chosen_at t) as [indices|]; [|done]. destruct Hc as (ss & _ & Hm). apply try_map_Ok in Hm.
    apply list_elem_of_lookup in Ht as [j Hj]. destruct (Forall2_lookup_l _ _ _ _ _ Hm Hj) as (s & _ & Hs%index_Ok).
    exists s. split; [done|]. rewrite <-E. by apply reuse_diagnostics_spec. }
  destruct (try_map_total (reuse_diagnostics sources targets) (btree_list (reused target_matches))) as [conflicts Hc].
  { intros e Hin. destruct (He e Hin) as (s & _ & ->). by eexists. }
  exists conflicts. split; [done|]. apply try_map_Ok in Hc. intros d. rewrite !concat_elem. setoid_rewrite list_elem_of_fmap. split.
  - intros (ds & [j Hj]%list_elem_of_lookup & Hd). destruct (Forall2_lookup_r _ _ _ _ _ Hc Hj) as (e & Hin & Hr).
    apply list_elem_of_lookup_2, He in Hin as (s & Hs & Hr'). rewrite Hr in Hr'. injection Hr' as ->.
    exists (conflict_diagnostics s). split; [|done]. exists s. split; [done|]. by eapply list_elem_of_lookup_2.
  - intros (ds & (s & -> & [i Hi]%list_elem_of_lookup) & Hd). exists (conflict_diagnostics s). split; [|done].
    assert ((i, positions (uses_at i) targets) ∈ btree_list (reused target_matches)) as Hin.
    { apply btree_list_elem. rewrite reused_lookup. destruct (positions (uses_at i) targets) eqn:E; [|done].
      pose proof (users_positions i s Hi) as Hu. rewrite E in Hu. injection Hu as Hu. unfold conflict_diagnostics in Hd.
      rewrite <-Hu in Hd. by apply elem_of_nil in Hd. }
    apply list_elem_of_lookup in Hin as [j Hj]. destruct (Forall2_lookup_l _ _ _ _ _ Hc Hj) as (ds' & Hds & Hr).
    rewrite (reuse_diagnostics_spec i s Hi) in Hr. injection Hr as ->. by eapply list_elem_of_lookup_2.
Qed.

(** ** Unused sources *)

Definition unused (s : SourceTensor) : Prop := users s = [].
#[export] Instance unused_dec s : Decision (unused s).
Proof using Type. unfold unused. apply _. Defined.

Definition extra_of (s : SourceTensor) : PlanDiagnostic :=
  PlanDiagnostic_new match policy with RejectExtra => Error | AllowExtra => Warning end ExtraSource (source_name s) []
    (Message "inventory tensor was not selected by the target contract").

Lemma used_at_spec i :
  i ∈ concat (map snd (btree_list target_matches)) <-> exists t, t ∈ targets /\ uses_at i t.
Proof using Type.
  rewrite concat_elem. setoid_rewrite list_elem_of_fmap. split.
  - intros (indices & ([k indices'] & -> & Hin) & Hi). apply btree_list_elem, target_matches_lookup in Hin as (t & Ht & Hc).
    exists t. split; [by eapply list_elem_of_lookup_2|]. unfold uses_at. by rewrite Hc.
  - intros (t & [k Hk]%list_elem_of_lookup & Hu). unfold uses_at in Hu. destruct (chosen_at t) as [indices|] eqn:E; [|done].
    exists indices. split; [|done]. exists (k, indices). split; [done|]. apply btree_list_elem, target_matches_lookup.
    by exists t.
Qed.

Lemma unused_positions :
  filter (fun i => i ∉ (list_to_set (concat (map snd (btree_list target_matches))) : gset nat)) (seq 0 (length sources)) =
  positions unused sources.
Proof using Type.
  apply sorted_lt_unique; [|apply positions_sorted|].
  - apply nat_sorted_ord. generalize 0%nat. induction (length sources) as [|n IH]; intros start; [constructor|].
    cbn [seq]. rewrite filter_cons. case_decide; [|apply IH]. constructor; [apply IH|]. apply Forall_forall.
    intros i [_ Hi%elem_of_seq]%list_elem_of_filter. lia.
  - intros i. rewrite list_elem_of_filter, elem_of_list_to_set, used_at_spec, elem_of_seq, positions_elem. split.
    + intros [Hn [_ Hi]]. destruct (lookup_lt_is_Some_2 sources i ltac:(lia)) as [s Hs]. exists s. split; [done|].
      unfold unused, users. apply filter_nil_none. intros t Ht Hu. apply Hn. exists t. split; [done|].
      by apply (uses_at_spec i s).
    + intros (s & Hs & Hu). split; [|apply lookup_lt_Some in Hs; lia]. intros (t & Ht & Hut).
      apply (uses_at_spec i s t Hs) in Hut. assert (t ∈ users s) as Hin by (by apply list_elem_of_filter).
      rewrite Hu in Hin. by apply elem_of_nil in Hin.
Qed.

Lemma extras_spec : try_map (extra_diagnostic sources policy) (positions unused sources) =
  Ok (map extra_of (filter unused sources)).
Proof using Type.
  pose proof (positions_index unused sources) as Hp. apply try_map_Ok in Hp. apply try_map_Ok.
  induction Hp as [|i s is' ss Hi _ IH]; [constructor|]. cbn [map]. constructor; [|done]. unfold extra_diagnostic. by rewrite Hi.
Qed.
End Resolution.

(** * The diagnostics of a contract

        [resolve_bindings] against a reference list of diagnostics, which does not
    depend on the order of sources and targets. *)

(** ** Repeated names *)

Section Duplicates.
Context {A} (name_of : A -> TensorName) (l : list A) (c : DiagnosticCode) (text : string).

Definition many (a : A) : Prop := (1 < length (filter (named name_of (name_of a)) l))%nat.
#[export] Instance many_dec a : Decision (many a).
Proof using Type. unfold many. apply _. Defined.

Definition duplicate_of (a : A) : PlanDiagnostic := PlanDiagnostic_new Error c (name_of a) [] (Message text).

Lemma duplicate_diagnostics_elem d :
  d ∈ duplicate_diagnostics c text (group_names (enumerate (map name_of l))) <-> d ∈ map duplicate_of (filter many l).
Proof using Type.
  unfold duplicate_diagnostics. rewrite list_elem_of_omap, list_elem_of_fmap. setoid_rewrite list_elem_of_filter. split.
  - intros ([n indices] & Hin & Hd). apply btree_list_elem in Hin. rewrite grouped_lookup in Hin.
    pose proof (positions_length (named name_of n) l) as Hl.
    destruct (positions (named name_of n) l) as [|i ps] eqn:E; [done|]. cbn [is_empty] in Hin. injection Hin as <-.
    destruct (1 <? _)%nat eqn:Em; [|done]. injection Hd as <-. apply Nat.ltb_lt in Em. rewrite Hl in Em.
    assert (i ∈ positions (named name_of n) l) as Hi by (rewrite E; by left). apply positions_elem in Hi as (a & Ha & <-).
    exists a. split; [done|]. split; [done|]. by eapply list_elem_of_lookup_2.
  - intros (a & -> & Hm & Hin). exists (name_of a, positions (named name_of (name_of a)) l). split.
    + apply btree_list_elem. rewrite grouped_lookup. unfold many in Hm. rewrite <-positions_length in Hm.
      destruct (positions _ l) in Hm |- *; [cbn in Hm; lia|done].
    + unfold many in Hm. rewrite <-positions_length in Hm. by rewrite (proj2 (Nat.ltb_lt _ _) Hm).
Qed.
End Duplicates.

Section Analysis.
Context (reserves : TargetTensor -> bool) (inputs : PlanInputs) (policy : ExtraSourcePolicy).

(** Every diagnostic, in any order. *)
Definition all_diagnostics (sources : list SourceTensor) (targets : list TargetTensor) : list PlanDiagnostic :=
  map (duplicate_of source_name DuplicateSource "inventory contains more than one tensor with this name")
    (filter (many source_name sources) sources) ++
  map (duplicate_of target_name DuplicateTarget "contract contains more than one target with this name")
    (filter (many target_name targets) targets) ++
  concat (map (target_diagnostics reserves inputs sources targets) targets) ++
  concat (map (conflict_diagnostics reserves sources targets) sources) ++
  map (extra_of policy) (filter (unused reserves sources targets) sources).

(** What the planner computes. *)
Lemma resolve_bindings_spec sources targets :
  resolve_bindings reserves inputs sources targets policy =
  Ok {| matches := target_matches reserves sources targets;
        unused_sources := positions (unused reserves sources targets) sources;
        diagnostics := canonical (all_diagnostics sources targets) |}.
Proof using Type.
  unfold resolve_bindings. cbv zeta. change (group_names (enumerate (map source_name sources))) with (source_names sources).
  change (group_names (enumerate (map target_name targets))) with (target_names targets).
  rewrite resolve_targets_spec. cbn [mbind result_bind].
  change (record_matches reserves sources targets ∅ (merge_sort indexed_le (enumerate targets))) with
    (target_matches reserves sources targets).
  destruct (conflicts_spec reserves sources targets) as (conflicts & Hc & Hd). rewrite Hc. cbn [mbind result_bind].
  rewrite unused_positions, extras_spec. cbn [mbind result_bind]. f_equal. f_equal. apply canonical_ext. intros d.
  unfold all_diagnostics. rewrite !elem_of_app, <-Hd. unfold source_names, target_names.
  rewrite !duplicate_diagnostics_elem, !concat_elem. setoid_rewrite list_elem_of_fmap.
  assert ((exists l, (exists y, l = target_diagnostics reserves inputs sources targets (snd y) /\
      y ∈ merge_sort indexed_le (enumerate targets)) /\ d ∈ l) <->
    (exists l, (exists y, l = target_diagnostics reserves inputs sources targets y /\ y ∈ targets) /\ d ∈ l)) as ->; [|tauto].
  setoid_rewrite (merge_sort_Permutation indexed_le). split.
  - intros (l & ([k t] & -> & Hin%lookup_enumerate) & Hl). eexists. split; [|done]. exists t. split; [done|].
    by eapply list_elem_of_lookup_2.
  - intros (l & (t & -> & [k Hk]%list_elem_of_lookup) & Hl). eexists. split; [|done]. exists (k, t).
    split; [done|]. by apply lookup_enumerate.
Qed.

(** ** Independence of order *)

Section Order.
Context (ss ss' : list SourceTensor) (ts ts' : list TargetTensor).
Context (Hs : Permutation ss ss') (Ht : Permutation ts ts').

Lemma repeated_perm t : repeated ts t = repeated ts' t.
Proof using Ht. unfold repeated. by rewrite Ht. Qed.

Lemma found_perm n : Permutation (found ss n) (found ss' n).
Proof using Hs. unfold found. by rewrite Hs. Qed.

Lemma found_length n : length (found ss n) = length (found ss' n).
Proof using Hs. by rewrite found_perm. Qed.

Lemma singles_perm ns :
  forallb (fun n => (length (found ss n) =? 1)%nat) ns = forallb (fun n => (length (found ss' n) =? 1)%nat) ns.
Proof using Hs. induction ns as [|n ns IH]; [done|]. cbn [forallb]. by rewrite found_length, IH. Qed.

Lemma concat_found_perm ns :
  forallb (fun n => (length (found ss n) =? 1)%nat) ns = true -> concat (map (found ss) ns) = concat (map (found ss') ns).
Proof using Hs.
  induction ns as [|n ns IH]; [done|]. cbn [forallb map concat]. intros [Hn Hr]%andb_true_iff. f_equal; [|by apply IH].
  pose proof (found_perm n) as Hp. destruct (found ss n) as [|s [|s' l]]; try done. by apply Permutation_singleton_l in Hp as <-.
Qed.

Lemma chosen_perm t : chosen reserves ss ts t = chosen reserves ss' ts' t.
Proof using Hs Ht.
  unfold chosen, select_from. rewrite repeated_perm. destruct (repeated ts' t); [done|]. destruct (operation_graph t) as [g|].
  - rewrite <-singles_perm. destruct (reservable reserves t g && _) eqn:E; [|done]. apply andb_true_iff in E as [_ E].
    by rewrite concat_found_perm.
  - assert (Permutation (filter (wanted t) ss) (filter (wanted t) ss')) as Hp by (by rewrite Hs).
    destruct (filter (wanted t) ss) as [|s [|s' l]]; [by apply Permutation_nil_l in Hp as <-|
      by apply Permutation_singleton_l in Hp as <-|].
    apply Permutation_length in Hp. by destruct (filter (wanted t) ss') as [|? [|? ?]].
Qed.

Lemma canonical_perm `{Keyed A} `{EqDecision A} (l k : list A) : Permutation l k -> canonical l = canonical k.
Proof using Type. intros Hp. apply canonical_ext. intros x. by rewrite Hp. Qed.

Lemma diagnostic_perm s c n l k m : Permutation l k -> PlanDiagnostic_new s c n l m = PlanDiagnostic_new s c n k m.
Proof using Type. intros Hp. unfold PlanDiagnostic_new. by rewrite (canonical_perm l k Hp). Qed.

Lemma ambiguous_perm g : Permutation (ambiguous_names ss g) (ambiguous_names ss' g).
Proof using Hs.
  unfold ambiguous_names. induction (input_names g) as [|n ns IH]; [done|]. cbn [map concat]. apply Permutation_app; [|done].
  rewrite found_length. destruct (1 <? _)%nat; [|done]. by rewrite found_perm.
Qed.

Lemma missing_perm g : missing_names ss g = missing_names ss' g.
Proof using Hs.
  unfold missing_names. apply list_filter_iff. intros n. pose proof (found_perm n) as Hp.
  split; intros E; rewrite E in Hp; [by apply Permutation_nil_l in Hp|by apply Permutation_nil_r in Hp].
Qed.

Lemma is_empty_perm {A} (l k : list A) : Permutation l k -> is_empty l = is_empty k.
Proof using Type. intros Hp%Permutation_length. by destruct l, k. Qed.

Lemma target_diagnostics_perm t : target_diagnostics reserves inputs ss ts t = target_diagnostics reserves inputs ss' ts' t.
Proof using Hs Ht.
  unfold target_diagnostics. rewrite repeated_perm. destruct (repeated ts' t); [done|]. destruct (operation_graph t) as [g|].
  - unfold graph_diagnostics. rewrite (is_empty_perm _ _ (ambiguous_perm g)), missing_perm.
    destruct (reservable reserves t g); [|done]. cbn [negb]. destruct (is_empty (ambiguous_names ss' g)) eqn:Ea; cbn [negb].
    + destruct (is_empty (missing_names ss' g)) eqn:Em; cbn [negb]; [|done]. cbv zeta. rewrite concat_found_perm; [done|].
      rewrite inputs_single. change (concat _) with (ambiguous_names ss g).
      change (filter _ (input_names g)) with (missing_names ss g).
      by rewrite (is_empty_perm _ _ (ambiguous_perm g)), missing_perm, Ea, Em.
    + by rewrite (diagnostic_perm _ _ _ _ _ _ (ambiguous_perm g)).
  - unfold named_diagnostics. assert (Permutation (filter (wanted t) ss) (filter (wanted t) ss')) as Hp by (by rewrite Hs).
    destruct (filter (wanted t) ss) as [|s [|s' l]]; [by apply Permutation_nil_l in Hp as <-|
      by apply Permutation_singleton_l in Hp as <-|].
    pose proof (Permutation_length Hp) as Hl. destruct (filter (wanted t) ss') as [|x [|x' l']]; [done..|].
    f_equal. apply diagnostic_perm. by rewrite Hp.
Qed.

Lemma uses_perm s t : uses reserves ss ts s t <-> uses reserves ss' ts' s t.
Proof using Hs Ht. unfold uses. by rewrite chosen_perm. Qed.

Lemma users_perm s : Permutation (users reserves ss ts s) (users reserves ss' ts' s).
Proof using Hs Ht.
  unfold users. rewrite (list_filter_iff (uses reserves ss ts s) (uses reserves ss' ts' s)) by (intros t; apply uses_perm).
  by rewrite Ht.
Qed.

Lemma same_group_spec us : same_group us = true <-> us = [] \/ exists g, forall t, t ∈ us -> shared_source_group t = Some g.
Proof using Type.
  destruct us as [|first us]; cbn [same_group]; [split; [by left|done]|]. rewrite andb_true_iff, List.forallb_forall.
  setoid_rewrite <-list_elem_of_In. setoid_rewrite bool_decide_eq_true. split.
  - intros [Hg Hall]. right. destruct (shared_source_group first) as [g|]; [|done]. exists g. done.
  - intros [?|(g & Hg)]; [done|]. rewrite (Hg first) by (by left). split; [done|]. intros t Hin. by apply Hg.
Qed.

Lemma same_group_perm us vs : Permutation us vs -> same_group us = same_group vs.
Proof using Type.
  intros Hp. apply eq_true_iff_eq. rewrite !same_group_spec.
  assert (forall t, t ∈ us <-> t ∈ vs) as He by (intros t; by rewrite Hp). setoid_rewrite He. split; intros [->|?]; [|by right| |by right].
  - left. by apply Permutation_nil_l in Hp.
  - left. by apply Permutation_nil_r in Hp.
Qed.

Lemma concat_perm {A} (l k : list (list A)) : Permutation l k -> Permutation (concat l) (concat k).
Proof using Type.
  induction 1 as [|x l k _ IH|x y l|l k m _ IH1 _ IH2]; cbn [concat]; [done|by rewrite IH| |by rewrite IH1].
  rewrite !app_assoc. by rewrite (Permutation_app_comm x y).
Qed.

Lemma concat_map_perm {A B} (f g : A -> list B) l :
  (forall a, Permutation (f a) (g a)) -> Permutation (concat (map f l)) (concat (map g l)).
Proof using Type. intros Hfg. induction l as [|a l IH]; [done|]. cbn [map concat]. by apply Permutation_app. Qed.

Lemma conflict_diagnostics_perm s :
  Permutation (conflict_diagnostics reserves ss ts s) (conflict_diagnostics reserves ss' ts' s).
Proof using Hs Ht.
  unfold conflict_diagnostics. pose proof (users_perm s) as Hp. rewrite (same_group_perm _ _ Hp), (Permutation_length Hp).
  destruct (_ || _); [done|]. etrans; [apply Permutation_map, Hp|]. erewrite map_ext; [done|].
  intros t. apply diagnostic_perm. by rewrite Hp.
Qed.

Lemma unused_perm s : unused reserves ss ts s <-> unused reserves ss' ts' s.
Proof using Hs Ht.
  unfold unused. pose proof (users_perm s) as Hp. split; intros E; rewrite E in Hp;
    [by apply Permutation_nil_l in Hp|by apply Permutation_nil_r in Hp].
Qed.

Lemma many_perm {A} (name_of : A -> TensorName) l k a : Permutation l k -> many name_of l a <-> many name_of k a.
Proof using Type. intros Hp. unfold many. by rewrite Hp. Qed.

Lemma all_diagnostics_perm : canonical (all_diagnostics ss ts) = canonical (all_diagnostics ss' ts').
Proof using Hs Ht.
  apply canonical_perm. unfold all_diagnostics.
  repeat apply Permutation_app.
  - apply Permutation_map. rewrite (list_filter_iff _ (many source_name ss')) by (intros; by apply many_perm). by rewrite Hs.
  - apply Permutation_map. rewrite (list_filter_iff _ (many target_name ts')) by (intros; by apply many_perm). by rewrite Ht.
  - rewrite (map_ext _ _ target_diagnostics_perm). by apply concat_perm, Permutation_map.
  - etrans; [by apply concat_perm, Permutation_map|]. apply concat_map_perm, conflict_diagnostics_perm.
  - apply Permutation_map. rewrite (list_filter_iff _ (unused reserves ss' ts')) by (intros; apply unused_perm). by rewrite Hs.
Qed.
End Order.
End Analysis.

(** * Which plans are built

        [PlanBuilder::build] as a function of the chosen sources, and what the
    absence of error diagnostics says about a contract. *)

(** ** Distinct names *)

Section Names.
Context {A} (name_of : A -> TensorName).

Lemma many_cons a b l : many name_of l a -> many name_of (b :: l) a.
Proof using Type. unfold many. rewrite filter_cons. case_decide; cbn [length]; lia. Qed.

Lemma not_many_NoDup l : (forall a, a ∈ l -> ~ many name_of l a) -> NoDup (map name_of l).
Proof using Type.
  induction l as [|a l IH]; intros Hm; [constructor|]. cbn [map]. constructor.
  - intros (b & Hb & Hin)%list_elem_of_fmap. apply (Hm a); [by left|]. unfold many. rewrite filter_cons, decide_True by done.
    assert (b ∈ filter (named name_of (name_of a)) l) as Hf by (by apply list_elem_of_filter).
    destruct (filter _ l); [by apply elem_of_nil in Hf|]. cbn. lia.
  - apply IH. intros b Hb Hmb. apply (Hm b); [by right|]. by apply many_cons.
Qed.

Lemma NoDup_not_many l a : NoDup (map name_of l) -> ~ many name_of l a.
Proof using Type.
  induction l as [|b l IH]; [intros _ Hm; unfold many in Hm; cbn in Hm; lia|]. cbn [map]. intros [Hb Hd]%NoDup_cons. specialize (IH Hd). unfold many in *.
  rewrite filter_cons. case_decide as Hn; [|done]. rewrite filter_nil_none; [intros Hl; cbn in Hl; lia|].
  intros c Hc Hcn. apply Hb, list_elem_of_fmap. exists c. split; [|done]. unfold named in *. congruence.
Qed.

Lemma names_distinct_eq l a b : NoDup (map name_of l) -> a ∈ l -> b ∈ l -> name_of a = name_of b -> a = b.
Proof using Type.
  intros Hd [i Hi]%list_elem_of_lookup [j Hj]%list_elem_of_lookup Hn.
  assert (i = j) as ->; [|congruence]. apply (NoDup_lookup (map name_of l) i j (name_of a) Hd);
    change (map name_of l) with (name_of <$> l); rewrite list_lookup_fmap; [by rewrite Hi|by rewrite Hj, Hn].
Qed.

Lemma name_sorted l :
  StronglySorted (fun x y => ord_le (name_of x) (name_of y)) l -> NoDup (map name_of l) ->
  forall P `{!forall a, Decision (P a)}, canonical (map name_of (filter P l)) = map name_of (filter P l).
Proof using Type.
  intros Hs Hd P HP. apply sorted_lt_unique; [apply canonical_sorted| |apply canonical_elem].
  apply sorted_NoDup_lt.
  - clear Hd. induction Hs as [|a l _ IH Ha]; [constructor|]. rewrite filter_cons. case_decide; [|done]. cbn [map].
    constructor; [done|]. apply Forall_forall. intros n (b & -> & [_ Hb]%list_elem_of_filter)%list_elem_of_fmap.
    rewrite Forall_forall in Ha. by apply Ha.
  - clear Hs. induction l as [|a l IH]; [constructor|]. cbn [map] in Hd. apply NoDup_cons in Hd as [Ha Hd]. rewrite filter_cons.
    case_decide; [|by apply IH]. cbn [map]. constructor; [|by apply IH]. intros (b & Hb & [_ Hin]%list_elem_of_filter)%list_elem_of_fmap.
    apply Ha, list_elem_of_fmap. by exists b.
Qed.
End Names.

(** ** Contracts without errors *)

Definition no_error (ds : list PlanDiagnostic) : Prop := Forall (fun d => severity d <> Error) ds.

Lemma no_error_canonical ds : existsb is_error (canonical ds) = false <-> no_error ds.
Proof.
  unfold no_error. rewrite Forall_forall. split.
  - intros He d Hd Hs. assert (existsb is_error (canonical ds) = true); [|congruence]. apply existsb_exists. exists d.
    rewrite <-list_elem_of_In, canonical_elem. split; [done|]. by apply bool_decide_eq_true.
  - intros H. apply not_true_iff_false. intros (d & Hd & He)%existsb_exists. rewrite <-list_elem_of_In, canonical_elem in Hd.
    apply bool_decide_eq_true in He. by apply (H d).
Qed.

Section Contract.
Context (reserves : TargetTensor -> bool) (inputs : PlanInputs) (policy : ExtraSourcePolicy).
Context (sources : list SourceTensor) (targets : list TargetTensor).

#[local] Notation chosen := (chosen reserves sources targets).
#[local] Notation users := (users reserves sources targets).

Definition contract_ok : Prop := no_error (all_diagnostics reserves inputs policy sources targets).

Context (Hok : contract_ok).

Lemma contract_sources_distinct : NoDup (map source_name sources).
Proof using Hok.
  apply not_many_NoDup. intros s Hs Hm. unfold contract_ok, no_error, all_diagnostics in Hok. rewrite Forall_forall in Hok.
  apply (Hok (duplicate_of source_name DuplicateSource "inventory contains more than one tensor with this name" s)); [|done].
  rewrite !elem_of_app. left. apply list_elem_of_fmap. exists s. split; [done|]. by apply list_elem_of_filter.
Qed.

Lemma contract_targets_distinct : NoDup (map target_name targets).
Proof using Hok.
  apply not_many_NoDup. intros t Ht Hm. unfold contract_ok, no_error, all_diagnostics in Hok. rewrite Forall_forall in Hok.
  apply (Hok (duplicate_of target_name DuplicateTarget "contract contains more than one target with this name" t)); [|done].
  rewrite !elem_of_app. right. left. apply list_elem_of_fmap. exists t. split; [done|]. by apply list_elem_of_filter.
Qed.

Lemma contract_not_repeated t : repeated targets t = false.
Proof using Hok.
  pose proof (NoDup_not_many target_name targets t contract_targets_distinct) as H. unfold many in H. unfold repeated.
  apply Nat.ltb_ge. lia.
Qed.

Lemma contract_target t : t ∈ targets -> no_error (target_diagnostics reserves inputs sources targets t).
Proof using Hok.
  intros Ht. unfold contract_ok, no_error, all_diagnostics in *. rewrite !Forall_app, Forall_concat in Hok.
  destruct Hok as (_ & _ & H & _). rewrite Forall_forall in H. apply H, list_elem_of_fmap. by exists t.
Qed.

Lemma contract_conflict s : s ∈ sources -> no_error (conflict_diagnostics reserves sources targets s).
Proof using Hok.
  intros Hs. unfold contract_ok, no_error, all_diagnostics in *. rewrite !Forall_app, !Forall_concat in Hok.
  destruct Hok as (_ & _ & _ & H & _). rewrite Forall_forall in H. apply H, list_elem_of_fmap. by exists s.
Qed.

(** A target without a graph: it has its one candidate, or is optional and has
    none. *)
Lemma contract_named t : t ∈ targets -> operation_graph t = None ->
  (exists s, filter (wanted t) sources = [s] /\ chosen t = Some [s] /\ validate_binding inputs s t = Ok tt) \/
  (filter (wanted t) sources = [] /\ requirement t = Optional /\ chosen t = None).
Proof using Hok.
  intros Ht Hg. pose proof (contract_target t Ht) as H. unfold target_diagnostics, named_diagnostics in H.
  unfold PlannerSpecs.chosen, select_from. rewrite contract_not_repeated, Hg in *.
  destruct (filter (wanted t) sources) as [|s [|s' l]].
  - right. unfold missing_diagnostic in H. apply Forall_cons in H as [H _]. by destruct (requirement t).
  - left. exists s. split; [done|]. split; [done|]. unfold match_diagnostics in H.
    pose proof (validate_binding_not_Panic inputs s t). destruct (validate_binding inputs s t) as [[]|e|]; [done| |done].
    cbn [capture mbind result_bind] in H. apply Forall_app in H as [_ H]. apply Forall_app in H as [_ H].
    by apply Forall_cons in H as [H _].
  - by apply Forall_cons in H as [H _].
Qed.

(** A target with a graph: every input has its one source, or it is optional
    and an input has none. *)
Lemma contract_graph t g : t ∈ targets -> operation_graph t = Some g ->
  (exists ss, chosen t = Some ss /\ Forall2 (fun n s => found sources n = [s]) (input_names g) ss /\
     validate_operation_binding inputs ss t = Ok tt) \/
  (requirement t = Optional /\ chosen t = None /\ exists n, n ∈ input_names g /\ found sources n = []).
Proof using Hok.
  intros Ht Hg. pose proof (contract_target t Ht) as H. unfold target_diagnostics, graph_diagnostics in H.
  unfold PlannerSpecs.chosen, select_from. rewrite contract_not_repeated, Hg in *.
  destruct (reservable reserves t g); cbn [negb andb] in *; [|by apply Forall_cons in H as [H _]].
  pose proof (inputs_single sources (input_names g)) as Hs. change (concat _) with (ambiguous_names sources g) in Hs.
  change (filter _ (input_names g)) with (missing_names sources g) in Hs. rewrite Hs.
  destruct (is_empty (ambiguous_names sources g)); cbn [negb andb] in *; [|by apply Forall_cons in H as [H _]].
  destruct (is_empty (missing_names sources g)) eqn:Em; cbn [negb] in *.
  - left. eexists. split; [done|]. cbv zeta in H. split.
    + clear -Hs. induction (input_names g) as [|n ns IH]; [constructor|]. cbn [forallb] in Hs.
      apply andb_true_iff in Hs as [Hn Hs]. cbn [map concat]. destruct (found sources n) as [|s [|s' l]] eqn:E; [done| |done].
      cbn [app]. constructor; [done|by apply IH].
    + pose proof (validate_operation_binding_not_Panic inputs (concat (map (found sources) (input_names g))) t).
      destruct (validate_operation_binding inputs _ t) as [[]|e|]; [done| |done]. by apply Forall_cons in H as [H _].
  - right. unfold missing_diagnostic in H. apply Forall_cons in H as [H _]. destruct (requirement t); [done|].
    split; [done|]. split; [done|]. destruct (missing_names sources g) as [|n l] eqn:E; [done|]. exists n.
    assert (n ∈ missing_names sources g) as [? ?]%list_elem_of_filter by (rewrite E; by left). done.
Qed.

(** Targets that share a source are of one group. *)
Lemma contract_shared s t t' : s ∈ sources -> t ∈ users s -> t' ∈ users s -> t <> t' ->
  exists g, shared_source_group t = Some g /\ shared_source_group t' = Some g.
Proof using Hok.
  intros Hs Ht Ht' Hne. pose proof (contract_conflict s Hs) as H. unfold conflict_diagnostics in H.
  destruct (length (users s) <? 2)%nat eqn:El; cbn [orb] in H.
  { apply Nat.ltb_lt in El. destruct (users s) as [|u [|u' l]]; [by apply elem_of_nil in Ht| |cbn in El; lia].
    apply list_elem_of_singleton in Ht, Ht'. congruence. }
  destruct (same_group (users s)) eqn:E.
  - apply same_group_spec in E as [E|(g & Hg)]; [rewrite E in Ht; by apply elem_of_nil in Ht|]. exists g. by split; apply Hg.
  - destruct (users s) as [|u l]; [by apply elem_of_nil in Ht|]. by apply Forall_cons in H as [H _].
Qed.

(** Unused sources are an error unless they are allowed. *)
Lemma contract_extra s : s ∈ sources -> users s = [] -> policy = AllowExtra.
Proof using Hok.
  intros Hs Hu. unfold contract_ok, no_error, all_diagnostics in Hok. rewrite !Forall_app in Hok.
  destruct Hok as (_ & _ & _ & _ & H). rewrite Forall_forall in H. specialize (H (extra_of policy s)).
  destruct policy; [|done]. exfalso. apply H; [|done]. apply list_elem_of_fmap. exists s. split; [done|].
  by apply list_elem_of_filter.
Qed.
End Contract.
