(* ===== verification/PlannerBuild.v ===== *)
(** * The plan that is built, and plans read back *)

From S2P Require Import Prelude Errors Tensor Identity Order Representation Quantization.
From S2P Require Import Strides Facts Operation Graph Recipe Plan Planner PlannerSpecs.
From Stdlib Require Strings.String.
Local Open Scope N_scope.

(** ** Bindings *)

Section Bindings.
Context (reserves : TargetTensor -> bool) (sources : list SourceTensor) (targets : list TargetTensor).

#[local] Notation chosen := (chosen reserves sources targets).

(** The bindings of the targets, in order. *)
Definition bindings_of : list Binding :=
  omap (fun t => (fun ss => {| binding_sources := ss; binding_target := t |}) <$> chosen t) targets.

(** No binding is without sources. *)
Definition bound_nonempty : Prop := forall t, t ∈ targets -> chosen t <> Some [].

Lemma bindings_of_elem b :
  b ∈ bindings_of <-> binding_target b ∈ targets /\ chosen (binding_target b) = Some (binding_sources b).
Proof using Type.
  unfold bindings_of. rewrite list_elem_of_omap. split.
  - intros (t & Ht & Hb). destruct (chosen t) as [ss|] eqn:E; [|done]. by injection Hb as <-.
  - intros [Ht Hc]. exists (binding_target b). split; [done|]. rewrite Hc. by destruct b.
Qed.

Lemma bindings_of_names t : t ∈ map binding_target bindings_of -> t ∈ targets.
Proof using Type. intros (b & -> & Hb)%list_elem_of_fmap. by apply bindings_of_elem in Hb as [? _]. Qed.

Lemma bindings_of_sorted : StronglySorted target_le targets -> StronglySorted binding_le bindings_of.
Proof using Type.
  intros Hs. unfold bindings_of. generalize chosen. intros f. induction Hs as [|t l _ IH Ht]; [constructor|]. csimpl.
  destruct (f t) as [ss|]; csimpl; [|done]. constructor; [done|]. apply Forall_forall.
  intros b (t' & Ht' & E)%list_elem_of_omap. destruct (f t'); [|done]. injection E as <-. rewrite Forall_forall in Ht.
  by apply Ht.
Qed.

Context (Hd : NoDup (map target_name targets)).

Lemma bindings_of_distinct : NoDup (map (fun b => target_name (binding_target b)) bindings_of).
Proof using Hd.
  unfold bindings_of. clear -Hd. generalize chosen. intros f. induction targets as [|t l IH]; [constructor|].
  cbn [map] in Hd. apply NoDup_cons in Hd as [Ht Hd']. csimpl. destruct (f t) as [ss|]; csimpl; [|by apply IH].
  constructor; [|by apply IH]. intros (b & Hb & Hin)%list_elem_of_fmap. apply Ht, list_elem_of_fmap.
  apply list_elem_of_omap in Hin as (t' & Ht' & E). destruct (f t'); [|done]. injection E as <-. by exists t'.
Qed.

Lemma make_binding_spec k indices : target_matches reserves sources targets !! k = Some indices ->
  exists t ss, targets !! k = Some t /\ chosen t = Some ss /\
    make_binding sources targets (k, indices) = Binding_new ss t.
Proof using Type.
  intros (t & Ht & Hc)%target_matches_lookup. pose proof (chosen_at_spec reserves sources targets t) as Hs. rewrite Hc in Hs.
  destruct Hs as (ss & Hss & Hm). exists t, ss. split; [done|]. split; [done|]. unfold make_binding. rewrite Hm.
  cbn [mbind result_bind]. unfold index. by rewrite Ht.
Qed.

Lemma make_bindings_Ok bs :
  try_map (make_binding sources targets) (btree_list (target_matches reserves sources targets)) = Ok bs ->
  bound_nonempty /\ Permutation bs bindings_of.
Proof using Hd.
  intros Hm%try_map_Ok.
  assert (forall k indices b, (k, indices) ∈ btree_list (target_matches reserves sources targets) ->
    make_binding sources targets (k, indices) = Ok b ->
    targets !! k = Some (binding_target b) /\ chosen (binding_target b) = Some (binding_sources b) /\ binding_sources b <> []) as Hmake.
  { intros k indices b Hin%btree_list_elem Hb. destruct (make_binding_spec k indices Hin) as (t & ss & Ht & Hc & E).
    rewrite E in Hb. unfold Binding_new in Hb. apply bind_Ok in Hb as ([] & He%reject_Ok & [= <-]). by destruct ss. }
  assert (forall b, b ∈ bs <-> b ∈ bindings_of) as Hel.
  { intros b. rewrite bindings_of_elem. split.
    - intros [i Hi]%list_elem_of_lookup. destruct (Forall2_lookup_r _ _ _ _ _ Hm Hi) as ([k indices] & Hk & Hb).
      apply list_elem_of_lookup_2 in Hk. destruct (Hmake k indices b Hk Hb) as (Ht & Hc & _).
      split; [by eapply list_elem_of_lookup_2|done].
    - intros [[k Hk]%list_elem_of_lookup Hc]. pose proof (chosen_at_spec reserves sources targets (binding_target b)) as Hs.
      destruct (chosen_at reserves sources targets (binding_target b)) as [indices|] eqn:E; [|congruence].
      assert ((k, indices) ∈ btree_list (target_matches reserves sources targets)) as Hin.
      { apply btree_list_elem, target_matches_lookup. by exists (binding_target b). }
      pose proof Hin as [i Hi]%list_elem_of_lookup. destruct (Forall2_lookup_l _ _ _ _ _ Hm Hi) as (b' & Hb' & Hmk).
      destruct (Hmake k indices b' Hin Hmk) as (Ht & Hc' & _). assert (b' = b) as <-; [|by eapply list_elem_of_lookup_2].
      destruct b, b'; cbn in *. congruence. }
  split.
  - intros t [k Hk]%list_elem_of_lookup Hc. pose proof (chosen_at_spec reserves sources targets t) as Hs.
    destruct (chosen_at reserves sources targets t) as [indices|] eqn:E; [|congruence].
    assert ((k, indices) ∈ btree_list (target_matches reserves sources targets)) as Hin.
    { apply btree_list_elem, target_matches_lookup. by exists t. }
    pose proof Hin as [i Hi]%list_elem_of_lookup. destruct (Forall2_lookup_l _ _ _ _ _ Hm Hi) as (b' & _ & Hmk).
    destruct (Hmake k indices b' Hin Hmk) as (Ht & Hc' & Hne). congruence.
  - apply NoDup_Permutation; [|by eapply (NoDup_fmap_1 (fun b => target_name (binding_target b))), bindings_of_distinct|done].
    apply NoDup_alt. intros i j b Hi Hj. destruct (Forall2_lookup_r _ _ _ _ _ Hm Hi) as ([k1 is1] & Hk1 & Hb1).
    destruct (Forall2_lookup_r _ _ _ _ _ Hm Hj) as ([k2 is2] & Hk2 & Hb2).
    destruct (Hmake _ _ _ (list_elem_of_lookup_2 _ _ _ Hk1) Hb1) as (Ht1 & _).
    destruct (Hmake _ _ _ (list_elem_of_lookup_2 _ _ _ Hk2) Hb2) as (Ht2 & _).
    apply (NoDup_lookup (map fst (btree_list (target_matches reserves sources targets))) i j k1 (btree_list_NoDup _));
      change (map fst ?l) with (fst <$> l); rewrite list_lookup_fmap; [by rewrite Hk1|]. rewrite Hk2. cbn. f_equal.
    symmetry. apply (NoDup_lookup (map target_name targets) k1 k2 (target_name (binding_target b)) Hd);
      change (map target_name ?l) with (target_name <$> l); rewrite list_lookup_fmap; [by rewrite Ht1|by rewrite Ht2].
Qed.

Lemma make_bindings_total : bound_nonempty -> exists bs,
  try_map (make_binding sources targets) (btree_list (target_matches reserves sources targets)) = Ok bs.
Proof using Type.
  intros Hne. apply try_map_total. intros [k indices] Hin%btree_list_elem.
  destruct (make_binding_spec k indices Hin) as (t & ss & Ht & Hc & ->). unfold Binding_new.
  destruct ss as [|s ss]; [|by eexists]. destruct (Hne t); [by eapply list_elem_of_lookup_2|done].
Qed.

Lemma make_bindings_fail l :
  (forall k indices, (k, indices) ∈ l -> target_matches reserves sources targets !! k = Some indices) ->
  match try_map (make_binding sources targets) l with Ok _ => True | Err e => e = Errors.Binding | Panic => False end.
Proof using Type.
  induction l as [|[k indices] l IH]; intros Hl; [done|]. cbn [try_map].
  destruct (make_binding_spec k indices (Hl k indices ltac:(by left))) as (t & ss & _ & _ & ->). unfold Binding_new.
  destruct (is_empty ss); [done|]. cbn [reject mbind result_bind].
  specialize (IH (fun k' is' Hin => Hl k' is' (list_elem_of_further _ _ _ Hin))). by destruct (try_map _ l).
Qed.

Lemma make_bindings_not_Panic :
  try_map (make_binding sources targets) (btree_list (target_matches reserves sources targets)) <> Panic.
Proof using Type.
  intros E. pose proof (make_bindings_fail (btree_list (target_matches reserves sources targets))) as H. rewrite E in H.
  apply H. intros k indices. by apply btree_list_elem.
Qed.

Lemma make_bindings_Err e :
  try_map (make_binding sources targets) (btree_list (target_matches reserves sources targets)) = Err e -> e = Errors.Binding.
Proof using Type.
  intros E. pose proof (make_bindings_fail (btree_list (target_matches reserves sources targets))) as H. rewrite E in H.
  apply H. intros k indices. by apply btree_list_elem.
Qed.
End Bindings.

(** ** Building *)

Section Building.
Context (reserves : TargetTensor -> bool) (sha256 : bytes -> bytes) (write_json : PlanPayload -> result bytes).

(** What a plan leaves unbound, and the sources it does not use. *)
Definition missing_of (sources : list SourceTensor) (targets : list TargetTensor) : list TensorName :=
  map target_name (filter (fun t => requirement t = Optional /\ chosen reserves sources targets t = None) targets).

Definition unused_of (sources : list SourceTensor) (targets : list TargetTensor) : list TensorName :=
  map source_name (filter (unused reserves sources targets) sources).

Definition identity_of (inputs : PlanInputs) (policy : ExtraSourcePolicy) (sources : list SourceTensor)
    (targets : list TargetTensor) : PlanPayload :=
  PlanIdentityPayload PLAN_SCHEMA_VERSION inputs sources targets policy (bindings_of reserves sources targets)
    (missing_of sources targets) (unused_of sources targets).

(** The plan of sorted sources and targets. *)
Definition plan_of (inputs : PlanInputs) (policy : ExtraSourcePolicy) (sources : list SourceTensor)
    (targets : list TargetTensor) (id : PlanId) : BindingPlan :=
  {| plan_schema := PLAN_SCHEMA_VERSION; plan_id := id; plan_inputs := inputs; plan_sources := sources;
     plan_targets := targets; extra_source_policy := policy; plan_bindings := bindings_of reserves sources targets;
     missing_optional := missing_of sources targets; plan_unused := unused_of sources targets |}.

Lemma binding_le_names x y : binding_le x y -> binding_le y x -> target_name (binding_target x) = target_name (binding_target y).
Proof using Type. intros Hx Hy. by apply (anti_symm ord_le). Qed.

Lemma optional_unbound_spec sources targets t :
  NoDup (map target_name targets) -> t ∈ targets ->
  optional_unbound (bindings_of reserves sources targets) t = true <->
  requirement t = Optional /\ chosen reserves sources targets t = None.
Proof using Type.
  intros Hd Ht. unfold optional_unbound. rewrite andb_true_iff, bool_decide_eq_true, negb_true_iff. apply and_iff_compat_l.
  rewrite <-not_true_iff_false, existsb_exists. setoid_rewrite bool_decide_eq_true. setoid_rewrite <-list_elem_of_In. split.
  - intros Hn. destruct (chosen reserves sources targets t) as [ss|] eqn:E; [|done]. destruct Hn.
    exists {| binding_sources := ss; binding_target := t |}. split; [|done]. by apply bindings_of_elem.
  - intros Hn (b & [Hb Hc]%bindings_of_elem & Hname). rewrite (names_distinct_eq target_name targets (binding_target b) t) in Hc;
      [congruence|done..].
Qed.

Section Sorted.
Context (b : PlanBuilder).
Let sources := merge_sort source_le (builder_sources b).
Let targets := merge_sort target_le (builder_targets b).

Lemma missing_spec : NoDup (map target_name targets) ->
  canonical (map target_name (List.filter (optional_unbound (bindings_of reserves sources targets)) targets)) =
  missing_of sources targets.
Proof using Type.
  intros Hd. unfold missing_of. rewrite <-(name_sorted target_name targets) by
    (try done; apply (StronglySorted_merge_sort target_le)).
  f_equal. f_equal. assert (forall l, l ⊆ targets -> List.filter (optional_unbound (bindings_of reserves sources targets)) l =
    filter (fun t => requirement t = Optional /\ chosen reserves sources targets t = None) l) as H; [|by apply H].
  induction l as [|t l IH]; intros Hl; [done|]. cbn [List.filter]. rewrite filter_cons, IH by set_solver.
  pose proof (optional_unbound_spec sources targets t Hd ltac:(set_solver)) as Ho. case_decide as Hc.
  - by rewrite (proj2 Ho Hc).
  - destruct (optional_unbound _ t); [by destruct Hc; apply Ho|done].
Qed.

Lemma unused_spec : NoDup (map source_name sources) ->
  canonical (map source_name (filter (unused reserves sources targets) sources)) = unused_of sources targets.
Proof using Type.
  intros Hd. apply (name_sorted source_name sources); [|done]. apply (StronglySorted_merge_sort source_le).
Qed.

Lemma PlanBuilder_build_Ok p :
  PlanBuilder_build reserves sha256 write_json b = Ok p <->
  contract_ok reserves (builder_inputs b) (builder_policy b) sources targets /\
  bound_nonempty reserves sources targets /\
  exists id, compute_plan_id sha256 write_json (identity_of (builder_inputs b) (builder_policy b) sources targets) = Ok id /\
    p = plan_of (builder_inputs b) (builder_policy b) sources targets id.
Proof using Type.
  unfold PlanBuilder_build. cbv zeta. fold sources targets. rewrite resolve_bindings_spec. cbn [mbind result_bind diagnostics matches unused_sources].
  rewrite bind_Ok. setoid_rewrite reject_Ok. setoid_rewrite no_error_canonical.
  fold (contract_ok reserves (builder_inputs b) (builder_policy b) sources targets).
  assert (contract_ok reserves (builder_inputs b) (builder_policy b) sources targets ->
    forall bs, Permutation bs (bindings_of reserves sources targets) -> merge_sort binding_le bs = bindings_of reserves sources targets) as Hsort.
  { intros Hok bs Hp. pose proof (contract_targets_distinct _ _ _ _ _ Hok) as Hd.
    rewrite (merge_sort_distinct_unique binding_le (fun x => target_name (binding_target x)) binding_le_names bs _ Hp)
      by (by apply bindings_of_distinct).
    apply (merge_sort_distinct_id binding_le (fun x => target_name (binding_target x)) binding_le_names);
      [|by apply bindings_of_distinct].
    apply bindings_of_sorted, (StronglySorted_merge_sort target_le). }
  split.
  - intros ([] & Hok & H). apply bind_Ok in H as (bs & Hbs & H). apply make_bindings_Ok in Hbs as [Hne Hp];
      [|by eapply contract_targets_distinct].
    rewrite (Hsort Hok bs Hp), missing_spec in H by (by eapply contract_targets_distinct).
    rewrite names_at_filter in H. cbn [mbind result_bind] in H. rewrite unused_spec in H by (by eapply contract_sources_distinct).
    apply bind_Ok in H as (id & Hid & [= <-]). split; [done|]. split; [done|]. by exists id.
  - intros (Hok & Hne & id & Hid & ->). exists tt. split; [done|].
    destruct (make_bindings_total reserves sources targets Hne) as [bs Hbs]. rewrite Hbs. cbn [mbind result_bind].
    apply make_bindings_Ok in Hbs as [_ Hp]; [|by eapply contract_targets_distinct].
    rewrite (Hsort Hok bs Hp), missing_spec by (by eapply contract_targets_distinct).
    rewrite names_at_filter. cbn [mbind result_bind]. rewrite unused_spec by (by eapply contract_sources_distinct).
    unfold identity_of in Hid. by rewrite Hid.
Qed.

(** Any other contract is refused with a binding error, when the writer works. *)
Lemma PlanBuilder_build_total : (forall v, exists bs, write_json v = Ok bs) ->
  (exists p, PlanBuilder_build reserves sha256 write_json b = Ok p) \/
  PlanBuilder_build reserves sha256 write_json b = Err Errors.Binding.
Proof using Type.
  intros Hw. unfold PlanBuilder_build. cbv zeta. fold sources targets. rewrite resolve_bindings_spec.
  cbn [mbind result_bind diagnostics matches unused_sources]. destruct (existsb is_error _); [by right|].
  cbn [reject mbind result_bind]. destruct (try_map _ _) as [bs|e|] eqn:E; cbn [mbind result_bind].
  - left. rewrite names_at_filter. cbn [mbind result_bind]. unfold compute_plan_id, canonical_json.
    match goal with |- context [write_json ?v] => destruct (Hw v) as [text ->] end. by eexists.
  - right. f_equal. by apply make_bindings_Err in E.
  - by apply make_bindings_not_Panic in E.
Qed.
End Sorted.
End Building.

(** ** The parts of a plan *)

Section Parts.
Context (reserves : TargetTensor -> bool) (inputs : PlanInputs) (policy : ExtraSourcePolicy).
Context (sources : list SourceTensor) (targets : list TargetTensor).
Context (Hok : contract_ok reserves inputs policy sources targets).

#[local] Notation chosen := (chosen reserves sources targets).

(** A target is bound, or optional with nothing to bind. *)
Lemma contract_chosen t : t ∈ targets -> (exists ss, chosen t = Some ss) \/ (requirement t = Optional /\ chosen t = None).
Proof using Hok.
  intros Ht. destruct (operation_graph t) as [g|] eqn:Hg.
  - destruct (contract_graph _ _ _ _ _ Hok t g Ht Hg) as [(ss & Hc & _)|(Hr & Hc & _)]; [left; by exists ss|by right].
  - destruct (contract_named _ _ _ _ _ Hok t Ht Hg) as [(s & _ & Hc & _)|(_ & Hr & Hc)]; [left; by exists [s]|by right].
Qed.

Lemma plan_target t : t ∈ targets ->
  (exists x, x ∈ bindings_of reserves sources targets /\ binding_target x = t /\
     forall y, y ∈ bindings_of reserves sources targets -> target_name (binding_target y) = target_name t -> y = x) \/
  (requirement t = Optional /\ target_name t ∈ missing_of reserves sources targets /\
     forall y, y ∈ bindings_of reserves sources targets -> target_name (binding_target y) <> target_name t).
Proof using Hok.
  intros Ht. pose proof (contract_targets_distinct _ _ _ _ _ Hok) as Hd.
  assert (forall y, y ∈ bindings_of reserves sources targets -> target_name (binding_target y) = target_name t -> binding_target y = t) as Huniq.
  { intros y [Hy _]%bindings_of_elem Hn. by apply (names_distinct_eq target_name targets). }
  destruct (contract_chosen t Ht) as [[ss Hc]|[Hr Hc]].
  - left. exists {| binding_sources := ss; binding_target := t |}. split; [by apply bindings_of_elem|]. split; [done|].
    intros y Hy Hn. pose proof (Huniq y Hy Hn) as E. apply bindings_of_elem in Hy as [_ Hyc]. destruct y; cbn in *. congruence.
  - right. split; [done|]. split.
    + apply list_elem_of_fmap. exists t. split; [done|]. by apply list_elem_of_filter.
    + intros y Hy Hn. pose proof (Huniq y Hy Hn) as E. apply bindings_of_elem in Hy as [_ Hyc]. congruence.
Qed.

Lemma plan_binding x : bound_nonempty reserves sources targets -> x ∈ bindings_of reserves sources targets ->
  binding_target x ∈ targets /\ binding_sources x <> [] /\ (forall s, s ∈ binding_sources x -> s ∈ sources) /\
  match operation_graph (binding_target x) with
  | None => exists s, binding_sources x = [s] /\ wanted (binding_target x) s /\
      (forall s', s' ∈ sources -> wanted (binding_target x) s' -> s' = s) /\
      validate_binding inputs s (binding_target x) = Ok tt
  | Some g => map source_name (binding_sources x) = input_names g /\
      validate_operation_binding inputs (binding_sources x) (binding_target x) = Ok tt
  end.
Proof using Hok.
  intros Hne [Ht Hc]%bindings_of_elem. split; [done|]. split; [intros E; apply (Hne _ Ht); by rewrite Hc, E|]. split.
  { intros s Hs. pose proof (chosen_found reserves sources targets _ _ _ Hc Hs) as Hf.
    assert (s ∈ found sources (source_name s)) as [_ ?]%list_elem_of_filter by (rewrite Hf; by left). done. }
  destruct (operation_graph (binding_target x)) as [g|] eqn:Hg.
  - destruct (contract_graph _ _ _ _ _ Hok _ g Ht Hg) as [(ss & Hc' & Hf & Hv)|(_ & Hc' & _)]; [|congruence].
    assert (ss = binding_sources x) as <- by congruence. split; [|done]. clear -Hf.
    induction Hf as [|n s ns ss Hn _ IH]; [done|]. cbn [map]. f_equal; [|done].
    assert (s ∈ found sources n) as [? _]%list_elem_of_filter by (rewrite Hn; by left). done.
  - destruct (contract_named _ _ _ _ _ Hok _ Ht Hg) as [(s & Hf & Hc' & Hv)|(_ & _ & Hc')]; [|congruence].
    assert (binding_sources x = [s]) as E by congruence. exists s. split; [done|]. split_and!; [| |done].
    + assert (s ∈ filter (wanted (binding_target x)) sources) as [? _]%list_elem_of_filter by (rewrite Hf; by left). done.
    + intros s' Hin Hw. assert (s' ∈ filter (wanted (binding_target x)) sources) as Hin' by (by apply list_elem_of_filter).
      rewrite Hf in Hin'. by apply list_elem_of_singleton in Hin'.
Qed.
End Parts.

(** * Targets and plans read back *)

(** ** Targets *)

Definition target_valid (t : TargetTensor) : Prop := TargetTensor_try_from t = Ok t.

(** The builder that the reader of a wire target fills. *)
Definition wire_builder (w : TargetTensor) : TargetTensorBuilder :=
  {| given_name := target_name w; given_aliases := target_aliases w; given_requirement := requirement w;
     given_source_shape := target_source_shape w; given_shape := target_shape w;
     given_storage_shape := Some (target_storage_shape w); given_logical_strides := Some (target_logical_strides w);
     given_storage_strides := Some (target_storage_strides w); given_representation := target_representation w;
     given_transforms := transforms w; given_graph := operation_graph w; given_route := quantized_route w;
     given_recipe := conversion_recipe w; given_output_size := target_output_size w;
     given_group := shared_source_group w |}.

Lemma TargetTensor_try_from_builder w : TargetTensor_try_from w = TargetTensor_build (wire_builder w).
Proof.
  destruct w as [n a r so sh ss ls st rep ts g q c o gr]. unfold TargetTensor_try_from, wire_builder. f_equal. cbn.
  by destruct g, q, c, gr.
Qed.

(** A target that is built reads back as itself. *)
Lemma TargetTensor_build_valid b t : TargetTensor_build b = Ok t -> target_valid t.
Proof.
  unfold target_valid. rewrite TargetTensor_try_from_builder. intros H. unfold TargetTensor_build in H |- *. cbv zeta in H |- *.
  apply bind_Ok in H as (ls & _ & H). apply bind_Ok in H as (st & _ & H).
  repeat match type of H with
  | (reject _ _ ≫= _) = Ok _ => let G := fresh "G" in apply bind_Ok in H as ([] & G & H)
  | (?m ≫= _) = Ok _ => let G := fresh "G" in let x := fresh "x" in apply bind_Ok in H as (x & G & H)
  end.
  injection H as <-. cbn [wire_builder given_name given_aliases given_requirement given_source_shape given_shape
    given_storage_shape given_logical_strides given_storage_strides given_representation given_transforms given_graph
    given_route given_recipe given_output_size given_group target_name target_aliases requirement target_source_shape
    target_shape target_storage_shape target_logical_strides target_storage_strides target_representation transforms
    operation_graph quantized_route conversion_recipe target_output_size shared_source_group from_option default id
    mbind result_bind mret result_ret].
  rewrite sort_unstable_id by apply sort_unstable_sorted.
  repeat match goal with
  | G : ?m = Ok _ |- context [?m ≫= _] => rewrite G; cbn [mbind result_bind]
  end. reflexivity.
Qed.

Lemma TargetTensor_try_from_Ok w t : TargetTensor_try_from w = Ok t -> target_valid t.
Proof. rewrite TargetTensor_try_from_builder. apply TargetTensor_build_valid. Qed.

(** ** Names in order *)

Lemma validate_sorted_unique_Ok l : forall previous,
  validate_sorted_unique previous l = Ok tt <->
  StronglySorted ord_lt l /\ match previous with Some p => Forall (ord_lt p) l | None => True end.
Proof.
  induction l as [|n l IH]; intros previous; cbn [validate_sorted_unique].
  { split; [intros _; split; [constructor|by destruct previous]|done]. }
  rewrite bind_Ok. setoid_rewrite reject_Ok. setoid_rewrite IH. split.
  - intros ([] & Hp & Hs & Hn). split; [by constructor|]. destruct previous as [p|]; [|done].
    apply bool_decide_eq_false in Hp. assert (ord_lt p n) as Hpn.
    { destruct (ord_trichotomy p n) as [?|[->|?]]; [done|destruct Hp; by left|destruct Hp; by right]. }
    constructor; [done|]. eapply Forall_impl; [exact Hn|]. intros m Hm. by trans n.
  - intros [Hs Hp]. exists tt. apply StronglySorted_inv in Hs as [Hs Hn]. split; [|done]. destruct previous as [p|]; [|done].
    apply bool_decide_eq_false. apply Forall_cons in Hp as [Hp _]. intros [->|Hnp]; [exact (ord_lt_irrefl _ Hp)|].
    exact (ord_lt_irrefl _ (transitivity Hp Hnp)).
Qed.

Lemma names_sorted {A} (name_of : A -> TensorName) l :
  StronglySorted (fun x y => ord_le (name_of x) (name_of y)) l -> NoDup (map name_of l) -> StronglySorted ord_lt (map name_of l).
Proof.
  intros Hs Hd. apply sorted_NoDup_lt; [|done]. clear Hd. induction Hs as [|a l _ IH Ha]; [constructor|]. cbn [map].
  constructor; [done|]. apply Forall_forall. intros n (b & -> & Hb)%list_elem_of_fmap. rewrite Forall_forall in Ha. by apply Ha.
Qed.

Lemma sorted_names {A} (name_of : A -> TensorName) l :
  StronglySorted ord_lt (map name_of l) ->
  StronglySorted (fun x y => ord_le (name_of x) (name_of y)) l /\ NoDup (map name_of l).
Proof.
  intros Hs. split; [|by apply ord_lt_NoDup in Hs as [? _]]. induction l as [|a l IH]; [constructor|].
  cbn [map] in Hs. apply StronglySorted_inv in Hs as [Hs Ha]. constructor; [by apply IH|]. apply Forall_forall. intros b Hb.
  rewrite Forall_forall in Ha. right. apply Ha, list_elem_of_fmap. by exists b.
Qed.

(** ** Plans *)

Section Plans.
Context (reserves : TargetTensor -> bool) (sha256 : bytes -> bytes) (write_json : PlanPayload -> result bytes).

(** The builder that rebuilds a plan. *)
Definition plan_replay (p : BindingPlan) : PlanBuilder :=
  {| builder_inputs := plan_inputs p; builder_sources := plan_sources p; builder_targets := plan_targets p;
     builder_policy := extra_source_policy p |}.

(** A plan that planning again returns, of valid parts. *)
Record plan_valid (p : BindingPlan) : Prop := {
  plan_replays : PlanBuilder_build reserves sha256 write_json (plan_replay p) = Ok p;
  plan_sources_valid : Forall source_valid (plan_sources p);
  plan_targets_valid : Forall target_valid (plan_targets p)
}.

Lemma source_le_names x y : source_le x y -> source_le y x -> source_name x = source_name y.
Proof using Type. intros Hx Hy. by apply (anti_symm ord_le). Qed.
Lemma target_le_names x y : target_le x y -> target_le y x -> target_name x = target_name y.
Proof using Type. intros Hx Hy. by apply (anti_symm ord_le). Qed.

(** Sources and targets in another order give the same plan. *)
Lemma PlanBuilder_build_perm b b' p :
  builder_inputs b = builder_inputs b' -> builder_policy b = builder_policy b' ->
  Permutation (builder_sources b) (builder_sources b') -> Permutation (builder_targets b) (builder_targets b') ->
  PlanBuilder_build reserves sha256 write_json b = Ok p -> PlanBuilder_build reserves sha256 write_json b' = Ok p.
Proof using Type.
  intros Hi Hp Hs Ht H. pose proof H as (Hok & _)%PlanBuilder_build_Ok.
  pose proof (contract_sources_distinct _ _ _ _ _ Hok) as Hds. pose proof (contract_targets_distinct _ _ _ _ _ Hok) as Hdt.
  rewrite (merge_sort_Permutation source_le (builder_sources b)), Hs in Hds.
  rewrite (merge_sort_Permutation target_le (builder_targets b)), Ht in Hdt.
  unfold PlanBuilder_build in H |- *. rewrite <-Hi, <-Hp.
  rewrite <-(merge_sort_distinct_unique source_le source_name source_le_names _ _ Hs Hds).
  by rewrite <-(merge_sort_distinct_unique target_le target_name target_le_names _ _ Ht Hdt).
Qed.

Lemma PlanBuilder_build_valid b p :
  PlanBuilder_build reserves sha256 write_json b = Ok p ->
  Forall source_valid (builder_sources b) -> Forall target_valid (builder_targets b) -> plan_valid p.
Proof using Type.
  intros H Hs Ht. pose proof H as (_ & _ & id & _ & E)%PlanBuilder_build_Ok. split.
  - eapply PlanBuilder_build_perm; [..|exact H]; rewrite E; cbn [plan_replay plan_of builder_inputs builder_policy
      builder_sources builder_targets plan_inputs plan_sources plan_targets extra_source_policy]; try done;
      by rewrite merge_sort_Permutation.
  - rewrite E. cbn [plan_of plan_sources]. by rewrite (merge_sort_Permutation source_le).
  - rewrite E. cbn [plan_of plan_targets]. by rewrite (merge_sort_Permutation target_le).
Qed.

Lemma chosen_elem sources targets t ss s :
  chosen reserves sources targets t = Some ss -> s ∈ ss -> s ∈ sources.
Proof using Type.
  intros Hc Hs. pose proof (chosen_found reserves sources targets t ss s Hc Hs) as Hf.
  assert (s ∈ found sources (source_name s)) as [_ ?]%list_elem_of_filter by (rewrite Hf; by left). done.
Qed.

(** The parts of a valid plan. *)
Lemma plan_valid_parts p : plan_valid p ->
  plan_schema p = PLAN_SCHEMA_VERSION /\
  StronglySorted ord_lt (map source_name (plan_sources p)) /\ StronglySorted ord_lt (map target_name (plan_targets p)) /\
  StronglySorted ord_lt (map (fun b => target_name (binding_target b)) (plan_bindings p)) /\
  StronglySorted ord_lt (missing_optional p) /\ StronglySorted ord_lt (plan_unused p) /\
  Forall (fun b => read_binding b = Ok b) (plan_bindings p).
Proof using Type.
  intros [Hr Hsv Htv]. pose proof Hr as (Hok & Hne & id & _ & E)%PlanBuilder_build_Ok.
  pose proof (contract_sources_distinct _ _ _ _ _ Hok) as Hds. pose proof (contract_targets_distinct _ _ _ _ _ Hok) as Hdt.
  pose proof (f_equal plan_sources E) as Es. pose proof (f_equal plan_targets E) as Et.
  cbn [plan_of plan_sources plan_targets plan_replay builder_sources builder_targets] in Es, Et, Hok, Hds, Hdt.
  pose proof (StronglySorted_merge_sort source_le (plan_sources p)) as Hss. pose proof (StronglySorted_merge_sort target_le (plan_targets p)) as Hst.
  cbn [plan_replay builder_sources builder_targets builder_inputs builder_policy] in E, Hne.
  rewrite <-Es in E, Hne, Hds, Hss. rewrite <-Et in E, Hne, Hdt, Hst.
  assert (plan_bindings p = bindings_of reserves (plan_sources p) (plan_targets p)) as Eb by apply (f_equal plan_bindings E).
  split_and!; [by rewrite E|by apply names_sorted..| | | |].
  - rewrite Eb. apply names_sorted; [by apply bindings_of_sorted|by apply bindings_of_distinct].
  - assert (missing_optional p = missing_of reserves (plan_sources p) (plan_targets p)) as -> by apply (f_equal missing_optional E).
    unfold missing_of. rewrite <-(name_sorted target_name _ Hst Hdt). apply canonical_sorted.
  - assert (plan_unused p = unused_of reserves (plan_sources p) (plan_targets p)) as -> by apply (f_equal plan_unused E).
    unfold unused_of. rewrite <-(name_sorted source_name _ Hss Hds). apply canonical_sorted.
  - apply Forall_forall. intros b Hb. rewrite Eb in Hb. apply bindings_of_elem in Hb as [Hbt Hbc]. unfold read_binding.
    rewrite Forall_forall in Hsv. rewrite Forall_forall in Htv. rewrite try_map_id.
    + cbn [mbind result_bind]. rewrite (Htv _ Hbt). cbn [mbind result_bind]. unfold Binding_try_from, Binding_new. cbn.
      pose proof (Hne _ Hbt) as Hn. rewrite Hbc in Hn. destruct b as [[|s ss] t]; [done|done].
    + apply Forall_forall. intros s Hs. apply Hsv. by eapply chosen_elem.
Qed.

Lemma read_plan_valid p : plan_valid p -> read_plan p = Ok p.
Proof using Type.
  intros Hp. pose proof Hp as [_ Hs Ht]. pose proof (plan_valid_parts p Hp) as (_ & _ & _ & _ & _ & _ & Hb).
  unfold read_plan. rewrite (try_map_id _ _ Hs). cbn [mbind result_bind]. rewrite (try_map_id _ _ Ht). cbn [mbind result_bind].
  rewrite (try_map_id _ _ Hb). cbn [mbind result_bind]. by destruct p.
Qed.

Lemma read_plan_parts w p : read_plan w = Ok p ->
  Forall source_valid (plan_sources p) /\ Forall target_valid (plan_targets p).
Proof using Type.
  unfold read_plan. intros (ss & Hs%try_map_Ok & H)%bind_Ok. apply bind_Ok in H as (ts & Ht%try_map_Ok & H).
  apply bind_Ok in H as (bs & _ & [= <-]). cbn [plan_sources plan_targets]. split.
  - clear -Hs. induction Hs as [|w0 s ? ? Hx _ IH]; constructor; [|done]. by apply SourceTensor_try_from_Ok in Hx as [_ ?].
  - clear -Ht. induction Ht as [|w0 t ? ? Hx _ IH]; constructor; [|done]. by apply TargetTensor_try_from_Ok in Hx.
Qed.

(** Replaying a wire plan. *)
Lemma plan_replay_settings w :
  foldl apply_plan_setting (plan_builder (plan_inputs w))
    [ExtendSources (plan_sources w); ExtendTargets (plan_targets w); SetPolicy (extra_source_policy w)] = plan_replay w.
Proof using Type. done. Qed.

(** The texts of plans: exactly the canonical texts of valid plans are read. *)
Lemma from_canonical_json_Ok parse bs p :
  from_canonical_json reserves sha256 write_json parse bs = Ok p <->
  plan_valid p /\ canonical_json write_json (BindingPlanPayload p) = Ok bs /\
  exists w, parse bs = Some w /\ read_plan w = Ok p.
Proof using Type.
  unfold from_canonical_json. rewrite bind_Ok. split.
  - intros (w & Hw%ok_or_Ok & H). apply bind_Ok in H as (r & Hr & H).
    assert (read_plan w = Ok r) as Hread by (by destruct (read_plan w); congruence). clear Hr.
    apply bind_Ok in H as (c & Hc & H). apply bind_Ok in H as ([] & Hb%reject_Ok & H). bool_to_prop. subst c.
    apply bind_Ok in H as ([] & Hv%reject_Ok & H). bool_to_prop.
    apply bind_Ok in H as ([] & Hs & H). apply bind_Ok in H as ([] & Ht & H). apply bind_Ok in H as ([] & _ & H).
    apply bind_Ok in H as ([] & _ & H). apply bind_Ok in H as ([] & _ & H). rewrite plan_replay_settings in H.
    apply bind_Ok in H as (rebuilt & Hbuild & H).
    apply bind_Ok in H as ([] & Hb1%reject_Ok & H). apply bind_Ok in H as ([] & Hb2%reject_Ok & H).
    apply bind_Ok in H as ([] & Hb3%reject_Ok & H). apply bind_Ok in H as ([] & Hb4%reject_Ok & [= <-]). bool_to_prop.
    apply validate_sorted_unique_Ok in Hs as [Hs _], Ht as [Ht _].
    apply sorted_names in Hs as [Hs Hds], Ht as [Ht Hdt].
    assert (rebuilt = r) as ->.
    { pose proof Hbuild as (_ & _ & id & _ & E)%PlanBuilder_build_Ok. cbn [plan_replay builder_sources builder_targets builder_inputs builder_policy] in E.
      rewrite (merge_sort_distinct_id source_le source_name source_le_names _ Hs Hds),
        (merge_sort_distinct_id target_le target_name target_le_names _ Ht Hdt) in E.
      destruct rebuilt, r. cbn in *. unfold plan_of in E. injection E as -> -> -> -> -> -> E1 E2 E3. subst. by f_equal. }
    destruct (read_plan_parts w r Hread) as [Hsv Htv]. split; [by split|]. split; [done|]. by exists w.
  - intros (Hp & Hc & w & Hw & Hr). exists w. rewrite Hw. split; [done|]. rewrite Hr. cbn [mbind result_bind]. rewrite Hc.
    cbn [mbind result_bind]. rewrite bool_decide_true by done. cbn [negb reject mbind result_bind].
    pose proof (plan_valid_parts p Hp) as (Hv & Hs & Ht & Hb & Hm & Hu & _). rewrite Hv. cbn [N.eqb negb reject mbind result_bind].
    rewrite !(proj2 (validate_sorted_unique_Ok _ None)) by (by split). cbn [mbind result_bind]. rewrite plan_replay_settings.
    destruct Hp as [Hreplay _ _]. rewrite Hreplay. cbn [mbind result_bind]. by rewrite !bool_decide_true.
Qed.
End Plans.
