(* ===== verification/Overlay.v ===== *)
(** * Overlays of [overlay.rs]

    Alias tables, overlay operations and layers, the ordered plan that binds
    operations to base tensors, and the digest of one target. The JSON writer
    ([serde_json]) and SHA-256 are parameters. *)

From S2P Require Import Prelude Errors Cancel Tensor Identity Order Quantization Inventory Representation Recipe.
From Stdlib Require Strings.String.
Local Open Scope N_scope.

Definition OVERLAY_SCHEMA_VERSION : N := 1.

(** ** Aliases *)

Record Alias := {
  alias : TensorName;
  alias_target : TensorName
}.

Record AliasTable := { alias_entries : gmap TensorName TensorName }.

Definition AliasTable_empty : AliasTable := {| alias_entries := ∅ |}.

(** One round of the loop of [AliasTable::new]. *)
Definition insert_alias (entries : gmap TensorName TensorName) (a : Alias)
  : result (gmap TensorName TensorName) :=
  _ ← reject (bool_decide (alias a = alias_target a)) Binding;
  _ ← reject (bool_decide (is_Some (entries !! alias a))) Binding;
  mret (<[alias a := alias_target a]> entries).

(** The walk of [validate_alias_cycles] from one name. *)
Fixpoint alias_walk (fuel : nat) (entries : gmap TensorName TensorName) (seen : gset TensorName)
    (current : TensorName) : result unit :=
  match fuel with
  | O => Panic
  | S fuel =>
      match entries !! current with
      | None => mret tt
      | Some next =>
          _ ← reject (bool_decide (current ∈ seen)) Binding;
          alias_walk fuel entries ({[current]} ∪ seen) next
      end
  end.

Definition alias_fuel (entries : gmap TensorName TensorName) : nat := S (S (size entries)).

Definition validate_alias_cycles (entries : gmap TensorName TensorName) : result unit :=
  try_fold (fun _ start => alias_walk (alias_fuel entries) entries ∅ (fst start)) tt (btree_list entries).

Definition AliasTable_new (aliases : list Alias) : result AliasTable :=
  entries ← try_fold insert_alias ∅ aliases;
  _ ← validate_alias_cycles entries;
  mret {| alias_entries := entries |}.

(** The loop of [AliasTable::resolve]; [Panic] stands for a loop without end. *)
Fixpoint resolve_loop (fuel : nat) (entries : gmap TensorName TensorName) (current : TensorName)
  : result TensorName :=
  match fuel with
  | O => Panic
  | S fuel =>
      match entries !! current with
      | Some next => resolve_loop fuel entries next
      | None => mret current
      end
  end.

Definition resolve (t : AliasTable) (name : TensorName) : result TensorName :=
  resolve_loop (alias_fuel (alias_entries t)) (alias_entries t) name.

Definition alias_of (entry : TensorName * TensorName) : Alias :=
  {| alias := fst entry; alias_target := snd entry |}.

Definition AliasTable_try_from (wire : AliasTable) : result AliasTable :=
  AliasTable_new (map alias_of (btree_list (alias_entries wire))).

(** ** Scales and base tensors *)

(** A [f64] by its bits: sign, eleven bits of exponent, 52 of fraction. *)
Record FiniteScale := { scale_bits : N }.

Definition f64_is_finite (value : N) : bool := negb (N.land (N.shiftr value 52) 2047 =? 2047).
(** [value == 0.0]: zero of either sign. *)
Definition f64_is_zero (value : N) : bool := (value =? 0) || (value =? 2 ^ 63).

Definition FiniteScale_new (value : N) : result FiniteScale :=
  _ ← reject (negb (f64_is_finite value)) InvalidFormat;
  mret {| scale_bits := if f64_is_zero value then 0 else value |}.

Record BaseTensor := {
  base_name : TensorName;
  base_shape : list N;
  base_content : ContentDigest
}.

#[export] Instance BaseTensor_eq_dec : EqDecision BaseTensor.
Proof. solve_decision. Defined.

Definition checked_elements (shape : list N) : result N := try_fold mul_dimension 1 shape.

Definition BaseTensor_new (name : TensorName) (shape : list N) (content : ContentDigest) : result BaseTensor :=
  _ ← checked_elements shape;
  mret {| base_name := name; base_shape := shape; base_content := content |}.

Definition BaseTensor_try_from (wire : BaseTensor) : result BaseTensor :=
  BaseTensor_new (base_name wire) (base_shape wire) (base_content wire).

(** ** Operations *)

Inductive OverlayOperation :=
  | Replace (target : TensorName) (value : SourceTensor) (implementation : ImplementationId)
  | Add (target : TensorName) (value : SourceTensor) (scale : FiniteScale) (implementation : ImplementationId)
  | LowRank (target : TensorName) (down up : SourceTensor) (rank : N) (scale : FiniteScale)
      (implementation : ImplementationId)
  | Recipe (target : TensorName) (inputs : gmap TensorName SourceTensor) (output_shape : list N)
      (recipe : ConversionRecipe).

Definition operation_target (o : OverlayOperation) : TensorName :=
  match o with
  | Replace target _ _ | Add target _ _ _ | LowRank target _ _ _ _ _ | Recipe target _ _ _ => target
  end.

Definition operation_sources (o : OverlayOperation) : list SourceTensor :=
  match o with
  | Replace _ value _ | Add _ value _ _ => [value]
  | LowRank _ down up _ _ _ => [down; up]
  | Recipe _ inputs _ _ => map snd (btree_list inputs)
  end.

(** The files of a storage: its payload's, then its companions'. *)
Definition storage_ordinals (s : Storage) : list N :=
  ordinal (span_file (storage_span s)) ::
  match s with
  | Plain _ _ => []
  | Quantized q => map (fun c => ordinal (span_file (companion_span (snd c)))) (btree_list (companions q))
  end.

Fixpoint missing_digest (ordinals : list N) (digest_count : N) : result bool :=
  match ordinals with
  | [] => mret false
  | o :: ordinals =>
      file_index ← usize_try_from o;
      if digest_count <=? file_index then mret true else missing_digest ordinals digest_count
  end.

Definition storage_has_missing_digest (s : Storage) (digest_count : N) : result bool :=
  missing_digest (storage_ordinals s) digest_count.

Definition validate_operation_sources (o : OverlayOperation) (digest_count : N) : result unit :=
  try_fold (fun _ source =>
    missing ← storage_has_missing_digest (source_storage source) digest_count;
    reject missing Binding) tt (operation_sources o).

Definition validate_recipe_inputs (o : OverlayOperation) : result unit :=
  match o with
  | Recipe target inputs output_shape recipe =>
      _ ← checked_elements output_shape;
      _ ← reject (negb (length (recipe_inputs recipe) =? size inputs)%nat ||
             existsb (fun name => match inputs !! name with
                                  | Some source => negb (bool_decide (source_name source = name))
                                  | None => true
                                  end) (recipe_inputs recipe)) Binding;
      reject (negb (bool_decide (is_Some (recipe_outputs recipe !! target)))) Binding
  | _ => mret tt
  end.

Definition validate_operation_shape (o : OverlayOperation) (base : BaseTensor) : result unit :=
  match o with
  | Replace _ value _ | Add _ value _ _ =>
      reject (negb (bool_decide (source_shape value = base_shape base))) Binding
  | LowRank _ down up rank _ _ =>
      match base_shape base with
      | [output; input] =>
          reject ((rank =? 0) || negb (bool_decide (source_shape down = [rank; input])) ||
                  negb (bool_decide (source_shape up = [output; rank]))) Binding
      | _ => Err Binding
      end
  | Recipe _ _ output_shape _ =>
      reject (negb (bool_decide (output_shape = base_shape base))) Binding
  end.

(** What the readers of its parts make of a wire operation. *)
Definition operation_try_from (wire : OverlayOperation) : result OverlayOperation :=
  match wire with
  | Replace target value implementation =>
      value ← SourceTensor_try_from value; mret (Replace target value implementation)
  | Add target value scale implementation =>
      value ← SourceTensor_try_from value;
      scale ← FiniteScale_new (scale_bits scale);
      mret (Add target value scale implementation)
  | LowRank target down up rank scale implementation =>
      down ← SourceTensor_try_from down;
      up ← SourceTensor_try_from up;
      scale ← FiniteScale_new (scale_bits scale);
      mret (LowRank target down up rank scale implementation)
  | Recipe target inputs output_shape recipe =>
      _ ← try_fold (fun _ input => _ ← SourceTensor_try_from (snd input); mret tt) tt (btree_list inputs);
      recipe ← ConversionRecipe_try_from recipe;
      mret (Recipe target inputs output_shape recipe)
  end.

(** ** Layers and plans *)

Record OverlayId := { overlay_digest : ContentDigest }.

#[export] Instance OverlayId_eq_dec : EqDecision OverlayId.
Proof. solve_decision. Defined.

Record OverlayLayer := {
  layer_schema_version : N;
  layer_id : OverlayId;
  layer_source_digests : list ContentDigest;
  layer_operations : list OverlayOperation
}.

Inductive ConflictPolicy := Reject | Ordered.
Inductive CompositionMode := Lazy | Eager.

#[export] Instance ConflictPolicy_eq_dec : EqDecision ConflictPolicy.
Proof. solve_decision. Defined.
#[export] Instance CompositionMode_eq_dec : EqDecision CompositionMode.
Proof. solve_decision. Defined.

Record OverlayOperationRef := {
  ref_layer : OverlayId;
  ref_index : N
}.

#[export] Instance OverlayOperationRef_eq_dec : EqDecision OverlayOperationRef.
Proof. solve_decision. Defined.

Record OverlayBinding := {
  binding_base : BaseTensor;
  binding_operations : list OverlayOperationRef
}.

#[export] Instance OverlayBinding_eq_dec : EqDecision OverlayBinding.
Proof. solve_decision. Defined.

Record OverlayPlan := {
  plan_schema_version : N;
  plan_mode : CompositionMode;
  plan_policy : ConflictPolicy;
  plan_aliases : AliasTable;
  plan_bases : list BaseTensor;
  plan_layers : list OverlayLayer;
  plan_bindings : list OverlayBinding;
  plan_digest : ContentDigest
}.

Record ReferencedSourceDigest := {
  file_ordinal : N;
  referenced_content : ContentDigest
}.

(** The values that are written as canonical JSON, with the fields the writer
    sees. *)
Inductive OverlayPayload :=
  | AliasPayload (aliases : AliasTable)
  | LayerIdentity (schema_version : N) (source_digests : list ContentDigest) (operations : list OverlayOperation)
  | LayerPayload (layer : OverlayLayer)
  | PlanIdentity (schema_version : N) (mode : CompositionMode) (policy : ConflictPolicy) (aliases : AliasTable)
      (bases : list BaseTensor) (layers : list OverlayLayer) (bindings : list OverlayBinding)
  | PlanPayload (plan : OverlayPlan)
  | TargetIdentity (mode : CompositionMode) (policy : ConflictPolicy) (base : BaseTensor)
      (operations : list ContentDigest)
  | TargetOperationIdentity (operation : OverlayOperation) (source_digests : list ReferencedSourceDigest).

Definition domain (name : string) : bytes := String.list_byte_of_string name.

Section Overlays.
Context (sha256 : bytes -> bytes) (write_json : OverlayPayload -> result bytes).

(** [canonical_json]: any failure of the writer is an invalid format. *)
Definition canonical_json (value : OverlayPayload) : result bytes :=
  match write_json value with
  | Err _ => Err InvalidFormat
  | r => r
  end.

Definition payload_digest (name : string) (value : OverlayPayload) : result ContentDigest :=
  bs ← canonical_json value;
  mret (digest_hash sha256 (domain name) [bs]).

Definition alias_digest (t : AliasTable) : result ContentDigest :=
  payload_digest "alias-table-v1" (AliasPayload t).

Definition OverlayLayer_new (source_digests : list ContentDigest) (operations : list OverlayOperation)
  : result OverlayLayer :=
  _ ← reject (bool_decide (length operations = 0%nat)) Binding;
  _ ← try_fold (fun _ o =>
        _ ← validate_operation_sources o (N.of_nat (length source_digests));
        validate_recipe_inputs o) tt operations;
  digest ← payload_digest "overlay-layer-v1" (LayerIdentity OVERLAY_SCHEMA_VERSION source_digests operations);
  mret {| layer_schema_version := OVERLAY_SCHEMA_VERSION; layer_id := {| overlay_digest := digest |};
          layer_source_digests := source_digests; layer_operations := operations |}.

Definition OverlayLayer_try_from (wire : OverlayLayer) : result OverlayLayer :=
  _ ← reject (negb (layer_schema_version wire =? OVERLAY_SCHEMA_VERSION)) InvalidFormat;
  layer ← OverlayLayer_new (layer_source_digests wire) (layer_operations wire);
  _ ← reject (negb (bool_decide (layer_id layer = layer_id wire))) Integrity;
  mret layer.

(** [base_indices.get]: where the base of a name is. *)
Definition base_index (bases : list BaseTensor) (name : TensorName) : option nat :=
  fst <$> list_find (fun b => base_name b = name) bases.

(** One round of the loop over the aliases. *)
Definition check_alias (bases : list BaseTensor) (aliases : AliasTable) (_ : unit)
    (entry : TensorName * TensorName) : result unit :=
  _ ← reject (bool_decide (is_Some (base_index bases (fst entry)))) Binding;
  canonical ← resolve aliases (fst entry);
  reject (negb (bool_decide (is_Some (base_index bases canonical)))) Binding.

(** One round of the loop over the operations of a layer: the position of the
    operation and the references so far, for each base. *)
Definition bind_operation (bases : list BaseTensor) (aliases : AliasTable) (policy : ConflictPolicy)
    (layer : OverlayLayer) (refs : list (list OverlayOperationRef)) (indexed : nat * OverlayOperation)
  : result (list (list OverlayOperationRef)) :=
  let '(operation_index, operation) := indexed in
  canonical ← resolve aliases (operation_target operation);
  i ← ok_or (base_index bases canonical) Binding;
  base ← index bases i;
  _ ← validate_operation_shape operation base;
  bound ← index refs i;
  _ ← reject (bool_decide (policy = Reject) && negb (bool_decide (length bound = 0%nat))) Binding;
  operation_index ← u32_try_from (N.of_nat operation_index);
  index_set refs i (bound ++ [{| ref_layer := layer_id layer; ref_index := operation_index |}]).

(** One round of the loop over the layers: the identities seen, and the
    references. *)
Definition bind_layer (bases : list BaseTensor) (aliases : AliasTable) (policy : ConflictPolicy)
    (s : list OverlayId * list (list OverlayOperationRef)) (layer : OverlayLayer)
  : result (list OverlayId * list (list OverlayOperationRef)) :=
  let '(seen, refs) := s in
  _ ← reject (bool_decide (layer_id layer ∈ seen)) Binding;
  refs ← try_fold (bind_operation bases aliases policy layer) refs (enumerate (layer_operations layer));
  mret (layer_id layer :: seen, refs).

Definition base_le (x y : BaseTensor) : Prop := ord_le (base_name x) (base_name y).
#[export] Instance base_le_dec : RelDecision base_le.
Proof using Type. intros x y. unfold base_le. apply _. Defined.

Definition make_binding (base : BaseTensor) (operations : list OverlayOperationRef) : OverlayBinding :=
  {| binding_base := base; binding_operations := operations |}.

(** [OverlayPlan::build]. *)
Definition OverlayPlan_build (bases : list BaseTensor) (aliases : AliasTable) (layers : list OverlayLayer)
    (policy : ConflictPolicy) (mode : CompositionMode) : result OverlayPlan :=
  let bases := merge_sort base_le bases in
  _ ← reject (windows_any (fun x y => bool_decide (base_name x = base_name y)) bases) Binding;
  _ ← try_fold (check_alias bases aliases) tt (btree_list (alias_entries aliases));
  '(_, refs) ← try_fold (bind_layer bases aliases policy) ([], replicate (length bases) []) layers;
  let bindings := zip_with make_binding bases refs in
  digest ← payload_digest "overlay-plan-v1"
    (PlanIdentity OVERLAY_SCHEMA_VERSION mode policy aliases bases layers bindings);
  mret {| plan_schema_version := OVERLAY_SCHEMA_VERSION; plan_mode := mode; plan_policy := policy;
          plan_aliases := aliases; plan_bases := bases; plan_layers := layers; plan_bindings := bindings;
          plan_digest := digest |}.

Definition OverlayPlan_try_from (wire : OverlayPlan) : result OverlayPlan :=
  _ ← reject (negb (plan_schema_version wire =? OVERLAY_SCHEMA_VERSION)) InvalidFormat;
  plan ← OverlayPlan_build (plan_bases wire) (plan_aliases wire) (plan_layers wire) (plan_policy wire)
           (plan_mode wire);
  _ ← reject (negb (bool_decide (plan_bindings plan = plan_bindings wire)) ||
              negb (bool_decide (plan_digest plan = plan_digest wire))) Integrity;
  mret plan.

(** The reader of a layer, and of a plan, with the readers of their parts. *)
Definition read_layer (wire : OverlayLayer) : result OverlayLayer :=
  operations ← try_map operation_try_from (layer_operations wire);
  OverlayLayer_try_from
    {| layer_schema_version := layer_schema_version wire; layer_id := layer_id wire;
       layer_source_digests := layer_source_digests wire; layer_operations := operations |}.

Definition read_plan (wire : OverlayPlan) : result OverlayPlan :=
  aliases ← AliasTable_try_from (plan_aliases wire);
  bases ← try_map BaseTensor_try_from (plan_bases wire);
  layers ← try_map read_layer (plan_layers wire);
  OverlayPlan_try_from
    {| plan_schema_version := plan_schema_version wire; plan_mode := plan_mode wire;
       plan_policy := plan_policy wire; plan_aliases := aliases; plan_bases := bases;
       plan_layers := layers; plan_bindings := plan_bindings wire; plan_digest := plan_digest wire |}.

(** [from_canonical_json]: [parse] is the deserializer before the readers of
    this crate check what it read. *)
Definition from_canonical_json (parse : bytes -> option OverlayPlan) (bs : bytes) : result OverlayPlan :=
  wire ← ok_or (parse bs) InvalidFormat;
  plan ← match read_plan wire with Err _ => Err InvalidFormat | r => r end;
  canonical ← canonical_json (PlanPayload plan);
  _ ← reject (negb (bool_decide (canonical = bs))) InvalidFormat;
  mret plan.

(** ** Target digests *)

(** [extend_storage_file_ordinals], for the storage of one source. *)
Definition extend_ordinals (source : SourceTensor) (ordinals : list N) : M (list N) :=
  _ ← check;
  let s := source_storage source in
  let companion_ordinals := tail (storage_ordinals s) in
  additional ← lift (ok_or (checked_add (N.of_nat (length companion_ordinals)) 1) ResourceLimit);
  _ ← try_reserve_exact (4 * (N.of_nat (length ordinals) + additional));
  for_each companion_ordinals (fun o ordinals => _ ← check; mret (ordinals ++ [o]))
    (ordinals ++ [ordinal (span_file (storage_span s))]).

(** One round of the second loop of [referenced_source_digests]. *)
Definition referenced_digest (layer : OverlayLayer) (o : N) (ds : list ReferencedSourceDigest)
  : M (list ReferencedSourceDigest) :=
  _ ← check;
  i ← lift (usize_try_from o);
  content ← lift (ok_or (layer_source_digests layer !! N.to_nat i) Integrity);
  mret (ds ++ [{| file_ordinal := o; referenced_content := content |}]).

(** The bytes of a [ReferencedSourceDigest]. *)
Definition REFERENCED_DIGEST_BYTES : N := 36.

Definition referenced_source_digests (layer : OverlayLayer) (operation : OverlayOperation)
  : M (list ReferencedSourceDigest) :=
  ordinals ← for_each (operation_sources operation) extend_ordinals [];
  let ordinals := dedup (merge_sort N.le ordinals) in
  _ ← try_reserve_exact (REFERENCED_DIGEST_BYTES * N.of_nat (length ordinals));
  ds ← for_each ordinals (referenced_digest layer) [];
  _ ← check;
  mret ds.

Definition target_operation_digest (layer : OverlayLayer) (operation : OverlayOperation) : M ContentDigest :=
  _ ← check;
  ds ← referenced_source_digests layer operation;
  bs ← lift (canonical_json (TargetOperationIdentity operation ds));
  _ ← check;
  mret (digest_hash sha256 (domain "overlay-target-operation-v1") [bs]).

(** The map from identities to layers: a later layer replaces an earlier one. *)
Definition layer_of (layers : list OverlayLayer) (id : OverlayId) : option OverlayLayer :=
  List.find (fun l => bool_decide (layer_id l = id)) (rev layers).

(** One round of the loop over the operations of a binding. *)
Definition binding_operation_digest (layers : list OverlayLayer) (r : OverlayOperationRef)
    (ds : list ContentDigest) : M (list ContentDigest) :=
  _ ← check;
  layer ← lift (ok_or (layer_of layers (ref_layer r)) Integrity);
  i ← lift (usize_try_from (ref_index r));
  operation ← lift (ok_or (layer_operations layer !! N.to_nat i) Integrity);
  d ← target_operation_digest layer operation;
  mret (ds ++ [d]).

(** [target_digest_with_cancellation]. The bindings are in the order of their
    bases, so the binary search finds the binding of a name. *)
Definition target_digest (p : OverlayPlan) (target : TensorName) : M ContentDigest :=
  _ ← check;
  canonical ← lift (resolve (plan_aliases p) target);
  _ ← check;
  binding ← lift (ok_or (List.find (fun b => bool_decide (base_name (binding_base b) = canonical))
                           (plan_bindings p)) Binding);
  _ ← check;
  _ ← for_each (plan_layers p) (fun _ _ => check) tt;
  _ ← check;
  _ ← try_reserve_exact (32 * N.of_nat (length (binding_operations binding)));
  ds ← for_each (binding_operations binding) (binding_operation_digest (plan_layers p)) [];
  _ ← check;
  bs ← lift (canonical_json (TargetIdentity (plan_mode p) (plan_policy p) (binding_base binding) ds));
  _ ← check;
  let digest := digest_hash sha256 (domain "overlay-target-v2") [bs] in
  _ ← check;
  mret digest.
End Overlays.
