(* ===== verification/OverlaySpecs.v ===== *)
(** * Aliases, overlay plans and target digests

    Aliases that end resolve to one name; the plan of overlays binds every
    operation, in order, to the base its target resolves to. *)

From S2P Require Import Prelude Errors Cancel Tensor Identity Order Representation Quantization.
From S2P Require Import Quantization Inventory Recipe Overlay.
From Stdlib Require Strings.String.
Local Open Scope N_scope.

(** ** Aliases *)

Section Aliases.
Context (entries : gmap TensorName TensorName).

Definition alias_step (x y : TensorName) : Prop := entries !! x = Some y.

(** Following the entries from a name ends. *)
Definition resolves (x last : TensorName) : Prop := rtc alias_step x last /\ entries !! last = None.

Lemma resolves_unique x y z : resolves x y -> resolves x z -> y = z.
Proof using Type.
  intros [Hy Hyn]. induction Hy as [x|x x' y Hstep _ IH]; intros [Hz Hzn].
  - destruct Hz as [|x x' z Hstep _]; [done|]. unfold alias_step in Hstep. congruence.
  - destruct Hz as [x|x x'' z Hstep' Hz]; [unfold alias_step in Hstep; congruence|].
    assert (x'' = x') as -> by (unfold alias_step in *; congruence). by apply IH.
Qed.

Lemma resolves_step x y z : alias_step x y -> resolves y z -> resolves x z.
Proof using Type. intros Hs [Hy Hn]. split; [by eapply rtc_l|done]. Qed.

Lemma resolves_next x y z : alias_step x y -> resolves x z -> resolves y z.
Proof using Type.
  intros Hs [Hx Hn]. destruct Hx as [x|x y' z Hs' Hx]; [unfold alias_step in Hs; congruence|].
  assert (y' = y) as -> by (unfold alias_step in *; congruence). done.
Qed.

(** A name on a cycle does not end. *)
Lemma cycle_not_resolves x : tc alias_step x x -> forall last, ~ resolves x last.
Proof using Type.
  intros Hc last [Hx Hn]. revert Hc. induction Hx as [x|x y last Hs Hy IH]; intros Hc.
  - apply tc_nsteps in Hc as (n & Hn0 & Hc). inversion Hc as [|n' x' y z Hs _]; subst; [lia|].
    unfold alias_step in Hs. congruence.
  - apply IH; [done|].
    assert (rtc alias_step y x) as Hyx.
    { inversion Hc as [? ? Hs'|? y' ? Hs' Hy']; subst.
      - assert (x = y) as -> by (unfold alias_step in *; congruence). done.
      - assert (y' = y) as -> by (unfold alias_step in *; congruence). by apply tc_rtc. }
    by eapply tc_rtc_l; [exact Hyx|apply tc_once].
Qed.

Lemma alias_walk_spec fuel : forall seen current,
  seen ⊆ dom entries -> (size entries + 1 < size seen + fuel)%nat ->
  (forall s, s ∈ seen -> tc alias_step s current) ->
  match alias_walk fuel entries seen current with
  | Ok _ => exists last, resolve_loop fuel entries current = Ok last /\ resolves current last
  | Err e => e = Binding /\ forall last, ~ resolves current last
  | Panic => False
  end.
Proof using Type.
  induction fuel as [|fuel IH]; intros seen current Hsub Hfuel Hseen; cbn [alias_walk resolve_loop].
  { apply subseteq_size in Hsub. rewrite size_dom in Hsub. lia. }
  destruct (entries !! current) as [next|] eqn:En.
  2: { exists current. split; [done|]. split; [apply rtc_refl|done]. }
  case_bool_decide as Hin; cbn [reject mbind result_bind].
  { split; [done|]. apply cycle_not_resolves, Hseen, Hin. }
  specialize (IH ({[current]} ∪ seen) next). assert (alias_step current next) as Hs by done.
  assert (current ∈ dom entries) as Hdom by (by apply elem_of_dom_2 in En).
  destruct (alias_walk fuel entries _ next) as [[]|e|].
  - destruct IH as (last & Hr & Hres); [set_solver|rewrite size_union by set_solver; rewrite size_singleton; lia| |].
    { intros s [->%elem_of_singleton|Hin']%elem_of_union; [by apply tc_once|].
      eapply tc_r; [by apply Hseen|done]. }
    exists last. split; [done|]. by eapply resolves_step.
  - destruct IH as [-> Hno]; [set_solver|rewrite size_union by set_solver; rewrite size_singleton; lia| |].
    { intros s [->%elem_of_singleton|Hin']%elem_of_union; [by apply tc_once|].
      eapply tc_r; [by apply Hseen|done]. }
    split; [done|]. intros last Hl. apply (Hno last). by eapply resolves_next.
  - apply IH; [set_solver|rewrite size_union by set_solver; rewrite size_singleton; lia|].
    intros s [->%elem_of_singleton|Hin']%elem_of_union; [by apply tc_once|].
    eapply tc_r; [by apply Hseen|done].
Qed.

(** The table has no cycle: every name ends. *)
Definition ends : Prop := forall x, exists last, resolves x last.

Lemma alias_walk_start x :
  match alias_walk (alias_fuel entries) entries ∅ x with
  | Ok _ => exists last, resolve_loop (alias_fuel entries) entries x = Ok last /\ resolves x last
  | Err e => e = Binding /\ forall last, ~ resolves x last
  | Panic => False
  end.
Proof using Type.
  apply alias_walk_spec; [set_solver|rewrite size_empty; unfold alias_fuel; lia|set_solver].
Qed.

Lemma validate_alias_cycles_spec :
  match validate_alias_cycles entries with
  | Ok _ => ends
  | Err e => e = Binding /\ ~ ends
  | Panic => False
  end.
Proof using Type.
  unfold validate_alias_cycles.
  assert (forall l, match try_fold (fun _ start => alias_walk (alias_fuel entries) entries ∅ (fst start)) tt l with
    | Ok _ => Forall (fun s : TensorName * TensorName => exists last, resolves (fst s) last) l
    | Err e => e = Binding /\ ~ ends
    | Panic => False end) as Hl.
  { induction l as [|s l IH]; cbn [try_fold]; [constructor|]. pose proof (alias_walk_start (fst s)) as Hw.
    destruct (alias_walk _ _ _ (fst s)) as [[]|e|]; cbn [mbind result_bind]; [|split; [apply Hw|]|done].
    - destruct (try_fold _ tt l) as [[]|e|]; try done. constructor; [|done]. destruct Hw as (last & _ & ?). by exists last.
    - intros He. destruct (He (fst s)) as [last Hr]. by destruct Hw as [_ Hno]; apply (Hno last). }
  specialize (Hl (btree_list entries)). destruct (try_fold _ _ _) as [[]|e|]; [|done|done].
  intros x. destruct (entries !! x) as [y|] eqn:Ex.
  - rewrite Forall_forall in Hl. apply (Hl (x, y)). by apply btree_list_elem.
  - exists x. split; [apply rtc_refl|done].
Qed.

(** Resolution, in a table without cycles. *)
Lemma resolve_loop_spec x : ends -> exists last,
  resolve_loop (alias_fuel entries) entries x = Ok last /\ resolves x last.
Proof using Type.
  intros He. pose proof (alias_walk_start x) as Hw. destruct (alias_walk _ _ _ x) as [[]|e|]; [done| |done].
  destruct Hw as [_ Hno], (He x) as [last Hr]. by destruct (Hno last).
Qed.
End Aliases.

Definition alias_ok (t : AliasTable) : Prop := ends (alias_entries t).

Lemma resolve_Ok t x last : alias_ok t -> resolve t x = Ok last <-> resolves (alias_entries t) x last.
Proof.
  intros Ht. destruct (resolve_loop_spec (alias_entries t) x Ht) as (last' & Hl & Hr). unfold resolve. rewrite Hl. split.
  - by intros [= <-].
  - intros H. f_equal. by eapply resolves_unique.
Qed.

Lemma resolve_total t x : alias_ok t -> exists last, resolve t x = Ok last.
Proof. intros Ht. destruct (resolve_loop_spec (alias_entries t) x Ht) as (last & Hl & _). by exists last. Qed.

Lemma insert_aliases_Ok l : forall m m',
  try_fold insert_alias m l = Ok m' <->
  Forall (fun a => alias a <> alias_target a) l /\ NoDup (map alias l) /\
  Forall (fun a => m !! alias a = None) l /\
  m' = list_to_map (map (fun a => (alias a, alias_target a)) l) ∪ m.
Proof.
  induction l as [|a l IH]; intros m m'; cbn [try_fold].
  { cbn. rewrite map_empty_union. split; [intros [= <-]; by split_and!; try constructor|by intros (_ & _ & _ & ->)]. }
  unfold insert_alias at 1. rewrite bind_Ok. setoid_rewrite bind_Ok. setoid_rewrite bind_Ok. cbn [map].
  rewrite !Forall_cons, NoDup_cons. split.
  - intros (m1 & ([] & Hne%reject_Ok & [] & Hno%reject_Ok & [= <-]) & Hrest). bool_to_prop.
    apply IH in Hrest as (Hn & Hd & Hf & ->). apply eq_None_not_Some in Hno.
    assert (alias a ∉ map alias l) as Hni.
    { intros (b & Hb & Hin)%list_elem_of_fmap. rewrite Forall_forall in Hf. specialize (Hf b Hin).
      rewrite <-Hb, lookup_insert_eq in Hf. done. }
    split_and!; try done.
    + apply Forall_forall. intros b Hin. rewrite Forall_forall in Hf. specialize (Hf b Hin).
      by apply lookup_insert_None in Hf as [? _].
    + rewrite list_to_map_cons, <-insert_union_l, insert_union_r; [done|].
      apply not_elem_of_list_to_map_1. by rewrite <-list_fmap_compose.
  - intros ([Hne Hn] & [Hni Hd] & [Hno Hf] & ->). exists (<[alias a := alias_target a]> m). split.
    + exists tt. rewrite bool_decide_false by done. split; [done|]. exists tt.
      rewrite bool_decide_false by (rewrite Hno; by intros [? [=]]). done.
    + apply IH. split_and!; try done.
      * apply Forall_forall. intros b Hin. rewrite Forall_forall in Hf. rewrite lookup_insert_ne; [by apply Hf|].
        intros Heq. apply Hni. rewrite Heq. apply list_elem_of_fmap. by exists b.
      * rewrite list_to_map_cons, <-insert_union_l, insert_union_r; [done|].
        apply not_elem_of_list_to_map_1. by rewrite <-list_fmap_compose.
Qed.

(** A table is built exactly from aliases of distinct names that do not form a
    cycle. *)
Lemma AliasTable_new_Ok l t :
  AliasTable_new l = Ok t <->
  NoDup (map alias l) /\ alias_entries t = list_to_map (map (fun a => (alias a, alias_target a)) l) /\ alias_ok t.
Proof.
  unfold AliasTable_new. rewrite bind_Ok. split.
  - intros (m & (Hne & Hd & _ & ->)%insert_aliases_Ok & H). rewrite map_union_empty in H.
    apply bind_Ok in H as ([] & Hv & [= <-]).
    pose proof (validate_alias_cycles_spec (list_to_map (map (fun a => (alias a, alias_target a)) l))) as Hs.
    rewrite Hv in Hs. rewrite map_union_empty. split_and!; [done|done|exact Hs].
  - intros (Hd & He & Hok). exists (alias_entries t). split.
    + apply insert_aliases_Ok. split_and!; [|done|apply Forall_true; intros; apply lookup_empty|by rewrite map_union_empty].
      apply Forall_forall. intros a Hin Heq.
      assert (alias_entries t !! alias a = Some (alias a)) as Hself.
      { rewrite He. apply elem_of_list_to_map; [by rewrite <-list_fmap_compose|].
        apply list_elem_of_fmap. exists a. by rewrite <-Heq. }
      destruct (Hok (alias a)) as [last Hr].
      by apply (cycle_not_resolves (alias_entries t) (alias a) (tc_once _ _ _ Hself) last).
    + pose proof (validate_alias_cycles_spec (alias_entries t)) as Hs. destruct (validate_alias_cycles _) as [[]|e|];
        [by destruct t|by destruct Hs as [_ Hno]|done].
Qed.

(** A refused list is refused with a binding error. *)
Lemma AliasTable_new_Err l :
  AliasTable_new l <> Panic /\ forall e, AliasTable_new l = Err e -> e = Binding.
Proof.
  unfold AliasTable_new.
  assert (forall m, match try_fold insert_alias m l with Err e => e = Binding | Panic => False | _ => True end) as H.
  { induction l as [|a l IH]; intros m; cbn [try_fold]; [done|].
    assert (match insert_alias m a with Err e => e = Binding | Panic => False | _ => True end) as Ha.
    { unfold insert_alias, reject. by repeat case_bool_decide. }
    by destruct (insert_alias m a) as [m'|e|]; [apply IH|..]. }
  specialize (H ∅). destruct (try_fold insert_alias ∅ l) as [m|e|]; [|by split; [|intros ? [= <-]]|done].
  cbn [mbind result_bind]. pose proof (validate_alias_cycles_spec m) as Hc.
  destruct (validate_alias_cycles m) as [[]|e|]; [done| |done]. cbn [mbind result_bind].
  split; [done|]. intros ? [= <-]. apply Hc.
Qed.

Lemma AliasTable_try_from_ok t : alias_ok t -> AliasTable_try_from t = Ok t.
Proof.
  intros Ht. apply AliasTable_new_Ok. rewrite !map_map. cbn [alias alias_target alias_of].
  assert (map (fun x : TensorName * TensorName => (x.1, x.2)) (btree_list (alias_entries t)) = btree_list (alias_entries t)) as ->.
  { rewrite <-(map_id (btree_list _)) at 2. apply map_ext. by intros []. }
  split_and!; [apply btree_list_NoDup|by rewrite btree_list_to_map|done].
Qed.

(** * Which overlay plans are built, and what they bind *)

(** ** Bases *)

Definition base_names (bases : list BaseTensor) : list TensorName := map base_name bases.

Lemma base_index_Some bases name i :
  NoDup (base_names bases) ->
  base_index bases name = Some i <-> exists b, bases !! i = Some b /\ base_name b = name.
Proof.
  intros Hd. unfold base_index. split.
  - destruct (list_find _ bases) as [[j b]|] eqn:E; [|done]. intros [= ->].
    apply list_find_Some in E as (Hb & Hn & _). by exists b.
  - intros (b & Hb & Hn). assert (list_find (fun b => base_name b = name) bases = Some (i, b)) as ->; [|done].
    apply list_find_Some. split_and!; [done..|]. intros j b' Hj Hlt Hn'.
    assert (j = i); [|lia]. apply (NoDup_lookup (base_names bases) j i name Hd);
      unfold base_names; rewrite list_lookup_fmap; [by rewrite Hj, <-Hn'|by rewrite Hb, <-Hn].
Qed.

Lemma base_index_is_Some bases name :
  is_Some (base_index bases name) <-> exists b, b ∈ bases /\ base_name b = name.
Proof.
  unfold base_index. rewrite fmap_is_Some. split.
  - intros [[i b] (Hb & Hn & _)%list_find_Some]. exists b. split; [by eapply list_elem_of_lookup_2|done].
  - intros (b & [i Hi]%list_elem_of_lookup & Hn). by eapply list_find_elem_of; [eapply list_elem_of_lookup_2|].
Qed.

(** ** What a plan binds *)

Section Binding.
Context (bases : list BaseTensor) (aliases : AliasTable) (policy : ConflictPolicy).
Context (Hd : NoDup (base_names bases)).

(** The operation applies to a base. *)
Definition targets (o : OverlayOperation) (b : BaseTensor) : Prop :=
  resolve aliases (operation_target o) = Ok (base_name b).
#[export] Instance targets_dec o b : Decision (targets o b).
Proof using Type. unfold targets. apply _. Defined.

Definition operation_ok (o : OverlayOperation) : Prop :=
  exists b, b ∈ bases /\ targets o b /\ validate_operation_shape o b = Ok tt.

(** The references of one base: the operations of a layer that target it. *)
Definition operation_refs (layer : OverlayLayer) (l : list (nat * OverlayOperation)) (b : BaseTensor)
  : list OverlayOperationRef :=
  omap (fun '(k, o) => if bool_decide (targets o b)
                       then Some {| ref_layer := layer_id layer; ref_index := N.of_nat k |} else None) l.

Definition layer_refs (b : BaseTensor) (layer : OverlayLayer) : list OverlayOperationRef :=
  operation_refs layer (enumerate (layer_operations layer)) b.

Definition plan_refs (layers : list OverlayLayer) (b : BaseTensor) : list OverlayOperationRef :=
  concat (map (layer_refs b) layers).

Definition conflict_free (refs : list OverlayOperationRef) : Prop := policy = Reject -> (length refs <= 1)%nat.

(** Adding to the references of the base of one name. *)
Lemma insert_refs (R : BaseTensor -> list OverlayOperationRef) i b r :
  bases !! i = Some b ->
  <[i := R b ++ [r]]> (map R bases) =
  map (fun b' => R b' ++ if bool_decide (base_name b' = base_name b) then [r] else []) bases.
Proof using Hd.
  intros Hi. apply list_eq. intros j. destruct (decide (i = j)) as [<-|Hne].
  - rewrite list_lookup_insert_eq by (rewrite length_map; by apply lookup_lt_Some in Hi).
    by rewrite list_lookup_fmap, Hi; cbn; rewrite bool_decide_true.
  - rewrite list_lookup_insert_ne, !list_lookup_fmap by done. destruct (bases !! j) as [b'|] eqn:Ej; [|done].
    cbn. rewrite bool_decide_false, app_nil_r; [done|]. intros Heq. apply Hne.
    apply (NoDup_lookup (base_names bases) i j (base_name b) Hd); unfold base_names; rewrite list_lookup_fmap;
      [by rewrite Hi|rewrite Ej; cbn; by rewrite Heq].
Qed.

(** One operation, for references that are a function of the base. *)
Lemma bind_operation_Ok layer (R : BaseTensor -> list OverlayOperationRef) k o refs' :
  bind_operation bases aliases policy layer (map R bases) (k, o) = Ok refs' <->
  operation_ok o /\ N.of_nat k <= u32_MAX /\
  (policy = Reject -> forall b, b ∈ bases -> targets o b -> R b = []) /\
  refs' = map (fun b => R b ++ operation_refs layer [(k, o)] b) bases.
Proof using Hd.
  assert (forall b b', targets o b -> targets o b' <-> base_name b' = base_name b) as Htarget.
  { intros b b' Hb. unfold targets in *. rewrite Hb. split; [by intros [= ->]|by intros ->]. }
  assert (forall b, targets o b ->
    map (fun b' => R b' ++ if bool_decide (base_name b' = base_name b)
                           then [{| ref_layer := layer_id layer; ref_index := N.of_nat k |}] else []) bases =
    map (fun b => R b ++ operation_refs layer [(k, o)] b) bases) as Hmap.
  { intros b Hb. apply map_ext. intros b'. f_equal. unfold operation_refs. cbn.
    rewrite (bool_decide_ext _ _ (Htarget b b' Hb)). by case_bool_decide. }
  assert (forall b i, bases !! i = Some b -> index (map R bases) i = Ok (R b)) as Hidx.
  { intros b i Hi. apply index_Ok. by rewrite list_lookup_fmap, Hi. }
  unfold bind_operation. rewrite bind_Ok. split.
  - intros (canonical & Hc & H). apply bind_Ok in H as (i & Hi%ok_or_Ok & H).
    apply (base_index_Some _ _ _ Hd) in Hi as (b & Hi & <-).
    apply bind_Ok in H as (b' & Hb'%index_Ok & H). rewrite Hi in Hb'. injection Hb' as <-.
    apply bind_Ok in H as ([] & Hv & H). apply bind_Ok in H as (bound & Hbound & H). rewrite (Hidx b i Hi) in Hbound.
    injection Hbound as <-. apply bind_Ok in H as ([] & Hr%reject_Ok & H).
    apply bind_Ok in H as (k' & [-> Hk]%u32_try_from_Ok & H). unfold index_set in H.
    case_bool_decide as Hlen; [|done]. injection H as <-. split_and!; [|done| |].
    + exists b. split; [by eapply list_elem_of_lookup_2|]. by split.
    + intros -> b' Hin Hb'. rewrite bool_decide_true in Hr by done. cbn [andb] in Hr.
      apply negb_false_iff, bool_decide_eq_true, length_zero_iff_nil in Hr.
      apply (Htarget b b' Hc) in Hb'. apply list_elem_of_lookup in Hin as [j Hj].
      assert (i = j) as <-; [|congruence].
      apply (NoDup_lookup (base_names bases) i j (base_name b) Hd); unfold base_names; rewrite list_lookup_fmap;
        [by rewrite Hi|rewrite Hj; cbn; by rewrite Hb'].
    + rewrite insert_refs by done. by apply Hmap.
  - intros ((b & Hin & Hb & Hv) & Hk & Hp & ->). exists (base_name b). split; [exact Hb|].
    pose proof Hin as [i Hi]%list_elem_of_lookup.
    rewrite (proj2 (base_index_Some bases (base_name b) i Hd)) by (by exists b). cbn [ok_or mbind result_bind].
    rewrite (proj2 (index_Ok bases i b) Hi). cbn [mbind result_bind]. rewrite Hv. cbn [mbind result_bind].
    rewrite (Hidx b i Hi). cbn [mbind result_bind].
    assert (bool_decide (policy = Reject) && negb (bool_decide (length (R b) = 0%nat)) = false) as ->.
    { case_bool_decide; [|done]. cbn [andb]. by rewrite (Hp H b Hin Hb). }
    cbn [reject mbind result_bind]. rewrite (proj2 (u32_try_from_Ok _ _) (conj eq_refl Hk)). cbn [mbind result_bind].
    unfold index_set. rewrite bool_decide_true by (rewrite length_map; by apply lookup_lt_Some in Hi).
    rewrite insert_refs by done. f_equal. by apply Hmap.
Qed.

Lemma operation_refs_app layer l k b : operation_refs layer (l ++ k) b = operation_refs layer l b ++ operation_refs layer k b.
Proof using Type. apply omap_app. Qed.

(** References that may be added to others under the policy. *)
Definition may_add (R X : BaseTensor -> list OverlayOperationRef) : Prop :=
  policy = Reject -> forall b, b ∈ bases -> X b <> [] -> (length (R b ++ X b) <= 1)%nat.

Lemma may_add_app R X Y :
  may_add R (fun b => X b ++ Y b) <-> may_add R X /\ may_add (fun b => R b ++ X b) Y.
Proof using Type.
  unfold may_add. split.
  - intros H. split; intros Hp b Hb Hne; specialize (H Hp b Hb); rewrite ?length_app in *.
    + assert (X b ++ Y b <> []) as Hn by (by intros [? ?]%app_nil). specialize (H Hn). lia.
    + assert (X b ++ Y b <> []) as Hn by (by intros [? ?]%app_nil). specialize (H Hn). lia.
  - intros [HX HY] Hp b Hb Hne. rewrite !length_app. specialize (HX Hp b Hb). specialize (HY Hp b Hb).
    rewrite !length_app in *. destruct (X b) as [|x xs], (Y b) as [|y ys]; cbn in *; [done|..].
    + specialize (HY ltac:(done)). lia.
    + specialize (HX ltac:(done)). lia.
    + specialize (HY ltac:(done)). lia.
Qed.

Lemma may_add_ext R R' X X' : (forall b, R b = R' b) -> (forall b, X b = X' b) -> may_add R X -> may_add R' X'.
Proof using Type. intros HR HX H Hp b Hb. rewrite <-HR, <-HX. by apply H. Qed.

Lemma may_add_one layer R k o :
  may_add R (operation_refs layer [(k, o)]) <->
  (policy = Reject -> forall b, b ∈ bases -> targets o b -> R b = []).
Proof using Type.
  unfold may_add, operation_refs. cbn. split; intros H Hp b Hb; specialize (H Hp b Hb).
  - intros Ht. rewrite bool_decide_true in H by done. specialize (H ltac:(done)). rewrite length_app in H.
    apply length_zero_iff_nil. cbn in H. lia.
  - case_bool_decide as Ht; [|done]. intros _. by rewrite H.
Qed.

(** The operations of a layer, one after the other. *)
Lemma bind_operations_Ok layer l : forall (R : BaseTensor -> list OverlayOperationRef) refs',
  try_fold (bind_operation bases aliases policy layer) (map R bases) l = Ok refs' <->
  Forall (fun x => operation_ok (snd x) /\ N.of_nat (fst x) <= u32_MAX) l /\
  may_add R (operation_refs layer l) /\
  refs' = map (fun b => R b ++ operation_refs layer l b) bases.
Proof using Hd.
  induction l as [|[k o] l IH]; intros R refs'; cbn [try_fold].
  { split.
    - intros [= <-]. split_and!; [constructor|by intros Hp b Hb|]. apply map_ext. intros b. by rewrite app_nil_r.
    - intros (_ & _ & ->). f_equal. apply map_ext. intros b. by rewrite app_nil_r. }
  rewrite bind_Ok, Forall_cons. cbn [fst snd].
  assert (forall b, operation_refs layer ((k, o) :: l) b = operation_refs layer [(k, o)] b ++ operation_refs layer l b) as Happ
    by (intros b; by rewrite <-operation_refs_app).
  assert (may_add R (operation_refs layer ((k, o) :: l)) <->
    may_add R (operation_refs layer [(k, o)]) /\
    may_add (fun b => R b ++ operation_refs layer [(k, o)] b) (operation_refs layer l)) as ->.
  { rewrite <-may_add_app. split; by apply may_add_ext. }
  split.
  - intros (refs1 & (Ho & Hk & Hp & ->)%bind_operation_Ok & H). apply IH in H as (Hl & Ha & ->).
    split_and!; try done; [by apply may_add_one|]. apply map_ext. intros b. by rewrite Happ, app_assoc.
  - intros (([Ho Hk] & Hl) & [Hp Ha] & ->). eexists. split.
    + apply bind_operation_Ok. split_and!; [done|done|exact (proj1 (may_add_one _ _ _ _) Hp)|reflexivity].
    + apply IH. split_and!; try done. apply map_ext. intros b. by rewrite Happ, app_assoc.
Qed.

(** The layers, one after the other. *)
Lemma bind_layers_Ok layers : forall seen (R : BaseTensor -> list OverlayOperationRef) s,
  try_fold (bind_layer bases aliases policy) (seen, map R bases) layers = Ok s <->
  Forall (fun layer => layer_id layer ∉ seen) layers /\ NoDup (map layer_id layers) /\
  Forall (fun layer => Forall (fun x => operation_ok (snd x) /\ N.of_nat (fst x) <= u32_MAX)
                         (enumerate (layer_operations layer))) layers /\
  may_add R (plan_refs layers) /\
  s = (rev (map layer_id layers) ++ seen, map (fun b => R b ++ plan_refs layers b) bases).
Proof using Hd.
  induction layers as [|layer layers IH]; intros seen R s; cbn [try_fold map].
  { split.
    - intros [= <-]. split_and!; [apply List.Forall_nil|apply NoDup_nil_2|apply List.Forall_nil|by intros Hp b Hb|].
      cbn. f_equal. apply map_ext. intros b.
      unfold plan_refs. cbn. by rewrite app_nil_r.
    - intros (_ & _ & _ & _ & ->). do 2 f_equal. apply map_ext. intros b. unfold plan_refs. cbn. by rewrite app_nil_r. }
  rewrite bind_Ok, !Forall_cons, NoDup_cons.
  assert (may_add R (plan_refs (layer :: layers)) <->
    may_add R (operation_refs layer (enumerate (layer_operations layer))) /\
    may_add (fun b => R b ++ operation_refs layer (enumerate (layer_operations layer)) b) (plan_refs layers)) as ->.
  { rewrite <-may_add_app. split; by apply may_add_ext. }
  assert (forall (R : BaseTensor -> list OverlayOperationRef) b,
    (R b ++ operation_refs layer (enumerate (layer_operations layer)) b) ++ plan_refs layers b =
    R b ++ plan_refs (layer :: layers) b) as Happ by (intros R' b; by rewrite <-app_assoc).
  assert (Forall (fun l => layer_id l ∉ layer_id layer :: seen) layers <->
    Forall (fun l => layer_id l ∉ seen) layers /\ layer_id layer ∉ map layer_id layers) as Hseen.
  { rewrite list_elem_of_fmap, !Forall_forall. setoid_rewrite not_elem_of_cons. split.
    - intros H. split; [intros l Hl; by apply (H l)|]. intros (l & Hl & Hin). by destruct (H l Hin).
    - intros [H1 H2] l Hl. split; [|by apply H1]. intros Heq. apply H2. by exists l. }
  unfold bind_layer at 1. split.
  - intros (s1 & Hs1 & H). apply bind_Ok in Hs1 as ([] & Hns%reject_Ok & Hs1).
    apply bind_Ok in Hs1 as (refs1 & (Ho & Ha & ->)%bind_operations_Ok & [= <-]). bool_to_prop.
    apply IH in H as (Hns' & Hnd & Hos & Has & ->). apply Hseen in Hns' as [Hns1 Hns2].
    split_and!; try done. cbn [rev]. rewrite <-app_assoc. f_equal. apply map_ext. intros b. by rewrite Happ.
  - intros ([Hns Hns'] & [Hni Hnd] & [Ho Hos] & [Ha Has] & ->). eexists. split.
    + rewrite bool_decide_false by done. cbn [reject mbind result_bind].
      rewrite (proj2 (bind_operations_Ok layer _ R _) (conj Ho (conj Ha eq_refl))). reflexivity.
    + apply IH. split_and!; try done; [by apply Hseen|]. cbn [rev]. rewrite <-app_assoc. f_equal. apply map_ext.
      intros b. by rewrite Happ.
Qed.
End Binding.

(** ** Plans *)

Lemma windows_any_map {A B} (g : A -> B) (f : B -> B -> bool) l :
  windows_any (fun x y => f (g x) (g y)) l = windows_any f (map g l).
Proof.
  induction l as [|x l IH]; [done|]. destruct l as [|y l]; [done|]. rewrite windows_any_cons, IH. done.
Qed.

#[export] Instance base_le_total : Total base_le.
Proof. intros x y. apply ord_le_total. Qed.
#[export] Instance base_le_trans : Transitive base_le.
Proof. intros x y z. unfold base_le. apply ord_le_trans. Qed.

Lemma base_le_sorted bases : StronglySorted base_le bases -> StronglySorted ord_le (base_names bases).
Proof.
  induction 1 as [|b bases _ IH Hb]; [constructor|]. cbn [base_names map]. constructor; [exact IH|].
  apply Forall_map. eapply Forall_impl; [exact Hb|done].
Qed.

Lemma windows_bases bases :
  windows_any (fun x y => bool_decide (base_name x = base_name y)) (merge_sort base_le bases) = false <->
  NoDup (base_names bases).
Proof.
  assert (NoDup (base_names bases) <-> NoDup (base_names (merge_sort base_le bases))) as ->
    by (unfold base_names; by rewrite (merge_sort_Permutation base_le bases)).
  change (windows_any _ _) with (windows_any (fun x y => (fun n m : TensorName => bool_decide (n = m)) (base_name x) (base_name y))
    (merge_sort base_le bases)).
  rewrite windows_any_map. fold (base_names (merge_sort base_le bases)).
  pose proof (base_le_sorted _ (StronglySorted_merge_sort base_le bases)) as Hs. rewrite (windows_distinct _ Hs). split.
  - intros H. by apply ord_lt_NoDup.
  - by apply sorted_NoDup_lt.
Qed.

(** What a plan needs of its parts. *)
Record build_ok (bases : list BaseTensor) (aliases : AliasTable) (layers : list OverlayLayer)
    (policy : ConflictPolicy) : Prop := {
  build_bases : NoDup (base_names bases);
  build_aliases a t : alias_entries aliases !! a = Some t ->
    a ∉ base_names bases /\ exists b, b ∈ bases /\ resolve aliases a = Ok (base_name b);
  build_layers : NoDup (map layer_id layers);
  build_operations layer k o : layer ∈ layers -> layer_operations layer !! k = Some o ->
    operation_ok bases aliases o /\ N.of_nat k <= u32_MAX;
  build_conflicts : policy = Reject -> forall b, b ∈ bases -> (length (plan_refs aliases layers b) <= 1)%nat
}.

#[export] Instance build_ok_proper : Proper ((≡ₚ) ==> (=) ==> (=) ==> (=) ==> iff) build_ok.
Proof.
  assert (forall bases bases' aliases layers policy, Permutation bases bases' ->
    build_ok bases aliases layers policy -> build_ok bases' aliases layers policy) as H.
  { intros bases bases' aliases layers policy Hp [H1 H2 H3 H4 H5].
    assert (Permutation (base_names bases) (base_names bases')) as Hn by (unfold base_names; by rewrite Hp).
    split; [by rewrite <-Hn| |done| |intros Hr b Hb; apply H5; [done|by rewrite Hp]].
    - intros a t Ha. destruct (H2 a t Ha) as [Hna (b & Hb & Hr)]. rewrite <-Hn. split; [done|].
      exists b. by rewrite <-Hp.
    - intros layer k o Hl Ho. destruct (H4 layer k o Hl Ho) as [(b & Hb & Ht) Hk]. split; [|done].
      exists b. by rewrite <-Hp. }
  intros b1 b2 Hb a ? <- l ? <- p ? <-. split; by apply H.
Qed.

Section Plans.
Context (sha256 : bytes -> bytes) (write_json : OverlayPayload -> result bytes).

Definition plan_bindings_of (bases : list BaseTensor) (aliases : AliasTable) (layers : list OverlayLayer)
  : list OverlayBinding := map (fun b => make_binding b (plan_refs aliases layers b)) bases.

(** The plan of sorted bases. *)
Definition plan_of (bases : list BaseTensor) (aliases : AliasTable) (layers : list OverlayLayer)
    (policy : ConflictPolicy) (mode : CompositionMode) (digest : ContentDigest) : OverlayPlan :=
  {| plan_schema_version := OVERLAY_SCHEMA_VERSION; plan_mode := mode; plan_policy := policy;
     plan_aliases := aliases; plan_bases := bases; plan_layers := layers;
     plan_bindings := plan_bindings_of bases aliases layers; plan_digest := digest |}.

Definition plan_identity (bases : list BaseTensor) (aliases : AliasTable) (layers : list OverlayLayer)
    (policy : ConflictPolicy) (mode : CompositionMode) : OverlayPayload :=
  PlanIdentity OVERLAY_SCHEMA_VERSION mode policy aliases bases layers (plan_bindings_of bases aliases layers).

Lemma check_aliases_Ok bases aliases :
  try_fold (check_alias bases aliases) tt (btree_list (alias_entries aliases)) = Ok tt <->
  forall a t, alias_entries aliases !! a = Some t ->
    a ∉ base_names bases /\ exists b, b ∈ bases /\ resolve aliases a = Ok (base_name b).
Proof using Type.
  assert (forall e, check_alias bases aliases tt e = Ok tt <->
    fst e ∉ base_names bases /\ exists b, b ∈ bases /\ resolve aliases (fst e) = Ok (base_name b)) as He.
  { intros e. unfold check_alias. rewrite bind_Ok. setoid_rewrite bind_Ok. split.
    - intros ([] & Hn%reject_Ok & c & Hc & Hs%reject_Ok). apply bool_decide_eq_false in Hn.
      apply negb_false_iff, bool_decide_eq_true in Hs. rewrite base_index_is_Some in Hn, Hs.
      destruct Hs as (b & Hb & <-). split; [|by exists b]. intros (b' & Heq & Hb')%list_elem_of_fmap. apply Hn.
      by exists b'.
    - intros [Hn (b & Hb & Hr)]. exists tt. split.
      + apply reject_Ok, bool_decide_eq_false. rewrite base_index_is_Some. intros (b' & Hb' & Hn').
        apply Hn. apply list_elem_of_fmap. by exists b'.
      + exists (base_name b). split; [done|]. apply reject_Ok, negb_false_iff, bool_decide_eq_true.
        apply base_index_is_Some. by exists b. }
  assert (forall l, try_fold (check_alias bases aliases) tt l = Ok tt <-> Forall (fun e => check_alias bases aliases tt e = Ok tt) l) as Hl.
  { induction l as [|e l IH]; cbn [try_fold]; [by split; [constructor|]|]. rewrite bind_Ok, Forall_cons, <-IH.
    split; [by intros ([] & ? & ?)|intros [? ?]; by exists tt]. }
  rewrite Hl, Forall_forall. split.
  - intros H a t Ha. apply (He (a, t)), H. by apply btree_list_elem.
  - intros H [a t] Ha%btree_list_elem. apply He. by eapply H.
Qed.

Lemma OverlayPlan_build_Ok bases aliases layers policy mode p :
  OverlayPlan_build sha256 write_json bases aliases layers policy mode = Ok p <->
  build_ok bases aliases layers policy /\
  exists d, payload_digest sha256 write_json "overlay-plan-v1"
      (plan_identity (merge_sort base_le bases) aliases layers policy mode) = Ok d /\
    p = plan_of (merge_sort base_le bases) aliases layers policy mode d.
Proof using Type.
  unfold OverlayPlan_build. cbv zeta. rewrite <-(merge_sort_Permutation base_le bases) at 2.
  assert (forall l, replicate (length l) [] = map (fun b : BaseTensor => @nil OverlayOperationRef) l) as Hrep.
  { induction l as [|b l IH]; [done|]. cbn. by f_equal. }
  assert (forall R, zip_with make_binding (merge_sort base_le bases) (map R (merge_sort base_le bases)) =
    map (fun b => make_binding b (R b)) (merge_sort base_le bases)) as Hzip.
  { intros R. induction (merge_sort base_le bases) as [|b l IH]; [done|]. cbn. by f_equal. }
  assert (forall layers' : list OverlayLayer,
    Forall (fun layer => Forall (fun x => operation_ok (merge_sort base_le bases) aliases (snd x) /\ N.of_nat (fst x) <= u32_MAX)
                         (enumerate (layer_operations layer))) layers' <->
    forall layer k o, layer ∈ layers' -> layer_operations layer !! k = Some o ->
      operation_ok (merge_sort base_le bases) aliases o /\ N.of_nat k <= u32_MAX) as Hops.
  { intros layers'. rewrite Forall_forall. setoid_rewrite Forall_forall. split.
    - intros H layer k o Hl Ho. apply (H layer Hl (k, o)). by apply lookup_enumerate.
    - intros H layer Hl [k o] Hk%lookup_enumerate. by eapply H. }
  rewrite bind_Ok. split.
  - intros ([] & Hw%reject_Ok & H). apply windows_bases in Hw.
    apply bind_Ok in H as ([] & Ha & H). pose proof (proj1 (check_aliases_Ok _ _) Ha) as Ha'. apply bind_Ok in H as ([seen refs] & Hl & H).
    assert (NoDup (base_names (merge_sort base_le bases))) as Hnd
      by (unfold base_names in *; by rewrite (merge_sort_Permutation base_le bases)).
    rewrite Hrep in Hl. apply (bind_layers_Ok _ _ _ Hnd) in Hl as (_ & Hids & Ho & Hc & [= -> ->]).
    rewrite Hzip in H. apply bind_Ok in H as (d & Hdig & [= <-]). split; [|by exists d].
    split; [done|exact Ha'|done|by apply Hops|]. intros Hp b Hb. specialize (Hc Hp b Hb). cbn [app] in Hc.
    destruct (plan_refs aliases layers b); [cbn; lia|by apply Hc].
  - intros ([Hnd Ha Hids Ho Hc] & d & Hdig & ->). exists tt. split.
    { apply reject_Ok, windows_bases. unfold base_names in *. by rewrite <-(merge_sort_Permutation base_le bases). }
    rewrite (proj2 (check_aliases_Ok _ _) Ha). cbn [mbind result_bind]. rewrite Hrep.
    rewrite (proj2 (bind_layers_Ok _ aliases policy Hnd layers [] (fun _ => [])
      (rev (map layer_id layers) ++ [], map (fun b => [] ++ plan_refs aliases layers b) (merge_sort base_le bases)))).
    2: { split_and!; [by apply Forall_true; intros ? ?%elem_of_nil|done|by apply Hops| |reflexivity].
         intros Hp b Hb _. by apply Hc. }
    cbn [mbind result_bind app]. rewrite Hzip. unfold plan_identity, plan_bindings_of in Hdig. by rewrite Hdig.
Qed.
End Plans.

(** * Overlay plans read back, and what a target digest identifies *)

(** ** Parts read back *)

Definition scale_valid (s : FiniteScale) : Prop := FiniteScale_new (scale_bits s) = Ok s.
Definition base_valid (b : BaseTensor) : Prop := BaseTensor_try_from b = Ok b.

Definition operation_valid (o : OverlayOperation) : Prop :=
  match o with
  | Replace _ value _ => source_valid value
  | Add _ value scale _ => source_valid value /\ scale_valid scale
  | LowRank _ down up _ scale _ => source_valid down /\ source_valid up /\ scale_valid scale
  | Overlay.Recipe _ inputs _ recipe => map_Forall (fun _ => source_valid) inputs /\ recipe_valid recipe
  end.

(** Normalizing a scale twice is normalizing it once. *)
Lemma FiniteScale_new_valid v s : FiniteScale_new v = Ok s -> scale_valid s.
Proof.
  unfold scale_valid, FiniteScale_new. intros H. apply bind_Ok in H as (u & Hf & [= <-]). cbn [scale_bits].
  destruct (f64_is_zero v) eqn:E; [done|]. by rewrite Hf, E.
Qed.

Lemma operation_try_from_valid o : operation_valid o -> operation_try_from o = Ok o.
Proof.
  destruct o as [t v i|t v s i|t d u r s i|t inputs shape recipe]; cbn [operation_valid operation_try_from].
  - intros Hv. by rewrite Hv.
  - intros [Hv Hs]. by rewrite Hv; cbn [mbind result_bind]; rewrite Hs.
  - intros (Hd & Hu & Hs). by rewrite Hd; cbn [mbind result_bind]; rewrite Hu; cbn [mbind result_bind]; rewrite Hs.
  - intros [Hi Hr]. assert (forall l, Forall (fun x => source_valid (snd x)) l ->
      try_fold (fun (_ : unit) (input : TensorName * SourceTensor) => _ ← SourceTensor_try_from (snd input); mret tt) tt l = Ok tt) as Hl.
    { induction 1 as [|x l Hx _ IH]; [done|]. cbn [try_fold]. by rewrite Hx. }
    rewrite Hl. { cbn [mbind result_bind]. by rewrite Hr. }
    apply Forall_forall. intros [k s] Hk%btree_list_elem. by apply (Hi k).
Qed.

Lemma operation_try_from_Ok w o : operation_try_from w = Ok o -> operation_valid o.
Proof.
  destruct w as [t v i|t v s i|t d u r s i|t inputs shape recipe]; cbn [operation_try_from]; intros H.
  - apply bind_Ok in H as (v' & [-> Hv]%SourceTensor_try_from_Ok & [= <-]). done.
  - apply bind_Ok in H as (v' & [-> Hv]%SourceTensor_try_from_Ok & H).
    apply bind_Ok in H as (s' & Hs%FiniteScale_new_valid & [= <-]). done.
  - apply bind_Ok in H as (d' & [-> Hd]%SourceTensor_try_from_Ok & H).
    apply bind_Ok in H as (u' & [-> Hu]%SourceTensor_try_from_Ok & H).
    apply bind_Ok in H as (s' & Hs%FiniteScale_new_valid & [= <-]). done.
  - apply bind_Ok in H as ([] & Hi & H). apply bind_Ok in H as (r' & [-> Hr]%ConversionRecipe_try_from_Ok & [= <-]).
    split; [|done]. intros k s Hk. apply btree_list_elem in Hk.
    assert (forall l, try_fold (fun (_ : unit) (input : TensorName * SourceTensor) => _ ← SourceTensor_try_from (snd input); mret tt) tt l = Ok tt ->
      Forall (fun x => source_valid (snd x)) l) as Hl.
    { clear. induction l as [|x l IH]; [constructor|]. cbn [try_fold].
      intros (u & (s & [-> Hs]%SourceTensor_try_from_Ok & [= <-])%bind_Ok & H)%bind_Ok. constructor; [done|by apply IH]. }
    apply Hl in Hi. rewrite Forall_forall in Hi. by apply (Hi (k, s)).
Qed.

Lemma BaseTensor_try_from_Ok w b : BaseTensor_try_from w = Ok b -> base_valid b.
Proof.
  unfold base_valid. intros H. assert (b = w) as ->; [|done]. unfold BaseTensor_try_from, BaseTensor_new in H.
  apply bind_Ok in H as (n & _ & [= <-]). by destruct w.
Qed.

Section Plans.
Context (sha256 : bytes -> bytes) (write_json : OverlayPayload -> result bytes).

(** A layer that its constructor returns, of valid operations. *)
Record layer_valid (layer : OverlayLayer) : Prop := {
  layer_made : OverlayLayer_new sha256 write_json (layer_source_digests layer) (layer_operations layer) = Ok layer;
  layer_operations_valid : Forall operation_valid (layer_operations layer)
}.

Lemma OverlayLayer_new_valid ds os layer :
  OverlayLayer_new sha256 write_json ds os = Ok layer -> Forall operation_valid os -> layer_valid layer.
Proof using Type.
  intros H Ho. assert (layer_source_digests layer = ds /\ layer_operations layer = os) as [H1 H2].
  { unfold OverlayLayer_new in H. repeat (apply bind_Ok in H as (? & _ & H)). by injection H as <-. }
  split; by rewrite ?H1, ?H2.
Qed.

Lemma OverlayLayer_new_schema ds os layer :
  OverlayLayer_new sha256 write_json ds os = Ok layer -> layer_schema_version layer = OVERLAY_SCHEMA_VERSION.
Proof using Type. unfold OverlayLayer_new. intros H. repeat (apply bind_Ok in H as (? & _ & H)). by injection H as <-. Qed.

Lemma read_layer_valid layer : layer_valid layer -> read_layer sha256 write_json layer = Ok layer.
Proof using Type.
  intros [Hm Ho]. unfold read_layer. rewrite try_map_id.
  2: { eapply Forall_impl; [exact Ho|]. apply operation_try_from_valid. }
  cbn [mbind result_bind]. unfold OverlayLayer_try_from.
  cbn [layer_schema_version layer_id layer_source_digests layer_operations].
  rewrite (OverlayLayer_new_schema _ _ _ Hm). cbn [N.eqb negb reject mbind result_bind]. rewrite Hm.
  cbn [mbind result_bind]. by rewrite bool_decide_true.
Qed.

Lemma read_layer_Ok w layer : read_layer sha256 write_json w = Ok layer -> layer_valid layer.
Proof using Type.
  unfold read_layer. intros (os & Hos%try_map_Ok & H)%bind_Ok. unfold OverlayLayer_try_from in H.
  apply bind_Ok in H as (u & _ & H). apply bind_Ok in H as (layer' & Hn & H). apply bind_Ok in H as (u' & _ & [= <-]).
  eapply OverlayLayer_new_valid; [exact Hn|]. cbn. clear -Hos.
  induction Hos as [|? ? ? ? H%operation_try_from_Ok _ IH]; by constructor.
Qed.

(** A plan that its constructor returns, of valid parts. *)
Record plan_valid (p : OverlayPlan) : Prop := {
  plan_made : OverlayPlan_build sha256 write_json (plan_bases p) (plan_aliases p) (plan_layers p) (plan_policy p)
    (plan_mode p) = Ok p;
  plan_aliases_ok : alias_ok (plan_aliases p);
  plan_bases_valid : Forall base_valid (plan_bases p);
  plan_layers_valid : Forall layer_valid (plan_layers p)
}.

Lemma merge_sort_bases_id bases :
  NoDup (base_names bases) -> merge_sort base_le (merge_sort base_le bases) = merge_sort base_le bases.
Proof using Type.
  intros Hd. apply (merge_sort_distinct_id base_le base_name).
  - intros x y H1 H2. by apply (anti_symm ord_le).
  - apply (StronglySorted_merge_sort base_le).
  - by rewrite (merge_sort_Permutation base_le bases).
Qed.

Lemma OverlayPlan_build_valid bases aliases layers policy mode p :
  OverlayPlan_build sha256 write_json bases aliases layers policy mode = Ok p ->
  alias_ok aliases -> Forall base_valid bases -> Forall layer_valid layers -> plan_valid p.
Proof using Type.
  intros H Ha Hb Hl. pose proof H as (Hok & d & Hd & ->)%OverlayPlan_build_Ok. split; cbn; try done.
  - apply OverlayPlan_build_Ok. pose proof (build_bases _ _ _ _ Hok) as Hnd.
    rewrite merge_sort_bases_id by done. split; [by rewrite (merge_sort_Permutation base_le bases)|]. by exists d.
  - by rewrite (merge_sort_Permutation base_le bases).
Qed.

Lemma OverlayPlan_try_from_valid p : plan_valid p -> OverlayPlan_try_from sha256 write_json p = Ok p.
Proof using Type.
  intros [Hm _ _ _]. unfold OverlayPlan_try_from.
  assert (plan_schema_version p = OVERLAY_SCHEMA_VERSION) as -> by (by apply OverlayPlan_build_Ok in Hm as (_ & d & _ & ->)).
  cbn [N.eqb negb reject mbind result_bind]. rewrite Hm. cbn [mbind result_bind]. by rewrite !bool_decide_true.
Qed.

(** A valid plan is read as itself, and only valid plans are read. *)
Lemma read_overlay_plan_valid p : plan_valid p -> read_plan sha256 write_json p = Ok p.
Proof using Type.
  intros Hp. pose proof Hp as [_ Ha Hb Hl]. unfold read_plan. rewrite AliasTable_try_from_ok by done.
  cbn [mbind result_bind]. rewrite (try_map_id BaseTensor_try_from _ Hb). cbn [mbind result_bind].
  rewrite try_map_id. 2: { eapply Forall_impl; [exact Hl|]. apply read_layer_valid. }
  cbn [mbind result_bind].
  replace {| plan_schema_version := plan_schema_version p; plan_mode := plan_mode p; plan_policy := plan_policy p;
     plan_aliases := plan_aliases p; plan_bases := plan_bases p; plan_layers := plan_layers p;
     plan_bindings := plan_bindings p; plan_digest := plan_digest p |} with p by by destruct p.
  by apply OverlayPlan_try_from_valid.
Qed.

Lemma read_plan_Ok w p : read_plan sha256 write_json w = Ok p -> plan_valid p.
Proof using Type.
  unfold read_plan. intros (aliases & Ha & H)%bind_Ok. apply bind_Ok in H as (bases & Hb%try_map_Ok & H).
  apply bind_Ok in H as (layers & Hl%try_map_Ok & H). unfold OverlayPlan_try_from in H.
  apply bind_Ok in H as (u & _ & H). apply bind_Ok in H as (p' & Hp & H). apply bind_Ok in H as (u' & _ & [= <-]).
  cbn in Hp. apply AliasTable_new_Ok in Ha as (_ & _ & Ha). eapply OverlayPlan_build_valid; [exact Hp|done|..].
  - clear -Hb. induction Hb as [|? ? ? ? H%BaseTensor_try_from_Ok _ IH]; by constructor.
  - clear -Hl. induction Hl as [|? ? ? ? H%read_layer_Ok _ IH]; by constructor.
Qed.

(** The texts of plans: what is read was written from it, and what is written
    from a valid plan is read back. *)
Lemma overlay_from_canonical_json_Ok parse bs p :
  from_canonical_json sha256 write_json parse bs = Ok p <->
  plan_valid p /\ canonical_json write_json (PlanPayload p) = Ok bs /\
  exists w, parse bs = Some w /\ read_plan sha256 write_json w = Ok p.
Proof using Type.
  unfold from_canonical_json. rewrite bind_Ok. split.
  - intros (w & Hw%ok_or_Ok & H). apply bind_Ok in H as (p' & Hp & H).
    assert (read_plan sha256 write_json w = Ok p') as Hr by (by destruct (read_plan sha256 write_json w); congruence).
    apply bind_Ok in H as (c & Hc & H). apply bind_Ok in H as (u & Hb%reject_Ok & [= <-]). bool_to_prop. subst c.
    split; [by eapply read_plan_Ok|]. split; [done|]. by exists w.
  - intros (_ & Hc & w & Hw & Hr). exists w. rewrite Hw. split; [done|]. rewrite Hr. cbn [mbind result_bind]. rewrite Hc.
    cbn [mbind result_bind]. by rewrite bool_decide_true.
Qed.
End Plans.

(** * Target digests

    The digest of a target is a function of the base it resolves to, of the
    operations bound to it and of the digests those operations refer to. *)

(** ** Files of an operation *)

Definition operation_ordinals (o : OverlayOperation) : list N :=
  concat (map (fun s => storage_ordinals (source_storage s)) (operation_sources o)).

(** Each file once, in order. *)
Definition distinct_ordinals (o : OverlayOperation) : list N := dedup (merge_sort N.le (operation_ordinals o)).

(** Every file of an operation has a digest. *)
Definition ordinals_covered (layer : OverlayLayer) (o : OverlayOperation) : Prop :=
  Forall (fun f => f < N.of_nat (length (layer_source_digests layer)) /\ f <= usize_MAX) (operation_ordinals o).

Lemma missing_digest_false l n : missing_digest l n = Ok false <-> Forall (fun f => f < n /\ f <= usize_MAX) l.
Proof.
  induction l as [|f l IH]; cbn [missing_digest]; [by split|]. rewrite bind_Ok, Forall_cons, <-IH. split.
  - intros (f' & [-> Hu]%usize_try_from_Ok & H). destruct (N.leb_spec n f); [done|]. done.
  - intros [[Hn Hu] H]. exists f. rewrite usize_try_from_Ok. split; [done|]. by rewrite (proj2 (N.leb_gt _ _)).
Qed.

Lemma validate_operation_sources_Ok o n :
  validate_operation_sources o n = Ok tt <-> Forall (fun f => f < n /\ f <= usize_MAX) (operation_ordinals o).
Proof.
  unfold validate_operation_sources, operation_ordinals. rewrite Forall_concat, Forall_map.
  rewrite (try_fold_unit_Ok (fun s => missing ← storage_has_missing_digest (source_storage s) n; reject missing Binding)).
  apply Forall_iff. intros s. rewrite bind_Ok, <-missing_digest_false. unfold storage_has_missing_digest. split.
  - intros (b & Hb & ->%reject_Ok). done.
  - intros H. exists false. by split.
Qed.

Section Targets.
Context (sha256 : bytes -> bytes) (write_json : OverlayPayload -> result bytes).

Lemma layer_covered layer o :
  layer_valid sha256 write_json layer -> o ∈ layer_operations layer -> ordinals_covered layer o.
Proof using Type.
  intros [Hm _] Ho. unfold OverlayLayer_new in Hm. apply bind_Ok in Hm as (u & _ & Hm).
  apply bind_Ok in Hm as ([] & Hf & _).
  rewrite (try_fold_unit_Ok (fun o => _ ← validate_operation_sources o _; validate_recipe_inputs o)) in Hf.
  rewrite Forall_forall in Hf. specialize (Hf o Ho). apply bind_Ok in Hf as ([] & Hv & _).
  by apply validate_operation_sources_Ok in Hv.
Qed.

(** ** Referenced digests *)

Definition referenced (layer : OverlayLayer) (o : OverlayOperation) : list ReferencedSourceDigest :=
  omap (fun f => (fun c => {| file_ordinal := f; referenced_content := c |}) <$> layer_source_digests layer !! N.to_nat f)
    (distinct_ordinals o).

(** The lists that the digest of an operation builds can be allocated. *)
Definition operation_fits (o : OverlayOperation) : Prop :=
  REFERENCED_DIGEST_BYTES * N.of_nat (length (operation_ordinals o)) <= isize_MAX.

Lemma push_all_ordinals (l acc : list N) :
  succeeds (for_each l (fun o ordinals => _ ← check; mret (ordinals ++ [o])) acc) (fun r => r = acc ++ l).
Proof using Type.
  revert acc. induction l as [|o l IH]; intros acc; cbn [for_each]; [apply succeeds_ret; by rewrite app_nil_r|].
  apply succeeds_bind, succeeds_check_bind, succeeds_ret. eapply succeeds_mono; [apply IH|]. intros r ->. by rewrite <-app_assoc.
Qed.

Lemma extend_ordinals_succeeds s acc :
  36 * N.of_nat (length (acc ++ storage_ordinals (source_storage s))) <= isize_MAX ->
  succeeds (extend_ordinals s acc) (fun r => r = acc ++ storage_ordinals (source_storage s)).
Proof using Type.
  intros Hfit. unfold extend_ordinals. apply succeeds_check_bind. cbv zeta.
  assert (storage_ordinals (source_storage s) =
    ordinal (span_file (storage_span (source_storage s))) :: tail (storage_ordinals (source_storage s))) as Hs by done.
  rewrite Hs in Hfit |- *. cbn [tail]. set (l := tail (storage_ordinals (source_storage s))) in *. clearbody l.
  rewrite length_app in Hfit. cbn [length] in Hfit. assert (isize_MAX + 1 <= u64_MAX) by done.
  apply (succeeds_lift_bind _ (N.of_nat (length l) + 1)); [by rewrite checked_add_ok by lia|].
  apply succeeds_reserve_bind; [lia|]. eapply succeeds_mono; [apply push_all_ordinals|]. intros r ->. by rewrite <-app_assoc.
Qed.

Lemma collect_ordinals sources : forall acc,
  36 * N.of_nat (length (acc ++ concat (map (fun s => storage_ordinals (source_storage s)) sources))) <= isize_MAX ->
  succeeds (for_each sources extend_ordinals acc)
    (fun r => r = acc ++ concat (map (fun s => storage_ordinals (source_storage s)) sources)).
Proof using Type.
  induction sources as [|s sources IH]; intros acc Hfit; cbn [for_each map concat] in *;
    [apply succeeds_ret; by rewrite app_nil_r|].
  apply succeeds_bind. eapply succeeds_mono; [apply extend_ordinals_succeeds|].
  { rewrite !length_app in *. lia. }
  intros r ->. eapply succeeds_mono; [apply IH; by rewrite <-app_assoc|]. intros r ->. by rewrite <-app_assoc.
Qed.

Lemma collect_referenced layer l : forall acc,
  Forall (fun f => f < N.of_nat (length (layer_source_digests layer)) /\ f <= usize_MAX) l ->
  succeeds (for_each l (referenced_digest layer) acc) (fun r => r = acc ++
    omap (fun f => (fun c => {| file_ordinal := f; referenced_content := c |}) <$> layer_source_digests layer !! N.to_nat f) l).
Proof using Type.
  induction l as [|f l IH]; intros acc Hl; cbn [for_each]; [apply succeeds_ret; by rewrite app_nil_r|].
  apply Forall_cons in Hl as [[Hn Hu] Hl]. apply succeeds_bind. unfold referenced_digest at 1. apply succeeds_check_bind.
  destruct (lookup_lt_is_Some_2 (layer_source_digests layer) (N.to_nat f)) as [c Hc]; [lia|].
  apply (succeeds_lift_bind _ f); [by apply usize_try_from_Ok|]. apply (succeeds_lift_bind _ c); [by rewrite Hc|].
  apply succeeds_ret. eapply succeeds_mono; [by apply IH|]. intros r ->. csimpl. rewrite Hc. csimpl. by rewrite <-app_assoc.
Qed.

Lemma referenced_source_digests_succeeds layer o :
  ordinals_covered layer o -> operation_fits o ->
  succeeds (referenced_source_digests layer o) (fun r => r = referenced layer o).
Proof using Type.
  intros Hc Hfit. unfold referenced_source_digests. apply succeeds_bind.
  eapply succeeds_mono; [by apply (collect_ordinals (operation_sources o) [])|]. intros r ->. cbn [app]. cbv zeta.
  fold (operation_ordinals o). fold (distinct_ordinals o).
  assert (length (distinct_ordinals o) <= length (operation_ordinals o))%nat as Hlen.
  { unfold distinct_ordinals. etrans; [apply dedup_length|]. by rewrite merge_sort_Permutation. }
  apply succeeds_reserve_bind; [unfold operation_fits, REFERENCED_DIGEST_BYTES in *; lia|]. apply succeeds_bind.
  eapply succeeds_mono; [apply collect_referenced|].
  { apply Forall_forall. intros f. unfold distinct_ordinals. rewrite dedup_elem, merge_sort_Permutation.
    revert f. by apply Forall_forall. }
  intros r ->. by apply succeeds_check_bind, succeeds_ret.
Qed.

(** ** The digest of a target *)

Context (Hwrite : forall v, exists bs, write_json v = Ok bs).

(** The text of a value. *)
Definition text (v : OverlayPayload) : bytes := match write_json v with Ok bs => bs | _ => [] end.

Lemma canonical_json_text v : canonical_json write_json v = Ok (text v).
Proof using Hwrite. unfold canonical_json, text. by destruct (Hwrite v) as [bs ->]. Qed.

Definition operation_payload (x : OverlayLayer * OverlayOperation) : OverlayPayload :=
  TargetOperationIdentity (snd x) (referenced (fst x) (snd x)).

Definition operation_value (x : OverlayLayer * OverlayOperation) : ContentDigest :=
  digest_hash sha256 (domain "overlay-target-operation-v1") [text (operation_payload x)].

Lemma target_operation_digest_succeeds layer o :
  ordinals_covered layer o -> operation_fits o ->
  succeeds (target_operation_digest sha256 write_json layer o) (fun d => d = operation_value (layer, o)).
Proof using Hwrite.
  intros Hc Hf. unfold target_operation_digest. apply succeeds_check_bind, succeeds_bind.
  eapply succeeds_mono; [by apply referenced_source_digests_succeeds|]. intros ds ->.
  eapply succeeds_lift_bind; [apply canonical_json_text|]. by apply succeeds_check_bind, succeeds_ret.
Qed.

(** The operations that a plan binds to a base, with their layers. *)
Definition target_operations (p : OverlayPlan) (b : BaseTensor) : list (OverlayLayer * OverlayOperation) :=
  concat (map (fun layer => map (pair layer)
    (filter (fun o => targets (plan_aliases p) o b) (layer_operations layer))) (plan_layers p)).

Definition target_payload (p : OverlayPlan) (b : BaseTensor) : OverlayPayload :=
  TargetIdentity (plan_mode p) (plan_policy p) b (map operation_value (target_operations p b)).

Definition target_value (p : OverlayPlan) (b : BaseTensor) : ContentDigest :=
  digest_hash sha256 (domain "overlay-target-v2") [text (target_payload p b)].

Lemma layer_of_elem layers layer :
  NoDup (map layer_id layers) -> layer ∈ layers -> layer_of layers (layer_id layer) = Some layer.
Proof using Type.
  intros Hd Hin. unfold layer_of.
  assert (NoDup (map layer_id (rev layers))) as Hd' by (by rewrite (Permutation_rev layers) in Hd).
  assert (layer ∈ rev layers) as Hin' by (by rewrite <-(Permutation_rev layers)).
  clear Hd Hin. induction (rev layers) as [|l ls IH]; [by apply elem_of_nil in Hin'|]. cbn [List.find].
  cbn [map] in Hd'. apply NoDup_cons in Hd' as [Hni Hd']. case_bool_decide as Hid.
  - apply elem_of_cons in Hin' as [->|Hin']; [done|]. exfalso. apply Hni. rewrite Hid.
    apply list_elem_of_fmap. by exists layer.
  - apply elem_of_cons in Hin' as [->|Hin']; [done|]. by apply IH.
Qed.

(** A reference and the operation it stands for. *)
Record refers (layers : list OverlayLayer) (r : OverlayOperationRef) (x : OverlayLayer * OverlayOperation) : Prop := {
  refers_layer : layer_of layers (ref_layer r) = Some (fst x);
  refers_index : ref_index r <= usize_MAX;
  refers_operation : layer_operations (fst x) !! N.to_nat (ref_index r) = Some (snd x);
  refers_member : fst x ∈ layers
}.

Lemma layer_refers layers aliases layer b :
  NoDup (map layer_id layers) -> layer ∈ layers ->
  (forall k o, layer_operations layer !! k = Some o -> N.of_nat k <= u32_MAX) ->
  Forall2 (refers layers) (layer_refs aliases b layer)
    (map (pair layer) (filter (fun o => targets aliases o b) (layer_operations layer))).
Proof using Type.
  intros Hd Hin Hk. unfold layer_refs, operation_refs, enumerate.
  assert (forall l i, (forall j o, l !! j = Some o -> layer_operations layer !! (i + j)%nat = Some o) ->
    Forall2 (refers layers)
      (omap (fun '(k, o) => if bool_decide (targets aliases o b)
                            then Some {| ref_layer := layer_id layer; ref_index := N.of_nat k |} else None)
         (zip (seq i (length l)) l))
      (map (pair layer) (filter (fun o => targets aliases o b) l))) as H; [|by apply (H _ 0%nat)].
  induction l as [|o l IH]; intros i Hl; [constructor|]. cbn [length seq zip zip_with].
  assert (layer_operations layer !! i = Some o) as Ho by (rewrite <-(Nat.add_0_r i); by apply (Hl 0%nat)).
  rewrite filter_cons. csimpl.
  assert (Forall2 (refers layers)
      (omap (fun '(k, o) => if bool_decide (targets aliases o b)
                            then Some {| ref_layer := layer_id layer; ref_index := N.of_nat k |} else None)
         (zip (seq (S i) (length l)) l))
      (map (pair layer) (filter (fun o => targets aliases o b) l))) as Hrest.
  { apply IH. intros j o' Hj. rewrite Nat.add_succ_comm. by apply (Hl (S j)). }
  case_decide as Ht; [rewrite bool_decide_true by done|rewrite bool_decide_false by done]; [|done].
  constructor; [|done]. split; cbn [ref_layer ref_index fst snd]; [by apply layer_of_elem| |by rewrite Nat2N.id|done].
  specialize (Hk i o Ho). assert (u32_MAX <= usize_MAX) by done. lia.
Qed.

Lemma plan_refers p b :
  plan_valid sha256 write_json p ->
  Forall2 (refers (plan_layers p)) (plan_refs (plan_aliases p) (plan_layers p) b) (target_operations p b).
Proof using Type.
  intros [Hm _ _ _]. apply OverlayPlan_build_Ok in Hm as [[_ _ Hd Ho _] _]. unfold plan_refs, target_operations.
  assert (forall layers, layers ⊆ plan_layers p -> Forall2 (refers (plan_layers p))
    (concat (map (layer_refs (plan_aliases p) b) layers))
    (concat (map (fun layer => map (pair layer)
      (filter (fun o => targets (plan_aliases p) o b) (layer_operations layer))) layers))) as H; [|by apply H].
  induction layers as [|layer layers IH]; intros Hsub; [constructor|]. cbn [map concat]. apply Forall2_app.
  - apply layer_refers; [done|apply Hsub; by left|]. intros k o Hk. by apply (Ho layer k o); [apply Hsub; left|].
  - apply IH. intros l Hl. apply Hsub. by right.
Qed.

Lemma binding_digests_succeed p refs xs acc :
  plan_valid sha256 write_json p -> Forall2 (refers (plan_layers p)) refs xs ->
  Forall (fun x => operation_fits (snd x)) xs ->
  succeeds (for_each refs (binding_operation_digest sha256 write_json (plan_layers p)) acc)
    (fun r => r = acc ++ map operation_value xs).
Proof using Hwrite.
  intros Hp Hr. revert acc. induction Hr as [|r [layer o] refs xs [Hl Hi Ho Hm] _ IH]; intros acc Hfit; cbn [for_each].
  { apply succeeds_ret. by rewrite app_nil_r. }
  apply Forall_cons in Hfit as [Hf Hfit]. cbn [fst snd] in *. apply succeeds_bind. unfold binding_operation_digest at 1.
  apply succeeds_check_bind, (succeeds_lift_bind _ layer); [by rewrite Hl|].
  apply (succeeds_lift_bind _ (ref_index r)); [by apply usize_try_from_Ok|].
  apply (succeeds_lift_bind _ o); [by rewrite Ho|]. apply succeeds_bind.
  eapply succeeds_mono; [apply target_operation_digest_succeeds; [|done]|].
  { apply layer_covered; [|by eapply list_elem_of_lookup_2]. pose proof (plan_layers_valid _ _ _ Hp) as Hv.
    rewrite Forall_forall in Hv. by apply Hv. }
  intros d ->. apply succeeds_ret. eapply succeeds_mono; [by apply IH|]. intros ds ->. by rewrite <-app_assoc.
Qed.

(** The operations bound to a base fit the memory of a digest. *)
Record target_fits (p : OverlayPlan) (b : BaseTensor) : Prop := {
  fits_operations : Forall (fun x => operation_fits (snd x)) (target_operations p b);
  fits_count : 32 * N.of_nat (length (target_operations p b)) <= isize_MAX
}.

Lemma find_binding p b :
  plan_valid sha256 write_json p -> b ∈ plan_bases p ->
  List.find (fun x => bool_decide (base_name (binding_base x) = base_name b)) (plan_bindings p) =
  Some (make_binding b (plan_refs (plan_aliases p) (plan_layers p) b)).
Proof using Type.
  intros [Hm _ _ _] Hb. pose proof Hm as ([Hd _ _ _ _] & d & _ & Hp)%OverlayPlan_build_Ok.
  pose proof (f_equal plan_bindings Hp) as Hbind. pose proof (f_equal plan_bases Hp) as Hbases.
  cbn [plan_of plan_bindings plan_bases] in Hbind, Hbases. rewrite <-Hbases in Hbind. rewrite Hbind. unfold plan_bindings_of.
  clear Hm Hp Hbases Hbind. induction (plan_bases p) as [|b' bs IH]; [by apply elem_of_nil in Hb|].
  cbn [map List.find base_names] in *. apply NoDup_cons in Hd as [Hni Hd]. cbn [make_binding binding_base].
  apply elem_of_cons in Hb as [->|Hb]; [by rewrite bool_decide_true|]. rewrite bool_decide_false; [by apply IH|].
  intros Heq. apply Hni. rewrite Heq. apply list_elem_of_fmap. by exists b.
Qed.

Lemma target_digest_succeeds p name b :
  plan_valid sha256 write_json p -> b ∈ plan_bases p -> resolve (plan_aliases p) name = Ok (base_name b) ->
  target_fits p b ->
  succeeds (target_digest sha256 write_json p name) (fun d => d = target_value p b).
Proof using Hwrite.
  intros Hp Hb Hr [Hf Hc]. pose proof (plan_refers p b Hp) as Hrefs. unfold target_digest.
  apply succeeds_check_bind, (succeeds_lift_bind _ (base_name b)); [done|].
  apply succeeds_check_bind. eapply succeeds_lift_bind; [by rewrite (find_binding p b Hp Hb)|].
  cbn [binding_operations binding_base make_binding]. apply succeeds_check_bind, succeeds_bind.
  eapply succeeds_mono; [apply (succeeds_for_each (fun _ _ => True)); [done|intros; by apply succeeds_check]|].
  intros _ _. apply succeeds_check_bind, succeeds_reserve_bind; [by rewrite (Forall2_length _ _ _ Hrefs)|].
  apply succeeds_bind. eapply succeeds_mono; [by apply (binding_digests_succeed p _ _ [] Hp Hrefs)|]. intros ds ->.
  apply succeeds_check_bind. eapply succeeds_lift_bind; [apply canonical_json_text|].
  by apply succeeds_check_bind, succeeds_check_bind, succeeds_ret.
Qed.

(** ** What the digest identifies *)

(** The payloads of a target, written to texts that an allocation can hold and
    that tell them apart from those of another target. *)
Definition target_payloads (p : OverlayPlan) (b : BaseTensor) : list OverlayPayload :=
  target_payload p b :: map operation_payload (target_operations p b).

Definition distinguished (vs ws : list OverlayPayload) : Prop :=
  forall v w, v ∈ vs -> w ∈ ws -> text v = text w -> v = w.

Definition texts_fit (vs : list OverlayPayload) : Prop := Forall (fun v => fits_u128 (text v)) vs.

Lemma digest_text_inj name v w :
  fits_u128 (domain name) -> fits_u128 (text v) -> fits_u128 (text w) ->
  digest_hash sha256 (domain name) [text v] = digest_hash sha256 (domain name) [text w] ->
  text v = text w \/ exists a b, a <> b /\ sha256 a = sha256 b.
Proof using Type.
  intros Hn Hv Hw [= H]. destruct (decide (hash_preimage (domain name) [text v] = hash_preimage (domain name) [text w])) as [E|E].
  - left. apply hash_preimage_inj in E as [_ [= E]]; [done|done|done|by repeat constructor..].
  - right. eauto.
Qed.

Lemma operation_values_inj xs ys :
  distinguished (map operation_payload xs) (map operation_payload ys) ->
  texts_fit (map operation_payload xs) -> texts_fit (map operation_payload ys) ->
  map operation_value xs = map operation_value ys ->
  map operation_payload xs = map operation_payload ys \/ exists a b, a <> b /\ sha256 a = sha256 b.
Proof using Type.
  revert ys. induction xs as [|x xs IH]; intros [|y ys] Hd Hx Hy; cbn [map]; try done; [by left|].
  intros [= Hxy Hrest]. cbn [map] in *. apply Forall_cons in Hx as [Hx Hxs]. apply Forall_cons in Hy as [Hy Hys].
  destruct (digest_text_inj "overlay-target-operation-v1" (operation_payload x) (operation_payload y)) as [E|Hcol];
    [done|done|done|by unfold digest_hash; f_equal| |by right].
  destruct (IH ys) as [Es|Hcol]; [|done|done|done| |by right].
  { intros v w Hv Hw. apply Hd; by right. }
  left. f_equal; [|done]. apply Hd; [by left|by left|done].
Qed.

Lemma target_value_inj p q b c :
  distinguished (target_payloads p b) (target_payloads q c) ->
  texts_fit (target_payloads p b) -> texts_fit (target_payloads q c) ->
  target_value p b = target_value q c ->
  (plan_mode p = plan_mode q /\ plan_policy p = plan_policy q /\ b = c /\
   map operation_payload (target_operations p b) = map operation_payload (target_operations q c)) \/
  exists x y, x <> y /\ sha256 x = sha256 y.
Proof using Type.
  intros Hd [Hp Hps]%Forall_cons [Hq Hqs]%Forall_cons Hv.
  destruct (digest_text_inj "overlay-target-v2" (target_payload p b) (target_payload q c)) as [E|Hcol];
    [done|done|done|done| |by right].
  apply Hd in E; [|by left|by left]. injection E as Em Ep Eb Eo.
  destruct (operation_values_inj (target_operations p b) (target_operations q c)) as [Es|Hcol]; [|done|done|done| |by right].
  { intros v w Hvin Hwin. apply Hd; by right. }
  left. done.
Qed.
End Targets.
