(* ===== verification/Checkpoint.v ===== *)
(** * Checkpoints of [checkpoint.rs] and sources of [source.rs]

    Opening sources, reading headers of both formats, reading tensor bytes, and
    content digests. What an open file returns (its bytes, its metadata, a
    mapping of it) and SHA-256 are parameters. *)

From S2P Require Import Prelude Errors Cancel Tensor Identity Order Limits Quantization Inventory.
From S2P Require Import Cast FileReader Gguf Json Safetensors.
From Stdlib Require Strings.String.
Local Open Scope N_scope.

(** ** Handles *)

Record Metadata := {
  meta_is_file : bool;
  meta_len : N;
  meta_modified : option N
}.

(** An open file: its bytes and reads, its metadata at the n-th interaction of
    a call, and the mapping of a clone of it, at an address that the system
    chose. *)
Record Handle := {
  handle_file : File;
  metadata_at : nat -> result Metadata;
  map_at : nat -> result ByteOwner
}.

Definition file_metadata (h : Handle) : M Metadata := fun _ t =>
  match metadata_at h t with
  | Ok m => Ok (m, S t)
  | Err e => Err e
  | Panic => Panic
  end.

(** The outcome of mapping as a value: a caller may recover from an error. *)
Definition map_file (h : Handle) : M (result ByteOwner) := fun _ t => Ok (map_at h t, S t).

Record FileStamp := {
  stamp_length : N;
  stamp_modified : option N
}.

#[export] Instance FileStamp_eq_dec : EqDecision FileStamp.
Proof. solve_decision. Defined.

Definition FileStamp_from_metadata (m : Metadata) : FileStamp :=
  {| stamp_length := meta_len m; stamp_modified := meta_modified m |}.

(** ** Sources *)

#[export] Instance SourceKind_eq_dec : EqDecision SourceKind.
Proof. solve_decision. Defined.

Record SourceDescriptor := {
  logical_path : RepoPath;
  local_path : string;
  opened : result Handle;
  expected_size : option N;
  digest_policy : DigestPolicy;
  source_kind : SourceKind;
  retained_file : bool;
  retention : bool
}.

Definition path_components (path : string) : list bytes :=
  List.filter (fun c => negb (bool_decide (c = [])) && negb (bool_decide (c = dot)))
    (split_slash (String.list_byte_of_string path)).

(** [Path::file_name]. *)
Definition file_name (path : string) : option bytes :=
  name ← last (path_components path);
  if bool_decide (name = dot_dot) then None else Some name.

(** [Path::extension]: what follows the last dot, unless the dot is first. *)
Fixpoint after_dot (bs : bytes) : option bytes :=
  match bs with
  | [] => None
  | b :: bs =>
      match after_dot bs with
      | Some extension => Some extension
      | None => if bool_decide (b = Byte.x2e) then Some bs else None
      end
  end.
Definition extension (path : string) : option bytes :=
  name ← file_name path;
  match name with
  | [] => None
  | _ :: tail => after_dot tail
  end.

Definition ascii_lower (b : byte) : byte :=
  let n := Byte.to_N b in if (65 <=? n) && (n <=? 90) then byte_of_N (n + 32) else b.

Definition gguf_extension (path : string) : bool :=
  match extension path with
  | Some e => bool_decide (map ascii_lower e = [Byte.x67; Byte.x67; Byte.x75; Byte.x66])
  | None => false
  end.

(** [SourceDescriptor::local]: [opened] is what opening the path returns. *)
Definition source_local (path : string) (opened : result Handle) : result SourceDescriptor :=
  name ← ok_or (file_name path) InvalidPath;
  logical ← RepoPath_parse (String.string_of_list_byte name);
  mret {| logical_path := logical; local_path := path; opened := opened; expected_size := None;
          digest_policy := ComputeOnDemand; source_kind := Local; retained_file := false; retention := false |}.

Definition with_expected (size : N) (policy : DigestPolicy) (s : SourceDescriptor) : SourceDescriptor :=
  {| logical_path := logical_path s; local_path := local_path s; opened := opened s;
     expected_size := Some size; digest_policy := policy; source_kind := source_kind s;
     retained_file := retained_file s; retention := retention s |}.

Definition source_local_with_digest (path : string) (opened : result Handle) (size : N)
    (digest : ContentDigest) : result SourceDescriptor :=
  s ← source_local path opened; mret (with_expected size (VerifyOnDemand digest) s).

Definition source_local_with_trusted_digest (path : string) (opened : result Handle) (size : N)
    (digest : ContentDigest) : result SourceDescriptor :=
  s ← source_local path opened; mret (with_expected size (TrustExternal digest) s).

Definition source_retained (logical path : string) (opened : result Handle) (size : N)
    (digest : ContentDigest) : result SourceDescriptor :=
  logical ← RepoPath_parse logical;
  mret {| logical_path := logical; local_path := path; opened := opened; expected_size := Some size;
          digest_policy := TrustRetained digest; source_kind := RetainedSnapshot;
          retained_file := false; retention := true |}.

(** [SourceDescriptor::retained_file], for a file whose metadata is given. *)
Definition source_retained_file (logical : string) (metadata : result Metadata) (opened : result Handle)
    (size : N) (digest : ContentDigest) : result SourceDescriptor :=
  logical ← RepoPath_parse logical;
  metadata ← metadata;
  _ ← reject (negb (meta_is_file metadata)) InvalidFormat;
  _ ← reject (negb (meta_len metadata =? size)) Integrity;
  mret {| logical_path := logical; local_path := repo_path logical; opened := opened;
          expected_size := Some size; digest_policy := TrustRetained digest;
          source_kind := RetainedSnapshot; retained_file := true; retention := true |}.

Definition with_logical_path (logical : string) (s : SourceDescriptor) : result SourceDescriptor :=
  logical ← RepoPath_parse logical;
  mret {| logical_path := logical;
          local_path := if retained_file s then repo_path logical else local_path s;
          opened := opened s; expected_size := expected_size s; digest_policy := digest_policy s;
          source_kind := source_kind s; retained_file := retained_file s; retention := retention s |}.

(** ** Open files *)

Definition SOURCE_READ_BLOCK_BYTES : N := 1024 * 1024.

Inductive AccessMode := Auto | Read | Mmap.
Inductive CheckpointFormat := SafetensorsFormat | GgufFormat.

#[export] Instance AccessMode_eq_dec : EqDecision AccessMode.
Proof. solve_decision. Defined.
#[export] Instance CheckpointFormat_eq_dec : EqDecision CheckpointFormat.
Proof. solve_decision. Defined.

Record OpenFile := {
  source : SourceDescriptor;
  open_id : FileId;
  handle : Handle;
  open_size : N;
  stamp : FileStamp;
  digest_cell : option ContentDigest;
  mapping_cell : option ByteOwner
}.

Record ParsedSource := {
  parsed_format : CheckpointFormat;
  parsed_metadata : option GgufMetadata;
  parsed_tensors : list TensorRecord
}.

Definition OpenFile_open (source : SourceDescriptor) (id : FileId) : M OpenFile :=
  handle ← lift (opened source);
  metadata ← file_metadata handle;
  _ ← lift (reject (negb (meta_is_file metadata)) InvalidFormat);
  let size := meta_len metadata in
  _ ← lift (reject (match expected_size source with
                    | Some expected => negb (expected =? size)
                    | None => false end) Integrity);
  mret {| source := source; open_id := id; handle := handle; open_size := size;
          stamp := FileStamp_from_metadata metadata; digest_cell := None; mapping_cell := None |}.

(** [OpenFile::record]. *)
Definition open_record (f : OpenFile) : FileRecord :=
  {| file_id := open_id f; file_path := logical_path (source f); record_size := open_size f;
     file_kind := source_kind (source f); file_digest := DigestState_from (digest_policy (source f)) |}.

(** One block of [chunks_mut(SOURCE_READ_BLOCK_BYTES)] of a buffer of so many
    bytes, read from a base offset. *)
Definition read_block (f : File) (base length : N) (block_index : N) (bs : bytes) : M bytes :=
  _ ← check;
  relative ← lift (ok_or (checked_mul block_index SOURCE_READ_BLOCK_BYTES) ResourceLimit);
  offset ← lift (ok_or (checked_add base relative) ResourceLimit);
  block ← lift (read_exact_at f offset (N.min SOURCE_READ_BLOCK_BYTES (length - relative)));
  mret (bs ++ block).

Definition read_blocks (f : File) (base length : N) : M bytes :=
  _ ← try_reserve_exact length;
  let blocks := (length + (SOURCE_READ_BLOCK_BYTES - 1)) / SOURCE_READ_BLOCK_BYTES in
  bs ← for_range 0 blocks (read_block f base length) [];
  _ ← check;
  mret bs.

Definition parse_safetensors_header (json : bytes -> Document) (f : OpenFile) (limits : ResourceLimits)
  : M (list TensorRecord) :=
  _ ← lift (reject (open_size f <? 8) InvalidFormat);
  prefix ← lift (read_exact_at (handle_file (handle f)) 0 8);
  let header_len := from_le_bytes prefix in
  _ ← lift (reject ((header_len =? 0) || (max_header_bytes limits <? header_len)) ResourceLimit);
  data_base ← lift (ok_or (checked_add 8 header_len) ResourceLimit);
  _ ← lift (reject (open_size f <? data_base) InvalidFormat);
  header_size ← lift (usize_try_from header_len);
  header ← read_blocks (handle_file (handle f)) 8 header_size;
  raw ← parse_header_json json header limits;
  _ ← check;
  data_length ← lift (unchecked_sub (open_size f) data_base);
  validate_tensor_entries (open_id f) data_base data_length raw limits.

Definition parse_source (json : bytes -> Document) (f : OpenFile) (limits : ResourceLimits)
  : M ParsedSource :=
  _ ← check;
  _ ← lift (reject (open_size f <? 4) InvalidFormat);
  magic ← lift (read_exact_at (handle_file (handle f)) 0 4);
  let extension := gguf_extension (local_path (source f)) in
  if bool_decide (magic = MAGIC) then
    '(metadata, tensors) ← parse (handle_file (handle f)) (open_id f) (open_size f) limits;
    mret {| parsed_format := GgufFormat; parsed_metadata := Some metadata; parsed_tensors := tensors |}
  else
    _ ← lift (reject extension InvalidFormat);
    tensors ← parse_safetensors_header json f limits;
    mret {| parsed_format := SafetensorsFormat; parsed_metadata := None; parsed_tensors := tensors |}.

(** ** Reading tensors *)

Definition read_owned (f : OpenFile) (span : SourceSpan) : M ByteView :=
  length ← lift (usize_try_from (span_length span));
  bs ← read_blocks (handle_file (handle f)) (span_offset span) length;
  address ← new_address;
  mret (view_from_boxed address bs).

Definition set_mapping (owner : ByteOwner) (f : OpenFile) : OpenFile :=
  {| source := source f; open_id := open_id f; handle := handle f; open_size := open_size f;
     stamp := stamp f; digest_cell := digest_cell f; mapping_cell := Some owner |}.
Definition set_digest (digest : ContentDigest) (f : OpenFile) : OpenFile :=
  {| source := source f; open_id := open_id f; handle := handle f; open_size := open_size f;
     stamp := stamp f; digest_cell := Some digest; mapping_cell := mapping_cell f |}.

(** The view of a span in a mapping. *)
Definition mapped_view (owner : ByteOwner) (span : SourceSpan) : result ByteView :=
  start ← usize_try_from (span_offset span);
  stop ← (last ← span_end span; usize_try_from last);
  view_from_owner owner start stop.

(** [read_mapped], with and without the [mmap] feature: the outcome, and the
    file with its mapping. *)
Definition read_mapped (mmap_feature : bool) (f : OpenFile) (span : SourceSpan)
  : M (result ByteView * OpenFile) :=
  if negb mmap_feature then mret (Err Unsupported, f) else
  if negb (bool_decide (source_kind (source f) = RetainedSnapshot)) then mret (Err Unsupported, f) else
  match mapping_cell f with
  | Some owner => mret (mapped_view owner span, f)
  | None =>
      if negb (retention (source f)) then mret (Err Integrity, f) else
      mapped ← map_file (handle f);
      match mapped with
      | Ok owner => mret (mapped_view owner span, set_mapping owner f)
      | Err e => mret (Err e, f)
      | Panic => mret (Panic, f)
      end
  end.

(** [OpenFile::read_span]. *)
Definition open_read_span (mmap_feature : bool) (f : OpenFile) (span : SourceSpan) (access : AccessMode)
  : M (ByteView * OpenFile) :=
  outside ← lift
    (if negb (bool_decide (span_file span = open_id f)) then mret true
     else last ← span_end span; mret (open_size f <? last));
  _ ← lift (reject outside InvalidFormat);
  let owned := (view ← read_owned f span; mret (view, f)) in
  match access with
  | Read => owned
  | Auto =>
      if bool_decide (source_kind (source f) = Local) then owned else
      '(view, f) ← read_mapped mmap_feature f span;
      match view with
      | Err Io | Err Unsupported => view ← read_owned f span; mret (view, f)
      | _ => view ← lift view; mret (view, f)
      end
  | Mmap =>
      '(view, f) ← read_mapped mmap_feature f span;
      view ← lift view; mret (view, f)
  end.

(** ** Content digests *)

Section Digests.
Context (sha256 : bytes -> bytes).

Definition DIGEST_BUFFER_BYTES : N := 1024 * 1024.

(** The loop of [content_digest], the bytes given to the hasher. A round reads
    at least one byte. *)
Fixpoint hash_loop (fuel : nat) (f : OpenFile) (offset : N) (hashed : bytes) : M bytes :=
  if open_size f <=? offset then mret hashed else
  match fuel with
  | O => lift Panic
  | S fuel =>
      _ ← check;
      remaining ← lift (unchecked_sub (open_size f) offset);
      amount ← lift (usize_try_from (N.min remaining DIGEST_BUFFER_BYTES));
      block ← lift (read_exact_at (handle_file (handle f)) offset amount);
      next ← lift (ok_or (checked_add offset amount) ResourceLimit);
      hash_loop fuel f next (hashed ++ block)
  end.

Definition digest_fuel (size : N) : nat := N.to_nat (size / DIGEST_BUFFER_BYTES + 1).

(** [content_digest] once it holds the lock. *)
Definition content_digest (f : OpenFile) : M (ContentDigest * OpenFile) :=
  _ ← check;
  match digest_cell f with
  | Some digest => mret (digest, f)
  | None =>
      match digest_policy (source f) with
      | TrustExternal digest | TrustRetained digest => mret (digest, set_digest digest f)
      | policy =>
          hashed ← hash_loop (digest_fuel (open_size f)) f 0 [];
          _ ← check;
          metadata ← file_metadata (handle f);
          _ ← lift (reject (negb (bool_decide (FileStamp_from_metadata metadata = stamp f))) Integrity);
          let digest := from_bytes (sha256 hashed) in
          _ ← lift (reject (match policy with
                            | VerifyOnDemand expected => negb (bool_decide (digest = expected))
                            | _ => false end) Integrity);
          mret (digest, set_digest digest f)
      end
  end.

Definition needs_hashing (f : OpenFile) : M bool :=
  match digest_policy (source f) with
  | TrustExternal _ | TrustRetained _ => mret false
  | _ => _ ← check; mret (negb (bool_decide (is_Some (digest_cell f))))
  end.

(** ** Checkpoints *)

Record SnapshotId := { snapshot_digest : ContentDigest }.

Record Checkpoint := {
  inventory : Inventory;
  open_files : list OpenFile;
  access : AccessMode;
  format : CheckpointFormat;
  gguf_metadata : list GgufMetadata;
  snapshot : option SnapshotId
}.

Definition set_files (fs : list OpenFile) (c : Checkpoint) : Checkpoint :=
  {| inventory := inventory c; open_files := fs; access := access c; format := format c;
     gguf_metadata := gguf_metadata c; snapshot := snapshot c |}.
Definition set_snapshot (s : SnapshotId) (c : Checkpoint) : Checkpoint :=
  {| inventory := inventory c; open_files := open_files c; access := access c; format := format c;
     gguf_metadata := gguf_metadata c; snapshot := Some s |}.

Record CheckpointBuilder := {
  sources : list SourceDescriptor;
  shard_index : option ShardIndex;
  builder_limits : ResourceLimits;
  builder_access : AccessMode
}.

Definition path_le (x y : SourceDescriptor) : Prop := ord_le (logical_path x) (logical_path y).
#[export] Instance path_le_dec : RelDecision path_le.
Proof. intros x y. unfold path_le. apply _. Defined.

(** What the loop over the sources has opened and parsed. *)
Record Opening := {
  opening_files : list OpenFile;
  opening_tensors : list TensorRecord;
  opening_format : option CheckpointFormat;
  opening_metadata : list GgufMetadata
}.

Definition open_source (json : bytes -> Document) (limits : ResourceLimits) (source : SourceDescriptor)
    (s : Opening) : M Opening :=
  _ ← check;
  ordinal ← lift (u32_try_from (N.of_nat (length (opening_files s))));
  file ← OpenFile_open source (from_ordinal ordinal);
  parsed ← parse_source json file limits;
  _ ← lift (reject (match opening_format s with
                    | Some current => negb (bool_decide (current = parsed_format parsed))
                    | None => false end) InvalidFormat);
  remaining ← lift (ok_or (checked_sub (max_tensors limits) (N.of_nat (length (opening_tensors s)))) ResourceLimit);
  _ ← lift (reject (remaining <? N.of_nat (length (parsed_tensors parsed))) ResourceLimit);
  mret {| opening_files := opening_files s ++ [file];
          opening_tensors := opening_tensors s ++ parsed_tensors parsed;
          opening_format := Some (parsed_format parsed);
          opening_metadata := opening_metadata s ++ option_list (parsed_metadata parsed) |}.

(** One round of the loop of [validate_shard_index]. *)
Definition validate_shard (i : Inventory) (mapping : string * RepoPath) (_ : unit) : M unit :=
  let '(name, expected_path) := mapping in
  _ ← check;
  tensor ← lift (ok_or (inventory_tensor i name) Integrity);
  file_index ← lift (usize_try_from (ordinal (span_file (storage_span (record_storage tensor)))));
  file ← lift (ok_or (files i !! N.to_nat file_index) Integrity);
  lift (reject (negb (bool_decide (file_path file = expected_path))) Integrity).

Definition validate_shard_index (index : ShardIndex) (i : Inventory) : M unit :=
  _ ← lift (reject (negb (size (weight_map index) =? length (tensors i))%nat) Integrity);
  _ ← for_each (string_list (weight_map index)) (validate_shard i) tt;
  check.

(** [CheckpointBuilder::open_with_cancellation]. *)
Definition open (json : bytes -> Document) (b : CheckpointBuilder) : M Checkpoint :=
  _ ← check;
  _ ← lift (reject (bool_decide (sources b = [])) InvalidFormat);
  _ ← lift (reject (max_shards (builder_limits b) <? N.of_nat (length (sources b))) ResourceLimit);
  _ ← lift (reject (bool_decide (builder_access b = Mmap) &&
              existsb (fun s => negb (bool_decide (source_kind s = RetainedSnapshot))) (sources b)) Unsupported);
  let sorted := merge_sort path_le (sources b) in
  _ ← lift (reject (windows_any (fun x y => bool_decide (logical_path x = logical_path y)) sorted)
              InvalidFormat);
  s ← for_each sorted (open_source json (builder_limits b))
        {| opening_files := []; opening_tensors := []; opening_format := None; opening_metadata := [] |};
  _ ← check;
  i ← lift (Inventory_new (map open_record (opening_files s)) (opening_tensors s));
  _ ← match shard_index b with
      | Some index =>
          _ ← lift (reject (bool_decide (opening_format s = Some GgufFormat)) InvalidFormat);
          validate_shard_index index i
      | None => mret tt
      end;
  _ ← check;
  mret {| inventory := i; open_files := opening_files s; access := builder_access b;
          format := default SafetensorsFormat (opening_format s);
          gguf_metadata := opening_metadata s; snapshot := None |}.

(** [read_span_with_cancellation]. *)
Definition read_span (mmap_feature : bool) (c : Checkpoint) (span : SourceSpan)
  : M (ByteView * Checkpoint) :=
  _ ← check;
  file_index ← lift (usize_try_from (ordinal (span_file span)));
  file ← lift (ok_or (open_files c !! N.to_nat file_index) InvalidFormat);
  '(view, file) ← open_read_span mmap_feature file span (access c);
  _ ← check;
  mret (view, set_files (<[N.to_nat file_index := file]> (open_files c)) c).

(** Tensor data: the record of the tensor and its encoded bytes. *)
Record TensorData := {
  data_record : TensorRecord;
  data_bytes : ByteView
}.

(** [tensor_with_cancellation]. *)
Definition tensor (mmap_feature : bool) (c : Checkpoint) (name : string)
  : M (TensorData * Checkpoint) :=
  record ← lift (ok_or (inventory_tensor (inventory c) name) Binding);
  '(bytes, c) ← read_span mmap_feature c (storage_span (record_storage record));
  mret ({| data_record := record; data_bytes := bytes |}, c).

(** [source_digests]. *)
Fixpoint content_digests (fs : list OpenFile) : M (list ContentDigest * list OpenFile) :=
  match fs with
  | [] => mret ([], [])
  | f :: fs =>
      '(digest, f) ← content_digest f;
      '(digests, fs) ← content_digests fs;
      mret (digest :: digests, f :: fs)
  end.
Definition source_digests (c : Checkpoint) : M (list ContentDigest * Checkpoint) :=
  '(digests, fs) ← content_digests (open_files c); mret (digests, set_files fs c).

Definition pending_digest_bytes (c : Checkpoint) : M N :=
  for_each (open_files c) (fun f total =>
    pending ← needs_hashing f;
    if (pending : bool) then lift (ok_or (checked_add total (open_size f)) ResourceLimit) else mret total) 0.

(** What one file adds to the snapshot identity. *)
Definition identity_entry (record : FileRecord) (digest : ContentDigest) : bytes :=
  let path := String.list_byte_of_string (repo_path (file_path record)) in
  to_le_bytes 8 (N.of_nat (length path)) ++ path ++ to_le_bytes 8 (record_size record) ++
  digest_bytes digest.

(** The loop of [snapshot_id] over records and files together. *)
Fixpoint snapshot_loop (records : list FileRecord) (fs : list OpenFile) (identity : bytes)
  : M (bytes * list OpenFile) :=
  match records, fs with
  | record :: records, f :: fs =>
      _ ← check;
      '(digest, f) ← content_digest f;
      let path := String.list_byte_of_string (repo_path (file_path record)) in
      additional ← lift (ok_or (checked_add (N.of_nat (length path)) (8 + 8 + 32)) ResourceLimit);
      _ ← reserve_items additional;
      '(identity, fs) ← snapshot_loop records fs (identity ++ identity_entry record digest);
      mret (identity, f :: fs)
  | _, fs => mret (identity, fs)
  end.

Definition SNAPSHOT_PREFIX : bytes := String.list_byte_of_string "model-weights-snapshot-v1" ++ [Byte.x00].
Definition SNAPSHOT_DOMAIN : bytes := String.list_byte_of_string "snapshot-envelope-v1".

Definition snapshot_id (c : Checkpoint) : M (SnapshotId * Checkpoint) :=
  match snapshot c with
  | Some s => mret (s, c)
  | None =>
      '(identity, fs) ← snapshot_loop (files (inventory c)) (open_files c) SNAPSHOT_PREFIX;
      let s := {| snapshot_digest := digest_hash sha256 SNAPSHOT_DOMAIN [identity] |} in
      mret (s, set_snapshot s (set_files fs c))
  end.
End Digests.
