(* ===== verification/CheckpointSpecs.v ===== *)
(** * Reading sources: blocks, headers, tensors and digests *)

From S2P Require Import Prelude Errors Cancel Tensor Identity Order Limits Quantization.
From S2P Require Import Inventory Cast FileReader Gguf ReaderSpecs GgufSpecs.
From S2P Require Import Json Safetensors Checkpoint.
From Stdlib Require Strings.String.
Local Open Scope N_scope.

(** ** Loops that may fail *)

(** A loop keeps an invariant, or fails for a reason of its body. *)
Lemma wp_for_range {S} (I : N -> S -> Prop) (E : Prop) first last body (s : S) :
  first <= last -> I first s ->
  (forall i s, first <= i < last -> I i s ->
     wp (body i s) (fun r => match r with Ok s' => I (i + 1) s' | Err _ => E | Panic => False end)) ->
  wp (for_range first last body s)
    (fun r => match r with Ok s' => I last s' | Err _ => E | Panic => False end).
Proof.
  unfold for_range. remember (N.to_nat (last - first)) as count eqn:Hc.
  revert first s Hc. induction count as [|count IH]; intros first s Hc Hle H0 Hstep; cbn [for_loop].
  { apply wp_ret. by replace last with first by lia. }
  apply wp_bind. eapply wp_mono; [apply (Hstep first s); [lia|done]|]. intros [s'|e|]; try done.
  intros Hs'. apply (IH (first + 1)); [lia|lia|done|]. intros i s'' Hi. apply Hstep. lia.
Qed.

(** ** Blocks *)

Lemma ceil_div_bounds n i : i < ceil_div n SOURCE_READ_BLOCK_BYTES -> i * SOURCE_READ_BLOCK_BYTES < n.
Proof.
  pose proof (ceil_div_spec n SOURCE_READ_BLOCK_BYTES ltac:(done)) as [_ H].
  revert H. generalize (ceil_div n SOURCE_READ_BLOCK_BYTES). unfold SOURCE_READ_BLOCK_BYTES. intros q. lia.
Qed.

(** The bytes of a range of a file, or a reason for them not to be read. *)
Lemma read_blocks_spec f base n :
  file_ok f -> base + n <= u64_MAX ->
  wp (read_blocks f base n) (fun r =>
    match r with
    | Ok bs => bs = slice (contents f) base n /\ length bs = N.to_nat n
    | Err _ => ~ (reliable f /\ base + n <= N.of_nat (length (contents f)) /\ n <= isize_MAX)
    | Panic => False
    end).
Proof.
  intros Hf Hu. unfold read_blocks. apply wp_bind, wp_try_reserve_exact; [|lia]. intros _.
  fold (ceil_div n SOURCE_READ_BLOCK_BYTES). apply wp_bind.
  pose (I := fun i bs => bs = slice (contents f) base (N.min n (i * SOURCE_READ_BLOCK_BYTES)) /\
    length bs = N.to_nat (N.min n (i * SOURCE_READ_BLOCK_BYTES))).
  eapply wp_mono.
  { apply (wp_for_range I (~ (reliable f /\ base + n <= N.of_nat (length (contents f)) /\ n <= isize_MAX)));
      [lia|by unfold I; rewrite N.mul_0_l, N.min_0_r|].
    intros i bs [_ Hi] [-> Hlen]. apply ceil_div_bounds in Hi. rewrite N.min_r in Hlen |- * by lia.
    set (relative := i * SOURCE_READ_BLOCK_BYTES) in *. unfold read_block.
    apply wp_bind, wp_check, wp_bind, wp_lift. rewrite checked_mul_ok by (fold relative; lia). cbn [ok_or].
    fold relative. apply wp_bind, wp_lift. rewrite checked_add_ok by lia. cbn [ok_or].
    apply wp_bind, wp_lift. set (amount := N.min SOURCE_READ_BLOCK_BYTES (n - relative)).
    assert (0 < amount /\ relative + amount <= n) as [Ha Hb] by (unfold amount, SOURCE_READ_BLOCK_BYTES; lia).
    assert (N.min n ((i + 1) * SOURCE_READ_BLOCK_BYTES) = relative + amount) as Hnext
      by (unfold amount, relative; lia).
    pose proof (read_exact_at_spec f (base + relative) amount Hf) as Hx.
    destruct (read_exact_at f (base + relative) amount) as [block|e|]; [| |done].
    - destruct Hx as [-> [?|Hin]]; [lia|]. apply wp_ret. unfold I. rewrite Hnext, <-slice_app.
      split; [done|]. by rewrite slice_length by lia.
    - intros (Hr & Hc & _). destruct Hx as [?|[?|?]]; [done|lia|lia]. }
  intros [bs|e|]; try done. intros [-> Hlen]. apply wp_bind, wp_check, wp_ret.
  pose proof (ceil_div_spec n SOURCE_READ_BLOCK_BYTES ltac:(done)) as [Hn _].
  by rewrite N.min_l in Hlen |- * by done.
Qed.

(** ** Open files *)

(** What the system promises of an open file, and what its cells hold. *)
Record file_wf (f : OpenFile) : Prop := {
  wf_file : file_ok (handle_file (handle f));
  wf_size : open_size f <= u64_MAX;
  wf_map n owner : map_at (handle f) n = Ok owner -> owner_bytes owner = contents (handle_file (handle f));
  wf_map_panic n : map_at (handle f) n <> Panic;
  wf_mapping owner : mapping_cell f = Some owner -> owner_bytes owner = contents (handle_file (handle f))
}.

(** Everything but the cells. *)
Definition same_file (f f' : OpenFile) : Prop :=
  source f' = source f /\ open_id f' = open_id f /\ handle f' = handle f /\
  open_size f' = open_size f /\ stamp f' = stamp f.

Definition view_shows (f : OpenFile) (span : SourceSpan) (v : ByteView) : Prop :=
  view_wf v /\ as_slice v = slice (contents (handle_file (handle f))) (span_offset span) (span_length span).

Lemma read_owned_spec f span :
  file_wf f -> span_offset span + span_length span <= u64_MAX ->
  wp (read_owned f span) (fun r =>
    match r with
    | Ok v => view_shows f span v
    | Err _ => ~ (reliable (handle_file (handle f)) /\
        span_offset span + span_length span <= N.of_nat (length (contents (handle_file (handle f)))) /\
        span_length span <= isize_MAX)
    | Panic => False
    end).
Proof.
  intros Hf Hu. unfold read_owned. apply wp_bind, wp_lift.
  rewrite (proj2 (usize_try_from_Ok _ _)) by (split; [done|unfold usize_MAX; lia]).
  apply wp_bind. eapply wp_mono; [apply read_blocks_spec; [apply Hf|done]|]. intros [bs|e|]; try done.
  intros [-> Hlen]. apply wp_bind, wp_new_address. intros a. apply wp_ret. split.
  - apply view_from_boxed_wf.
  - apply view_from_boxed_slice.
Qed.

(** The view of a mapping shows the same bytes as a read. *)
Lemma mapped_view_spec f owner span :
  owner_bytes owner = contents (handle_file (handle f)) -> span_offset span + span_length span <= u64_MAX ->
  match mapped_view owner span with
  | Ok v => view_shows f span v
  | Err _ => N.of_nat (length (contents (handle_file (handle f)))) < span_offset span + span_length span
  | Panic => False
  end.
Proof.
  intros Ho Hu. unfold mapped_view, span_end. rewrite (proj2 (N.leb_le _ _) Hu).
  rewrite (proj2 (usize_try_from_Ok _ _)) by (split; [done|unfold usize_MAX; lia]). cbn [mbind result_bind].
  rewrite (proj2 (usize_try_from_Ok _ _)) by (split; [done|unfold usize_MAX; lia]). cbn [mbind result_bind].
  unfold view_from_owner. rewrite (proj2 (N.ltb_ge _ _)) by lia. cbn [orb]. rewrite Ho.
  destruct (N.ltb_spec (N.of_nat (length (contents (handle_file (handle f))))) (span_offset span + span_length span))
    as [Hl|Hl]; cbn [reject mbind result_bind mret result_ret]; [done|].
  unfold view_shows, view_wf, as_slice, slice. cbn [view_owner view_start view_end]. rewrite Ho.
  split; [lia|]. f_equal. lia.
Qed.

Lemma read_mapped_spec mmap f span :
  file_wf f -> span_offset span + span_length span <= u64_MAX ->
  wp (read_mapped mmap f span) (fun r =>
    match r with
    | Ok (v, f') => file_wf f' /\ same_file f f' /\
        match v with Ok v => view_shows f span v | Err _ => True | Panic => False end
    | Err _ => False
    | Panic => False
    end).
Proof.
  intros Hf Hu. assert (same_file f f) as Hsame by done. unfold read_mapped.
  destruct mmap; cbn [negb]; [|by apply wp_ret]. case_bool_decide; cbn [negb]; [|by apply wp_ret].
  assert (forall owner, owner_bytes owner = contents (handle_file (handle f)) ->
    match mapped_view owner span with Ok v => view_shows f span v | Err _ => True | Panic => False end) as Hv.
  { intros owner Ho. pose proof (mapped_view_spec f owner span Ho Hu). by destruct (mapped_view owner span). }
  destruct (mapping_cell f) as [owner|] eqn:Em.
  { apply wp_ret. split_and!; try done. by apply Hv, (wf_mapping f Hf). }
  destruct (retention (source f)); cbn [negb]; [|by apply wp_ret].
  apply wp_bind. intros env t. unfold map_file. split; [lia|].
  destruct (map_at (handle f) t) as [owner|e|] eqn:Eo; [| |by apply (wf_map_panic f Hf) in Eo].
  - apply wp_ret. split; [|by split_and!; try done; apply Hv, (wf_map f Hf t)]. destruct Hf as [H1 H2 H3 H4 H5].
    split; try done. intros o [= <-]. by apply (H3 t).
  - by apply wp_ret.
Qed.

(** A span inside a file is read from it, whatever the access mode. *)
Lemma open_read_span_spec mmap f span access :
  file_wf f -> span_offset span + span_length span <= u64_MAX ->
  wp (open_read_span mmap f span access) (fun r =>
    match r with
    | Ok (v, f') => file_wf f' /\ same_file f f' /\ view_shows f span v /\
        span_file span = open_id f /\ span_offset span + span_length span <= open_size f
    | Err _ => access = Read -> ~ (reliable (handle_file (handle f)) /\
        open_size f <= N.of_nat (length (contents (handle_file (handle f)))) /\ open_size f <= isize_MAX /\
        span_file span = open_id f /\ span_offset span + span_length span <= open_size f)
    | Panic => False
    end).
Proof.
  intros Hf Hu. unfold open_read_span. apply wp_bind, wp_lift. unfold span_end.
  rewrite (proj2 (N.leb_le _ _) Hu). case_bool_decide as Hid; cbn [negb mbind result_bind mret result_ret].
  2: { apply wp_bind, wp_lift. cbn [reject]. naive_solver. }
  apply wp_bind, wp_lift.
  destruct (N.ltb_spec (open_size f) (span_offset span + span_length span)) as [Hs|Hs]; cbn [reject].
  { intros _ (_ & _ & _ & _ & ?). lia. }
  set (Q := fun r : result (ByteView * OpenFile) => match r with
    | Ok (v, f') => file_wf f' /\ same_file f f' /\ view_shows f span v /\
        span_file span = open_id f /\ span_offset span + span_length span <= open_size f
    | Err _ => access = Read -> ~ (reliable (handle_file (handle f)) /\
        open_size f <= N.of_nat (length (contents (handle_file (handle f)))) /\ open_size f <= isize_MAX /\
        span_file span = open_id f /\ span_offset span + span_length span <= open_size f)
    | Panic => False end).
  assert (forall f', file_wf f' -> same_file f f' ->
    wp (view ← read_owned f' span; mret (view, f')) Q) as Howned.
  { intros f' Hf' Hsame. pose proof Hsame as (_ & _ & Hh & _). apply wp_bind.
    eapply wp_mono; [by apply read_owned_spec|]. rewrite Hh. intros [v|e|]; try done.
    - intros Hv. apply wp_ret. unfold Q, view_shows in *. rewrite Hh in Hv. split_and!; done || apply Hv.
    - intros Hno _ (Hr & Hc & Hi & _). apply Hno. split; [done|]. lia. }
  assert (same_file f f) as Hrefl by done.
  assert (forall view f', file_wf f' -> same_file f f' ->
    match view with Ok v => view_shows f span v | Err _ => True | Panic => False end -> access <> Read ->
    wp (view ← lift view; mret (view, f')) Q) as Hview.
  { intros view f' Hf' Hsame Hv Ha. apply wp_bind, wp_lift. destruct view as [v|e|]; [|by unfold Q|done].
    apply wp_ret. unfold Q. split_and!; done || apply Hv. }
  destruct access.
  - case_bool_decide; [by apply Howned|]. apply wp_bind. eapply wp_mono; [by apply read_mapped_spec|].
    intros [[view f']|e|]; try done. intros (Hf' & Hsame & Hv).
    destruct view as [v|e|]; [by apply (Hview (Ok v))| |done].
    destruct e; try (by apply Howned); by apply (Hview (Err _)).
  - by apply Howned.
  - apply wp_bind. eapply wp_mono; [by apply read_mapped_spec|].
    intros [[view f']|e|]; try done. intros (Hf' & Hsame & Hv). by apply Hview.
Qed.

(** ** Headers *)

(** A record inside a file, without companions. *)
Record record_within (id : FileId) (size : N) (t : TensorRecord) : Prop := {
  within_file : span_file (storage_span (record_storage t)) = id;
  within_size : snd (record_range t) <= size;
  within_companions : match record_storage t with Plain _ _ => True | Quantized s => companions s = ∅ end
}.

(** The tensors of a safetensors file: the ranges of its header tile the bytes
    after it. *)
Definition safetensors_records (f : OpenFile) (limits : ResourceLimits) (records : list TensorRecord) : Prop :=
  exists raw data_base entries,
    data_base <= open_size f /\
    Forall2 (entry_made limits (open_size f - data_base)) (string_list raw) entries /\
    data_tiled (open_size f - data_base) entries /\
    records = map (record_of (open_id f) data_base) (merge_sort entry_le entries).

Lemma safetensors_within f limits records :
  safetensors_records f limits records -> Forall (record_within (open_id f) (open_size f)) records.
Proof.
  intros (raw & base & entries & Hb & Hmade & _ & ->). apply Forall_map, Forall_forall. intros e He.
  rewrite (merge_sort_Permutation entry_le entries) in He. apply list_elem_of_lookup in He as [i Hi].
  destruct (Forall2_lookup_r _ _ _ _ _ Hmade Hi) as (t & _ & [_ _ _ _ _ Hr _]).
  unfold record_of. destruct (entry_dtype e); split; cbn; try done; unfold record_range; cbn; lia.
Qed.

Lemma parse_header_json_safe json bs limits :
  max_metadata_bytes limits <= usize_MAX ->
  wp (parse_header_json json bs limits) (fun r => r <> Panic).
Proof.
  intros Hm. unfold parse_header_json. apply wp_bind, wp_check, wp_bind, wp_lift.
  destruct (negb _); cbn [reject]; [done|].
  eapply wp_mono; [apply (deserialize_json_safe _ _ (fun _ => True)); by apply header_seed_safe|]. by intros [].
Qed.

Lemma parse_safetensors_spec json f limits :
  file_wf f -> max_metadata_bytes limits <= usize_MAX ->
  wp (parse_safetensors_header json f limits) (fun r =>
    match r with Ok records => safetensors_records f limits records | Err _ => True | Panic => False end).
Proof.
  intros [Hf Hs _ _ _] Hm. unfold parse_safetensors_header. apply wp_bind, wp_lift.
  destruct (open_size f <? 8); cbn [reject]; [done|]. apply wp_bind, wp_lift.
  pose proof (read_exact_at_spec (handle_file (handle f)) 0 8 Hf) as Hp.
  destruct (read_exact_at (handle_file (handle f)) 0 8) as [prefix|e|]; [|done..]. clear Hp.
  apply wp_bind, wp_lift. destruct (_ || _); cbn [reject]; [done|].
  apply wp_bind, wp_lift. destruct (checked_add 8 (from_le_bytes prefix)) as [base|] eqn:Eb; cbn [ok_or]; [|done].
  apply checked_add_Some in Eb as [-> Hu]. set (base := 8 + from_le_bytes prefix) in *. apply wp_bind, wp_lift.
  destruct (N.ltb_spec (open_size f) base) as [Hb|Hb]; cbn [reject]; [done|].
  apply wp_bind, wp_lift. pose proof (usize_try_from_not_Panic (from_le_bytes prefix)) as Hnp.
  destruct (usize_try_from (from_le_bytes prefix)) as [n|e|] eqn:En; [|done..].
  apply usize_try_from_Ok in En as [-> _]. apply wp_bind. eapply wp_mono; [by apply read_blocks_spec|].
  intros [header|e|]; try done. intros _. apply wp_bind. eapply wp_mono; [by apply parse_header_json_safe|].
  intros [raw|e|]; try done. intros _. apply wp_bind, wp_check, wp_bind, wp_lift.
  unfold unchecked_sub. rewrite (proj2 (N.leb_le _ _) Hb).
  eapply wp_mono; [apply validate_tensor_entries_spec; lia|]. intros [records|e|]; try done.
  intros (entries & Hmade & Ht & ->). by exists raw, base, entries.
Qed.

(** A file that starts with an encoded header is accepted. *)
Record safetensors_file (json : bytes -> Document) (f : OpenFile) (limits : ResourceLimits)
    (l : list (string * HeaderTensor)) (header : bytes) (entries : list Entry) : Prop := {
  encoded_prefix : to_le_bytes 8 (N.of_nat (length header)) ++ header `prefix_of` contents (handle_file (handle f));
  encoded_json : json header = {| document_value := header_json l; document_ends := true |};
  encoded_brace : head header = Some Byte.x7b;
  encoded_limit : N.of_nat (length header) <= max_header_bytes limits;
  encoded_size : 8 + N.of_nat (length header) <= open_size f;
  encoded_header : header_within limits l;
  encoded_entries : Forall2 (entry_made limits (open_size f - (8 + N.of_nat (length header))))
    (string_list (list_to_map l)) entries;
  encoded_tiles : data_tiled (open_size f - (8 + N.of_nat (length header))) entries
}.

Lemma prefix_app_slice bs a b c :
  a ++ b `prefix_of` bs -> c = N.of_nat (length a) ->
  slice bs 0 c = a /\ slice bs c (N.of_nat (length b)) = b.
Proof.
  intros [tail ->] ->. rewrite <-app_assoc. split; apply prefix_slice; [by exists (b ++ tail)|].
  rewrite Nat2N.id, drop_app_length. by exists tail.
Qed.

Lemma read_exact_readable f offset n size :
  file_ok f -> file_readable f size -> offset + n <= size -> read_exact_at f offset n = Ok (slice (contents f) offset n).
Proof.
  intros Hf (Hr & Hc & Hi) Hn. pose proof (read_exact_at_spec f offset n Hf) as Hx.
  assert (isize_MAX <= u64_MAX) by done.
  destruct (read_exact_at f offset n) as [bs|e|]; [|exfalso|done]; [by destruct Hx as [-> _]|].
  destruct Hx as [?|[?|?]]; [done|lia|lia].
Qed.

Lemma read_blocks_readable f base n size :
  file_ok f -> file_readable f size -> base + n <= size -> size <= u64_MAX ->
  succeeds (read_blocks f base n) (fun bs => bs = slice (contents f) base n).
Proof.
  intros Hf (Hr & Hc & Hi) Hn Hu. eapply wp_mono; [apply read_blocks_spec; [done|lia]|].
  intros [bs|e|]; [|intros Hno; exfalso; apply Hno; split; [done|lia]|done]. intros [-> _]. by eexists.
Qed.

Lemma parse_safetensors_complete json f limits l header entries :
  file_wf f -> file_readable (handle_file (handle f)) (open_size f) ->
  safetensors_file json f limits l header entries ->
  succeeds (parse_safetensors_header json f limits) (fun records =>
    records = map (record_of (open_id f) (8 + N.of_nat (length header))) (merge_sort entry_le entries)).
Proof.
  intros [Hf Hs _ _ _] (Hrel & Hcont & His) [Hpre Hjson Hbrace Hlim Hsize Hwithin Hmade Htiled].
  assert (0 < N.of_nat (length header)) as Hne by (destruct header; [done|cbn; lia]).
  assert (N.of_nat (length header) < 256 ^ N.of_nat 8) as Hw.
  { assert (u64_MAX < 256 ^ N.of_nat 8) by done. lia. }
  destruct (prefix_app_slice _ _ _ 8 Hpre) as [Hp8 Hph]; [by rewrite to_le_bytes_length|].
  assert (succeeds (parse_header_json json header limits) (fun raw => raw = list_to_map l)) as Hparse.
  { unfold parse_header_json. rewrite bool_decide_true by done. cbn [negb].
    apply succeeds_check_bind, (succeeds_lift_bind _ tt); [done|].
    apply deserialize_json_accepts; rewrite Hjson; [done|]. by apply header_seed_accepts. }
  unfold parse_safetensors_header. rewrite (proj2 (N.ltb_ge _ _)) by lia.
  apply (succeeds_lift_bind _ tt); [done|].
  apply (succeeds_lift_bind _ (to_le_bytes 8 (N.of_nat (length header)))).
  { rewrite <-Hp8. apply (read_exact_readable _ _ _ (open_size f)); [done|by split|lia]. }
  rewrite from_to_le_bytes by done.
  rewrite (proj2 (N.eqb_neq _ _)), (proj2 (N.ltb_ge (max_header_bytes limits) _)) by lia. cbn [orb reject].
  apply (succeeds_lift_bind _ tt); [done|].
  apply (succeeds_lift_bind _ (8 + N.of_nat (length header))); [by rewrite checked_add_ok by lia|].
  rewrite (proj2 (N.ltb_ge _ _)) by lia. apply (succeeds_lift_bind _ tt); [done|].
  apply (succeeds_lift_bind _ (N.of_nat (length header))).
  { apply usize_try_from_Ok. split; [done|]. assert (u64_MAX <= usize_MAX) by done. lia. }
  apply succeeds_bind. eapply succeeds_mono; [apply (read_blocks_readable _ _ _ (open_size f)); [done|by split|lia|done]|].
  intros ? ->. rewrite Hph. apply succeeds_bind. eapply succeeds_mono; [exact Hparse|]. intros ? ->.
  apply succeeds_check_bind. eapply succeeds_lift_bind.
  { unfold unchecked_sub. by rewrite (proj2 (N.leb_le _ _) Hsize). }
  eapply wp_mono; [apply validate_tensor_entries_spec; lia|]. intros [records|e|]; [| |done].
  - intros (entries' & Hmade' & _ & ->). eexists. split; [done|]. by rewrite (entry_made_unique _ _ _ _ _ Hmade Hmade').
  - intros Hno. by destruct (Hno entries Hmade).
Qed.

Lemma parse_source_spec json f limits :
  file_wf f -> max_metadata_bytes limits <= usize_MAX ->
  wp (parse_source json f limits) (fun r =>
    match r with
    | Ok p => Forall (record_within (open_id f) (open_size f)) (parsed_tensors p)
    | Err _ => True
    | Panic => False
    end).
Proof.
  intros Hwf Hm. pose proof Hwf as [Hf Hs _ _ _]. unfold parse_source.
  apply wp_bind, wp_check, wp_bind, wp_lift. destruct (open_size f <? 4); cbn [reject]; [done|].
  apply wp_bind, wp_lift. pose proof (read_exact_at_spec (handle_file (handle f)) 0 4 Hf) as Hp.
  destruct (read_exact_at (handle_file (handle f)) 0 4) as [magic|e|]; [|done..]. clear Hp. case_bool_decide.
  - apply wp_bind. eapply wp_mono; [by apply parse_spec|]. intros [[md ts]|e|]; try done.
    intros (h & [_ _ _ _ _ [Hrec _]] & _). apply wp_ret. cbn [parsed_tensors].
    apply Forall_forall. intros t [i Hi]%list_elem_of_lookup.
    destruct (Forall2_lookup_r _ _ _ _ _ Hrec Hi) as (raw & _ & [_ _ _ _ Hst Hin]).
    split; [by eapply gguf_storage_file|done|].
    apply gguf_storage_Ok in Hst as (g & _ & -> & _). unfold gguf_descriptor. by destruct (ggml_dtype g).
  - apply wp_bind, wp_lift. destruct (gguf_extension _); cbn [reject]; [done|].
    apply wp_bind. eapply wp_mono; [by apply parse_safetensors_spec|]. intros [ts|e|]; try done.
    intros Hts. apply wp_ret. by apply (safetensors_within _ limits).
Qed.

(** ** Checkpoints *)

(** What the system promises of a source. *)
Record source_ok (s : SourceDescriptor) : Prop := {
  source_opened : opened s <> Panic;
  source_file h : opened s = Ok h -> file_ok (handle_file h);
  source_metadata h n : opened s = Ok h -> metadata_at h n <> Panic;
  source_length h n m : opened s = Ok h -> metadata_at h n = Ok m -> meta_len m <= u64_MAX;
  source_map h n owner : opened s = Ok h -> map_at h n = Ok owner -> owner_bytes owner = contents (handle_file h);
  source_map_panic h n : opened s = Ok h -> map_at h n <> Panic
}.

Lemma OpenFile_open_spec s id :
  source_ok s ->
  wp (OpenFile_open s id) (fun r =>
    match r with
    | Ok f => file_wf f /\ source f = s /\ open_id f = id /\ digest_cell f = None /\
        (forall n, expected_size s = Some n -> open_size f = n)
    | Err _ => True
    | Panic => False
    end).
Proof.
  intros [Ho Hf Hm Hl Hmap Hmp]. unfold OpenFile_open. apply wp_bind, wp_lift.
  destruct (opened s) as [h|e|]; [|done..]. apply wp_bind. intros env t. unfold file_metadata.
  pose proof (Hm h t eq_refl) as Hmt. destruct (metadata_at h t) as [m|e|] eqn:Em; [|by left|done]. split; [lia|].
  apply wp_bind, wp_lift. destruct (meta_is_file m); cbn [negb reject]; [|done]. apply wp_bind, wp_lift.
  destruct (expected_size s) as [n|] eqn:En; [destruct (N.eqb_spec n (meta_len m)) as [->|]; cbn [negb reject]; [|done]|cbn [reject]];
    apply wp_ret; (split; [|naive_solver]); (split; cbn; [by apply Hf|by apply (Hl h t m)|eauto..|done]).
Qed.

(** A record whose validation cannot overflow. *)
Definition record_fits (t : TensorRecord) : Prop :=
  snd (record_range t) <= u64_MAX /\
  match record_storage t with Plain _ _ => True | Quantized s => companions s = ∅ end.

Lemma validate_span_not_Panic files span :
  span_offset span + span_length span <= u64_MAX -> validate_inventory_span span files <> Panic.
Proof.
  intros Hs. unfold validate_inventory_span. apply bind_not_Panic; [apply usize_try_from_not_Panic|]. intros i _.
  apply bind_not_Panic; [apply ok_or_not_Panic|]. intros f _.
  unfold span_end. rewrite (proj2 (N.leb_le _ _) Hs). cbn [mbind result_bind]. apply reject_not_Panic.
Qed.

Lemma btree_list_empty {A} : btree_list (∅ : gmap StableName A) = [].
Proof. reflexivity. Qed.

Lemma Inventory_new_not_Panic fs ts : Forall record_fits ts -> Inventory_new fs ts <> Panic.
Proof.
  intros Hts. unfold Inventory_new. apply bind_not_Panic; [apply reject_not_Panic|]. intros _ _.
  apply bind_not_Panic.
  { assert (forall all l i, length all = (i + length l)%nat -> validate_files all i l <> Panic) as H; [|by apply H].
    intros all l. induction l as [|f l IH]; intros i Hlen; cbn [validate_files length] in *; [done|].
    apply bind_not_Panic; [|intros; apply IH; lia]. unfold validate_file.
    apply bind_not_Panic; [apply u32_try_from_not_Panic|]. intros ? _.
    apply bind_not_Panic; [apply reject_not_Panic|]. intros _ _. destruct i as [|i]; [done|].
    apply bind_not_Panic; [apply index_not_Panic; lia|]. intros. apply reject_not_Panic. }
  intros _ _. apply bind_not_Panic; [apply reject_not_Panic|]. intros _ _. apply bind_not_Panic; [|done].
  apply try_fold_not_Panic. intros u t Ht. rewrite (merge_sort_Permutation name_le ts) in Ht.
  rewrite Forall_forall in Hts. destruct (Hts t Ht) as [Hr Hc]. unfold record_range in Hr. cbn [snd] in Hr.
  unfold validate_tensor. apply bind_not_Panic; [apply reject_not_Panic|]. intros _ _.
  destruct (record_storage t) as [d span|s]; cbn [storage_span] in Hr.
  - apply bind_not_Panic; [apply byte_len_not_Panic|]. intros ? _.
    apply bind_not_Panic; [apply reject_not_Panic|]. intros _ _. by apply validate_span_not_Panic.
  - apply bind_not_Panic; [apply reject_not_Panic|]. intros _ _.
    apply bind_not_Panic; [by apply validate_span_not_Panic|]. intros _ _. by rewrite Hc, btree_list_empty.
Qed.

(** What a checkpoint promises. *)
Record checkpoint_ok (c : Checkpoint) : Prop := {
  checkpoint_inventory : inventory_ok (inventory c);
  checkpoint_records : files (inventory c) = map open_record (open_files c);
  checkpoint_files : Forall file_wf (open_files c)
}.

(** ** Shard indexes *)

(** The file that holds a tensor. *)
Definition tensor_path (i : Inventory) (t : TensorRecord) : option RepoPath :=
  file_path <$> files i !! N.to_nat (ordinal (span_file (storage_span (record_storage t)))).

(** The index names exactly the tensors, each in its file. *)
Definition shard_agrees (index : ShardIndex) (i : Inventory) : Prop :=
  forall name path, weight_map index !! name = Some path <->
    exists t, t ∈ tensors i /\ record_name t = name /\ tensor_path i t = Some path.

Lemma string_list_elem {A} (m : gmap string A) k a : (k, a) ∈ string_list m <-> m !! k = Some a.
Proof.
  unfold string_list. rewrite list_elem_of_omap. split.
  - intros (k' & _ & H). destruct (m !! k') eqn:E; [|done]. by injection H as -> ->.
  - intros H. exists k. split; [|by rewrite H]. rewrite (merge_sort_Permutation String.le).
    apply list_elem_of_fmap. exists (k, a). split; [done|]. by apply elem_of_map_to_list.
Qed.

Lemma inventory_ordinals i t :
  inventory_ok i -> t ∈ tensors i -> exists f,
    files i !! N.to_nat (ordinal (span_file (storage_span (record_storage t)))) = Some f /\
    ordinal (span_file (storage_span (record_storage t))) <= usize_MAX.
Proof.
  intros [[_ Hn _] _ _ Ht] Hin. rewrite Forall_forall in Ht. destruct (Ht t Hin) as [_ Hok].
  assert (span_inside (files i) (storage_span (record_storage t))) as (f & Hf & _)
    by (destruct (record_storage t); naive_solver).
  exists f. split; [done|]. destruct (Hn _ _ Hf) as [_ Hu]. assert (u32_MAX <= usize_MAX) by done. lia.
Qed.

Definition mapping_agrees (i : Inventory) (mapping : string * RepoPath) : Prop :=
  exists t, t ∈ tensors i /\ record_name t = fst mapping /\ tensor_path i t = Some (snd mapping).

Lemma validate_shard_spec i mapping u :
  inventory_ok i ->
  wp (validate_shard i mapping u) (fun r =>
    match r with
    | Ok _ => mapping_agrees i mapping
    | Err _ => ~ mapping_agrees i mapping
    | Panic => False
    end).
Proof.
  intros Hi. destruct mapping as [name path]. unfold validate_shard, mapping_agrees. cbn [fst snd].
  apply wp_bind, wp_check, wp_bind, wp_lift.
  assert (forall t, t ∈ tensors i /\ record_name t = name <-> inventory_tensor i name = Some t) as Hlk
    by (intros t; by rewrite inventory_tensor_spec).
  destruct (inventory_tensor i name) as [t|] eqn:Et; cbn [ok_or].
  2: { intros (t & Hin & Hname & _). by pose proof (proj1 (Hlk t) (conj Hin Hname)). }
  destruct (proj2 (Hlk t) eq_refl) as [Hin Hname]. destruct (inventory_ordinals i t Hi Hin) as (f & Hf & Hu).
  apply wp_bind, wp_lift. rewrite (proj2 (usize_try_from_Ok _ _) (conj eq_refl Hu)).
  apply wp_bind, wp_lift. rewrite Hf. cbn [ok_or]. apply wp_lift.
  assert (tensor_path i t = Some (file_path f)) as Hpath by (unfold tensor_path; by rewrite Hf).
  case_bool_decide as Hp; cbn [negb reject].
  - exists t. by rewrite Hpath, Hp.
  - intros (t' & Hin' & Hname' & Ht'). pose proof (proj1 (Hlk t') (conj Hin' Hname')) as [= <-].
    rewrite Hpath in Ht'. by injection Ht' as Ht'.
Qed.

Lemma validate_shards_spec i l :
  inventory_ok i -> forall u,
  wp (for_each l (validate_shard i) u) (fun r =>
    match r with
    | Ok _ => Forall (mapping_agrees i) l
    | Err _ => ~ Forall (mapping_agrees i) l
    | Panic => False
    end).
Proof.
  intros Hi. induction l as [|m l IH]; intros u; cbn [for_each]; [by apply wp_ret|].
  apply wp_bind. eapply wp_mono; [by apply validate_shard_spec|]. intros [u'|e|]; try done.
  - intros Hm. eapply wp_mono; [apply IH|]. intros [?|e|]; [by constructor| |done].
    by intros Hno [_ ?]%Forall_cons.
  - by intros Hno [? _]%Forall_cons.
Qed.

(** As many distinct names as tensors, all of tensors: the names of all. *)
Lemma shard_agrees_spec index i :
  inventory_ok i ->
  size (weight_map index) = length (tensors i) /\
    Forall (mapping_agrees i) (string_list (weight_map index)) <-> shard_agrees index i.
Proof.
  intros Hi. set (names := list_to_set (inventory_names (tensors i)) : gset string).
  assert (size names = length (tensors i)) as Hsize.
  { unfold names. rewrite size_list_to_set by apply Hi. apply length_map. }
  assert (forall t t', t ∈ tensors i -> t' ∈ tensors i -> record_name t = record_name t' -> t = t') as Huniq.
  { intros t t' Ht Ht' Hn.
    pose proof (proj2 (inventory_tensor_spec i (record_name t) t Hi) (conj Ht eq_refl)) as H1.
    pose proof (proj2 (inventory_tensor_spec i (record_name t) t' Hi) (conj Ht' (eq_sym Hn))) as H2. congruence. }
  split.
  - intros [Hs Hall]. rewrite Forall_forall in Hall.
    assert (dom (weight_map index) = names) as Hdom.
    { apply set_subseteq_size_eq; [|rewrite size_dom; lia]. intros name [path Hp]%elem_of_dom.
      destruct (Hall (name, path)) as (t & Hin & Hname & _); [by apply string_list_elem|]. cbn in Hname.
      unfold names. rewrite elem_of_list_to_set. apply list_elem_of_fmap. by exists t. }
    intros name path. split; [intros Hp; apply (Hall (name, path)); by apply string_list_elem|].
    intros (t & Hin & Hname & Hpath).
    assert (name ∈ dom (weight_map index)) as [path' Hp']%elem_of_dom.
    { rewrite Hdom. unfold names. rewrite elem_of_list_to_set. apply list_elem_of_fmap. by exists t. }
    destruct (Hall (name, path')) as (t' & Hin' & Hname' & Hpath'); [by apply string_list_elem|]. cbn in Hname', Hpath'.
    assert (t' = t) as -> by (apply Huniq; congruence). congruence.
  - intros Hag. assert (dom (weight_map index) = names) as Hdom.
    { apply set_eq. intros name. unfold names. rewrite elem_of_dom, elem_of_list_to_set. split.
      - intros [path (t & Hin & Hname & _)%Hag]. apply list_elem_of_fmap. by exists t.
      - intros (t & -> & Hin)%list_elem_of_fmap. destruct (inventory_ordinals i t Hi Hin) as (f & Hf & _).
        exists (file_path f). apply Hag. exists t. unfold tensor_path. by rewrite Hf. }
    split; [by rewrite <-Hsize, <-Hdom, size_dom|].
    apply Forall_forall. intros [name path] (t & ?)%string_list_elem%Hag. by exists t.
Qed.

Lemma validate_shard_index_spec index i :
  inventory_ok i ->
  wp (validate_shard_index index i) (fun r =>
    match r with
    | Ok _ => shard_agrees index i
    | Err _ => ~ shard_agrees index i
    | Panic => False
    end).
Proof.
  intros Hi. unfold validate_shard_index. apply wp_bind, wp_lift.
  destruct (Nat.eqb_spec (size (weight_map index)) (length (tensors i))) as [Hs|Hs]; cbn [negb reject].
  2: { rewrite <-shard_agrees_spec by done. naive_solver. }
  apply wp_bind. eapply wp_mono; [by apply validate_shards_spec|]. intros [u|e|]; try done.
  - intros Hall. apply wp_check. by apply shard_agrees_spec.
  - rewrite <-shard_agrees_spec by done. naive_solver.
Qed.

(** ** Opening *)

(** A loop over a list keeps an invariant of what it has visited. *)
Lemma wp_for_each_inv {A S} (I : list A -> S -> Prop) (l : list A) body (s : S) :
  I [] s ->
  (forall visited x rest s, l = visited ++ x :: rest -> I visited s ->
     wp (body x s) (fun r => match r with Ok s' => I (visited ++ [x]) s' | Err _ => True | Panic => False end)) ->
  wp (for_each l body s) (fun r => match r with Ok s' => I l s' | Err _ => True | Panic => False end).
Proof.
  intros H0 Hstep.
  cut (forall pre s, I pre s ->
    (forall visited x rest s, pre ++ l = visited ++ x :: rest -> I visited s ->
       wp (body x s) (fun r => match r with Ok s' => I (visited ++ [x]) s' | Err _ => True | Panic => False end)) ->
    wp (for_each l body s) (fun r => match r with Ok s' => I (pre ++ l) s' | Err _ => True | Panic => False end)).
  { intros Hc. by apply (Hc []). }
  clear H0 Hstep s. induction l as [|a l IH]; intros pre s H0 Hstep; cbn [for_each].
  { apply wp_ret. by rewrite app_nil_r. }
  apply wp_bind. eapply wp_mono; [by apply (Hstep pre a l)|]. intros [s'|e|]; try done.
  intros Hs'. replace (pre ++ a :: l) with ((pre ++ [a]) ++ l) in * by by rewrite <-app_assoc. by apply IH.
Qed.

(** What the loop over the sources keeps. *)
Record opening_ok (visited : list SourceDescriptor) (s : Opening) : Prop := {
  opening_sources : map source (opening_files s) = visited;
  opening_wf : Forall file_wf (opening_files s);
  opening_fits : Forall record_fits (opening_tensors s);
  opening_sizes : Forall (fun f => forall n, expected_size (source f) = Some n -> open_size f = n) (opening_files s)
}.

Lemma open_source_spec json limits visited source s :
  source_ok source -> max_metadata_bytes limits <= usize_MAX -> opening_ok visited s ->
  wp (open_source json limits source s) (fun r =>
    match r with Ok s' => opening_ok (visited ++ [source]) s' | Err _ => True | Panic => False end).
Proof.
  intros Hsrc Hm [Hs Hwf Hfits Hsz]. unfold open_source. apply wp_bind, wp_check, wp_bind, wp_lift.
  pose proof (u32_try_from_not_Panic (N.of_nat (length (opening_files s)))) as Hnp.
  destruct (u32_try_from _) as [n|e|]; [|done..]. apply wp_bind.
  eapply wp_mono; [by apply OpenFile_open_spec|]. intros [f|e|]; try done. intros (Hf & Hsf & Hid & _ & Hexp).
  apply wp_bind. eapply wp_mono; [by apply parse_source_spec|]. intros [p|e|]; try done. intros Hp.
  apply wp_bind, wp_lift. destruct (match opening_format s with Some _ => _ | None => _ end); cbn [reject]; [done|].
  apply wp_bind, wp_lift. destruct (checked_sub _ _) as [remaining|]; cbn [ok_or]; [|done].
  apply wp_bind, wp_lift. destruct (remaining <? _); cbn [reject]; [done|]. apply wp_ret.
  split; cbn [opening_files opening_tensors].
  - by rewrite map_app, Hs; cbn; rewrite Hsf.
  - apply Forall_app. split; [done|by constructor].
  - apply Forall_app. split; [done|]. eapply Forall_impl; [exact Hp|]. intros t [_ Hsize Hc].
    pose proof (wf_size f Hf). split; [lia|done].
  - apply Forall_app. split; [done|]. constructor; [|done]. by rewrite Hsf.
Qed.

Lemma open_spec json b :
  Forall source_ok (sources b) -> max_metadata_bytes (builder_limits b) <= usize_MAX ->
  wp (open json b) (fun r =>
    match r with
    | Ok c => checkpoint_ok c /\ Permutation (map source (open_files c)) (sources b) /\
        (forall f n, f ∈ open_files c -> expected_size (source f) = Some n -> open_size f = n) /\
        (forall index, shard_index b = Some index -> shard_agrees index (inventory c)) /\
        access c = builder_access b /\
        (access c = Mmap -> forall f, f ∈ open_files c -> source_kind (source f) = RetainedSnapshot)
    | Err _ => True
    | Panic => False
    end).
Proof.
  intros Hsrc Hm. unfold open. apply wp_bind, wp_check, wp_bind, wp_lift.
  case_bool_decide; cbn [reject]; [done|]. apply wp_bind, wp_lift. destruct (_ <? _); cbn [reject]; [done|].
  apply wp_bind, wp_lift. destruct (bool_decide (builder_access b = Mmap) && _) eqn:Ekind; cbn [reject]; [done|].
  apply wp_bind, wp_lift. destruct (windows_any _ _); cbn [reject]; [done|].
  pose proof (merge_sort_Permutation path_le (sources b)) as Hperm. apply wp_bind.
  eapply wp_mono; [apply (wp_for_each_inv opening_ok)|].
  { split; cbn; constructor. }
  { intros visited x rest s Hl Hs. apply open_source_spec; [|done|done].
    rewrite Forall_forall in Hsrc. apply Hsrc. rewrite <-Hperm, Hl. apply elem_of_app. right. left. }
  intros [s|e|]; try done. intros [Hs Hwf Hfits Hsz]. apply wp_bind, wp_check, wp_bind, wp_lift.
  destruct (Inventory_new _ _) as [i|e|] eqn:Ei; [|done|by apply Inventory_new_not_Panic in Ei].
  pose proof (Inventory_new_ok _ _ _ Ei) as Hi. apply Inventory_new_Ok in Ei as (_ & _ & _ & Ei).
  assert (wp (match shard_index b with
    | Some index => _ ← lift (reject (bool_decide (opening_format s = Some GgufFormat)) InvalidFormat);
                    validate_shard_index index i
    | None => mret tt end) (fun r => match r with
    | Ok _ => forall index, shard_index b = Some index -> shard_agrees index i | Err _ => True | Panic => False end)) as Hshard.
  { destruct (shard_index b) as [index|]; [|by apply wp_ret]. apply wp_bind, wp_lift.
    destruct (bool_decide (opening_format s = _)); cbn [reject]; [done|]. eapply wp_mono; [by apply validate_shard_index_spec|].
    intros [u|e|]; try done. by intros Ha ? [= <-]. }
  apply wp_bind. eapply wp_mono; [exact Hshard|]. intros [u|e|]; try done. intros Hag.
  apply wp_bind, wp_check, wp_ret. cbn [inventory open_files access]. split_and!; try done.
  - split; cbn [inventory open_files]; [done|by rewrite Ei|done].
  - by rewrite Hs.
  - rewrite Forall_forall in Hsz. intros f n Hf. by apply Hsz.
  - intros Ha f Hf. rewrite bool_decide_true in Ekind by done. cbn [andb] in Ekind.
    apply existsb_Forall in Ekind. rewrite Forall_forall in Ekind.
    assert (source f ∈ sources b) as Hin by (rewrite <-Hperm, <-Hs; apply list_elem_of_fmap; by exists f).
    specialize (Ekind _ Hin). by apply negb_false_iff, bool_decide_eq_true in Ekind.
Qed.

(** ** Tensors *)

Lemma span_inside_file c span :
  checkpoint_ok c -> span_inside (files (inventory c)) span ->
  exists f, open_files c !! N.to_nat (ordinal (span_file span)) = Some f /\ span_file span = open_id f /\
    span_offset span + span_length span <= open_size f /\ ordinal (span_file span) <= u32_MAX.
Proof.
  intros [[[_ Hn _] _ _ _] Hrec _] (r & Hr & Hs). destruct (Hn _ _ Hr) as [Hid Hu]. rewrite Hrec in Hr.
  rewrite list_lookup_fmap in Hr. destruct (open_files c !! _) as [f|] eqn:Ef; [|done]. injection Hr as <-.
  exists f. cbn in Hid, Hs. split; [done|]. split; [|split; lia]. rewrite Hid, N2Nat.id. by destruct (span_file span).
Qed.

Lemma same_record f f' : same_file f f' -> open_record f' = open_record f.
Proof. intros (H1 & H2 & H3 & H4 & _). unfold open_record. by rewrite H1, H2, H4. Qed.

(** Replacing the cells of a file keeps a checkpoint. *)
Lemma checkpoint_insert c i f f' :
  checkpoint_ok c -> open_files c !! i = Some f -> same_file f f' -> file_wf f' ->
  checkpoint_ok (set_files (<[i := f']> (open_files c)) c).
Proof.
  intros [Hi Hr Hf] Hl Hs Hw. split; cbn [set_files inventory open_files]; [done| |by apply Forall_insert].
  change (map open_record (<[i:=f']> (open_files c))) with (open_record <$> <[i:=f']> (open_files c)).
  rewrite list_fmap_insert, (same_record f f' Hs), Hr. symmetry. apply list_insert_id.
  rewrite list_lookup_fmap. by rewrite Hl.
Qed.

Lemma read_span_spec mmap c span :
  checkpoint_ok c -> span_inside (files (inventory c)) span ->
  wp (read_span mmap c span) (fun r =>
    match r with
    | Ok (v, c') => checkpoint_ok c' /\ inventory c' = inventory c /\
        exists f, open_files c !! N.to_nat (ordinal (span_file span)) = Some f /\ view_shows f span v
    | Err _ => access c = Read -> exists f, open_files c !! N.to_nat (ordinal (span_file span)) = Some f /\
        ~ file_readable (handle_file (handle f)) (open_size f)
    | Panic => False
    end).
Proof.
  intros Hc Hspan. destruct (span_inside_file c span Hc Hspan) as (f & Hf & Hid & Hs & Hu).
  assert (file_wf f) as Hwf by (eapply Forall_lookup_1; [apply Hc|exact Hf]).
  unfold read_span. apply wp_bind, wp_check, wp_bind, wp_lift.
  rewrite (proj2 (usize_try_from_Ok _ _)) by (split; [done|assert (u32_MAX <= usize_MAX) by done; lia]).
  apply wp_bind, wp_lift. rewrite Hf. cbn [ok_or]. apply wp_bind.
  eapply wp_mono; [apply open_read_span_spec; [done|pose proof (wf_size f Hwf); lia]|].
  intros [[v f']|e|]; try done.
  - intros (Hf' & Hsame & Hv & _). apply wp_bind, wp_check, wp_ret. split_and!; [by apply (checkpoint_insert c _ f)|done|].
    by exists f.
  - intros Hno Ha. exists f. split; [done|]. intros (H1 & H2 & H3). by apply Hno.
Qed.

Lemma tensor_spec mmap c name :
  checkpoint_ok c ->
  wp (tensor mmap c name) (fun r =>
    match r with
    | Ok (d, c') => checkpoint_ok c' /\ inventory c' = inventory c /\
        inventory_tensor (inventory c) name = Some (data_record d) /\
        exists f, let span := storage_span (record_storage (data_record d)) in
          open_files c !! N.to_nat (ordinal (span_file span)) = Some f /\ view_shows f span (data_bytes d)
    | Err _ => access c = Read -> Forall (fun f => file_readable (handle_file (handle f)) (open_size f)) (open_files c) ->
        inventory_tensor (inventory c) name = None
    | Panic => False
    end).
Proof.
  intros Hc. unfold tensor. apply wp_bind, wp_lift.
  destruct (inventory_tensor (inventory c) name) as [t|] eqn:Et; cbn [ok_or]; [|done].
  pose proof Hc as [Hi _ _]. pose proof Et as [Hin _]%inventory_tensor_spec; [|done].
  assert (span_inside (files (inventory c)) (storage_span (record_storage t))) as Hs.
  { destruct Hi as [_ _ _ Hall]. rewrite Forall_forall in Hall. destruct (Hall t Hin) as [_ Hok].
    destruct (record_storage t); naive_solver. }
  apply wp_bind. eapply wp_mono; [by apply read_span_spec|]. intros [[v c']|e|]; try done.
  - intros (Hc' & Hinv & Hv). by apply wp_ret.
  - intros Hno Ha Hall. destruct (Hno Ha) as (f & Hf & Hn). by eapply Forall_lookup_1 in Hf; [|exact Hall].
Qed.
