(* ===== verification/LocalIndex.v ===== *)
(** * Local checkpoints of [checkpoint.rs]

    Paths, bounded metadata files, and the shards of a local index. What the
    file system returns is a parameter. *)


From S2P Require Import Prelude Errors Cancel Tensor Identity Order Limits Quantization Cast FileReader.
From S2P Require Import Inventory Gguf ReaderSpecs Json Safetensors Checkpoint.
From S2P Require Import CheckpointSpecs.
From Stdlib Require Strings.String.
Local Open Scope N_scope.

(** What opening a path and resolving it return, while no one changes the
    directories. *)
Record FileSystem := {
  open_path : string -> result Handle;
  canonicalize : string -> result string
}.

(** ** Paths of the standard library *)

Definition rooted (path : bytes) : bool := bool_decide (head path = Some Byte.x2f).

(** [Path::components], without the root: a dot counts at the start of a
    relative path only. *)
Definition components (path : bytes) : list bytes :=
  let parts := split_slash path in
  (if bool_decide (head parts = Some dot) then [dot] else []) ++
  List.filter (fun c => negb (bool_decide (c = [])) && negb (bool_decide (c = dot))) parts.

(** [PathBuf::push]. *)
Definition push (base component : bytes) : bytes :=
  if rooted component then component else
  if bool_decide (base = []) || bool_decide (last base = Some Byte.x2f) then base ++ component
  else base ++ Byte.x2f :: component.

(** [Path::parent], spelled without empty and dot components. *)
Definition parent (path : bytes) : option bytes :=
  match components path with
  | [] => None
  | cs => Some (foldl push (if rooted path then [Byte.x2f] else []) (removelast cs))
  end.

(** [Path::starts_with]: component by component. *)
Definition starts_with (path prefix : bytes) : bool :=
  Bool.eqb (rooted path) (rooted prefix) && bool_decide (components prefix `prefix_of` components path).

Definition repo_path_to_platform (path : RepoPath) : bytes :=
  foldl push [] (split_slash (String.list_byte_of_string (repo_path path))).

(** ** Bounded files *)

Definition METADATA_BLOCK_BYTES : N := 64 * 1024.

(** The loop of [read_bounded_file]: the file is read in sequence. A round that
    continues reads at least one byte. *)
Fixpoint bounded_loop (fuel : nat) (f : File) (remaining : N) (bs : bytes) : M bytes :=
  if negb (0 <? remaining) then mret bs else
  match fuel with
  | O => lift Panic
  | S fuel =>
      _ ← check;
      amount ← lift (usize_try_from (N.min remaining METADATA_BLOCK_BYTES));
      read ← lift (read_at f (N.of_nat (length bs)) amount);
      if read =? 0 then mret bs else
      _ ← try_reserve_exact (N.of_nat (length bs) + read);
      bounded_loop fuel f (saturating_sub remaining read)
        (bs ++ slice (contents f) (N.of_nat (length bs)) read)
  end.

Definition read_bounded_file (opened : result Handle) (byte_limit : N) : M bytes :=
  _ ← check;
  file ← lift opened;
  metadata ← file_metadata file;
  _ ← lift (reject (byte_limit <? meta_len metadata) ResourceLimit);
  capacity ← lift (usize_try_from (meta_len metadata));
  _ ← try_reserve_exact capacity;
  _ ← try_reserve_exact METADATA_BLOCK_BYTES;
  bs ← bounded_loop (S (length (contents (handle_file file)))) (handle_file file) (saturating_add byte_limit 1) [];
  _ ← check;
  _ ← lift (reject (byte_limit <? N.of_nat (length bs)) ResourceLimit);
  mret bs.

(** ** Builders *)

Definition from_sources (sources : list SourceDescriptor) : CheckpointBuilder :=
  {| sources := sources; shard_index := None; builder_limits := ResourceLimits_default;
     builder_access := Auto |}.
Definition builder_new (source : SourceDescriptor) : CheckpointBuilder := from_sources [source].

Inductive CheckpointSetting :=
  | SetShardIndex (index : ShardIndex)
  | SetLimits (limits : ResourceLimits)
  | SetAccess (access : AccessMode).

Definition apply_checkpoint_setting (b : CheckpointBuilder) (s : CheckpointSetting) : CheckpointBuilder :=
  match s with
  | SetShardIndex index =>
      {| sources := sources b; shard_index := Some index; builder_limits := builder_limits b;
         builder_access := builder_access b |}
  | SetLimits limits =>
      {| sources := sources b; shard_index := shard_index b; builder_limits := limits;
         builder_access := builder_access b |}
  | SetAccess access =>
      {| sources := sources b; shard_index := shard_index b; builder_limits := builder_limits b;
         builder_access := access |}
  end.

Section FileSystem.
Context (fs : FileSystem) (json : bytes -> Document).

(** One round of the loop over the shards of an index. *)
Definition local_shard (canonical_parent : string) (shard : RepoPath) (sources : list SourceDescriptor)
  : M (list SourceDescriptor) :=
  _ ← check;
  let base := String.list_byte_of_string canonical_parent in
  let joined := push base (repo_path_to_platform shard) in
  canonical ← lift (canonicalize fs (String.string_of_list_byte joined));
  _ ← lift (reject (negb (starts_with (String.list_byte_of_string canonical) base)) InvalidPath);
  source ← lift (source_local canonical (open_path fs canonical));
  source ← lift (with_logical_path (repo_path shard) source);
  mret (sources ++ [source]).

(** [from_local_index_with_limits_and_cancellation]. *)
Definition from_local_index (path : string) (limits : ResourceLimits) : M CheckpointBuilder :=
  _ ← check;
  bs ← read_bounded_file (open_path fs path) (max_header_bytes limits);
  _ ← check;
  index ← ShardIndex_from_json json bs limits;
  _ ← check;
  let directory :=
    match parent (String.list_byte_of_string path) with
    | Some (_ :: _ as directory) => directory
    | _ => dot
    end in
  canonical_parent ← lift (canonicalize fs (String.string_of_list_byte directory));
  sources ← for_each (shard_paths index) (local_shard canonical_parent) [];
  mret {| sources := sources; shard_index := Some index; builder_limits := limits; builder_access := Auto |}.

Definition index_suffix : bytes := String.list_byte_of_string ".index.json".

(** [Checkpoint::open_with_cancellation]. *)
Definition open_checkpoint (path : string) : M Checkpoint :=
  _ ← check;
  if match file_name path with
     | Some name => bool_decide (index_suffix `suffix_of` name)
     | None => false
     end
  then b ← from_local_index path ResourceLimits_default; open json b
  else
    source ← lift (source_local path (open_path fs path));
    open json (builder_new source).
End FileSystem.

(** * Local indexes: what is read, and where shards may be *)

(** ** Bounded files *)

(** The file is read to its end, or to as many bytes as remain. *)
Lemma bounded_loop_spec fuel f : file_ok f -> forall remaining bs,
  N.of_nat (length (contents f)) <= u64_MAX -> remaining <= u64_MAX ->
  bs = slice (contents f) 0 (N.of_nat (length bs)) -> (length bs <= length (contents f))%nat ->
  (length (contents f) - length bs < fuel)%nat ->
  wp (bounded_loop fuel f remaining bs) (fun r =>
    match r with
    | Ok bs' => bs' = slice (contents f) 0 (N.min (N.of_nat (length (contents f))) (N.of_nat (length bs) + remaining))
    | Err _ => ~ (reliable f /\ N.of_nat (length (contents f)) <= isize_MAX)
    | Panic => False
    end).
Proof.
  intros Hf. induction fuel as [|fuel IH]; intros remaining bs Hu Hr Hbs Hl Hfuel; [lia|]. cbn [bounded_loop].
  destruct (N.ltb_spec 0 remaining) as [Hpos|Hz]; cbn [negb].
  2: { apply wp_ret. rewrite N.min_r by lia. by replace (N.of_nat (length bs) + remaining) with (N.of_nat (length bs)) by lia. }
  apply wp_bind, wp_check, wp_bind, wp_lift. set (amount := N.min remaining METADATA_BLOCK_BYTES).
  assert (0 < amount <= remaining) as Ha by (unfold amount, METADATA_BLOCK_BYTES; lia).
  rewrite (proj2 (usize_try_from_Ok amount amount)) by (split; [done|unfold usize_MAX; lia]).
  apply wp_bind, wp_lift. destruct (read_at f _ amount) as [n|e|] eqn:En; [| |by apply (read_at_error f Hf) in En].
  2: { intros [Hrel _]. destruct (Hrel (N.of_nat (length bs)) amount). congruence. }
  destruct (N.eqb_spec n 0) as [->|Hn].
  { apply wp_ret. destruct (read_at_none f Hf _ _ En) as [?|Hend]; [lia|]. rewrite N.min_l by lia.
    by replace (N.of_nat (length (contents f))) with (N.of_nat (length bs)) by lia. }
  destruct (read_at_some f Hf _ _ _ En) as [Hle [?|Hin]]; [done|].
  assert (bs ++ slice (contents f) (N.of_nat (length bs)) n = slice (contents f) 0 (N.of_nat (length bs) + n)) as Hnext
    by (by rewrite slice_app, <-Hbs).
  apply wp_bind, wp_try_reserve_exact; [|intros Hbig; intros [_ ?]; lia]. intros _.
  assert (length (bs ++ slice (contents f) (N.of_nat (length bs)) n) = (length bs + N.to_nat n)%nat) as Hlen
    by (by rewrite length_app, slice_length by lia).
  unfold saturating_sub. eapply wp_mono; [apply IH; rewrite ?Hlen; [done|lia| |lia|lia]|].
  { rewrite Hnext. f_equal. lia. }
  intros [bs'|e|]; try done. intros ->. f_equal. rewrite Hlen. lia.
Qed.

(** A file is read in full when it fits the limit; otherwise nothing is returned. *)
Lemma read_bounded_file_spec opened byte_limit :
  opened <> Panic -> byte_limit <= u64_MAX ->
  (forall h, opened = Ok h -> file_ok (handle_file h) /\ N.of_nat (length (contents (handle_file h))) <= u64_MAX /\
     (forall n, metadata_at h n <> Panic) /\ forall n m, metadata_at h n = Ok m -> meta_len m <= u64_MAX) ->
  wp (read_bounded_file opened byte_limit) (fun r =>
    match r with
    | Ok bs => exists h, opened = Ok h /\ bs = contents (handle_file h) /\ N.of_nat (length bs) <= byte_limit
    | Err _ => ~ exists h m, opened = Ok h /\ (forall n, metadata_at h n = Ok m) /\ reliable (handle_file h) /\
        meta_len m = N.of_nat (length (contents (handle_file h))) /\
        meta_len m <= byte_limit /\ meta_len m <= isize_MAX
    | Panic => False
    end).
Proof.
  intros Ho Hb Hh. unfold read_bounded_file. apply wp_bind, wp_check, wp_bind, wp_lift.
  destruct opened as [h|e|]; [|naive_solver|done]. destruct (Hh h eq_refl) as (Hf & Hu & Hmp & Hml).
  apply wp_bind. intros env t. unfold file_metadata. pose proof (Hmp t) as Hmt.
  destruct (metadata_at h t) as [m|e|] eqn:Em; [|left; intros (h' & m' & [= <-] & Hm & _); by rewrite Hm in Em|done].
  split; [lia|]. specialize (Hml t m Em).
  assert (forall P : Prop, (forall h' m', Ok h = Ok h' -> (forall n, metadata_at h' n = Ok m') -> P -> h' = h /\ m' = m)) as Huniq.
  { intros P h' m' [= <-] Hm _. split; [done|]. specialize (Hm t). congruence. }
  apply wp_bind, wp_lift. destruct (N.ltb_spec byte_limit (meta_len m)) as [Hl|Hl]; cbn [reject].
  { intros (h' & m' & Hh' & Hm & _ & _ & ? & _). destruct (Huniq True h' m' Hh' Hm I) as [-> ->]. lia. }
  apply wp_bind, wp_lift. rewrite (proj2 (usize_try_from_Ok _ _)) by (split; [done|unfold usize_MAX; lia]).
  apply wp_bind, wp_try_reserve_exact.
  2: { intros Hbig (h' & m' & Hh' & Hm & _ & _ & _ & ?). destruct (Huniq True h' m' Hh' Hm I) as [-> ->]. lia. }
  intros _. apply wp_bind, wp_try_reserve_exact; [intros _|done].
  apply wp_bind. eapply wp_mono; [apply (bounded_loop_spec _ _ Hf); try done; [unfold saturating_add; lia|cbn; lia..]|].
  intros [bs|e|]; [| |done].
  2: { intros Hno (h' & m' & Hh' & Hm & Hrel & Hlen & _ & Hi). destruct (Huniq True h' m' Hh' Hm I) as [-> ->].
       apply Hno. split; [done|lia]. }
  cbn [length]. change (N.of_nat 0) with 0. intros ->. apply wp_bind, wp_check, wp_bind, wp_lift.
  set (n := N.min (N.of_nat (length (contents (handle_file h)))) (0 + saturating_add byte_limit 1)).
  rewrite slice_length by (unfold n; lia). rewrite N2Nat.id.
  destruct (N.ltb_spec byte_limit n) as [Hn|Hn]; cbn [reject].
  - intros (h' & m' & Hh' & Hm & _ & Hlen & ? & _). destruct (Huniq True h' m' Hh' Hm I) as [-> ->]. lia.
  - apply wp_ret. exists h. split; [done|].
    assert (n = N.of_nat (length (contents (handle_file h)))) as Hnl by (unfold n, saturating_add in *; lia).
    rewrite Hnl. unfold slice. rewrite Nat2N.id, drop_0, firstn_all. split; [done|lia].
Qed.

(** ** Shard indexes *)

(** The induction principle of trees. *)
Section JsonInd.
Context (P : Json -> Prop).
Context (Hseq : forall l closed, Forall P l -> P (Sequence l closed)).
Context (Hobj : forall l closed, Forall P (map snd l) -> P (Object l closed)).
Context (Hleaf : forall j, (forall l c, j <> Sequence l c) -> (forall l c, j <> Object l c) -> P j).

Lemma Json_tree_ind : forall j, P j.
Proof using Hseq Hobj Hleaf.
  fix IH 1. intros [| | | | | |l closed|l closed|]; try by apply Hleaf.
  - apply Hseq. induction l as [|j l IHl]; constructor; [apply IH|exact IHl].
  - apply Hobj. induction l as [|[k j] l IHl]; constructor; [apply IH|exact IHl].
Qed.
End JsonInd.

Lemma ignore_any_safe j : vwp (ignore_any j) (fun _ => True).
Proof.
  induction j as [l closed Hl|l closed Hl|j Hs Ho] using Json_tree_ind; cbn [ignore_any].
  - vstep. vstep. induction Hl as [|j l Hj _ IH]; cbn beta match fix; vstep; vstep; [by repeat vstep|].
    vstep. eapply vwp_mono; [exact Hj|]. intros _ _. exact IH.
  - vstep. vstep. induction l as [|[k j] l IH]; cbn beta match fix; vstep; vstep; [by repeat vstep|].
    cbn [map snd] in Hl. apply Forall_cons in Hl as [Hj Hl]. vstep. vstep. vstep. vstep. vstep.
    eapply vwp_mono; [exact Hj|]. intros _ _. by apply IH.
  - destruct j; try by destruct (Hs elements closed). all: try by destruct (Ho fields closed).
    all: cbn [ignore_any]; by repeat vstep.
Qed.

Section Index.
Context (limits : ResourceLimits).

(** A weight map within the limits: named tensors, valid paths, and not too
    many of either. *)
Record map_ok (m : gmap string RepoPath) : Prop := {
  map_names : map_Forall (fun k _ => string_len k <= max_name_bytes limits) m;
  map_paths : map_Forall (fun _ p => RepoPath_parse (repo_path p) = Ok p) m;
  map_size : N.of_nat (size m) <= max_tensors limits
}.

Record shards_ok (m : gmap string RepoPath) (shards : list RepoPath) : Prop := {
  shards_distinct : NoDup shards;
  shards_elem p : p ∈ shards <-> exists k, m !! k = Some p;
  shards_count : N.of_nat (length shards) <= max_shards limits
}.

Definition index_ok (m : gmap string RepoPath) : Prop := map_ok m /\ exists shards, shards_ok m shards.

Lemma RepoPath_parse_again value p : RepoPath_parse value = Ok p -> RepoPath_parse (repo_path p) = Ok p.
Proof using Type. intros H. pose proof H as [Hv _]%RepoPath_parse_Ok. by rewrite Hv. Qed.

Lemma RepoPath_parse_not_Panic value : RepoPath_parse value <> Panic.
Proof using Type. unfold RepoPath_parse. repeat (apply bind_not_Panic; [apply reject_not_Panic|intros]); done. Qed.

Lemma visit_weight_map_safe l closed : forall m shards,
  map_ok m -> shards_ok m shards -> vwp (visit_weight_map limits l closed m shards) index_ok.
Proof using Type.
  induction l as [|[k j] l IH]; intros m shards Hm Hs; cbn [visit_weight_map]; vstep; vstep.
  { vstep; [|vstep]. vstep. split; [done|by exists shards]. }
  vstep. apply key_seed_safe. intros Hk. vstep. vstep. vstep; [vstep|]. vstep; [vstep|]. vstep.
  apply string_seed_safe. intros raw _. vstep. apply vwp_lift; [apply RepoPath_parse_not_Panic|].
  intros p Hp. apply RepoPath_parse_again in Hp. cbv zeta. vstep; [vstep|]. apply bool_decide_eq_false in E.
  apply eq_None_not_Some in E. bool_to_prop. destruct Hm as [Hn Hpath Hsz]. destruct Hs as [Hd He Hc]. apply IH.
  - split; [by apply map_Forall_insert_2|by apply map_Forall_insert_2|].
    rewrite map_size_insert_None by done. lia.
  - assert (forall q, (exists k', <[k := p]> m !! k' = Some q) <-> q = p \/ exists k', m !! k' = Some q) as Hq.
    { intros q. split.
      - intros [k' [[-> ->]|[_ Hk']]%lookup_insert_Some]; [by left|right; eauto].
      - intros [->|[k' Hk']]; [exists k; by rewrite lookup_insert_eq|].
        exists k'. rewrite lookup_insert_ne; [done|]. intros <-. congruence. }
    case_bool_decide as Hin; split; try done.
    + intros q. rewrite Hq, He. split; [by right|]. intros [->|?]; [by apply He|done].
    + by constructor.
    + intros q. by rewrite elem_of_cons, He, Hq.
Qed.

Lemma weight_map_seed_safe j : vwp (weight_map_seed limits j) index_ok.
Proof using Type.
  unfold weight_map_seed. vstep. vstep. destruct j; try vstep. apply visit_weight_map_safe.
  - split; [apply map_Forall_empty..|]. rewrite map_size_empty. lia.
  - split; [constructor| |cbn; lia]. intros p. split; [by intros ?%elem_of_nil|]. by intros [k Hk].
Qed.

Lemma visit_shard_index_safe l closed : forall seen o,
  (forall m, o = Some m -> index_ok m) -> vwp (visit_shard_index limits l closed seen o) index_ok.
Proof using Type.
  induction l as [|[k j] l IH]; intros seen o Ho; cbn [visit_shard_index]; vstep; vstep.
  { vstep; [|vstep]. destruct o; vstep. by apply Ho. }
  vstep. vstep. vstep; [vstep|]. cbv zeta. vstep; vstep.
  - eapply vwp_mono; [apply weight_map_seed_safe|]. intros m Hm. apply IH. by intros ? [= <-].
  - eapply vwp_mono; [apply ignore_any_safe|]. intros _ _. by apply IH.
Qed.

Lemma ShardIndex_from_json_spec json bs :
  wp (ShardIndex_from_json json bs limits) (fun r =>
    match r with Ok index => index_ok (weight_map index) | Err _ => True | Panic => False end).
Proof using Type.
  unfold ShardIndex_from_json. apply wp_bind, wp_check, wp_bind, wp_lift. destruct (_ <? _); cbn [reject]; [done|].
  apply wp_bind. eapply wp_mono; [apply (deserialize_json_safe _ _ index_ok)|].
  { unfold shard_index_seed. vstep. vstep. destruct (document_value _); try vstep. by apply visit_shard_index_safe. }
  intros [m|e|]; try done. intros Hm. by apply wp_bind, wp_check, wp_ret.
Qed.

(** The shards of an index: its distinct paths. *)
Lemma shard_paths_spec index :
  index_ok (weight_map index) ->
  NoDup (shard_paths index) /\ (forall p, p ∈ shard_paths index <-> exists k, weight_map index !! k = Some p) /\
  N.of_nat (length (shard_paths index)) <= max_shards limits /\
  Forall (fun p => RepoPath_parse (repo_path p) = Ok p) (shard_paths index).
Proof using Type.
  intros [[_ Hp _] (shards & [Hd He Hc])].
  assert (NoDup (shard_paths index)) as Hnd.
  { unfold shard_paths. rewrite sort_unstable_Permutation. apply NoDup_remove_dups. }
  assert (forall p, p ∈ shard_paths index <-> exists k, weight_map index !! k = Some p) as Hel.
  { intros p. unfold shard_paths. rewrite sort_unstable_Permutation, elem_of_remove_dups, list_elem_of_fmap. split.
    - intros ([k q] & -> & Hk). exists k. by apply string_list_elem.
    - intros [k Hk]. exists (k, p). split; [done|]. by apply string_list_elem. }
  split_and!; [done|done| |].
  - assert (Permutation (shard_paths index) shards) as ->; [|done].
    apply NoDup_Permutation; [done..|]. intros p. by rewrite Hel, He.
  - apply Forall_forall. intros p [k Hk]%Hel. by apply (Hp k).
Qed.
End Index.

(** ** Where shards are *)

Section Shards.
Context (fs : FileSystem) (json : bytes -> Document).

(** A source of a shard: a local file at or below the directory. *)
Record shard_source (directory : string) (shard : RepoPath) (s : SourceDescriptor) : Prop := {
  shard_logical : logical_path s = shard;
  shard_below : starts_with (String.list_byte_of_string (local_path s)) (String.list_byte_of_string directory) = true;
  shard_resolved : canonicalize fs (String.string_of_list_byte
      (push (String.list_byte_of_string directory) (repo_path_to_platform shard))) = Ok (local_path s);
  shard_opened : opened s = open_path fs (local_path s);
  shard_kind : source_kind s = Local;
  shard_policy : digest_policy s = ComputeOnDemand
}.

Context (Hcanon : forall path, canonicalize fs path <> Panic).

Lemma source_local_not_Panic path opened : source_local path opened <> Panic.
Proof using Type.
  unfold source_local. apply bind_not_Panic; [apply ok_or_not_Panic|]. intros n _.
  apply bind_not_Panic; [apply RepoPath_parse_not_Panic|]. done.
Qed.

Lemma local_shard_spec directory shard ss :
  RepoPath_parse (repo_path shard) = Ok shard ->
  wp (local_shard fs directory shard ss) (fun r =>
    match r with
    | Ok ss' => exists s, shard_source directory shard s /\ ss' = ss ++ [s]
    | Err _ => True
    | Panic => False
    end).
Proof using Hcanon.
  intros Hp. unfold local_shard. apply wp_bind, wp_check, wp_bind, wp_lift.
  destruct (canonicalize fs _) as [path|e|] eqn:Ec; [|done|by apply Hcanon in Ec].
  apply wp_bind, wp_lift. destruct (starts_with _ _) eqn:Es; cbn [negb reject]; [|done].
  apply wp_bind, wp_lift. destruct (source_local _ _) as [s|e|] eqn:El; [|done|by apply source_local_not_Panic in El].
  apply bind_Ok in El as (n & _ & El). apply bind_Ok in El as (q & _ & [= <-]).
  apply wp_bind, wp_lift. unfold with_logical_path. rewrite Hp. apply wp_ret. eexists. split; [|reflexivity]. by split.
Qed.

(** Sources of an index: one for each shard, in order. *)
Lemma from_local_index_spec path limits :
  open_path fs path <> Panic -> max_header_bytes limits <= u64_MAX ->
  (forall h, open_path fs path = Ok h -> file_ok (handle_file h) /\
     N.of_nat (length (contents (handle_file h))) <= u64_MAX /\
     (forall n, metadata_at h n <> Panic) /\ forall n m, metadata_at h n = Ok m -> meta_len m <= u64_MAX) ->
  wp (from_local_index fs json path limits) (fun r =>
    match r with
    | Ok b => exists index directory, shard_index b = Some index /\ index_ok limits (weight_map index) /\
        Forall2 (shard_source directory) (shard_paths index) (sources b) /\
        builder_limits b = limits /\ builder_access b = Auto
    | Err _ => True
    | Panic => False
    end).
Proof using Hcanon.
  intros Ho Hl Hh. unfold from_local_index. apply wp_bind, wp_check, wp_bind.
  eapply wp_mono; [by apply read_bounded_file_spec|]. intros [bs|e|]; try done. intros _.
  apply wp_bind, wp_check, wp_bind. eapply wp_mono; [apply ShardIndex_from_json_spec|]. intros [index|e|]; try done.
  intros Hi. apply wp_bind, wp_check. cbv zeta. apply wp_bind, wp_lift.
  destruct (canonicalize fs _) as [directory|e|] eqn:Ec; [|done|by apply Hcanon in Ec].
  destruct (shard_paths_spec limits index Hi) as (_ & _ & _ & Hv). apply wp_bind.
  eapply wp_mono; [apply (wp_for_each_inv (fun visited ss => Forall2 (shard_source directory) visited ss)); [constructor|]|].
  { intros visited shard rest ss Heq Hss. rewrite Heq in Hv. apply Forall_app in Hv. rewrite Forall_cons in Hv. destruct Hv as (_ & Hp & _).
    eapply wp_mono; [by apply local_shard_spec|]. intros [ss'|e|]; try done. intros (s & Hs & ->).
    apply Forall2_app; [exact Hss|]. constructor; [exact Hs|constructor]. }
  intros [ss|e|]; try done. intros Hss. apply wp_ret. by exists index, directory.
Qed.
End Shards.

(** ** Opening by path *)

(** What the system promises of a file it opened. *)
Record handle_ok (h : Handle) : Prop := {
  handle_reads : file_ok (handle_file h);
  handle_length : N.of_nat (length (contents (handle_file h))) <= u64_MAX;
  handle_metadata n : metadata_at h n <> Panic;
  handle_meta_len n m : metadata_at h n = Ok m -> meta_len m <= u64_MAX;
  handle_map n owner : map_at h n = Ok owner -> owner_bytes owner = contents (handle_file h);
  handle_map_panic n : map_at h n <> Panic
}.

Record file_system_ok (fs : FileSystem) : Prop := {
  system_open path : open_path fs path <> Panic;
  system_canonicalize path : canonicalize fs path <> Panic;
  system_handle path h : open_path fs path = Ok h -> handle_ok h
}.

Lemma opened_source_ok fs path s : file_system_ok fs -> opened s = open_path fs path -> source_ok s.
Proof.
  intros [Ho _ Hh] Hs. split; rewrite Hs; [apply Ho|..].
  - intros h Hp. apply (Hh _ _ Hp).
  - intros h n Hp. apply (handle_metadata _ (Hh _ _ Hp)).
  - intros h n m Hp. apply (handle_meta_len _ (Hh _ _ Hp)).
  - intros h n owner Hp. apply (handle_map _ (Hh _ _ Hp)).
  - intros h n Hp. apply (handle_map_panic _ (Hh _ _ Hp)).
Qed.

(** A source of a checkpoint opened by path: that file, or a shard below a directory. *)
Definition path_source (fs : FileSystem) (path : string) (s : SourceDescriptor) : Prop :=
  source_kind s = Local /\ opened s = open_path fs (local_path s) /\
  (local_path s = path \/ exists directory shard, shard_source fs directory shard s).

Lemma open_checkpoint_spec fs json path :
  file_system_ok fs ->
  wp (open_checkpoint fs json path) (fun r =>
    match r with
    | Ok c => checkpoint_ok c /\ Forall (path_source fs path) (map Checkpoint.source (open_files c)) /\ access c = Auto
    | Err _ => True
    | Panic => False
    end).
Proof.
  intros Hfs. pose proof Hfs as [Ho Hc Hh]. unfold open_checkpoint. apply wp_bind, wp_check.
  assert (forall b, builder_access b = Auto -> max_metadata_bytes (builder_limits b) <= usize_MAX ->
    Forall (path_source fs path) (sources b) ->
    wp (open json b) (fun r => match r with
      | Ok c => checkpoint_ok c /\ Forall (path_source fs path) (map Checkpoint.source (open_files c)) /\ access c = Auto
      | Err _ => True | Panic => False end)) as Hopen.
  { intros b Ha Hm Hs. eapply wp_mono; [apply open_spec; [|done]|].
    - eapply Forall_impl; [exact Hs|]. intros s (_ & Hopen & _). by eapply opened_source_ok.
    - intros [c|e|]; try done. intros (Hok & Hp & _ & _ & Hacc & _). split_and!; [done|by rewrite Hp|congruence]. }
  destruct (match file_name path with Some _ => _ | None => _ end).
  - apply wp_bind. eapply wp_mono; [apply from_local_index_spec; [done|done|done|]|].
    { intros h Hopened. destruct (Hh path h Hopened). by split_and!. }
    intros [b|e|]; try done. intros (index & directory & _ & _ & Hs & Hl & Ha). apply Hopen; [done|by rewrite Hl|].
    apply Forall_forall. intros s [i Hi]%list_elem_of_lookup.
    destruct (Forall2_lookup_r _ _ _ _ _ Hs Hi) as (shard & _ & Hsh). pose proof Hsh as [_ _ _ Hop Hk _].
    split_and!; [done|done|right; by exists directory, shard].
  - apply wp_bind, wp_lift. destruct (source_local _ _) as [s|e|] eqn:Es; [|done|by apply source_local_not_Panic in Es].
    apply bind_Ok in Es as (n & _ & Es). apply bind_Ok in Es as (q & _ & [= <-]).
    apply Hopen; [done..|]. constructor; [|constructor]. split_and!; [done|done|by left].
Qed.
