(* ===== verification/DigestSpecs.v ===== *)
(** * Content digests and snapshots

    What a digest call returns, that it agrees with the policy of the source and
    that later calls return the same digest; and what a snapshot identifies. *)

From S2P Require Import Prelude Errors Cancel Tensor Identity Order Limits Quantization Cast.
From S2P Require Import FileReader Inventory Gguf ReaderSpecs GgufSpecs Json.
From S2P Require Import Safetensors Checkpoint CheckpointSpecs.
From Stdlib Require Strings.String.
Local Open Scope N_scope.

Section Digests.
Context (sha256 : bytes -> bytes).

(** ** Hashing *)

Lemma hash_loop_spec f fuel : file_wf f -> forall offset hashed,
  offset <= open_size f -> open_size f - offset <= N.of_nat fuel * DIGEST_BUFFER_BYTES ->
  wp (hash_loop fuel f offset hashed) (fun r =>
    match r with
    | Ok bs => bs = hashed ++ slice (contents (handle_file (handle f))) offset (open_size f - offset)
    | Err _ => ~ file_readable (handle_file (handle f)) (open_size f)
    | Panic => False
    end).
Proof using Type.
  intros Hf. pose proof (wf_size f Hf) as Hu.
  induction fuel as [|fuel IH]; intros offset hashed Ho Hfuel; cbn [hash_loop];
    (destruct (N.leb_spec (open_size f) offset) as [Hle|Hlt];
      [apply wp_ret; by rewrite (proj2 (N.sub_0_le _ _) Hle), slice_0, app_nil_r|]); [lia|].
  apply wp_bind, wp_check, wp_bind, wp_lift. unfold unchecked_sub. rewrite (proj2 (N.leb_le _ _) Ho).
  set (amount := N.min (open_size f - offset) DIGEST_BUFFER_BYTES).
  assert (0 < amount /\ offset + amount <= open_size f /\ amount <= DIGEST_BUFFER_BYTES) as (Ha & Hb & Hc)
    by (unfold amount, DIGEST_BUFFER_BYTES; lia).
  apply wp_bind, wp_lift. rewrite (proj2 (usize_try_from_Ok _ _))
    by (split; [done|]; assert (DIGEST_BUFFER_BYTES <= usize_MAX) by done; lia).
  apply wp_bind, wp_lift. pose proof (read_exact_at_spec _ offset amount (wf_file f Hf)) as Hx.
  destruct (read_exact_at _ offset amount) as [block|e|]; [| |done].
  2: { intros (Hr & Hs & _). destruct Hx as [?|[?|?]]; [done|lia|lia]. }
  destruct Hx as [-> _]. apply wp_bind, wp_lift. rewrite checked_add_ok by lia. cbn [ok_or].
  eapply wp_mono; [apply IH; [lia|]|].
  { unfold amount, DIGEST_BUFFER_BYTES in *. lia. }
  intros [bs|e|]; try done. intros ->. rewrite <-app_assoc, <-slice_app. do 2 f_equal. lia.
Qed.

Lemma digest_fuel_enough size : size <= N.of_nat (digest_fuel size) * DIGEST_BUFFER_BYTES.
Proof using Type.
  unfold digest_fuel. rewrite N2Nat.id.
  pose proof (N.mul_succ_div_gt size DIGEST_BUFFER_BYTES ltac:(done)).
  rewrite N.add_1_r, N.mul_comm. lia.
Qed.

(** ** Digests *)

(** The bytes a file is opened over. *)
Definition file_bytes (f : OpenFile) : bytes := slice (contents (handle_file (handle f))) 0 (open_size f).

(** The digest of the policy: a trusted one, or the one of the bytes, which a
    declared digest must equal. *)
Definition digest_matches (f : OpenFile) (d : ContentDigest) : Prop :=
  match digest_policy (Checkpoint.source f) with
  | TrustExternal trusted | TrustRetained trusted => d = trusted
  | VerifyOnDemand expected => d = from_bytes (sha256 (file_bytes f)) /\ d = expected
  | ComputeOnDemand => d = from_bytes (sha256 (file_bytes f))
  end.

Definition digest_cached (f : OpenFile) : Prop := forall d, digest_cell f = Some d -> digest_matches f d.

(** The file can be read and has not changed. *)
Definition unchanged (f : OpenFile) : Prop :=
  file_readable (handle_file (handle f)) (open_size f) /\
  forall n, exists m, metadata_at (handle f) n = Ok m /\ FileStamp_from_metadata m = stamp f.

Lemma digest_matches_unique f d d' : digest_matches f d -> digest_matches f d' -> d = d'.
Proof using Type. unfold digest_matches. destruct (digest_policy _); naive_solver. Qed.

Lemma set_digest_wf d f : file_wf f -> file_wf (set_digest d f).
Proof using Type. by intros [? ? ? ? ?]. Qed.

Lemma set_digest_same d f : same_file f (set_digest d f).
Proof using Type. done. Qed.

(** Whether a digest may be refused. *)
Definition metadata_quiet (f : OpenFile) : Prop := forall n, metadata_at (handle f) n <> Panic.

Lemma content_digest_spec f :
  file_wf f -> metadata_quiet f -> digest_cached f ->
  wp (content_digest sha256 f) (fun r =>
    match r with
    | Ok (d, f') => digest_matches f d /\ same_file f f' /\ mapping_cell f' = mapping_cell f /\
        digest_cell f' = Some d
    | Err _ => unchanged f -> forall d, ~ digest_matches f d
    | Panic => False
    end).
Proof using Type.
  intros Hf Hm Hc. unfold content_digest. apply wp_bind, wp_check.
  destruct (digest_cell f) as [d|] eqn:Ed; [by apply wp_ret; split_and!; try apply Hc|].
  assert (forall expected,
    wp (hashed ← hash_loop (digest_fuel (open_size f)) f 0 [];
        _ ← check;
        metadata ← file_metadata (handle f);
        _ ← lift (reject (negb (bool_decide (FileStamp_from_metadata metadata = stamp f))) Integrity);
        let digest := from_bytes (sha256 hashed) in
        _ ← lift (reject (expected digest) Integrity);
        mret (digest, set_digest digest f))
      (fun r => match r with
       | Ok (d, f') => d = from_bytes (sha256 (file_bytes f)) /\ expected d = false /\ same_file f f' /\
           mapping_cell f' = mapping_cell f /\ digest_cell f' = Some d
       | Err _ => unchanged f -> expected (from_bytes (sha256 (file_bytes f))) = true
       | Panic => False end)) as Hhash.
  { intros expected. apply wp_bind. eapply wp_mono; [apply hash_loop_spec; [done|lia|]|].
    { rewrite N.sub_0_r. apply digest_fuel_enough. }
    intros [hashed|e|]; [|by intros Hno [? _]|done]. intros ->. rewrite N.sub_0_r. cbn [app].
    apply wp_bind, wp_check, wp_bind. intros env t. unfold file_metadata. pose proof (Hm t) as Hmt.
    destruct (metadata_at (handle f) t) as [m|e|] eqn:Em; [| |done].
    2: { left. intros [_ Hst]. destruct (Hst t) as (m & Hm' & _). congruence. }
    split; [lia|]. apply wp_bind, wp_lift. case_bool_decide as Hs; cbn [negb reject].
    2: { intros [_ Hst]. destruct (Hst t) as (m' & Hm' & ?). congruence. }
    apply wp_bind, wp_lift. fold (file_bytes f).
    destruct (expected (from_bytes (sha256 (file_bytes f)))) eqn:Ex; cbn [reject]; [done|]. apply wp_ret.
    by split_and!. }
  unfold digest_matches. destruct (digest_policy (Checkpoint.source f)) as [|expected|trusted|trusted].
  - eapply wp_mono; [apply (Hhash (fun _ => false))|]. intros [[d f']|e|]; [naive_solver| |done].
    by intros Hno ?%Hno.
  - eapply wp_mono; [apply (Hhash (fun d => negb (bool_decide (d = expected))))|].
    intros [[d f']|e|]; [| |done].
    + intros (-> & Hx & ?). by apply negb_false_iff, bool_decide_eq_true in Hx.
    + intros Hno Hu%Hno. apply negb_true_iff, bool_decide_eq_false in Hu. naive_solver.
  - by apply wp_ret.
  - by apply wp_ret.
Qed.

(** ** Snapshots *)

(** The identity of a list of files with their digests. *)
Definition snapshot_of (records : list FileRecord) (ds : list ContentDigest) : SnapshotId :=
  {| snapshot_digest := digest_hash sha256 SNAPSHOT_DOMAIN
       [SNAPSHOT_PREFIX ++ concat (zip_with identity_entry records ds)] |}.

(** The cells of a checkpoint hold what its policies promise. *)
Record settled (c : Checkpoint) : Prop := {
  settled_quiet : Forall metadata_quiet (open_files c);
  settled_digests : Forall digest_cached (open_files c);
  settled_snapshot s : snapshot c = Some s -> exists ds,
    Forall2 digest_matches (open_files c) ds /\ s = snapshot_of (files (inventory c)) ds
}.

Definition digested (f : OpenFile) (d : ContentDigest) (f' : OpenFile) : Prop :=
  digest_matches f d /\ same_file f f' /\ mapping_cell f' = mapping_cell f /\ digest_cell f' = Some d.

Lemma digested_wf f d f' : digested f d f' -> file_wf f -> file_wf f'.
Proof using Type.
  intros (_ & (H1 & H2 & H3 & H4 & H5) & Hm & _) [? ? ? ? ?].
  split; rewrite ?H3, ?H4, ?Hm; eauto.
Qed.

Lemma digested_cached f d f' : digested f d f' -> digest_cached f'.
Proof using Type.
  intros (Hd & (H1 & H2 & H3 & H4 & H5) & _ & Hc) d'. rewrite Hc. intros [= <-].
  unfold digest_matches, file_bytes in *. by rewrite H1, H3, H4.
Qed.

Lemma wp_reserve_items count (Q : result unit -> Prop) : Q (Ok tt) -> wp (reserve_items count) Q.
Proof using Type.
  intros H env t. unfold reserve_items. destruct (grants env t count) eqn:Eg; [auto|].
  right. right. split; [done|]. eauto.
Qed.

(** Every file can be read, has not changed and has a digest of its policy. *)
Definition digestible (f : OpenFile) : Prop := unchanged f /\ exists d, digest_matches f d.

(** A record whose path has fewer bytes than an allocation may have. *)
Definition path_fits (r : FileRecord) : Prop :=
  N.of_nat (length (String.list_byte_of_string (repo_path (file_path r)))) <= isize_MAX.

Lemma snapshot_loop_spec records : forall fs identity,
  length records = length fs -> Forall path_fits records ->
  Forall file_wf fs -> Forall metadata_quiet fs -> Forall digest_cached fs ->
  wp (snapshot_loop sha256 records fs identity) (fun r =>
    match r with
    | Ok (bs, fs') => exists ds, Forall3 digested fs ds fs' /\
        bs = identity ++ concat (zip_with identity_entry records ds)
    | Err _ => ~ Forall digestible fs
    | Panic => False
    end).
Proof using Type.
  induction records as [|r records IH]; intros [|f fs] identity Hl Hp Hw Hq Hc; try done; cbn [snapshot_loop].
  { apply wp_ret. exists []. split; [constructor|]. by rewrite app_nil_r. }
  apply Forall_cons in Hp as [Hpr Hp]. apply Forall_cons in Hw as [Hwf Hw]. apply Forall_cons in Hq as [Hqf Hq].
  apply Forall_cons in Hc as [Hcf Hc]. injection Hl as Hl.
  apply wp_bind, wp_check, wp_bind. eapply wp_mono; [by apply content_digest_spec|]. intros [[d f']|e|]; [| |done].
  2: { intros Hno [[Hu [d Hd]] _]%Forall_cons. by apply (Hno Hu d). }
  intros Hd. apply wp_bind, wp_lift. unfold path_fits, isize_MAX in Hpr.
  rewrite checked_add_ok by (unfold u64_MAX; lia). cbn [ok_or]. apply wp_bind, wp_reserve_items, wp_bind.
  eapply wp_mono; [by apply IH|]. intros [[bs fs']|e|]; [| |done].
  - intros (ds & Hds & ->). apply wp_ret. exists (d :: ds). split; [by constructor|].
    cbn [zip_with concat]. by rewrite <-app_assoc.
  - by intros Hno [_ ?]%Forall_cons.
Qed.

Lemma Forall3_digested fs ds fs' :
  Forall3 digested fs ds fs' -> Forall file_wf fs -> Forall metadata_quiet fs ->
  Forall2 digest_matches fs ds /\ Forall file_wf fs' /\ Forall metadata_quiet fs' /\ Forall digest_cached fs' /\
  map open_record fs' = map open_record fs /\ Forall2 same_file fs fs'.
Proof using Type.
  induction 1 as [|f d f' fs ds fs' Hd _ IH]; [intros _ _; by split_and!|].
  intros [Hw Hws]%Forall_cons [Hq Hqs]%Forall_cons. destruct (IH Hws Hqs) as (H1 & H2 & H3 & H4 & H5 & H6).
  pose proof Hd as (Hm & Hsame & _). pose proof Hsame as (_ & _ & Hh & _). split_and!; try constructor; try done.
  - by eapply digested_wf.
  - unfold metadata_quiet. by rewrite Hh.
  - by eapply digested_cached.
  - cbn [map]. f_equal; [by apply same_record|done].
Qed.

Lemma digest_matches_same f f' d : same_file f f' -> digest_matches f' d <-> digest_matches f d.
Proof using Type.
  intros (H1 & _ & H3 & H4 & _). unfold digest_matches, file_bytes. by rewrite H1, H3, H4.
Qed.

Lemma digest_matches_same_all fs fs' ds :
  Forall2 same_file fs fs' -> Forall2 digest_matches fs ds -> Forall2 digest_matches fs' ds.
Proof using Type.
  intros Hs. revert ds. induction Hs as [|f f' fs fs' Hf _ IH]; intros ds; [done|].
  intros (d & ds' & Hd & Hds & ->)%Forall2_cons_inv_l. constructor; [by apply (digest_matches_same f f')|by apply IH].
Qed.

Lemma snapshot_id_spec c :
  checkpoint_ok c -> settled c -> Forall path_fits (files (inventory c)) ->
  wp (snapshot_id sha256 c) (fun r =>
    match r with
    | Ok (s, c') => checkpoint_ok c' /\ settled c' /\ snapshot c' = Some s /\ inventory c' = inventory c /\
        exists ds, Forall2 digest_matches (open_files c) ds /\ s = snapshot_of (files (inventory c)) ds
    | Err _ => snapshot c = None /\ ~ Forall digestible (open_files c)
    | Panic => False
    end).
Proof using Type.
  intros Hc Hs Hp. pose proof Hc as [Hi Hr Hw]. pose proof Hs as [Hq Hd Hsn]. unfold snapshot_id.
  destruct (snapshot c) as [s|] eqn:Es; [apply wp_ret; by split_and!; try apply Hsn|].
  apply wp_bind. eapply wp_mono; [apply snapshot_loop_spec; try done; by rewrite Hr, length_map|].
  intros [[bs fs']|e|]; [|done..]. intros (ds & Hds & ->). apply wp_ret.
  destruct (Forall3_digested _ _ _ Hds Hw Hq) as (Hm & Hw' & Hq' & Hd' & Hrec & Hsame).
  cbn [set_snapshot set_files inventory open_files snapshot]. split_and!; [| |done..|by exists ds].
  - split; cbn; [done|congruence|done].
  - split; cbn; [done..|]. intros s' [= <-]. exists ds. split; [|done].
    by eapply digest_matches_same_all.
Qed.

(** ** What a snapshot identifies *)

Lemma path_bytes_inj (p q : RepoPath) :
  String.list_byte_of_string (repo_path p) = String.list_byte_of_string (repo_path q) -> p = q.
Proof using Type.
  intros H. apply (f_equal String.string_of_list_byte) in H. rewrite !String.string_of_list_byte_of_string in H.
  destruct p, q. cbn in H. by subst.
Qed.

Record entry_fits (r : FileRecord) (d : ContentDigest) : Prop := {
  entry_path_fits : path_fits r;
  entry_size_fits : record_size r <= u64_MAX;
  entry_digest_length : length (digest_bytes d) = 32%nat
}.

Definition same_entry (r r' : FileRecord) : Prop := file_path r = file_path r' /\ record_size r = record_size r'.

Lemma identity_entry_inj r r' d d' x y :
  entry_fits r d -> entry_fits r' d' -> identity_entry r d ++ x = identity_entry r' d' ++ y ->
  same_entry r r' /\ d = d' /\ x = y.
Proof using Type.
  intros [Hp Hs Hl] [Hp' Hs' Hl'] H. unfold identity_entry in H. rewrite <-!app_assoc in H.
  assert (isize_MAX < 256 ^ N.of_nat 8 /\ u64_MAX < 256 ^ N.of_nat 8) as [? ?] by done. unfold path_fits in *.
  apply app_inj_1 in H as [Hn H]; [|by rewrite !to_le_bytes_length]. apply to_le_bytes_inj in Hn; [|lia..].
  apply app_inj_1 in H as [Hpath H]; [|lia]. apply path_bytes_inj in Hpath.
  apply app_inj_1 in H as [Hsz H]; [|by rewrite !to_le_bytes_length]. apply to_le_bytes_inj in Hsz; [|lia..].
  apply app_inj_1 in H as [Hd H]; [|lia]. split_and!; [split; done| |done]. destruct d, d'. cbn in Hd. by subst.
Qed.

Lemma identity_entry_not_nil r d x : [] <> identity_entry r d ++ x.
Proof using Type.
  intros H%(f_equal length). unfold identity_entry in H.
  rewrite !length_app, !to_le_bytes_length in H. change (length []) with 0%nat in H. lia.
Qed.

Lemma identity_entries_inj records ds : Forall2 entry_fits records ds -> forall records' ds',
  Forall2 entry_fits records' ds' ->
  concat (zip_with identity_entry records ds) = concat (zip_with identity_entry records' ds') ->
  Forall2 same_entry records records' /\ ds = ds'.
Proof using Type.
  induction 1 as [|r d records ds Hr _ IH]; intros ? ? [|r' d' records' ds' Hr' Hrs']; cbn [zip_with concat].
  - by split.
  - by intros H%identity_entry_not_nil.
  - intros H. by symmetry in H; apply identity_entry_not_nil in H.
  - intros (Hs & -> & H)%identity_entry_inj; [|done..]. apply IH in H as [? ->]; [|done]. split; [by constructor|done].
Qed.

Lemma identity_entries_length records ds :
  Forall2 entry_fits records ds ->
  N.of_nat (length (concat (zip_with identity_entry records ds))) <= N.of_nat (length records) * (isize_MAX + 48).
Proof using Type.
  induction 1 as [|r d records ds [Hp _ Hd] _ IH]; [done|]. cbn [zip_with concat length].
  rewrite length_app. assert (N.of_nat (length (identity_entry r d)) <= isize_MAX + 48) as He.
  { unfold identity_entry, path_fits in *. rewrite !length_app, !to_le_bytes_length, Hd. lia. }
  rewrite Nat2N.inj_succ, N.mul_succ_l. revert IH He. clear.
  generalize (N.of_nat (length records) * (isize_MAX + 48)) (isize_MAX + 48) (length (identity_entry r d)).
  generalize (length (concat (zip_with identity_entry records ds))). lia.
Qed.

(** Equal identities are of equal files and digests, or collide. *)
Lemma snapshot_of_inj records ds records' ds' :
  Forall2 entry_fits records ds -> Forall2 entry_fits records' ds' ->
  N.of_nat (length records) <= u32_MAX + 1 -> N.of_nat (length records') <= u32_MAX + 1 ->
  snapshot_of records ds = snapshot_of records' ds' ->
  (Forall2 same_entry records records' /\ ds = ds') \/ exists a b, a <> b /\ sha256 a = sha256 b.
Proof using Type.
  intros Hr Hr' Hn Hn' [= H].
  assert (forall rs es, Forall2 entry_fits rs es -> N.of_nat (length rs) <= u32_MAX + 1 ->
    fits_u128 (SNAPSHOT_PREFIX ++ concat (zip_with identity_entry rs es))) as Hfit.
  { intros rs es Hes Hlen. unfold fits_u128. rewrite length_app.
    pose proof (identity_entries_length rs es Hes) as Hb. change (length SNAPSHOT_PREFIX) with 26%nat.
    assert (N.of_nat (length rs) * (isize_MAX + 48) <= (u32_MAX + 1) * (isize_MAX + 48)) as Hm
      by (by apply N.mul_le_mono_r).
    assert ((u32_MAX + 1) * (isize_MAX + 48) + 26 < 2 ^ 128) as Hk by done. revert Hb Hm Hk.
    generalize ((u32_MAX + 1) * (isize_MAX + 48)) (N.of_nat (length rs) * (isize_MAX + 48)) (2 ^ 128).
    generalize (length (concat (zip_with identity_entry rs es))). clear. lia. }
  destruct (decide (hash_preimage SNAPSHOT_DOMAIN [SNAPSHOT_PREFIX ++ concat (zip_with identity_entry records ds)] =
    hash_preimage SNAPSHOT_DOMAIN [SNAPSHOT_PREFIX ++ concat (zip_with identity_entry records' ds')])) as [E|E].
  - left. apply hash_preimage_inj in E as [_ E]; [|done|done|by constructor; [apply Hfit|]..].
    injection E as E. by apply identity_entries_inj in E.
  - right. eauto.
Qed.

Definition computed (f : OpenFile) : Prop := forall d,
  digest_policy (Checkpoint.source f) <> TrustExternal d /\ digest_policy (Checkpoint.source f) <> TrustRetained d.

(** Files with equal computed digests have equal bytes, or their bytes collide. *)
Lemma same_bytes fs gs ds :
  Forall2 digest_matches fs ds -> Forall2 digest_matches gs ds ->
  (forall i f g, fs !! i = Some f -> gs !! i = Some g -> computed f -> computed g -> file_bytes f = file_bytes g) \/
  exists a b, a <> b /\ sha256 a = sha256 b.
Proof using Type.
  intros Hf. revert gs. induction Hf as [|f d fs ds Hd _ IH]; intros gs Hg.
  - left. intros i f g Hl. done.
  - destruct gs as [|g gs]; [by apply Forall2_nil_cons_inv in Hg|]. apply Forall2_cons_1 in Hg as [Hdg Hg].
    destruct (IH gs Hg) as [Hrest|Hcol]; [|by right].
    destruct (decide (file_bytes f = file_bytes g)) as [E|E].
    { left. intros [|i] f' g' Hf' Hg'; [|by apply Hrest with i]. injection Hf' as <-. by injection Hg' as <-. }
    assert (forall f, digest_matches f d -> computed f -> d = from_bytes (sha256 (file_bytes f))) as Hcomp.
    { intros f' Hd' Hc. unfold digest_matches in Hd'. unfold computed in Hc. destruct (digest_policy _) as [|?|t|t]; [done|by destruct Hd'|..];
        by destruct (Hc t). }
    destruct (decide (sha256 (file_bytes f) = sha256 (file_bytes g))) as [Eq|Ne]; [right; eauto|].
    left. intros [|i] f' g' Hf' Hg'; [|by apply Hrest with i]. injection Hf' as <-. injection Hg' as <-.
    intros Hcf Hcg. destruct Ne. pose proof (Hcomp f Hd Hcf) as E1. pose proof (Hcomp g Hdg Hcg) as E2. congruence.
Qed.
End Digests.

(** * An encoded checkpoint is opened and read back

    A source whose file starts with an encoded Safetensors header opens, and
    every tensor of the header reads as its range of the file. *)

(** ** Inventories of encoded headers *)

Lemma string_list_fst {A} (m : gmap string A) : map fst (string_list m) = merge_sort String.le (map fst (map_to_list m)).
Proof.
  unfold string_list.
  assert (Forall (fun k => is_Some (m !! k)) (merge_sort String.le (map fst (map_to_list m)))) as Hall.
  { apply Forall_forall. intros k. rewrite (merge_sort_Permutation String.le).
    intros ([k' a] & -> & Hk)%list_elem_of_fmap. exists a. by apply elem_of_map_to_list. }
  induction Hall as [|k l [a Ha] _ IH]; [done|]. cbn [omap list_omap]. rewrite Ha. cbn. by f_equal.
Qed.

Lemma string_list_names {A} (l : list (string * A)) :
  NoDup l.*1 -> Permutation (map fst (string_list (list_to_map l))) (map fst l).
Proof. intros Hd. rewrite string_list_fst, merge_sort_Permutation, map_to_list_to_map by done. done. Qed.

Section Encoded.
Context (json : bytes -> Document) (f : OpenFile) (limits : ResourceLimits).
Context (l : list (string * HeaderTensor)) (header : bytes) (entries : list Entry).
Context (Hwf : file_wf f) (Hid : open_id f = from_ordinal 0).
Context (Hfile : safetensors_file json f limits l header entries).

Definition encoded_base : N := 8 + N.of_nat (length header).
Definition encoded_records : list TensorRecord :=
  map (record_of (open_id f) encoded_base) (merge_sort entry_le entries).

Lemma encoded_record r :
  r ∈ encoded_records -> exists e h, e ∈ entries /\ r = record_of (open_id f) encoded_base e /\
    (entry_name e, h) ∈ l /\ entry_made limits (open_size f - encoded_base) (entry_name e, h) e.
Proof using Hfile.
  intros (e & -> & He)%list_elem_of_fmap. rewrite (merge_sort_Permutation entry_le entries) in He.
  destruct Hfile as [_ _ _ _ _ [_ Hd _ _ _] Hmade _]. pose proof He as [i Hi]%list_elem_of_lookup.
  destruct (Forall2_lookup_r _ _ _ _ _ Hmade Hi) as ([name h] & Hraw & Hmk).
  pose proof Hmk as [Hn _ _ _ _ _ _]. cbn [fst] in Hn. exists e, h. rewrite Hn. split_and!; try done.
  apply elem_of_list_to_map; [done|]. apply string_list_elem. by eapply list_elem_of_lookup_2.
Qed.

Lemma encoded_tensor_ok r : r ∈ encoded_records -> tensor_ok [open_record f] r.
Proof using Hfile Hid Hwf.
  intros (e & h & He & -> & Hl & [_ Hs Ho Hd _ Hr Hlen])%encoded_record.
  destruct Hfile as [_ _ _ _ Hsize [Hnames _ _ _ _] _ _]. pose proof (wf_size f Hwf) as Hu. fold encoded_base in Hsize.
  assert (span_inside [open_record f] {| span_file := open_id f; span_offset := encoded_base + entry_start e;
      span_length := entry_end e - entry_start e |}) as Hin.
  { exists (open_record f). cbn [span_file span_offset span_length]. rewrite Hid. split; [done|]. cbn [open_record record_size]. lia. }
  split.
  - rewrite Forall_forall in Hnames. cbn [record_name record_of].
    apply (name_nonempty limits), Hnames, list_elem_of_fmap. by exists (entry_name e, h).
  - unfold record_of. cbn [record_storage record_shape]. destruct (entry_dtype e) as [d|op v b]; cbn [header_storage].
    + by split.
    + cbn [logical_shape payload companions]. split_and!; [done|done|]. intros r c Hc. by rewrite lookup_empty in Hc.
Qed.

Lemma encoded_names : Permutation (map record_name encoded_records) (map fst l).
Proof using Hfile.
  destruct Hfile as [_ _ _ _ _ [_ Hd _ _ _] Hmade _].
  unfold encoded_records.
  rewrite (records_names limits (open_size f - encoded_base) (open_id f) encoded_base _ _ Hmade).
  by apply string_list_names.
Qed.

Lemma encoded_inventory : Inventory_new [open_record f] encoded_records =
  Ok {| files := [open_record f]; tensors := merge_sort name_le encoded_records |}.
Proof using Hfile Hid Hwf.
  apply Inventory_new_Ok. split_and!; [| | |done].
  - split; [done| |repeat constructor]. intros [|[|?]] g [= <-]. by split; [exact Hid|].
  - unfold inventory_names. rewrite encoded_names. apply Hfile.
  - apply Forall_forall, encoded_tensor_ok.
Qed.

(** The source is parsed as a Safetensors file. *)
Lemma encoded_source :
  file_readable (handle_file (handle f)) (open_size f) ->
  slice (contents (handle_file (handle f))) 0 4 <> MAGIC ->
  gguf_extension (local_path (Checkpoint.source f)) = false ->
  succeeds (parse_source json f limits) (fun p =>
    p = {| parsed_format := SafetensorsFormat; parsed_metadata := None; parsed_tensors := encoded_records |}).
Proof using Hfile Hwf.
  intros Hread Hmagic Hext. pose proof (encoded_size _ _ _ _ _ _ Hfile) as Hsize.
  unfold parse_source. apply succeeds_check_bind. rewrite (proj2 (N.ltb_ge _ _)) by lia.
  apply (succeeds_lift_bind _ tt); [done|].
  eapply succeeds_lift_bind; [apply (read_exact_readable _ _ _ (open_size f)); [apply Hwf|done|lia]|].
  rewrite (bool_decide_false (slice _ _ _ = MAGIC)) by done. rewrite Hext. apply (succeeds_lift_bind _ tt); [done|].
  apply succeeds_bind. eapply succeeds_mono; [by eapply parse_safetensors_complete|]. intros ? ->. by apply succeeds_ret.
Qed.
End Encoded.

(** ** The round trip *)

(** A source over a readable file that does not change. *)
Record steady (s : SourceDescriptor) (h : Handle) (m : Metadata) : Prop := {
  steady_opened : opened s = Ok h;
  steady_metadata n : metadata_at h n = Ok m;
  steady_file : meta_is_file m = true;
  steady_size n : expected_size s = Some n -> n = meta_len m;
  steady_readable : file_readable (handle_file h) (meta_len m)
}.

Definition opened_file (s : SourceDescriptor) (h : Handle) (m : Metadata) (id : FileId) : OpenFile :=
  {| Checkpoint.source := s; open_id := id; handle := h; open_size := meta_len m;
     stamp := FileStamp_from_metadata m; digest_cell := None; mapping_cell := None |}.

Lemma OpenFile_open_steady s h m id :
  steady s h m -> succeeds (OpenFile_open s id) (fun f => f = opened_file s h m id).
Proof.
  intros [Ho Hm Hf Hs _]. unfold OpenFile_open. apply (succeeds_lift_bind _ h); [done|].
  apply succeeds_bind. intros env t. unfold file_metadata. rewrite Hm. split; [lia|]. exists m. split; [done|].
  rewrite Hf. apply (succeeds_lift_bind _ tt); [done|]. apply (succeeds_lift_bind _ tt); [|by apply succeeds_ret].
  destruct (expected_size s) as [n|] eqn:En; [|done]. by rewrite (Hs n eq_refl), N.eqb_refl.
Qed.

Lemma opened_file_wf s h m id : source_ok s -> steady s h m -> file_wf (opened_file s h m id).
Proof.
  intros [_ Hf _ Hl Hmap Hmp] [Ho Hm _ _ _]. split; cbn [opened_file handle open_size mapping_cell]; [eauto|by apply (Hl h 0%nat m)|eauto|eauto|done].
Qed.

Lemma open_encoded json b s h m l header entries :
  sources b = [s] -> shard_index b = None -> builder_access b = Read -> 0 < max_shards (builder_limits b) ->
  source_ok s -> steady s h m ->
  slice (contents (handle_file h)) 0 4 <> MAGIC -> gguf_extension (local_path s) = false ->
  safetensors_file json (opened_file s h m (from_ordinal 0)) (builder_limits b) l header entries ->
  succeeds (open json b) (fun c =>
    inventory c = {| files := [open_record (opened_file s h m (from_ordinal 0))];
      tensors := merge_sort name_le (encoded_records (opened_file s h m (from_ordinal 0)) header entries) |} /\
    open_files c = [opened_file s h m (from_ordinal 0)] /\ access c = Read).
Proof.
  intros Hb Hsh Ha Hmax Hok Hst Hmagic Hext Hfile. set (f := opened_file s h m (from_ordinal 0)) in *.
  assert (file_wf f) as Hwf by (by apply opened_file_wf).
  unfold open. rewrite Hb, Hsh, Ha. apply succeeds_check_bind, (succeeds_lift_bind _ tt); [done|].
  apply (succeeds_lift_bind _ tt); [by rewrite (proj2 (N.ltb_ge _ _)) by (cbn; lia)|].
  apply (succeeds_lift_bind _ tt); [done|]. apply (succeeds_lift_bind _ tt); [done|].
  apply succeeds_bind. eapply (succeeds_mono _ (fun o => o =
    {| opening_files := [f]; opening_tensors := encoded_records f header entries;
       opening_format := Some SafetensorsFormat; opening_metadata := [] |})).
  { change (merge_sort path_le [s]) with [s]. cbn [for_each].
    apply succeeds_bind. unfold open_source. apply succeeds_check_bind, (succeeds_lift_bind _ 0); [done|].
    apply succeeds_bind. eapply succeeds_mono; [by apply OpenFile_open_steady|]. intros ? ->. fold f.
    apply succeeds_bind. eapply succeeds_mono; [apply (encoded_source json f _ l header entries); try done; apply Hst|].
    intros ? ->. cbn [opening_format parsed_format opening_tensors parsed_tensors length].
    apply (succeeds_lift_bind _ tt); [done|].
    apply (succeeds_lift_bind _ (max_tensors (builder_limits b))).
    { unfold checked_sub. change (N.of_nat 0) with 0. by rewrite (proj2 (N.leb_le _ _) (N.le_0_l _)), N.sub_0_r. }
    apply (succeeds_lift_bind _ tt); [|by apply succeeds_ret, succeeds_ret].
    pose proof (within_count _ _ (encoded_header _ _ _ _ _ _ Hfile)) as Hc.
    pose proof (encoded_names _ _ _ _ _ _ Hfile) as Hn%Permutation_length. rewrite !length_map in Hn.
    rewrite Hn. by rewrite (proj2 (N.ltb_ge _ _)). }
  intros ? ->. apply succeeds_check_bind. cbn [opening_files opening_tensors map].
  eapply succeeds_lift_bind; [by eapply encoded_inventory|]. apply succeeds_bind, succeeds_ret, succeeds_check_bind, succeeds_ret.
  done.
Qed.
