(* ===== verification/FileSystem.v ===== *)
(** * The operating system behind [cache.rs]

    The calls of [std::fs] and of the clock that the cache makes, as requests of
    a program ([Prog]), and a model of what they do to a file system ([serve]).
    A path is the list of its components; files are inodes, so an open handle
    keeps its file when the name is moved or removed. What a call may do beside
    its documented effect (fail, return fewer bytes, list names in any order,
    stop a recursive removal half way) is chosen by an [Oracle] given with the
    call. A program proceeds one call at a time, so other programs can act
    between any two of its calls. *)


From S2P Require Import Prelude Errors Tensor Identity FileReader.
From stdpp Require Import strings gmap.
Local Open Scope N_scope.

(** ** Files *)

Notation path := (list string).

(** [OtherNode]: neither a directory nor a regular file. *)
Inductive node :=
  | DirNode
  | FileNode (inode : nat)
  | OtherNode.

#[export] Instance node_eq_dec : EqDecision node.
Proof. solve_decision. Defined.

(** [born] keeps the name under which a file was created. No call reads it. *)
Record World := {
  nodes : gmap path node;
  inodes : gmap nat bytes;
  born : gmap nat string;
  next_inode : nat;
  counters : gmap N N
}.

Definition set_nodes (f : gmap path node -> gmap path node) (w : World) : World :=
  {| nodes := f (nodes w); inodes := inodes w; born := born w; next_inode := next_inode w;
     counters := counters w |}.

Definition node_at (w : World) (p : path) : option node :=
  match p with [] => Some DirNode | _ => nodes w !! p end.

Definition inode_bytes (w : World) (i : nat) : bytes := default [] (inodes w !! i).

(** The directory and the last component of a path. *)
Definition parent (p : path) : option path :=
  match p with [] => None | _ => Some (removelast p) end.
Definition file_name (p : path) : option string := last p.

Definition under (p q : path) : bool := bool_decide (p `prefix_of` q).

(** The paths strictly between the root and [p], and [p]. *)
Definition prefixes (p : path) : list path := map (fun n => take n p) (seq 1 (length p)).

(** The names in a directory. *)
Definition children (w : World) (p : path) : list string :=
  omap (fun '(q, _) => if decide (parent q = Some p) then last q else None) (map_to_list (nodes w)).

(** ** Answers *)

(** The kinds of error that the cache tells apart. *)
Inductive io_error := NotFound | AlreadyExists | OtherError.

#[export] Instance io_error_eq_dec : EqDecision io_error.
Proof. solve_decision. Defined.

Inductive io (A : Type) :=
  | IoOk (a : A)
  | IoErr (e : io_error).
Arguments IoOk {A} a.
Arguments IoErr {A} e.

Record Metadata := {
  metadata_node : node;
  metadata_len : N;
  metadata_modified : option N
}.

Definition is_dir (m : Metadata) : bool :=
  match metadata_node m with DirNode => true | _ => false end.
Definition is_file (m : Metadata) : bool :=
  match metadata_node m with FileNode _ => true | _ => false end.

(** An open file: its inode, or none for a directory, and its position. *)
Record Handle := {
  handle_inode : option nat;
  position : N
}.

Inductive OpenMode :=
  | OpenRead
  | OpenCreateNew
  | OpenTruncate
  | OpenCreateTruncate.

Inductive action :=
  | IsCancelled
  | Reserve
  | SystemNow
  | InstantNow
  | Pause
  | ProcessId
  | FetchAdd
  | Stat (p : path)
  | CreateDir (p : path)
  | CreateDirAll (p : path)
  | ReadDir (p : path)
  | Open (p : path) (mode : OpenMode)
  | HandleLen (h : Handle)
  | ReadHandle (h : Handle) (count : N)
  | ReadAll (h : Handle) (count : option N)
  | SeekStart (h : Handle)
  | WriteAll (h : Handle) (bs : bytes)
  | SyncAll (h : Handle)
  | Rename (p q : path)
  | RemoveSome (p : path).

(** [Reserve] answers whether the allocator grants a reservation, [RemoveSome]
    whether the removal is complete. *)
Definition answer (a : action) : Type :=
  match a with
  | IsCancelled | Reserve => bool
  | SystemNow | InstantNow | ProcessId | FetchAdd => N
  | Pause => unit
  | Stat _ => io Metadata
  | CreateDir _ | CreateDirAll _ | SyncAll _ | Rename _ _ => io unit
  | ReadDir _ => io (list (io string))
  | Open _ _ => io Handle
  | HandleLen _ => io N
  | ReadHandle _ _ | ReadAll _ _ => io bytes
  | SeekStart _ => io Handle
  | WriteAll _ _ => io unit
  | RemoveSome _ => io bool
  end.

(** ** Effects *)

Record Oracle := {
  fault : bool;
  signal : bool;
  clock : N;
  modification : option N;
  chunk : N;
  listing : list string -> list string;
  unreadable : string -> bool;
  spared : path -> bool
}.

Section Serve.
Context (pid : N) (o : Oracle).
Implicit Types w : World.

(** The error for a name that does not exist: below something that is not a
    directory the kind is another one. *)
Definition missing w (p : path) : io_error :=
  if forallb (fun q => match node_at w q with Some DirNode | None => true | _ => false end)
       (prefixes (removelast p))
  then NotFound else OtherError.

Definition metadata_at w (p : path) (n : node) : Metadata :=
  {| metadata_node := n;
     metadata_len := match n with FileNode i => N.of_nat (length (inode_bytes w i)) | _ => chunk o end;
     metadata_modified := modification o |}.

Definition stat w p : io Metadata :=
  if fault o then IoErr OtherError else
  match node_at w p with
  | Some n => IoOk (metadata_at w p n)
  | None => IoErr (missing w p)
  end.

(** Whether a name can be created in the directory of [p]. *)
Definition parent_dir w p : bool :=
  match p with [] => false | _ => bool_decide (node_at w (removelast p) = Some DirNode) end.

Definition create_dir w p : io unit * World :=
  if fault o then (IoErr OtherError, w) else
  match node_at w p with
  | Some _ => (IoErr AlreadyExists, w)
  | None => if parent_dir w p then (IoOk tt, set_nodes <[p := DirNode]> w)
            else (IoErr (missing w p), w)
  end.

(** A fault leaves some of the directories created. *)
Definition create_dir_all w p : io unit * World :=
  let make ps := foldl (fun w q => match node_at w q with
                                   | None => set_nodes <[q := DirNode]> w
                                   | Some _ => w
                                   end) w ps in
  if negb (forallb (fun q => match node_at w q with Some DirNode | None => true | _ => false end)
             (prefixes p)) then (IoErr OtherError, w)
  else if fault o then (IoErr OtherError, make (take (N.to_nat (chunk o)) (prefixes p)))
  else (IoOk tt, make (prefixes p)).

Definition read_dir w p : io (list (io string)) :=
  if fault o then IoErr OtherError else
  match node_at w p with
  | Some DirNode => IoOk (map (fun n => if unreadable o n then IoErr OtherError else IoOk n)
                            (listing o (children w p)))
  | Some _ => IoErr OtherError
  | None => IoErr (missing w p)
  end.

Definition set_bytes (i : nat) (bs : bytes) w : World :=
  {| nodes := nodes w; inodes := <[i := bs]> (inodes w); born := born w;
     next_inode := next_inode w; counters := counters w |}.

Definition create_file w p : io Handle * World :=
  if parent_dir w p then
    let i := next_inode w in
    (IoOk {| handle_inode := Some i; position := 0 |},
     {| nodes := <[p := FileNode i]> (nodes w); inodes := <[i := []]> (inodes w);
        born := <[i := default EmptyString (last p)]> (born w); next_inode := S i;
        counters := counters w |})
  else (IoErr (missing w p), w).

Definition open w p (mode : OpenMode) : io Handle * World :=
  if fault o then (IoErr OtherError, w) else
  match mode, node_at w p with
  | OpenRead, Some (FileNode i) => (IoOk {| handle_inode := Some i; position := 0 |}, w)
  | OpenRead, Some _ => (IoOk {| handle_inode := None; position := 0 |}, w)
  | OpenCreateNew, Some _ => (IoErr AlreadyExists, w)
  | (OpenTruncate | OpenCreateTruncate), Some (FileNode i) =>
      (IoOk {| handle_inode := Some i; position := 0 |}, set_bytes i [] w)
  | (OpenTruncate | OpenCreateTruncate), Some _ => (IoErr OtherError, w)
  | (OpenCreateNew | OpenCreateTruncate), None => create_file w p
  | (OpenRead | OpenTruncate), None => (IoErr (missing w p), w)
  end.

Definition handle_len w (h : Handle) : io N :=
  if fault o then IoErr OtherError else
  match handle_inode h with
  | Some i => IoOk (N.of_nat (length (inode_bytes w i)))
  | None => IoOk (chunk o)
  end.

(** A read returns some of the bytes at the position, none only at the end. *)
Definition read_handle w (h : Handle) (count : N) : io bytes :=
  if fault o then IoErr OtherError else
  match handle_inode h with
  | Some i => IoOk (slice (inode_bytes w i) (position h) (N.min count (N.max 1 (chunk o))))
  | None => IoErr OtherError
  end.
(** Everything from the position on, or at most so many bytes of it. *)
Definition read_all w (h : Handle) (count : option N) : io bytes :=
  if fault o then IoErr OtherError else
  match handle_inode h with
  | Some i => IoOk (let len := N.of_nat (length (inode_bytes w i)) in
                slice (inode_bytes w i) (position h)
                  match count with Some count => N.min count len | None => len end)
  | None => IoErr OtherError
  end.

(** The bytes after a write at a position. *)
Definition overwrite (old : bytes) (at_ : N) (bs : bytes) : bytes :=
  let n := N.to_nat at_ in
  take n old ++ replicate (n - length old) Byte.x00 ++ bs ++ drop (n + length bs) old.

(** A fault leaves a part of the bytes written. *)
Definition write_all w (h : Handle) (bs : bytes) : io unit * World :=
  match handle_inode h with
  | Some i =>
      let written := if fault o then take (N.to_nat (chunk o)) bs else bs in
      (if fault o then IoErr OtherError else IoOk tt,
       set_bytes i (overwrite (inode_bytes w i) (position h) written) w)
  | None => (IoErr OtherError, w)
  end.

(** The tree below [p] moves to [q]. *)
Definition move (p q : path) (m : gmap path node) : gmap path node :=
  list_to_map (omap (fun '(r, n) =>
                       if under p r then Some (q ++ drop (length p) r, n)
                       else if under q r then None
                       else Some (r, n)) (map_to_list m)).

(** A directory replaces only an empty directory, a file only a file. *)
Definition replaces w p q : bool :=
  match node_at w p, node_at w q with
  | Some DirNode, Some DirNode => bool_decide (children w q = [])
  | Some DirNode, Some _ => false
  | Some _, Some DirNode => false
  | _, _ => true
  end.

Definition rename w p q : io unit * World :=
  if fault o then (IoErr OtherError, w) else
  match node_at w p with
  | None => (IoErr (missing w p), w)
  | Some _ =>
      if bool_decide (p = q) then (IoOk tt, w)
      else if under p q || under q p then (IoErr OtherError, w)
      else if negb (parent_dir w q) then (IoErr (missing w q), w)
      else if replaces w p q then (IoOk tt, set_nodes (move p q) w)
      else (IoErr OtherError, w)
  end.

(** One step of [remove_dir_all]: everything below [p] goes, but the spared
    names and the directories above them. *)
Definition remove_some w p : io bool * World :=
  match node_at w p with
  | None => (IoErr (missing w p), w)
  | Some DirNode =>
      let below := filter (fun q => under p q = true) (map fst (map_to_list (nodes w))) in
      let kept q := existsb (fun r => under q r && spared o r) below in
      (if fault o then IoErr OtherError else IoOk (negb (existsb kept below)),
       set_nodes (filter (fun '(q, _) => negb (under p q) || kept q = true)) w)
  | Some _ => (IoErr OtherError, w)
  end.

(** [AtomicU64::fetch_add]. *)
Definition fetch_add w : N * World :=
  let n := default 0 (counters w !! pid) in
  (n, {| nodes := nodes w; inodes := inodes w; born := born w; next_inode := next_inode w;
         counters := <[pid := (n + 1) mod 2 ^ 64]> (counters w) |}).

Definition serve (a : action) w : answer a * World :=
  match a with
  | IsCancelled => (signal o, w)
  | Reserve => (negb (signal o), w)
  | SystemNow | InstantNow => (clock o, w)
  | Pause => (tt, w)
  | ProcessId => (pid, w)
  | FetchAdd => fetch_add w
  | Stat p => (stat w p, w)
  | CreateDir p => create_dir w p
  | CreateDirAll p => create_dir_all w p
  | ReadDir p => (read_dir w p, w)
  | Open p mode => open w p mode
  | HandleLen h => (handle_len w h, w)
  | ReadHandle h count => (read_handle w h count, w)
  | ReadAll h count => (read_all w h count, w)
  | SeekStart h =>
      (if fault o then IoErr OtherError else IoOk {| handle_inode := handle_inode h; position := 0 |}, w)
  | WriteAll h bs => write_all w h bs
  | SyncAll h => (if fault o then IoErr OtherError else IoOk tt, w)
  | Rename p q => rename w p q
  | RemoveSome p => remove_some w p
  end.
End Serve.

(** ** Programs *)

(** [Running] is a loop that used up its rounds: the call has not returned. *)
Inductive Prog (A : Type) :=
  | Ret (r : result A)
  | Running
  | Act (a : action) (k : answer a -> Prog A).
Arguments Ret {A} r.
Arguments Running {A}.
Arguments Act {A} a k.

(** Sequencing that also sees the errors of the first program. *)
Fixpoint and_then {A B} (m : Prog A) (f : result A -> Prog B) : Prog B :=
  match m with
  | Ret r => f r
  | Running => Running
  | Act a k => Act a (fun b => and_then (k b) f)
  end.

#[export] Instance Prog_ret : MRet Prog := fun A a => Ret (Ok a).
#[export] Instance Prog_bind : MBind Prog := fun A B f m =>
  and_then m (fun r => match r with Ok a => f a | Err e => Ret (Err e) | Panic => Ret Panic end).

Definition call (a : action) : Prog (answer a) := Act a (fun b => Ret (Ok b)).
Definition throw {A} (e : ErrorCategory) : Prog A := Ret (Err e).
Definition pure {A} (r : result A) : Prog A := Ret r.

(** The calls at their types. *)
Definition is_cancelled_now : Prog bool := call IsCancelled.
Definition reserve_more : Prog bool := call Reserve.
Definition system_now : Prog N := call SystemNow.
Definition instant_now : Prog N := call InstantNow.
Definition pause : Prog unit := call Pause.
Definition process_id : Prog N := call ProcessId.
Definition fetch_add_one : Prog N := call FetchAdd.
Definition fs_metadata (p : path) : Prog (io Metadata) := call (Stat p).
Definition fs_create_dir (p : path) : Prog (io unit) := call (CreateDir p).
Definition fs_create_dir_all (p : path) : Prog (io unit) := call (CreateDirAll p).
Definition fs_read_dir (p : path) : Prog (io (list (io string))) := call (ReadDir p).
Definition fs_open (p : path) (mode : OpenMode) : Prog (io Handle) := call (Open p mode).
Definition file_len (h : Handle) : Prog (io N) := call (HandleLen h).
Definition file_read (h : Handle) (count : N) : Prog (io bytes) := call (ReadHandle h count).
Definition read_to_end (h : Handle) (count : N) : Prog (io bytes) := call (ReadAll h (Some count)).
Definition file_rewind (h : Handle) : Prog (io Handle) := call (SeekStart h).
Definition file_write (h : Handle) (bs : bytes) : Prog (io unit) := call (WriteAll h bs).
Definition file_sync (h : Handle) : Prog (io unit) := call (SyncAll h).
Definition fs_rename (p q : path) : Prog (io unit) := call (Rename p q).
Definition remove_some_of (p : path) : Prog (io bool) := call (RemoveSome p).

(** A call of the file system whose error is mapped to [Error::io]. *)
Definition io_ok {A} (r : io A) : Prog A :=
  match r with IoOk a => mret a | IoErr _ => throw Io end.

(** [for x in l] with an early return, over a state. *)
Fixpoint for_list {A S} (l : list A) (body : A -> S -> Prog S) (s : S) : Prog S :=
  match l with
  | [] => mret s
  | a :: l => s' ← body a s; for_list l body s'
  end.

(** [CancellationToken::check]. *)
Definition check_cancelled : Prog unit :=
  b ← is_cancelled_now;
  if (b : bool) then throw Cancelled else mret tt.

(** [Vec::try_reserve], its error mapped to a resource limit. *)
Definition try_reserve : Prog unit :=
  b ← reserve_more;
  if (b : bool) then mret tt else throw ResourceLimit.

(** [Path::exists] and [Path::is_dir]. *)
Definition path_exists (p : path) : Prog bool :=
  r ← fs_metadata p;
  mret (match r with IoOk _ => true | IoErr _ => false end).
Definition path_is_dir (p : path) : Prog bool :=
  r ← fs_metadata p;
  mret (match r with IoOk m => is_dir m | IoErr _ => false end).

(** [fs::read_to_string] and [fs::write]. *)
Definition read_to_string (p : path) : Prog (io bytes) :=
  h ← fs_open p OpenRead;
  match h with
  | IoErr e => mret (IoErr e)
  | IoOk h =>
      r ← call (ReadAll h None);
      mret (match r with
            | IoOk bs => if utf8_valid bs then IoOk bs else IoErr OtherError
            | IoErr e => IoErr e
            end)
  end.
Definition fs_write (p : path) (bs : bytes) : Prog (io unit) :=
  h ← fs_open p OpenCreateTruncate;
  match h with
  | IoErr e => mret (IoErr e)
  | IoOk h => file_write h bs
  end.

(** [fs::remove_dir_all], which removes names one after another. *)
Fixpoint remove_dir_all (rounds : nat) (p : path) : Prog (io unit) :=
  match rounds with
  | O => Running
  | S rounds =>
      r ← remove_some_of p;
      match r with
      | IoOk true => mret (IoOk tt)
      | IoOk false => remove_dir_all rounds p
      | IoErr e => mret (IoErr e)
      end
  end.

(** ** Runs *)

(** The run of a program alone, with the oracle of its n-th call: the result,
    if it has returned within so many calls, and the state it leaves. *)
Fixpoint run {A} (pid : N) (oracles : nat -> Oracle) (m : Prog A) (n calls : nat) (w : World)
  : option (result A) * World :=
  match m with
  | Ret r => (Some r, w)
  | Running => (None, w)
  | Act a k =>
      match calls with
      | O => (None, w)
      | S calls =>
          let '(b, w') := serve pid (oracles n) a w in
          run pid oracles (k b) (S n) calls w'
      end
  end.

(** * Facts about the file system model *)

(** ** Paths *)

Lemma under_spec p q : under p q = true <-> exists s, q = p ++ s.
Proof. unfold under. rewrite bool_decide_eq_true. done. Qed.

Lemma under_app p s : under p (p ++ s) = true.
Proof. apply under_spec. eauto. Qed.

Lemma removelast_snoc (p : path) x : removelast (p ++ [x]) = p.
Proof. apply removelast_last. Qed.

Lemma removelast_app (p s : path) : s <> [] -> removelast (p ++ s) = p ++ removelast s.
Proof. apply List.removelast_app. Qed.

Lemma path_snoc (p : path) : p <> [] -> exists x, p = removelast p ++ [x] /\ last p = Some x.
Proof.
  intros Hp. destruct (exists_last Hp) as (q & x & ->). exists x.
  by rewrite removelast_snoc, last_snoc.
Qed.

Lemma node_at_nodes w (p : path) : p <> [] -> node_at w p = nodes w !! p.
Proof. by destruct p. Qed.

Lemma node_at_nil w : node_at w [] = Some DirNode.
Proof. done. Qed.

(** ** Listings *)

Lemma elem_of_children w p x :
  x ∈ children w p <-> exists n, nodes w !! (p ++ [x]) = Some n.
Proof.
  unfold children. rewrite list_elem_of_omap. split.
  - intros ([q n] & Hq & H). case_decide as Hp; [|done]. apply elem_of_map_to_list in Hq.
    destruct q as [|y q]; [done|]. unfold parent in Hp.
    destruct (path_snoc (y :: q)) as (z & Hz & Hl); [done|]. rewrite H in Hl. simplify_eq.
    exists n. change (nodes w !! (removelast (y :: q) ++ [z]) = Some n). by rewrite <-Hz.
  - intros [n Hn]. exists (p ++ [x], n). split; [by apply elem_of_map_to_list|].
    unfold parent. destruct (p ++ [x]) as [|y q] eqn:E; [by destruct p|]. rewrite <-E.
    rewrite removelast_snoc, decide_True by done. apply last_snoc.
Qed.

(** ** Moves *)

Lemma omap_NoDup_fst {A B K} (f : K * A -> option (K * B)) (l : list (K * A)) :
  (forall a b x y, a ∈ l -> b ∈ l -> f a = Some x -> f b = Some y -> fst x = fst y -> a = b) ->
  NoDup l -> NoDup (omap f l).*1.
Proof.
  intros Hf Hl. induction l as [|a l IH]; [constructor|].
  apply NoDup_cons in Hl as [Ha Hl]. simpl.
  assert (NoDup (omap f l).*1) as H.
  { apply IH; [|done]. intros b c x y Hb Hc. apply Hf; by right. }
  destruct (f a) as [x|] eqn:E; [|done]. simpl. constructor; [|done].
  intros (y & Hy & (b & Hb & Eb)%list_elem_of_omap)%list_elem_of_fmap.
  assert (a = b) as <-; [|done]. eapply Hf; [by left|by right|done|done|done].
Qed.

Lemma move_lookup p q m r n :
  under p q = false -> under q p = false ->
  move p q m !! r = Some n <->
  (exists s, r = q ++ s /\ m !! (p ++ s) = Some n) \/
  (under q r = false /\ under p r = false /\ m !! r = Some n).
Proof.
  intros Hpq Hqp. unfold move.
  set (f := fun x : path * node => let '(r, n) := x in _).
  assert (forall r n x, f (r, n) = Some x ->
    (exists s, r = p ++ s /\ x = (q ++ s, n)) \/ (under p r = false /\ under q r = false /\ x = (r, n)))
    as Hf.
  { intros r' n' x. unfold f. destruct (under p r') eqn:Ep.
    - apply under_spec in Ep as [s ->]. intros [= <-]. left. exists s. by rewrite drop_app_length.
    - destruct (under q r') eqn:Eq; [done|]. intros [= <-]. by right. }
  rewrite <-elem_of_list_to_map.
  2:{ apply omap_NoDup_fst; [|apply NoDup_map_to_list].
      intros [r1 n1] [r2 n2] x y H1 H2 Hx Hy Hxy.
      apply elem_of_map_to_list in H1, H2.
      destruct (Hf _ _ _ Hx) as [(s & -> & ->)|(A1 & A2 & ->)],
        (Hf _ _ _ Hy) as [(s' & -> & ->)|(B1 & B2 & ->)]; simpl in Hxy; simplify_eq; try done.
      - by rewrite under_app in B2.
      - by rewrite under_app in A2. }
  rewrite list_elem_of_omap. split.
  - intros ([r' n'] & Hr & H). apply elem_of_map_to_list in Hr.
    destruct (Hf _ _ _ H) as [(s & -> & [= -> ->])|(A1 & A2 & [= -> ->])]; eauto.
  - intros [(s & -> & H)|(Hq & Hp & H)].
    + exists (p ++ s, n). split; [by apply elem_of_map_to_list|]. unfold f.
      by rewrite under_app, drop_app_length.
    + exists (r, n). split; [by apply elem_of_map_to_list|]. unfold f. by rewrite Hp, Hq.
Qed.
