(* ===== verification/Cache.v ===== *)
(** * The cache of [cache.rs]

    Keys and compatibility of entries, the envelope beside each payload, and
    the operations of [Cache] as programs over the file system: lookup,
    publication under a writer lease, inspection, eviction and the recovery of
    what interrupted writers leave. The build for other systems than Windows is
    modelled. SHA-256 and [serde_json] are parameters; [rounds] bounds the
    rounds of each loop that the system could prolong. *)

From S2P Require Import Prelude Errors Tensor Identity Order FileReader FileSystem.
From stdpp Require Import pretty.
From Stdlib Require Import Numbers.HexadecimalString.
From Stdlib Require Strings.String.
Local Open Scope N_scope.

Definition CACHE_ENVELOPE_VERSION : N := 1.
Definition CACHE_DIRECTORY_VERSION : string := "v1".
Definition METADATA_FILE : string := "metadata.json".
Definition PAYLOAD_FILE : string := "payload.bin".
Definition OWNER_FILE : string := "owner".
Definition HEARTBEAT_FILE : string := "heartbeat".
Definition REPLACEMENT_MARKER : string := ".previous-".
Definition MAX_METADATA_BYTES : N := 64 * 1024.
Definition COPY_BUFFER_BYTES : N := 256 * 1024.
(** Durations count nanoseconds. *)
Definition DEFAULT_LEASE_WAIT : N := 30 * 10 ^ 9.
Definition DEFAULT_STALE_AFTER : N := 30 * 60 * 10 ^ 9.
Definition DEFAULT_POLL_INTERVAL : N := 10 * 10 ^ 6.
Definition DEFAULT_MAXIMUM_SCAN_ENTRIES : N := 1000000.
Definition MAXIMUM_CACHE_SCAN_DEPTH : nat := 16.

(** ** Keys and compatibility *)

Inductive CacheNamespace := PlanEntries | PreparedEntries.

#[export] Instance CacheNamespace_eq_dec : EqDecision CacheNamespace.
Proof. solve_decision. Defined.

Definition directory_name (n : CacheNamespace) : string :=
  match n with PlanEntries => "plans" | PreparedEntries => "prepared" end.
Definition key_tag (n : CacheNamespace) : bytes :=
  String.list_byte_of_string match n with PlanEntries => "plan" | PreparedEntries => "prepared" end.

Record CacheCompatibility := {
  format_version : N;
  transform : ContentDigest;
  backend_abi : option ContentDigest
}.

#[export] Instance CacheCompatibility_eq_dec : EqDecision CacheCompatibility.
Proof. solve_decision. Defined.

Definition CacheCompatibility_new (version : N) (t : ContentDigest) (abi : option ContentDigest)
  : CacheCompatibility :=
  {| format_version := version; transform := t; backend_abi := abi |}.
Definition CacheCompatibility_plan (version : N) (t : ContentDigest) : CacheCompatibility :=
  CacheCompatibility_new version t None.
Definition CacheCompatibility_prepared (version : N) (t abi : ContentDigest) : CacheCompatibility :=
  CacheCompatibility_new version t (Some abi).

Record CacheKey := { key_digest : ContentDigest }.

#[export] Instance CacheKey_eq_dec : EqDecision CacheKey.
Proof. solve_decision. Defined.

(** The bytes one call of [update_hash_part] feeds to the hasher. *)
Definition update_hash_part (bs : bytes) : bytes :=
  to_le_bytes 16 (N.of_nat (length bs)) ++ bs.

Definition derive_preimage (n : CacheNamespace) (c : CacheCompatibility) (identities : list bytes)
  : bytes :=
  update_hash_part (String.list_byte_of_string "model-weights-rs-cache-key-v1") ++
  update_hash_part (key_tag n) ++
  update_hash_part (to_le_bytes 4 (format_version c)) ++
  update_hash_part (digest_bytes (transform c)) ++
  match backend_abi c with
  | Some abi => update_hash_part [Byte.x01] ++ update_hash_part (digest_bytes abi)
  | None => update_hash_part [Byte.x00]
  end ++
  concat (map update_hash_part identities).

Definition CacheKey_derive (sha256 : bytes -> bytes) (n : CacheNamespace) (c : CacheCompatibility)
  (identities : list bytes) : CacheKey :=
  {| key_digest := from_bytes (sha256 (derive_preimage n c identities)) |}.

Definition CacheKey_display (k : CacheKey) : string :=
  String.string_of_list_byte (digest_display (key_digest k)).
Definition CacheKey_from_str (s : string) : result CacheKey :=
  d ← digest_from_str (String.list_byte_of_string s);
  mret {| key_digest := d |}.

(** ** Options *)

Record CacheOptions := {
  lease_wait : N;
  stale_after : N;
  poll_interval : N;
  maximum_scan_entries : N
}.

Definition set_lease_wait (v : N) (o : CacheOptions) : CacheOptions :=
  {| lease_wait := v; stale_after := stale_after o; poll_interval := poll_interval o;
     maximum_scan_entries := maximum_scan_entries o |}.
Definition set_stale_after (v : N) (o : CacheOptions) : CacheOptions :=
  {| lease_wait := lease_wait o; stale_after := v; poll_interval := poll_interval o;
     maximum_scan_entries := maximum_scan_entries o |}.
Definition set_poll_interval (v : N) (o : CacheOptions) : CacheOptions :=
  {| lease_wait := lease_wait o; stale_after := stale_after o; poll_interval := v;
     maximum_scan_entries := maximum_scan_entries o |}.
Definition set_maximum_scan_entries (v : N) (o : CacheOptions) : CacheOptions :=
  {| lease_wait := lease_wait o; stale_after := stale_after o; poll_interval := poll_interval o;
     maximum_scan_entries := v |}.

Definition CacheOptions_default : CacheOptions :=
  {| lease_wait := DEFAULT_LEASE_WAIT; stale_after := DEFAULT_STALE_AFTER;
     poll_interval := DEFAULT_POLL_INTERVAL;
     maximum_scan_entries := DEFAULT_MAXIMUM_SCAN_ENTRIES |}.

Inductive CacheValidation := FullValidation | TrustedMetadata.

#[export] Instance CacheValidation_eq_dec : EqDecision CacheValidation.
Proof. solve_decision. Defined.

(** ** Entries and outcomes *)

Record CacheEnvelope := {
  envelope_version : N;
  envelope_namespace : CacheNamespace;
  envelope_key : CacheKey;
  envelope_compatibility : CacheCompatibility;
  envelope_payload_len : N;
  envelope_payload_digest : ContentDigest;
  envelope_created : N
}.

Inductive CacheMissReason :=
  | EntryNotFound
  | IncompleteEntry
  | MetadataTooLarge (actual maximum : N)
  | MetadataMalformed
  | EnvelopeVersion (found supported : N)
  | NamespaceMismatch (found : CacheNamespace)
  | KeyMismatch (found : CacheKey)
  | CompatibilityMismatch (found : CacheCompatibility)
  | LengthMismatch (expected actual : N)
  | DigestMismatch (expected actual : ContentDigest).

Record CacheEntryInfo := {
  namespace : CacheNamespace;
  entry_key : CacheKey;
  compatibility : CacheCompatibility;
  payload_len : N;
  payload_digest : ContentDigest;
  created_unix_millis : N;
  payload_path : path
}.

(** The payload is an open file. *)
Record CacheEntry := {
  info : CacheEntryInfo;
  payload : Handle
}.

Inductive CacheLookup :=
  | Hit (e : CacheEntry)
  | Miss (r : CacheMissReason).

(** [CacheLookup::into_result]. *)
Definition into_result (l : CacheLookup) : CacheEntry + CacheMissReason :=
  match l with Hit e => inl e | Miss r => inr r end.

Inductive CachePublication :=
  | Published (e : CacheEntry)
  | Reused (e : CacheEntry).

Definition publication_entry (p : CachePublication) : CacheEntry :=
  match p with Published e | Reused e => e end.

Record CacheInspection := {
  inspection_entries : list CacheEntryInfo;
  invalid_entries : N;
  payload_bytes : N;
  total_bytes : N
}.

Inductive EvictionReason := Explicit | Capacity | Corrupt | Incompatible | SourceChanged.

Record EvictionRecord := {
  record_namespace : CacheNamespace;
  record_key : CacheKey;
  record_reason : EvictionReason;
  record_bytes : N
}.

Record EvictionReport := {
  before_bytes : N;
  after_bytes : N;
  records : list EvictionRecord
}.

Record RecoveryReport := {
  removed_directories : N;
  restored_entries : N;
  reclaimed_bytes : N
}.

Definition RecoveryReport_default : RecoveryReport :=
  {| removed_directories := 0; restored_entries := 0; reclaimed_bytes := 0 |}.

(** The counters of the report saturate. *)
Definition add_removed (bytes : N) (r : RecoveryReport) : RecoveryReport :=
  {| removed_directories := N.min (removed_directories r + 1) usize_MAX;
     restored_entries := restored_entries r;
     reclaimed_bytes := N.min (reclaimed_bytes r + bytes) u64_MAX |}.
Definition add_restored (r : RecoveryReport) : RecoveryReport :=
  {| removed_directories := removed_directories r;
     restored_entries := N.min (restored_entries r + 1) usize_MAX;
     reclaimed_bytes := reclaimed_bytes r |}.

Inductive MetadataRead :=
  | Envelope (e : CacheEnvelope)
  | MetadataMiss (r : CacheMissReason).

Record CacheCandidate := {
  candidate_namespace : CacheNamespace;
  candidate_key : CacheKey;
  candidate_path : path;
  candidate_modified : N;
  candidate_envelope : option CacheEnvelope
}.

Record CacheInner := {
  cache_root : path;
  options : CacheOptions
}.

Definition info_from_envelope (e : CacheEnvelope) (p : path) : CacheEntryInfo :=
  {| namespace := envelope_namespace e; entry_key := envelope_key e;
     compatibility := envelope_compatibility e; payload_len := envelope_payload_len e;
     payload_digest := envelope_payload_digest e; created_unix_millis := envelope_created e;
     payload_path := p |}.

(** ** Order *)

#[export] Instance CacheNamespace_keyed : Keyed CacheNamespace.
Proof.
  refine {| key n := [[match n with PlanEntries => 0 | PreparedEntries => 1 end]] |}.
  by intros [] [].
Defined.

#[export] Instance path_keyed : Keyed path.
Proof. by refine {| key := map string_key |}. Defined.

#[export] Instance modified_path_keyed : Keyed (N * path).
Proof.
  refine {| key '(n, p) := [n] :: map string_key p |}.
  intros [n p] [m q] [= -> H]. f_equal. by apply (inj (map string_key)).
Defined.

Definition entry_order (n : CacheNamespace) (k : CacheKey) : list (list N) :=
  [[match n with PlanEntries => 0 | PreparedEntries => 1 end]; bytes_key (digest_bytes (key_digest k))].

#[export] Instance namespace_key_keyed : Keyed (CacheNamespace * CacheKey).
Proof.
  refine {| key '(n, k) := entry_order n k |}.
  intros [n [[k]]] [m [[l]]] [= Hn Hk]. apply (inj bytes_key) in Hk as ->. by destruct n, m.
Defined.

#[export] Instance eviction_order_keyed : Keyed (N * CacheNamespace * CacheKey).
Proof.
  refine {| key '(t, n, k) := [t] :: entry_order n k |}.
  intros [[t n] [[k]]] [[u m] [[l]]] [= -> Hn Hk].
  apply (inj bytes_key) in Hk as ->. by destruct n, m.
Defined.

(** ** Names *)

(** [{value:x}]. *)
Definition hex_text (n : N) : string := NilEmpty.string_of_uint (N.to_hex_uint n).

Definition token_text (pid nanos sequence : N) : string :=
  pretty pid +:+ "-" +:+ hex_text nanos +:+ "-" +:+ hex_text sequence.

Definition unique_token : Prog string :=
  sequence ← fetch_add_one;
  nanos ← system_now;
  pid ← process_id;
  mret (token_text pid nanos sequence).

Definition unix_millis : Prog N :=
  nanos ← system_now;
  let millis := nanos / 10 ^ 6 in
  mret (if millis <=? u64_MAX then millis else u64_MAX).

(** [str::contains], [str::ends_with], and the first item of [str::split]. *)
Definition contains (pattern s : string) : bool :=
  match String.index 0 pattern s with Some _ => true | None => false end.
Definition ends_with (pattern s : string) : bool :=
  (String.length pattern <=? String.length s)%nat &&
  bool_decide (String.substring (String.length s - String.length pattern) (String.length pattern) s
               = pattern).
Definition split_first (pattern s : string) : string :=
  match String.index 0 pattern s with Some n => String.substring 0 n s | None => s end.

(** [OsStr::to_str]: file names are arbitrary bytes. *)
Definition to_str (name : string) : option string :=
  if utf8_valid (String.list_byte_of_string name) then Some name else None.

Definition version_path (c : CacheInner) : path := cache_root c ++ [CACHE_DIRECTORY_VERSION].
Definition namespace_path (c : CacheInner) (n : CacheNamespace) : path :=
  version_path c ++ [directory_name n].
(** The text of a key has 64 digits. *)
Definition entry_path (c : CacheInner) (n : CacheNamespace) (k : CacheKey) : path :=
  namespace_path c n ++ [String.substring 0 2 (CacheKey_display k); CacheKey_display k].

Definition staging_name (k : CacheKey) (token : string) : string :=
  "." +:+ CacheKey_display k +:+ ".tmp-" +:+ token.
Definition lease_name (k : CacheKey) : string := "." +:+ CacheKey_display k +:+ ".lease".
Definition evicted_name (k : CacheKey) (token : string) : string :=
  "." +:+ CacheKey_display k +:+ ".evicted-" +:+ token.
Definition previous_name (key_name token : string) : string :=
  "." +:+ key_name +:+ REPLACEMENT_MARKER +:+ token.
Definition reaped_name (name token : string) : string := name +:+ ".reap-" +:+ token.

(** ** Scans *)

(** The entries a scan may still visit. *)
Definition ScanBudget : Type := N.

Definition ScanBudget_new (maximum_entries : N) : Prog ScanBudget :=
  _ ← check_cancelled;
  if maximum_entries =? 0 then throw ResourceLimit else mret maximum_entries.

Definition visit_entry (remaining : ScanBudget) : Prog ScanBudget :=
  _ ← check_cancelled;
  match checked_sub remaining 1 with
  | Some remaining => mret remaining
  | None => throw ResourceLimit
  end.

(** The directories below [p], in order. *)
Definition read_directories (p : path) (scan : ScanBudget) : Prog (list path * ScanBudget) :=
  _ ← check_cancelled;
  r ← fs_read_dir p;
  match r with
  | IoErr NotFound => mret ([], scan)
  | IoErr _ => throw Io
  | IoOk entries =>
      '(directories, scan) ← for_list entries (fun entry '(directories, scan) =>
        scan ← visit_entry scan;
        name ← io_ok entry;
        m ← (r ← fs_metadata (p ++ [name]); io_ok r);
        if is_dir m then
          _ ← try_reserve;
          mret (directories ++ [p ++ [name]], scan)
        else mret (directories, scan)) ([], scan);
      mret (sort_unstable directories, scan)
  end.

(** [depth] counts down from the deepest level that is still visited. *)
Fixpoint directory_size (depth : nat) (p : path) (scan : ScanBudget) : Prog (N * ScanBudget) :=
  _ ← check_cancelled;
  match depth with
  | O => throw ResourceLimit
  | S depth =>
      r ← fs_metadata p;
      match r with
      | IoErr NotFound => mret (0, scan)
      | IoErr _ => throw Io
      | IoOk m =>
          if is_file m then mret (metadata_len m, scan)
          else if negb (is_dir m) then mret (0, scan)
          else
            entries ← (r ← fs_read_dir p; io_ok r);
            for_list entries (fun entry '(total, scan) =>
              scan ← visit_entry scan;
              name ← io_ok entry;
              '(size, scan) ← directory_size depth (p ++ [name]) scan;
              mret (N.min (total + size) u64_MAX, scan)) (0, scan)
      end
  end.

Definition directory_size_of (p : path) (scan : ScanBudget) : Prog (N * ScanBudget) :=
  directory_size (S MAXIMUM_CACHE_SCAN_DEPTH) p scan.

(** ** Age *)

(** [metadata.modified()], which not every system supports. *)
Definition modified (r : io Metadata) : io N :=
  match r with
  | IoOk m => match metadata_modified m with Some t => IoOk t | None => IoErr OtherError end
  | IoErr e => IoErr e
  end.

Definition path_is_stale (p : path) (stale_after : N) (scan : ScanBudget)
  : Prog (bool * ScanBudget) :=
  _ ← check_cancelled;
  r ← fs_metadata p;
  match modified r with
  | IoErr NotFound => mret (false, scan)
  | IoErr _ => throw Io
  | IoOk newest =>
      r ← fs_read_dir p;
      '(newest, scan) ← match r with
        | IoErr _ => mret (newest, scan)
        | IoOk entries =>
            for_list entries (fun entry '(newest, scan) =>
              scan ← visit_entry scan;
              match entry with
              | IoErr NotFound => mret (newest, scan)
              | IoErr _ => throw Io
              | IoOk name =>
                  r ← fs_metadata (p ++ [name]);
                  match modified r with
                  | IoErr NotFound => mret (newest, scan)
                  | IoErr _ => throw Io
                  | IoOk t => mret (N.max newest t, scan)
                  end
              end) (newest, scan)
        end;
      now ← system_now;
      mret (stale_after <=? saturating_sub now newest, scan)
  end.

Definition lease_is_stale (p : path) (stale_after : N) : Prog bool :=
  _ ← check_cancelled;
  let judge t := now ← system_now; mret (stale_after <=? saturating_sub now t) in
  r ← fs_metadata (p ++ [HEARTBEAT_FILE]);
  match modified r with
  | IoOk t => judge t
  | IoErr NotFound =>
      r ← fs_metadata p;
      match modified r with
      | IoOk t => judge t
      | IoErr NotFound => mret false
      | IoErr _ => throw Io
      end
  | IoErr _ => throw Io
  end.

(** Only a name that exists already is contended. *)
Definition lease_is_contended (e : io_error) : bool :=
  match e with AlreadyExists => true | _ => false end.

Section Operations.
Context (sha256 : bytes -> bytes).
Context (to_vec : CacheEnvelope -> option bytes) (from_slice : bytes -> option CacheEnvelope).
Context (rounds : nat).

(** ** Envelopes *)

Definition read_envelope (entry : path) : Prog MetadataRead :=
  r ← fs_open (entry ++ [METADATA_FILE]) OpenRead;
  match r with
  | IoErr NotFound => mret (MetadataMiss IncompleteEntry)
  | IoErr _ => throw Io
  | IoOk file =>
      metadata_len ← (r ← file_len file; io_ok r);
      if MAX_METADATA_BYTES <? metadata_len
      then mret (MetadataMiss (MetadataTooLarge metadata_len MAX_METADATA_BYTES))
      else
        bs ← (r ← read_to_end file (MAX_METADATA_BYTES + 1); io_ok r);
        let actual_len := N.of_nat (length bs) in
        if MAX_METADATA_BYTES <? actual_len
        then mret (MetadataMiss (MetadataTooLarge actual_len MAX_METADATA_BYTES))
        else mret (match from_slice bs with
                   | Some e => Envelope e
                   | None => MetadataMiss MetadataMalformed
                   end)
  end.

Definition write_envelope (staging : path) (e : CacheEnvelope) : Prog unit :=
  bs ← pure (ok_or (to_vec e) Errors.Cache);
  _ ← pure (reject (MAX_METADATA_BYTES <? N.of_nat (length bs)) Errors.Cache);
  file ← (r ← fs_open (staging ++ [METADATA_FILE]) OpenCreateNew; io_ok r);
  _ ← (r ← file_write file bs; io_ok r);
  r ← file_sync file; io_ok r.

Definition advance (h : Handle) (n : N) : Handle :=
  {| handle_inode := handle_inode h; position := position h + n |}.

(** The bytes hashed so far are an argument; at most [fuel] reads. *)
Fixpoint digest_loop (fuel : nat) (h : Handle) (hashed : bytes) : Prog (ContentDigest * Handle) :=
  match fuel with
  | O => Running
  | S fuel =>
      _ ← check_cancelled;
      bs ← (r ← file_read h COPY_BUFFER_BYTES; io_ok r);
      if (length bs =? 0)%nat then mret (from_bytes (sha256 hashed), h)
      else digest_loop fuel (advance h (N.of_nat (length bs))) (hashed ++ bs)
  end.

Definition digest_reader (h : Handle) : Prog (ContentDigest * Handle) := digest_loop rounds h [].

(** ** Lookup *)

Definition lookup_entry_path (entry : path) (n : CacheNamespace) (k : CacheKey)
  (c : CacheCompatibility) (v : CacheValidation) : Prog CacheLookup :=
  _ ← check_cancelled;
  r ← fs_metadata entry;
  match r with
  | IoErr NotFound => mret (Miss EntryNotFound)
  | IoErr _ => throw Io
  | IoOk m =>
    if negb (is_dir m) then mret (Miss IncompleteEntry) else
    e ← read_envelope entry;
    match e with
    | MetadataMiss reason => mret (Miss reason)
    | Envelope e =>
      if negb (envelope_version e =? CACHE_ENVELOPE_VERSION)
      then mret (Miss (EnvelopeVersion (envelope_version e) CACHE_ENVELOPE_VERSION))
      else if negb (bool_decide (envelope_namespace e = n))
      then mret (Miss (NamespaceMismatch (envelope_namespace e)))
      else if negb (bool_decide (envelope_key e = k))
      then mret (Miss (KeyMismatch (envelope_key e)))
      else if negb (bool_decide (envelope_compatibility e = c))
      then mret (Miss (CompatibilityMismatch (envelope_compatibility e)))
      else
        r ← fs_open (entry ++ [PAYLOAD_FILE]) OpenRead;
        match r with
        | IoErr NotFound => mret (Miss IncompleteEntry)
        | IoErr _ => throw Io
        | IoOk file =>
            actual_len ← (r ← file_len file; io_ok r);
            if negb (actual_len =? envelope_payload_len e)
            then mret (Miss (LengthMismatch (envelope_payload_len e) actual_len))
            else
              let finish file :=
                file ← (r ← file_rewind file; io_ok r);
                mret (Hit {| info := info_from_envelope e (entry ++ [PAYLOAD_FILE]);
                             payload := file |}) in
              if bool_decide (v = FullValidation) then
                '(actual_digest, file) ← digest_reader file;
                if negb (bool_decide (actual_digest = envelope_payload_digest e))
                then mret (Miss (DigestMismatch (envelope_payload_digest e) actual_digest))
                else finish file
              else finish file
        end
    end
  end.

Definition open_published_entry (entry : path) (e : CacheEnvelope) : Prog CacheEntry :=
  file ← (r ← fs_open (entry ++ [PAYLOAD_FILE]) OpenRead; io_ok r);
  actual_len ← (r ← file_len file; io_ok r);
  if negb (actual_len =? envelope_payload_len e) then throw Errors.Cache
  else mret {| info := info_from_envelope e (entry ++ [PAYLOAD_FILE]); payload := file |}.

Definition to_option {A} (o : option A) (e : ErrorCategory) : Prog A := pure (ok_or o e).

(** The newest generation first. *)
Definition replacement_paths (entry : path) (scan : ScanBudget) : Prog (list path * ScanBudget) :=
  _ ← check_cancelled;
  dir ← to_option (parent entry) Errors.Cache;
  key_name ← to_option (file_name entry ≫= to_str) Errors.Cache;
  let pattern := previous_name key_name EmptyString in
  r ← fs_read_dir dir;
  match r with
  | IoErr NotFound => mret ([], scan)
  | IoErr _ => throw Io
  | IoOk entries =>
      '(paths, scan) ← for_list entries (fun entry '(paths, scan) =>
        scan ← visit_entry scan;
        match entry with
        | IoErr NotFound => mret (paths, scan)
        | IoErr _ => throw Io
        | IoOk name =>
            match to_str name with
            | None => mret (paths, scan)
            | Some name =>
                if negb (String.prefix pattern name) then mret (paths, scan) else
                r ← fs_metadata (dir ++ [name]);
                match r with
                | IoErr NotFound => mret (paths, scan)
                | IoErr _ => throw Io
                | IoOk m =>
                    if negb (is_dir m) then mret (paths, scan) else
                    _ ← try_reserve;
                    mret (paths ++ [(default 0 (metadata_modified m), dir ++ [name])], scan)
                end
            end
        end) ([], scan);
      mret (map snd (reverse (sort_unstable paths)), scan)
  end.

(** [match lookup { Ok(lookup) => .., Err(error) if raced => continue, .. }]. *)
Definition replacement_lookup_raced (p : path) : Prog bool :=
  b ← path_exists p; mret (negb b).

Fixpoint lookup_replacements (paths : list path) (n : CacheNamespace) (k : CacheKey)
  (c : CacheCompatibility) (v : CacheValidation) : Prog (option CacheEntry) :=
  match paths with
  | [] => mret None
  | p :: paths =>
      and_then (lookup_entry_path p n k c v) (fun r =>
        match r with
        | Ok (Hit e) => mret (Some e)
        | Ok (Miss _) => lookup_replacements paths n k c v
        | Err error =>
            raced ← replacement_lookup_raced p;
            if (raced : bool) then lookup_replacements paths n k c v else throw error
        | Panic => Ret Panic
        end)
  end.

Definition lookup_with_validation_and_cancellation (cache : CacheInner) (n : CacheNamespace)
  (k : CacheKey) (c : CacheCompatibility) (v : CacheValidation) : Prog CacheLookup :=
  _ ← check_cancelled;
  let entry := entry_path cache n k in
  first ← lookup_entry_path entry n k c v;
  match first with
  | Hit _ => mret first
  | Miss _ =>
      scan ← ScanBudget_new (maximum_scan_entries (options cache));
      '(previous, _) ← replacement_paths entry scan;
      retry ← lookup_entry_path entry n k c v;
      match retry with
      | Hit _ => mret retry
      | Miss _ =>
          found ← lookup_replacements previous n k c v;
          match found with
          | Some e => mret (Hit e)
          | None => lookup_entry_path entry n k c v
          end
      end
  end.

Definition lookup_with_cancellation (cache : CacheInner) (n : CacheNamespace) (k : CacheKey)
  (c : CacheCompatibility) : Prog CacheLookup :=
  lookup_with_validation_and_cancellation cache n k c FullValidation.

(** ** Leases *)

Definition reap_directory (p : path) : Prog unit :=
  dir ← to_option (parent p) Errors.Cache;
  name ← to_option (file_name p ≫= to_str) Errors.Cache;
  token ← unique_token;
  let claimed := dir ++ [reaped_name name token] in
  r ← fs_rename p claimed;
  match r with
  | IoOk _ => r ← remove_dir_all rounds claimed; io_ok r
  | IoErr NotFound => mret tt
  | IoErr _ => throw Io
  end.

Record WriterLease := {
  lease_path : path;
  lease_owner : bytes;
  lease_active : bool
}.

(** Runs [m], then [cleanup] whatever [m] returned. *)
Definition on_exit {A} (m : Prog A) (cleanup : Prog unit) : Prog A :=
  and_then m (fun r => and_then cleanup (fun _ => Ret r)).

(** [let _ = m]: what [m] returns does not matter. *)
Definition ignoring {A} (m : Prog A) : Prog unit := and_then m (fun _ => mret tt).

Definition heartbeat_text : Prog bytes :=
  millis ← unix_millis; mret (String.list_byte_of_string (pretty millis)).

Fixpoint acquire_loop (fuel : nat) (p : path) (o : CacheOptions) (started : N) : Prog WriterLease :=
  match fuel with
  | O => Running
  | S fuel =>
      _ ← check_cancelled;
      r ← fs_create_dir p;
      match r with
      | IoOk _ =>
          owner ← unique_token;
          let owner := String.list_byte_of_string owner in
          w ← fs_write (p ++ [OWNER_FILE]) owner;
          match w with
          | IoErr _ => _ ← ignoring (reap_directory p); throw Io
          | IoOk _ =>
              millis ← heartbeat_text;
              w ← fs_write (p ++ [HEARTBEAT_FILE]) millis;
              match w with
              | IoErr _ => _ ← ignoring (reap_directory p); throw Io
              | IoOk _ => mret {| lease_path := p; lease_owner := owner; lease_active := true |}
              end
          end
      | IoErr e =>
          if lease_is_contended e then
            stale ← lease_is_stale p (stale_after o);
            if (stale : bool) then _ ← reap_directory p; acquire_loop fuel p o started
            else
              now ← instant_now;
              if lease_wait o <=? saturating_sub now started then throw Errors.Cache
              else _ ← pause; acquire_loop fuel p o started
          else throw Io
      end
  end.

Definition WriterLease_acquire (dir : path) (k : CacheKey) (o : CacheOptions) : Prog WriterLease :=
  started ← instant_now;
  acquire_loop rounds (dir ++ [lease_name k]) o started.

Definition release_writer_lease (p : path) : Prog unit :=
  match parent p, file_name p ≫= to_str with
  | Some dir, Some name =>
      token ← unique_token;
      let claimed := dir ++ [reaped_name name token] in
      r ← fs_rename p claimed;
      match r with
      | IoOk _ => ignoring (remove_dir_all rounds claimed)
      | IoErr _ => mret tt
      end
  | _, _ => mret tt
  end.

Definition WriterLease_drop (l : WriterLease) : Prog unit :=
  if negb (lease_active l) then mret tt else
  r ← read_to_string (lease_path l ++ [OWNER_FILE]);
  match r with
  | IoOk owner => if bool_decide (owner = lease_owner l) then release_writer_lease (lease_path l)
                  else mret tt
  | IoErr _ => mret tt
  end.

(** ** Staging *)

Record StagingEntry := {
  staging_path : path;
  staging_active : bool
}.

Fixpoint staging_attempts (attempts : nat) (dir : path) (k : CacheKey) : Prog StagingEntry :=
  match attempts with
  | O => throw Errors.Cache
  | S attempts =>
      token ← unique_token;
      let p := dir ++ [staging_name k token] in
      r ← fs_create_dir p;
      match r with
      | IoOk _ => mret {| staging_path := p; staging_active := true |}
      | IoErr AlreadyExists => staging_attempts attempts dir k
      | IoErr _ => throw Io
      end
  end.

Definition StagingEntry_create (dir : path) (k : CacheKey) : Prog StagingEntry :=
  staging_attempts 100 dir k.

Definition StagingEntry_drop (s : StagingEntry) : Prog unit :=
  if staging_active s then ignoring (remove_dir_all rounds (staging_path s)) else mret tt.

(** The values with a [Drop] of a call, which later steps change. *)
Record Guards := {
  lease : WriterLease;
  staging : option StagingEntry
}.

Definition Guarded (A : Type) : Type := Guards -> Prog (Guards * result A).

#[export] Instance Guarded_ret : MRet Guarded := fun A a g => mret (g, Ok a).
#[export] Instance Guarded_bind : MBind Guarded := fun A B f m g =>
  '(g, r) ← m g;
  match r with
  | Ok a => f a g
  | Err e => mret (g, Err e)
  | Panic => mret (g, Panic)
  end.

Definition step {A} (m : Prog A) : Guarded A := fun g => and_then m (fun r => mret (g, r)).
Definition set_lease (l : WriterLease) : Guarded unit :=
  fun g => mret ({| lease := l; staging := staging g |}, Ok tt).
Definition set_staging (s : StagingEntry) : Guarded unit :=
  fun g => mret ({| lease := lease g; staging := Some s |}, Ok tt).
Definition get_lease : Guarded WriterLease := fun g => mret (g, Ok (lease g)).

(** Staging was declared after the lease, so it is dropped first. *)
Definition Guards_drop (g : Guards) : Prog unit :=
  _ ← match staging g with Some s => StagingEntry_drop s | None => mret tt end;
  WriterLease_drop (lease g).

Definition guarded {A} (l : WriterLease) (m : Guarded A) : Prog A :=
  '(g, r) ← m {| lease := l; staging := None |};
  on_exit (pure r) (Guards_drop g).

Definition WriterLease_refresh : Guarded unit :=
  l ← get_lease;
  owner ← step (r ← read_to_string (lease_path l ++ [OWNER_FILE]); io_ok r);
  if negb (bool_decide (owner = lease_owner l)) then
    _ ← set_lease {| lease_path := lease_path l; lease_owner := lease_owner l;
                     lease_active := false |};
    step (throw Errors.Cache)
  else
    heartbeat ← step (r ← fs_open (lease_path l ++ [HEARTBEAT_FILE]) OpenTruncate; io_ok r);
    step (millis ← heartbeat_text; r ← file_write heartbeat millis; io_ok r).

(** [StagingEntry::publish]. *)
Definition publish_staging (s : StagingEntry) (final_path : path) : Guarded unit :=
  dir ← step (to_option (parent final_path) Errors.Cache);
  key_name ← step (to_option (file_name final_path ≫= to_str) Errors.Cache);
  token ← step unique_token;
  let previous := dir ++ [previous_name key_name token] in
  moved_previous ← step (
    r ← fs_rename final_path previous;
    match r with
    | IoOk _ => mret true
    | IoErr NotFound => mret false
    | IoErr _ => throw Io
    end);
  _ ← step (
    r ← fs_rename (staging_path s) final_path;
    match r with
    | IoOk _ => mret tt
    | IoErr _ =>
        _ ← (if (moved_previous : bool) then ignoring (fs_rename previous final_path) else mret tt);
        throw Io
    end);
  _ ← set_staging {| staging_path := staging_path s; staging_active := false |};
  if (moved_previous : bool) then step (ignoring (remove_dir_all rounds previous)) else mret tt.

(** ** Publication *)

(** A caller's reader: what a read of so many bytes returns, and its next
    state. *)
Record Reader := {
  reader_state : Type;
  read_some : reader_state -> N -> io bytes * reader_state
}.

Fixpoint payload_loop (fuel : nat) (output : Handle) (R : Reader) (input : reader_state R)
  (hashed : bytes) (total : N) : Guarded (N * ContentDigest * Handle) :=
  match fuel with
  | O => fun _ => Running
  | S fuel =>
      _ ← step check_cancelled;
      _ ← WriterLease_refresh;
      let '(r, input) := read_some R input COPY_BUFFER_BYTES in
      bs ← step (io_ok r);
      if (length bs =? 0)%nat then mret (total, from_bytes (sha256 hashed), output)
      else
        _ ← step (pure (if N.of_nat (length bs) <=? COPY_BUFFER_BYTES then Ok tt else Panic));
        _ ← step (w ← file_write output bs; io_ok w);
        total ← step (to_option (checked_add total (N.of_nat (length bs))) Errors.Cache);
        payload_loop fuel (advance output (N.of_nat (length bs))) R input (hashed ++ bs) total
  end.

Definition write_payload (p : path) (R : Reader) (input : reader_state R)
  : Guarded (N * ContentDigest) :=
  output ← step (r ← fs_open p OpenCreateNew; io_ok r);
  '(total, digest, output) ← payload_loop rounds output R input [] 0;
  _ ← step (r ← file_sync output; io_ok r);
  mret (total, digest).

(** The part of [publish_reader] that runs with the lease. *)
Definition publish_locked (cache : CacheInner) (n : CacheNamespace) (k : CacheKey)
  (c : CacheCompatibility) (R : Reader) (input : reader_state R) : Guarded CachePublication :=
  let final_path := entry_path cache n k in
  second ← step (lookup_with_cancellation cache n k c);
  match second with
  | Hit e => mret (Reused e)
  | Miss _ =>
      dir ← step (to_option (parent final_path) Errors.Cache);
      s ← step (StagingEntry_create dir k);
      _ ← set_staging s;
      '(payload_len, payload_digest) ← write_payload (staging_path s ++ [PAYLOAD_FILE]) R input;
      created ← step unix_millis;
      let e := {| envelope_version := CACHE_ENVELOPE_VERSION; envelope_namespace := n;
                  envelope_key := k; envelope_compatibility := c;
                  envelope_payload_len := payload_len; envelope_payload_digest := payload_digest;
                  envelope_created := created |} in
      _ ← step (write_envelope (staging_path s) e);
      _ ← WriterLease_refresh;
      _ ← step check_cancelled;
      _ ← publish_staging s final_path;
      entry ← step (open_published_entry final_path e);
      mret (Published entry)
  end.

Definition publish_reader (cache : CacheInner) (n : CacheNamespace) (k : CacheKey)
  (c : CacheCompatibility) (R : Reader) (input : reader_state R) : Prog CachePublication :=
  first ← lookup_with_cancellation cache n k c;
  match first with
  | Hit e => mret (Reused e)
  | Miss _ =>
      dir ← to_option (parent (entry_path cache n k)) Errors.Cache;
      _ ← (r ← fs_create_dir_all dir; io_ok r);
      l ← WriterLease_acquire dir k (options cache);
      guarded l (publish_locked cache n k c R input)
  end.

(** [Cursor<&[u8]>]. *)
Definition Cursor : Reader :=
  {| reader_state := bytes;
     read_some := fun bs n => (IoOk (take (N.to_nat n) bs), drop (N.to_nat n) bs) |}.

Definition publish_bytes (cache : CacheInner) (n : CacheNamespace) (k : CacheKey)
  (c : CacheCompatibility) (bs : bytes) : Prog CachePublication :=
  publish_reader cache n k c Cursor bs.

(** ** Inspection *)

Definition scan_entry (n : CacheNamespace) (entry : path)
  '((candidates, scan) : list CacheCandidate * ScanBudget)
  : Prog (list CacheCandidate * ScanBudget) :=
  match file_name entry ≫= to_str with
  | None => mret (candidates, scan)
  | Some name =>
      match CacheKey_from_str name with
      | Ok k =>
          m ← (r ← fs_metadata entry; io_ok r);
          e ← read_envelope entry;
          _ ← try_reserve;
          mret (candidates ++
                [{| candidate_namespace := n; candidate_key := k; candidate_path := entry;
                    candidate_modified := default 0 (metadata_modified m);
                    candidate_envelope := match e with
                                          | Envelope e => Some e
                                          | MetadataMiss _ => None
                                          end |}], scan)
      | _ => mret (candidates, scan)
      end
  end.

Definition scan_candidates (cache : CacheInner) (scan : ScanBudget)
  : Prog (list CacheCandidate * ScanBudget) :=
  for_list [PlanEntries; PreparedEntries] (fun n '(candidates, scan) =>
    _ ← check_cancelled;
    '(shards, scan) ← read_directories (namespace_path cache n) scan;
    for_list shards (fun shard '(candidates, scan) =>
      '(entries, scan) ← read_directories shard scan;
      for_list entries (scan_entry n) (candidates, scan)) (candidates, scan)) ([], scan).

(** The valid entries, the invalid ones counted, and the bytes of payloads. *)
Definition inspect_candidate (candidate : CacheCandidate)
  '((entries, invalid, bytes) : list CacheEntryInfo * N * N)
  : Prog (list CacheEntryInfo * N * N) :=
  _ ← check_cancelled;
  let bad := (entries, N.min (invalid + 1) usize_MAX, bytes) in
  match candidate_envelope candidate with
  | Some e =>
      if (envelope_version e =? CACHE_ENVELOPE_VERSION) &&
         bool_decide (envelope_namespace e = candidate_namespace candidate) &&
         bool_decide (envelope_key e = candidate_key candidate)
      then
        let p := candidate_path candidate ++ [PAYLOAD_FILE] in
        r ← fs_metadata p;
        match r with
        | IoOk m =>
            if negb (is_file m) then mret bad
            else if negb (metadata_len m =? envelope_payload_len e) then mret bad
            else mret (entries ++ [info_from_envelope e p], invalid,
                       N.min (bytes + metadata_len m) u64_MAX)
        | IoErr NotFound => mret bad
        | IoErr _ => throw Io
        end
      else mret bad
  | None => mret bad
  end.

Definition inspect_with_cancellation (cache : CacheInner) : Prog CacheInspection :=
  scan ← ScanBudget_new (maximum_scan_entries (options cache));
  '(candidates, scan) ← scan_candidates cache scan;
  _ ← try_reserve;
  '(entries, invalid, bytes) ← for_list candidates inspect_candidate ([], 0, 0);
  let entries := sort_by_key (fun e => (namespace e, entry_key e)) entries in
  '(total, _) ← directory_size_of (version_path cache) scan;
  mret {| inspection_entries := entries; invalid_entries := invalid; payload_bytes := bytes;
          total_bytes := total |}.

(** ** Eviction *)

(** The part of [evict] that runs with the lease. *)
Definition evict_locked (cache : CacheInner) (dir final_path : path) (n : CacheNamespace)
  (k : CacheKey) (reason : EvictionReason) : Prog (option EvictionRecord) :=
  _ ← check_cancelled;
  scan ← ScanBudget_new (maximum_scan_entries (options cache));
  r ← fs_metadata final_path;
  match r with
  | IoErr NotFound => mret None
  | IoErr _ => throw Io
  | IoOk m =>
      bytes ← (if is_dir m then '(size, _) ← directory_size_of final_path scan; mret size
               else mret 0);
      token ← unique_token;
      let trash_path := dir ++ [evicted_name k token] in
      r ← fs_rename final_path trash_path;
      match r with
      | IoErr NotFound => mret None
      | IoErr _ => throw Io
      | IoOk _ =>
          _ ← (r ← remove_dir_all rounds trash_path; io_ok r);
          mret (Some {| record_namespace := n; record_key := k; record_reason := reason;
                        record_bytes := bytes |})
      end
  end.

Definition evict (cache : CacheInner) (n : CacheNamespace) (k : CacheKey)
  (reason : EvictionReason) : Prog (option EvictionRecord) :=
  let final_path := entry_path cache n k in
  dir ← to_option (parent final_path) Errors.Cache;
  _ ← (r ← fs_create_dir_all dir; io_ok r);
  l ← WriterLease_acquire dir k (options cache);
  guarded l (step (evict_locked cache dir final_path n k reason)).

(** The loop stops at the first candidate that finds the estimate low enough. *)
Fixpoint evict_loop (cache : CacheInner) (maximum_bytes : N) (reason : EvictionReason)
  (candidates : list CacheCandidate) (estimated : N) (records : list EvictionRecord)
  : Prog (list EvictionRecord) :=
  match candidates with
  | [] => mret records
  | candidate :: candidates =>
      if estimated <=? maximum_bytes then mret records else
      _ ← check_cancelled;
      r ← evict cache (candidate_namespace candidate) (candidate_key candidate) reason;
      match r with
      | Some record =>
          _ ← try_reserve;
          evict_loop cache maximum_bytes reason candidates
            (saturating_sub estimated (record_bytes record)) (records ++ [record])
      | None => evict_loop cache maximum_bytes reason candidates estimated records
      end
  end.

Definition eviction_key (c : CacheCandidate) : N * CacheNamespace * CacheKey :=
  (candidate_modified c, candidate_namespace c, candidate_key c).

Definition evict_to (cache : CacheInner) (maximum_bytes : N) (reason : EvictionReason)
  : Prog EvictionReport :=
  let maximum := maximum_scan_entries (options cache) in
  scan ← ScanBudget_new maximum;
  '(before, _) ← directory_size_of (version_path cache) scan;
  scan ← ScanBudget_new maximum;
  '(candidates, _) ← scan_candidates cache scan;
  let candidates := sort_by_key eviction_key candidates in
  records ← evict_loop cache maximum_bytes reason candidates before [];
  scan ← ScanBudget_new maximum;
  '(after, _) ← directory_size_of (version_path cache) scan;
  mret {| before_bytes := before; after_bytes := after; records := records |}.

(** ** Recovery *)

(** Removes a generation that another one supersedes. *)
Definition remove_superseded (replacement : path) '((report, scan) : RecoveryReport * ScanBudget)
  : Prog (RecoveryReport * ScanBudget) :=
  '(bytes, scan) ← directory_size_of replacement scan;
  _ ← (r ← remove_dir_all rounds replacement; io_ok r);
  mret (add_removed bytes report, scan).

Definition restore_replacement (shard replacement : path) (name : string)
  '((report, scan) : RecoveryReport * ScanBudget) : Prog (RecoveryReport * ScanBudget) :=
  let key_name := match name with
                  | String c rest => if bool_decide (c = Ascii.ascii_of_N 46)
                                     then split_first REPLACEMENT_MARKER rest else EmptyString
                  | EmptyString => EmptyString
                  end in
  if bool_decide (key_name = EmptyString) then mret (report, scan) else
  let final_path := shard ++ [key_name] in
  exists_ ← path_exists final_path;
  if (exists_ : bool) then remove_superseded replacement (report, scan) else
  r ← fs_rename replacement final_path;
  match r with
  | IoOk _ => mret (add_restored report, scan)
  | IoErr NotFound => mret (report, scan)
  | IoErr _ =>
      dir ← path_is_dir final_path;
      if (dir : bool) then remove_superseded replacement (report, scan) else throw Io
  end.

Definition recoverable_name (name : string) : bool :=
  contains ".tmp-" name || contains REPLACEMENT_MARKER name || contains ".evicted-" name ||
  contains ".lease.reap-" name || ends_with ".lease" name.

(** Whether a writer may still be at work on a staged or replaced entry. *)
Definition writer_active (shard : path) (name : string) (stale_after : N) : Prog bool :=
  if contains ".tmp-" name || contains REPLACEMENT_MARKER name then
    let key_prefix := if contains ".tmp-" name then split_first ".tmp-" name
                      else split_first REPLACEMENT_MARKER name in
    let lease_path := shard ++ [key_prefix +:+ ".lease"] in
    exists_ ← path_exists lease_path;
    if (exists_ : bool) then stale ← lease_is_stale lease_path stale_after; mret (negb stale)
    else mret false
  else mret false.

Definition recover_directory (shard : path) (stale_after : N) (p : path)
  '((report, scan) : RecoveryReport * ScanBudget) : Prog (RecoveryReport * ScanBudget) :=
  _ ← check_cancelled;
  match file_name p ≫= to_str with
  | None => mret (report, scan)
  | Some name =>
      if negb (recoverable_name name) then mret (report, scan) else
      '(stale, scan) ← path_is_stale p stale_after scan;
      if negb stale then mret (report, scan) else
      active ← writer_active shard name stale_after;
      if (active : bool) then mret (report, scan)
      else if contains REPLACEMENT_MARKER name
      then restore_replacement shard p name (report, scan)
      else
        '(bytes, scan) ← directory_size_of p scan;
        _ ← (if ends_with ".lease" name then reap_directory p
             else r ← remove_dir_all rounds p; io_ok r);
        mret (add_removed bytes report, scan)
  end.

Definition recover_shard (stale_after : N) (shard : path)
  '((report, scan) : RecoveryReport * ScanBudget) : Prog (RecoveryReport * ScanBudget) :=
  '(directories, scan) ← read_directories shard scan;
  for_list directories (recover_directory shard stale_after) (report, scan).

Definition recover_stale_with_cancellation (cache : CacheInner) : Prog RecoveryReport :=
  scan ← ScanBudget_new (maximum_scan_entries (options cache));
  '(report, _) ← for_list [PlanEntries; PreparedEntries] (fun n '(report, scan) =>
    _ ← check_cancelled;
    '(shards, scan) ← read_directories (namespace_path cache n) scan;
    for_list shards (recover_shard (stale_after (options cache))) (report, scan))
    (RecoveryReport_default, scan);
  mret report.

Definition open_with_options_and_cancellation (root : path) (o : CacheOptions) : Prog CacheInner :=
  _ ← check_cancelled;
  if maximum_scan_entries o =? 0 then throw ResourceLimit else
  let cache := {| cache_root := root; options := o |} in
  _ ← for_list [PlanEntries; PreparedEntries] (fun n _ =>
        _ ← check_cancelled;
        r ← fs_create_dir_all (namespace_path cache n); io_ok r) tt;
  _ ← recover_stale_with_cancellation cache;
  mret cache.

Definition open_cache (root : path) : Prog CacheInner :=
  open_with_options_and_cancellation root CacheOptions_default.

(** ** The service *)

Inductive Operation :=
  | OpOpen
  | OpLookup (n : CacheNamespace) (k : CacheKey) (c : CacheCompatibility) (v : CacheValidation)
  | OpPublish (n : CacheNamespace) (k : CacheKey) (c : CacheCompatibility) (R : Reader)
      (input : reader_state R)
  | OpInspect
  | OpEvict (n : CacheNamespace) (k : CacheKey) (reason : EvictionReason)
  | OpEvictTo (maximum_bytes : N) (reason : EvictionReason)
  | OpRecover.

Inductive Reply :=
  | Opened (c : CacheInner)
  | LookedUp (l : CacheLookup)
  | PublishedEntry (p : CachePublication)
  | Inspected (i : CacheInspection)
  | Evicted (r : option EvictionRecord)
  | EvictedTo (r : EvictionReport)
  | Recovered (r : RecoveryReport).

(** The operations of one cache, as a caller can ask for them. *)
Definition perform (cache : CacheInner) (op : Operation) : Prog Reply :=
  match op with
  | OpOpen => c ← open_with_options_and_cancellation (cache_root cache) (options cache);
              mret (Opened c)
  | OpLookup n k c v => l ← lookup_with_validation_and_cancellation cache n k c v;
                        mret (LookedUp l)
  | OpPublish n k c R input => p ← publish_reader cache n k c R input; mret (PublishedEntry p)
  | OpInspect => i ← inspect_with_cancellation cache; mret (Inspected i)
  | OpEvict n k reason => r ← evict cache n k reason; mret (Evicted r)
  | OpEvictTo maximum_bytes reason => r ← evict_to cache maximum_bytes reason; mret (EvictedTo r)
  | OpRecover => r ← recover_stale_with_cancellation cache; mret (Recovered r)
  end.
End Operations.
