(* ===== verification/CacheNames.v ===== *)
(** * Names of the cache directory

    The names that [cache.rs] builds keep keys, markers and tokens apart: each
    ends in a part of its own after its last dot, so the names of staged
    entries, leases and replaced generations are never confused, and a token
    tells which call of which process made it. *)

From S2P Require Import Prelude Errors Tensor Identity FileReader FileSystem Cache.
From stdpp Require Import strings pretty.
From Stdlib Require Import Numbers.HexadecimalString Numbers.HexadecimalN.
From Stdlib Require Import Strings.Ascii.
From Stdlib Require Strings.String.
Local Open Scope N_scope.

(** ** Characters *)

Definition dot : ascii := Ascii.ascii_of_N 46.
Definition dash : ascii := Ascii.ascii_of_N 45.

(** The character does not occur. *)
Fixpoint free (c : ascii) (s : string) : bool :=
  match s with
  | EmptyString => true
  | String d s => negb (bool_decide (c = d)) && free c s
  end.

Lemma string_app_nil (t : string) : EmptyString +:+ t = t.
Proof. done. Qed.
Lemma string_app_cons c (s t : string) : String c s +:+ t = String c (s +:+ t).
Proof. done. Qed.
Lemma string_app_assoc (s t u : string) : (s +:+ t) +:+ u = s +:+ t +:+ u.
Proof. induction s as [|c s IH]; [done|]. exact (f_equal (String c) IH). Qed.

Lemma free_app c s t : free c (s +:+ t) = free c s && free c t.
Proof. induction s as [|d s IH]; simpl; [done|]. rewrite IH. by rewrite andb_assoc. Qed.

Lemma free_string_of_list_byte c bs :
  Forall (fun b => Ascii.ascii_of_byte b <> c) bs -> free c (String.string_of_list_byte bs) = true.
Proof.
  induction 1 as [|b bs Hb _ IH]; [done|]. simpl. rewrite bool_decide_eq_false_2 by congruence. done.
Qed.

(** Splitting at a character from the left. *)
Lemma split_left c x x' y y' :
  free c x = true -> free c x' = true ->
  x +:+ String c y = x' +:+ String c y' -> x = x' /\ y = y'.
Proof.
  revert x'. induction x as [|d x IH]; intros [|d' x'] Hx Hx' H; simpl in *.
  - by simplify_eq.
  - simplify_eq. bool_to_prop. naive_solver.
  - simplify_eq. bool_to_prop. naive_solver.
  - simplify_eq. bool_to_prop. destruct (IH x') as [-> ->]; naive_solver.
Qed.

(** Splitting at a character from the right. *)
Lemma split_right c x x' y y' :
  free c y = true -> free c y' = true ->
  x +:+ String c y = x' +:+ String c y' -> x = x' /\ y = y'.
Proof.
  revert x'. induction x as [|d x IH]; intros [|d' x'] Hy Hy' H; simpl in *.
  - by simplify_eq.
  - simplify_eq. rewrite free_app in Hy. simpl in Hy.
    rewrite bool_decide_eq_true_2 in Hy by done. simpl in Hy. by rewrite andb_false_r in Hy.
  - simplify_eq. rewrite free_app in Hy'. simpl in Hy'.
    rewrite bool_decide_eq_true_2 in Hy' by done. simpl in Hy'. by rewrite andb_false_r in Hy'.
  - simplify_eq. destruct (IH x') as [-> ->]; naive_solver.
Qed.

Lemma not_free_split c x y s : free c s = true -> s <> x +:+ String c y.
Proof.
  intros Hs ->. rewrite free_app in Hs. simpl in Hs.
  rewrite bool_decide_eq_true_2 in Hs by done. simpl in Hs. by rewrite andb_false_r in Hs.
Qed.

(** ** Numbers and keys *)

Lemma free_pretty_go c n s :
  (forall d, pretty_N_char d <> c) -> free c s = true -> free c (pretty_N_go n s) = true.
Proof.
  intros Hc. revert s. induction (N.lt_wf_0 n) as [n _ IH]; intros s Hs.
  destruct (decide (n = 0)) as [->|Hn]; [by rewrite pretty_N_go_0|].
  rewrite pretty_N_go_step by lia. apply IH; [apply N.div_lt; lia|].
  simpl. rewrite bool_decide_eq_false_2; [done|]. intros ->. by destruct (Hc (n mod 10)).
Qed.

Lemma pretty_char_dot d : pretty_N_char d <> dot.
Proof. unfold pretty_N_char. by repeat case_match. Qed.
Lemma pretty_char_dash d : pretty_N_char d <> dash.
Proof. unfold pretty_N_char. by repeat case_match. Qed.

Lemma free_pretty c (n : N) :
  (forall d, pretty_N_char d <> c) -> free c (pretty n) = true.
Proof.
  intros Hc. unfold pretty, pretty_N. case_decide.
  - simpl. rewrite bool_decide_eq_false_2; [done|]. intros ->. by destruct (Hc 0).
  - by apply free_pretty_go.
Qed.

Lemma free_hex c n :
  c = dot \/ c = dash -> free c (hex_text n) = true.
Proof.
  intros Hc. unfold hex_text. generalize (N.to_hex_uint n). intros u.
  induction u; simpl; try (rewrite bool_decide_eq_false_2; [done|by destruct Hc as [-> | ->]]). done.
Qed.

Lemma hex_text_inj m n : hex_text m = hex_text n -> m = n.
Proof.
  unfold hex_text. intros H. apply Unsigned.to_uint_inj.
  apply (f_equal NilEmpty.uint_of_string) in H. rewrite !NilEmpty.usu in H. congruence.
Qed.

Lemma CacheKey_display_free k : free dot (CacheKey_display k) = true.
Proof.
  unfold CacheKey_display, digest_display. apply free_string_of_list_byte.
  induction (digest_bytes (key_digest k)) as [|b bs IH]; [by constructor|].
  simpl. rewrite !Forall_cons. split_and!; [| |done]; destruct b; by vm_compute.
Qed.

(** ** Tokens *)

Lemma token_text_dot pid nanos sequence : free dot (token_text pid nanos sequence) = true.
Proof.
  unfold token_text. rewrite !free_app, !free_hex by auto.
  by rewrite (free_pretty dot pid pretty_char_dot).
Qed.

Lemma token_text_inj pid nanos sequence pid' nanos' sequence' :
  token_text pid nanos sequence = token_text pid' nanos' sequence' ->
  pid = pid' /\ sequence = sequence'.
Proof.
  unfold token_text. intros H.
  apply (split_left dash) in H as [Hp H]; [|apply free_pretty, pretty_char_dash..].
  apply (split_left dash) in H as [_ Hs]; [|apply free_hex; auto..].
  split; [by apply (inj pretty)|by apply hex_text_inj].
Qed.

(** ** Shapes *)

(** The part after the last dot. *)
Lemma staging_name_split k t :
  staging_name k t = ("." +:+ CacheKey_display k) +:+ String dot ("tmp-" +:+ t).
Proof. unfold staging_name. by rewrite <-string_app_assoc. Qed.
Lemma lease_name_split k : lease_name k = ("." +:+ CacheKey_display k) +:+ String dot "lease".
Proof. unfold lease_name. by rewrite <-string_app_assoc. Qed.
Lemma evicted_name_split k t :
  evicted_name k t = ("." +:+ CacheKey_display k) +:+ String dot ("evicted-" +:+ t).
Proof. unfold evicted_name. by rewrite <-string_app_assoc. Qed.
Lemma previous_name_split s t :
  previous_name s t = ("." +:+ s) +:+ String dot ("previous-" +:+ t).
Proof. unfold previous_name. by rewrite <-string_app_assoc. Qed.
Lemma reaped_name_split s t : reaped_name s t = s +:+ String dot ("reap-" +:+ t).
Proof. done. Qed.

(** A staging directory of some process. *)
Definition staging_like (s : string) : Prop :=
  exists k pid nanos sequence, s = staging_name k (token_text pid nanos sequence).

Lemma staging_name_inj k pid nanos sequence k' pid' nanos' sequence' :
  staging_name k (token_text pid nanos sequence) = staging_name k' (token_text pid' nanos' sequence') ->
  pid = pid' /\ sequence = sequence'.
Proof.
  rewrite !staging_name_split. intros H.
  apply (split_right dot) in H as [_ H]; [|rewrite free_app, token_text_dot; done..].
  simpl in H. simplify_eq. by eapply token_text_inj.
Qed.

Lemma not_staging_like x y :
  free dot y = true -> String.prefix "tmp-" y = false -> ~ staging_like (x +:+ String dot y).
Proof.
  intros Hy Hp (k & pid & nanos & sequence & H). rewrite staging_name_split in H.
  apply (split_right dot) in H as [_ ->]; [|done|by rewrite free_app, token_text_dot].
  by destruct (token_text pid nanos sequence).
Qed.

Lemma dotless_not_staging_like s : free dot s = true -> ~ staging_like s.
Proof.
  intros Hs (k & pid & nanos & sequence & ->). rewrite staging_name_split in Hs.
  by apply (not_free_split _ _ _ _ Hs eq_refl).
Qed.

(** ** Markers *)

Lemma contains_cons p c s :
  contains p (String c s) = String.prefix p (String c s) || contains p s.
Proof.
  unfold contains. destruct (String.prefix p (String c s)) eqn:E.
  - destruct p; [done|]. cbn [String.index]. by rewrite E.
  - destruct p; [done|]. cbn [String.index]. rewrite E. by destruct (String.index 0 _ s).
Qed.

Lemma prefix_cons c p d s :
  String.prefix (String c p) (String d s) = bool_decide (c = d) && String.prefix p s.
Proof.
  cbn [String.prefix]. destruct (Ascii.ascii_dec c d) as [->|]; [|by rewrite bool_decide_eq_false_2].
  by rewrite bool_decide_eq_true_2.
Qed.

Lemma prefix_before c p x y :
  free c p = true -> String.prefix p (x +:+ String c y) = String.prefix p x.
Proof.
  revert x. induction p as [|d p IH]; intros x Hfree; [by destruct x|]. simpl in Hfree.
  apply andb_true_iff in Hfree as [Hd Hp]. bool_to_prop. destruct x as [|e x].
  - rewrite string_app_nil, prefix_cons, bool_decide_eq_false_2 by congruence. done.
  - by rewrite string_app_cons, !prefix_cons, IH.
Qed.

(** A pattern whose first character occurs only there occurs before or after
    such a character, or starts with it. *)
Lemma contains_app c p x y :
  free c p = true ->
  contains (String c p) (x +:+ String c y) =
  contains (String c p) x || String.prefix p y || contains (String c p) y.
Proof.
  intros Hp. induction x as [|d x IH].
  - rewrite string_app_nil, contains_cons, prefix_cons, bool_decide_eq_true_2 by done. done.
  - rewrite string_app_cons, !contains_cons, IH, !prefix_cons, prefix_before by done. by rewrite !orb_assoc.
Qed.

Lemma contains_free c p s : free c s = true -> contains (String c p) s = false.
Proof.
  induction s as [|d s IH]; intros H; [done|]. simpl in H. apply andb_true_iff in H as [Hd Hs].
  bool_to_prop. rewrite contains_cons, prefix_cons, bool_decide_eq_false_2, IH by congruence. done.
Qed.

(** A name with the marker of a replaced generation is made by
    [previous_name]. *)
Definition tidy_name (s : string) : Prop :=
  contains REPLACEMENT_MARKER s = true -> exists k t, s = previous_name (CacheKey_display k) t.

Lemma marker_split x y :
  free dot y = true ->
  contains REPLACEMENT_MARKER (x +:+ String dot y) =
  contains REPLACEMENT_MARKER x || String.prefix "previous-" y.
Proof.
  intros Hy. unfold REPLACEMENT_MARKER. change ".previous-"%string with (String dot "previous-").
  rewrite contains_app by done. by rewrite (contains_free dot _ y), orb_false_r.
Qed.

Lemma key_no_marker k : contains REPLACEMENT_MARKER ("." +:+ CacheKey_display k) = false.
Proof.
  change ("." +:+ CacheKey_display k) with ("" +:+ String dot (CacheKey_display k)).
  rewrite marker_split by apply CacheKey_display_free. simpl.
  unfold CacheKey_display, digest_display.
  destruct (digest_bytes (key_digest k)) as [|b bs]; [done|]. by destruct b.
Qed.

Lemma staging_no_marker s : staging_like s -> contains REPLACEMENT_MARKER s = false.
Proof.
  intros (k & pid & nanos & sequence & ->).
  rewrite staging_name_split, marker_split, key_no_marker by (by rewrite free_app, token_text_dot).
  done.
Qed.

Lemma marker_not_staging s : contains REPLACEMENT_MARKER s = true -> ~ staging_like s.
Proof. intros H Hs%staging_no_marker. congruence. Qed.

Lemma lease_no_marker k : contains REPLACEMENT_MARKER (lease_name k) = false.
Proof. by rewrite lease_name_split, marker_split, key_no_marker. Qed.
Lemma evicted_no_marker k pid nanos sequence :
  contains REPLACEMENT_MARKER (evicted_name k (token_text pid nanos sequence)) = false.
Proof.
  rewrite evicted_name_split, marker_split, key_no_marker by (by rewrite free_app, token_text_dot).
  done.
Qed.
Lemma reaped_no_marker s pid nanos sequence :
  contains REPLACEMENT_MARKER (reaped_name s (token_text pid nanos sequence)) =
  contains REPLACEMENT_MARKER s.
Proof.
  rewrite reaped_name_split, marker_split by (by rewrite free_app, token_text_dot).
  by rewrite orb_false_r.
Qed.
Lemma display_no_marker k : contains REPLACEMENT_MARKER (CacheKey_display k) = false.
Proof. apply contains_free, CacheKey_display_free. Qed.

(** ** Prefixes and suffixes *)

Lemma string_prefix_app p s : String.prefix p s = true -> exists t, s = p +:+ t.
Proof.
  revert s. induction p as [|c p IH]; intros s H; [by exists s|]. destruct s as [|d s]; [done|].
  rewrite prefix_cons in H. apply andb_true_iff in H as [Hc Hp]. bool_to_prop. subst d.
  destruct (IH s Hp) as [t ->]. by exists t.
Qed.

Lemma prefix_self p t : String.prefix p (p +:+ t) = true.
Proof.
  induction p as [|c p IH]; [by destruct t|].
  by rewrite string_app_cons, prefix_cons, bool_decide_eq_true_2, IH.
Qed.

Lemma contains_inside x p t : contains p (x +:+ p +:+ t) = true.
Proof.
  induction x as [|c x IH].
  - rewrite string_app_nil. pose proof (prefix_self p t) as Hq. destruct (p +:+ t) eqn:E.
    + by destruct p.
    + by rewrite contains_cons, Hq.
  - by rewrite string_app_cons, contains_cons, IH, orb_true_r.
Qed.

Lemma substring_whole s : String.substring 0 (String.length s) s = s.
Proof. induction s as [|c s IH]; simpl; [done|by f_equal]. Qed.

Lemma substring_split n s :
  (n <= String.length s)%nat ->
  s = String.substring 0 n s +:+ String.substring n (String.length s - n) s.
Proof.
  revert s. induction n as [|n IH]; intros s Hn.
  - rewrite Nat.sub_0_r, substring_whole. by destruct s.
  - destruct s as [|c s]; simpl in Hn; [lia|]. simpl.
    rewrite string_app_cons. f_equal. apply IH. lia.
Qed.

Lemma ends_with_app p s : ends_with p s = true -> exists x, s = x +:+ p.
Proof.
  unfold ends_with. intros [Hl He]%andb_true_iff. bool_to_prop. apply Nat.leb_le in Hl.
  eexists. rewrite <-He at 1.
  rewrite (substring_split (String.length s - String.length p) s) at 1 by lia.
  by replace (String.length s - (String.length s - String.length p))%nat with (String.length p) by lia.
Qed.

Lemma split_first_found c p x t :
  free c x = true -> split_first (String c p) (x +:+ String c p +:+ t) = x.
Proof.
  intros Hx. unfold split_first.
  assert (String.index 0 (String c p) (x +:+ String c p +:+ t) = Some (String.length x)) as ->.
  { induction x as [|d x IH].
    - pose proof (prefix_self (String c p) t) as H.
      rewrite string_app_nil, string_app_cons in *. cbn [String.index]. by rewrite H.
    - simpl in Hx. apply andb_true_iff in Hx as [Hd Hx]. bool_to_prop.
      rewrite string_app_cons. cbn [String.index String.length].
      by rewrite prefix_cons, bool_decide_eq_false_2, IH by congruence. }
  clear Hx. induction x as [|d x IH]; [done|]. rewrite string_app_cons. simpl. by f_equal.
Qed.

Lemma replaced_key k t :
  split_first REPLACEMENT_MARKER (CacheKey_display k +:+ REPLACEMENT_MARKER +:+ t) = CacheKey_display k.
Proof. apply (split_first_found dot "previous-"), CacheKey_display_free. Qed.
