(* ===== verification/Interference.v ===== *)
(** * Programs that share a file system

    A logic for the programs of the cache when others run between any two of
    their calls. [Local] is what one program has of its own: the tokens it drew,
    the files it may still write, and the files whose bytes it relies on.
    [guarantee] is what each of its calls does to the file system, [rely] what
    it may assume of the calls of others, and [wp] says that a program keeps its
    guarantee and ends in a given condition. *)


From S2P Require Import Prelude Errors Tensor Identity FileReader FileSystem Cache CacheNames.
From stdpp Require Import strings gmap.
Local Open Scope N_scope.

(** The names of the files that the cache creates. *)
Definition sealed_name (s : string) : Prop := s = PAYLOAD_FILE \/ s = METADATA_FILE.
Definition special_name (s : string) : Prop :=
  sealed_name s \/ s = OWNER_FILE \/ s = HEARTBEAT_FILE.

Definition sealed_born (w : World) (i : nat) : Prop :=
  exists s, born w !! i = Some s /\ sealed_name s.

Definition sequence_of (w : World) (pid : N) : N := default 0 (counters w !! pid).

(** The counter of a process has not wrapped. *)
Definition roomy (pid : N) (w : World) : Prop := sequence_of w pid + 1 < 2 ^ 64.

#[export] Instance roomy_dec pid w : Decision (roomy pid w) := N.lt_dec _ _.

(** What a listing may show. *)
Definition oracle_ok (o : Oracle) : Prop := forall l x, x ∈ listing o l -> x ∈ l.

Record Local := {
  sequences : gset N;
  unsealed : gset nat;
  known : gset nat
}.

Definition no_locals : Local := {| sequences := ∅; unsealed := ∅; known := ∅ |}.

Section Interference.
Context (sha256 : bytes -> bytes) (from_slice : bytes -> option CacheEnvelope).
Context (level : nat).
Implicit Types (w : World) (l : Local).

(** ** The invariant of the file system *)

(** Every file whose envelope can be read describes the payload beside it. *)
Record consistent w : Prop := {
  consistent_closed q n :
    nodes w !! q = Some n -> q <> [] /\ node_at w (removelast q) = Some DirNode;
  consistent_inode q i : nodes w !! q = Some (FileNode i) -> (i < next_inode w)%nat;
  consistent_unique p q i :
    nodes w !! p = Some (FileNode i) -> nodes w !! q = Some (FileNode i) -> p = q;
  consistent_born q i name :
    nodes w !! q = Some (FileNode i) -> last q = Some name -> special_name name ->
    born w !! i = Some name;
  consistent_tidy q n name :
    nodes w !! q = Some n -> q !! level = Some name -> tidy_name name;
  consistent_payload d m p e :
    nodes w !! (d ++ [METADATA_FILE]) = Some (FileNode m) ->
    nodes w !! (d ++ [PAYLOAD_FILE]) = Some (FileNode p) ->
    from_slice (inode_bytes w m) = Some e ->
    N.of_nat (length (inode_bytes w p)) = envelope_payload_len e /\
    from_bytes (sha256 (inode_bytes w p)) = envelope_payload_digest e
}.

(** ** Ownership *)

Section Process.
Context (pid : N).

(** A staging directory whose token this program drew. *)
Definition own l (name : string) : Prop :=
  exists k nanos sequence,
    name = staging_name k (token_text pid nanos sequence) /\ sequence ∈ sequences l.

(** A path inside the staging directory of another program. *)
Definition foreign l (q : path) : Prop :=
  exists name, q !! level = Some name /\ staging_like name /\ ~ own l name.

Definition outside (q : path) : Prop :=
  forall name, q !! level = Some name -> ~ staging_like name.

Record owned_ok l w : Prop := {
  owned_sequences s : s ∈ sequences l -> s < sequence_of w pid;
  owned_known i : i ∈ known l -> (i < next_inode w)%nat /\ sealed_born w i;
  owned_apart i : i ∈ known l -> i ∉ unsealed l;
  owned_unsealed i :
    i ∈ unsealed l -> (i < next_inode w)%nat /\ sealed_born w i /\
    forall q, nodes w !! q = Some (FileNode i) ->
      exists name, q !! level = Some name /\ own l name
}.

Record guarantee l w l' w' : Prop := {
  g_consistent : consistent w';
  g_owned : owned_ok l' w';
  g_sequences s : s ∈ sequences l' -> s ∈ sequences l \/ sequence_of w pid <= s;
  g_counters q : sequence_of w q <= sequence_of w' q;
  g_next : (next_inode w <= next_inode w')%nat;
  g_born i : (i < next_inode w)%nat -> born w' !! i = born w !! i;
  g_bytes i :
    (i < next_inode w)%nat -> i ∉ unsealed l -> sealed_born w i -> inode_bytes w' i = inode_bytes w i;
  g_unsealed i : i ∈ unsealed l' -> i ∈ unsealed l \/ (next_inode w <= i)%nat;
  g_known i :
    i ∈ known l' -> i ∈ known l \/ exists q, nodes w !! q = Some (FileNode i) /\ outside q;
  g_new q n : nodes w' !! q = Some n -> nodes w !! q = Some n \/ ~ foreign l' q;
  g_links q i :
    nodes w' !! q = Some (FileNode i) ->
    nodes w !! q = Some (FileNode i) \/ (next_inode w <= i)%nat \/
    exists p, nodes w !! p = Some (FileNode i) /\ ~ foreign l p
}.

Record rely l w w' : Prop := {
  r_consistent : consistent w';
  r_owned : owned_ok l w';
  r_next : (next_inode w <= next_inode w')%nat;
  r_counters : sequence_of w pid <= sequence_of w' pid;
  r_born i : (i < next_inode w)%nat -> born w' !! i = born w !! i;
  r_bytes i : i ∈ unsealed l \/ i ∈ known l -> inode_bytes w' i = inode_bytes w i;
  r_nodes q n name :
    q !! level = Some name -> own l name -> nodes w' !! q = Some n -> nodes w !! q = Some n
}.

Lemma rely_refl l w : consistent w -> owned_ok l w -> rely l w w.
Proof. by split. Qed.

Lemma rely_trans l w1 w2 w3 : rely l w1 w2 -> rely l w2 w3 -> rely l w1 w3.
Proof.
  intros H1 H2. split.
  - apply H2.
  - apply H2.
  - etrans; [apply H1|apply H2].
  - etrans; [apply H1|apply H2].
  - intros i Hi. rewrite (r_born _ _ _ H2), (r_born _ _ _ H1); [done..|].
    pose proof (r_next _ _ _ H1). lia.
  - intros i Hi. by rewrite (r_bytes _ _ _ H2), (r_bytes _ _ _ H1).
  - intros q n name Hq Ho Hn. eapply (r_nodes _ _ _ H1), (r_nodes _ _ _ H2); eauto.
Qed.

(** ** Programs *)

Fixpoint wp {A} (m : Prog A) (Q : result A -> Local -> World -> Prop) l w : Prop :=
  match m with
  | Ret r => Q r l w
  | Running => True
  | Act a k => forall w1 o, rely l w w1 -> oracle_ok o -> roomy pid w1 ->
      exists l', guarantee l w1 l' (snd (serve pid o a w1)) /\
        wp (k (fst (serve pid o a w1))) Q l' (snd (serve pid o a w1))
  end.

Lemma wp_weaken {A} (m : Prog A) (P Q : result A -> Local -> World -> Prop) l w :
  wp m P l w -> (forall r l w, P r l w -> Q r l w) -> wp m Q l w.
Proof.
  intros H HPQ. revert l w H. induction m as [r| |a k IH]; intros l w H; [by apply HPQ|done|].
  intros w1 o Hr Ho Hroom. destruct (H w1 o Hr Ho Hroom) as (l' & Hg & Hk). exists l'.
  split; [done|]. by apply IH.
Qed.

Lemma wp_and_then {A B} (m : Prog A) (f : result A -> Prog B) Q l w :
  wp m (fun r l w => wp (f r) Q l w) l w -> wp (and_then m f) Q l w.
Proof.
  revert l w. induction m as [r| |a k IH]; intros l w H; [done|done|].
  intros w1 o Hr Ho Hroom. destruct (H w1 o Hr Ho Hroom) as (l' & Hg & Hk). exists l'.
  split; [done|]. by apply IH.
Qed.

(** A condition that the calls of others keep. *)
Definition stable {A} (Q : result A -> Local -> World -> Prop) : Prop :=
  forall r l w w', rely l w w' -> Q r l w -> Q r l w'.

Lemma wp_stable {A} (m : Prog A) Q l w w' :
  stable Q -> rely l w w' -> wp m Q l w -> wp m Q l w'.
Proof.
  intros HQ Hr. destruct m as [r| |a k]; [by apply HQ|done|].
  intros H w1 o Hr1. apply H. by eapply rely_trans.
Qed.

(** ** What calls do *)

Lemma guarantee_refl l w : consistent w -> owned_ok l w -> guarantee l w l w.
Proof. intros Hc Ho. split; try done; auto. Qed.

Lemma guarantee_trans l w1 w2 w3 :
  guarantee l w1 l w2 -> guarantee l w2 l w3 -> guarantee l w1 l w3.
Proof.
  intros H1 H2. pose proof (g_next _ _ _ _ H1) as Hn. split; try apply H2.
  - auto.
  - intros q. etrans; [apply H1|apply H2].
  - etrans; [apply H1|apply H2].
  - intros i Hi. rewrite (g_born _ _ _ _ H2), (g_born _ _ _ _ H1); [done|done|lia].
  - intros i Hi Hu Hs. rewrite (g_bytes _ _ _ _ H2), (g_bytes _ _ _ _ H1); try done; [lia|].
    destruct Hs as (s & Hs & ?). exists s. by rewrite (g_born _ _ _ _ H1).
  - auto.
  - auto.
  - intros q n Hq. destruct (g_new _ _ _ _ H2 _ _ Hq) as [Hq'|?]; [|by right].
    by apply (g_new _ _ _ _ H1).
  - intros q i Hq. destruct (g_links _ _ _ _ H2 _ _ Hq) as [Hq'|[Hi|(p & Hp & Hf)]].
    + by apply (g_links _ _ _ _ H1).
    + right. left. lia.
    + destruct (g_links _ _ _ _ H1 _ _ Hp) as [Hp'|?]; [|tauto]. right. right. eauto.
Qed.

(** A call that changes nothing but removes names. *)
Lemma guarantee_shrink l w w' :
  consistent w -> owned_ok l w ->
  inodes w' = inodes w -> born w' = born w -> next_inode w' = next_inode w ->
  counters w' = counters w ->
  (forall q n, nodes w' !! q = Some n -> nodes w !! q = Some n) ->
  (forall q n, nodes w' !! q = Some n -> node_at w' (removelast q) = Some DirNode) ->
  guarantee l w l w'.
Proof.
  intros Hc Ho Hi Hb Hn Ht Hsub Hclosed.
  assert (forall i, inode_bytes w' i = inode_bytes w i) as Hbytes by (unfold inode_bytes; by rewrite Hi).
  assert (forall q, sequence_of w' q = sequence_of w q) as Hseq by (unfold sequence_of; by rewrite Ht).
  split; try (intros; rewrite ?Hn, ?Hb, ?Hseq; by auto); auto.
  - split.
    + intros q n Hq. split; [|by eapply Hclosed]. by eapply consistent_closed, Hsub.
    + intros q i Hq. rewrite Hn. by eapply consistent_inode, Hsub.
    + intros p q i Hp Hq. eapply consistent_unique; eauto.
    + intros q i name Hq. rewrite Hb. by eapply consistent_born, Hsub.
    + intros q n name Hq. by eapply consistent_tidy, Hsub.
    + intros d m p e Hm Hp. rewrite !Hbytes. eapply consistent_payload; eauto.
  - split.
    + intros s. rewrite Hseq. apply Ho.
    + intros i. unfold sealed_born. rewrite Hn, Hb. apply Ho.
    + apply Ho.
    + intros i Hi'. unfold sealed_born. rewrite Hn, Hb. apply Ho in Hi' as (? & ? & Hq).
      split_and!; [done|done|]. intros q H'. by apply Hq, Hsub.
Qed.

(** The names of a path that this program may create. *)
Definition path_ok l (q : path) : Prop :=
  forall name, q !! level = Some name -> tidy_name name /\ (staging_like name -> own l name).

Lemma path_ok_not_foreign l q : path_ok l q -> ~ foreign l q.
Proof. intros Hq (name & Hn & Hs & Ho). by apply Ho, (Hq name Hn). Qed.

Lemma node_at_insert w p q n :
  p <> [] -> node_at (set_nodes <[p := n]> w) q = if decide (p = q) then Some n else node_at w q.
Proof.
  intros Hp. destruct q as [|x q]; simpl; [by rewrite decide_False|].
  case_decide as H; [by rewrite H, lookup_insert_eq|by rewrite lookup_insert_ne].
Qed.

Lemma parent_dir_spec w p :
  parent_dir w p = true <-> p <> [] /\ node_at w (removelast p) = Some DirNode.
Proof. destruct p; simpl; [naive_solver|]. rewrite bool_decide_eq_true. naive_solver. Qed.

Lemma removelast_ne (p : path) : p <> [] -> removelast p <> p.
Proof.
  intros Hp He. destruct (path_snoc p Hp) as (x & Hx & _). rewrite He in Hx.
  apply (f_equal length) in Hx. rewrite length_app in Hx. simpl in Hx. lia.
Qed.

Lemma closed_insert w p n :
  consistent w -> parent_dir w p = true -> node_at w p = None ->
  forall q m, <[p := n]> (nodes w) !! q = Some m ->
  q <> [] /\ node_at (set_nodes <[p := n]> w) (removelast q) = Some DirNode.
Proof.
  intros Hc Hp Hn q m Hq. apply parent_dir_spec in Hp as [Hp Hd]. rewrite node_at_insert by done.
  destruct (decide (p = q)) as [<-|Hne].
  - split; [done|]. by rewrite decide_False by (intros ?; by apply (removelast_ne p)).
  - rewrite lookup_insert_ne in Hq by done. apply (consistent_closed _ Hc) in Hq as [? Hq].
    split; [done|]. rewrite decide_False; [done|]. intros ->. congruence.
Qed.

Lemma guarantee_mkdir l w p :
  consistent w -> owned_ok l w -> path_ok l p -> parent_dir w p = true -> node_at w p = None ->
  guarantee l w l (set_nodes <[p := DirNode]> w).
Proof.
  intros Hc Ho Hok Hp Hn. pose proof Hp as [Hp0 _]%parent_dir_spec.
  assert (forall q i, <[p := DirNode]> (nodes w) !! q = Some (FileNode i) ->
    nodes w !! q = Some (FileNode i)) as Hfile.
  { intros q i. destruct (decide (p = q)) as [->|]; [by rewrite lookup_insert_eq|by rewrite lookup_insert_ne]. }
  split; try done; auto.
  - split; simpl.
    + by apply closed_insert.
    + intros q i Hq. by eapply consistent_inode, Hfile.
    + intros q r i Hq Hr. eapply consistent_unique; eauto.
    + intros q i name Hq. by eapply consistent_born, Hfile.
    + intros q n name Hq Hl. destruct (decide (p = q)) as [<-|Hne].
      * by apply (Hok name).
      * rewrite lookup_insert_ne in Hq by done. by eapply consistent_tidy.
    + intros d m r e Hm%Hfile Hr%Hfile. by apply (consistent_payload _ Hc d m r e).
  - split; [apply Ho..|]. intros i Hi. apply Ho in Hi as (? & ? & Hq).
    split_and!; [done..|]. intros q Hq'. by apply Hq, Hfile.
  - simpl. intros q n Hq. destruct (decide (p = q)) as [<-|Hne].
    + right. by apply path_ok_not_foreign.
    + left. by rewrite lookup_insert_ne in Hq.
Qed.

(** The state after [create_file]. *)
Definition with_file w (p : path) (name : string) : World :=
  {| nodes := <[p := FileNode (next_inode w)]> (nodes w);
     inodes := <[next_inode w := []]> (inodes w);
     born := <[next_inode w := name]> (born w); next_inode := S (next_inode w);
     counters := counters w |}.

Lemma with_file_bytes w p name i :
  inode_bytes (with_file w p name) i = if decide (i = next_inode w) then [] else inode_bytes w i.
Proof.
  unfold inode_bytes, with_file. simpl. case_decide as H; [by rewrite H, lookup_insert_eq|].
  by rewrite lookup_insert_ne by congruence.
Qed.

Lemma with_file_nodes w p name q n :
  nodes (with_file w p name) !! q = Some n ->
  (q = p /\ n = FileNode (next_inode w)) \/ (q <> p /\ nodes w !! q = Some n).
Proof.
  simpl. destruct (decide (p = q)) as [<-|Hne]; [rewrite lookup_insert_eq|rewrite lookup_insert_ne by done];
    naive_solver.
Qed.

Lemma METADATA_PAYLOAD : METADATA_FILE <> PAYLOAD_FILE.
Proof. done. Qed.

Lemma with_file_consistent w l p name :
  consistent w -> path_ok l p -> parent_dir w p = true -> node_at w p = None ->
  last p = Some name -> special_name name -> from_slice [] = None ->
  (forall m, name = PAYLOAD_FILE ->
     nodes w !! (removelast p ++ [METADATA_FILE]) <> Some (FileNode m)) ->
  consistent (with_file w p name).
Proof.
  intros Hc Hok Hp Hn Hlast Hspecial Hnil Hmeta.
  pose proof Hp as [Hp0 _]%parent_dir_spec.
  assert (forall q i, nodes w !! q = Some (FileNode i) -> i <> next_inode w) as Hfresh.
  { intros q i Hq ->. apply (consistent_inode _ Hc) in Hq. lia. }
  split.
  - intros q n Hq. change (nodes (with_file w p name)) with (<[p := FileNode (next_inode w)]> (nodes w)) in Hq.
    by destruct (closed_insert w p (FileNode (next_inode w)) Hc Hp Hn q n Hq).
  - intros q i [[-> [= ->]]|[_ Hq]]%with_file_nodes; simpl; [lia|].
    apply (consistent_inode _ Hc) in Hq. lia.
  - intros q r i [[-> Hi]|[Hq Hi]]%with_file_nodes [[-> Hj]|[Hr Hj]]%with_file_nodes; simplify_eq;
      [done|by apply Hfresh in Hj|by apply Hfresh in Hi|by eapply consistent_unique].
  - intros q i s [[-> [= ->]]|[_ Hq]]%with_file_nodes Hs Hsp; simpl.
    + rewrite lookup_insert_eq. congruence.
    + rewrite lookup_insert_ne by (intros <-; by eapply Hfresh). by eapply consistent_born.
  - intros q n s [[-> _]|[_ Hq]]%with_file_nodes Hs; [by apply (Hok s)|by eapply consistent_tidy].
  - intros d m r e Hm Hr. rewrite !with_file_bytes.
    apply with_file_nodes in Hm as [[Hd [= ->]]|[_ Hm]].
    + rewrite decide_True by done. by rewrite Hnil.
    + rewrite decide_False by (by eapply Hfresh).
      apply with_file_nodes in Hr as [[<- [= ->]]|[_ Hr]].
      * rewrite last_snoc in Hlast. rewrite removelast_snoc in Hmeta. simplify_eq.
        by destruct (Hmeta m eq_refl).
      * rewrite decide_False by (by eapply Hfresh). by apply (consistent_payload _ Hc d m r e).
Qed.

(** A program keeps the right to write the payload or envelope it creates. *)
Definition own_file (name : string) (i : nat) l : Local :=
  if decide (name = PAYLOAD_FILE \/ name = METADATA_FILE)
  then {| sequences := sequences l; unsealed := {[i]} ∪ unsealed l; known := known l |} else l.

Lemma guarantee_create l w p name :
  consistent w -> owned_ok l w -> path_ok l p -> parent_dir w p = true -> node_at w p = None ->
  last p = Some name -> special_name name -> from_slice [] = None ->
  (forall m, name = PAYLOAD_FILE ->
     nodes w !! (removelast p ++ [METADATA_FILE]) <> Some (FileNode m)) ->
  (sealed_name name -> exists s, p !! level = Some s /\ own l s) ->
  guarantee l w (own_file name (next_inode w) l) (with_file w p name).
Proof.
  intros Hc Ho Hok Hp Hn Hlast Hspecial Hnil Hmeta Hown.
  assert (sequences (own_file name (next_inode w) l) = sequences l) as Hs
    by (unfold own_file; by case_decide).
  assert (known (own_file name (next_inode w) l) = known l) as Hk
    by (unfold own_file; by case_decide).
  assert (forall i, i ∈ unsealed (own_file name (next_inode w) l) ->
    i ∈ unsealed l \/ i = next_inode w /\ sealed_name name) as Hu.
  { intros i. unfold own_file, sealed_name. case_decide; simpl; [|by left]. set_solver. }
  assert (forall s, own l s -> own (own_file name (next_inode w) l) s) as Hmono.
  { intros s (k & nanos & sequence & -> & ?). unfold own. rewrite Hs. eauto. }
  assert (forall q, sequence_of (with_file w p name) q = sequence_of w q) as Hseq by done.
  assert (forall i, (i < next_inode w)%nat -> born (with_file w p name) !! i = born w !! i) as Hborn.
  { intros i Hi. simpl. by rewrite lookup_insert_ne by lia. }
  assert (forall i, (i < next_inode w)%nat -> sealed_born w i -> sealed_born (with_file w p name) i)
    as Hsealed.
  { intros i Hi (s & Hb & ?). exists s. by rewrite Hborn. }
  split.
  - by eapply with_file_consistent.
  - split.
    + intros s. rewrite Hs, Hseq. apply Ho.
    + intros i. rewrite Hk. intros [Hi ?]%(owned_known _ _ Ho). simpl. split; [lia|by apply Hsealed].
    + intros i. rewrite Hk. intros Hi [Hi'|[-> _]]%Hu; [by apply (owned_apart _ _ Ho i)|].
      apply (owned_known _ _ Ho) in Hi. lia.
    + intros i [(Hi & Hb & Hq)%(owned_unsealed _ _ Ho)|[-> Hname]]%Hu; simpl.
      * split; [lia|split; [by apply Hsealed|]].
        intros q [[-> [= ->]]|[_ H']]%(with_file_nodes w p name); [lia|]. naive_solver.
      * split; [lia|split].
        { exists name. simpl. by rewrite lookup_insert_eq. }
        intros q [[-> _]|[_ H']]%(with_file_nodes w p name); [naive_solver|].
        apply (consistent_inode _ Hc) in H'. lia.
  - intros s. rewrite Hs. by left.
  - done.
  - simpl. lia.
  - done.
  - intros i Hi _ _. rewrite with_file_bytes, decide_False by lia. done.
  - intros i [?|[-> _]]%Hu; [by left|by right].
  - intros i. rewrite Hk. by left.
  - intros q n [[-> _]|[_ Hq]]%with_file_nodes; [right|by left].
    apply path_ok_not_foreign. intros s H'. destruct (Hok s H') as [? Hst]. split; [done|].
    intros Hlike. by apply Hmono, Hst.
  - intros q i [[-> [= ->]]|[_ Hq]]%with_file_nodes; [by right; left|by left].
Qed.

Lemma set_bytes_bytes i bs w j :
  inode_bytes (set_bytes i bs w) j = if decide (j = i) then bs else inode_bytes w j.
Proof.
  unfold inode_bytes, set_bytes. simpl. case_decide as H; [by rewrite H, lookup_insert_eq|].
  by rewrite lookup_insert_ne by congruence.
Qed.

Lemma guarantee_write l w i bs :
  consistent w -> owned_ok l w ->
  (~ sealed_born w i \/ i ∈ unsealed l) ->
  (forall d m p e,
     nodes w !! (d ++ [METADATA_FILE]) = Some (FileNode m) ->
     nodes w !! (d ++ [PAYLOAD_FILE]) = Some (FileNode p) -> m = i \/ p = i ->
     from_slice (inode_bytes (set_bytes i bs w) m) = Some e ->
     N.of_nat (length (inode_bytes (set_bytes i bs w) p)) = envelope_payload_len e /\
     from_bytes (sha256 (inode_bytes (set_bytes i bs w) p)) = envelope_payload_digest e) ->
  guarantee l w l (set_bytes i bs w).
Proof.
  intros Hc Ho Hi Hpay. split; try done; auto.
  - split; try apply Hc. intros d m p e Hm Hp.
    destruct (decide (m = i \/ p = i)) as [Hd|Hd]; [by apply (Hpay d)|].
    rewrite !set_bytes_bytes, !decide_False by naive_solver. by apply (consistent_payload _ Hc d).
  - split; apply Ho.
  - intros j _ Hj Hs. rewrite set_bytes_bytes, decide_False; [done|]. intros ->. naive_solver.
Qed.

(** Heartbeats and owners are written by whoever holds a handle. *)
Lemma guarantee_write_plain l w i bs name :
  consistent w -> owned_ok l w ->
  born w !! i = Some name -> special_name name -> ~ sealed_name name ->
  guarantee l w l (set_bytes i bs w).
Proof.
  intros Hc Ho Hb Hsp Hs. apply guarantee_write; [done..| |].
  - left. intros (s & ? & ?). naive_solver.
  - intros d m p e Hm Hp Hi. exfalso. apply Hs.
    assert (forall f j, nodes w !! (d ++ [f]) = Some (FileNode j) -> sealed_name f -> j = i -> name = f)
      as H.
    { intros f j Hf Hsf ->. apply (consistent_born _ Hc _ _ f) in Hf; [congruence|apply last_snoc|by left]. }
    destruct Hi as [Hi|Hi]; [rewrite (H _ _ Hm); [by right|by right|done]|].
    rewrite (H _ _ Hp); [by left|by left|done].
Qed.

(** What a program owns after its staging directory has become an entry. *)
Definition handed_over l : Local := {| sequences := sequences l; unsealed := ∅; known := known l |}.

Lemma rename_level (d : path) (n : string) s :
  length d = level -> ((d ++ [n]) ++ s) !! level = Some n.
Proof.
  intros Hd. rewrite <-app_assoc, lookup_app_r by lia. by rewrite Hd, Nat.sub_diag.
Qed.

Section Rename.
Context (l l' : Local) (w : World) (dp dq : path) (np nq : string).
Let p := dp ++ [np].
Let q := dq ++ [nq].
Context (Hc : consistent w) (Ho : owned_ok l w).
Context (Hdp : length dp = level) (Hdq : length dq = level) (Hpq : p <> q).
Context (Hparent : node_at w dq = Some DirNode).
Context (Htidy : tidy_name nq) (Hspecial : ~ special_name nq) (Hnq : staging_like nq -> own l nq).
Context (Hl' : ~ staging_like np /\ l' = l \/ own l np /\ l' = handed_over l).

Lemma rename_apart : under p q = false /\ under q p = false.
Proof using Hdp Hdq Hpq.
  assert (forall a b : path, length a = length b -> a <> b -> under a b = false) as H.
  { intros a b Hlen Hne. destruct (under a b) eqn:E; [|done]. apply under_spec in E as [s ->].
    rewrite length_app in Hlen. destruct s; [by rewrite app_nil_r in Hne|simpl in Hlen; lia]. }
  split; apply H; unfold p, q in *; try congruence; rewrite !length_app; simpl; lia.
Qed.

Lemma rename_nodes r n :
  nodes (set_nodes (move p q) w) !! r = Some n ->
  (exists s, r = q ++ s /\ nodes w !! (p ++ s) = Some n) \/
  (under q r = false /\ under p r = false /\ nodes w !! r = Some n).
Proof using Hdp Hdq Hpq. destruct rename_apart. by apply move_lookup. Qed.

Lemma rename_shallow (r : path) : (length r <= level)%nat -> under p r = false /\ under q r = false.
Proof using Hdp Hdq.
  intros Hr. split.
  - destruct (under p r) eqn:E; [|done]. apply under_spec in E as [s ->].
    unfold p in Hr. rewrite !length_app in Hr. simpl in Hr. lia.
  - destruct (under q r) eqn:E; [|done]. apply under_spec in E as [s ->].
    unfold q in Hr. rewrite !length_app in Hr. simpl in Hr. lia.
Qed.

Lemma rename_closed r n :
  nodes (set_nodes (move p q) w) !! r = Some n ->
  r <> [] /\ node_at (set_nodes (move p q) w) (removelast r) = Some DirNode.
Proof using Hc Hdp Hdq Hparent Hpq.
  destruct rename_apart as [Ha Hb]. intros [(s & -> & Hr)|(Hq & Hp & Hr)]%rename_nodes.
  - split; [unfold q; by destruct dq|]. destruct s as [|x s].
    + rewrite app_nil_r. unfold q. rewrite removelast_snoc.
      destruct (decide (dq = [])) as [E|E]; [by rewrite E|]. rewrite node_at_nodes by done.
      pose proof Hparent as Hdir. rewrite node_at_nodes in Hdir by done.
      apply move_lookup; [done..|]. right. destruct (rename_shallow dq) as [? ?]; [lia|done].
    + apply (consistent_closed _ Hc) in Hr as [_ Hr]. rewrite removelast_app in * by done.
      rewrite node_at_nodes in Hr by (unfold p; by destruct dp).
      rewrite node_at_nodes by (unfold q; by destruct dq). simpl.
      apply move_lookup; [done..|]. left. eauto.
  - apply (consistent_closed _ Hc) in Hr as [Hr0 Hr]. split; [done|].
    destruct (removelast r) as [|y d] eqn:E; [done|]. rewrite node_at_nodes in * by done. simpl.
    apply move_lookup; [done..|]. right.
    destruct (path_snoc r Hr0) as (x & Hx & _). rewrite E in Hx. split_and!; [| |done].
    + destruct (under q (y :: d)) eqn:Eu; [|done]. apply under_spec in Eu as [s Hs].
      rewrite Hx, Hs, <-app_assoc, under_app in Hq. done.
    + destruct (under p (y :: d)) eqn:Eu; [|done]. apply under_spec in Eu as [s Hs].
      rewrite Hx, Hs, <-app_assoc, under_app in Hp. done.
Qed.

Lemma rename_last s f : last (q ++ s) = Some f -> special_name f -> last (p ++ s) = Some f.
Proof using Hspecial.
  destruct s as [|x s] using rev_ind; rewrite ?app_nil_r.
  - unfold q. rewrite last_snoc. intros [= <-] Hf. by destruct Hspecial.
  - by rewrite !app_assoc, !last_snoc.
Qed.

(** A special file below [q] lies below it with its directory. *)
Lemma rename_inside d f s :
  special_name f -> d ++ [f] = q ++ s -> exists s', s = s' ++ [f] /\ d = q ++ s'.
Proof using Hspecial.
  intros Hf He. destruct s as [|x s _] using rev_ind.
  - rewrite app_nil_r in He. unfold q in He. apply app_inj_tail in He as [_ ->]. by destruct Hspecial.
  - rewrite app_assoc in He. apply app_inj_tail in He as [-> ->]. eauto.
Qed.

Lemma rename_consistent : consistent (set_nodes (move p q) w).
Proof using Hc Hdp Hdq Hparent Hpq Hspecial Htidy.
  split.
  - apply rename_closed.
  - intros r i [(s & -> & Hr)|(_ & _ & Hr)]%rename_nodes; by eapply (consistent_inode _ Hc).
  - intros r r' i [(s & -> & Hr)|(Hq & Hp & Hr)]%rename_nodes [(s' & -> & Hr')|(Hq' & Hp' & Hr')]%rename_nodes;
      pose proof (consistent_unique _ Hc _ _ _ Hr Hr') as He.
    + by apply app_inv_head in He as ->.
    + subst r'. by rewrite under_app in Hp'.
    + subst r. by rewrite under_app in Hp.
    + done.
  - intros r i f [(s & -> & Hr)|(_ & _ & Hr)]%rename_nodes Hlast Hf.
    + eapply (consistent_born _ Hc); eauto using rename_last.
    + by eapply (consistent_born _ Hc).
  - intros r n f [(s & -> & Hr)|(_ & _ & Hr)]%rename_nodes Hlevel.
    + unfold q in Hlevel. rewrite rename_level in Hlevel by done. by injection Hlevel as <-.
    + by eapply (consistent_tidy _ Hc).
  - intros d m i e Hm Hi. change (inode_bytes (set_nodes (move p q) w)) with (inode_bytes w).
    apply rename_nodes in Hm as [(s & Hs & Hm)|(Hq & Hp & Hm)].
    + apply rename_inside in Hs as (s' & -> & ->); [|left; by right].
      rewrite <-app_assoc in Hi. apply rename_nodes in Hi as [(s & Hs & Hi)|(Hq & _ & _)];
        [|by rewrite under_app in Hq].
      apply app_inv_head in Hs as <-. rewrite app_assoc in Hm, Hi.
      by apply (consistent_payload _ Hc (p ++ s')).
    + apply rename_nodes in Hi as [(s & Hs & Hi)|(_ & _ & Hi)]; [|by apply (consistent_payload _ Hc d)].
      apply rename_inside in Hs as (s' & -> & ->); [|left; by left].
      by rewrite <-app_assoc, under_app in Hq.
Qed.

Lemma guarantee_rename : guarantee l w l' (set_nodes (move p q) w).
Proof using All.
  assert (sequences l' = sequences l /\ known l' = known l) as [Hs Hk].
  { destruct Hl' as [[_ ->]|[_ ->]]; done. }
  assert (forall i, i ∈ unsealed l' -> i ∈ unsealed l /\ ~ staging_like np) as Hu.
  { intros i. destruct Hl' as [[? ->]|[_ ->]]; simpl; [done|]. set_solver. }
  assert (forall s, own l s <-> own l' s) as Hown by (intros s; unfold own; by rewrite Hs).
  split; try done; auto.
  - apply rename_consistent.
  - split.
    + intros s. rewrite Hs. apply Ho.
    + intros i. rewrite Hk. apply Ho.
    + intros i. rewrite Hk. intros Hi [? _]%Hu. by apply (owned_apart _ _ Ho i).
    + intros i [Hi Hnp]%Hu. apply (owned_unsealed _ _ Ho) in Hi as (? & ? & Hq). split_and!; [done..|].
      intros r [(s & -> & Hr)|(_ & _ & Hr)]%rename_nodes.
      * destruct (Hq _ Hr) as (name & Hname & (k & nanos & sequence & -> & _)).
        unfold p in Hname. rewrite rename_level in Hname by done. simplify_eq.
        destruct Hnp. by exists k, pid, nanos, sequence.
      * destruct (Hq _ Hr) as (name & ? & ?). exists name. split; [done|]. by apply Hown.
  - intros s. rewrite Hs. by left.
  - intros i [? _]%Hu. by left.
  - intros i. rewrite Hk. by left.
  - intros r n [(s & -> & Hr)|(_ & _ & Hr)]%rename_nodes; [right|by left].
    intros (name & Hname & Hlike & Hno). unfold q in Hname. rewrite rename_level in Hname by done.
    simplify_eq. by apply Hno, Hown, Hnq.
  - intros r i [(s & -> & Hr)|(_ & _ & Hr)]%rename_nodes; [right; right|by left].
    exists (p ++ s). split; [done|]. intros (name & Hname & Hlike & Hno).
    unfold p in Hname. rewrite rename_level in Hname by done. simplify_eq.
    destruct Hl' as [[? _]|[? _]]; done.
Qed.
End Rename.
End Process.
End Interference.

(** * Rules for the programs of the cache

        [safe m P] says that every call of [m] keeps the guarantee, leaves what the
    program already owns and relies on as it is, and that a value it returns
    satisfies [P]. There is a rule for each way to combine programs and for each
    call of the file system. *)

Section Logic.
Context (sha256 : bytes -> bytes) (from_slice : bytes -> option CacheEnvelope).
Context (level : nat) (pid : N).
Implicit Types (w : World) (l : Local).

Local Notation consistent := (consistent sha256 from_slice level).
Local Notation owned_ok := (owned_ok level pid).
Local Notation rely := (rely sha256 from_slice level pid).
Local Notation guarantee := (guarantee sha256 from_slice level pid).
Local Notation wp := (wp sha256 from_slice level pid).

Definition valid l w : Prop := consistent w /\ owned_ok l w.

Record grows l l' : Prop := {
  grows_sequences : sequences l ⊆ sequences l';
  grows_unsealed : unsealed l' = unsealed l;
  grows_known : known l ⊆ known l'
}.

#[export] Instance grows_preorder : PreOrder grows.
Proof using Type.
  split; [by split|]. intros l1 l2 l3 [] []. split; [set_solver|congruence|set_solver].
Qed.

Lemma own_grows l l' name : grows l l' -> own pid l name -> own pid l' name.
Proof using Type. intros Hg (k & nanos & s & -> & ?). exists k, nanos, s. destruct Hg. set_solver. Qed.

Lemma rely_valid l w w' : rely l w w' -> valid l w'.
Proof using Type. intros H. split; apply H. Qed.

Lemma valid_rely l w : valid l w -> rely l w w.
Proof using Type. intros [? ?]. by apply rely_refl. Qed.

(** What a larger owner may rely on, a smaller one may. *)
Lemma rely_grows l l' w w' : grows l l' -> owned_ok l w -> rely l' w w' -> rely l w w'.
Proof using Type.
  intros Hg Ho H. pose proof Hg as [Hseq Hun Hkn]. split.
  - apply H.
  - split.
    + intros s Hs. apply (owned_sequences _ _ _ _ (r_owned _ _ _ _ _ _ _ H)). set_solver.
    + intros i Hi. apply (owned_known _ _ _ _ (r_owned _ _ _ _ _ _ _ H)). set_solver.
    + intros i Hi. rewrite <-Hun. apply (owned_apart _ _ _ _ (r_owned _ _ _ _ _ _ _ H)). set_solver.
    + intros i Hi. pose proof (owned_unsealed _ _ _ _ (r_owned _ _ _ _ _ _ _ H) i) as Hi'.
      rewrite Hun in Hi'. destruct (Hi' Hi) as (? & ? & Hq). split_and!; [done..|].
      intros q H'. destruct (Hq q H') as (name & Hn & Hown). exists name. split; [done|].
      pose proof (r_nodes _ _ _ _ _ _ _ H q _ name Hn Hown H') as Hold.
      destruct (owned_unsealed _ _ _ _ Ho i Hi) as (_ & _ & Hq').
      destruct (Hq' q Hold) as (name' & ? & ?). by simplify_eq.
  - apply H.
  - apply H.
  - apply H.
  - intros i Hi. apply H. rewrite Hun. set_solver.
  - intros q n name Hq Hown. eapply (r_nodes _ _ _ _ _ _ _ H); [done|by eapply own_grows].
Qed.

(** ** Safe programs *)

Definition ensures {A} (m : Prog A) (R : result A -> Local -> World -> Prop) l w : Prop :=
  wp m (fun r l' w' => valid l' w' /\ grows l l' /\ rely l w w' /\ R r l' w') l w.

Definition on_value {A} (P : A -> Local -> World -> Prop) (r : result A) l w : Prop :=
  match r with Ok a => P a l w | _ => True end.

Definition safe {A} (m : Prog A) (P : A -> Local -> World -> Prop) l w : Prop :=
  ensures m (on_value P) l w.

(** No condition on the value. *)
Definition anything {A} : A -> Local -> World -> Prop := fun _ _ _ => True.

Lemma ensures_mono {A} (m : Prog A) (R R' : result A -> Local -> World -> Prop) l w :
  ensures m R l w -> (forall r l' w', R r l' w' -> R' r l' w') -> ensures m R' l w.
Proof using Type. intros H HR. eapply wp_weaken; [exact H|]. naive_solver. Qed.

Lemma safe_mono {A} (m : Prog A) (P P' : A -> Local -> World -> Prop) l w :
  safe m P l w -> (forall a l' w', P a l' w' -> P' a l' w') -> safe m P' l w.
Proof using Type. intros H HP. eapply ensures_mono; [exact H|]. intros [] ??; simpl; auto. Qed.

Lemma ensures_then {A B} (m : Prog A) (f : result A -> Prog B) R R' l w :
  ensures m R l w ->
  (forall r l' w', valid l' w' -> grows l l' -> rely l w w' -> R r l' w' -> ensures (f r) R' l' w') ->
  owned_ok l w -> ensures (and_then m f) R' l w.
Proof using Type.
  intros Hm Hf Ho. apply wp_and_then. eapply wp_weaken; [exact Hm|].
  intros r l1 w1 (Hv & Hg & Hr & HR). eapply wp_weaken; [by apply Hf|].
  intros r' l2 w2 (Hv2 & Hg2 & Hr2 & HR2). split_and!; [done|by etrans| |done].
  eapply rely_trans; [done|]. eapply rely_grows; [done| |done]. apply Hr.
Qed.

Lemma ensures_ret {A} (r : result A) R l w : valid l w -> R r l w -> ensures (Ret r) R l w.
Proof using Type. intros Hv HR. split_and!; [done|done|by apply valid_rely|done]. Qed.

Lemma safe_ret {A} (a : A) (P : A -> Local -> World -> Prop) l w :
  valid l w -> P a l w -> safe (mret a) P l w.
Proof using Type. intros. by apply ensures_ret. Qed.

Lemma safe_throw {A} e (P : A -> Local -> World -> Prop) l w : valid l w -> safe (throw e) P l w.
Proof using Type. intros. by apply ensures_ret. Qed.

Lemma safe_pure {A} (r : result A) (P : A -> Local -> World -> Prop) l w :
  valid l w -> (forall a, r = Ok a -> P a l w) -> safe (pure r) P l w.
Proof using Type. intros Hv HP. apply ensures_ret; [done|]. destruct r; simpl; auto. Qed.

Lemma safe_running {A} (P : A -> Local -> World -> Prop) l w : safe Running P l w.
Proof using Type. done. Qed.

Lemma safe_bind {A B} (m : Prog A) (f : A -> Prog B) P Q l w :
  owned_ok l w -> safe m P l w ->
  (forall a l' w', valid l' w' -> grows l l' -> rely l w w' -> P a l' w' -> safe (f a) Q l' w') ->
  safe (m ≫= f) Q l w.
Proof using Type.
  intros Ho Hm Hf. eapply ensures_then; [exact Hm| |done].
  intros [a|e|] l' w' Hv Hg Hr HP; [by apply Hf|by apply ensures_ret..].
Qed.

(** A program whose outcome does not matter. *)
Lemma safe_ignoring {A} (m : Prog A) l w :
  owned_ok l w -> safe m anything l w -> safe (ignoring m) anything l w.
Proof using Type.
  intros Ho Hm. eapply ensures_then; [exact Hm| |done]. intros r l' w' Hv _ _ _. by apply safe_ret.
Qed.

Lemma safe_on_exit {A} (m : Prog A) cleanup (P : A -> Local -> World -> Prop) l w :
  owned_ok l w -> safe m P l w ->
  (forall a l1 w1 l2 w2, P a l1 w1 -> grows l1 l2 -> rely l1 w1 w2 -> P a l2 w2) ->
  (forall l' w', valid l' w' -> grows l l' -> safe cleanup anything l' w') ->
  safe (on_exit m cleanup) P l w.
Proof using Type.
  intros Ho Hm HP Hc. eapply ensures_then; [exact Hm| |done].
  intros r l1 w1 Hv Hg Hr HR. eapply ensures_then; [by apply Hc| |apply Hv].
  intros r' l2 w2 Hv2 Hg2 Hr2 _. apply ensures_ret; [done|].
  destruct r; simpl in *; [|done..]. by eapply HP.
Qed.

Lemma safe_for_list {A S} (I : S -> Local -> World -> Prop) (xs : list A) (body : A -> S -> Prog S) s l w :
  valid l w -> I s l w ->
  (forall x s l' w', x ∈ xs -> valid l' w' -> grows l l' -> rely l w w' -> I s l' w' ->
     safe (body x s) I l' w') ->
  safe (for_list xs body s) I l w.
Proof using Type.
  intros Hv HI Hb.
  cut (forall l' w', valid l' w' -> grows l l' -> rely l w w' -> I s l' w' ->
         safe (for_list xs body s) I l' w').
  { intros H. apply H; [done..|by apply valid_rely|done]. }
  clear HI. revert s. induction xs as [|x xs IH]; intros s l' w' Hv' Hg Hr HI; simpl.
  { by apply safe_ret. }
  eapply safe_bind; [apply Hv'|apply Hb; [by left|done..]|].
  intros s' l2 w2 Hv2 Hg2 Hr2 HI2. apply IH; [|done|by etrans| |done].
  - intros y t l3 w3 Hy. apply Hb. by right.
  - eapply rely_trans; [done|]. eapply rely_grows; [done| |done]. apply Hr.
Qed.

(** ** Calls *)

(** A call whose effect keeps what the program owns. *)
Lemma safe_act {A} (a : action) (k : answer a -> A) (P : A -> Local -> World -> Prop) l w :
  valid l w ->
  (forall w1 o, rely l w w1 -> oracle_ok o -> roomy pid w1 ->
     let w2 := snd (serve pid o a w1) in
     exists l', guarantee l w1 l' w2 /\ grows l l' /\ rely l w1 w2 /\
       P (k (fst (serve pid o a w1))) l' w2) ->
  safe (Act a (fun b => Ret (Ok (k b)))) P l w.
Proof using Type.
  intros Hv H w1 o Hr Ho Hroom. destruct (H w1 o Hr Ho Hroom) as (l' & Hg & Hgr & Hr2 & HP).
  exists l'. split; [done|]. split_and!; [split; apply Hg|done| |done].
  by eapply rely_trans.
Qed.

(** A call that changes nothing. *)
Lemma safe_read (a : action) (P : answer a -> Local -> World -> Prop) l w :
  valid l w ->
  (forall w1 o, rely l w w1 -> oracle_ok o -> snd (serve pid o a w1) = w1 /\
     P (fst (serve pid o a w1)) l w1) ->
  safe (call a) P l w.
Proof using Type.
  intros Hv H. apply (safe_act a (fun b => b)); [done|]. intros w1 o Hr Ho _.
  destruct (H w1 o Hr Ho) as [-> HP]. exists l. pose proof (rely_valid _ _ _ Hr) as Hv1.
  split_and!; [by apply guarantee_refl; apply Hv1|done|by apply valid_rely|done].
Qed.

(** A call that changes the file system, but nothing the program owns. *)
Lemma safe_effect (a : action) (P : answer a -> Local -> World -> Prop) l w :
  valid l w ->
  (forall w1 o, rely l w w1 -> oracle_ok o ->
     let w2 := snd (serve pid o a w1) in
     guarantee l w1 l w2 /\
     (forall i, i ∈ unsealed l -> inode_bytes w2 i = inode_bytes w1 i) /\
     (forall q n name, q !! level = Some name -> own pid l name ->
        nodes w2 !! q = Some n -> nodes w1 !! q = Some n) /\
     P (fst (serve pid o a w1)) l w2) ->
  safe (call a) P l w.
Proof using Type.
  intros Hv H. apply (safe_act a (fun b => b)); [done|]. intros w1 o Hr Ho _ w2.
  destruct (H w1 o Hr Ho) as (Hg & Hb & Hn & HP). exists l. split_and!; [done|done| |done].
  pose proof (r_owned _ _ _ _ _ _ _ Hr) as Hown. split; try apply Hg.
  - intros i [Hi|Hi]; [by apply Hb|].
    destruct (owned_known _ _ _ _ Hown i Hi). apply Hg; [done| |done].
    by apply (owned_apart _ _ _ _ Hown).
  - done.
Qed.

(** ** Reading *)

Lemma safe_unchanged (a : action) l w :
  (forall o w, snd (serve pid o a w) = w) -> valid l w -> safe (call a) anything l w.
Proof using Type. intros H Hv. apply safe_read; [done|]. intros w1 o _ _. by rewrite H. Qed.

Lemma safe_check_cancelled l w : valid l w -> safe check_cancelled anything l w.
Proof using Type.
  intros Hv. eapply safe_bind; [apply Hv|by apply (safe_unchanged IsCancelled)|].
  intros [] l' w' Hv' _ _ _; [by apply safe_throw|by apply safe_ret].
Qed.

Lemma safe_try_reserve l w : valid l w -> safe try_reserve anything l w.
Proof using Type.
  intros Hv. eapply safe_bind; [apply Hv|by apply (safe_unchanged Reserve)|].
  intros [] l' w' Hv' _ _ _; [by apply safe_ret|by apply safe_throw].
Qed.

Lemma safe_io_ok {A} (r : io A) (P : A -> Local -> World -> Prop) l w :
  valid l w -> (forall a, r = IoOk a -> P a l w) -> safe (io_ok r) P l w.
Proof using Type. intros Hv HP. destruct r; [apply safe_ret; auto|by apply safe_throw]. Qed.

(** A call followed by [?]. *)
Lemma safe_call_ok {A} (m : Prog (io A)) P l w :
  owned_ok l w -> safe m (fun r l' w' => forall a, r = IoOk a -> P a l' w') l w ->
  safe (r ← m; io_ok r) P l w.
Proof using Type.
  intros Ho Hm. eapply safe_bind; [done|exact Hm|]. intros r l' w' Hv _ _ HP. by apply safe_io_ok.
Qed.

Lemma safe_read_dir p l w :
  valid l w ->
  safe (fs_read_dir p) (fun r _ _ => forall entries name,
    length p = level -> r = IoOk entries -> IoOk name ∈ entries -> tidy_name name) l w.
Proof using Type.
  intros Hv. apply safe_read; [done|]. intros w1 o Hr Ho. split; [done|].
  intros entries name Hlen He Hname. cbn in He. unfold read_dir in He.
  destruct (fault o); [done|]. destruct (node_at w1 p) as [[]|]; simplify_eq.
  apply list_elem_of_fmap in Hname as (x & Hx & Hin). destruct (unreadable o x); simplify_eq.
  apply Ho, elem_of_children in Hin as [n Hn].
  eapply (consistent_tidy _ _ _ _ (r_consistent _ _ _ _ _ _ _ Hr)); [done|].
  by apply list_lookup_middle.
Qed.

(** ** Names that belong to no staged entry *)

Definition plain_path (q : path) : Prop :=
  forall name, q !! level = Some name -> tidy_name name /\ ~ staging_like name.

Lemma plain_path_ok l q : plain_path q -> path_ok level pid l q.
Proof using Type. intros Hq name Hn. destruct (Hq name Hn). done. Qed.

Lemma plain_snoc d name s :
  length d = level -> tidy_name name -> ~ staging_like name -> plain_path (d ++ name :: s).
Proof using Type.
  intros Hd Ht Hs name' Hn. assert ((d ++ name :: s) !! level = Some name) as H
    by (by apply list_lookup_middle). rewrite H in Hn. by simplify_eq.
Qed.

Lemma shallow_plain q : (length q <= level)%nat -> plain_path q.
Proof using Type. intros Hq name Hn. apply lookup_lt_Some in Hn. lia. Qed.

Lemma plain_not_own l q name : plain_path q -> q !! level = Some name -> ~ own pid l name.
Proof using Type.
  intros Hq Hn (k & nanos & s & -> & _). destruct (Hq _ Hn) as [_ H]. apply H.
  by exists k, pid, nanos, s.
Qed.

Lemma safe_create_dir p l w : plain_path p -> valid l w -> safe (fs_create_dir p) anything l w.
Proof using Type.
  intros Hp Hv. apply safe_effect; [done|]. intros w1 o Hr _. cbn [serve].
  pose proof (rely_valid _ _ _ Hr) as Hv1. unfold create_dir.
  destruct (fault o); [split_and!; [by apply guarantee_refl; apply Hv1|done..]|].
  destruct (node_at w1 p) eqn:Hn; [split_and!; [by apply guarantee_refl; apply Hv1|done..]|].
  destruct (parent_dir w1 p) eqn:Hd; [|split_and!; [by apply guarantee_refl; apply Hv1|done..]].
  split_and!; [by apply guarantee_mkdir; [apply Hv1..|apply plain_path_ok| |]|done| |done].
  intros q n name Hq Hown H. simpl in H. destruct (decide (p = q)) as [->|Hne].
  - by destruct (plain_not_own l q name Hp Hq).
  - by rewrite lookup_insert_ne in H.
Qed.

Lemma prefixes_take k (p : path) : take k (prefixes p) = map (fun n => take n p) (seq 1 (Nat.min k (length p))).
Proof using Type.
  unfold prefixes. rewrite firstn_map. f_equal. generalize 1%nat. generalize (length p).
  clear. induction k as [|k IH]; intros [|n] s; simpl; [done..|]. by rewrite IH.
Qed.

(** The directories above a shallow path, created one after another. *)
Lemma make_dirs l w p n :
  valid l w -> (length p <= level)%nat -> (n <= length p)%nat ->
  forallb (fun q => match node_at w q with Some DirNode | None => true | _ => false end) (prefixes p) = true ->
  let w' := foldl (fun w q => match node_at w q with
                              | None => set_nodes <[q := DirNode]> w
                              | Some _ => w
                              end) w (map (fun n => take n p) (seq 1 n)) in
  guarantee l w l w' /\ inodes w' = inodes w /\ node_at w' (take n p) = Some DirNode /\
  (forall q m, nodes w' !! q = Some m -> nodes w !! q = Some m \/ (length q <= level)%nat) /\
  (forall q, (n < length q)%nat -> node_at w' q = node_at w q).
Proof using Type.
  intros Hv Hp. induction n as [|n IH]; intros Hn Hall.
  { cbn [seq map foldl]. split_and!; [by apply guarantee_refl; apply Hv|done..|auto|done]. }
  destruct IH as (Hg & Hi & Hd & Hq & Hkeep); [lia|done|].
  rewrite seq_S, map_app, foldl_app. cbn [map foldl]. change (1 + n)%nat with (S n).
  set (w' := foldl _ w _) in *.
  assert (length (take (S n) p) = S n) as Hlen by (rewrite length_take; lia).
  assert (take (S n) p <> []) as Hne by (intros E; by rewrite E in Hlen).
  assert (removelast (take (S n) p) = take n p) as Hrem.
  { destruct (lookup_lt_is_Some_2 p n) as [x Hx]; [lia|].
    by rewrite (take_S_r _ _ _ Hx), removelast_snoc. }
  destruct (node_at w' (take (S n) p)) as [m|] eqn:E.
  - split_and!; [done|done| |done|intros; apply Hkeep; lia].
    rewrite Hkeep in E by lia. rewrite Hkeep by lia.
    assert (take (S n) p ∈ prefixes p) as Hin.
    { unfold prefixes. apply list_elem_of_fmap. exists (S n). split; [done|]. apply elem_of_seq. lia. }
    apply list_elem_of_In in Hin. rewrite forallb_forall in Hall. apply Hall in Hin.
    rewrite E in Hin. by destruct m.
  - split_and!.
    + eapply guarantee_trans; [exact Hg|]. apply guarantee_mkdir; try apply Hg; [|by apply parent_dir_spec; rewrite Hrem|done].
      apply plain_path_ok, shallow_plain. lia.
    + done.
    + rewrite node_at_insert by done. by rewrite decide_True.
    + intros q m Hm. simpl in Hm. destruct (decide (take (S n) p = q)) as [<-|Hne'].
      * right. lia.
      * rewrite lookup_insert_ne in Hm by done. by apply Hq.
    + intros q Hlq. rewrite node_at_insert by done. rewrite decide_False by (intros <-; lia).
      apply Hkeep. lia.
Qed.

Lemma safe_create_dir_all p l w :
  (length p <= level)%nat -> valid l w -> safe (fs_create_dir_all p) anything l w.
Proof using Type.
  intros Hp Hv. apply safe_effect; [done|]. intros w1 o Hr _. cbn [serve].
  pose proof (rely_valid _ _ _ Hr) as Hv1. unfold create_dir_all.
  destruct (forallb _ _) eqn:Hall; cbn [negb]; [|split_and!; [by apply guarantee_refl; apply Hv1|done..]].
  assert (forall k, (k <= length p)%nat ->
    let w2 := foldl (fun w q => match node_at w q with
                                | None => set_nodes <[q := DirNode]> w
                                | Some _ => w
                                end) w1 (map (fun n => take n p) (seq 1 k)) in
    guarantee l w1 l w2 /\ (forall i, i ∈ unsealed l -> inode_bytes w2 i = inode_bytes w1 i) /\
    (forall q n name, q !! level = Some name -> own pid l name ->
       nodes w2 !! q = Some n -> nodes w1 !! q = Some n)) as H.
  { intros k Hk. destruct (make_dirs l w1 p k Hv1 Hp Hk Hall) as (Hg & Hi & _ & Hq & _).
    split_and!; [done| |].
    - intros i _. unfold inode_bytes. by rewrite Hi.
    - intros q n name Hname _ Hn. destruct (Hq q n Hn) as [?|Hlen]; [done|].
      apply lookup_lt_Some in Hname. lia. }
  destruct (fault o); cbn [fst snd].
  - rewrite prefixes_take. destruct (H (Nat.min (N.to_nat (chunk o)) (length p))) as (? & ? & ?); [lia|done].
  - destruct (H (length p)) as (? & ? & ?); [lia|done].
Qed.

(** ** Files *)

Lemma safe_open_read p l w : valid l w -> safe (fs_open p OpenRead) anything l w.
Proof using Type.
  intros Hv. apply (safe_unchanged (Open p OpenRead)); [|done].
  intros o w'. cbn. unfold open. destruct (fault o); [done|]. by destruct (node_at w' p) as [[]|].
Qed.

(** The payload of an entry that is not staged stays as it is. *)
Lemma safe_open_payload p l w :
  plain_path p -> last p = Some PAYLOAD_FILE -> (level < length p)%nat -> valid l w ->
  safe (fs_open p OpenRead) (fun r l' _ => forall h i,
    r = IoOk h -> handle_inode h = Some i -> position h = 0 /\ i ∈ known l') l w.
Proof using Type.
  intros Hp Hlast Hlen Hv. apply (safe_act (Open p OpenRead) (fun r => r)); [done|].
  intros w1 o Hr _ _. pose proof (rely_valid _ _ _ Hr) as Hv1. cbn [serve]. unfold open.
  assert (forall r : io Handle, (forall h i, r = IoOk h -> handle_inode h <> Some i) ->
    exists l', guarantee l w1 l' w1 /\ grows l l' /\ rely l w1 w1 /\
      (forall h i, r = IoOk h -> handle_inode h = Some i -> position h = 0 /\ i ∈ known l')) as Hnone.
  { intros r H. exists l. split_and!; [by apply guarantee_refl; apply Hv1|done|by apply valid_rely|].
    intros h i E Hi. by destruct (H h i E). }
  destruct (fault o); [by apply Hnone|].
  destruct (node_at w1 p) as [[|i|]|] eqn:E; cbn [fst snd]; try (apply Hnone; intros; by simplify_eq).
  assert (p <> []) as Hp0 by (intros ->; simpl in Hlen; lia). rewrite node_at_nodes in E by done.
  destruct Hv1 as [Hc Ho].
  assert (outside level p) as Hout by (intros name Hn; by apply Hp).
  assert (i ∉ unsealed l) as Hi.
  { intros Hi. apply (owned_unsealed _ _ _ _ Ho) in Hi as (_ & _ & Hq).
    destruct (Hq p E) as (name & Hn & Hown). by destruct (plain_not_own l p name). }
  assert (sealed_born w1 i) as Hb.
  { exists PAYLOAD_FILE. split; [|by left]. eapply (consistent_born _ _ _ _ Hc); [done..|left; by left]. }
  assert (i < next_inode w1)%nat as Hnext by (by eapply (consistent_inode _ _ _ _ Hc)).
  exists {| sequences := sequences l; unsealed := unsealed l; known := {[i]} ∪ known l |}.
  split_and!.
  - split; try done; auto.
    + split; try apply Ho; simpl.
      * intros j Hj. apply elem_of_union in Hj as [->%elem_of_singleton|Hj]; [done|by apply Ho].
      * intros j Hj. apply elem_of_union in Hj as [->%elem_of_singleton|Hj]; [done|by apply Ho].
    + simpl. intros j Hj. apply elem_of_union in Hj as [->%elem_of_singleton|Hj]; [right|by left].
      by exists p.
  - split; simpl; set_solver.
  - by apply valid_rely.
  - intros h j [= <-] [= <-]. simpl. set_solver.
Qed.

(** Files that several programs may write. *)
Definition shared_name (name : string) : Prop := name = OWNER_FILE \/ name = HEARTBEAT_FILE.

Lemma shared_special name : shared_name name -> special_name name /\ ~ sealed_name name.
Proof using Type.
  intros H. split; [by right|]. intros [->| ->]; by destruct H.
Qed.

Lemma own_file_shared name i l : shared_name name -> own_file name i l = l.
Proof using Type. intros H. unfold own_file. rewrite decide_False; [done|]. by apply shared_special in H as [_ H]. Qed.

(** An open file that several programs may write. *)
Definition shared_handle (name : string) (h : Handle) w : Prop :=
  forall i, handle_inode h = Some i -> born w !! i = Some name /\ (i < next_inode w)%nat.

Lemma shared_handle_rely name h l w w' :
  rely l w w' -> shared_handle name h w -> shared_handle name h w'.
Proof using Type.
  intros Hr Hh i Hi. destruct (Hh i Hi) as [Hb Hn]. split.
  - by rewrite (r_born _ _ _ _ _ _ _ Hr).
  - pose proof (r_next _ _ _ _ _ _ _ Hr). lia.
Qed.
Lemma create_file_Ok w p name :
  parent_dir w p = true -> last p = Some name ->
  create_file w p = (IoOk {| handle_inode := Some (next_inode w); position := 0 |}, with_file w p name).
Proof using Type. intros Hd Hl. unfold create_file. by rewrite Hd, Hl. Qed.

Lemma safe_open_write p mode name l w :
  from_slice [] = None ->
  plain_path p -> last p = Some name -> shared_name name ->
  mode = OpenTruncate \/ mode = OpenCreateTruncate -> valid l w ->
  safe (fs_open p mode) (fun r _ w' => forall h, r = IoOk h -> shared_handle name h w') l w.
Proof using Type.
  intros Hnil Hp Hlast Hname Hmode Hv. apply safe_effect; [done|]. intros w1 o Hr _.
  pose proof (rely_valid _ _ _ Hr) as [Hc Ho]. pose proof (shared_special _ Hname) as [Hsp Hns].
  assert (forall r : io Handle, (forall h i, r = IoOk h -> handle_inode h <> Some i) ->
    guarantee l w1 l w1 /\ (forall i, i ∈ unsealed l -> inode_bytes w1 i = inode_bytes w1 i) /\
    (forall q n name, q !! level = Some name -> own pid l name ->
       nodes w1 !! q = Some n -> nodes w1 !! q = Some n) /\
    (forall h, r = IoOk h -> shared_handle name h w1)) as Hnone.
  { intros r H. split_and!; [by apply guarantee_refl|done..|]. intros h E i Hi. by destruct (H h i E). }
  assert (p <> []) as Hp0 by (by intros ->).
  cbn [serve]. unfold open. destruct (fault o); [by apply Hnone|].
  destruct (node_at w1 p) as [[|i|]|] eqn:E; rewrite node_at_nodes in E by done.
  - destruct Hmode as [-> | ->]; apply Hnone; intros; by simplify_eq.
  - assert (born w1 !! i = Some name) as Hb by (by eapply (consistent_born _ _ _ _ Hc)).
    destruct Hmode as [-> | ->]; cbn [fst snd]; (split_and!;
      [by eapply guarantee_write_plain| |done|intros h [= <-] j [= <-]; split; [done|]; by eapply (consistent_inode _ _ _ _ Hc)]);
      intros j Hj; rewrite set_bytes_bytes, decide_False; try done; intros ->;
      apply (owned_unsealed _ _ _ _ Ho) in Hj as (_ & (s & ? & ?) & _); by simplify_eq.
  - destruct Hmode as [-> | ->]; apply Hnone; intros; by simplify_eq.
  - destruct Hmode as [-> | ->]; [apply Hnone; intros; by simplify_eq|].
    destruct (parent_dir w1 p) eqn:Hd; [|unfold create_file; rewrite Hd; apply Hnone; intros; by simplify_eq].
    rewrite (create_file_Ok _ _ name) by done. cbn [fst snd].
    assert (guarantee l w1 l (with_file w1 p name)) as Hg.
    { rewrite <-(own_file_shared name (next_inode w1) l) at 2 by done.
      apply guarantee_create; try done; [by apply plain_path_ok|by rewrite node_at_nodes|].
      intros m ->. by destruct Hname. }
    split_and!; [done| | |].
    + intros j Hj. apply (owned_unsealed _ _ _ _ Ho) in Hj as (? & _ & _).
      rewrite with_file_bytes, decide_False by lia. done.
    + intros q n s Hq Hown [[-> _]|[_ H]]%with_file_nodes; [|done]. by destruct (plain_not_own l p s).
    + intros h [= <-] j [= <-]. simpl. split; [by rewrite lookup_insert_eq|lia].
Qed.

Lemma safe_write_shared h name bs l w :
  shared_name name -> valid l w ->
  shared_handle name h w -> safe (file_write h bs) anything l w.
Proof using Type.
  intros Hname Hv Hh. apply safe_effect; [done|]. intros w1 o Hr _.
  pose proof (rely_valid _ _ _ Hr) as [Hc Ho]. pose proof (shared_special _ Hname) as [Hsp Hns].
  cbn [serve]. unfold write_all.
  destruct (handle_inode h) as [i|] eqn:E; [|split_and!; [by apply guarantee_refl|done..]].
  destruct (Hh i E) as [Hb Hi].
  assert (born w1 !! i = Some name) as Hb1 by (by rewrite (r_born _ _ _ _ _ _ _ Hr)).
  cbn [fst snd]. split_and!; [by eapply guarantee_write_plain| |done|done].
  intros j Hj. rewrite set_bytes_bytes, decide_False; [done|]. intros ->.
  apply (owned_unsealed _ _ _ _ Ho) in Hj as (_ & (s & ? & ?) & _); by simplify_eq.
Qed.

(** ** Moving and removing *)

Lemma safe_rename dp np dq nq l w :
  length dp = level -> length dq = level -> ~ staging_like np ->
  tidy_name nq -> ~ staging_like nq -> ~ special_name nq -> valid l w ->
  safe (fs_rename (dp ++ [np]) (dq ++ [nq])) anything l w.
Proof using Type.
  intros Hdp Hdq Hnp Ht Hnq Hsp Hv. apply safe_effect; [done|]. intros w1 o Hr _.
  pose proof (rely_valid _ _ _ Hr) as [Hc Ho].
  assert (guarantee l w1 l w1 /\ (forall i, i ∈ unsealed l -> inode_bytes w1 i = inode_bytes w1 i) /\
    (forall q n name, q !! level = Some name -> own pid l name ->
       nodes w1 !! q = Some n -> nodes w1 !! q = Some n)) as (Hs1 & Hs2 & Hs3).
  { split_and!; [by apply guarantee_refl|done..]. }
  cbn [serve]. unfold rename. destruct (fault o); [done|].
  destruct (node_at w1 (dp ++ [np])) as [m|]; [|done].
  case_bool_decide as Hpq; [done|]. destruct (_ || _); [done|].
  destruct (parent_dir w1 (dq ++ [nq])) eqn:Hd; [|done]. cbn [negb].
  destruct (replaces _ _ _); [|done]. cbn [fst snd].
  apply parent_dir_spec in Hd as [_ Hd]. rewrite removelast_snoc in Hd.
  split_and!; [|done| |done].
  - apply guarantee_rename; try done. by left.
  - intros q n' name Hq Hown H. apply (rename_nodes level) in H as [(s & -> & _)|(_ & _ & H)]; [|done..].
    rewrite (rename_level level) in Hq by done. simplify_eq. destruct Hown as (k & nanos & s' & -> & _).
    destruct Hnq. by exists k, pid, nanos, s'.
Qed.

Lemma safe_remove_some p l w : valid l w -> safe (remove_some_of p) anything l w.
Proof using Type.
  intros Hv. apply safe_effect; [done|]. intros w1 o Hr _.
  pose proof (rely_valid _ _ _ Hr) as [Hc Ho]. cbn [serve]. unfold remove_some.
  destruct (node_at w1 p) as [[| |]|]; try (split_and!; [by apply guarantee_refl|done..]).
  cbn [fst snd]. set (f := fun x : path * node => let '(q, _) := x in _).
  assert (forall q n, filter (fun x => f x) (nodes w1) !! q = Some n -> nodes w1 !! q = Some n) as Hsub.
  { intros q n Hq. by apply map_lookup_filter_Some in Hq as [? _]. }
  split; [|split; [done|split; [|done]]].
  - apply guarantee_shrink; try done.
    intros q n Hq. apply map_lookup_filter_Some in Hq as [Hq Hkept].
    apply (consistent_closed _ _ _ _ Hc) in Hq as [Hq0 Hd].
    destruct (removelast q) as [|x d] eqn:E; [done|]. rewrite node_at_nodes in * by done. simpl.
    apply map_lookup_filter_Some. split; [done|]. unfold f in *.
    destruct (path_snoc q Hq0) as (y & Hy & _). rewrite E in Hy.
    destruct (under p (x :: d)) eqn:Eu; [|done]. cbn [negb orb] in *.
    apply under_spec in Eu as [s Hs].
    assert (under p q = true) as Hpq by (rewrite Hy, Hs, <-app_assoc; apply under_app).
    rewrite Hpq in Hkept. cbn [negb orb] in Hkept.
    apply existsb_exists in Hkept as (r & Hr' & Hspared). apply existsb_exists. exists r.
    split; [done|]. apply andb_true_iff in Hspared as [Hu ->]. rewrite andb_true_r.
    apply under_spec in Hu as [t ->]. rewrite Hy, <-app_assoc. apply under_app.
  - intros q n name _ _. apply Hsub.
Qed.

(** ** Tokens *)

Lemma safe_fetch_add l w :
  valid l w -> safe fetch_add_one (fun n l' _ => n ∈ sequences l') l w.
Proof using Type.
  intros Hv. apply (safe_act FetchAdd (fun n => n)); [done|]. intros w1 o Hr _ Hroom.
  pose proof (rely_valid _ _ _ Hr) as [Hc Ho]. cbn [serve fetch_add fst snd].
  set (w2 := {| nodes := nodes w1; inodes := inodes w1; born := born w1; next_inode := next_inode w1;
                counters := _ |}).
  assert (forall q, sequence_of w2 q = if decide (q = pid) then sequence_of w1 pid + 1
                                       else sequence_of w1 q) as Hseq.
  { intros q. unfold sequence_of, w2. simpl. case_decide as Hq.
    - subst q. rewrite lookup_insert_eq. simpl. by apply N.mod_small.
    - by rewrite lookup_insert_ne. }
  exists {| sequences := {[sequence_of w1 pid]} ∪ sequences l; unsealed := unsealed l; known := known l |}.
  assert (forall s, s ∈ sequences l -> s < sequence_of w1 pid) as Hold by apply Ho.
  assert (grows l {| sequences := {[sequence_of w1 pid]} ∪ sequences l; unsealed := unsealed l;
                     known := known l |}) as Hg by (split; simpl; set_solver).
  assert (consistent w2) as Hc2 by (split; apply Hc).
  split_and!.
  - split; try done; auto.
    + split; try apply Ho.
      * intros s. rewrite Hseq, decide_True by done.
        intros [->%elem_of_singleton|Hs]%elem_of_union; [lia|]. specialize (Hold s Hs). lia.
      * intros i Hi. apply (owned_unsealed _ _ _ _ Ho) in Hi as (? & ? & Hq). split_and!; [done..|].
        intros q H'. destruct (Hq q H') as (name & ? & ?). exists name. split; [done|].
        by eapply own_grows.
    + simpl. intros s [->%elem_of_singleton|Hs]%elem_of_union; [by right|by left].
    + intros q. rewrite Hseq. case_decide; subst; lia.
  - done.
  - split; try done.
    + split; try apply Ho. intros s Hs. rewrite Hseq, decide_True by done. specialize (Hold s Hs). lia.
    + rewrite Hseq, decide_True by done. lia.
  - simpl. unfold sequence_of. set_solver.
Qed.

Definition own_token (t : string) l : Prop :=
  exists nanos sequence, t = token_text pid nanos sequence /\ sequence ∈ sequences l.

Lemma safe_unique_token l w : valid l w -> safe unique_token (fun t l' _ => own_token t l') l w.
Proof using Type.
  intros Hv. eapply safe_bind; [apply Hv|by apply safe_fetch_add|].
  intros sequence l1 w1 Hv1 _ _ Hs. eapply safe_bind; [apply Hv1|by apply (safe_unchanged SystemNow)|].
  intros nanos l2 w2 Hv2 Hg2 _ _.
  eapply (safe_bind _ _ (fun p _ _ => p = pid)); [apply Hv2|by apply (safe_read ProcessId)|].
  intros p l3 w3 Hv3 Hg3 _ ->. apply safe_ret; [done|]. exists nanos, sequence. split; [done|].
  destruct Hg2, Hg3. set_solver.
Qed.

(** ** Composed calls *)

Lemma safe_remove_dir_all rounds p l w : valid l w -> safe (remove_dir_all rounds p) anything l w.
Proof using Type.
  revert l w. induction rounds as [|rounds IH]; intros l w Hv; [done|]. simpl.
  eapply safe_bind; [apply Hv|by apply safe_remove_some|].
  intros [[]|] l' w' Hv' _ _ _; [by apply safe_ret|by apply IH|by apply safe_ret].
Qed.

Lemma safe_remove_dir_all_ok rounds p l w :
  valid l w -> safe (r ← remove_dir_all rounds p; io_ok r) anything l w.
Proof using Type.
  intros Hv. eapply safe_bind; [apply Hv|by apply safe_remove_dir_all|].
  intros r l' w' Hv' _ _ _. by apply safe_io_ok.
Qed.

Lemma safe_read_to_string p l w : valid l w -> safe (read_to_string p) anything l w.
Proof using Type.
  intros Hv. eapply safe_bind; [apply Hv|by apply safe_open_read|].
  intros [h|] l' w' Hv' _ _ _; [|by apply safe_ret].
  eapply safe_bind; [apply Hv'|by apply (safe_unchanged (ReadAll h None))|].
  intros r l2 w2 Hv2 _ _ _. by apply safe_ret.
Qed.

Lemma safe_path_exists p l w : valid l w -> safe (path_exists p) anything l w.
Proof using Type.
  intros Hv. eapply safe_bind; [apply Hv|by apply (safe_unchanged (Stat p))|].
  intros r l' w' Hv' _ _ _. by apply safe_ret.
Qed.
Lemma safe_path_is_dir p l w : valid l w -> safe (path_is_dir p) anything l w.
Proof using Type.
  intros Hv. eapply safe_bind; [apply Hv|by apply (safe_unchanged (Stat p))|].
  intros r l' w' Hv' _ _ _. by apply safe_ret.
Qed.
End Logic.
