(* ===== verification/CacheSpecs.v ===== *)
(** * The programs of the cache are safe

    Each program of [Cache] keeps its guarantee whatever other programs do
    between its calls, and the entry of a lookup with full validation has the
    bytes that its envelope describes. *)

From S2P Require Import Prelude Errors Tensor Identity Order FileReader FileSystem.
From S2P Require Import Cache CacheNames Interference.
From stdpp Require Import strings gmap.
Local Open Scope N_scope.

(** ** Names that are moved *)

Lemma not_special x y :
  free dot y = true -> y <> "bin"%string -> y <> "json"%string -> ~ special_name (x +:+ String dot y).
Proof.
  intros Hy Hb Hj [[H|H]|[H|H]].
  - change PAYLOAD_FILE with ("payload" +:+ String dot "bin") in H.
    by apply (split_right dot) in H as [_ ?].
  - change METADATA_FILE with ("metadata" +:+ String dot "json") in H.
    by apply (split_right dot) in H as [_ ?].
  - symmetry in H. by apply (not_free_split dot x y OWNER_FILE) in H.
  - symmetry in H. by apply (not_free_split dot x y HEARTBEAT_FILE) in H.
Qed.

(** A name that an operation may give to a directory that is not staged. *)
Definition proper_name (s : string) : Prop :=
  tidy_name s /\ ~ staging_like s /\ ~ special_name s.

Lemma proper_suffix x y :
  free dot y = true -> String.prefix "tmp-" y = false -> String.prefix "previous-" y = false ->
  y <> "bin"%string -> y <> "json"%string -> contains REPLACEMENT_MARKER x = false ->
  proper_name (x +:+ String dot y).
Proof.
  intros Hy Ht Hp Hb Hj Hx. split_and!; [|by apply not_staging_like|by apply not_special].
  intros H. by rewrite marker_split, Hx, Hp in H.
Qed.

Lemma lease_proper k : proper_name (lease_name k).
Proof. rewrite lease_name_split. by apply proper_suffix; try apply key_no_marker. Qed.

Lemma evicted_proper k pid nanos s : proper_name (evicted_name k (token_text pid nanos s)).
Proof.
  rewrite evicted_name_split. apply proper_suffix; try done; [|apply key_no_marker].
  by rewrite free_app, token_text_dot.
Qed.

Lemma reaped_proper s pid nanos q :
  contains REPLACEMENT_MARKER s = false -> proper_name (reaped_name s (token_text pid nanos q)).
Proof.
  intros Hs. rewrite reaped_name_split. apply proper_suffix; try done.
  by rewrite free_app, token_text_dot.
Qed.

Lemma previous_proper k pid nanos s :
  proper_name (previous_name (CacheKey_display k) (token_text pid nanos s)).
Proof.
  split_and!.
  - intros _. eauto.
  - rewrite previous_name_split. by apply not_staging_like; [rewrite free_app, token_text_dot|].
  - rewrite previous_name_split. by apply not_special; [rewrite free_app, token_text_dot|..].
Qed.

(** Texts of keys have hexadecimal digits only. *)
Lemma display_proper k : proper_name (CacheKey_display k).
Proof.
  pose proof (CacheKey_display_free k) as Hk. split_and!.
  - intros H. by rewrite display_no_marker in H.
  - by apply dotless_not_staging_like.
  - intros H. assert (forall s, CacheKey_display k = s -> ~ special_name s) as Hn; [|by apply (Hn _ eq_refl)].
    clear H. unfold CacheKey_display, digest_display.
    intros s Hs [[->| ->]|[->| ->]];
      destruct (digest_bytes (key_digest k)) as [|b bs]; try done; by destruct b.
Qed.

Lemma marker_proper_source s : contains REPLACEMENT_MARKER s = true -> ~ staging_like s.
Proof. apply marker_not_staging. Qed.

Lemma lease_suffix_source s : ends_with ".lease" s = true -> ~ staging_like s.
Proof.
  intros [x ->]%ends_with_app. change ".lease"%string with (String dot "lease").
  by apply not_staging_like.
Qed.

Lemma known_grows i l l' : grows l l' -> i ∈ known l -> i ∈ known l'.
Proof. intros [_ _ H]. apply H. Qed.

Section Specs.
Context (sha256 : bytes -> bytes) (to_vec : CacheEnvelope -> option bytes).
Context (from_slice : bytes -> option CacheEnvelope) (rounds : nat) (pid : N) (cache : CacheInner).
Context (from_slice_nil : from_slice [] = None).

(** The components above an entry. *)
Definition entry_level (c : CacheInner) : nat := (length (cache_root c) + 3)%nat.

Local Notation level := (entry_level cache).
Local Notation valid := (valid sha256 from_slice level pid).
Local Notation rely := (rely sha256 from_slice level pid).
Local Notation safe := (safe sha256 from_slice level pid).
Implicit Types (w : World) (l : Local).

Lemma valid_owned l w : valid l w -> owned_ok level pid l w.
Proof using Type. by intros [_ ?]. Qed.

(** Each program is followed call by call. *)
Local Ltac call_with tac :=
  eapply safe_bind; [by apply valid_owned|tac|].
Local Ltac pass := 
  let a := fresh "a" in let l' := fresh "l" in let w' := fresh "w" in
  let Hv := fresh "Hv" in let Hg := fresh "Hg" in let Hr := fresh "Hr" in let HP := fresh "HP" in
  intros a l' w' Hv Hg Hr HP.
Local Ltac skip :=
  let a := fresh "a" in let l' := fresh "l" in let w' := fresh "w" in let Hv := fresh "Hv" in
  intros a l' w' Hv _ _ _.
Local Ltac same a := call_with ltac:(by apply (safe_unchanged _ _ _ _ a)); skip.
Local Ltac check := call_with ltac:(by apply safe_check_cancelled); skip.

(** ** Scans *)

Lemma safe_ScanBudget_new n l w : valid l w -> safe (ScanBudget_new n) anything l w.
Proof using Type.
  intros Hv. check. destruct (n =? 0); [by apply safe_throw|by apply safe_ret].
Qed.

Lemma safe_visit_entry n l w : valid l w -> safe (visit_entry n) anything l w.
Proof using Type.
  intros Hv. check. destruct (checked_sub n 1); [by apply safe_ret|by apply safe_throw].
Qed.

Definition listed (p : path) (ds : list path) : Prop :=
  forall d, d ∈ ds -> exists name, d = p ++ [name] /\ (length p = level -> tidy_name name).

Lemma safe_read_directories p n l w :
  valid l w -> safe (read_directories p n) (fun r _ _ => listed p (fst r)) l w.
Proof using Type.
  intros Hv. check. call_with ltac:(by apply safe_read_dir). intros r l1 w1 Hv1 _ _ Hr.
  destruct r as [entries|[]]; [|apply safe_ret; [done|by intros d ?%not_elem_of_nil]|by apply safe_throw..].
  eapply (safe_bind _ _ _ _ _ _ (fun s _ _ => listed p (fst s))); [by apply valid_owned| |].
  - apply safe_for_list; [done|by intros d ?%not_elem_of_nil|].
    intros entry [ds scan] l2 w2 Hin Hv2 _ _ Hds. call_with ltac:(by apply safe_visit_entry). skip.
    eapply (safe_bind _ _ _ _ _ _ (fun name _ _ => entry = IoOk name)); [by apply valid_owned|
      by apply safe_io_ok; [|intros x ->]|].
    intros name l4 w4 Hv4 _ _ ->.
    call_with ltac:(by apply (safe_call_ok _ _ _ _ _ anything); [apply valid_owned|
      eapply safe_mono; [by apply (safe_unchanged _ _ _ _ (Stat _))|done]]). skip.
    destruct (is_dir _); [|by apply safe_ret].
    call_with ltac:(by apply safe_try_reserve). skip. apply safe_ret; [done|].
    intros d [?| ->%list_elem_of_singleton]%elem_of_app; [by apply Hds|].
    exists name. split; [done|]. intros Hlen. by eapply Hr.
  - intros [ds scan] l2 w2 Hv2 _ _ Hds. apply safe_ret; [done|].
    intros d Hd. apply Hds. by rewrite <-(sort_unstable_Permutation ds).
Qed.

Lemma safe_stat p l w : valid l w -> safe (fs_metadata p) anything l w.
Proof using Type. intros. by apply (safe_unchanged _ _ _ _ (Stat p)). Qed.

Lemma safe_ok {A} (m : Prog (io A)) l w :
  valid l w -> safe m anything l w -> safe (r ← m; io_ok r) anything l w.
Proof using Type.
  intros Hv Hm. apply safe_call_ok; [by apply valid_owned|]. by eapply safe_mono.
Qed.

Lemma safe_list_dir p l w : valid l w -> safe (fs_read_dir p) anything l w.
Proof using Type. intros. eapply safe_mono; [by apply safe_read_dir|done]. Qed.

Lemma safe_directory_size depth p n l w : valid l w -> safe (directory_size depth p n) anything l w.
Proof using Type.
  revert p n l w. induction depth as [|depth IH]; intros p n l w Hv; cbn [directory_size].
  - check. by apply safe_throw.
  - check. call_with ltac:(by apply safe_stat). skip.
    destruct a0 as [m|[]]; [|by apply safe_ret|by apply safe_throw..].
    destruct (is_file m); [by apply safe_ret|]. destruct (is_dir m); [|by apply safe_ret]. cbn [negb].
    call_with ltac:(by apply safe_ok; [|apply safe_list_dir]). skip.
    apply safe_for_list; [done..|]. intros entry [total scan] l4 w4 _ Hv4 _ _ _.
    call_with ltac:(by apply safe_visit_entry). skip.
    call_with ltac:(by apply (safe_io_ok _ _ _ _ _ anything)). skip.
    call_with ltac:(by apply IH). skip. destruct a3. by apply safe_ret.
Qed.

Lemma safe_path_is_stale p t n l w : valid l w -> safe (path_is_stale p t n) anything l w.
Proof using Type.
  intros Hv. check. call_with ltac:(by apply safe_stat). skip.
  destruct (modified a0) as [newest|[]]; [|by apply safe_ret|by apply safe_throw..].
  call_with ltac:(by apply safe_list_dir). skip.
  eapply (safe_bind _ _ _ _ _ _ anything); [by apply valid_owned| |].
  - destruct a1 as [entries|]; [|by apply safe_ret].
    apply safe_for_list; [done..|]. intros entry [best scan] l4 w4 _ Hv4 _ _ _.
    call_with ltac:(by apply safe_visit_entry). skip.
    destruct entry as [name|[]]; [|by apply safe_ret|by apply safe_throw..].
    call_with ltac:(by apply safe_stat). skip.
    destruct (modified a2) as [t'|[]]; [by apply safe_ret|by apply safe_ret|by apply safe_throw..].
  - skip. destruct a2. same SystemNow. by apply safe_ret.
Qed.

Lemma safe_lease_is_stale p t l w : valid l w -> safe (lease_is_stale p t) anything l w.
Proof using Type.
  assert (forall n l w, valid l w ->
    safe (now ← system_now; mret (t <=? saturating_sub now n)) anything l w) as Hjudge.
  { intros n l' w' Hv. same SystemNow. by apply safe_ret. }
  intros Hv. check. call_with ltac:(by apply safe_stat). skip.
  destruct (modified a0) as [n|[]]; [by apply Hjudge| |by apply safe_throw..].
  call_with ltac:(by apply safe_stat). skip.
  destruct (modified a1) as [n|[]]; [by apply Hjudge|by apply safe_ret|by apply safe_throw..].
Qed.

(** ** Envelopes *)

Lemma safe_read_envelope p l w : valid l w -> safe (read_envelope from_slice p) anything l w.
Proof using Type.
  intros Hv. call_with ltac:(by apply safe_open_read). skip.
  destruct a as [h|[]]; [|by apply safe_ret|by apply safe_throw..].
  call_with ltac:(by apply safe_ok; [|apply (safe_unchanged _ _ _ _ (HandleLen h))]). skip.
  destruct (MAX_METADATA_BYTES <? a); [by apply safe_ret|].
  call_with ltac:(by apply safe_ok; [|apply (safe_unchanged _ _ _ _ (ReadAll h (Some (MAX_METADATA_BYTES + 1))))]).
  skip. cbv zeta. destruct (MAX_METADATA_BYTES <? N.of_nat (length a0)); by apply safe_ret.
Qed.

(** ** Payloads *)

(** The file of a handle, whose bytes no other program changes. *)
Definition fixed_handle (h : Handle) (i : nat) l : Prop := handle_inode h = Some i /\ i ∈ known l.

Lemma known_bytes i l w w' : i ∈ known l -> rely l w w' -> inode_bytes w' i = inode_bytes w i.
Proof using Type. intros Hi Hr. apply Hr. by right. Qed.

Lemma take_drop_take {A} (xs : list A) n m k :
  k = length (take m (drop n xs)) -> take n xs ++ take m (drop n xs) = take (n + k) xs.
Proof using Type.
  intros ->. rewrite <-(take_take_drop xs n _). f_equal.
  rewrite length_take, length_drop. destruct (decide (m <= length xs - n)%nat).
  - by rewrite Nat.min_l.
  - rewrite Nat.min_r, !take_ge by (rewrite ?length_drop; lia). done.
Qed.

Lemma safe_digest_loop fuel h i hashed l w :
  valid l w -> fixed_handle h i l -> hashed = take (N.to_nat (position h)) (inode_bytes w i) ->
  safe (digest_loop sha256 fuel h hashed) (fun r l' w' =>
    fst r = from_bytes (sha256 (inode_bytes w' i)) /\ fixed_handle (snd r) i l') l w.
Proof using Type.
  revert h hashed l w. induction fuel as [|fuel IH]; intros h hashed l w Hv Hh Hbs; [done|].
  cbn [digest_loop]. call_with ltac:(by apply safe_check_cancelled). intros [] l1 w1 Hv1 Hg1 Hr1 _.
  destruct Hh as [Hi Hk].
  rewrite <-(known_bytes i l w w1) in Hbs by done.
  assert (i ∈ known l1) as Hk1 by (by eapply known_grows).
  eapply (safe_bind _ _ _ _ _ _ (fun bs _ w' => exists n, 1 <= n /\
    bs = take (N.to_nat n) (drop (N.to_nat (position h)) (inode_bytes w' i)))); [by apply valid_owned| |].
  { apply safe_call_ok; [by apply valid_owned|].
    apply (safe_read _ _ _ _ (ReadHandle h COPY_BUFFER_BYTES)); [done|].
    intros w2 o _ _. split; [done|]. intros bs Hread. cbn in Hread. unfold read_handle in Hread.
    destruct (fault o); [done|]. rewrite Hi in Hread. simplify_eq. unfold slice.
    exists (N.min COPY_BUFFER_BYTES (N.max 1 (chunk o))). split; [unfold COPY_BUFFER_BYTES; lia|done]. }
  intros bs l2 w2 Hv2 Hg2 Hr2 (n & Hn & Hread).
  rewrite <-(known_bytes i l1 w1 w2) in Hbs by done.
  destruct (length bs =? 0)%nat eqn:E.
  - apply Nat.eqb_eq in E. apply safe_ret; [done|]. simpl. split; [|split; [done|by eapply known_grows]].
    rewrite Hbs, take_ge; [done|]. rewrite Hread, length_take, length_drop in E. lia.
  - apply IH; [done|split; [done|by eapply known_grows]|]. cbn [advance position].
    rewrite Hbs, Hread. rewrite N2Nat.inj_add, Nat2N.id. by apply take_drop_take.
Qed.

(** The entry that was asked for, with the bytes its envelope describes. *)
Definition entry_ok (n : CacheNamespace) (k : CacheKey) (c : CacheCompatibility) (e : CacheEntry) : Prop :=
  namespace (info e) = n /\ entry_key (info e) = k /\ compatibility (info e) = c.

Definition payload_ok (e : CacheEntry) l w : Prop :=
  exists i, handle_inode (payload e) = Some i /\ position (payload e) = 0 /\ i ∈ known l /\
    N.of_nat (length (inode_bytes w i)) = payload_len (info e) /\
    from_bytes (sha256 (inode_bytes w i)) = payload_digest (info e).

Definition hit_ok n k c v (e : CacheEntry) l w : Prop :=
  entry_ok n k c e /\ (v = FullValidation -> payload_ok e l w).

Definition lookup_ok n k c v (r : CacheLookup) l w : Prop :=
  match r with Hit e => hit_ok n k c v e l w | Miss _ => True end.

Lemma payload_ok_rely e l l' w w' :
  grows l l' -> rely l w w' -> payload_ok e l w -> payload_ok e l' w'.
Proof using Type.
  intros Hg Hr (i & Hi & Hp & Hk & Hlen & Hd). exists i.
  rewrite (known_bytes i l w w') by done. split_and!; [done|done|by eapply known_grows|done..].
Qed.

Lemma lookup_ok_rely n k c v r l l' w w' :
  grows l l' -> rely l w w' -> lookup_ok n k c v r l w -> lookup_ok n k c v r l' w'.
Proof using Type.
  intros Hg Hr. destruct r as [e|]; [|done]. intros [? Hp]. split; [done|]. intros Hfull.
  eapply payload_ok_rely; eauto.
Qed.

Lemma safe_rewind h l w :
  valid l w ->
  safe (r ← file_rewind h; io_ok r) (fun h' _ _ =>
    handle_inode h' = handle_inode h /\ position h' = 0) l w.
Proof using Type.
  intros Hv. apply safe_call_ok; [by apply valid_owned|].
  apply (safe_read _ _ _ _ (SeekStart h)); [done|]. intros w1 o _ _. split; [done|].
  intros h' H. cbn in H. destruct (fault o); by simplify_eq.
Qed.

Lemma safe_file_len h i l w :
  valid l w -> (handle_inode h = Some i -> i ∈ known l) ->
  safe (r ← file_len h; io_ok r) (fun n _ w' =>
    handle_inode h = Some i -> n = N.of_nat (length (inode_bytes w' i))) l w.
Proof using Type.
  intros Hv Hk. apply safe_call_ok; [by apply valid_owned|].
  apply (safe_read _ _ _ _ (HandleLen h)); [done|]. intros w1 o _ _. split; [done|].
  intros n H Hi. cbn in H. unfold handle_len in H. rewrite Hi in H. destruct (fault o); by simplify_eq.
Qed.

Lemma safe_digest_directory fuel h hashed l w :
  valid l w -> handle_inode h = None ->
  safe (digest_loop sha256 fuel h hashed) (fun _ _ _ => False) l w.
Proof using Type.
  intros Hv Hh. destruct fuel as [|fuel]; [done|]. cbn [digest_loop]. check.
  eapply (safe_bind _ _ _ _ _ _ (fun _ _ _ => False)); [by apply valid_owned| |done].
  apply safe_call_ok; [by apply valid_owned|].
  apply (safe_read _ _ _ _ (ReadHandle h COPY_BUFFER_BYTES)); [done|]. intros w2 o _ _. split; [done|].
  intros bs H. cbn in H. unfold read_handle in H. rewrite Hh in H. by destruct (fault o).
Qed.

(** ** Lookup *)

(** A directory at the place of an entry that is not staged. *)
Definition entry_place (p : path) : Prop :=
  exists d name, p = d ++ [name] /\ length d = level /\ tidy_name name /\ ~ staging_like name.

Lemma entry_place_payload p :
  entry_place p -> plain_path level (p ++ [PAYLOAD_FILE]) /\
    last (p ++ [PAYLOAD_FILE]) = Some PAYLOAD_FILE /\ (level < length (p ++ [PAYLOAD_FILE]))%nat.
Proof using Type.
  intros (d & name & -> & Hd & Ht & Hs). rewrite last_snoc, !length_app. simpl. split_and!; [|done|lia].
  rewrite <-app_assoc. by apply plain_snoc.
Qed.

Lemma safe_lookup_entry_path p n k c v l w :
  valid l w -> entry_place p ->
  safe (lookup_entry_path sha256 from_slice rounds p n k c v) (lookup_ok n k c v) l w.
Proof using Type.
  intros Hv Hp. check. call_with ltac:(by apply safe_stat). skip.
  destruct a0 as [m|[]]; [|by apply safe_ret|by apply safe_throw..].
  destruct (negb (is_dir m)); [by apply safe_ret|].
  call_with ltac:(by apply safe_read_envelope). skip. destruct a0 as [e|]; [|by apply safe_ret].
  destruct (negb (_ =? _)); [by apply safe_ret|].
  case_bool_decide as Hn; [|by apply safe_ret]. case_bool_decide as Hk; [|by apply safe_ret].
  case_bool_decide as Hc; [|by apply safe_ret]. cbn [negb].
  apply entry_place_payload in Hp as (Hplain & Hlast & Hlen).
  call_with ltac:(by apply safe_open_payload). intros r l3 w3 Hv3 _ _ Hr.
  destruct r as [h|[]]; [|by apply safe_ret|by apply safe_throw..].
  destruct (handle_inode h) as [i|] eqn:Hi.
  - destruct (Hr h i eq_refl Hi) as [Hpos Hknown].
    call_with ltac:(by apply (safe_file_len h i)). intros len l4 w4 Hv4 Hg4 _ Hlen4.
    destruct (len =? _) eqn:El; [|by apply safe_ret]. cbn [negb]. apply N.eqb_eq in El.
    assert (forall h' l' w', valid l' w' -> fixed_handle h' i l' ->
      (v = FullValidation -> N.of_nat (length (inode_bytes w' i)) = envelope_payload_len e /\
         from_bytes (sha256 (inode_bytes w' i)) = envelope_payload_digest e) ->
      safe (file ← (r ← file_rewind h'; io_ok r);
            mret (Hit {| info := info_from_envelope e (p ++ [PAYLOAD_FILE]); payload := file |}))
        (lookup_ok n k c v) l' w') as Hfinish.
    { intros h' l' w' Hv' [Hi' Hk'] Hbytes. call_with ltac:(by apply safe_rewind).
      intros file l6 w6 Hv6 Hg6 Hr6 [Hfile Hpos']. apply safe_ret; [done|]. split; [done|].
      intros Hfull. exists i. rewrite (known_bytes i l' w' w6) by done.
      destruct (Hbytes Hfull). split_and!; [by rewrite <-Hi'|done|by eapply known_grows|done..]. }
    case_bool_decide as Hfull.
    + call_with ltac:(apply (safe_digest_loop rounds h i []); [done|split; [done|by eapply known_grows]|
        by rewrite Hpos]).
      intros [d h'] l5 w5 Hv5 Hg5 Hr5 [Hd Hh']. simpl in Hd, Hh'.
      case_bool_decide as Hdig; [|by apply safe_ret]. cbn [negb]. apply Hfinish; [done..|].
      intros _. rewrite <-Hdig, Hd. split; [|done]. rewrite <-El, (Hlen4 Hi).
      by rewrite (known_bytes i l4 w4 w5) by (done || by eapply known_grows).
    + apply Hfinish; [done|split; [done|by eapply known_grows]|done].
  - call_with ltac:(by apply safe_ok; [|apply (safe_unchanged _ _ _ _ (HandleLen h))]). skip.
    destruct (negb (_ =? _)); [by apply safe_ret|].
    case_bool_decide as Hfull.
    + call_with ltac:(by apply safe_digest_directory). by intros ? ? ? ? ? ? ?.
    + call_with ltac:(by apply safe_rewind). skip. apply safe_ret; [done|]. by split.
Qed.

Lemma safe_replacement_paths p k n l w :
  valid l w -> (exists d, p = d ++ [CacheKey_display k] /\ length d = level) ->
  safe (replacement_paths p n) (fun r _ _ => forall q, q ∈ fst r -> entry_place q) l w.
Proof using Type.
  intros Hv (d & -> & Hd). check. unfold parent, file_name, to_option.
  rewrite removelast_snoc, last_snoc.
  eapply (safe_bind _ _ _ _ _ _ (fun a _ _ => a = d)); [by apply valid_owned|
    apply safe_pure; [done|]; destruct d; by intros ? [= <-]|].
  intros ? l1 w1 Hv1 _ _ ->.
  eapply (safe_bind _ _ _ _ _ _ (fun a _ _ => a = CacheKey_display k)); [by apply valid_owned|
    apply safe_pure; [done|]; unfold to_str; simpl; destruct (utf8_valid _); by intros ? [= <-]|].
  intros ? l2 w2 Hv2 _ _ ->. cbv zeta.
  call_with ltac:(by apply safe_read_dir). intros r l3 w3 Hv3 _ _ Hr.
  destruct r as [entries|[]]; [|apply safe_ret; [done|by intros q ?%not_elem_of_nil]|by apply safe_throw..].
  eapply (safe_bind _ _ _ _ _ _ (fun s _ _ => forall t q, (t, q) ∈ fst s -> entry_place q));
    [by apply valid_owned| |].
  - apply safe_for_list; [done|by intros t q ?%not_elem_of_nil|].
    intros entry [ps scan] l4 w4 Hin Hv4 _ _ Hps. call_with ltac:(by apply safe_visit_entry). skip.
    destruct entry as [name|[]]; [|by apply safe_ret|by apply safe_throw..].
    unfold to_str. destruct (utf8_valid _); [|by apply safe_ret].
    destruct (String.prefix _ name) eqn:Hprefix; [|by apply safe_ret]. cbn [negb].
    call_with ltac:(by apply safe_stat). skip.
    destruct a1 as [m|[]]; [|by apply safe_ret|by apply safe_throw..].
    destruct (is_dir m); [|by apply safe_ret]. cbn [negb].
    call_with ltac:(by apply safe_try_reserve). skip. apply safe_ret; [done|].
    intros t q [H|[= -> ->]%list_elem_of_singleton]%elem_of_app; [by eapply Hps|].
    exists d, name. split_and!; [done|done|by eapply Hr|].
    apply marker_not_staging. apply string_prefix_app in Hprefix as [rest ->].
    unfold previous_name. rewrite !string_app_assoc. apply (contains_inside ("." +:+ CacheKey_display k)).
  - intros [ps scan] l4 w4 Hv4 _ _ Hps. apply safe_ret; [done|]. intros q Hq. simpl in Hq.
    apply list_elem_of_fmap in Hq as ([t q'] & -> & Hq). rewrite elem_of_reverse in Hq.
    apply (Hps t). by rewrite <-(sort_unstable_Permutation ps).
Qed.

Lemma safe_replacement_lookup_raced p l w :
  valid l w -> safe (replacement_lookup_raced p) anything l w.
Proof using Type. intros Hv. call_with ltac:(by apply safe_path_exists). skip. by apply safe_ret. Qed.

Lemma safe_lookup_replacements ps n k c v l w :
  valid l w -> (forall q, q ∈ ps -> entry_place q) ->
  safe (lookup_replacements sha256 from_slice rounds ps n k c v)
    (fun o l' w' => forall e, o = Some e -> hit_ok n k c v e l' w') l w.
Proof using Type.
  revert l w. induction ps as [|p ps IH]; intros l w Hv Hps; cbn [lookup_replacements].
  { by apply safe_ret. }
  eapply ensures_then; [apply safe_lookup_entry_path; [done|apply Hps; by left]| |by apply valid_owned].
  assert (forall l' w', valid l' w' -> safe (lookup_replacements sha256 from_slice rounds ps n k c v)
    (fun o l' w' => forall e, o = Some e -> hit_ok n k c v e l' w') l' w') as Hrest.
  { intros l' w' Hv'. apply IH; [done|]. intros q Hq. apply Hps. by right. }
  intros [[e|]|e|] l1 w1 Hv1 _ _ HR.
  - apply safe_ret; [done|]. by intros ? [= <-].
  - by apply Hrest.
  - call_with ltac:(by apply safe_replacement_lookup_raced). skip.
    destruct a; [by apply Hrest|by apply safe_throw].
  - by apply ensures_ret.
Qed.

Lemma entry_path_split n k :
  exists d, entry_path cache n k = d ++ [CacheKey_display k] /\ length d = level.
Proof using Type.
  exists (namespace_path cache n ++ [String.substring 0 2 (CacheKey_display k)]). split.
  - unfold entry_path. by rewrite <-app_assoc.
  - unfold namespace_path, version_path, entry_level. rewrite !length_app. simpl. lia.
Qed.

Lemma entry_path_place n k : entry_place (entry_path cache n k).
Proof using Type.
  destruct (entry_path_split n k) as (d & -> & Hd). exists d, (CacheKey_display k).
  destruct (display_proper k) as (? & ? & ?). done.
Qed.

Lemma safe_lookup n k c v l w :
  valid l w ->
  safe (lookup_with_validation_and_cancellation sha256 from_slice rounds cache n k c v)
    (lookup_ok n k c v) l w.
Proof using Type.
  intros Hv. pose proof (entry_path_place n k) as Hp. check.
  call_with ltac:(by apply safe_lookup_entry_path). intros [e|] l1 w1 Hv1 _ _ H1; [by apply safe_ret|].
  call_with ltac:(by apply safe_ScanBudget_new). skip.
  call_with ltac:(apply (safe_replacement_paths _ k); [done|apply entry_path_split]).
  intros [ps scan] l3 w3 Hv3 _ _ Hps. simpl in Hps.
  call_with ltac:(by apply safe_lookup_entry_path). intros [e|] l4 w4 Hv4 _ _ H4; [by apply safe_ret|].
  call_with ltac:(by apply safe_lookup_replacements). intros [e|] l5 w5 Hv5 _ _ H5.
  - apply safe_ret; [done|]. by apply H5.
  - by apply safe_lookup_entry_path.
Qed.

(** ** Leases *)

(** A directory that may be claimed and removed. *)
Definition reapable (p : path) : Prop :=
  exists d name, p = d ++ [name] /\ length d = level /\
    contains REPLACEMENT_MARKER name = false /\ ~ staging_like name.

Lemma safe_claim d name name' l w :
  length d = level -> ~ staging_like name -> proper_name name' -> valid l w ->
  safe (fs_rename (d ++ [name]) (d ++ [name'])) anything l w.
Proof using Type. intros Hd Hs (? & ? & ?) Hv. by apply safe_rename. Qed.

Lemma parent_snoc (d : path) x : parent (d ++ [x]) = Some d.
Proof using Type. unfold parent. destruct (d ++ [x]) eqn:E; [by destruct d|]. by rewrite <-E, removelast_snoc. Qed.

Lemma safe_to_option {A} (o : option A) e l w :
  valid l w -> safe (to_option o e) (fun a _ _ => o = Some a) l w.
Proof using Type. intros Hv. apply safe_pure; [done|]. destruct o; by intros ? [= <-]. Qed.

Lemma to_str_Some s t : to_str s = Some t -> t = s.
Proof using Type. unfold to_str. destruct (utf8_valid _); by intros [= <-]. Qed.

Lemma safe_reap_directory p l w : valid l w -> reapable p -> safe (reap_directory rounds p) anything l w.
Proof using Type.
  intros Hv (d & name & -> & Hd & Hm & Hs). unfold reap_directory, file_name.
  rewrite parent_snoc, last_snoc. call_with ltac:(by apply safe_to_option).
  intros ? l1 w1 Hv1 _ _ [= <-]. call_with ltac:(by apply safe_to_option).
  intros ? l2 w2 Hv2 _ _ Hname. apply to_str_Some in Hname as ->.
  call_with ltac:(by apply safe_unique_token). intros t l3 w3 Hv3 _ _ (nanos & s & -> & _). cbv zeta.
  call_with ltac:(by apply safe_claim; [..|apply reaped_proper|]). skip.
  destruct a as [[]|[]]; [by apply safe_remove_dir_all_ok|by apply safe_ret|by apply safe_throw..].
Qed.

Lemma lease_reapable d k : length d = level -> reapable (d ++ [lease_name k]).
Proof using Type.
  intros Hd. exists d, (lease_name k). split_and!; [done|done|apply lease_no_marker|].
  apply lease_proper.
Qed.

(** The path of a lease of this cache. *)
Definition lease_place (p : path) : Prop := exists d k, p = d ++ [lease_name k] /\ length d = level.

Lemma lease_place_reapable p : lease_place p -> reapable p.
Proof using Type. intros (d & k & -> & ?). by apply lease_reapable. Qed.

Lemma lease_place_plain p s : lease_place p -> plain_path level (p ++ s).
Proof using Type.
  intros (d & k & -> & Hd). rewrite <-app_assoc. destruct (lease_proper k) as (? & ? & ?).
  by apply plain_snoc.
Qed.

Lemma safe_unix_millis l w : valid l w -> safe unix_millis anything l w.
Proof using Type. intros Hv. same SystemNow. by apply safe_ret. Qed.

Lemma safe_heartbeat_text l w : valid l w -> safe heartbeat_text anything l w.
Proof using Type. intros Hv. call_with ltac:(by apply safe_unix_millis). skip. by apply safe_ret. Qed.

Lemma safe_write_lease p name mode bs l w :
  valid l w -> lease_place p -> shared_name name -> mode = OpenTruncate \/ mode = OpenCreateTruncate ->
  safe (h ← fs_open (p ++ [name]) mode;
        match h with IoErr e => mret (IoErr e) | IoOk h => file_write h bs end) anything l w.
Proof using from_slice_nil.
  intros Hv Hp Hname Hmode.
  call_with ltac:(apply (safe_open_write _ _ _ _ (p ++ [name]) mode name); [done|by apply lease_place_plain|
    by rewrite last_snoc|done..]).
  intros [h|e] l1 w1 Hv1 _ _ Hh; [|by apply safe_ret].
  by apply (safe_write_shared _ _ _ _ h name); [..|apply Hh].
Qed.

Lemma safe_acquire_loop fuel p o started l w :
  valid l w -> lease_place p ->
  safe (acquire_loop rounds fuel p o started) (fun x _ _ => lease_path x = p) l w.
Proof using from_slice_nil.
  revert l w. induction fuel as [|fuel IH]; intros l w Hv Hp; [done|]. cbn [acquire_loop]. check.
  assert (forall l w, valid l w ->
    safe (_ ← ignoring (reap_directory rounds p); throw Io : Prog WriterLease)
      (fun x _ _ => lease_path x = p) l w) as Hreap.
  { intros l' w' Hv'. call_with ltac:(apply safe_ignoring; [by apply valid_owned|];
      apply safe_reap_directory; [done|by apply lease_place_reapable]). skip. by apply safe_throw. }
  call_with ltac:(apply safe_create_dir; [|done]; rewrite <-(app_nil_r p); by apply lease_place_plain).
  skip. destruct a0 as [[]|e].
  - call_with ltac:(by apply safe_unique_token). skip. cbv zeta.
    call_with ltac:(apply safe_write_lease; [done|done|by left|by right]). skip.
    destruct a1 as [[]|]; [|by apply Hreap].
    call_with ltac:(by apply safe_heartbeat_text). skip.
    call_with ltac:(apply safe_write_lease; [done|done|by right|by right]). skip.
    destruct a2 as [[]|]; [|by apply Hreap]. by apply safe_ret.
  - destruct (lease_is_contended e); [|by apply safe_throw].
    call_with ltac:(by apply safe_lease_is_stale). skip. destruct a0.
    + call_with ltac:(apply safe_reap_directory; [done|by apply lease_place_reapable]). skip.
      by apply IH.
    + same InstantNow. destruct (_ <=? _); [by apply safe_throw|]. same Pause. by apply IH.
Qed.

Lemma safe_WriterLease_acquire d k o l w :
  valid l w -> length d = level ->
  safe (WriterLease_acquire rounds d k o) (fun x _ _ => lease_place (lease_path x)) l w.
Proof using from_slice_nil.
  intros Hv Hd. same InstantNow. assert (lease_place (d ++ [lease_name k])) as Hp by (by exists d, k).
  eapply safe_mono; [by apply safe_acquire_loop|]. by intros x ? ? ->.
Qed.

Lemma safe_release_writer_lease p l w :
  valid l w -> lease_place p -> safe (release_writer_lease rounds p) anything l w.
Proof using Type.
  intros Hv (d & k & -> & Hd). unfold release_writer_lease, file_name. rewrite parent_snoc, last_snoc.
  cbn [mbind option_bind]. destruct (to_str (lease_name k)) as [name|] eqn:E; [|by apply safe_ret].
  apply to_str_Some in E as ->.
  call_with ltac:(by apply safe_unique_token). intros t l3 w3 Hv3 _ _ (nanos & s & -> & _). cbv zeta.
  call_with ltac:(apply safe_claim; [done|apply lease_proper|apply reaped_proper, lease_no_marker|done]).
  skip. destruct a as [[]|]; [|by apply safe_ret].
  apply safe_ignoring; [by apply valid_owned|]. by apply safe_remove_dir_all.
Qed.

Lemma safe_WriterLease_drop x l w :
  valid l w -> lease_place (lease_path x) -> safe (WriterLease_drop rounds x) anything l w.
Proof using Type.
  intros Hv Hp. unfold WriterLease_drop. destruct (negb _); [by apply safe_ret|].
  call_with ltac:(by apply safe_read_to_string). skip. destruct a as [owner|]; [|by apply safe_ret].
  case_bool_decide; [by apply safe_release_writer_lease|by apply safe_ret].
Qed.
End Specs.
