(* ===== verification/CachePublish.v ===== *)
(** * Publication keeps every entry complete

    A writer stages payload and envelope in a directory of its own, whose token
    nobody else draws, and moves it to its place when both are written. *)

From S2P Require Import Prelude Errors Tensor Identity Order FileReader FileSystem.
From S2P Require Import Cache CacheNames Interference CacheSpecs.
From stdpp Require Import strings gmap.
Local Open Scope N_scope.

(** What the encoder and the decoder of envelopes promise: an encoding is read
    as what was encoded, and no part of it is read as anything. *)
Record envelope_codec (to_vec : CacheEnvelope -> option bytes)
  (from_slice : bytes -> option CacheEnvelope) : Prop := {
  codec_nil : from_slice [] = None;
  codec_whole e bs : to_vec e = Some bs -> from_slice bs = Some e;
  codec_part e bs n :
    to_vec e = Some bs -> (n < length bs)%nat -> from_slice (take n bs) = None
}.

Section Publish.
Context (sha256 : bytes -> bytes) (to_vec : CacheEnvelope -> option bytes).
Context (from_slice : bytes -> option CacheEnvelope) (rounds : nat) (pid : N) (cache : CacheInner).
Context (codec : envelope_codec to_vec from_slice).

Local Notation level := (entry_level cache).
Local Notation consistent := (consistent sha256 from_slice level).
Local Notation owned_ok := (owned_ok level pid).
Local Notation valid := (valid sha256 from_slice level pid).
Local Notation rely := (rely sha256 from_slice level pid).
Local Notation guarantee := (guarantee sha256 from_slice level pid).
Local Notation wp := (wp sha256 from_slice level pid).
Local Notation safe := (safe sha256 from_slice level pid).
Implicit Types (w : World) (l : Local).

(** ** Staging directories *)

(** A staging directory of this program. *)
Definition stage (s : path) l : Prop :=
  exists d name, s = d ++ [name] /\ length d = level /\ own pid l name.

Lemma own_staging_like l name : own pid l name -> staging_like name.
Proof using Type. intros (k & nanos & q & -> & _). by exists k, pid, nanos, q. Qed.

Lemma stage_grows s l l' : grows l l' -> stage s l -> stage s l'.
Proof using Type. intros Hg (d & name & -> & ? & ?). exists d, name. split_and!; [done..|by eapply own_grows]. Qed.

Lemma stage_level s t l : stage s l -> exists name, (s ++ t) !! level = Some name /\ own pid l name.
Proof using Type. intros (d & name & -> & Hd & Ho). exists name. split; [|done]. by apply rename_level. Qed.

Lemma stage_path_ok s t l : stage s l -> path_ok level pid l (s ++ t).
Proof using Type.
  intros Hs name Hn. destruct (stage_level s t l Hs) as (name' & Hn' & Ho). simplify_eq.
  split; [|done]. intros H. apply own_staging_like, staging_no_marker in Ho. congruence.
Qed.

(** A name inside a staging directory stays free, or keeps its file. *)
Definition free_name (p : path) w : Prop := nodes w !! p = None.
Definition only_file (p : path) (i : nat) w : Prop := forall n, nodes w !! p = Some n -> n = FileNode i.
Definition only_link (p : path) (i : nat) w : Prop := forall q, nodes w !! q = Some (FileNode i) -> q = p.

Lemma free_name_rely s t l w w' : stage s l -> rely l w w' -> free_name (s ++ t) w -> free_name (s ++ t) w'.
Proof using Type.
  intros Hs Hr Hf. unfold free_name in *. destruct (nodes w' !! (s ++ t)) eqn:E; [|done].
  destruct (stage_level s t l Hs) as (name & Hn & Ho).
  by rewrite (r_nodes _ _ _ _ _ _ _ Hr _ _ _ Hn Ho E) in Hf.
Qed.

Lemma only_file_rely s t i l w w' :
  stage s l -> rely l w w' -> only_file (s ++ t) i w -> only_file (s ++ t) i w'.
Proof using Type.
  intros Hs Hr Hf n E. destruct (stage_level s t l Hs) as (name & Hn & Ho).
  apply Hf. by apply (r_nodes _ _ _ _ _ _ _ Hr _ _ _ Hn Ho E).
Qed.

Lemma only_link_rely p i l w w' : i ∈ unsealed l -> rely l w w' -> only_link p i w -> only_link p i w'.
Proof using Type.
  intros Hi Hr Hf q Hq. apply Hf.
  destruct (owned_unsealed _ _ _ _ (r_owned _ _ _ _ _ _ _ Hr) i Hi) as (_ & _ & Hl).
  destruct (Hl q Hq) as (name & Hn & Ho). by apply (r_nodes _ _ _ _ _ _ _ Hr _ _ _ Hn Ho Hq).
Qed.

(** A file that this program writes, at its only place. *)
Record staged (p : path) (name : string) (i : nat) (bs : bytes) l w : Prop := {
  staged_unsealed : i ∈ unsealed l;
  staged_born : born w !! i = Some name;
  staged_bytes : inode_bytes w i = bs;
  staged_link : only_link (p ++ [name]) i w;
  staged_file : only_file (p ++ [name]) i w
}.

Lemma staged_rely s name i bs l l' w w' :
  stage s l -> grows l l' -> owned_ok l w -> rely l w w' ->
  staged s name i bs l w -> staged s name i bs l' w'.
Proof using Type.
  intros Hs Hg Ho Hr [Hu Hb Hbs Hl Hf]. split.
  - by rewrite (grows_unsealed _ _ Hg).
  - rewrite (r_born _ _ _ _ _ _ _ Hr); [done|]. by destruct (owned_unsealed _ _ _ _ Ho i Hu).
  - rewrite <-Hbs. apply Hr. by left.
  - by eapply only_link_rely.
  - by eapply only_file_rely.
Qed.

(** ** Programs that change what the program owns *)

Definition does {A} (m : Prog A) (P : A -> Local -> World -> Prop) l w : Prop :=
  wp m (fun r l' w' => valid l' w' /\ on_value P r l' w') l w.

Lemma does_mono {A} (m : Prog A) (P P' : A -> Local -> World -> Prop) l w :
  does m P l w -> (forall a l' w', valid l' w' -> P a l' w' -> P' a l' w') -> does m P' l w.
Proof using Type.
  intros H HP. eapply wp_weaken; [exact H|]. intros r l' w' [Hv HR]. split; [done|].
  destruct r; simpl in *; auto.
Qed.

Lemma does_bind {A B} (m : Prog A) (f : A -> Prog B) P Q l w :
  does m P l w -> (forall a l' w', valid l' w' -> P a l' w' -> does (f a) Q l' w') ->
  does (m ≫= f) Q l w.
Proof using Type.
  intros Hm Hf. apply wp_and_then. eapply wp_weaken; [exact Hm|].
  intros [a|e|] l' w' [Hv HP]; [by apply Hf|done..].
Qed.

Lemma does_safe {A} (m : Prog A) (P : A -> Local -> World -> Prop) l w :
  safe m P l w -> does m (fun a l' w' => grows l l' /\ rely l w w' /\ P a l' w') l w.
Proof using Type.
  intros H. eapply wp_weaken; [exact H|]. intros r l' w' (Hv & Hg & Hr & HP). split; [done|].
  by destruct r.
Qed.

Lemma does_ret {A} (a : A) (P : A -> Local -> World -> Prop) l w : valid l w -> P a l w -> does (mret a) P l w.
Proof using Type. by split. Qed.

(** One call. *)
Lemma does_call (a : action) (P : answer a -> Local -> World -> Prop) l w :
  (forall w1 o, rely l w w1 ->
     let w2 := snd (serve pid o a w1) in
     exists l', guarantee l w1 l' w2 /\ P (fst (serve pid o a w1)) l' w2) ->
  does (call a) P l w.
Proof using Type.
  intros H w1 o Hr _ _. destruct (H w1 o Hr) as (l' & Hg & HP). exists l'. split; [done|].
  split; [|done]. split; apply Hg.
Qed.

Lemma does_create_stage d name l w :
  length d = level -> own pid l name ->
  does (fs_create_dir (d ++ [name])) (fun r l' w' =>
    l' = l /\ (r = IoOk tt -> forall x, free_name ((d ++ [name]) ++ [x]) w')) l w.
Proof using Type.
  intros Hd Ho. assert (stage (d ++ [name]) l) as Hs by (by exists d, name).
  apply does_call. intros w1 o Hr. cbn [serve].
  pose proof (rely_valid _ _ _ _ _ _ _ Hr) as [Hc Hown]. unfold create_dir.
  assert (d ++ [name] <> []) as Hne by (by destruct d).
  destruct (fault o); [exists l; split; [by apply guarantee_refl|done]|].
  destruct (node_at w1 (d ++ [name])) eqn:Hn; [exists l; split; [by apply guarantee_refl|done]|].
  destruct (parent_dir w1 (d ++ [name])) eqn:Hp; [|exists l; split; [by apply guarantee_refl|done]].
  exists l. cbn [fst snd]. split.
  - apply guarantee_mkdir; try done. rewrite <-(app_nil_r (d ++ [name])). by apply stage_path_ok.
  - split; [done|]. intros _ x. unfold free_name. simpl.
    rewrite lookup_insert_ne by (intros E; apply (f_equal length) in E; rewrite !length_app in E; simpl in E; lia).
    destruct (nodes w1 !! ((d ++ [name]) ++ [x])) as [n|] eqn:E; [|done].
    apply (consistent_closed _ _ _ _ Hc) in E as [_ E]. rewrite removelast_snoc in E. congruence.
Qed.

Lemma snoc_ne (s : path) x y : x <> y -> s ++ [x] <> s ++ [y].
Proof using Type. intros H E. apply app_inj_tail in E as [_ ?]. done. Qed.

Lemma does_create_file s name l w :
  valid l w -> stage s l -> sealed_name name ->
  (name = PAYLOAD_FILE -> free_name (s ++ [METADATA_FILE]) w) ->
  does (fs_open (s ++ [name]) OpenCreateNew) (fun r l' w' =>
    stage s l' /\
    (forall name' i bs, name' <> name -> staged s name' i bs l w -> staged s name' i bs l' w') /\
    (forall name', name' <> name -> free_name (s ++ [name']) w -> free_name (s ++ [name']) w') /\
    forall h, r = IoOk h -> exists i,
      handle_inode h = Some i /\ position h = 0 /\ staged s name i [] l' w') l w.
Proof using codec.
  intros [_ Hown] Hs Hname Hfree. apply does_call. intros w1 o Hr. cbn [serve].
  pose proof (rely_valid _ _ _ _ _ _ _ Hr) as [Hc Ho].
  assert (forall name' i bs, staged s name' i bs l w -> staged s name' i bs l w1) as Hst
    by (intros; by apply (staged_rely s _ _ _ l l w)).
  assert (forall name', free_name (s ++ [name']) w -> free_name (s ++ [name']) w1) as Hfr
    by (intros; by eapply free_name_rely).
  assert (forall r : io Handle, (forall h, r <> IoOk h) ->
    exists l', guarantee l w1 l' w1 /\ stage s l' /\
    (forall name' i bs, name' <> name -> staged s name' i bs l w -> staged s name' i bs l' w1) /\
    (forall name', name' <> name -> free_name (s ++ [name']) w -> free_name (s ++ [name']) w1) /\
    forall h, r = IoOk h -> exists i,
      handle_inode h = Some i /\ position h = 0 /\ staged s name i [] l' w1) as Hnone.
  { intros r H. exists l. split_and!; [by apply guarantee_refl|done|auto..|].
    intros h E. by destruct (H h). }
  unfold open. destruct (fault o); [by apply Hnone|].
  destruct (node_at w1 (s ++ [name])) eqn:Hn; [by apply Hnone|].
  destruct (parent_dir w1 (s ++ [name])) eqn:Hp; [|unfold create_file; rewrite Hp; by apply Hnone].
  rewrite (create_file_Ok _ _ name) by (done || apply last_snoc). cbn [fst snd].
  set (i := next_inode w1). exists (own_file name i l).
  assert (forall j, j ∈ unsealed l -> (j < i)%nat) as Hold
    by (intros j Hj; by destruct (owned_unsealed _ _ _ _ Ho j Hj)).
  assert (unsealed (own_file name i l) = {[i]} ∪ unsealed l) as Hun.
  { unfold own_file. by rewrite decide_True. }
  split_and!.
  - apply guarantee_create; try done; [by apply stage_path_ok|by apply last_snoc|by left|apply codec| |].
    + intros m E. rewrite removelast_snoc. rewrite (Hfr _ (Hfree E)). done.
    + intros _. by apply stage_level.
  - destruct Hs as (d & nm & -> & ? & k & nanos & q & -> & Hq). exists d, (staging_name k (token_text pid nanos q)).
    split_and!; [done..|]. exists k, nanos, q. split; [done|]. unfold own_file. by case_decide.
  - intros name' j bs Hne [Hu Hb Hbs Hl Hf]%Hst. pose proof (Hold j Hu) as Hj. split.
    + rewrite Hun. set_solver.
    + simpl. rewrite lookup_insert_ne by lia. done.
    + rewrite with_file_bytes, decide_False by lia. done.
    + intros q [[-> [= ->]]|[_ Hq]]%with_file_nodes; [lia|by apply Hl].
    + intros n [[E _]|[_ Hq]]%with_file_nodes; [|by apply Hf]. by apply snoc_ne in E.
  - intros name' Hne Hf%Hfr. unfold free_name. simpl. rewrite lookup_insert_ne; [done|].
    intros E. by apply (snoc_ne s name name').
  - intros h [= <-]. exists i. split_and!; [done..|]. split.
    + rewrite Hun. set_solver.
    + simpl. by rewrite lookup_insert_eq.
    + by rewrite with_file_bytes, decide_True.
    + intros q [[-> _]|[_ Hq]]%with_file_nodes; [done|]. apply (consistent_inode _ _ _ _ Hc) in Hq. lia.
    + intros n [[_ ->]|[E _]]%with_file_nodes; done.
Qed.

Lemma overwrite_end bs more : overwrite bs (N.of_nat (length bs)) more = bs ++ more.
Proof using Type.
  unfold overwrite. rewrite Nat2N.id, firstn_all, Nat.sub_diag, drop_ge by lia.
  by rewrite app_nil_r.
Qed.

(** Where a staged file is linked, and as what. *)
Lemma staged_linked s name i bs l w d f :
  consistent w -> staged s name i bs l w -> special_name f ->
  nodes w !! (d ++ [f]) = Some (FileNode i) -> d = s /\ f = name.
Proof using Type.
  intros Hc [_ Hb _ Hl _] Hf Hn. pose proof (Hl _ Hn) as E. apply app_inj_tail in E as [-> ->].
  done.
Qed.

Lemma does_write_payload s i h bs more l w :
  valid l w -> stage s l -> staged s PAYLOAD_FILE i bs l w -> free_name (s ++ [METADATA_FILE]) w ->
  handle_inode h = Some i -> position h = N.of_nat (length bs) ->
  does (file_write h more) (fun r l' w' =>
    l' = l /\ free_name (s ++ [METADATA_FILE]) w' /\
    (r = IoOk tt -> staged s PAYLOAD_FILE i (bs ++ more) l w')) l w.
Proof using Type.
  intros [_ Hown] Hs Hst Hfree Hi Hpos. apply does_call. intros w1 o Hr. cbn [serve].
  pose proof (rely_valid _ _ _ _ _ _ _ Hr) as [Hc Ho].
  assert (staged s PAYLOAD_FILE i bs l w1) as Hst1 by (by apply (staged_rely s _ _ _ l l w)).
  assert (free_name (s ++ [METADATA_FILE]) w1) as Hf1 by (by eapply free_name_rely).
  unfold write_all. rewrite Hi. cbn [fst snd]. exists l. split; [|split_and!; [done|done|]].
  - apply guarantee_write; [done..|right; apply Hst1|]. intros d m p e Hm Hp [->| ->] _.
    + apply (staged_linked _ _ _ _ _ _ _ _ Hc Hst1) in Hm as [_ E]; [done|left; by right].
    + apply (staged_linked _ _ _ _ _ _ _ _ Hc Hst1) in Hp as [-> _]; [|left; by left].
      unfold free_name in Hf1. congruence.
  - destruct (fault o); [done|]. intros _. destruct Hst1 as [Hu Hb Hbs Hl Hf]. split; try done.
    rewrite set_bytes_bytes, decide_True by done. rewrite Hbs, Hpos. apply overwrite_end.
Qed.

Lemma does_write_metadata s i m h bs e tv l w :
  valid l w -> stage s l ->
  staged s PAYLOAD_FILE i bs l w -> staged s METADATA_FILE m [] l w ->
  handle_inode h = Some m -> position h = 0 -> to_vec e = Some tv ->
  N.of_nat (length bs) = envelope_payload_len e ->
  from_bytes (sha256 bs) = envelope_payload_digest e ->
  does (file_write h tv) (fun _ l' _ => l' = l) l w.
Proof using codec.
  intros [_ Hown] Hs Hsp Hsm Hm Hpos Htv Hlen Hdig. apply does_call. intros w1 o Hr. cbn [serve].
  pose proof (rely_valid _ _ _ _ _ _ _ Hr) as [Hc Ho].
  assert (staged s PAYLOAD_FILE i bs l w1) as Hsp1 by (by apply (staged_rely s _ _ _ l l w)).
  assert (staged s METADATA_FILE m [] l w1) as Hsm1 by (by apply (staged_rely s _ _ _ l l w)).
  unfold write_all. rewrite Hm. cbn [fst snd]. exists l. split; [|done].
  apply guarantee_write; [done..|right; apply Hsm1|]. intros d m' p e' Hm' Hp [->| ->].
  - apply (staged_linked _ _ _ _ _ _ _ _ Hc Hsm1) in Hm' as [-> _]; [|left; by right].
    rewrite set_bytes_bytes, decide_True by done. rewrite (staged_bytes _ _ _ _ _ _ Hsm1), Hpos.
    change 0 with (N.of_nat (length (@nil byte))). rewrite overwrite_end. cbn [app]. intros He.
    assert (e' = e) as ->.
    { destruct (fault o).
      - destruct (decide (N.to_nat (chunk o) < length tv)%nat) as [Hlt|Hge].
        + by rewrite (codec_part _ _ codec _ _ _ Htv Hlt) in He.
        + rewrite take_ge, (codec_whole _ _ codec _ _ Htv) in He by lia. congruence.
      - rewrite (codec_whole _ _ codec _ _ Htv) in He. congruence. }
    pose proof (staged_file _ _ _ _ _ _ Hsp1 _ Hp) as [= ->].
    rewrite set_bytes_bytes, decide_False; [by rewrite (staged_bytes _ _ _ _ _ _ Hsp1)|].
    intros ->. pose proof (staged_born _ _ _ _ _ _ Hsp1). pose proof (staged_born _ _ _ _ _ _ Hsm1).
    by simplify_eq.
  - apply (staged_linked _ _ _ _ _ _ _ _ Hc Hsm1) in Hp as [_ E]; [done|left; by left].
Qed.

(** The staged entry moves to its place, and belongs to its writer no more. *)
Lemma does_place s dq nq l w :
  stage s l -> length dq = level -> proper_name nq ->
  does (fs_rename s (dq ++ [nq])) anything l w.
Proof using Type.
  intros (d & name & -> & Hd & Hown) Hdq (Ht & Hnq & Hsp). apply does_call. intros w1 o Hr. cbn [serve].
  pose proof (rely_valid _ _ _ _ _ _ _ Hr) as [Hc Ho].
  assert (exists l', guarantee l w1 l' w1 /\ True) as Hsame by (exists l; split; [by apply guarantee_refl|done]).
  unfold rename. destruct (fault o); [done|]. destruct (node_at w1 (d ++ [name])) as [m|]; [|done].
  case_bool_decide as Hpq; [done|]. destruct (_ || _); [done|].
  destruct (parent_dir w1 (dq ++ [nq])) eqn:Hp; [|done]. cbn [negb].
  destruct (replaces _ _ _); [|done]. cbn [fst snd].
  apply parent_dir_spec in Hp as [_ Hp]. rewrite removelast_snoc in Hp.
  exists (handed_over l). split; [|done]. apply guarantee_rename; try done. by right.
Qed.

(** ** Programs with guards *)

Definition guards_ok (g : Guards) : Prop := lease_place cache (lease_path (lease g)).

Definition gdoes {A} (m : Guarded A) (P : A -> Local -> World -> Prop) g l w : Prop :=
  wp (m g) (fun r l' w' => valid l' w' /\
    match r with Ok (g', r') => guards_ok g' /\ on_value P r' l' w' | _ => True end) l w.

Lemma gdoes_mono {A} (m : Guarded A) (P P' : A -> Local -> World -> Prop) g l w :
  gdoes m P g l w -> (forall a l' w', valid l' w' -> P a l' w' -> P' a l' w') -> gdoes m P' g l w.
Proof using Type.
  intros H HP. eapply wp_weaken; [exact H|]. intros [[g' [a|e|]]|e|] l' w' [Hv HR]; split; try done.
  destruct HR as [Hg HR]. split; [done|]. simpl in *. by apply HP.
Qed.

Lemma gdoes_ret {A} (a : A) (P : A -> Local -> World -> Prop) g l w :
  valid l w -> guards_ok g -> P a l w -> gdoes (mret a) P g l w.
Proof using Type. intros Hv Hg HP. split; [done|by split]. Qed.

Lemma gdoes_bind {A B} (m : Guarded A) (f : A -> Guarded B) P Q g l w :
  gdoes m P g l w ->
  (forall a g' l' w', valid l' w' -> guards_ok g' -> P a l' w' -> gdoes (f a) Q g' l' w') ->
  gdoes (m ≫= f) Q g l w.
Proof using Type.
  intros Hm Hf. unfold gdoes, mbind, Guarded_bind. apply wp_and_then. eapply wp_weaken; [exact Hm|].
  intros [[g' [a|e|]]|e|] l' w' [Hv HR]; [|destruct HR; split; [done|by split]..|done|done].
  destruct HR as [Hg HP]. by apply Hf.
Qed.

Lemma gdoes_step {A} (m : Prog A) (P : A -> Local -> World -> Prop) g l w :
  guards_ok g -> does m P l w -> gdoes (step m) P g l w.
Proof using Type.
  intros Hg Hm. apply wp_and_then. eapply wp_weaken; [exact Hm|]. intros r l' w' [Hv HR].
  split; [done|by split].
Qed.

Lemma gdoes_running {A} (P : A -> Local -> World -> Prop) g l w : gdoes (fun _ => Running) P g l w.
Proof using Type. done. Qed.

(** A call that keeps what the program owns, and what the later ones may use. *)
Definition keeps l w l' w' : Prop := grows l l' /\ rely l w w'.

Lemma keeps_trans l w l1 w1 l2 w2 :
  owned_ok l w -> keeps l w l1 w1 -> keeps l1 w1 l2 w2 -> keeps l w l2 w2.
Proof using Type.
  intros Ho [Hg1 Hr1] [Hg2 Hr2]. split; [by etrans|]. eapply rely_trans; [done|].
  eapply rely_grows; [done| |done]. apply Hr1.
Qed.

Lemma gdoes_safe {A} (m : Prog A) (P : A -> Local -> World -> Prop) g l w :
  guards_ok g -> safe m P l w -> gdoes (step m) (fun a l' w' => keeps l w l' w' /\ P a l' w') g l w.
Proof using Type.
  intros Hg Hm. apply gdoes_step; [done|]. eapply does_mono; [by apply does_safe|].
  by intros a l' w' _ (? & ? & ?).
Qed.

Lemma gdoes_WriterLease_refresh g l w :
  valid l w -> guards_ok g -> gdoes (WriterLease_refresh) (fun _ l' w' => keeps l w l' w') g l w.
Proof using codec.
  intros Hv Hg. pose proof Hv as [_ Ho].
  eapply (gdoes_bind _ _ (fun x l' w' => l' = l /\ w' = w /\ lease_place cache (lease_path x)));
    [split; [done|by split]|].
  intros x g1 ? ? _ Hg1 (-> & -> & Hx).
  eapply gdoes_bind; [apply gdoes_safe; [done|]; apply safe_ok; [done|by apply safe_read_to_string]|].
  intros owner g2 l2 w2 Hv2 Hg2 [Hk2 _]. destruct (negb _).
  - eapply (gdoes_bind _ _ (fun _ l' w' => keeps l w l' w')); [split; [done|by split]|].
    intros _ g3 l3 w3 Hv3 Hg3 Hk3. apply gdoes_step; [done|by split].
  - assert (from_slice [] = None) as Hnil by apply codec.
    eapply gdoes_bind; [apply gdoes_safe; [done|]; apply safe_call_ok; [by apply Hv2|];
      apply (safe_open_write _ _ _ _ _ OpenTruncate HEARTBEAT_FILE); [done|by apply lease_place_plain|
        by rewrite last_snoc|by right|by left|done]|].
    intros h g3 l3 w3 Hv3 Hg3 [Hk3 Hh]. apply gdoes_step; [done|].
    assert (keeps l w l3 w3) as Hk by (by eapply keeps_trans).
    eapply does_mono; [apply does_safe|].
    + eapply (safe_bind _ _ _ _ _ _ anything); [by apply Hv3|by apply safe_heartbeat_text|].
      intros millis l4 w4 Hv4 Hg4 Hr4 _. apply safe_ok; [done|].
      apply (safe_write_shared _ _ _ _ h HEARTBEAT_FILE); [by right|done|]. by eapply shared_handle_rely.
    + intros _ l4 w4 Hv4 (? & ? & _). by eapply keeps_trans.
Qed.

(** ** Staging and writing *)

Lemma does_staging_attempts n d k l w :
  valid l w -> length d = level ->
  does (staging_attempts n d k) (fun s l' w' =>
    stage (staging_path s) l' /\ forall x, free_name (staging_path s ++ [x]) w') l w.
Proof using Type.
  revert l w. induction n as [|n IH]; intros l w Hv Hd; cbn [staging_attempts]; [by split|].
  eapply does_bind; [apply does_safe; by apply safe_unique_token|].
  intros t l1 w1 Hv1 (_ & _ & nanos & q & -> & Hq). cbv zeta.
  set (name := staging_name k (token_text pid nanos q)).
  assert (own pid l1 name) as Hown by (by exists k, nanos, q).
  eapply does_bind; [by apply does_create_stage|].
  intros [[]|[]] l2 w2 Hv2 [-> Hfree]; [|by split|by apply IH|by split].
  apply does_ret; [done|]. simpl. split; [by exists d, name|by apply Hfree].
Qed.

Lemma gdoes_payload_loop fuel h (R : Reader) (input : reader_state R) bs s i g l w :
  valid l w -> guards_ok g -> stage s l -> staged s PAYLOAD_FILE i bs l w ->
  free_name (s ++ [METADATA_FILE]) w -> handle_inode h = Some i ->
  position h = N.of_nat (length bs) ->
  gdoes (payload_loop sha256 fuel h R input bs (N.of_nat (length bs)))
    (fun r l' w' => exists bs', stage s l' /\ staged s PAYLOAD_FILE i bs' l' w' /\
       free_name (s ++ [METADATA_FILE]) w' /\
       r.1.1 = N.of_nat (length bs') /\ r.1.2 = from_bytes (sha256 bs')) g l w.
Proof using codec.
  revert h input bs g l w. induction fuel as [|fuel IH];
    intros h input bs g l w Hv Hg Hs Hst Hfree Hi Hpos; [done|]. cbn [payload_loop].
  pose proof Hv as [_ Ho].
  eapply gdoes_bind; [apply gdoes_safe; [done|by apply safe_check_cancelled]|].
  intros _ g1 l1 w1 Hv1 Hg1 [Hk1 _].
  eapply gdoes_bind; [by apply gdoes_WriterLease_refresh|].
  intros _ g2 l2 w2 Hv2 Hg2 Hk2%(keeps_trans l w); [|done..].
  destruct (read_some R input COPY_BUFFER_BYTES) as [r input'].
  eapply gdoes_bind; [apply gdoes_safe; [done|by apply (safe_io_ok _ _ _ _ r anything)]|].
  intros more g3 l3 w3 Hv3 Hg3 [Hk3 _].
  assert (keeps l w l3 w3) as [Hgr Hr] by (by eapply keeps_trans).
  assert (stage s l3) as Hs3 by (by eapply stage_grows).
  assert (staged s PAYLOAD_FILE i bs l3 w3) as Hst3 by (by apply (staged_rely s _ _ _ l l3 w)).
  assert (free_name (s ++ [METADATA_FILE]) w3) as Hfree3 by (by apply (free_name_rely s _ l w)).
  destruct (length more =? 0)%nat.
  { apply gdoes_ret; [done..|]. by exists bs. }
  eapply (gdoes_bind _ _ (fun _ l' w' => l' = l3 /\ w' = w3));
    [by split; [done|split; [done|destruct (_ <=? _)]]|].
  intros _ g4 ? ? _ Hg4 [-> ->].
  eapply (gdoes_bind _ _ (fun _ l' w' => l' = l3 /\ free_name (s ++ [METADATA_FILE]) w' /\
    staged s PAYLOAD_FILE i (bs ++ more) l3 w')).
  { apply gdoes_step; [done|]. eapply does_bind; [by apply (does_write_payload s i h bs more)|].
    intros [[]|e] l5 w5 Hv5 (-> & ? & Hw); [|by split]. apply does_ret; [done|]. by auto. }
  intros _ g5 ? w5 Hv5 Hg5 (-> & Hfree5 & Hst5).
  eapply (gdoes_bind _ _ (fun n l' w' => l' = l3 /\ w' = w5 /\
    n = N.of_nat (length (bs ++ more)))).
  { apply gdoes_step; [done|]. unfold to_option. split; [done|].
    destruct (checked_add _ _) eqn:E; simpl; [|done]. apply checked_add_Some in E as [-> _].
    split_and!; [done..|]. rewrite length_app. lia. }
  intros ? g6 ? ? Hv6 Hg6 (-> & -> & ->).
  apply IH; [done..|]. simpl. rewrite Hpos, length_app. lia.
Qed.

Lemma gdoes_write_payload s (R : Reader) (input : reader_state R) g l w :
  valid l w -> guards_ok g -> stage s l -> (forall x, free_name (s ++ [x]) w) ->
  gdoes (write_payload sha256 rounds (s ++ [PAYLOAD_FILE]) R input)
    (fun r l' w' => exists i bs, stage s l' /\ staged s PAYLOAD_FILE i bs l' w' /\
       free_name (s ++ [METADATA_FILE]) w' /\
       r.1 = N.of_nat (length bs) /\ r.2 = from_bytes (sha256 bs)) g l w.
Proof using codec.
  intros Hv Hg Hs Hfree.
  eapply (gdoes_bind _ _ (fun h l' w' => exists i, stage s l' /\ staged s PAYLOAD_FILE i [] l' w' /\
    free_name (s ++ [METADATA_FILE]) w' /\ handle_inode h = Some i /\ position h = 0)).
  { apply gdoes_step; [done|]. eapply does_bind.
    - apply (does_create_file s PAYLOAD_FILE); [done|done|by left|by intros _].
    - intros r l1 w1 Hv1 (Hs1 & _ & Hf1 & Hr). destruct r as [h|]; [|by split].
      destruct (Hr h eq_refl) as (i & ? & ? & ?). apply does_ret; [done|]. exists i.
      split_and!; [done|done| |done|done]. apply Hf1; [done|apply Hfree]. }
  intros h g1 l1 w1 Hv1 Hg1 (i & Hs1 & Hst1 & Hf1 & Hi & Hpos).
  eapply gdoes_bind; [by apply (gdoes_payload_loop rounds h R input [] s i)|].
  intros [[total digest] output] g2 l2 w2 Hv2 Hg2 (bs & Hs2 & Hst2 & Hf2 & Htotal & Hdigest).
  simpl in Htotal, Hdigest.
  eapply gdoes_bind; [apply gdoes_safe; [done|]; apply safe_ok; [done|];
    by apply (safe_unchanged _ _ _ _ (SyncAll output))|].
  intros [] g3 l3 w3 Hv3 Hg3 [[Hgr Hr] _]. pose proof Hv2 as [_ Ho2]. apply gdoes_ret; [done..|].
  exists i, bs. split_and!; [by eapply stage_grows|by apply (staged_rely s _ _ _ l2 l3 w2)|
    by apply (free_name_rely s _ l2 w2)|done..].
Qed.

Lemma gdoes_write_envelope s i bs e g l w :
  valid l w -> guards_ok g -> stage s l -> staged s PAYLOAD_FILE i bs l w ->
  free_name (s ++ [METADATA_FILE]) w ->
  N.of_nat (length bs) = envelope_payload_len e ->
  from_bytes (sha256 bs) = envelope_payload_digest e ->
  gdoes (step (write_envelope to_vec s e)) (fun _ l' _ => stage s l') g l w.
Proof using codec.
  intros Hv Hg Hs Hst Hfree Hlen Hdig. apply gdoes_step; [done|]. unfold write_envelope.
  destruct (to_vec e) as [tv|] eqn:E; [|by split]. cbn [ok_or].
  eapply (does_bind _ _ (fun x l' w' => x = tv /\ l' = l /\ w' = w)); [by split|].
  intros ? ? ? _ (-> & -> & ->).
  eapply (does_bind _ _ (fun _ l' w' => l' = l /\ w' = w)).
  { split; [done|]. by destruct (reject _ _). }
  intros _ ? ? _ (-> & ->).
  eapply (does_bind _ _ (fun h l' w' => exists m, stage s l' /\ staged s PAYLOAD_FILE i bs l' w' /\
    staged s METADATA_FILE m [] l' w' /\ handle_inode h = Some m /\ position h = 0)).
  { eapply does_bind; [by apply (does_create_file s METADATA_FILE); [..|by right|]|].
    intros r l1 w1 Hv1 (Hs1 & Hst1 & _ & Hr). destruct r as [h|]; [|by split].
    destruct (Hr h eq_refl) as (m & ? & ? & ?). apply does_ret; [done|]. exists m.
    split_and!; try done. by apply Hst1. }
  intros h l1 w1 Hv1 (m & Hs1 & Hp1 & Hm1 & Hi & Hpos).
  eapply (does_bind _ _ (fun _ l' _ => stage s l')).
  { eapply does_bind; [by apply (does_write_metadata s i m h bs e tv)|].
    intros [[]|] l2 w2 Hv2 ->; [by apply does_ret|by split]. }
  intros [] l2 w2 Hv2 Hs2. eapply does_mono.
  - apply does_safe, safe_ok; [done|]. by apply (safe_unchanged _ _ _ _ (SyncAll h)).
  - intros [] l3 w3 _ (? & _ & _). by eapply stage_grows.
Qed.

Lemma gdoes_publish_staging x n k g l w :
  valid l w -> guards_ok g -> stage (staging_path x) l ->
  gdoes (publish_staging rounds x (entry_path cache n k)) anything g l w.
Proof using codec.
  intros Hv Hg Hs. destruct (entry_path_split cache n k) as (d & -> & Hd).
  unfold publish_staging, file_name. rewrite parent_snoc, last_snoc.
  eapply gdoes_bind; [apply gdoes_safe; [done|by apply safe_to_option]|].
  intros ? g1 l1 w1 Hv1 Hg1 [[Hgr1 _] [= <-]].
  eapply gdoes_bind; [apply gdoes_safe; [done|by apply safe_to_option]|].
  intros ? g2 l2 w2 Hv2 Hg2 [[Hgr2 _] Hname]. apply to_str_Some in Hname as ->.
  eapply gdoes_bind; [apply gdoes_safe; [done|by apply safe_unique_token]|].
  intros t g3 l3 w3 Hv3 Hg3 [[Hgr3 _] (nanos & q & -> & _)]. cbv zeta.
  set (previous := previous_name (CacheKey_display k) (token_text pid nanos q)).
  destruct (display_proper k) as (Hkt & Hks & Hksp).
  destruct (previous_proper k pid nanos q) as (Hpt & Hps & Hpsp). fold previous in Hpt, Hps, Hpsp.
  eapply gdoes_bind.
  { apply (gdoes_safe _ anything); [done|].
    eapply safe_bind; [by apply Hv3|by apply (safe_rename _ _ _ _ d _ d)|].
    intros [[]|[]] l4 w4 Hv4 _ _ _; [by apply safe_ret|by apply safe_ret|by apply safe_throw..]. }
  intros moved g4 l4 w4 Hv4 Hg4 [[Hgr4 _] _].
  assert (stage (staging_path x) l4) as Hs4.
  { eapply stage_grows, Hs. by do 3 (etrans; [done|]). }
  eapply (gdoes_bind _ _ anything).
  { apply gdoes_step; [done|]. eapply does_bind; [by apply does_place|].
    intros [[]|e] l5 w5 Hv5 _; [by apply does_ret|].
    eapply (does_bind _ _ anything); [|by split]. destruct moved; [|by apply does_ret].
    eapply does_mono; [apply does_safe, safe_ignoring; [by apply Hv5|by apply (safe_rename _ _ _ _ d _ d)]|done]. }
  intros [] g5 l5 w5 Hv5 Hg5 _.
  eapply (gdoes_bind _ _ anything); [split; [done|by split]|].
  intros [] g6 l6 w6 Hv6 Hg6 _. destruct moved; [|by apply gdoes_ret].
  apply gdoes_step; [done|]. eapply does_mono; [apply does_safe, safe_ignoring; [by apply Hv6|
    by apply safe_remove_dir_all]|done].
Qed.

(** ** Publication *)

Definition publication_ok n k c (p : CachePublication) l w : Prop :=
  match p with
  | Published e => entry_ok n k c e
  | Reused e => hit_ok sha256 n k c FullValidation e l w
  end.

Lemma safe_open_published_entry n k c p e l w :
  valid l w -> envelope_namespace e = n -> envelope_key e = k -> envelope_compatibility e = c ->
  safe (open_published_entry p e) (fun x _ _ => entry_ok n k c x) l w.
Proof using Type.
  intros Hv Hn Hk Hc.
  eapply (safe_bind _ _ _ _ _ _ anything); [by apply Hv|apply safe_ok; [done|by apply safe_open_read]|].
  intros h l1 w1 Hv1 _ _ _.
  eapply (safe_bind _ _ _ _ _ _ anything); [by apply Hv1|apply safe_ok; [done|by apply (safe_unchanged _ _ _ _ (HandleLen h))]|].
  intros len l2 w2 Hv2 _ _ _. destruct (negb _); [by apply safe_throw|]. by apply safe_ret.
Qed.

Lemma gdoes_publish_locked n k c (R : Reader) (input : reader_state R) g l w :
  valid l w -> guards_ok g ->
  gdoes (publish_locked sha256 to_vec from_slice rounds cache n k c R input)
    (publication_ok n k c) g l w.
Proof using codec.
  intros Hv Hg. destruct (entry_path_split cache n k) as (d & Hd & Hlen).
  eapply gdoes_bind; [apply gdoes_safe; [done|by apply safe_lookup]|].
  intros [e|r] g1 l1 w1 Hv1 Hg1 [_ H1]; [by apply gdoes_ret|].
  rewrite Hd at 1. rewrite parent_snoc.
  eapply gdoes_bind; [apply gdoes_safe; [done|by apply safe_to_option]|].
  intros ? g2 l2 w2 Hv2 Hg2 [_ [= <-]].
  eapply gdoes_bind; [apply gdoes_step; [done|by apply does_staging_attempts]|].
  intros x g3 l3 w3 Hv3 Hg3 [Hs3 Hfree].
  eapply (gdoes_bind _ _ (fun _ l' w' => l' = l3 /\ w' = w3)); [split; [done|by split]|].
  intros [] g4 ? ? _ Hg4 [-> ->].
  eapply gdoes_bind; [by apply gdoes_write_payload|].
  intros [len digest] g5 l5 w5 Hv5 Hg5 (i & bs & Hs5 & Hst5 & Hf5 & Hlen5 & Hdig5). simpl in Hlen5, Hdig5.
  eapply gdoes_bind; [apply gdoes_safe; [done|by apply safe_unix_millis]|].
  intros created g6 l6 w6 Hv6 Hg6 [[Hgr6 Hr6] _]. cbv zeta.
  pose proof Hv5 as [_ Ho5].
  eapply gdoes_bind; [apply (gdoes_write_envelope (staging_path x) i bs); [done|done|by eapply stage_grows|
    by apply (staged_rely _ _ _ _ l5 l6 w5)|by apply (free_name_rely _ _ l5 w5)|done|done]|].
  intros [] g7 l7 w7 Hv7 Hg7 Hs7.
  eapply gdoes_bind; [by apply gdoes_WriterLease_refresh|].
  intros [] g8 l8 w8 Hv8 Hg8 [Hgr8 _].
  eapply gdoes_bind; [apply gdoes_safe; [done|by apply safe_check_cancelled]|].
  intros [] g9 l9 w9 Hv9 Hg9 [[Hgr9 _] _].
  eapply gdoes_bind; [apply gdoes_publish_staging; [done|done|]; eapply stage_grows, Hs7; by etrans|].
  intros [] g10 l10 w10 Hv10 Hg10 _.
  eapply gdoes_bind; [apply gdoes_safe; [done|by apply (safe_open_published_entry n k c)]|].
  intros e g11 l11 w11 Hv11 Hg11 [_ He]. by apply gdoes_ret.
Qed.

(** Dropping the guards removes what is staged and releases the lease. *)
Lemma safe_Guards_drop g l w : valid l w -> guards_ok g -> safe (Guards_drop rounds g) anything l w.
Proof using Type.
  intros Hv Hg. eapply (safe_bind _ _ _ _ _ _ anything); [by apply Hv| |].
  - destruct (staging g) as [x|]; [|by apply safe_ret]. unfold StagingEntry_drop.
    destruct (staging_active x); [|by apply safe_ret].
    apply safe_ignoring; [by apply Hv|by apply safe_remove_dir_all].
  - intros [] l1 w1 Hv1 _ _ _. by apply (safe_WriterLease_drop sha256 from_slice _ _ cache).
Qed.

(** A condition that what the program does later keeps. *)
Definition durable {A} (P : A -> Local -> World -> Prop) : Prop :=
  forall a l l' w w', grows l l' -> rely l w w' -> P a l w -> P a l' w'.

Lemma does_guarded {A} (x : WriterLease) (m : Guarded A) P l w :
  durable P -> guards_ok {| lease := x; staging := None |} ->
  gdoes m P {| lease := x; staging := None |} l w -> does (guarded rounds x m) P l w.
Proof using Type.
  intros HP Hg Hm. unfold guarded. apply wp_and_then. eapply wp_weaken; [exact Hm|].
  intros [[g' r']|e|] l1 w1 [Hv1 HR]; [|by split..]. destruct HR as [Hg1 HR].
  unfold on_exit, pure. simpl.
  apply wp_and_then. eapply wp_weaken; [by apply safe_Guards_drop|].
  intros r l2 w2 (Hv2 & Hgr & Hr & _). split; [done|]. destruct r'; [|done..]. by eapply HP.
Qed.

Lemma publication_durable n k c : durable (publication_ok n k c).
Proof using Type.
  intros [e|e] l l' w w' Hg Hr; simpl; [done|]. intros [? Hp]. split; [done|].
  intros Hfull. eapply payload_ok_rely; eauto.
Qed.

Lemma does_publish_reader n k c (R : Reader) (input : reader_state R) l w :
  valid l w ->
  does (publish_reader sha256 to_vec from_slice rounds cache n k c R input) (publication_ok n k c) l w.
Proof using codec.
  intros Hv. destruct (entry_path_split cache n k) as (d & Hd & Hlen).
  eapply does_bind; [apply does_safe; by apply safe_lookup|].
  intros [e|r] l1 w1 Hv1 (_ & _ & H1); [by apply does_ret|].
  rewrite Hd, parent_snoc.
  eapply does_bind; [apply does_safe; by apply safe_to_option|].
  intros ? l2 w2 Hv2 (_ & _ & [= <-]).
  eapply does_bind; [apply does_safe, safe_ok; [done|apply safe_create_dir_all; [lia|done]]|].
  intros [] l3 w3 Hv3 _.
  eapply does_bind; [apply does_safe, (safe_WriterLease_acquire sha256 from_slice _ _ cache); [apply codec|done|done]|].
  intros x l4 w4 Hv4 (_ & _ & Hx).
  apply does_guarded; [apply publication_durable|done|]. by apply gdoes_publish_locked.
Qed.
End Publish.
