(* ===== verification/CacheService.v ===== *)
(** * The service of the cache under interference

    Maintenance is safe as well, so every operation of the service keeps the
    invariant of the file system and the entries it returned, in every
    interleaving of any number of operations and with faults anywhere. *)

From S2P Require Import Prelude Errors Tensor Identity Order FileReader FileSystem.
From S2P Require Import Cache CacheNames Interference CacheSpecs CachePublish.
From stdpp Require Import strings gmap.
Local Open Scope N_scope.

Section Service.
Context (sha256 : bytes -> bytes) (to_vec : CacheEnvelope -> option bytes).
Context (from_slice : bytes -> option CacheEnvelope) (rounds : nat) (pid : N) (cache : CacheInner).
Context (codec : envelope_codec to_vec from_slice).

Local Notation level := (entry_level cache).
Local Notation valid := (valid sha256 from_slice level pid).
Local Notation rely := (rely sha256 from_slice level pid).
Local Notation safe := (safe sha256 from_slice level pid).
Local Notation does := (does sha256 from_slice pid cache).
Implicit Types (w : World) (l : Local).

Local Ltac call_with tac :=
  eapply safe_bind; [match goal with H : valid ?l ?w |- owned_ok _ _ ?l ?w => apply H end|tac|].
Local Ltac skip :=
  let a := fresh "a" in let l' := fresh "l" in let w' := fresh "w" in let Hv := fresh "Hv" in
  intros a l' w' Hv _ _ _.
Local Ltac same a := call_with ltac:(by apply (safe_unchanged _ _ _ _ a)); skip.
Local Ltac check := call_with ltac:(by apply safe_check_cancelled); skip.

(** ** Inspection *)

Lemma safe_scan_entry n p s l w : valid l w -> safe (scan_entry from_slice n p s) anything l w.
Proof using Type.
  intros Hv. destruct s as [candidates scan]. unfold scan_entry.
  destruct (file_name p ≫= to_str) as [name|]; [|by apply safe_ret].
  destruct (CacheKey_from_str name); [|by apply safe_ret..].
  call_with ltac:(by apply safe_ok; [|apply safe_stat]). skip.
  call_with ltac:(by apply safe_read_envelope). skip.
  call_with ltac:(by apply safe_try_reserve). skip. by apply safe_ret.
Qed.

Lemma safe_scan_candidates scan l w : valid l w -> safe (scan_candidates from_slice cache scan) anything l w.
Proof using Type.
  intros Hv. apply safe_for_list; [done..|]. intros n [cs sc] l1 w1 _ Hv1 _ _ _. check.
  call_with ltac:(by apply safe_read_directories). skip. destruct a0 as [shards sc2].
  apply safe_for_list; [done..|]. intros shard [cs3 sc3] l4 w4 _ Hv4 _ _ _.
  call_with ltac:(by apply safe_read_directories). skip. destruct a0 as [entries sc5].
  apply safe_for_list; [done..|]. intros entry s l6 w6 _ Hv6 _ _ _. by apply safe_scan_entry.
Qed.

Lemma safe_inspect_candidate c s l w : valid l w -> safe (inspect_candidate c s) anything l w.
Proof using Type.
  intros Hv. destruct s as [[entries invalid] bytes]. check. cbv zeta.
  destruct (candidate_envelope c) as [e|]; [|by apply safe_ret].
  destruct (_ && _); [|by apply safe_ret].
  call_with ltac:(by apply safe_stat). skip.
  destruct a0 as [m|[]]; [|by apply safe_ret|by apply safe_throw..].
  destruct (negb (is_file m)); [by apply safe_ret|].
  destruct (negb (_ =? _)); by apply safe_ret.
Qed.

Lemma safe_inspect l w : valid l w -> safe (inspect_with_cancellation from_slice cache) anything l w.
Proof using Type.
  intros Hv. call_with ltac:(by apply safe_ScanBudget_new). skip.
  call_with ltac:(by apply safe_scan_candidates). skip. destruct a0 as [candidates scan].
  call_with ltac:(by apply safe_try_reserve). skip.
  call_with ltac:(apply (safe_for_list _ _ _ _ anything); [done..|]; intros; by apply safe_inspect_candidate).
  skip. destruct a1 as [[entries invalid] bytes]. cbv zeta.
  call_with ltac:(by apply safe_directory_size). skip. destruct a1. by apply safe_ret.
Qed.

(** ** Eviction *)

Lemma safe_evict_locked d n k reason l w :
  valid l w -> length d = level ->
  safe (evict_locked rounds cache d (d ++ [CacheKey_display k]) n k reason) anything l w.
Proof using Type.
  intros Hv Hd. check. call_with ltac:(by apply safe_ScanBudget_new). skip.
  call_with ltac:(by apply safe_stat). skip.
  destruct a1 as [m|[]]; [|by apply safe_ret|by apply safe_throw..].
  eapply (safe_bind _ _ _ _ _ _ anything); [match goal with H : valid ?l ?w |- owned_ok _ _ ?l ?w => apply H end| |].
  { destruct (is_dir m); [|by apply safe_ret]. call_with ltac:(by apply safe_directory_size). skip.
    destruct a1. by apply safe_ret. }
  skip. call_with ltac:(by apply safe_unique_token). intros t l4 w4 Hv4 _ _ (nanos & q & -> & _).
  cbv zeta. destruct (display_proper k) as (_ & Hs & _).
  call_with ltac:(by apply (safe_claim _ _ _ cache); [..|apply evicted_proper|]). skip.
  destruct a2 as [[]|[]]; [|by apply safe_ret|by apply safe_throw..].
  call_with ltac:(by apply safe_remove_dir_all_ok). skip. by apply safe_ret.
Qed.

Lemma does_evict n k reason l w : valid l w -> does (evict rounds cache n k reason) anything l w.
Proof using codec.
  intros Hv. destruct (entry_path_split cache n k) as (d & Hd & Hlen).
  unfold evict. cbv zeta. rewrite Hd, parent_snoc.
  eapply does_bind; [apply does_safe; by apply safe_to_option|].
  intros ? l2 w2 Hv2 (_ & _ & [= <-]).
  eapply does_bind; [apply does_safe, safe_ok; [done|apply safe_create_dir_all; [lia|done]]|].
  intros [] l3 w3 Hv3 _.
  eapply does_bind; [apply does_safe, (safe_WriterLease_acquire sha256 from_slice _ _ cache); [apply codec|done|done]|].
  intros x l4 w4 Hv4 (_ & _ & Hx).
  apply (does_guarded _ _ _ _ _ _ _ anything); [done|done|]. apply gdoes_step; [done|].
  eapply does_mono; [by apply does_safe, safe_evict_locked|done].
Qed.

Lemma does_evict_loop maximum reason cs estimated rs l w :
  valid l w -> does (evict_loop rounds cache maximum reason cs estimated rs) anything l w.
Proof using codec.
  revert estimated rs l w. induction cs as [|c cs IH]; intros estimated rs l w Hv; cbn [evict_loop];
    [by apply does_ret|].
  destruct (_ <=? _); [by apply does_ret|].
  eapply does_bind; [apply does_safe; by apply safe_check_cancelled|]. intros _ l1 w1 Hv1 _.
  eapply does_bind; [by apply does_evict|]. intros [r|] l2 w2 Hv2 _; [|by apply IH].
  eapply does_bind; [apply does_safe; by apply safe_try_reserve|]. intros _ l3 w3 Hv3 _. by apply IH.
Qed.

Lemma does_evict_to maximum reason l w :
  valid l w -> does (evict_to from_slice rounds cache maximum reason) anything l w.
Proof using codec.
  intros Hv.
  eapply does_bind; [apply does_safe; by apply safe_ScanBudget_new|]. intros s1 l1 w1 Hv1 _.
  eapply does_bind; [apply does_safe; by apply safe_directory_size|]. intros [before s2] l2 w2 Hv2 _.
  eapply does_bind; [apply does_safe; by apply safe_ScanBudget_new|]. intros s3 l3 w3 Hv3 _.
  eapply does_bind; [apply does_safe; by apply safe_scan_candidates|]. intros [cs s4] l4 w4 Hv4 _.
  eapply does_bind; [by apply does_evict_loop|]. intros rs l5 w5 Hv5 _.
  eapply does_bind; [apply does_safe; by apply safe_ScanBudget_new|]. intros s6 l6 w6 Hv6 _.
  eapply does_bind; [apply does_safe; by apply safe_directory_size|]. intros [after s7] l7 w7 Hv7 _.
  by apply does_ret.
Qed.

(** ** Recovery *)

Lemma safe_remove_superseded p s l w : valid l w -> safe (remove_superseded rounds p s) anything l w.
Proof using Type.
  intros Hv. destruct s as [report scan]. call_with ltac:(by apply safe_directory_size). skip.
  destruct a as [bytes sc]. call_with ltac:(by apply safe_remove_dir_all_ok). skip. by apply safe_ret.
Qed.

Lemma safe_restore_replacement d k t s l w :
  valid l w -> length d = level ->
  safe (restore_replacement rounds d (d ++ [previous_name (CacheKey_display k) t])
          (previous_name (CacheKey_display k) t) s) anything l w.
Proof using Type.
  intros Hv Hd. destruct s as [report scan]. unfold restore_replacement.
  assert (match previous_name (CacheKey_display k) t with
          | String c rest => if bool_decide (c = Ascii.ascii_of_N 46)
                             then split_first REPLACEMENT_MARKER rest else EmptyString
          | EmptyString => EmptyString
          end = CacheKey_display k) as ->.
  { change (previous_name (CacheKey_display k) t)
      with (String dot (CacheKey_display k +:+ REPLACEMENT_MARKER +:+ t)).
    cbv iota beta. rewrite bool_decide_eq_true_2 by done. apply replaced_key. }
  cbv zeta.
  case_bool_decide; [by apply safe_ret|].
  call_with ltac:(by apply safe_path_exists). skip. destruct a; [by apply safe_remove_superseded|].
  destruct (display_proper k) as (? & ? & ?).
  call_with ltac:(apply safe_rename; [done|done|apply marker_not_staging;
    apply (contains_inside ("." +:+ CacheKey_display k))|done..]). skip.
  destruct a as [[]|[]]; [by apply safe_ret|by apply safe_ret|..];
    (call_with ltac:(by apply safe_path_is_dir); skip; destruct a;
     [by apply safe_remove_superseded|by apply safe_throw]).
Qed.

Lemma safe_writer_active d name t l w : valid l w -> safe (writer_active d name t) anything l w.
Proof using Type.
  intros Hv. unfold writer_active. destruct (_ || _); [|by apply safe_ret]. cbv zeta.
  call_with ltac:(by apply safe_path_exists). skip. destruct a; [|by apply safe_ret].
  call_with ltac:(by apply safe_lease_is_stale). skip. by apply safe_ret.
Qed.

Lemma safe_recover_directory d name t s l w :
  valid l w -> length d = level -> tidy_name name ->
  safe (recover_directory rounds d t (d ++ [name]) s) anything l w.
Proof using Type.
  intros Hv Hd Ht. destruct s as [report scan]. check. unfold file_name. rewrite last_snoc.
  cbn [mbind option_bind]. destruct (to_str name) as [name'|] eqn:E; [|by apply safe_ret].
  apply to_str_Some in E as ->. destruct (negb (recoverable_name name)); [by apply safe_ret|].
  call_with ltac:(by apply safe_path_is_stale). skip. destruct a0 as [stale sc].
  destruct (negb stale); [by apply safe_ret|].
  call_with ltac:(by apply safe_writer_active). skip. destruct a0; [by apply safe_ret|].
  destruct (contains REPLACEMENT_MARKER name) eqn:Em.
  - destruct (Ht Em) as (k & token & ->). by apply safe_restore_replacement.
  - call_with ltac:(by apply safe_directory_size). skip. destruct a0 as [bytes sc2].
    eapply (safe_bind _ _ _ _ _ _ anything); [match goal with H : valid ?l ?w |- owned_ok _ _ ?l ?w => apply H end| |].
    + destruct (ends_with ".lease" name) eqn:El; [|by apply safe_remove_dir_all_ok].
      apply (safe_reap_directory _ _ _ _ cache); [done|]. exists d, name.
      split_and!; [done..|by apply lease_suffix_source].
    + skip. by apply safe_ret.
Qed.

Lemma safe_recover_shard d t s l w :
  valid l w -> length d = level -> safe (recover_shard rounds t d s) anything l w.
Proof using Type.
  intros Hv Hd. destruct s as [report scan].
  call_with ltac:(by apply safe_read_directories). intros [ds sc] l1 w1 Hv1 _ _ Hds. simpl in Hds.
  apply safe_for_list; [done..|]. intros p s l2 w2 Hp Hv2 _ _ _.
  destruct (Hds p Hp) as (name & -> & Hname). apply safe_recover_directory; auto.
Qed.

Lemma safe_recover l w : valid l w -> safe (recover_stale_with_cancellation rounds cache) anything l w.
Proof using Type.
  intros Hv. call_with ltac:(by apply safe_ScanBudget_new). skip.
  call_with ltac:(apply (safe_for_list _ _ _ _ anything)); [done..| |].
  - intros n [report scan] l1 w1 _ Hv1 _ _ _. check.
    call_with ltac:(by apply safe_read_directories). intros [shards sc] l3 w3 Hv3 _ _ Hs. simpl in Hs.
    apply safe_for_list; [done..|]. intros d s l4 w4 Hd Hv4 _ _ _.
    destruct (Hs d Hd) as (name & -> & _). apply safe_recover_shard; [done|].
    unfold namespace_path, version_path, entry_level. rewrite !length_app. simpl. lia.
  - skip. destruct a0. by apply safe_ret.
Qed.

Lemma safe_open l w :
  valid l w -> safe (open_with_options_and_cancellation rounds (cache_root cache) (options cache)) anything l w.
Proof using Type.
  intros Hv. check. destruct (_ =? 0); [by apply safe_throw|]. cbv zeta.
  call_with ltac:(apply (safe_for_list _ _ _ _ anything)); [done..| |].
  - intros n [] l1 w1 _ Hv1 _ _ _. check. apply safe_ok; [done|]. apply safe_create_dir_all; [|done].
    unfold namespace_path, version_path, entry_level. rewrite !length_app. simpl. lia.
  - skip. assert ({| cache_root := cache_root cache; options := options cache |} = cache) as ->
      by (by destruct cache).
    call_with ltac:(by apply safe_recover). skip. by apply safe_ret.
Qed.

(** ** The service *)

(** What a caller may rely on in a reply. *)
Definition reply_ok (op : Operation) (r : Reply) l w : Prop :=
  match op, r with
  | OpLookup n k c v, LookedUp x => lookup_ok sha256 n k c v x l w
  | OpPublish n k c _ _, PublishedEntry p => publication_ok sha256 n k c p l w
  | OpLookup _ _ _ _, _ | OpPublish _ _ _ _ _, _ => False
  | _, _ => True
  end.

Lemma reply_durable op : durable sha256 from_slice pid cache (reply_ok op).
Proof using Type.
  intros r l l' w w' Hg Hr. destruct op, r; simpl; try done.
  - by apply lookup_ok_rely with (from_slice := from_slice) (pid := pid) (cache := cache).
  - by apply (publication_durable _ from_slice pid cache).
Qed.

Lemma does_perform op l w :
  valid l w -> does (perform sha256 to_vec from_slice rounds cache op) (reply_ok op) l w.
Proof using codec.
  intros Hv. destruct op; cbn [perform].
  - eapply does_bind; [apply does_safe; by apply safe_open|]. intros; by apply does_ret.
  - eapply does_bind; [apply does_safe; by apply safe_lookup|].
    intros x l1 w1 Hv1 (_ & _ & Hx). by apply does_ret.
  - eapply does_bind; [by apply does_publish_reader|]. intros x l1 w1 Hv1 Hx. by apply does_ret.
  - eapply does_bind; [apply does_safe; by apply safe_inspect|]. intros; by apply does_ret.
  - eapply does_bind; [by apply does_evict|]. intros; by apply does_ret.
  - eapply does_bind; [by apply does_evict_to|]. intros; by apply does_ret.
  - eapply does_bind; [apply does_safe; by apply safe_recover|]. intros; by apply does_ret.
Qed.
End Service.
