(* ===== verification/CachePool.v ===== *)
(** * Any number of operations on one cache

    Operations start at any time, in any process, interleave call by call, meet
    faults, and may stop for ever between two calls (a process that crashed). What
    each does to the file system is what the others rely on, so the invariant and
    the replies hold in every reachable state. *)

From S2P Require Import Prelude Errors Tensor Identity FileReader FileSystem.
From S2P Require Import Cache CacheNames Interference CacheSpecs CachePublish CacheService.
From stdpp Require Import strings gmap.
Local Open Scope N_scope.

(** An operation under way in a process. *)
Record Thread := {
  thread_pid : N;
  thread_options : CacheOptions;
  thread_operation : Operation;
  thread_program : Prog Reply
}.

Definition with_program (m : Prog Reply) (t : Thread) : Thread :=
  {| thread_pid := thread_pid t; thread_options := thread_options t;
     thread_operation := thread_operation t; thread_program := m |}.

Section Pool.
Context (sha256 : bytes -> bytes) (to_vec : CacheEnvelope -> option bytes).
Context (from_slice : bytes -> option CacheEnvelope) (rounds : nat) (root : path).

Definition thread_cache (t : Thread) : CacheInner :=
  {| cache_root := root; options := thread_options t |}.

Definition start (pid : N) (o : CacheOptions) (op : Operation) : Thread :=
  {| thread_pid := pid; thread_options := o; thread_operation := op;
     thread_program := perform sha256 to_vec from_slice rounds {| cache_root := root; options := o |} op |}.

Inductive pool_step : list Thread * World -> list Thread * World -> Prop :=
  | pool_start ts w pid o op :
      pool_step (ts, w) (ts ++ [start pid o op], w)
  | pool_call ts w i t a k o :
      ts !! i = Some t -> thread_program t = Act a k -> oracle_ok o -> roomy (thread_pid t) w ->
      pool_step (ts, w)
        (<[i := with_program (k (fst (serve (thread_pid t) o a w))) t]> ts,
         snd (serve (thread_pid t) o a w))
  | pool_crash ts w i t :
      ts !! i = Some t -> pool_step (ts, w) (<[i := with_program Running t]> ts, w).

Definition pool_reachable (w0 : World) (s : list Thread * World) : Prop :=
  rtc pool_step ([], w0) s.

(** A payload whose length and digest are the recorded ones. *)
Definition payload_sound (w : World) (e : CacheEntry) : Prop :=
  exists i, handle_inode (payload e) = Some i /\ position (payload e) = 0 /\
    N.of_nat (length (inode_bytes w i)) = payload_len (info e) /\
    from_bytes (sha256 (inode_bytes w i)) = payload_digest (info e).

(** What a finished operation handed to its caller, and still holds. *)
Definition reply_sound (w : World) (op : Operation) (r : Reply) : Prop :=
  match op, r with
  | OpLookup n k c v, LookedUp (Hit e) =>
      entry_ok n k c e /\ (v = FullValidation -> payload_sound w e)
  | OpLookup _ _ _ _, LookedUp (Miss _) => True
  | OpPublish n k c _ _, PublishedEntry (Reused e) => entry_ok n k c e /\ payload_sound w e
  | OpPublish n k c _ _, PublishedEntry (Published e) => entry_ok n k c e
  | OpLookup _ _ _ _, _ | OpPublish _ _ _ _ _, _ => False
  | _, _ => True
  end.

(** ** What one thread guarantees is what the others rely on *)

Local Notation level := (length root + 3)%nat.
Local Notation consistent := (consistent sha256 from_slice level).
Local Notation guarantee := (guarantee sha256 from_slice level).
Local Notation rely := (rely sha256 from_slice level).

Definition apart (pid : N) (l : Local) (pid' : N) (l' : Local) : Prop :=
  unsealed l ## unsealed l' /\ known l ## unsealed l' /\ known l' ## unsealed l /\
  (pid = pid' -> sequences l ## sequences l').

Lemma apart_sym pid l pid' l' : apart pid l pid' l' -> apart pid' l' pid l.
Proof using Type. intros (? & ? & ? & H). split_and!; [by symmetry|done..|]. intros E. symmetry. by apply H. Qed.

Lemma apart_none pid l pid' : apart pid l pid' no_locals.
Proof using Type. split_and!; simpl; set_solver. Qed.

(** Two programs that own a name drew the same token of one process. *)
Lemma own_both pid l pid' l' name :
  own pid l name -> own pid' l' name ->
  pid = pid' /\ exists s, s ∈ sequences l /\ s ∈ sequences l'.
Proof using Type.
  intros (k & nanos & s & -> & Hs) (k' & nanos' & s' & E & Hs').
  apply staging_name_inj in E as [-> ->]. eauto.
Qed.

Lemma own_like pid l name : own pid l name -> staging_like name.
Proof using Type. intros (k & nanos & s & -> & _). by exists k, pid, nanos, s. Qed.

Section Step.
Context (pid pid' : N) (l l' lj : Local) (w w' : World).
Context (Hg : guarantee pid l w l' w') (Ho : owned_ok level pid' lj w).
Context (Hap : apart pid l pid' lj).

Lemma guarantee_sealed i : (i < next_inode w)%nat -> sealed_born w i -> sealed_born w' i.
Proof using Hg. intros Hi (s & Hb & ?). exists s. by rewrite (g_born _ _ _ _ _ _ _ _ Hg). Qed.

Lemma guarantee_sequences s : pid = pid' -> s ∈ sequences l' -> s ∉ sequences lj.
Proof using Hg Ho Hap.
  intros Hp Hs Hj. destruct Hap as (_ & _ & _ & Hd). specialize (Hd Hp).
  destruct (g_sequences _ _ _ _ _ _ _ _ Hg s Hs) as [Hs'|Hs'].
  - by apply (Hd s).
  - apply (owned_sequences _ _ _ _ Ho) in Hj. subst pid'. lia.
Qed.

Lemma guarantee_owned : owned_ok level pid' lj w'.
Proof using Hg Ho Hap.
  pose proof (g_next _ _ _ _ _ _ _ _ Hg) as Hn. split.
  - intros s Hs%(owned_sequences _ _ _ _ Ho).
    pose proof (g_counters _ _ _ _ _ _ _ _ Hg pid'). lia.
  - intros i [Hi ?]%(owned_known _ _ _ _ Ho). split; [lia|by apply guarantee_sealed].
  - apply Ho.
  - intros i (Hi & Hb & Hq)%(owned_unsealed _ _ _ _ Ho). split_and!; [lia|by apply guarantee_sealed|].
    intros q Hlink.
    destruct (g_links _ _ _ _ _ _ _ _ Hg q i Hlink) as [H|[H|(p & Hp & Hf)]]; [by apply Hq|lia|].
    destruct (Hq p Hp) as (name & Hname & Hown). destruct Hf. exists name.
    split_and!; [done|by eapply own_like|]. intros Hown'.
    destruct (own_both _ _ _ _ _ Hown' Hown) as (Hpid & s & Hs & Hs').
    destruct Hap as (_ & _ & _ & Hd). by apply (Hd Hpid s).
Qed.

Lemma guarantee_rely : rely pid' lj w w'.
Proof using Hg Ho Hap.
  destruct Hap as (Huu & Hku & Hkj & _). split.
  - apply Hg.
  - apply guarantee_owned.
  - apply Hg.
  - apply (g_counters _ _ _ _ _ _ _ _ Hg).
  - apply Hg.
  - intros i [Hi|Hi]; apply (g_bytes _ _ _ _ _ _ _ _ Hg).
    + by apply (owned_unsealed _ _ _ _ Ho).
    + intros Hl. by apply (Huu i).
    + by apply (owned_unsealed _ _ _ _ Ho).
    + by apply (owned_known _ _ _ _ Ho).
    + intros Hl. by apply (Hkj i).
    + by apply (owned_known _ _ _ _ Ho).
  - intros q n name Hname Hown Hq.
    destruct (g_new _ _ _ _ _ _ _ _ Hg q n Hq) as [?|Hf]; [done|]. destruct Hf. exists name.
    split_and!; [done|by eapply own_like|]. intros Hown'.
    destruct (own_both _ _ _ _ _ Hown' Hown) as (Hpid & s & Hs & Hs').
    by apply (guarantee_sequences s Hpid).
Qed.

Lemma guarantee_apart : apart pid l' pid' lj.
Proof using Hg Ho Hap.
  pose proof Hap as (Huu & Hku & Hkj & _). split_and!.
  - intros i Hi Hj. destruct (g_unsealed _ _ _ _ _ _ _ _ Hg i Hi) as [?|?]; [by apply (Huu i)|].
    apply (owned_unsealed _ _ _ _ Ho) in Hj as (? & _). lia.
  - intros i Hi Hj. destruct (g_known _ _ _ _ _ _ _ _ Hg i Hi) as [?|(q & Hq & Hout)]; [by apply (Hku i)|].
    apply (owned_unsealed _ _ _ _ Ho) in Hj as (_ & _ & Hl). destruct (Hl q Hq) as (name & Hn & Hown).
    apply (Hout name Hn). by eapply own_like.
  - intros i Hj Hi. destruct (g_unsealed _ _ _ _ _ _ _ _ Hg i Hi) as [?|?]; [by apply (Hkj i)|].
    apply (owned_known _ _ _ _ Ho) in Hj as (? & _). lia.
  - intros Hpid s Hs Hj. by apply (guarantee_sequences s Hpid).
Qed.
End Step.

(** ** The invariant of the pool *)

Context (codec : envelope_codec to_vec from_slice).

Definition finishes (t : Thread) (r : result Reply) (l : Local) (w : World) : Prop :=
  valid sha256 from_slice level (thread_pid t) l w /\
  on_value (reply_ok sha256 (thread_operation t)) r l w.

Definition thread_ok (t : Thread) (l : Local) (w : World) : Prop :=
  owned_ok level (thread_pid t) l w /\
  wp sha256 from_slice level (thread_pid t) (thread_program t) (finishes t) l w.

Record pool_ok (tls : list (Thread * Local)) (w : World) : Prop := {
  pool_consistent : consistent w;
  pool_threads i t l : tls !! i = Some (t, l) -> thread_ok t l w;
  pool_apart i j t l t' l' :
    i <> j -> tls !! i = Some (t, l) -> tls !! j = Some (t', l') ->
    apart (thread_pid t) l (thread_pid t') l'
}.

Lemma finishes_stable t : stable sha256 from_slice level (thread_pid t) (finishes t).
Proof using Type.
  intros r l w w' Hr [Hv HR]. split; [by eapply rely_valid|]. destruct r as [a| |]; simpl in *; [|done..].
  by apply (reply_durable sha256 from_slice (thread_pid t) (thread_cache t) (thread_operation t) a l l w w').
Qed.

Lemma finishes_with m t : finishes (with_program m t) = finishes t.
Proof using Type. done. Qed.

Lemma start_ok pid o op w : consistent w -> thread_ok (start pid o op) no_locals w.
Proof using codec.
  intros Hc.
  assert (owned_ok level pid no_locals w) as Ho by (split; simpl; intros ? []%not_elem_of_empty).
  split; [done|].
  by apply (does_perform sha256 to_vec from_slice rounds pid {| cache_root := root; options := o |} codec op).
Qed.

Lemma pool_ok_start tls w pid o op :
  pool_ok tls w -> pool_ok (tls ++ [(start pid o op, no_locals)]) w.
Proof using codec.
  intros [Hc Ht Ha].
  assert (forall i t l, (tls ++ [(start pid o op, no_locals)]) !! i = Some (t, l) ->
    tls !! i = Some (t, l) \/ i = length tls /\ t = start pid o op /\ l = no_locals) as Hl.
  { intros i t l [H|[Hlen H]]%lookup_app_Some; [by left|right].
    apply list_lookup_singleton_Some in H as [? H]. simplify_eq. split_and!; [lia|done..]. }
  split; [done| |].
  - intros i t l [H|(_ & -> & ->)]%Hl; [by eapply Ht|by apply start_ok].
  - intros i j t l t' l' Hij [Hi|(-> & -> & ->)]%Hl [Hj|(-> & -> & ->)]%Hl.
    + by eapply Ha.
    + apply apart_none.
    + apply apart_sym, apart_none.
    + done.
Qed.

Lemma pool_ok_change tls w i t l m l' w' :
  pool_ok tls w -> tls !! i = Some (t, l) -> guarantee (thread_pid t) l w l' w' ->
  wp sha256 from_slice level (thread_pid t) m (finishes t) l' w' ->
  pool_ok (<[i := (with_program m t, l')]> tls) w'.
Proof using Type.
  intros [Hc Ht Ha] Hi Hg Hm.
  assert (forall j tj lj, <[i := (with_program m t, l')]> tls !! j = Some (tj, lj) ->
    (j = i /\ tj = with_program m t /\ lj = l') \/ (j <> i /\ tls !! j = Some (tj, lj))) as Hl.
  { intros j tj lj H. destruct (decide (j = i)) as [->|].
    - left. rewrite list_lookup_insert_eq in H by (by eapply lookup_lt_Some). by simplify_eq.
    - right. by rewrite list_lookup_insert_ne in H. }
  split; [apply Hg| |].
  - intros j tj lj [(-> & -> & ->)|[Hj H]]%Hl.
    + split; [apply Hg|done].
    + destruct (Ht j tj lj H) as [Ho Hw].
      assert (rely (thread_pid tj) lj w w') as Hr.
      { eapply guarantee_rely; [done|done|]. by eapply (Ha i j). }
      split; [apply Hr|]. eapply wp_stable; [apply finishes_stable|done|done].
  - intros a b ta la tb lb Hab [(-> & -> & ->)|[Hna Hla]]%Hl [(-> & -> & ->)|[Hnb Hlb]]%Hl.
    + done.
    + eapply guarantee_apart; [exact Hg|by destruct (Ht b tb lb Hlb)|by apply (Ha i b t l tb lb)].
    + apply apart_sym. eapply guarantee_apart; [exact Hg|by destruct (Ht a ta la Hla)|by apply (Ha i a t l ta la)].
    + by eapply (Ha a b).
Qed.

(** Every reachable state has the invariant. *)
Lemma pool_reachable_ok w0 ts w :
  consistent w0 -> pool_reachable w0 (ts, w) -> exists tls, fst <$> tls = ts /\ pool_ok tls w.
Proof using codec.
  intros Hc. unfold pool_reachable.
  cut (forall s, rtc pool_step ([], w0) s -> exists tls, fst <$> tls = s.1 /\ pool_ok tls s.2).
  { intros H Hr. apply (H _ Hr). }
  apply rtc_ind_r.
  { exists []. split; [done|]. split; [done|..].
    - intros i t l H. by rewrite lookup_nil in H.
    - intros i j t l t' l' _ H. by rewrite lookup_nil in H. }
  intros s1 s2 _ Hstep IH.
  destruct IH as (tls & Hf & Hok). destruct Hstep as [ts1 w1 pid o op|ts1 w1 i t a k o Hi Hp Ho Hroom|ts1 w1 i t Hi];
    simpl in *; subst ts1.
  - exists (tls ++ [(start pid o op, no_locals)]). split; [by rewrite fmap_app|by apply pool_ok_start].
  - apply list_lookup_fmap_Some in Hi as ([t' l] & -> & Hi).
    destruct (pool_threads _ _ Hok _ _ _ Hi) as [Hown Hwp]. simpl in *. rewrite Hp in Hwp.
    destruct (Hwp w1 o) as (l' & Hg & Hk); [by apply rely_refl; [apply Hok|]|done|done|].
    eexists. split; [|by eapply pool_ok_change]. by rewrite list_fmap_insert.
  - apply list_lookup_fmap_Some in Hi as ([t' l] & -> & Hi).
    destruct (pool_threads _ _ Hok _ _ _ Hi) as [Hown Hwp]. simpl in *.
    eexists. split; [|eapply (pool_ok_change _ _ _ _ _ Running); [done|done| |done]].
    + by rewrite list_fmap_insert.
    + apply guarantee_refl; [apply Hok|done].
Qed.

Lemma payload_ok_sound e l w : payload_ok sha256 e l w -> payload_sound w e.
Proof using Type. intros (i & ? & ? & _ & ? & ?). by exists i. Qed.

Lemma reply_ok_sound op r l w : reply_ok sha256 op r l w -> reply_sound w op r.
Proof using Type.
  destruct op as [|n k c v|n k c R input| | | |], r as [|[e|]|[e|e]| | | |]; simpl; try done.
  - intros [? H]. split; [done|]. intros Hv. by eapply payload_ok_sound, H.
  - intros [? H]. split; [done|]. by eapply payload_ok_sound, H.
Qed.

Lemma pool_replies w0 ts w i t r :
  consistent w0 -> pool_reachable w0 (ts, w) -> ts !! i = Some t -> thread_program t = Ret (Ok r) ->
  reply_sound w (thread_operation t) r.
Proof using codec.
  intros Hc Hr Hi Ht. destruct (pool_reachable_ok w0 ts w Hc Hr) as (tls & <- & Hok).
  apply list_lookup_fmap_Some in Hi as ([t' l] & -> & Hi).
  destruct (pool_threads _ _ Hok _ _ _ Hi) as [_ Hwp]. simpl in *. rewrite Ht in Hwp.
  destruct Hwp as [_ H]. by eapply reply_ok_sound.
Qed.
End Pool.

(** ** Schedules *)

(** What happens next: an operation starts, a thread makes a call, or stops. *)
Inductive event :=
  | EvStart (pid : N) (o : CacheOptions) (op : Operation)
  | EvCall (i : nat) (o : Oracle)
  | EvCrash (i : nat).

Section Schedule.
Context (sha256 : bytes -> bytes) (to_vec : CacheEnvelope -> option bytes).
Context (from_slice : bytes -> option CacheEnvelope) (rounds : nat) (root : path).

Definition next_state (e : event) '((ts, w) : list Thread * World) : option (list Thread * World) :=
  match e with
  | EvStart pid o op => Some (ts ++ [start sha256 to_vec from_slice rounds root pid o op], w)
  | EvCall i o =>
      t ← ts !! i;
      match thread_program t with
      | Act a k =>
          if decide (roomy (thread_pid t) w) then
            let '(b, w') := serve (thread_pid t) o a w in
            Some (<[i := with_program (k b) t]> ts, w')
          else None
      | _ => None
      end
  | EvCrash i => t ← ts !! i; Some (<[i := with_program Running t]> ts, w)
  end.

Fixpoint schedule (es : list event) (s : list Thread * World) : option (list Thread * World) :=
  match es with
  | [] => Some s
  | e :: es => s' ← next_state e s; schedule es s'
  end.

Definition event_ok (e : event) : Prop := match e with EvCall _ o => oracle_ok o | _ => True end.

Lemma next_state_step e s s' :
  event_ok e -> next_state e s = Some s' ->
  pool_step sha256 to_vec from_slice rounds root s s'.
Proof using Type.
  intros He. destruct s as [ts w], e as [pid o op|i o|i]; simpl.
  - intros [= <-]. apply pool_start.
  - destruct (ts !! i) as [t|] eqn:Hi; [|done]. simpl.
    destruct (thread_program t) as [| |a k] eqn:Hp; [done..|]. case_decide as Hr; [|done].
    destruct (serve _ o a w) as [b w'] eqn:Hs. intros [= <-].
    pose proof (pool_call sha256 to_vec from_slice rounds root ts w i t a k o Hi Hp He Hr) as H.
    by rewrite Hs in H.
  - destruct (ts !! i) as [t|] eqn:Hi; [|done]. intros [= <-]. by apply pool_crash.
Qed.

Lemma schedule_reachable es w0 s :
  Forall event_ok es -> schedule es ([], w0) = Some s ->
  pool_reachable sha256 to_vec from_slice rounds root w0 s.
Proof using Type.
  unfold pool_reachable. generalize (@nil Thread, w0). induction es as [|e es IH]; intros s0 Hok; simpl.
  - by intros [= <-].
  - apply Forall_cons in Hok as [He Hok]. destruct (next_state e s0) as [s1|] eqn:E; [|done]. simpl.
    intros Hs. eapply rtc_l; [by eapply next_state_step|by apply IH].
Qed.
End Schedule.
