(* ===== verification/CacheCalm.v ===== *)
(** * The cache without faults

    What its programs do when they run alone and no call fails: they end, whatever
    clock they read, however few bytes a read returns and in whatever order names
    are listed. [returns m P w] says that [m] ends with a value and a state of
    which [P] holds. A complete entry is found, and a publication in a vacant place
    leaves a complete entry. *)

From S2P Require Import Prelude Errors Tensor Identity Order FileReader FileSystem Cache CacheNames.
From S2P Require Import Interference CacheSpecs.
From stdpp Require Import strings gmap.
Local Open Scope N_scope.

(** Calls that do what they are asked for. *)
Record calm (o : Oracle) : Prop := {
  calm_fault : fault o = false;
  calm_signal : signal o = false;
  calm_listing names : listing o names ≡ₚ names;
  calm_unreadable name : unreadable o name = false;
  calm_spared p : spared o p = false
}.

Section Calm.
Context (sha256 : bytes -> bytes) (to_vec : CacheEnvelope -> option bytes).
Context (from_slice : bytes -> option CacheEnvelope) (rounds : nat) (pid : N).
Implicit Types w : World.

(** ** Programs that end *)

Fixpoint ends {A} (m : Prog A) (Q : result A -> World -> Prop) w : Prop :=
  match m with
  | Ret r => Q r w
  | Running => False
  | Act a k => forall o, calm o -> ends (k (fst (serve pid o a w))) Q (snd (serve pid o a w))
  end.

Definition returns {A} (m : Prog A) (P : A -> World -> Prop) w : Prop :=
  ends m (fun r w' => match r with Ok a => P a w' | _ => False end) w.

Lemma ends_mono {A} (m : Prog A) (P Q : result A -> World -> Prop) w :
  ends m P w -> (forall r w', P r w' -> Q r w') -> ends m Q w.
Proof using Type.
  intros H HPQ. revert w H. induction m as [r| |a k IH]; intros w H; [by apply HPQ|done|].
  intros o Ho. by apply IH, H.
Qed.

Lemma ends_and_then {A B} (m : Prog A) (f : result A -> Prog B) Q w :
  ends m (fun r w' => ends (f r) Q w') w -> ends (and_then m f) Q w.
Proof using Type.
  revert w. induction m as [r| |a k IH]; intros w H; [done|done|]. intros o Ho. by apply IH, H.
Qed.

(** A program that ends does so in every run. *)
Lemma ends_run {A} (m : Prog A) Q w oracles n :
  (forall i, calm (oracles i)) -> ends m Q w ->
  exists calls r w', run pid oracles m n calls w = (Some r, w') /\ Q r w'.
Proof using Type.
  intros Ho. revert n w. induction m as [r| |a k IH]; intros n w H; [|done|].
  - by exists 0%nat, r, w.
  - destruct (IH _ (S n) _ (H (oracles n) (Ho n))) as (calls & r & w' & Hrun & HQ).
    exists (S calls), r, w'. split; [|done]. simpl. by destruct (serve _ _ _ _).
Qed.

Lemma returns_mono {A} (m : Prog A) (P Q : A -> World -> Prop) w :
  returns m P w -> (forall a w', P a w' -> Q a w') -> returns m Q w.
Proof using Type. intros H HPQ. eapply ends_mono; [exact H|]. intros [] ?; auto. Qed.

Lemma returns_ret {A} (a : A) (P : A -> World -> Prop) w : P a w -> returns (mret a) P w.
Proof using Type. done. Qed.

Lemma returns_bind {A B} (m : Prog A) (f : A -> Prog B) P Q w :
  returns m P w -> (forall a w', P a w' -> returns (f a) Q w') -> returns (m ≫= f) Q w.
Proof using Type.
  intros Hm Hf. apply ends_and_then. eapply ends_mono; [exact Hm|].
  intros [a|e|] w' H; [by apply Hf|done..].
Qed.

Lemma returns_call (a : action) (P : answer a -> World -> Prop) w :
  (forall o, calm o -> P (fst (serve pid o a w)) (snd (serve pid o a w))) -> returns (call a) P w.
Proof using Type. intros H o Ho. by apply H. Qed.

Lemma returns_call_ok {A} (m : Prog (io A)) (P : A -> World -> Prop) w :
  returns m (fun r w' => exists a, r = IoOk a /\ P a w') w -> returns (r ← m; io_ok r) P w.
Proof using Type.
  intros H. eapply returns_bind; [exact H|]. by intros r w' (a & -> & HP).
Qed.

(** A call that succeeds and leaves the state as it is. *)
Lemma returns_ok {A} (m : Prog (io A)) a w :
  returns m (fun r w' => w' = w /\ r = IoOk a) w ->
  returns (r ← m; io_ok r) (fun x w' => w' = w /\ x = a) w.
Proof using Type.
  intros H. apply returns_call_ok. eapply returns_mono; [exact H|]. intros r w' [-> ->]. eauto.
Qed.

Lemma returns_for_list {A S} (I : S -> World -> Prop) (xs : list A) (body : A -> S -> Prog S) s w :
  I s w -> (forall x s w', x ∈ xs -> I s w' -> returns (body x s) I w') -> returns (for_list xs body s) I w.
Proof using Type.
  revert s w. induction xs as [|x xs IH]; intros s w HI Hb; cbn [for_list]; [done|].
  eapply returns_bind; [apply Hb; [by left|done]|]. intros s' w' HI'. apply IH; [done|].
  intros y t w2 Hy. apply Hb. by right.
Qed.

Lemma returns_check_cancelled w : returns check_cancelled (fun _ w' => w' = w) w.
Proof using Type.
  intros o Ho. cbn [serve fst snd]. by rewrite (calm_signal _ Ho).
Qed.

Lemma returns_try_reserve w : returns try_reserve (fun _ w' => w' = w) w.
Proof using Type.
  intros o Ho. cbn [serve fst snd]. by rewrite (calm_signal _ Ho).
Qed.

Lemma returns_stat p w :
  returns (fs_metadata p) (fun r w' => w' = w /\
    match node_at w p with
    | Some n => exists m, r = IoOk m /\ metadata_node m = n
    | None => exists e, r = IoErr e
    end) w.
Proof using Type.
  apply (returns_call (Stat p)). intros o Ho. cbn [serve fst snd]. split; [done|].
  unfold stat. rewrite (calm_fault _ Ho). destruct (node_at w p); eauto.
Qed.

(** A name below directories only. *)
Definition reachable_parent w (p : path) : Prop :=
  forallb (fun q => match node_at w q with Some DirNode | None => true | _ => false end)
    (prefixes (removelast p)) = true.

Lemma returns_stat_missing p w :
  node_at w p = None -> reachable_parent w p ->
  returns (fs_metadata p) (fun r w' => w' = w /\ r = IoErr NotFound) w.
Proof using Type.
  intros Hp Hr. apply (returns_call (Stat p)). intros o Ho. cbn [serve fst snd]. split; [done|].
  unfold stat. rewrite (calm_fault _ Ho), Hp. unfold missing. by rewrite Hr.
Qed.

Lemma returns_open_read p i w :
  node_at w p = Some (FileNode i) ->
  returns (fs_open p OpenRead) (fun r w' => w' = w /\ r = IoOk {| handle_inode := Some i; position := 0 |}) w.
Proof using Type.
  intros Hp. apply (returns_call (Open p OpenRead)). intros o Ho. cbn [serve]. unfold open. by rewrite (calm_fault _ Ho), Hp.
Qed.

Lemma returns_file_len h i w :
  handle_inode h = Some i ->
  returns (file_len h) (fun r w' => w' = w /\ r = IoOk (N.of_nat (length (inode_bytes w i)))) w.
Proof using Type.
  intros Hi. apply (returns_call (HandleLen h)). intros o Ho. cbn [serve fst snd]. split; [done|].
  unfold handle_len. by rewrite (calm_fault _ Ho), Hi.
Qed.

Lemma slice_all (bs : bytes) n : N.of_nat (length bs) <= n -> slice bs 0 n = bs.
Proof using Type. intros H. unfold slice. rewrite drop_0. apply take_ge. lia. Qed.

(** The whole of a file that is short enough. *)
Lemma returns_read_to_end h i count w :
  handle_inode h = Some i -> position h = 0 -> N.of_nat (length (inode_bytes w i)) <= count ->
  returns (read_to_end h count) (fun r w' => w' = w /\ r = IoOk (inode_bytes w i)) w.
Proof using Type.
  intros Hi Hp Hc. apply (returns_call (ReadAll h (Some count))). intros o Ho. cbn [serve fst snd]. split; [done|].
  unfold read_all. rewrite (calm_fault _ Ho), Hi, Hp, slice_all; [done|lia].
Qed.

Lemma returns_read h i count w :
  handle_inode h = Some i -> 1 <= count ->
  returns (file_read h count) (fun r w' => w' = w /\ exists n, (1 <= n)%nat /\
    r = IoOk (take n (drop (N.to_nat (position h)) (inode_bytes w i)))) w.
Proof using Type.
  intros Hi Hc. apply (returns_call (ReadHandle h count)). intros o Ho. cbn [serve fst snd].
  split; [done|]. unfold read_handle. rewrite (calm_fault _ Ho), Hi.
  exists (N.to_nat (N.min count (N.max 1 (chunk o)))). split; [lia|done].
Qed.

Lemma returns_rewind h w :
  returns (r ← file_rewind h; io_ok r) (fun h' w' => w' = w /\ handle_inode h' = handle_inode h /\ position h' = 0) w.
Proof using Type.
  apply returns_call_ok. apply (returns_call (SeekStart h)). intros o Ho. cbn [serve fst snd].
  rewrite (calm_fault _ Ho). eauto.
Qed.

(** ** Lookup *)

(** The digest is reached when there are rounds for reads of one byte each. *)
Lemma returns_digest_loop fuel h i hashed w :
  handle_inode h = Some i -> hashed = take (N.to_nat (position h)) (inode_bytes w i) ->
  (length (inode_bytes w i) - N.to_nat (position h) < fuel)%nat ->
  returns (digest_loop sha256 fuel h hashed) (fun r w' => w' = w /\
    fst r = from_bytes (sha256 (inode_bytes w i)) /\ handle_inode (snd r) = Some i) w.
Proof using Type.
  revert h hashed. induction fuel as [|fuel IH]; intros h hashed Hi Hbs Hfuel; [lia|]. cbn [digest_loop].
  eapply returns_bind; [apply returns_check_cancelled|]. intros _ ? ->.
  apply (returns_bind _ _ (fun bs w' => w' = w /\ exists n, (1 <= n)%nat /\
    bs = take n (drop (N.to_nat (position h)) (inode_bytes w i)))).
  { apply returns_call_ok. eapply returns_mono; [by apply (returns_read h i)|].
    intros r w' (-> & n & Hn & ->). eauto 8. }
  intros bs w' (-> & n & Hn & ->).
  destruct (_ =? 0)%nat eqn:E.
  - apply Nat.eqb_eq in E. apply returns_ret. split_and!; [done| |done]. simpl.
    rewrite Hbs, take_ge; [done|]. rewrite length_take, length_drop in E. lia.
  - apply Nat.eqb_neq in E. rewrite length_take, length_drop in E. apply IH; [done| |].
    + cbn [advance position]. rewrite Hbs, N2Nat.inj_add, Nat2N.id. by apply take_drop_take.
    + cbn [advance position]. rewrite N2Nat.inj_add, Nat2N.id, length_take, length_drop. lia.
Qed.

(** A published entry with everything a lookup asks for. *)
Record entry_complete w (entry : path) n k c (bs : bytes) (m p : nat) (e : CacheEnvelope) : Prop := {
  complete_dir : node_at w entry = Some DirNode;
  complete_metadata : node_at w (entry ++ [METADATA_FILE]) = Some (FileNode m);
  complete_payload : node_at w (entry ++ [PAYLOAD_FILE]) = Some (FileNode p);
  complete_small : N.of_nat (length (inode_bytes w m)) <= MAX_METADATA_BYTES;
  complete_envelope : from_slice (inode_bytes w m) = Some e;
  complete_version : envelope_version e = CACHE_ENVELOPE_VERSION;
  complete_namespace : envelope_namespace e = n;
  complete_key : envelope_key e = k;
  complete_compatibility : envelope_compatibility e = c;
  complete_bytes : inode_bytes w p = bs;
  complete_length : envelope_payload_len e = N.of_nat (length bs);
  complete_digest : envelope_payload_digest e = from_bytes (sha256 bs)
}.

Lemma returns_read_envelope w entry n k c bs m p e :
  entry_complete w entry n k c bs m p e ->
  returns (read_envelope from_slice entry) (fun r w' => w' = w /\ r = Envelope e) w.
Proof using Type.
  intros H. unfold read_envelope.
  eapply returns_bind; [apply returns_open_read, H|]. intros ? ? [-> ->].
  eapply returns_bind; [apply returns_ok; by apply (returns_file_len _ m)|]. intros ? ? [-> ->].
  pose proof (complete_small _ _ _ _ _ _ _ _ _ H) as Hs.
  rewrite (proj2 (N.ltb_ge _ _)) by done.
  eapply returns_bind; [apply returns_ok; apply (returns_read_to_end _ m); [done|done|lia]|].
  intros ? ? [-> ->]. cbv zeta.
  rewrite (proj2 (N.ltb_ge _ _)) by done. by rewrite (complete_envelope _ _ _ _ _ _ _ _ _ H).
Qed.

(** The entry that a lookup hands to its caller. *)
Definition entry_of (entry : path) (e : CacheEnvelope) (p : nat) : CacheEntry :=
  {| info := info_from_envelope e (entry ++ [PAYLOAD_FILE]);
     payload := {| handle_inode := Some p; position := 0 |} |}.

Lemma handle_eta h i : handle_inode h = Some i -> position h = 0 -> h = {| handle_inode := Some i; position := 0 |}.
Proof using Type. destruct h; simpl. by intros -> ->. Qed.

Lemma returns_lookup_entry_path w entry n k c v bs m p e :
  entry_complete w entry n k c bs m p e -> (length bs < rounds)%nat ->
  returns (lookup_entry_path sha256 from_slice rounds entry n k c v)
    (fun r w' => w' = w /\ r = Hit (entry_of entry e p)) w.
Proof using Type.
  intros H Hrounds. unfold lookup_entry_path.
  eapply returns_bind; [apply returns_check_cancelled|]. intros _ ? ->.
  eapply returns_bind; [apply returns_stat|]. intros r ? [-> Hr].
  rewrite (complete_dir _ _ _ _ _ _ _ _ _ H) in Hr. destruct Hr as (md & -> & Hmd).
  unfold is_dir. rewrite Hmd. cbn [negb].
  eapply returns_bind; [by eapply returns_read_envelope|]. intros ? ? [-> ->].
  rewrite (complete_version _ _ _ _ _ _ _ _ _ H), N.eqb_refl. cbn [negb].
  rewrite (complete_namespace _ _ _ _ _ _ _ _ _ H), bool_decide_eq_true_2 by done. cbn [negb].
  rewrite (complete_key _ _ _ _ _ _ _ _ _ H), bool_decide_eq_true_2 by done. cbn [negb].
  rewrite (complete_compatibility _ _ _ _ _ _ _ _ _ H), bool_decide_eq_true_2 by done. cbn [negb].
  eapply returns_bind; [apply returns_open_read, H|]. intros ? ? [-> ->].
  eapply returns_bind; [apply returns_ok; by apply (returns_file_len _ p)|]. intros ? ? [-> ->].
  rewrite (complete_bytes _ _ _ _ _ _ _ _ _ H), (complete_length _ _ _ _ _ _ _ _ _ H), N.eqb_refl.
  cbn [negb]. cbv zeta.
  assert (forall h, handle_inode h = Some p ->
    returns (file ← (r ← file_rewind h; io_ok r);
             mret (Hit {| info := info_from_envelope e (entry ++ [PAYLOAD_FILE]); payload := file |}))
      (fun r w' => w' = w /\ r = Hit (entry_of entry e p)) w) as Hfinish.
  { intros h Hh. eapply returns_bind; [apply returns_rewind|]. intros h' ? (-> & Hi & Hp).
    apply returns_ret. split; [done|]. unfold entry_of. do 2 f_equal. apply handle_eta; congruence. }
  case_bool_decide; [|by apply Hfinish].
  eapply returns_bind; [apply (returns_digest_loop rounds _ p); [done|done|]|].
  { rewrite (complete_bytes _ _ _ _ _ _ _ _ _ H). simpl. lia. }
  intros [d h] ? (-> & Hd & Hh). simpl in Hd, Hh.
  rewrite (complete_bytes _ _ _ _ _ _ _ _ _ H) in Hd.
  rewrite Hd, (complete_digest _ _ _ _ _ _ _ _ _ H), bool_decide_eq_true_2 by done. cbn [negb].
  by apply Hfinish.
Qed.

(** A complete entry is found, under both policies. *)
Lemma returns_lookup w cache n k c v bs m p e :
  entry_complete w (entry_path cache n k) n k c bs m p e -> (length bs < rounds)%nat ->
  returns (lookup_with_validation_and_cancellation sha256 from_slice rounds cache n k c v)
    (fun r w' => w' = w /\ r = Hit (entry_of (entry_path cache n k) e p)) w.
Proof using Type.
  intros H Hrounds. eapply returns_bind; [apply returns_check_cancelled|]. intros _ ? ->. cbv zeta.
  eapply returns_bind; [by eapply returns_lookup_entry_path|]. by intros ? ? [-> ->].
Qed.

(** ** A vacant place *)

(** No file lies where the directories to [d] should be. *)
Definition clear_path w (d : path) : Prop :=
  forall q, q ∈ prefixes d -> node_at w q = Some DirNode \/ node_at w q = None.

Lemma clear_reachable w d x : clear_path w d -> reachable_parent w (d ++ [x]).
Proof using Type.
  intros H. unfold reachable_parent. rewrite removelast_snoc. apply forallb_forall. intros q Hq.
  apply list_elem_of_In in Hq. by destruct (H q Hq) as [-> | ->].
Qed.

Lemma prefixes_snoc d x : prefixes (d ++ [x]) = prefixes d ++ [d ++ [x]].
Proof using Type.
  unfold prefixes. rewrite length_app, Nat.add_1_r, seq_S, map_app. cbn [map]. f_equal.
  - apply map_ext_in. intros n Hn%in_seq. rewrite take_app_le; [done|lia].
  - f_equal. rewrite take_ge; [done|]. rewrite length_app. simpl. lia.
Qed.

Lemma clear_shorter w d x : clear_path w (d ++ [x]) -> clear_path w d.
Proof using Type. intros H q Hq. apply H. rewrite prefixes_snoc. apply elem_of_app. by left. Qed.

(** No generation of the entry of a key, and few enough names beside it. *)
Record vacant w (d : path) (k : CacheKey) (budget : N) : Prop := {
  vacant_clear : clear_path w d;
  vacant_entry : node_at w (d ++ [CacheKey_display k]) = None;
  vacant_previous name :
    is_Some (nodes w !! (d ++ [name])) ->
    String.prefix (previous_name (CacheKey_display k) EmptyString) name = false;
  vacant_budget : N.of_nat (length (children w d)) <= budget
}.

Lemma returns_for_skipping {A S} (xs : list A) (body : A -> S * ScanBudget -> Prog (S * ScanBudget)) s scan w :
  N.of_nat (length xs) <= scan ->
  (forall x scan, x ∈ xs -> 1 <= scan ->
     returns (body x (s, scan)) (fun r w' => w' = w /\ r = (s, scan - 1)) w) ->
  returns (for_list xs body (s, scan)) (fun r w' => w' = w /\ fst r = s) w.
Proof using Type.
  revert scan. induction xs as [|x xs IH]; intros scan Hlen Hb; cbn [for_list]; [by apply returns_ret|].
  simpl in Hlen. eapply returns_bind; [apply Hb; [by left|lia]|]. intros ? ? [-> ->].
  apply IH; [lia|]. intros y scan' Hy. apply Hb. by right.
Qed.

Lemma returns_visit_entry scan w :
  1 <= scan -> returns (visit_entry scan) (fun r w' => w' = w /\ r = scan - 1) w.
Proof using Type.
  intros H. eapply returns_bind; [apply returns_check_cancelled|]. intros _ ? ->.
  unfold checked_sub. by rewrite (proj2 (N.leb_le _ _)).
Qed.

Lemma returns_to_option {A} (o : option A) a e w :
  o = Some a -> returns (to_option o e) (fun x w' => w' = w /\ x = a) w.
Proof using Type. by intros ->. Qed.

Lemma returns_replacement_paths w d k scan :
  d <> [] -> to_str (CacheKey_display k) = Some (CacheKey_display k) -> vacant w d k scan ->
  returns (replacement_paths (d ++ [CacheKey_display k]) scan) (fun r w' => w' = w /\ fst r = []) w.
Proof using Type.
  intros Hd Hstr [Hclear _ Hprev Hbudget].
  eapply returns_bind; [apply returns_check_cancelled|]. intros _ ? ->.
  eapply returns_bind; [apply returns_to_option, parent_snoc|]. intros ? ? [-> ->].
  eapply returns_bind; [apply returns_to_option|].
  { unfold file_name. rewrite last_snoc. exact Hstr. }
  intros ? ? [-> ->]. cbv zeta.
  assert (returns (fs_read_dir d) (fun r w' => w' = w /\ (r = IoErr NotFound \/
    exists entries, r = IoOk entries /\ length entries = length (children w d) /\
      forall x, x ∈ entries -> exists name, x = IoOk name /\
        String.prefix (previous_name (CacheKey_display k) EmptyString) name = false)) w) as Hread.
  { apply (returns_call (ReadDir d)). intros o Ho. cbn [serve fst snd]. split; [done|].
    unfold read_dir. rewrite (calm_fault _ Ho).
    destruct (path_snoc d Hd) as (x & Hx & _).
    assert (d ∈ prefixes d) as Hin by (rewrite Hx, prefixes_snoc; apply elem_of_app; right; by left).
    destruct (Hclear d Hin) as [-> | ->].
    - right. eexists. split; [done|]. rewrite length_map, (calm_listing _ Ho). split; [done|].
      intros y Hy%list_elem_of_fmap. destruct Hy as (name & -> & Hname). exists name.
      rewrite (calm_unreadable _ Ho). split; [done|]. rewrite (calm_listing _ Ho) in Hname.
      apply elem_of_children in Hname as [n Hn]. apply Hprev. by exists n.
    - left. unfold missing. pose proof Hclear as Hc. rewrite Hx in Hc. apply clear_shorter in Hc.
      pose proof (clear_reachable w (removelast d) x Hc) as Hr. rewrite <-Hx in Hr.
      unfold reachable_parent in Hr. by rewrite Hr. }
  eapply returns_bind; [exact Hread|]. intros r ? (-> & [->|(entries & -> & Hlen & Hall)]); [by apply returns_ret|].
  eapply returns_bind; [apply returns_for_skipping; [lia|]|].
  { intros x sc Hx Hsc. eapply returns_bind; [by apply returns_visit_entry|]. intros ? ? [-> ->].
    destruct (Hall x Hx) as (name & -> & Hp). destruct (to_str name) as [name'|] eqn:E; [|by apply returns_ret].
    apply to_str_Some in E as ->. rewrite Hp. by apply returns_ret. }
  intros [paths sc] ? [-> Hpaths]. simpl in Hpaths. rewrite Hpaths. by apply returns_ret.
Qed.

Lemma returns_ScanBudget_new n w :
  1 <= n -> returns (ScanBudget_new n) (fun r w' => w' = w /\ r = n) w.
Proof using Type.
  intros H. eapply returns_bind; [apply returns_check_cancelled|]. intros _ ? ->.
  by rewrite (proj2 (N.eqb_neq _ _)) by lia.
Qed.

Lemma returns_lookup_entry_vacant w d x n k c v :
  clear_path w d -> node_at w (d ++ [x]) = None ->
  returns (lookup_entry_path sha256 from_slice rounds (d ++ [x]) n k c v)
    (fun r w' => w' = w /\ r = Miss EntryNotFound) w.
Proof using Type.
  intros Hc Hn. eapply returns_bind; [apply returns_check_cancelled|]. intros _ ? ->.
  eapply returns_bind; [apply returns_stat_missing; [done|by apply clear_reachable]|].
  by intros ? ? [-> ->].
Qed.

(** Nothing is found in a vacant place. *)
Lemma returns_lookup_vacant w cache d n k c v :
  entry_path cache n k = d ++ [CacheKey_display k] -> d <> [] ->
  to_str (CacheKey_display k) = Some (CacheKey_display k) ->
  1 <= maximum_scan_entries (options cache) ->
  vacant w d k (maximum_scan_entries (options cache)) ->
  returns (lookup_with_validation_and_cancellation sha256 from_slice rounds cache n k c v)
    (fun r w' => w' = w /\ r = Miss EntryNotFound) w.
Proof using Type.
  intros Hpath Hd Hstr Hmax Hv. pose proof Hv as [Hc He _ _].
  assert (returns (lookup_entry_path sha256 from_slice rounds (entry_path cache n k) n k c v)
    (fun r w' => w' = w /\ r = Miss EntryNotFound) w) as Hmiss.
  { rewrite Hpath. by apply returns_lookup_entry_vacant. }
  eapply returns_bind; [apply returns_check_cancelled|]. intros _ ? ->. cbv zeta.
  eapply returns_bind; [exact Hmiss|]. intros ? ? [-> ->].
  eapply returns_bind; [by apply returns_ScanBudget_new|]. intros ? ? [-> ->].
  eapply returns_bind; [rewrite Hpath; by apply returns_replacement_paths|].
  intros [ps sc] ? [-> Hps]. simpl in Hps. subst ps.
  eapply returns_bind; [exact Hmiss|]. intros ? ? [-> ->].
  eapply returns_bind; [by apply (returns_ret None (fun r w' => w' = w /\ r = None))|].
  intros ? ? [-> ->]. exact Hmiss.
Qed.
End Calm.
