(* ===== verification/CacheSolo.v ===== *)
(** * A publication without faults

    Where the place of an entry is vacant, a publication that runs alone ends, and
    leaves a complete entry with the bytes it was given. *)

From S2P Require Import Prelude Errors Tensor Identity Order FileReader FileSystem Cache CacheNames.
From S2P Require Import Interference CacheSpecs CachePublish CacheCalm.
From stdpp Require Import strings gmap pretty.
Local Open Scope N_scope.

(** ** Texts of ASCII characters *)

Fixpoint ascii_text (s : string) : bool :=
  match s with EmptyString => true | String c s => (Ascii.N_of_ascii c <? 128) && ascii_text s end.

Lemma ascii_app s t : ascii_text (s +:+ t) = ascii_text s && ascii_text t.
Proof. induction s as [|c s IH]; [done|]. rewrite string_app_cons. simpl. by rewrite IH, andb_assoc. Qed.

Lemma ascii_utf8 s : ascii_text s = true -> utf8_valid (String.list_byte_of_string s) = true.
Proof.
  induction s as [|c s IH]; [done|]. simpl. intros [Hc Hs]%andb_true_iff.
  destruct c as [[] [] [] [] [] [] [] []]; try done; by apply IH.
Qed.

Lemma ascii_pretty_go n s : ascii_text s = true -> ascii_text (pretty_N_go n s) = true.
Proof.
  revert s. induction (N.lt_wf_0 n) as [n _ IH]; intros s Hs.
  destruct (decide (n = 0)) as [->|Hn]; [by rewrite pretty_N_go_0|].
  rewrite pretty_N_go_step by lia. apply IH; [apply N.div_lt; lia|].
  simpl. rewrite Hs, andb_true_r. unfold pretty_N_char. by repeat case_match.
Qed.

Lemma ascii_pretty (n : N) : ascii_text (pretty n) = true.
Proof. unfold pretty, pretty_N. case_decide; [done|]. by apply ascii_pretty_go. Qed.

Lemma ascii_hex n : ascii_text (hex_text n) = true.
Proof. unfold hex_text. generalize (N.to_hex_uint n). intros u. by induction u. Qed.

Lemma ascii_token pid nanos sequence : ascii_text (token_text pid nanos sequence) = true.
Proof. unfold token_text. by rewrite !ascii_app, ascii_pretty, !ascii_hex. Qed.

Lemma ascii_display_byte b rest :
  ascii_text (String.string_of_list_byte (display_byte b ++ rest)) =
  ascii_text (String.string_of_list_byte rest).
Proof. by destruct b. Qed.

Lemma ascii_key k : ascii_text (CacheKey_display k) = true.
Proof.
  unfold CacheKey_display, digest_display. generalize (digest_bytes (key_digest k)). intros bs.
  induction bs as [|b bs IH]; [done|]. exact (eq_trans (ascii_display_byte b _) IH).
Qed.

Lemma to_str_ascii s : ascii_text s = true -> to_str s = Some s.
Proof. intros H. unfold to_str. by rewrite ascii_utf8. Qed.

(** ** Names *)

(** The names that operations on a key give to directories beside its entry. *)
Definition key_prefix (k : CacheKey) : string := "." +:+ CacheKey_display k +:+ ".".

Lemma prefix_string_app p s : String.prefix p (p +:+ s) = true.
Proof. apply prefix_self. Qed.

Lemma lease_prefix k : lease_name k = key_prefix k +:+ "lease".
Proof. unfold lease_name, key_prefix. by rewrite !string_app_assoc. Qed.
Lemma staging_prefix k t : staging_name k t = key_prefix k +:+ "tmp-" +:+ t.
Proof. unfold staging_name, key_prefix. by rewrite !string_app_assoc. Qed.
Lemma reaped_prefix k t : reaped_name (lease_name k) t = key_prefix k +:+ "lease.reap-" +:+ t.
Proof. unfold reaped_name. rewrite lease_prefix. by rewrite !string_app_assoc. Qed.
Lemma previous_prefix k t : previous_name (CacheKey_display k) t = key_prefix k +:+ "previous-" +:+ t.
Proof. unfold previous_name, key_prefix. by rewrite !string_app_assoc. Qed.

Lemma string_app_inj_l (p s t : string) : p +:+ s = p +:+ t -> s = t.
Proof. induction p as [|c p IH]; [done|]. rewrite !string_app_cons. intros [= H]. by apply IH. Qed.

Lemma lease_staging k t : lease_name k <> staging_name k t.
Proof. rewrite lease_prefix, staging_prefix. by intros H%string_app_inj_l. Qed.
Lemma lease_reaped k t : lease_name k <> reaped_name (lease_name k) t.
Proof. rewrite reaped_prefix, lease_prefix. by intros H%string_app_inj_l. Qed.
Lemma staging_reaped k t t' : staging_name k t <> reaped_name (lease_name k) t'.
Proof. rewrite staging_prefix, reaped_prefix. by intros H%string_app_inj_l. Qed.
Lemma prefixed_display k s : key_prefix k +:+ s <> CacheKey_display k.
Proof.
  intros H. pose proof (CacheKey_display_free k) as Hf. rewrite <-H in Hf. unfold key_prefix in Hf.
  rewrite !string_app_assoc, !free_app in Hf. done.
Qed.

Lemma no_previous k x :
  String.prefix (previous_name (CacheKey_display k) EmptyString) (key_prefix k +:+ x) =
  String.prefix "previous-" x.
Proof.
  rewrite previous_prefix. generalize (key_prefix k). intros s.
  induction s as [|c s IH].
  - by rewrite !string_app_nil.
  - rewrite !string_app_cons, CacheNames.prefix_cons. by rewrite bool_decide_eq_true_2.
Qed.

Section Solo.
Context (sha256 : bytes -> bytes) (to_vec : CacheEnvelope -> option bytes).
Context (from_slice : bytes -> option CacheEnvelope) (rounds : nat) (pid : N).
Context (d : path) (k : CacheKey) (Hd : d <> []).
Implicit Types w : World.

Local Notation returns := (returns pid).
Local Notation K := (CacheKey_display k).

(** ** What the publication knows of the file system *)

(** The directory of the entry, with the names beside it that are in use. *)
Record place w (busy : list string) (budget : N) : Prop := {
  place_dir : node_at w d = Some DirNode;
  place_clear : clear_path w d;
  place_entry s : nodes w !! (d ++ K :: s) = None;
  place_free name s :
    String.prefix (key_prefix k) name = true -> name ∉ busy -> nodes w !! (d ++ name :: s) = None;
  place_budget : N.of_nat (length (children w d)) <= budget
}.

(** The lease, whose owner is recorded. *)
Record leased w (owner : bytes) (io ih : nat) : Prop := {
  leased_dir : node_at w (d ++ [lease_name k]) = Some DirNode;
  leased_owner : node_at w ((d ++ [lease_name k]) ++ [OWNER_FILE]) = Some (FileNode io);
  leased_heartbeat : node_at w ((d ++ [lease_name k]) ++ [HEARTBEAT_FILE]) = Some (FileNode ih);
  leased_bytes : inode_bytes w io = owner;
  leased_apart : io <> ih;
  leased_old : (io < next_inode w)%nat /\ (ih < next_inode w)%nat
}.

Lemma node_at_below w s x : node_at w (d ++ x :: s) = nodes w !! (d ++ x :: s).
Proof using Hd. apply node_at_nodes. by destruct d. Qed.

Lemma place_nodes w w' busy budget : nodes w' = nodes w -> place w busy budget -> place w' busy budget.
Proof using Type.
  destruct w, w'; simpl. intros -> [H1 H2 H3 H4 H5]. split; assumption.
Qed.

Lemma place_vacant w busy budget :
  place w busy budget ->
  (forall x, x ∈ busy -> exists y, x = key_prefix k +:+ y /\ String.prefix "previous-" y = false) ->
  vacant w d k budget.
Proof using Hd.
  intros [Hdir Hclear Hentry Hfree Hbudget] Hbusy. split; [done| |intros name [nd Hn]|done].
  - rewrite node_at_below. apply Hentry.
  - destruct (String.prefix (previous_name K EmptyString) name) eqn:E; [|done].
    destruct (decide (name ∈ busy)) as [Hin|Hin].
    + destruct (Hbusy name Hin) as (y & -> & Hy). by rewrite no_previous, Hy in E.
    + apply string_prefix_app in E as [t ->]. rewrite previous_prefix, !string_app_assoc in *.
      rewrite Hfree in Hn; [done|apply prefix_self|done].
Qed.

(** ** Changes below the directory *)

Lemma children_insert w p n :
  nodes w !! p = None ->
  length (children (set_nodes <[p := n]> w) d) =
  ((if decide (parent p = Some d) then 1 else 0) + length (children w d))%nat.
Proof using Type.
  intros Hp. unfold children. simpl. rewrite map_to_list_insert by done. cbn [omap list_omap].
  case_decide as E; [|done]. unfold parent in E. destruct p as [|x p]; [done|].
  destruct (path_snoc (x :: p)) as (y & _ & ->); [done|]. done.
Qed.

Lemma parent_below s x : s <> [] -> parent (d ++ x :: s) <> Some d.
Proof using Hd.
  intros Hs H. unfold parent in H. destruct (d ++ x :: s) as [|y p] eqn:E; [by destruct d|].
  rewrite <-E in H. injection H as H. apply (f_equal length) in H.
  rewrite removelast_app in H by done. rewrite length_app in H.
  destruct s as [|z s]; [done|]. simpl in H. lia.
Qed.

Lemma app_cons_ne (x y : string) s t : x <> y -> d ++ x :: s <> d ++ y :: t.
Proof using Type. intros H E. apply app_inv_head in E. by injection E. Qed.

Lemma place_insert w x s n busy budget :
  place w busy budget -> String.prefix (key_prefix k) x = true -> nodes w !! (d ++ x :: s) = None ->
  place (set_nodes <[d ++ x :: s := n]> w) (x :: busy) (budget + 1).
Proof using Hd.
  intros [Hdir Hclear Hentry Hfree Hbudget] Hx Hnone.
  assert (d ++ x :: s <> []) as Hne by (by destruct d).
  assert (forall q, (length q <= length d)%nat -> node_at (set_nodes <[d ++ x :: s := n]> w) q = node_at w q)
    as Hup.
  { intros q Hq. rewrite node_at_insert by done. rewrite decide_False; [done|]. intros <-.
    rewrite length_app in Hq. simpl in Hq. lia. }
  split.
  - by rewrite Hup.
  - intros q Hq. rewrite Hup; [by apply Hclear|]. apply list_elem_of_fmap in Hq as (m & -> & Hm%elem_of_seq).
    rewrite length_take. lia.
  - intros t. simpl. rewrite lookup_insert_ne; [done|]. apply app_cons_ne. intros ->.
    apply string_prefix_app in Hx as [t' Hx]. by apply (prefixed_display k t').
  - intros y t Hy Hin. simpl. rewrite lookup_insert_ne; [|apply app_cons_ne; set_solver].
    apply Hfree; [done|set_solver].
  - rewrite children_insert by done. case_decide; lia.
Qed.

Lemma place_insert_below w x y s n busy budget :
  place w busy budget -> x ∈ busy -> String.prefix (key_prefix k) x = true ->
  nodes w !! (d ++ x :: y :: s) = None ->
  place (set_nodes <[d ++ x :: y :: s := n]> w) busy budget.
Proof using Hd.
  intros Hp Hx Hprefix Hnone.
  destruct (place_insert w x (y :: s) n busy budget Hp Hprefix Hnone) as [H1 H2 H3 H4 H5].
  split; [done..| |].
  - intros name t Hname Hin. apply H4; [done|]. set_solver.
  - rewrite children_insert by done. rewrite decide_False by (by apply parent_below). apply Hp.
Qed.

(** ** Calls that succeed *)

Lemma returns_create_dir p w :
  node_at w p = None -> parent_dir w p = true ->
  returns (fs_create_dir p) (fun r w' => r = IoOk tt /\ w' = set_nodes <[p := DirNode]> w) w.
Proof using Type.
  intros Hp Hd'. apply (returns_call _ (CreateDir p)). intros o Ho. cbn [serve]. unfold create_dir.
  by rewrite (calm_fault _ Ho), Hp, Hd'.
Qed.

(** A new file. *)
Record added w (p : path) (bs : bytes) w' : Prop := {
  added_nodes : nodes w' = <[p := FileNode (next_inode w)]> (nodes w);
  added_bytes j : inode_bytes w' j = if decide (j = next_inode w) then bs else inode_bytes w j;
  added_next : next_inode w' = S (next_inode w)
}.

Lemma added_at w p bs w' q :
  added w p bs w' -> p <> [] ->
  node_at w' q = if decide (p = q) then Some (FileNode (next_inode w)) else node_at w q.
Proof using Type.
  intros [Hn _ _] Hp. rewrite <-(node_at_insert w p q) by done. unfold node_at. by rewrite Hn.
Qed.

Lemma returns_create_file p name mode w :
  mode = OpenCreateNew \/ mode = OpenCreateTruncate ->
  node_at w p = None -> parent_dir w p = true -> last p = Some name ->
  returns (fs_open p mode) (fun r w' =>
    r = IoOk {| handle_inode := Some (next_inode w); position := 0 |} /\ added w p [] w') w.
Proof using Type.
  intros Hmode Hp Hd' Hl. apply (returns_call _ (Open p mode)). intros o Ho. cbn [serve]. unfold open.
  rewrite (calm_fault _ Ho), Hp.
  assert (added w p [] (with_file w p name)) as H by (split; [done|apply with_file_bytes|done]).
  destruct Hmode as [-> | ->]; unfold create_file; by rewrite Hd', Hl.
Qed.

Lemma returns_write h i bs w :
  handle_inode h = Some i ->
  returns (file_write h bs) (fun r w' => r = IoOk tt /\
    w' = set_bytes i (overwrite (inode_bytes w i) (position h) bs) w) w.
Proof using Type.
  intros Hi. apply (returns_call _ (WriteAll h bs)). intros o Ho. cbn [serve]. unfold write_all.
  by rewrite Hi, (calm_fault _ Ho).
Qed.

Lemma overwrite_nil bs : overwrite [] 0 bs = bs.
Proof using Type. unfold overwrite. simpl. by rewrite drop_nil, app_nil_r. Qed.

Lemma returns_fs_write p name bs w :
  node_at w p = None -> parent_dir w p = true -> last p = Some name ->
  returns (fs_write p bs) (fun r w' => r = IoOk tt /\ added w p bs w') w.
Proof using Type.
  intros Hp Hd' Hl. eapply returns_bind; [apply (returns_create_file p name OpenCreateTruncate); by auto|].
  intros ? w1 [-> [Hn Hb Hi]]. eapply returns_mono; [by apply (returns_write _ (next_inode w))|].
  intros r w' [-> ->]. split; [done|]. split; [done| |done]. intros j.
  rewrite set_bytes_bytes, Hb. case_decide; [|by rewrite Hb, decide_False].
  by rewrite decide_True, overwrite_nil.
Qed.

(** Only the counters of processes have changed. *)
Definition same_files w w' : Prop :=
  nodes w' = nodes w /\ inodes w' = inodes w /\ next_inode w' = next_inode w.

Lemma returns_unique_token w :
  returns unique_token (fun t w' => same_files w w' /\
    exists nanos sequence, t = token_text pid nanos sequence) w.
Proof using Type.
  apply (returns_bind _ _ _ (fun _ w' => same_files w w')).
  { by apply (returns_call _ FetchAdd). }
  intros sequence w1 H1.
  apply (returns_bind _ _ _ (fun _ w' => w' = w1)); [by apply (returns_call _ SystemNow)|].
  intros nanos ? ->.
  apply (returns_bind _ _ _ (fun p w' => w' = w1 /\ p = pid)); [by apply (returns_call _ ProcessId)|].
  intros ? ? [-> ->]. apply returns_ret. eauto.
Qed.

Lemma returns_heartbeat_text w : returns heartbeat_text (fun _ w' => w' = w) w.
Proof using Type.
  eapply returns_bind; [|by intros millis w' H; apply returns_ret, H].
  eapply returns_bind; [by apply (returns_call _ SystemNow (fun _ w' => w' = w))|].
  intros nanos ? ->. by apply returns_ret.
Qed.

Lemma returns_clock w : returns instant_now (fun _ w' => w' = w) w.
Proof using Type. by apply (returns_call _ InstantNow). Qed.

(** A call that succeeds, followed by [?]. *)
Lemma returns_does {A} (m : Prog (io A)) a w w1 :
  returns m (fun r w' => r = IoOk a /\ w' = w1) w ->
  returns (r ← m; io_ok r) (fun x w' => x = a /\ w' = w1) w.
Proof using Type.
  intros H. apply returns_call_ok. eapply returns_mono; [exact H|]. intros r w' [-> ->]. eauto.
Qed.

(** ** The lease *)

Lemma parent_dir_snoc w p x : node_at w p = Some DirNode -> parent_dir w (p ++ [x]) = true.
Proof using Type. intros H. apply parent_dir_spec. split; [by destruct p|]. by rewrite removelast_snoc. Qed.

Lemma same_node_at w w' q : same_files w w' -> node_at w' q = node_at w q.
Proof using Type. intros (Hn & _). unfold node_at. by rewrite Hn. Qed.

Lemma same_files_bytes w w' i : same_files w w' -> inode_bytes w' i = inode_bytes w i.
Proof using Type. intros (_ & Hi & _). unfold inode_bytes. by rewrite Hi. Qed.

Lemma lease_prefixed : String.prefix (key_prefix k) (lease_name k) = true.
Proof using Type. rewrite lease_prefix. apply prefix_self. Qed.

Lemma snoc_longer (p : path) x : p ++ [x] <> p.
Proof using Type. intros E. apply (f_equal length) in E. rewrite length_app in E. simpl in E. lia. Qed.

Lemma snoc_nil (p : path) x : p ++ [x] <> [].
Proof using Type. by destruct p. Qed.

Lemma place_added w w' x y bs busy budget :
  place w busy budget -> x ∈ busy -> String.prefix (key_prefix k) x = true ->
  node_at w ((d ++ [x]) ++ [y]) = None -> added w ((d ++ [x]) ++ [y]) bs w' -> place w' busy budget.
Proof using Hd.
  intros Hp Hx Hprefix Hnone H. rewrite <-app_assoc in Hnone, H. simpl in Hnone, H.
  rewrite node_at_below in Hnone.
  eapply place_nodes; [|by apply (place_insert_below w x y [] (FileNode (next_inode w)))]. apply H.
Qed.

Lemma lease_made w w' budget :
  place w [] budget -> nodes w' = nodes (set_nodes <[d ++ [lease_name k] := DirNode]> w) ->
  place w' [lease_name k] (budget + 1) /\ node_at w' (d ++ [lease_name k]) = Some DirNode /\
  forall x, node_at w' ((d ++ [lease_name k]) ++ [x]) = None.
Proof using Hd.
  intros Hp Hn.
  assert (forall s, nodes w !! (d ++ lease_name k :: s) = None) as Hfree.
  { intros s. apply (place_free _ _ _ Hp); [apply lease_prefixed|apply not_elem_of_nil]. }
  assert (forall q, node_at w' q = if decide (d ++ [lease_name k] = q) then Some DirNode else node_at w q) as Hat.
  { intros q. rewrite <-(node_at_insert w) by apply snoc_nil. unfold node_at. by rewrite Hn. }
  split_and!.
  - eapply place_nodes; [exact Hn|]. apply place_insert; [done|apply lease_prefixed|apply Hfree].
  - by rewrite Hat, decide_True.
  - intros x. rewrite Hat, decide_False by (apply not_eq_sym, snoc_longer).
    rewrite <-app_assoc. simpl. by rewrite node_at_below.
Qed.

Lemma lease_filled w w1 w2 owner heartbeat :
  node_at w (d ++ [lease_name k]) = Some DirNode ->
  added w ((d ++ [lease_name k]) ++ [OWNER_FILE]) owner w1 ->
  added w1 ((d ++ [lease_name k]) ++ [HEARTBEAT_FILE]) heartbeat w2 ->
  leased w2 owner (next_inode w) (next_inode w1).
Proof using Type.
  intros Hdir H1 H2. set (lp := d ++ [lease_name k]) in *.
  assert (forall q, node_at w2 q = if decide (lp ++ [HEARTBEAT_FILE] = q) then Some (FileNode (next_inode w1))
    else if decide (lp ++ [OWNER_FILE] = q) then Some (FileNode (next_inode w)) else node_at w q) as Hat.
  { intros q. rewrite (added_at _ _ _ _ _ H2), (added_at _ _ _ _ _ H1); [done|apply snoc_nil..]. }
  pose proof (added_next _ _ _ _ H1) as E1. pose proof (added_next _ _ _ _ H2) as E2.
  split; fold lp.
  - by rewrite Hat, !decide_False by apply snoc_longer.
  - rewrite Hat, decide_False by (by intros [_ ?]%app_inj_tail). by rewrite decide_True.
  - by rewrite Hat, decide_True.
  - rewrite (added_bytes _ _ _ _ H2), decide_False by lia. by rewrite (added_bytes _ _ _ _ H1), decide_True.
  - lia.
  - lia.
Qed.

Lemma returns_acquire w o budget :
  (0 < rounds)%nat -> place w [] budget ->
  returns (WriterLease_acquire rounds d k o) (fun x w' => exists owner io ih,
    x = {| lease_path := d ++ [lease_name k]; lease_owner := owner; lease_active := true |} /\
    utf8_valid owner = true /\ place w' [lease_name k] (budget + 1) /\ leased w' owner io ih) w.
Proof using Hd.
  intros Hrounds Hp. destruct rounds as [|r]; [lia|]. clear Hrounds.
  unfold WriterLease_acquire. eapply returns_bind; [apply returns_clock|]. intros started ? ->.
  cbn [acquire_loop]. eapply returns_bind; [apply returns_check_cancelled|]. intros _ ? ->.
  set (lp := d ++ [lease_name k]).
  eapply returns_bind; [apply returns_create_dir|].
  { unfold lp. rewrite node_at_below. apply (place_free _ _ _ Hp); [apply lease_prefixed|apply not_elem_of_nil]. }
  { apply parent_dir_snoc, Hp. }
  intros ? w1 [-> ->].
  eapply returns_bind; [apply returns_unique_token|]. intros t w2 (Hs2 & nanos & q & ->). cbv zeta.
  destruct (lease_made w w2 budget) as (Hp2 & Hl2 & Hnone); [done|by apply Hs2|].
  eapply returns_bind; [apply (returns_fs_write _ OWNER_FILE);
    [apply Hnone|by apply parent_dir_snoc|by rewrite last_snoc]|].
  intros ? w3 [-> H3].
  eapply returns_bind; [apply returns_heartbeat_text|]. intros millis ? ->.
  assert (forall q, node_at w3 q = if decide (lp ++ [OWNER_FILE] = q) then Some (FileNode (next_inode w2))
                                   else node_at w2 q) as Hn3.
  { intros q'. by apply (added_at _ _ _ _ _ H3), snoc_nil. }
  assert (node_at w3 (lp ++ [HEARTBEAT_FILE]) = None) as Hnone3.
  { rewrite Hn3, decide_False; [apply Hnone|]. by intros [_ ?]%app_inj_tail. }
  eapply returns_bind; [apply (returns_fs_write _ HEARTBEAT_FILE)|].
  { done. }
  { apply parent_dir_snoc. by rewrite Hn3, decide_False by apply snoc_longer. }
  { by rewrite last_snoc. }
  intros ? w4 [-> H4]. apply returns_ret.
  exists (String.list_byte_of_string (token_text pid nanos q)), (next_inode w2), (next_inode w3).
  split_and!; [done|apply ascii_utf8, ascii_token| |by eapply lease_filled].
  apply (place_added w3 w4 (lease_name k) HEARTBEAT_FILE millis); [|by left|apply lease_prefixed|done|done].
  by apply (place_added w2 w3 (lease_name k) OWNER_FILE (String.list_byte_of_string (token_text pid nanos q)));
    [|left|apply lease_prefixed|apply Hnone|].
Qed.

(** ** Programs with guards *)

Definition greturns {A} (m : Guarded A) (P : A -> Guards -> World -> Prop) (g : Guards) w : Prop :=
  ends pid (m g) (fun r w' => match r with Ok (g', Ok a) => P a g' w' | _ => False end) w.

Lemma greturns_bind {A B} (m : Guarded A) (f : A -> Guarded B) P Q g w :
  greturns m P g w -> (forall a g' w', P a g' w' -> greturns (f a) Q g' w') -> greturns (m ≫= f) Q g w.
Proof using Type.
  intros Hm Hf. unfold greturns, mbind, Guarded_bind. apply ends_and_then.
  eapply ends_mono; [exact Hm|]. intros [[g' [a|e|]]|e|] w' H; [|done..]. by apply Hf.
Qed.

(** A step that changes no guard. *)
Lemma greturns_step {A B} (m : Prog A) (f : A -> Guarded B) P Q g w :
  returns m P w -> (forall a w', P a w' -> greturns (f a) Q g w') -> greturns (step m ≫= f) Q g w.
Proof using Type.
  intros Hm Hf. apply (greturns_bind _ _ (fun a g' w' => g' = g /\ P a w')).
  - unfold greturns, step. apply ends_and_then. eapply ends_mono; [exact Hm|].
    by intros [a|e|] w' HP.
  - intros a ? w' [-> HP]. by apply Hf.
Qed.

Lemma greturns_last {A} (m : Prog A) (P : A -> Guards -> World -> Prop) g w :
  returns m (fun a w' => P a g w') w -> greturns (step m) P g w.
Proof using Type.
  intros H. unfold greturns, step. apply ends_and_then. eapply ends_mono; [exact H|].
  by intros [a|e|] w' HP.
Qed.

Lemma greturns_ret {A} (a : A) (P : A -> Guards -> World -> Prop) g w : P a g w -> greturns (mret a) P g w.
Proof using Type. done. Qed.

(** ** Refreshing the lease *)

(** Only the bytes of the file [i] have changed, and counters. *)
Record same_but (i : nat) w w' : Prop := {
  but_nodes : nodes w' = nodes w;
  but_bytes j : j <> i -> inode_bytes w' j = inode_bytes w j;
  but_next : next_inode w' = next_inode w
}.

Lemma same_but_refl i w : same_but i w w.
Proof using Type. by split. Qed.

Lemma same_but_trans i w1 w2 w3 : same_but i w1 w2 -> same_but i w2 w3 -> same_but i w1 w3.
Proof using Type.
  intros [H1 H2 H3] [G1 G2 G3]. split; [congruence| |congruence].
  intros j Hj. by rewrite G2, H2.
Qed.

Lemma same_but_at i w w' q : same_but i w w' -> node_at w' q = node_at w q.
Proof using Type. intros [H _ _]. unfold node_at. by rewrite H. Qed.

Lemma same_but_set i bs w : same_but i w (set_bytes i bs w).
Proof using Type. split; [done| |done]. intros j Hj. by rewrite set_bytes_bytes, decide_False. Qed.

Lemma leased_but i w w' owner io ih :
  same_but i w w' -> i <> io -> leased w owner io ih -> leased w' owner io ih.
Proof using Type.
  intros Hs Hi [H1 H2 H3 H4 H5 H6]. split; rewrite ?(same_but_at _ _ _ _ Hs); try done.
  - by rewrite (but_bytes _ _ _ Hs) by done.
  - by rewrite (but_next _ _ _ Hs).
Qed.

Lemma returns_read_to_string p i bs w :
  node_at w p = Some (FileNode i) -> inode_bytes w i = bs -> utf8_valid bs = true ->
  returns (read_to_string p) (fun r w' => w' = w /\ r = IoOk bs) w.
Proof using Type.
  intros Hp <- Hu. eapply returns_bind; [by apply returns_open_read|]. intros ? ? [-> ->].
  eapply (returns_bind _ _ _ (fun r w' => w' = w /\ r = IoOk (inode_bytes w i))).
  { apply (returns_call _ (ReadAll _ None)). intros o Ho. cbn [serve fst snd]. split; [done|].
    unfold read_all. rewrite (calm_fault _ Ho). cbn [handle_inode position]. by rewrite slice_all. }
  intros ? ? [-> ->]. by rewrite Hu.
Qed.

Lemma returns_open_truncate p i w :
  node_at w p = Some (FileNode i) ->
  returns (fs_open p OpenTruncate) (fun r w' =>
    r = IoOk {| handle_inode := Some i; position := 0 |} /\ w' = set_bytes i [] w) w.
Proof using Type.
  intros Hp. apply (returns_call _ (Open p OpenTruncate)). intros o Ho. cbn [serve]. unfold open.
  by rewrite (calm_fault _ Ho), Hp.
Qed.

(** The lease of the guards. *)
Definition holds (g : Guards) (owner : bytes) : Prop :=
  lease g = {| lease_path := d ++ [lease_name k]; lease_owner := owner; lease_active := true |} /\
  utf8_valid owner = true.

Lemma greturns_refresh g owner io ih w :
  holds g owner -> leased w owner io ih ->
  greturns WriterLease_refresh (fun _ g' w' => g' = g /\ same_but ih w w') g w.
Proof using Type.
  intros [Hg Hu] Hl. pose proof Hl as [_ Howner Hheart Hbytes Hne _]. unfold WriterLease_refresh.
  apply (greturns_bind _ _ (fun x g' w' => g' = g /\ w' = w /\ x = lease g)); [done|].
  intros ? ? ? (-> & -> & ->). rewrite Hg. cbn [lease_path lease_owner].
  eapply greturns_step; [apply returns_ok; by apply (returns_read_to_string _ io owner)|].
  intros ? ? [-> ->]. rewrite bool_decide_eq_true_2 by done. cbn [negb].
  eapply greturns_step; [apply returns_does; by apply (returns_open_truncate _ ih)|].
  intros ? ? [-> ->]. apply greturns_last.
  eapply returns_bind; [apply returns_heartbeat_text|]. intros millis ? ->.
  apply returns_call_ok. eapply returns_mono; [by apply (returns_write _ ih)|].
  intros r w' [-> ->]. exists tt. do 2 (split; [done|]). eapply same_but_trans; apply same_but_set.
Qed.

(** ** Staging *)

(** A staging directory with a payload, and nothing else. *)
Record staged_payload w (name : string) (ip : nat) (bs : bytes) : Prop := {
  staged_dir : node_at w (d ++ [name]) = Some DirNode;
  staged_at : node_at w ((d ++ [name]) ++ [PAYLOAD_FILE]) = Some (FileNode ip);
  staged_alone : node_at w ((d ++ [name]) ++ [METADATA_FILE]) = None;
  staged_content : inode_bytes w ip = bs;
  staged_old : (ip < next_inode w)%nat
}.

Lemma leased_keep w w' owner io ih :
  (forall s, node_at w' (d ++ lease_name k :: s) = node_at w (d ++ lease_name k :: s)) ->
  inode_bytes w' io = inode_bytes w io -> (next_inode w <= next_inode w')%nat ->
  leased w owner io ih -> leased w' owner io ih.
Proof using Type.
  intros Hat Hb Hn [H1 H2 H3 H4 H5 H6]. rewrite <-app_assoc in H2, H3.
  split; rewrite <-?app_assoc; cbn [app]; rewrite ?Hat; try done; [congruence|lia].
Qed.

Lemma leased_other w w' p n owner io ih :
  (forall q, node_at w' q = if decide (p = q) then n else node_at w q) ->
  (forall s, p <> d ++ lease_name k :: s) ->
  inode_bytes w' io = inode_bytes w io -> (next_inode w <= next_inode w')%nat ->
  leased w owner io ih -> leased w' owner io ih.
Proof using Type. intros Hat Hp. apply leased_keep. intros s. by rewrite Hat, decide_False. Qed.

Lemma staging_prefixed t : String.prefix (key_prefix k) (staging_name k t) = true.
Proof using Type. rewrite staging_prefix. apply prefix_self. Qed.

Lemma staging_free w busy budget t s :
  place w busy budget -> busy = [lease_name k] -> nodes w !! (d ++ staging_name k t :: s) = None.
Proof using Type.
  intros Hp ->. apply (place_free _ _ _ Hp); [apply staging_prefixed|].
  intros H%list_elem_of_singleton. symmetry in H. by apply lease_staging in H.
Qed.

Lemma returns_staging w budget owner io ih :
  place w [lease_name k] budget -> leased w owner io ih ->
  returns (StagingEntry_create d k) (fun s w' => exists t,
    s = {| staging_path := d ++ [staging_name k t]; staging_active := true |} /\
    place w' [staging_name k t; lease_name k] (budget + 1) /\ leased w' owner io ih /\
    node_at w' (d ++ [staging_name k t]) = Some DirNode /\
    forall x, node_at w' ((d ++ [staging_name k t]) ++ [x]) = None) w.
Proof using Hd.
  intros Hp Hl. unfold StagingEntry_create. assert (exists n, 100%nat = S n) as [n ->] by (by exists 99%nat).
  cbn [staging_attempts]. eapply returns_bind; [apply returns_unique_token|].
  intros t w1 (Hs & nanos & q & _). cbv zeta.
  assert (place w1 [lease_name k] budget) as Hp1 by (eapply place_nodes; [apply Hs|done]).
  set (p := d ++ [staging_name k t]). assert (p <> []) as Hne by apply snoc_nil.
  assert (forall s, nodes w1 !! (d ++ staging_name k t :: s) = None) as Hfree
    by (intros s; by eapply staging_free).
  eapply returns_bind; [apply returns_create_dir; [rewrite node_at_nodes; [apply Hfree|done]|apply parent_dir_snoc, Hp1]|].
  intros ? w2 [-> ->]. apply returns_ret. exists t. split_and!; [done| | | |].
  - apply place_insert; [done|apply staging_prefixed|apply Hfree].
  - eapply (leased_other w1 _ p (Some DirNode)); [intros; by apply node_at_insert| |done|done|].
    + intros s. apply app_cons_ne, not_eq_sym, lease_staging.
    + eapply leased_keep; [| | |exact Hl].
      * intros s. by apply same_node_at.
      * by apply same_files_bytes.
      * destruct Hs as (_ & _ & ->). lia.
  - by rewrite node_at_insert, decide_True.
  - intros x. rewrite node_at_insert, decide_False by (done || apply not_eq_sym, snoc_longer).
    rewrite <-app_assoc. cbn [app]. by rewrite node_at_below.
Qed.

(** ** The payload *)

(** The state while the payload is written. *)
Record writing (owner : bytes) (io ih ip : nat) (t : string) (budget : N) w (bs : bytes) : Prop := {
  writing_place : place w [staging_name k t; lease_name k] budget;
  writing_lease : leased w owner io ih;
  writing_staged : staged_payload w (staging_name k t) ip bs;
  writing_apart : ip <> io /\ ip <> ih
}.

Lemma writing_but owner io ih ip t budget w w' bs :
  same_but ih w w' -> writing owner io ih ip t budget w bs -> writing owner io ih ip t budget w' bs.
Proof using Type.
  intros Hs [H1 H2 [S1 S2 S3 S4 S5] H4]. pose proof (leased_apart _ _ _ _ H2) as Hne. split.
  - eapply place_nodes; [apply Hs|done].
  - by apply (leased_but ih w).
  - split; rewrite ?(same_but_at _ _ _ _ Hs); try done.
    + rewrite (but_bytes _ _ _ Hs); [done|apply H4].
    + by rewrite (but_next _ _ _ Hs).
  - done.
Qed.

Lemma writing_more owner io ih ip t budget w bs bs' :
  writing owner io ih ip t budget w bs -> writing owner io ih ip t budget (set_bytes ip bs' w) bs'.
Proof using Type.
  intros [H1 H2 [S1 S2 S3 S4 S5] [H4 H5]]. split.
  - eapply place_nodes; [|exact H1]. done.
  - eapply leased_but; [apply same_but_set|done|done].
  - split; try done. by rewrite set_bytes_bytes, decide_True.
  - done.
Qed.

Lemma returns_sync h w : returns (file_sync h) (fun r w' => r = IoOk tt /\ w' = w) w.
Proof using Type.
  apply (returns_call _ (SyncAll h)). intros o Ho. cbn [serve fst snd]. by rewrite (calm_fault _ Ho).
Qed.

Lemma greturns_payload_loop g owner io ih ip t budget fuel h rest bs w :
  holds g owner -> writing owner io ih ip t budget w bs -> handle_inode h = Some ip ->
  position h = N.of_nat (length bs) -> (length rest < fuel)%nat ->
  N.of_nat (length (bs ++ rest)) <= u64_MAX ->
  greturns (payload_loop sha256 fuel h Cursor rest bs (N.of_nat (length bs))) (fun r g' w' =>
    g' = g /\ writing owner io ih ip t budget w' (bs ++ rest) /\
    fst r = (N.of_nat (length (bs ++ rest)), from_bytes (sha256 (bs ++ rest)))) g w.
Proof using Type.
  intros Hg. revert h rest bs w. induction fuel as [|fuel IH]; intros h rest bs w Hw Hi Hpos Hfuel Hmax; [lia|].
  cbn [payload_loop read_some Cursor].
  eapply greturns_step; [apply returns_check_cancelled|]. intros _ ? ->.
  eapply greturns_bind; [eapply greturns_refresh; [done|apply Hw]|]. intros _ ? w1 [-> H1].
  pose proof (writing_but _ _ _ _ _ _ _ _ _ H1 Hw) as Hw1.
  assert (N.of_nat (N.to_nat COPY_BUFFER_BYTES) = COPY_BUFFER_BYTES) as Hcopy by apply N2Nat.id.
  assert (0 < COPY_BUFFER_BYTES) as Hpositive by done.
  revert Hcopy. generalize (N.to_nat COPY_BUFFER_BYTES). intros n Hcopy.
  apply (greturns_step _ _ (fun x w' => w' = w1 /\ x = take n rest)); [by apply returns_ret|].
  intros ? ? [-> ->]. destruct (_ =? 0)%nat eqn:E.
  - apply Nat.eqb_eq in E. rewrite length_take in E. assert (rest = []) as -> by (apply nil_length_inv; lia).
    rewrite app_nil_r. by apply greturns_ret.
  - apply Nat.eqb_neq in E.
    apply (greturns_step _ _ (fun _ w' => w' = w1)).
    { rewrite (proj2 (N.leb_le _ _)); [by apply returns_ret|]. rewrite length_take. lia. }
    intros _ ? ->.
    eapply greturns_step; [apply returns_does; by apply (returns_write h ip)|]. intros ? ? [-> ->].
    rewrite (staged_content _ _ _ _ (writing_staged _ _ _ _ _ _ _ _ Hw1)), Hpos, overwrite_end.
    apply (greturns_step _ _ (fun x w' => w' = set_bytes ip (bs ++ take n rest) w1 /\
      x = N.of_nat (length (bs ++ take n rest)))).
    { unfold to_option, checked_add. rewrite length_app in Hmax.
      rewrite (proj2 (N.leb_le _ _)).
      - apply returns_ret. split; [done|]. rewrite length_app. lia.
      - rewrite length_take. lia. }
    intros ? ? [-> ->].
    assert (bs ++ rest = (bs ++ take n rest) ++ drop n rest) as ->
      by (by rewrite <-app_assoc, take_drop).
    apply IH; [by apply (writing_more _ _ _ _ _ _ _ bs)|done| | |].
    + cbn [advance position]. rewrite Hpos, length_app. lia.
    + rewrite length_drop. rewrite length_take in E. lia.
    + by rewrite <-app_assoc, take_drop.
Qed.

Lemma greturns_write_payload g owner io ih t budget bs w :
  holds g owner -> place w [staging_name k t; lease_name k] budget -> leased w owner io ih ->
  node_at w (d ++ [staging_name k t]) = Some DirNode ->
  (forall x, node_at w ((d ++ [staging_name k t]) ++ [x]) = None) ->
  (length bs < rounds)%nat -> N.of_nat (length bs) <= u64_MAX ->
  greturns (write_payload sha256 rounds ((d ++ [staging_name k t]) ++ [PAYLOAD_FILE]) Cursor bs)
    (fun r g' w' => g' = g /\ r = (N.of_nat (length bs), from_bytes (sha256 bs)) /\
       exists ip, writing owner io ih ip t budget w' bs) g w.
Proof using Hd.
  intros Hg Hp Hl Hdir Hnone Hrounds Hmax. unfold write_payload.
  set (p := (d ++ [staging_name k t]) ++ [PAYLOAD_FILE]).
  apply (greturns_step _ _ (fun h w' => h = {| handle_inode := Some (next_inode w); position := 0 |} /\
    added w p [] w')).
  { apply returns_call_ok. eapply returns_mono; [apply (returns_create_file p PAYLOAD_FILE OpenCreateNew)|].
    - by left.
    - apply Hnone.
    - by apply parent_dir_snoc.
    - apply last_snoc.
    - intros r w' [-> H]. eauto. }
  intros ? w1 [-> H1]. assert (p <> []) as Hne by apply snoc_nil.
  pose proof (leased_old _ _ _ _ Hl) as [Hio Hih].
  assert (writing owner io ih (next_inode w) t budget w1 []) as Hw.
  { split.
    - apply (place_added w w1 (staging_name k t) PAYLOAD_FILE []); [done|by left|apply staging_prefixed|apply Hnone|done].
    - eapply (leased_other w w1 p); [intros; by apply (added_at _ _ _ _ _ H1)| | | |done].
      + intros s. unfold p. rewrite <-app_assoc. apply app_cons_ne, not_eq_sym, lease_staging.
      + by rewrite (added_bytes _ _ _ _ H1), decide_False by lia.
      + rewrite (added_next _ _ _ _ H1). lia.
    - split; rewrite ?(added_at _ _ _ _ _ H1) by done.
      + by rewrite decide_False by (apply snoc_longer).
      + by rewrite decide_True.
      + rewrite decide_False; [done|]. by intros [_ ?]%app_inj_tail.
      + by rewrite (added_bytes _ _ _ _ H1), decide_True.
      + rewrite (added_next _ _ _ _ H1). lia.
    - lia. }
  eapply greturns_bind; [by apply (greturns_payload_loop g owner io ih (next_inode w) t budget rounds _ bs [])|].
  intros [[total digest] output] ? w2 (-> & Hw2 & Hr). simpl in Hw2, Hr. injection Hr as -> ->.
  eapply greturns_step; [apply returns_does, returns_sync|]. intros ? ? [-> ->].
  apply greturns_ret. eauto.
Qed.

(** ** The envelope *)

Context (n : CacheNamespace) (c : CacheCompatibility).

Lemma complete_moved w w' entry entry' bs m p e :
  (forall s, node_at w' (entry' ++ s) = node_at w (entry ++ s)) ->
  inode_bytes w' m = inode_bytes w m -> inode_bytes w' p = inode_bytes w p ->
  entry_complete sha256 from_slice w entry n k c bs m p e ->
  entry_complete sha256 from_slice w' entry' n k c bs m p e.
Proof using Type.
  intros Hat Hm Hp [H1 H2 H3 H4 H5 H6 H7 H8 H9 H10 H11 H12].
  split; rewrite ?Hat, ?Hm, ?Hp; try done. pose proof (Hat []) as H0. rewrite !app_nil_r in H0. congruence.
Qed.

(** The staged entry is complete. *)
Record ready (owner : bytes) (io ih ip im : nat) (t : string) (budget : N) (bs : bytes) (e : CacheEnvelope) w
  : Prop := {
  ready_place : place w [staging_name k t; lease_name k] budget;
  ready_lease : leased w owner io ih;
  ready_entry : entry_complete sha256 from_slice w (d ++ [staging_name k t]) n k c bs im ip e;
  ready_apart : ip <> ih /\ im <> ih
}.

Lemma ready_but owner io ih ip im t budget bs e w w' :
  same_but ih w w' -> ready owner io ih ip im t budget bs e w -> ready owner io ih ip im t budget bs e w'.
Proof using Type.
  intros Hs [H1 H2 H3 [H4 H5]]. pose proof (leased_apart _ _ _ _ H2) as Hne. split.
  - eapply place_nodes; [apply Hs|done].
  - by apply (leased_but ih w).
  - eapply complete_moved; [|apply Hs, H5|apply Hs, H4|done]. intros s. by apply same_but_at with (i := ih).
  - done.
Qed.

Lemma returns_write_envelope owner io ih ip t budget bs e tv w :
  writing owner io ih ip t budget w bs ->
  envelope_version e = CACHE_ENVELOPE_VERSION -> envelope_namespace e = n -> envelope_key e = k ->
  envelope_compatibility e = c -> envelope_payload_len e = N.of_nat (length bs) ->
  envelope_payload_digest e = from_bytes (sha256 bs) ->
  to_vec e = Some tv -> from_slice tv = Some e -> N.of_nat (length tv) <= MAX_METADATA_BYTES ->
  returns (write_envelope to_vec (d ++ [staging_name k t]) e)
    (fun _ w' => exists im, ready owner io ih ip im t budget bs e w') w.
Proof using Hd.
  intros [Hp Hl [S1 S2 S3 S4 S5] Ha] Hv Hn Hk Hc Hlen Hdig Htv Hfs Hmax. unfold write_envelope. rewrite Htv.
  set (p := (d ++ [staging_name k t]) ++ [METADATA_FILE]).
  apply (returns_bind _ _ _ (fun x w' => x = tv /\ w' = w)); [done|]. intros ? ? [-> ->].
  apply (returns_bind _ _ _ (fun _ w' => w' = w)).
  { by rewrite (proj2 (N.ltb_ge _ _)) by done. }
  intros _ ? ->.
  apply (returns_bind _ _ _ (fun h w' => h = {| handle_inode := Some (next_inode w); position := 0 |} /\
    added w p [] w')).
  { apply returns_call_ok. eapply returns_mono; [apply (returns_create_file p METADATA_FILE OpenCreateNew)|].
    - by left.
    - done.
    - by apply parent_dir_snoc.
    - apply last_snoc.
    - intros r w' [-> H]. eauto. }
  intros ? w1 [-> H1].
  eapply returns_bind; [apply returns_does; by apply (returns_write _ (next_inode w))|]. intros ? ? [-> ->].
  eapply returns_mono; [apply returns_does, returns_sync|]. intros [] ? [_ ->]. exists (next_inode w).
  cbn [position]. rewrite (added_bytes _ _ _ _ H1), decide_True, overwrite_nil by done.
  assert (p <> []) as Hne by apply snoc_nil. pose proof (leased_old _ _ _ _ Hl) as [Hio Hih].
  split.
  - eapply place_nodes; [|apply (place_added w w1 (staging_name k t) METADATA_FILE []);
      [exact Hp|by left|apply staging_prefixed|done|done]]. done.
  - eapply leased_but; [apply same_but_set|lia|].
    eapply (leased_other w w1 p); [intros; by apply (added_at _ _ _ _ _ H1)| | | |done].
    + intros s. unfold p. rewrite <-app_assoc. apply app_cons_ne, not_eq_sym, lease_staging.
    + by rewrite (added_bytes _ _ _ _ H1), decide_False by lia.
    + rewrite (added_next _ _ _ _ H1). lia.
  - assert (forall q, node_at (set_bytes (next_inode w) tv w1) q = node_at w1 q) as Hat by done.
    split; rewrite ?Hat, ?(added_at _ _ _ _ _ H1), ?set_bytes_bytes by done; try done.
    + by rewrite decide_False by apply snoc_longer.
    + by rewrite decide_True.
    + rewrite decide_False; [done|]. by intros [_ ?]%app_inj_tail.
    + by rewrite decide_True.
    + by rewrite decide_True.
    + rewrite decide_False by lia. by rewrite (added_bytes _ _ _ _ H1), decide_False by lia.
  - lia.
Qed.

(** ** Moving the entry to its place *)

Lemma returns_rename_missing p q w :
  node_at w p = None -> reachable_parent w p ->
  returns (fs_rename p q) (fun r w' => w' = w /\ r = IoErr NotFound) w.
Proof using Type.
  intros Hp Hr. apply (returns_call _ (Rename p q)). intros o Ho. cbn [serve]. unfold rename, missing.
  by rewrite (calm_fault _ Ho), Hp, Hr.
Qed.

Lemma siblings_apart x y : x <> y -> under (d ++ [x]) (d ++ [y]) = false.
Proof using Type.
  intros H. destruct (under _ _) eqn:E; [|done]. apply under_spec in E as [s E].
  rewrite <-app_assoc in E. apply app_inv_head in E. by injection E.
Qed.

Lemma returns_rename_sibling x y w :
  node_at w d = Some DirNode -> node_at w (d ++ [x]) = Some DirNode -> node_at w (d ++ [y]) = None -> x <> y ->
  returns (fs_rename (d ++ [x]) (d ++ [y])) (fun r w' =>
    r = IoOk tt /\ w' = set_nodes (move (d ++ [x]) (d ++ [y])) w) w.
Proof using Type.
  intros Hdir Hx Hy Hne. apply (returns_call _ (Rename (d ++ [x]) (d ++ [y]))). intros o Ho. cbn [serve].
  unfold rename, replaces. rewrite (calm_fault _ Ho), Hx, Hy.
  rewrite bool_decide_eq_false_2 by (intros [_ E]%app_inj_tail; done).
  rewrite !siblings_apart by done. cbn [orb]. by rewrite parent_dir_snoc.
Qed.

Lemma moved_at x y z s w :
  x <> y -> (forall s, nodes w !! (d ++ y :: s) = None) ->
  nodes (set_nodes (move (d ++ [x]) (d ++ [y])) w) !! (d ++ z :: s) =
  if decide (z = y) then nodes w !! (d ++ x :: s)
  else if decide (z = x) then None else nodes w !! (d ++ z :: s).
Proof using Type.
  intros Hne Hy. apply option_eq. intros nd. simpl.
  assert (forall a b, under (d ++ [a]) (d ++ b :: s) = bool_decide (a = b)) as Hunder.
  { intros a b. apply eq_bool_prop_intro. split; intros H.
    - apply Is_true_true, under_spec in H as [u E]. rewrite <-app_assoc in E. apply app_inv_head in E.
      injection E as -> _. by rewrite bool_decide_eq_true_2.
    - apply Is_true_true, bool_decide_eq_true_1 in H as ->. apply Is_true_true, under_spec.
      exists s. by rewrite <-app_assoc. }
  rewrite move_lookup by (by apply siblings_apart). rewrite !Hunder. setoid_rewrite <-app_assoc. cbn [app].
  destruct (decide (z = y)) as [->|Hzy].
  - rewrite (bool_decide_eq_true_2 (y = y)) by done. split.
    + intros [(u & E & H)|(? & _)]; [|done]. apply app_inv_head in E. by injection E as ->.
    + intros H. left. eauto.
  - rewrite (bool_decide_eq_false_2 (y = z)) by congruence. destruct (decide (z = x)) as [->|Hzx].
    + rewrite bool_decide_eq_true_2 by done. split; [|done]. intros [(u & E & _)|(_ & ? & _)]; [|done].
      apply app_inv_head in E. injection E. congruence.
    + rewrite bool_decide_eq_false_2 by congruence. split.
      * intros [(u & E & _)|(_ & _ & H)]; [|done]. apply app_inv_head in E. injection E. congruence.
      * intros H. by right.
Qed.

Lemma moved_up x y q w :
  (length q <= length d)%nat -> x <> y ->
  node_at (set_nodes (move (d ++ [x]) (d ++ [y])) w) q = node_at w q.
Proof using Type.
  intros Hq Hne. destruct q as [|a q]; [done|]. rewrite !node_at_nodes by done. simpl. apply option_eq. intros nd.
  assert (forall z, under (d ++ [z]) (a :: q) = false) as Hunder.
  { intros z. destruct (under _ _) eqn:E; [|done]. apply under_spec in E as [u E].
    apply (f_equal length) in E. rewrite E, !length_app in Hq. simpl in Hq. lia. }
  rewrite move_lookup by (by apply siblings_apart). rewrite !Hunder. split.
  - intros [(u & E & _)|(_ & _ & ?)]; [|done].
    apply (f_equal length) in E. rewrite E, !length_app in Hq. simpl in Hq. lia.
  - intros H. by right.
Qed.

(** The entry is in its place, and the lease still held. *)
Record published (owner : bytes) (io ih ip im : nat) (bs : bytes) (e : CacheEnvelope) w : Prop := {
  published_dir : node_at w d = Some DirNode;
  published_lease : leased w owner io ih;
  published_entry : entry_complete sha256 from_slice w (d ++ [K]) n k c bs im ip e;
  published_free t s : nodes w !! (d ++ reaped_name (lease_name k) t :: s) = None
}.

Lemma reaped_prefixed t : String.prefix (key_prefix k) (reaped_name (lease_name k) t) = true.
Proof using Type. rewrite reaped_prefix. apply prefix_self. Qed.

Lemma staging_display t : staging_name k t <> K.
Proof using Type. rewrite staging_prefix. apply prefixed_display. Qed.
Lemma lease_display : lease_name k <> K.
Proof using Type. rewrite lease_prefix. apply prefixed_display. Qed.
Lemma reaped_display t : reaped_name (lease_name k) t <> K.
Proof using Type. rewrite reaped_prefix. apply prefixed_display. Qed.

Lemma ready_published owner io ih ip im t budget bs e w :
  ready owner io ih ip im t budget bs e w ->
  published owner io ih ip im bs e (set_nodes (move (d ++ [staging_name k t]) (d ++ [K])) w).
Proof using Hd.
  intros [Hp Hl He _]. pose proof (staging_display t) as Hne.
  pose proof (place_entry _ _ _ Hp) as Hfree.
  assert (forall z s, node_at (set_nodes (move (d ++ [staging_name k t]) (d ++ [K])) w) (d ++ z :: s) =
    if decide (z = K) then node_at w (d ++ staging_name k t :: s)
    else if decide (z = staging_name k t) then None else node_at w (d ++ z :: s)) as Hat.
  { intros z s. rewrite node_at_below, moved_at by done. by rewrite !node_at_below. }
  split.
  - rewrite moved_up by done. apply Hp.
  - apply (leased_keep w); [|done|done|exact Hl]. intros s.
    rewrite Hat, !decide_False; [done|apply lease_staging|apply lease_display].
  - apply (complete_moved w _ (d ++ [staging_name k t])); [|done|done|exact He]. intros s.
    rewrite <-!app_assoc. cbn [app]. by rewrite Hat, decide_True.
  - intros u s. rewrite <-node_at_below, Hat, !decide_False.
    + rewrite node_at_below. apply (place_free _ _ _ Hp); [apply reaped_prefixed|].
      intros [H|H%list_elem_of_singleton]%elem_of_cons.
      * symmetry in H. by apply staging_reaped in H.
      * symmetry in H. by apply lease_reaped in H.
    + apply not_eq_sym, staging_reaped.
    + apply reaped_display.
Qed.

Lemma ready_same owner io ih ip im t budget bs e w w' :
  same_files w w' -> ready owner io ih ip im t budget bs e w -> ready owner io ih ip im t budget bs e w'.
Proof using Type.
  intros Hs. apply (ready_but _ _ ih). split; [apply Hs| |apply Hs]. intros j _. by apply same_files_bytes.
Qed.

Definition staged_guards (owner : bytes) (t : string) (active : bool) : Guards :=
  {| lease := {| lease_path := d ++ [lease_name k]; lease_owner := owner; lease_active := true |};
     staging := Some {| staging_path := d ++ [staging_name k t]; staging_active := active |} |}.

Lemma greturns_publish_staging owner io ih ip im t budget bs e w :
  ready owner io ih ip im t budget bs e w ->
  greturns (publish_staging rounds {| staging_path := d ++ [staging_name k t]; staging_active := true |} (d ++ [K]))
    (fun _ g' w' => g' = staged_guards owner t false /\ published owner io ih ip im bs e w')
    (staged_guards owner t true) w.
Proof using Hd.
  intros Hr. unfold publish_staging, file_name. rewrite last_snoc.
  eapply greturns_step; [apply returns_to_option, parent_snoc|]. intros ? ? [-> ->].
  eapply greturns_step; [apply returns_to_option, to_str_ascii, ascii_key|]. intros ? ? [-> ->].
  eapply greturns_step; [apply returns_unique_token|]. intros u w1 [Hs _]. cbv zeta.
  apply (ready_same _ _ _ _ _ _ _ _ _ _ _ Hs) in Hr. pose proof (ready_place _ _ _ _ _ _ _ _ _ _ Hr) as Hp.
  apply (greturns_step _ _ (fun b w' => b = false /\ w' = w1)).
  { eapply returns_bind; [apply returns_rename_missing|by intros ? ? [-> ->]].
    - rewrite node_at_below. apply Hp.
    - apply clear_reachable, Hp. }
  intros ? ? [-> ->]. cbn [staging_path].
  apply (greturns_step _ _ (fun _ w' => w' = set_nodes (move (d ++ [staging_name k t]) (d ++ [K])) w1)).
  { eapply returns_bind; [apply returns_rename_sibling|by intros ? ? [-> ->]].
    - apply Hp.
    - apply Hr.
    - rewrite node_at_below. apply Hp.
    - apply staging_display. }
  intros _ ? ->.
  apply (greturns_bind _ _ (fun _ g' w' => g' = staged_guards owner t false /\
    published owner io ih ip im bs e w')); [|by intros _ ? ? [-> H]].
  split; [done|]. by eapply ready_published.
Qed.

Lemma returns_open_published owner io ih ip im bs e w :
  published owner io ih ip im bs e w ->
  returns (open_published_entry (d ++ [K]) e) (fun x w' => w' = w /\ x = entry_of (d ++ [K]) e ip) w.
Proof using Type.
  intros [_ _ He _].
  eapply returns_bind; [apply returns_ok; apply returns_open_read, He|]. intros ? ? [-> ->].
  eapply returns_bind; [apply returns_ok; by apply (returns_file_len _ _ ip)|]. intros ? ? [-> ->].
  by rewrite (complete_bytes _ _ _ _ _ _ _ _ _ _ _ He), (complete_length _ _ _ _ _ _ _ _ _ _ _ He), N.eqb_refl.
Qed.

(** ** The end of the lease *)

Lemma returns_remove_sibling r x w :
  (0 < r)%nat -> node_at w (d ++ [x]) = Some DirNode ->
  returns (remove_dir_all r (d ++ [x])) (fun _ w' =>
    (forall j, inode_bytes w' j = inode_bytes w j) /\
    forall z s, z <> x -> node_at w' (d ++ z :: s) = node_at w (d ++ z :: s)) w.
Proof using Hd.
  intros Hr Hx. destruct r as [|r]; [lia|]. cbn [remove_dir_all].
  apply (returns_bind _ _ _ (fun b w' => b = IoOk true /\ (forall j, inode_bytes w' j = inode_bytes w j) /\
    forall z s, z <> x -> node_at w' (d ++ z :: s) = node_at w (d ++ z :: s))).
  - apply (returns_call _ (RemoveSome (d ++ [x]))). intros o Ho. cbn [serve]. unfold remove_some.
    rewrite Hx, (calm_fault _ Ho). cbn [fst snd].
    assert (forall below (q : path), existsb (fun r => under q r && spared o r) below = false) as Hspared.
    { intros below q. apply not_true_is_false. intros (y & _ & Hy)%existsb_exists.
      rewrite (calm_spared _ Ho), andb_false_r in Hy. done. }
    split_and!.
    + f_equal. apply negb_true_iff, not_true_is_false. intros (y & _ & Hy)%existsb_exists.
      by rewrite Hspared in Hy.
    + done.
    + intros z s Hz. rewrite !node_at_below. simpl. apply option_eq. intros nd.
      rewrite map_lookup_filter_Some. split; [by intros [? _]|]. intros H. split; [done|].
      assert (under (d ++ [x]) (d ++ z :: s) = false) as ->; [|done].
      destruct (under _ _) eqn:E; [|done]. apply under_spec in E as [u E]. rewrite <-app_assoc in E.
      apply app_inv_head in E. injection E. congruence.
  - by intros ? w' (-> & H).
Qed.

Lemma returns_ignoring {A} (m : Prog A) (P : World -> Prop) w :
  returns m (fun _ => P) w -> returns (ignoring m) (fun _ => P) w.
Proof using Type.
  intros H. unfold ignoring. apply ends_and_then. eapply ends_mono; [exact H|]. by intros [a|e|] w' HP.
Qed.

(** Dropping the guards releases the lease and leaves the entry. *)
Lemma returns_drop owner io ih ip im t bs e w :
  (0 < rounds)%nat -> utf8_valid owner = true ->
  published owner io ih ip im bs e w ->
  returns (Guards_drop rounds (staged_guards owner t false))
    (fun _ w' => entry_complete sha256 from_slice w' (d ++ [K]) n k c bs im ip e) w.
Proof using Hd.
  intros Hrounds Hu [Hdir Hl He Hfree].
  eapply returns_bind; [by apply (returns_ret _ tt (fun _ w' => w' = w))|]. intros _ ? ->.
  unfold WriterLease_drop. cbn [lease staged_guards lease_active negb lease_path lease_owner].
  eapply returns_bind; [apply (returns_read_to_string _ io owner); [apply Hl|apply Hl|done]|].
  intros ? ? [-> ->]. rewrite bool_decide_eq_true_2 by done.
  unfold release_writer_lease, file_name. rewrite parent_snoc, last_snoc. cbn [mbind option_bind].
  rewrite to_str_ascii by (rewrite lease_prefix, ascii_app; unfold key_prefix; by rewrite !ascii_app, ascii_key).
  eapply returns_bind; [apply returns_unique_token|]. intros u w1 [Hs _]. cbv zeta.
  eapply returns_bind; [apply returns_rename_sibling|].
  { by rewrite (same_node_at _ _ _ Hs). }
  { rewrite (same_node_at _ _ _ Hs). apply Hl. }
  { rewrite (same_node_at _ _ _ Hs), node_at_below. apply Hfree. }
  { apply lease_reaped. }
  intros ? ? [-> ->]. apply returns_ignoring.
  assert (forall s, nodes w1 !! (d ++ reaped_name (lease_name k) u :: s) = None) as Hfree1.
  { intros s. destruct Hs as (-> & _). apply Hfree. }
  set (w2 := set_nodes _ w1).
  assert (forall z s, node_at w2 (d ++ z :: s) =
    if decide (z = reaped_name (lease_name k) u) then node_at w1 (d ++ lease_name k :: s)
    else if decide (z = lease_name k) then None else node_at w1 (d ++ z :: s)) as Hat.
  { intros z s. unfold w2. rewrite node_at_below, moved_at by (done || apply lease_reaped).
    by rewrite !node_at_below. }
  eapply returns_mono; [apply returns_remove_sibling; [done|]|].
  { rewrite Hat, decide_True by done. rewrite (same_node_at _ _ _ Hs). apply Hl. }
  intros _ w3 [Hb Hn]. eapply complete_moved; [| | |exact He].
  - intros s. rewrite <-!app_assoc. cbn [app]. rewrite Hn by apply not_eq_sym, reaped_display.
    rewrite Hat, !decide_False; [by apply same_node_at|apply not_eq_sym, lease_display|apply not_eq_sym, reaped_display].
  - rewrite Hb. by apply (same_files_bytes w w1).
  - rewrite Hb. by apply (same_files_bytes w w1).
Qed.

(** ** The whole publication *)

(** Nothing lies at the names that a publication of the entry uses, and the
    directory holds few enough names. *)
Record free_place w (budget : N) : Prop := {
  free_clear : clear_path w d;
  free_entry s : nodes w !! (d ++ K :: s) = None;
  free_names name s : String.prefix (key_prefix k) name = true -> nodes w !! (d ++ name :: s) = None;
  free_budget : N.of_nat (length (children w d)) <= budget
}.

Lemma free_vacant w budget maximum : free_place w budget -> budget <= maximum -> vacant w d k maximum.
Proof using Hd.
  intros [Hc He Hf Hb] Hm. split; [done|by rewrite node_at_below| |lia].
  intros name [nd Hn]. destruct (String.prefix (previous_name K EmptyString) name) eqn:E; [|done].
  apply string_prefix_app in E as [t ->]. rewrite previous_prefix, !string_app_assoc in Hn.
  rewrite Hf in Hn; [done|apply prefix_self].
Qed.

Lemma vacant_mono w budget maximum : vacant w d k budget -> budget <= maximum -> vacant w d k maximum.
Proof using Type. intros [? ? ? ?] H. split; [done..|lia]. Qed.

Local Notation make := (fun w q => match node_at w q with
                                   | None => set_nodes <[q := DirNode]> w
                                   | Some _ => w
                                   end).

Lemma make_dirs_at ps w :
  Forall (fun q => q <> [] /\ (length q <= length d)%nat /\
    (node_at w q = Some DirNode \/ node_at w q = None)) ps ->
  let w' := foldl make w ps in
  (forall q, node_at w' q = if decide (q ∈ ps) then Some DirNode else node_at w q) /\
  length (children w' d) = length (children w d).
Proof using Type.
  revert w. induction ps as [|p ps IH]; intros w Hall; cbn [foldl].
  { split; [|done]. intros q. rewrite decide_False; [done|]. apply not_elem_of_nil. }
  apply Forall_cons in Hall as [(Hp & Hlen & Hnode) Hall].
  assert (exists w1, make w p = w1 /\ (forall q, node_at w1 q = if decide (p = q) then Some DirNode else node_at w q) /\
    length (children w1 d) = length (children w d)) as (w1 & -> & Hat & Hchildren).
  { destruct Hnode as [E|E]; rewrite E; eexists; (split; [reflexivity|]).
    - split; [|done]. intros q. case_decide as Hq; [by rewrite <-Hq|done].
    - split; [intros q; by apply node_at_insert|]. rewrite children_insert by (by rewrite <-node_at_nodes).
      rewrite decide_False; [done|]. unfold parent. destruct p as [|x p]; [done|]. intros H%(inj Some).
      destruct (path_snoc (x :: p)) as (y & Hy & _); [done|]. rewrite H in Hy. rewrite Hy, length_app in Hlen.
      simpl in Hlen. lia. }
  destruct (IH w1) as [H1 H2].
  { eapply Forall_impl; [exact Hall|]. intros q (? & ? & Hq). split_and!; [done..|].
    rewrite Hat. case_decide; [by left|done]. }
  split; [|by rewrite H2]. intros q. rewrite H1, Hat.
  destruct (decide (q ∈ ps)) as [Hin|Hin].
  - rewrite decide_True; [done|by right].
  - destruct (decide (p = q)) as [<-|Hne]; [rewrite decide_True; [done|by left]|].
    rewrite decide_False; [done|]. intros [->|?]%elem_of_cons; done.
Qed.

Lemma elem_of_prefixes (p q : path) :
  q ∈ prefixes p <-> exists m, (1 <= m <= length p)%nat /\ q = take m p.
Proof using Type.
  unfold prefixes. rewrite list_elem_of_fmap. split.
  - intros (m & -> & Hm%elem_of_seq). exists m. split; [lia|done].
  - intros (m & Hm & ->). exists m. split; [done|]. apply elem_of_seq. lia.
Qed.

Lemma returns_create_dir_all w budget :
  free_place w budget ->
  returns (fs_create_dir_all d) (fun r w' => exists x, r = IoOk x /\ place w' [] budget) w.
Proof using Hd.
  intros [Hc He Hf Hb]. apply (returns_call _ (CreateDirAll d)). intros o Ho. cbn [serve].
  unfold create_dir_all. rewrite (calm_fault _ Ho).
  assert (forallb (fun q => match node_at w q with Some DirNode | None => true | _ => false end) (prefixes d) = true)
    as ->.
  { apply forallb_forall. intros q Hq%list_elem_of_In. by destruct (Hc q Hq) as [-> | ->]. }
  cbn [negb fst snd]. exists tt. split; [done|].
  destruct (make_dirs_at (prefixes d) w) as [Hat Hchildren].
  { apply Forall_forall. intros q Hq. pose proof (Hc q Hq). apply elem_of_prefixes in Hq as (m & Hm & ->).
    split_and!; [|rewrite length_take; lia|done]. intros E. apply (f_equal length) in E.
    rewrite length_take in E. simpl in E. lia. }
  cbv zeta in Hat, Hchildren. set (w' := foldl _ w (prefixes d)) in *.
  assert (forall x s, nodes w' !! (d ++ x :: s) = nodes w !! (d ++ x :: s)) as Hbelow.
  { intros x s. rewrite <-!node_at_below, Hat, decide_False; [done|].
    intros (m & Hm & E)%elem_of_prefixes. apply (f_equal length) in E.
    rewrite length_app, length_take in E. simpl in E. lia. }
  split.
  - rewrite Hat, decide_True; [done|]. apply elem_of_prefixes. exists (length d). split; [|by rewrite take_ge].
    destruct d; [done|]. simpl. lia.
  - intros q Hq. rewrite Hat, decide_True by done. by left.
  - intros s. by rewrite Hbelow.
  - intros name s Hname _. rewrite Hbelow. by apply Hf.
  - by rewrite Hchildren.
Qed.

Context (cache : CacheInner) (Hpath : entry_path cache n k = d ++ [K]).
Context (codec : envelope_codec to_vec from_slice).

Definition new_envelope (bs : bytes) (created : N) : CacheEnvelope :=
  {| envelope_version := CACHE_ENVELOPE_VERSION; envelope_namespace := n; envelope_key := k;
     envelope_compatibility := c; envelope_payload_len := N.of_nat (length bs);
     envelope_payload_digest := from_bytes (sha256 bs); envelope_created := created |}.

(** The envelope of the payload can be written, whenever that is. *)
Definition encodable (bs : bytes) : Prop :=
  forall created, created <= u64_MAX -> exists tv,
    to_vec (new_envelope bs created) = Some tv /\ N.of_nat (length tv) <= MAX_METADATA_BYTES.

Lemma returns_unix_millis w : returns unix_millis (fun t w' => w' = w /\ t <= u64_MAX) w.
Proof using Type.
  eapply returns_bind; [by apply (returns_call _ SystemNow (fun _ w' => w' = w))|].
  intros nanos ? ->. apply returns_ret. split; [done|]. case_match; [by apply N.leb_le|done].
Qed.

Lemma greturns_publish_locked owner io ih budget bs w :
  utf8_valid owner = true -> place w [lease_name k] budget -> leased w owner io ih ->
  budget <= maximum_scan_entries (options cache) -> 1 <= maximum_scan_entries (options cache) ->
  (length bs < rounds)%nat -> N.of_nat (length bs) <= u64_MAX -> encodable bs ->
  greturns (publish_locked sha256 to_vec from_slice rounds cache n k c Cursor bs)
    (fun r g' w' => exists t ip im e, g' = staged_guards owner t false /\
       r = Published (entry_of (d ++ [K]) e ip) /\ published owner io ih ip im bs e w')
    {| lease := {| lease_path := d ++ [lease_name k]; lease_owner := owner; lease_active := true |};
       staging := None |} w.
Proof using Hd Hpath codec.
  intros Hu Hp Hl Hb Hmax Hrounds Hlen Henc. unfold publish_locked. rewrite Hpath. cbv zeta.
  eapply greturns_step.
  { apply (returns_lookup_vacant _ _ _ _ _ cache d); [done|done|apply to_str_ascii, ascii_key|done|].
    eapply vacant_mono; [apply (place_vacant _ _ _ Hp)|done]. intros x ->%list_elem_of_singleton.
    exists "lease"%string. split; [apply lease_prefix|done]. }
  intros ? ? [-> ->].
  eapply greturns_step; [apply returns_to_option, parent_snoc|]. intros ? ? [-> ->].
  eapply greturns_step; [by eapply returns_staging|]. intros ? w1 (t & -> & Hp1 & Hl1 & Hdir & Hnone).
  apply (greturns_bind _ _ (fun _ g' w' => g' = staged_guards owner t true /\ w' = w1)); [done|].
  intros _ ? ? [-> ->]. cbn [staging_path].
  assert (holds (staged_guards owner t true) owner) as Hholds by done.
  eapply greturns_bind; [by eapply greturns_write_payload|].
  intros ? ? w2 (-> & -> & ip & Hw2).
  eapply greturns_step; [apply returns_unix_millis|]. intros created ? [-> Hcreated]. cbv zeta.
  fold (new_envelope bs created). destruct (Henc created Hcreated) as (tv & Htv & Hsmall).
  eapply greturns_step.
  { apply (returns_write_envelope owner io ih ip t (budget + 1) bs (new_envelope bs created) tv); try done.
    by apply (codec_whole _ _ codec). }
  intros _ w3 (im & H3).
  eapply greturns_bind; [eapply greturns_refresh; [done|apply H3]|]. intros _ ? w4 [-> H4].
  pose proof (ready_but _ _ _ _ _ _ _ _ _ _ _ H4 H3) as Hr4.
  eapply greturns_step; [apply returns_check_cancelled|]. intros _ ? ->.
  eapply greturns_bind; [by eapply greturns_publish_staging|]. intros _ ? w5 [-> H5].
  eapply greturns_step; [by eapply returns_open_published|]. intros ? ? [-> ->].
  apply greturns_ret. eauto 10.
Qed.

(** An undisturbed publication in a free place succeeds. *)
Lemma returns_publish w budget bs :
  free_place w budget -> budget + 1 <= maximum_scan_entries (options cache) ->
  (length bs < rounds)%nat -> N.of_nat (length bs) <= u64_MAX -> encodable bs ->
  returns (publish_bytes sha256 to_vec from_slice rounds cache n k c bs) (fun r w' => exists im ip e,
    r = Published (entry_of (d ++ [K]) e ip) /\
    entry_complete sha256 from_slice w' (d ++ [K]) n k c bs im ip e) w.
Proof using Hd Hpath codec.
  intros Hf Hb Hrounds Hlen Henc. unfold publish_bytes, publish_reader.
  eapply returns_bind.
  { apply (returns_lookup_vacant _ _ _ _ _ cache d); [done|done|apply to_str_ascii, ascii_key|lia|].
    eapply free_vacant; [done|lia]. }
  intros ? ? [-> ->]. rewrite Hpath, parent_snoc.
  eapply returns_bind; [by apply returns_to_option|]. intros ? ? [-> ->].
  apply (returns_bind _ _ _ (fun _ w' => place w' [] budget));
    [apply returns_call_ok; by apply returns_create_dir_all|]. intros _ w1 Hp1.
  eapply returns_bind; [apply returns_acquire; [lia|done]|].
  intros ? w2 (owner & io & ih & -> & Hu & Hp2 & Hl2). unfold guarded.
  apply ends_and_then. eapply ends_mono; [eapply greturns_publish_locked; try done; lia|].
  intros [[g [r|e|]]|e|] w3 H3; [|done..]. destruct H3 as (t & ip & im & e & -> & -> & H3).
  unfold on_exit, pure. cbn [and_then]. apply ends_and_then.
  eapply ends_mono; [eapply returns_drop; [lia|done|done]|].
  intros [[]|e'|] w4 H4; [|done..]. by exists im, ip, e.
Qed.
End Solo.
