(* ===== verification/Prepare.v ===== *)
(** * Preparation providers and engine of [prepare.rs]

    A provider validates a request into a storage strategy and fills an
    allocated output; the engine resolves providers by exact identity, checks
    sizes, and either reuses the source view or boxes a new buffer. *)

From S2P Require Import Prelude Errors Cancel Tensor Identity Representation Strides Facts.
From S2P Require Import Operation Kernels Cast.
From Stdlib Require Strings.String.
Local Open Scope N_scope.

Inductive OutputStrategy :=
  | ReuseSource
  | Allocate (output_bytes scratch_bytes : N).

(** The trait: its methods, on the state they may change. *)
Record PreparationProvider := {
  provider_implementation : ImplementationId;
  provider_validate : PrepareRequest -> M OutputStrategy;
  (** The output and the scratch after the call. *)
  provider_prepare_into : PrepareRequest -> bytes -> bytes -> M (bytes * bytes);
  provider_prepare_allocated : PrepareRequest -> N -> N -> M bytes
}.

Definition allocate_zeroed (byte_len : N) : M bytes :=
  _ ← try_reserve_exact byte_len;
  mret (replicate (N.to_nat byte_len) Byte.x00).

(** The provided method [PreparationProvider::prepare_allocated]. *)
Definition default_prepare_allocated
    (prepare_into : PrepareRequest -> bytes -> bytes -> M (bytes * bytes))
    (request : PrepareRequest) (output_len scratch_len : N) : M bytes :=
  _ ← check;
  output ← allocate_zeroed output_len;
  _ ← check;
  scratch ← allocate_zeroed scratch_len;
  '(output, _) ← prepare_into request output scratch;
  mret output.

(** ** Registry *)

Abbreviation ProviderRegistry := (gmap ImplementationId PreparationProvider).

Definition register_shared (r : ProviderRegistry) (p : PreparationProvider)
  : result ProviderRegistry :=
  let i := provider_implementation p in
  _ ← reject (bool_decide (is_Some (r !! i))) InvalidFormat;
  mret (<[i := p]> r).

Definition resolve (r : ProviderRegistry) (i : ImplementationId) : result PreparationProvider :=
  ok_or (r !! i) Unsupported.

Definition registry_len (r : ProviderRegistry) : nat := size r.
Definition registry_is_empty (r : ProviderRegistry) : bool := bool_decide (size r = 0%nat).

(** ** Engine *)

Record PreparationEngine := { providers : ProviderRegistry }.

Definition validate_reused_output (request : PrepareRequest) : result unit :=
  _ ← reject (negb (expected_scratch_bytes request =? 0)) Integrity;
  reject (negb (view_len (request_source request) =? expected_output_bytes request)) Integrity.

Definition validate_allocated_storage (request : PrepareRequest)
    (provider_output_bytes provider_scratch_bytes : N) : result (N * N) :=
  _ ← reject (negb (provider_output_bytes =? expected_output_bytes request)) Integrity;
  _ ← reject (negb (provider_scratch_bytes =? expected_scratch_bytes request)) Integrity;
  output_len ← usize_try_from provider_output_bytes;
  scratch_len ← usize_try_from provider_scratch_bytes;
  mret (output_len, scratch_len).

Definition prepare_with_cancellation (engine : PreparationEngine) (request : PrepareRequest)
  : M ByteView :=
  _ ← check;
  provider ← lift (resolve (providers engine) (implementation (request_transform request)));
  strategy ← provider_validate provider request;
  _ ← check;
  match strategy with
  | ReuseSource =>
      _ ← lift (validate_reused_output request);
      _ ← check;
      mret (request_source request)
  | Allocate output_bytes scratch_bytes =>
      '(output_len, scratch_len) ←
        lift (validate_allocated_storage request output_bytes scratch_bytes);
      _ ← check;
      output ← provider_prepare_allocated provider request output_len scratch_len;
      _ ← check;
      _ ← lift (reject (negb (blen output =? output_len)) Integrity);
      address ← new_address;
      mret (view_from_boxed address output)
  end.

Definition chain_request (planned : PlannedTransform) (shape : list N) (src : ByteView)
  : PrepareRequest :=
  with_expected_scratch_bytes
    (PrepareRequest_new (transform planned) shape src (output_size planned))
    (transform_scratch_bytes planned).

Definition prepare_chain_with_cancellation (engine : PreparationEngine)
    (transforms : list PlannedTransform) (shape : list N) (src : ByteView) : M ByteView :=
  current ← for_each transforms (fun planned current =>
      _ ← check;
      prepare_with_cancellation engine (chain_request planned shape current)) src;
  _ ← check;
  mret current.

(** ** The built-in provider *)

Definition BUILTIN_PROVIDER : string := "model-weights".
Definition BUILTIN_CONTIGUOUS_CAST : string := "contiguous-cast".
Definition BUILTIN_CONTIGUOUS_CAST_VERSION : N := 1.

Definition builtin_contiguous_implementation : result ImplementationId :=
  p ← StableName_parse BUILTIN_PROVIDER;
  n ← StableName_parse BUILTIN_CONTIGUOUS_CAST;
  mret {| provider := p; operation := n; version := BUILTIN_CONTIGUOUS_CAST_VERSION |}.

Definition contiguous_validate (own : ImplementationId) (request : PrepareRequest)
  : M OutputStrategy :=
  let src := source (request_transform request) in
  let dst := target (request_transform request) in
  _ ← check;
  _ ← lift (reject (bool_decide (implementation (request_transform request) <> own)) Unsupported);
  _ ← lift (reject (negb (is_contiguous (layout src)) || negb (is_contiguous (layout dst)))
              Unsupported);
  _ ← check;
  source_bytes ← lift (byte_len (dtype src) (request_shape request));
  _ ← lift (reject (negb (view_len (request_source request) =? source_bytes)) Integrity);
  _ ← check;
  target_bytes ← lift (byte_len (dtype dst) (request_shape request));
  _ ← lift (reject (negb (expected_output_bytes request =? target_bytes)) Integrity);
  if bool_decide (dtype src = dtype dst) then mret ReuseSource else
  if (is_builtin_float (dtype src) && is_builtin_float (dtype dst)) ||
     (bool_decide (dtype src = U8) && bool_decide (dtype dst = F32))
  then mret (Allocate target_bytes 0)
  else lift (Err Unsupported).

Definition contiguous_prepare_into (half : HalfConversions) (request : PrepareRequest)
    (output scratch : bytes) : M (bytes * bytes) :=
  _ ← check;
  expected_len ← lift (usize_try_from (expected_output_bytes request));
  _ ← lift (reject (negb (blen output =? expected_len)) Integrity);
  _ ← lift (reject (negb (blen scratch =? 0) ||
                    negb (expected_scratch_bytes request =? 0)) Integrity);
  output ← cast_float_bytes half (dtype (source (request_transform request)))
             (as_slice (request_source request)) (dtype (target (request_transform request)))
             output;
  mret (output, scratch).

Definition contiguous_prepare_allocated (half : HalfConversions) (request : PrepareRequest)
    (output_len scratch_len : N) : M bytes :=
  _ ← check;
  expected_len ← lift (usize_try_from (expected_output_bytes request));
  _ ← lift (reject (negb (output_len =? expected_len)) Integrity);
  _ ← lift (reject (negb (scratch_len =? 0) ||
                    negb (expected_scratch_bytes request =? 0)) Integrity);
  cast_float_bytes_owned half (dtype (source (request_transform request)))
    (as_slice (request_source request)) (dtype (target (request_transform request))) output_len.

Definition ContiguousProvider_new (half : HalfConversions) : result PreparationProvider :=
  own ← builtin_contiguous_implementation;
  mret {| provider_implementation := own;
          provider_validate := contiguous_validate own;
          provider_prepare_into := contiguous_prepare_into half;
          provider_prepare_allocated := contiguous_prepare_allocated half |}.

Definition registry_with_builtins (half : HalfConversions) : result ProviderRegistry :=
  p ← ContiguousProvider_new half;
  register_shared ∅ p.

Definition engine_with_builtins (half : HalfConversions) : result PreparationEngine :=
  r ← registry_with_builtins half;
  mret {| providers := r |}.
