(* ===== verification/Exec.v ===== *)
(** * Host execution of operation graphs, from [operation.rs]

    [execute_node] and its executors, and [execute_host_inner], which runs the
    nodes in order over a map of live runtime values and the liveness schedule.
    Observation events carry no data back and are left out: this is the call
    with no observer. *)

From S2P Require Import Prelude Errors Cancel Tensor Identity Representation Strides Facts.
From S2P Require Import Operation Kernels Simd FastPaths Prepare Graph Liveness.
Local Open Scope N_scope.

Record RuntimeValue := {
  runtime_bytes : ByteView;
  runtime_allocation : option N
}.

Inductive OutputOrigin :=
  | Fresh
  | Alias (input_index : nat).

Record ProducedValue := {
  produced_bytes : ByteView;
  produced_origin : OutputOrigin
}.

Record NodeExecution := {
  execution_outputs : list ProducedValue;
  transient_scratch : N
}.

Record HostExecution := {
  execution_output : ByteView;
  peak_scratch_bytes : N
}.

Definition same_view (left right : ByteView) : bool :=
  (view_len left =? view_len right) && (as_ptr left =? as_ptr right).

Definition is_identity_permutation (p : Permute) (input_facts output_facts : TensorFacts) : bool :=
  is_identity_order (permute_order p) && bool_decide (input_facts = output_facts).

Definition only_output (node : OperationNode) : result TensorFacts :=
  match node_outputs node with [output] => Ok output | _ => Err Integrity end.

Definition unary_execution_parts (node : OperationNode) (inputs : list RuntimeValue)
    (input_facts : list TensorFacts) : result (RuntimeValue * TensorFacts * TensorFacts) :=
  match inputs with
  | [input] =>
      match input_facts with
      | [facts] => output ← only_output node; mret (input, facts, output)
      | _ => Err Integrity
      end
  | _ => Err Integrity
  end.

Definition alias_node_execution (bytes : ByteView) : NodeExecution :=
  {| execution_outputs := [{| produced_bytes := bytes; produced_origin := Alias 0 |}];
     transient_scratch := 0 |}.

(** Boxing the output gives it its address. *)
Definition fresh_value (output : bytes) : M ProducedValue :=
  address ← new_address;
  mret {| produced_bytes := view_from_boxed address output; produced_origin := Fresh |}.

Definition fresh_node_execution (output : bytes) : M NodeExecution :=
  value ← fresh_value output;
  mret {| execution_outputs := [value]; transient_scratch := 0 |}.

Section Executor.
Context (avx2 : bool) (preparation : PreparationEngine).

Definition execute_concat_node (concat : Concat) (node : OperationNode)
    (inputs : list RuntimeValue) (input_facts : list TensorFacts) : M NodeExecution :=
  output_facts ← lift (only_output node);
  let input_views := map runtime_bytes inputs in
  if forallb is_canonical_contiguous input_facts && is_canonical_contiguous output_facts then
    output ← build_contiguous_concat (concat_axis concat) input_facts output_facts input_views;
    fresh_node_execution output
  else
    output ← allocate_tensor output_facts;
    output ← execute_concat_bytes concat input_facts output_facts input_views output;
    fresh_node_execution output.

Definition execute_permute_node (permute : Permute) (node : OperationNode)
    (inputs : list RuntimeValue) (input_facts : list TensorFacts) : M NodeExecution :=
  '(input, input_facts, output_facts) ← lift (unary_execution_parts node inputs input_facts);
  _ ← lift (validate_view_len (runtime_bytes input) (facts_byte_len input_facts));
  if is_identity_permutation permute input_facts output_facts then
    _ ← check;
    mret (alias_node_execution (runtime_bytes input))
  else
    fast ← build_oihw_to_ohwi_if_supported avx2 permute input_facts output_facts
             (as_slice (runtime_bytes input));
    match fast with
    | Some output => fresh_node_execution output
    | None =>
        output ← allocate_tensor output_facts;
        output ← execute_permute_bytes permute input_facts output_facts (runtime_bytes input)
                   output;
        fresh_node_execution output
    end.

Definition execute_pad_node (node : OperationNode)
    (inputs : list RuntimeValue) (input_facts : list TensorFacts) : M NodeExecution :=
  '(input, input_facts, output_facts) ← lift (unary_execution_parts node inputs input_facts);
  _ ← lift (validate_view_len (runtime_bytes input) (facts_byte_len input_facts));
  output ← allocate_tensor output_facts;
  output ← execute_storage_copy input_facts output_facts (runtime_bytes input) output;
  fresh_node_execution output.

Definition execute_slice_node (slice : Slice) (node : OperationNode)
    (inputs : list RuntimeValue) (input_facts : list TensorFacts) : M NodeExecution :=
  '(input, input_facts, output_facts) ← lift (unary_execution_parts node inputs input_facts);
  output ← allocate_tensor output_facts;
  output ← execute_slice_bytes (slice_ranges slice) input_facts (runtime_bytes input)
             output_facts output;
  fresh_node_execution output.

(** One range of a split: a slice of every axis but the split one. *)
Definition split_one (split : Split) (facts : TensorFacts) (input : ByteView)
    (x : AxisRange * TensorFacts) (outputs : list ProducedValue) : M (list ProducedValue) :=
  let '(range, output_facts) := x in
  _ ← check;
  let whole := map (fun dimension => {| range_start := 0; range_end := dimension |})
                 (logical_shape facts) in
  axis ← lift (axis_as_usize (split_axis split));
  ranges ← lift (index_set whole axis range);
  output ← allocate_tensor output_facts;
  output ← execute_slice_bytes ranges facts input output_facts output;
  value ← fresh_value output;
  mret (outputs ++ [value]).

Definition execute_split_node (split : Split) (node : OperationNode)
    (inputs : list RuntimeValue) (input_facts : list TensorFacts) : M NodeExecution :=
  input ← lift (ok_or (inputs !! 0%nat) Integrity);
  facts ← lift (ok_or (input_facts !! 0%nat) Integrity);
  outputs ← for_each (zip (split_ranges split) (node_outputs node))
              (split_one split facts (runtime_bytes input)) [];
  mret {| execution_outputs := outputs; transient_scratch := 0 |}.

Definition execute_reshape_node (inputs : list RuntimeValue) : M NodeExecution :=
  input ← lift (ok_or (inputs !! 0%nat) Integrity);
  mret (alias_node_execution (runtime_bytes input)).

Definition execute_prepare_node (t : PlannedTransform) (inputs : list RuntimeValue)
    (input_facts : list TensorFacts) : M NodeExecution :=
  input ← lift (ok_or (inputs !! 0%nat) Integrity);
  facts ← lift (ok_or (input_facts !! 0%nat) Integrity);
  output ← prepare_with_cancellation preparation
             (chain_request t (logical_shape facts) (runtime_bytes input));
  let reused := same_view output (runtime_bytes input) in
  mret {| execution_outputs := [{| produced_bytes := output;
            produced_origin := if reused then Alias 0 else Fresh |}];
          transient_scratch := if reused then 0 else transform_scratch_bytes t |}.

Definition execute_node (node : OperationNode) (inputs : list RuntimeValue)
    (input_facts : list TensorFacts) : M NodeExecution :=
  _ ← lift (reject (bool_decide (length input_facts <> length inputs)) Integrity);
  match node_operation node with
  | Op_Concat concat => execute_concat_node concat node inputs input_facts
  | Op_Permute permute => execute_permute_node permute node inputs input_facts
  | Op_Pad _ => execute_pad_node node inputs input_facts
  | Op_Slice slice => execute_slice_node slice node inputs input_facts
  | Op_Split split => execute_split_node split node inputs input_facts
  | Op_Reshape _ => execute_reshape_node inputs
  | Op_Prepare transform => execute_prepare_node transform inputs input_facts
  end.

(** ** The executor *)

Abbreviation runtime := (gmap ValueRef RuntimeValue).

Definition consume_runtime_inputs (inputs : list ValueRef) (s : LivenessSchedule) (rt : runtime)
  : result (LivenessSchedule * runtime) :=
  try_fold (fun '(s, rt) input =>
    '(s, last) ← consume_value s input;
    if (last : bool) then
      _ ← ok_or (rt !! input) Integrity;
      mret (s, delete input rt)
    else mret (s, rt)) (s, rt) inputs.

Definition remove_unused_runtime (vs : list ValueRef) (s : LivenessSchedule) (rt : runtime)
  : result (LivenessSchedule * runtime) :=
  try_fold (fun '(s, rt) value =>
    if uses_left s value =? 0 then
      s ← remove_value s value;
      _ ← ok_or (rt !! value) Integrity;
      mret (s, delete value rt)
    else mret (s, rt)) (s, rt) vs.

Definition host_input (rt : runtime) (x : nat * (OperationInput * ByteView)) : result runtime :=
  let '(input_index, (descriptor, bytes)) := x in
  _ ← validate_view_len bytes (facts_byte_len (input_facts descriptor));
  input ← index_as_u32 input_index;
  mret (<[Input (input_from_ordinal input) :=
            {| runtime_bytes := bytes; runtime_allocation := None |}]> rt).

(** One produced output: its allocation, its schedule entry and its runtime
    value. *)
Definition host_output (node_id : N) (input_values : list RuntimeValue)
    (st : LivenessSchedule * runtime * list ValueRef) (x : nat * (ProducedValue * TensorFacts))
  : result (LivenessSchedule * runtime * list ValueRef) :=
  let '(s, rt, produced_values) := st in
  let '(output_index, (produced, facts)) := x in
  '(s, allocation) ←
    match produced_origin produced with
    | Alias input_index =>
        input ← ok_or (input_values !! input_index) Integrity;
        mret (s, runtime_allocation input)
    | Fresh => '(s, a) ← create_allocation s (facts_byte_len facts); mret (s, Some a)
    end;
  output ← index_as_u32 output_index;
  let value := node_value node_id output in
  s ← insert_value s value allocation;
  mret (s, <[value := {| runtime_bytes := produced_bytes produced;
                         runtime_allocation := allocation |}]> rt,
        produced_values ++ [value]).

Definition host_node (g : OperationGraph) (x : nat * OperationNode)
    (st : LivenessSchedule * runtime) : M (LivenessSchedule * runtime) :=
  let '(node_index, node) := x in
  let '(s, rt) := st in
  _ ← check;
  node_id ← lift (index_as_u32 node_index);
  expected ← lift (builtin_implementation (node_operation node));
  _ ← lift (reject (bool_decide (node_implementation node <> expected)) Unsupported);
  input_values ← lift (mapM (fun value => ok_or (rt !! value) Integrity) (node_inputs node));
  facts ← lift (mapM (fun value => ok_or (graph_facts g value) Integrity) (node_inputs node));
  execution ← execute_node node input_values facts;
  _ ← lift (reject (bool_decide (length (execution_outputs execution) <>
                                 length (node_outputs node))) Integrity);
  _ ← lift (try_fold (fun _ '(produced, facts) =>
              validate_view_len (produced_bytes produced) (facts_byte_len facts)) tt
              (zip (execution_outputs execution) (node_outputs node)));
  '(s, rt, produced_values) ← lift (try_fold (host_output node_id input_values) (s, rt, [])
              (enumerate (zip (execution_outputs execution) (node_outputs node))));
  s ← lift (observe_transient s (transient_scratch execution));
  '(s, rt) ← lift (consume_runtime_inputs (node_inputs node) s rt);
  lift (remove_unused_runtime produced_values s rt).

Definition execute_host (g : OperationGraph) (inputs : list ByteView) : M HostExecution :=
  _ ← check;
  _ ← lift (reject (bool_decide (length inputs <> length (graph_inputs g))) Binding);
  s ← lift (LivenessSchedule_new g);
  rt ← lift (try_fold host_input ∅ (enumerate (zip (graph_inputs g) inputs)));
  '(s, rt) ← for_each (enumerate (graph_nodes g)) (host_node g) (s, rt);
  _ ← check;
  output ← lift (ok_or (rt !! graph_output g) Integrity);
  peak ← lift (scratch_excluding_output s (graph_output g));
  mret {| execution_output := runtime_bytes output; peak_scratch_bytes := peak |}.
End Executor.
