(* ===== verification/NodeSpecs.v ===== *)
(** * Correctness of node execution

    Whatever path the executor takes, the outputs of a node store the meaning
    of its operation. The preparation engine is known only through the
    interface [Prepares]. *)

From S2P Require Import Prelude Errors Cancel Tensor Identity Representation Strides Facts.
From S2P Require Import Operation InferSpecs Kernels Semantics KernelSpecs Simd.
From S2P Require Import FastPaths FastPathSpecs SimdSpecs Prepare Graph GraphSpecs Liveness.
From S2P Require Import Exec.
Local Open Scope N_scope.

(** What an engine promises to the executor: it prepares the transforms it
    supports into the facts inference declares, with a fixed meaning. *)
Class Prepares (engine : PreparationEngine) (supported : PlannedTransform -> Prop)
    (meaning : PlannedTransform -> tensor -> tensor) : Prop := {
  prepares_outputs : forall t fin fout v T,
    supported t -> facts_wf fin -> infer_prepare t fin = Ok [fout] ->
    facts_byte_len fout <= isize_MAX -> view_wf v -> represents fin (as_slice v) T ->
    succeeds (prepare_with_cancellation engine (chain_request t (logical_shape fin) v))
      (fun out => view_wf out /\ represents fout (as_slice out) (meaning t T))
}.

(** ** The meaning of an operation *)

Definition sem_op (meaning : PlannedTransform -> tensor -> tensor) (o : Operation)
    (facts outputs : list TensorFacts) (Ts : list tensor) : list tensor :=
  let T := default (fun _ => []) (Ts !! 0%nat) in
  match o with
  | Op_Concat c =>
      let axis := N.to_nat (axis_index (concat_axis c)) in
      [sem_concat axis (axis_dims axis facts) Ts]
  | Op_Permute p =>
      [match permute_mode p with
       | Logical => sem_permute (map N.to_nat (permute_order p)) T
       | Storage _ => T
       end]
  | Op_Pad _ => [T]
  | Op_Slice s => [sem_slice (slice_ranges s) T]
  | Op_Split s =>
      map (fun r => sem_split (N.to_nat (axis_index (split_axis s))) r T) (split_ranges s)
  | Op_Reshape r =>
      [sem_reshape (logical_shape (default (Build_TensorFacts [] [] [] []
         (Representation_contiguous Bool) 0) (facts !! 0%nat))) (reshape_shape r) T]
  | Op_Prepare t => [meaning t T]
  end.

(** The origin of every output, where the operation alone decides it. *)
Definition local_origin (o : Operation) (facts outputs : list TensorFacts) : OutputOrigin :=
  match o, facts, outputs with
  | Op_Reshape _, [_], [_] => Alias 0
  | Op_Permute p, [fin], [fout] => if is_identity_permutation p fin fout then Alias 0 else Fresh
  | _, _, _ => Fresh
  end.

Definition is_prepare (o : Operation) : bool :=
  match o with Op_Prepare _ => true | _ => false end.

(** A host can hold the tensor, and it has elements. *)
Definition storable (f : TensorFacts) : Prop :=
  prodN (logical_shape f) <> 0 /\ facts_byte_len f <= isize_MAX.

Lemma represents_ext f bs T T' :
  (forall c, in_shape (logical_shape f) c -> T c = T' c) -> represents f bs T -> represents f bs T'.
Proof. intros H [Hl HT]. split; [done|]. intros c Hc. by rewrite HT, H. Qed.

Lemma views_represent_one f v T :
  facts_wf f -> view_wf v -> represents f (as_slice v) T -> views_represent [f] [v] [T].
Proof. intros ???. split_and!; [done|done|]. intros [|k] f' v' T' Hf' Hv' HT'; by simplify_eq/=. Qed.

Lemma views_represent_single f views Ts :
  views_represent [f] views Ts -> exists v T, views = [v] /\ Ts = [T] /\
    facts_wf f /\ view_wf v /\ represents f (as_slice v) T.
Proof.
  intros (Hv & HT & H). destruct views as [|v []]; try done. destruct Ts as [|T []]; try done.
  exists v, T. destruct (H 0%nat f v T) as (? & ? & ?); auto 6.
Qed.

Section Nodes.
Context (avx2 : bool) (engine : PreparationEngine).
Context (supported : PlannedTransform -> Prop) (meaning : PlannedTransform -> tensor -> tensor).
Context `{!Prepares engine supported meaning}.

(** What one node execution returns. *)
Record executed (node : OperationNode) (ivs : list RuntimeValue) (facts : list TensorFacts)
    (Ts : list tensor) (e : NodeExecution) : Prop := {
  executed_outputs : views_represent (node_outputs node) (map produced_bytes (execution_outputs e))
    (sem_op meaning (node_operation node) facts (node_outputs node) Ts);
  executed_origin : is_prepare (node_operation node) = false ->
    Forall (fun p => produced_origin p = local_origin (node_operation node) facts (node_outputs node))
      (execution_outputs e);
  executed_alias : forall j p i, execution_outputs e !! j = Some p -> produced_origin p = Alias i ->
    i = 0%nat /\ exists v, ivs !! 0%nat = Some v /\
      (is_prepare (node_operation node) = false -> produced_bytes p = runtime_bytes v);
  executed_scratch : transient_scratch e <= declared_scratch (node_operation node)
}.

Lemma executed_fresh node ivs facts Ts f T output address :
  node_outputs node = [f] -> facts_wf f -> represents f output T ->
  sem_op meaning (node_operation node) facts (node_outputs node) Ts = [T] ->
  local_origin (node_operation node) facts (node_outputs node) = Fresh ->
  executed node ivs facts Ts
    {| execution_outputs := [{| produced_bytes := view_from_boxed address output;
                                produced_origin := Fresh |}]; transient_scratch := 0 |}.
Proof.
  intros Ho Hf Hr Hs Hl. constructor; simpl; [|by repeat constructor|by intros [|[]] p i [= <-]|lia].
  rewrite Hs, Ho. apply views_represent_one; [done|apply view_from_boxed_wf|].
  by rewrite view_from_boxed_slice.
Qed.

Lemma executed_view node v facts Ts f T :
  node_outputs node = [f] -> facts_wf f -> view_wf (runtime_bytes v) ->
  represents f (as_slice (runtime_bytes v)) T ->
  sem_op meaning (node_operation node) facts (node_outputs node) Ts = [T] ->
  local_origin (node_operation node) facts (node_outputs node) = Alias 0 ->
  executed node [v] facts Ts (alias_node_execution (runtime_bytes v)).
Proof.
  intros Ho Hf Hv Hr Hs Hl. constructor; simpl;
    [|by repeat constructor|intros [|[]] p i [= <-] [= <-]; eauto|lia].
  rewrite Hs, Ho. by apply views_represent_one.
Qed.

(** The allocation of an output starts every element-wise path. *)
Lemma allocated_kernel f node ivs facts Ts T (kernel : bytes -> M bytes) :
  node_outputs node = [f] -> facts_wf f -> storable f ->
  sem_op meaning (node_operation node) facts (node_outputs node) Ts = [T] ->
  local_origin (node_operation node) facts (node_outputs node) = Fresh ->
  (forall output, blen output = facts_byte_len f ->
     succeeds (kernel output) (fun out => represents f out T /\ keeps_padding f output out)) ->
  succeeds (output ← allocate_tensor f; output ← kernel output; fresh_node_execution output)
    (executed node ivs facts Ts).
Proof.
  intros Ho Hf [_ Hle] Hs Hl Hk. eapply succeeds_then; [by apply allocate_tensor_spec|].
  intros output ->. eapply succeeds_then; [apply Hk|].
  { unfold blen. rewrite length_replicate. lia. }
  intros out [Hout _]. unfold fresh_node_execution, fresh_value.
  apply succeeds_bind. run_step. run_step. run_step. by eapply executed_fresh.
Qed.

Lemma fresh_kernel f node ivs facts Ts T output :
  node_outputs node = [f] -> facts_wf f -> represents f output T ->
  sem_op meaning (node_operation node) facts (node_outputs node) Ts = [T] ->
  local_origin (node_operation node) facts (node_outputs node) = Fresh ->
  succeeds (fresh_node_execution output) (executed node ivs facts Ts).
Proof.
  intros Ho Hf Hr Hs Hl. unfold fresh_node_execution, fresh_value.
  apply succeeds_bind. run_step. run_step. run_step. by eapply executed_fresh.
Qed.

(** ** One lemma per operation *)

Lemma concat_node_spec c node ivs facts Ts :
  node_operation node = Op_Concat c -> Forall facts_wf facts -> Forall storable (node_outputs node) ->
  infer_concat c facts = Ok (node_outputs node) ->
  views_represent facts (map runtime_bytes ivs) Ts ->
  succeeds (execute_concat_node c node ivs facts) (executed node ivs facts Ts).
Proof using All.
  intros Hop Hwf Hst Hinf Hv.
  destruct (infer_concat_Ok _ _ _ Hinf) as (first & axis & f & Hhead & Hlen & Ho & -> & Hax & Hva &
    Hj & Hwo & Ha & Hdt & Hsh & Hsum & Hstr).
  set (axis := N.to_nat (axis_index (concat_axis c))) in *.
  assert (sem_op meaning (node_operation node) facts (node_outputs node) Ts =
          [sem_concat axis (axis_dims axis facts) Ts]) as Hsem by (by rewrite Hop).
  rewrite Ho, Forall_singleton in Hst. unfold execute_concat_node.
  run_step; [unfold only_output; by rewrite Ho|].
  destruct (forallb is_canonical_contiguous facts && is_canonical_contiguous f) eqn:Ec.
  - apply andb_true_iff in Ec as [Ec Eo].
    apply is_canonical_contiguous_true in Eo as (_ & Hss & _ & Hsst & _).
    eapply succeeds_then.
    + eapply (build_contiguous_concat_spec axis first facts f (map runtime_bytes ivs) Ts);
        try done; [|apply Hst..].
      apply Forall_forall. intros f' Hf'. rewrite forallb_forall in Ec.
      apply list_elem_of_In, Ec, is_canonical_contiguous_true in Hf'. tauto.
    + intros out Hout. apply (fresh_kernel _ _ _ _ _ _ _ Ho Hwo Hout Hsem). by rewrite Hop.
  - eapply allocated_kernel; [exact Ho|done|done|exact Hsem|by rewrite Hop|]. intros output Hb.
    eapply execute_concat_bytes_spec; eauto.
Qed.

Lemma only_output_Ok node f : node_outputs node = [f] -> only_output node = Ok f.
Proof using All. intros H. unfold only_output. by rewrite H. Qed.

Lemma unary_parts node iv fin f :
  node_outputs node = [f] -> unary_execution_parts node [iv] [fin] = Ok (iv, fin, f).
Proof using All. intros H. unfold unary_execution_parts. by rewrite (only_output_Ok _ _ H). Qed.

Lemma gather_identity c : gather (seq 0 (length c)) c = c.
Proof.
  apply list_eq. intros i. destruct (decide (i < length c)%nat) as [Hi|Hi].
  - by rewrite (gather_lookup _ _ _ i) by (by rewrite ?lookup_seq_lt).
  - rewrite !lookup_ge_None_2; [done|lia|]. rewrite gather_length, length_seq. lia.
Qed.

Lemma permute_identity p fin fout T c :
  infer_permute p fin = Ok [fout] -> is_identity_order (permute_order p) = true ->
  in_shape (logical_shape fout) c ->
  match permute_mode p with Logical => sem_permute (map N.to_nat (permute_order p)) T | Storage _ => T end c
  = T c.
Proof using All.
  intros Hinf Hid Hc. destruct (permute_mode p) eqn:Em; [|done].
  destruct (infer_permute_Ok _ _ _ Hinf) as (Hord & Hr & _ & f & [= <-] & _ & _ & Hm).
  rewrite Em in Hm. destruct Hm as [Hsh _].
  pose proof (in_shape_length _ _ Hc) as Hl. rewrite Hsh, gather_length in Hl.
  apply is_identity_order_true in Hid. unfold sem_permute. f_equal. rewrite length_map in *.
  rewrite <-(scatter_gather _ c Hord) at 2 by (by rewrite length_map). f_equal.
  by rewrite Hid, <-Hl, gather_identity.
Qed.

Lemma permute_node_spec p node iv fin T :
  node_operation node = Op_Permute p -> facts_wf fin -> storable fin ->
  Forall storable (node_outputs node) -> infer_permute p fin = Ok (node_outputs node) ->
  view_wf (runtime_bytes iv) -> represents fin (as_slice (runtime_bytes iv)) T ->
  succeeds (execute_permute_node avx2 p node [iv] [fin]) (executed node [iv] [fin] [T]).
Proof using All.
  intros Hop Hwi Hsti Hst Hinf Hv HT.
  destruct (infer_permute_Ok _ _ _ Hinf) as (Hord & Hr & Hidx & f & Ho & Hwo & Hdt & Hm).
  rewrite Ho in Hst, Hinf. rewrite Forall_singleton in Hst.
  set (order := map N.to_nat (permute_order p)) in *.
  set (T' := match permute_mode p with Logical => sem_permute order T | Storage _ => T end).
  assert (sem_op meaning (node_operation node) [fin] (node_outputs node) [T] = [T']) as Hsem
    by (by rewrite Hop).
  pose proof (represents_view_len _ _ _ Hv HT) as Hvl. unfold execute_permute_node.
  run_step; [by apply unary_parts|]. cbn beta iota. run_step; [by apply validate_view_len_Ok|].
  assert (local_origin (node_operation node) [fin] (node_outputs node) =
          if is_identity_permutation p fin f then Alias 0 else Fresh) as Hor by (by rewrite Hop, Ho).
  destruct (is_identity_permutation p fin f) eqn:Eid.
  { unfold is_identity_permutation in Eid. apply andb_true_iff in Eid as [Eid Ef].
    apply bool_decide_eq_true_1 in Ef as <-. run_step. run_step.
    eapply executed_view; [exact Ho|done|done| |exact Hsem|exact Hor].
    eapply represents_ext; [|exact HT]. intros c Hc. symmetry. by eapply permute_identity. }
  eapply succeeds_then.
  { apply (build_oihw_to_ohwi_if_supported_spec avx2 p fin f _ T); try done; [apply Hsti|apply Hst]. }
  intros [out|] Hout.
  - destruct (Hout out eq_refl) as [[l Hl] Hrep]. eapply fresh_kernel; [exact Ho|done| |exact Hsem|exact Hor].
    unfold T'. by rewrite Hl.
  - eapply allocated_kernel; [exact Ho|done|done|exact Hsem|exact Hor|]. intros output Hb.
    apply execute_permute_bytes_spec; try done.
    + apply addressable_nonempty; [done|apply Hst].
    + destruct (permute_mode p); tauto.
Qed.

Lemma pad_node_spec p node iv fin T :
  node_operation node = Op_Pad p -> facts_wf fin -> Forall storable (node_outputs node) ->
  infer_pad p fin = Ok (node_outputs node) ->
  view_wf (runtime_bytes iv) -> represents fin (as_slice (runtime_bytes iv)) T ->
  succeeds (execute_pad_node node [iv] [fin]) (executed node [iv] [fin] [T]).
Proof using All.
  intros Hop Hwi Hst Hinf Hv HT.
  destruct (infer_pad_Ok _ _ _ Hinf) as (f & Ho & Hwo & Hdt & Hls & _).
  rewrite Ho in Hst. rewrite Forall_singleton in Hst.
  assert (sem_op meaning (node_operation node) [fin] (node_outputs node) [T] = [T]) as Hsem
    by (by rewrite Hop).
  pose proof (represents_view_len _ _ _ Hv HT) as Hvl. unfold execute_pad_node.
  run_step; [by apply unary_parts|]. cbn beta iota. run_step; [by apply validate_view_len_Ok|].
  eapply allocated_kernel; [exact Ho|done|done|exact Hsem|by rewrite Hop|]. intros output Hb.
  apply execute_storage_copy_spec; try done. apply addressable_nonempty; [done|apply Hst].
Qed.

Lemma slice_node_spec s node iv fin T :
  node_operation node = Op_Slice s -> facts_wf fin -> Forall storable (node_outputs node) ->
  infer_slice s fin = Ok (node_outputs node) ->
  view_wf (runtime_bytes iv) -> represents fin (as_slice (runtime_bytes iv)) T ->
  succeeds (execute_slice_node s node [iv] [fin]) (executed node [iv] [fin] [T]).
Proof using All.
  intros Hop Hwi Hst Hinf Hv HT.
  destruct (infer_slice_Ok _ _ _ Hinf) as (Hfit & f & Ho & Hwo & Hdt & Hls & Ha).
  rewrite Ho in Hst. rewrite Forall_singleton in Hst.
  assert (sem_op meaning (node_operation node) [fin] (node_outputs node) [T] =
          [sem_slice (slice_ranges s) T]) as Hsem by (by rewrite Hop).
  unfold execute_slice_node. run_step; [by apply unary_parts|]. cbn beta iota.
  eapply allocated_kernel; [exact Ho|done|done|exact Hsem|by rewrite Hop|]. intros output Hb.
  by apply execute_slice_bytes_spec.
Qed.
(** *** Split *)

Lemma views_represent_snoc fs vs Ts f v T :
  views_represent fs vs Ts -> facts_wf f -> view_wf v -> represents f (as_slice v) T ->
  views_represent (fs ++ [f]) (vs ++ [v]) (Ts ++ [T]).
Proof.
  intros (Hv & HT & H) ???. unfold views_represent. rewrite !length_app, Hv, HT.
  split_and!; [done|done|]. intros k f' v' T' Hf Hv' HT'.
  apply lookup_app_Some in Hf as [Hf|[Hk Hf]].
  - pose proof (lookup_lt_Some _ _ _ Hf). rewrite lookup_app_l in Hv' by lia.
    rewrite lookup_app_l in HT' by lia. by eapply H.
  - rewrite lookup_app_r in Hv' by lia. rewrite lookup_app_r in HT' by lia.
    rewrite Hv in Hv'. rewrite HT in HT'. apply list_lookup_singleton_Some in Hf as [E <-].
    rewrite E in *. by simplify_eq/=.
Qed.

(** The whole input as a range per axis. *)
Definition whole_ranges (shape : list N) : list AxisRange :=
  map (fun d => {| range_start := 0; range_end := d |}) shape.

Lemma split_ranges_fit axis r shape d :
  shape !! axis = Some d -> range_start r < range_end r -> range_end r <= d ->
  ranges_fit (<[axis := r]> (whole_ranges shape)) shape /\
  range_lens (<[axis := r]> (whole_ranges shape)) = <[axis := range_end r - range_start r]> shape.
Proof.
  intros Hd Hr Hle. revert axis Hd. induction shape as [|d' shape IH]; intros [|axis] Hd; [done..| |].
  - injection Hd as ->. unfold ranges_fit, range_lens. simpl. split.
    + constructor; [lia|]. clear. induction shape; constructor; simpl; [lia|done].
    + f_equal. clear. induction shape; simpl; [done|]. f_equal; [lia|done].
  - destruct (IH _ Hd) as [Hf Hl]. unfold ranges_fit, range_lens in *. simpl.
    split; [by constructor; [simpl; lia|]|]. f_equal; [lia|done].
Qed.

Lemma split_is_slice axis r shape T c :
  length c = length shape ->
  sem_slice (<[axis := r]> (whole_ranges shape)) T c = sem_split axis r T c.
Proof.
  intros Hc. unfold sem_slice, sem_split. f_equal. revert axis c Hc.
  induction shape as [|d shape IH]; intros [|axis] [|x c] Hc; simplify_eq/=; [done|done| |].
  - f_equal. clear IH. revert shape Hc. induction c as [|y c IH]; intros [|] ?; simplify_eq/=; [done|].
    f_equal. by apply IH.
  - by rewrite IH.
Qed.

Lemma split_one_spec s fin iv r f T outs :
  let axis := N.to_nat (axis_index (split_axis s)) in
  facts_wf fin -> (axis < length (logical_shape fin))%nat ->
  validate_axis (split_axis s) (length (logical_shape fin)) = Ok axis ->
  split_output_ok fin axis r f -> storable f ->
  view_wf iv -> represents fin (as_slice iv) T ->
  succeeds (split_one s fin iv (r, f) outs)
    (fun outs' => exists p, outs' = outs ++ [p] /\ produced_origin p = Fresh /\
       view_wf (produced_bytes p) /\ represents f (as_slice (produced_bytes p)) (sem_split axis r T)).
Proof.
  intros axis Hwi Hax Hva (Hr & (d & Hd & Hle) & Hwo & Hdt & Ha & Hsh) [_ Hst] Hv HT.
  destruct (split_ranges_fit axis r _ d Hd Hr Hle) as [Hfit Hlens].
  unfold split_one. run_step. cbv zeta. eapply succeeds_lift_bind.
  { unfold validate_axis in Hva. apply bind_Ok in Hva as (a & Haa & _).
    pose proof (axis_as_usize_Ok _ _ Haa) as ->. exact Haa. }
  eapply succeeds_lift_bind.
  { unfold index_set. fold (whole_ranges (logical_shape fin)).
    rewrite bool_decide_eq_true_2; [reflexivity|]. unfold whole_ranges. by rewrite length_map. }
  eapply succeeds_then; [by apply allocate_tensor_spec|]. intros output ->.
  eapply succeeds_then.
  { apply (execute_slice_bytes_spec _ fin f iv _ T); try done; [by rewrite Hsh, <-Hlens|].
    unfold blen. rewrite length_replicate. lia. }
  intros out [Hout _]. unfold fresh_value. apply succeeds_bind. run_step. run_step. run_step.
  eexists. split; [reflexivity|]. split_and!; [done|apply view_from_boxed_wf|].
  simpl. rewrite view_from_boxed_slice. eapply represents_ext; [|exact Hout].
  intros c Hc. apply split_is_slice. rewrite (in_shape_length _ _ Hc), Hsh. by rewrite length_insert.
Qed.

Lemma split_node_spec s node iv fin T :
  node_operation node = Op_Split s -> facts_wf fin -> Forall storable (node_outputs node) ->
  infer_split s fin = Ok (node_outputs node) ->
  view_wf (runtime_bytes iv) -> represents fin (as_slice (runtime_bytes iv)) T ->
  succeeds (execute_split_node s node [iv] [fin]) (executed node [iv] [fin] [T]).
Proof.
  intros Hop Hwi Hst Hinf Hv HT.
  destruct (infer_split_Ok _ _ _ Hinf) as (axis & Haxis & Hax & Hall & Hva).
  unfold execute_split_node. run_step; [done|]. run_step; [done|].
  pose proof (Forall2_length _ _ _ Hall) as Hlen.
  eapply succeeds_then.
  - apply (succeeds_for_each (fun done outs =>
      views_represent (map snd done) (map produced_bytes outs)
        (map (fun x => sem_split axis x.1 T) done) /\
      Forall (fun p => produced_origin p = Fresh) outs)).
    { split; [by split_and!|constructor]. }
    intros done [r f] rest outs Hz [Hrep Hfresh].
    assert (zip (split_ranges s) (node_outputs node) !! length done = Some (r, f)) as Hk
      by (by rewrite Hz, list_lookup_middle).
    apply lookup_zip_with_Some in Hk as (? & ? & [= <- <-] & Hr & Hf).
    pose proof (Forall2_lookup_lr _ _ _ _ _ _ Hall Hr Hf) as Hok.
    pose proof (Forall_lookup_1 _ _ _ _ Hst Hf) as Hstf. subst axis.
    eapply succeeds_mono; [by eapply split_one_spec|].
    intros outs' (p & -> & Hp & Hw & Hrp). rewrite !map_app. split.
    + apply views_represent_snoc; [done|apply Hok|done|done].
    + rewrite Forall_app. split; [done|by repeat constructor].
  - intros outs [Hrep Hfresh]. run_step. constructor; cbn [execution_outputs transient_scratch]; [| | |lia].
    + rewrite Hop. cbn [sem_op].
      change (map snd ?z) with (z.*2) in Hrep. rewrite snd_zip in Hrep by lia.
      replace (split_ranges s) with (zip (split_ranges s) (node_outputs node)).*1
        by (apply fst_zip; lia).
      rewrite <-Haxis. change (?z.*1) with (map fst z). rewrite map_map. exact Hrep.
    + intros _. rewrite Hop. exact Hfresh.
    + intros j p i Hp Ho. rewrite Forall_lookup in Hfresh. rewrite (Hfresh j p Hp) in Ho. done.
Qed.

(** *** Reshape *)

(** The bytes of a canonical tensor read at any other shape. *)
Lemma reshape_represents r fin f bs T :
  facts_wf fin -> infer_reshape r fin = Ok [f] -> prodN (logical_shape f) <> 0 ->
  represents fin bs T ->
  represents f bs (sem_reshape (logical_shape fin) (reshape_shape r) T).
Proof.
  intros Hwi Hinf Hne [Hl HT].
  destruct (infer_reshape_Ok _ _ _ Hwi Hinf) as (Hc & Hn & f' & [= <-] & Hwo & Hrep & Hsh & Hst & Hss).
  apply is_canonical_contiguous_true in Hc as (_ & Hiss & _ & Hist & _).
  assert (width f = width fin) as Hw by (unfold width, facts_dtype; by rewrite Hrep).
  rewrite Hsh in Hne. split.
  - rewrite Hl, (wf_bytes _ Hwi), (wf_bytes _ Hwo), Hw, Hss, Hiss. by rewrite Hn.
  - intros c Hcs. rewrite Hsh in Hcs. unfold sem_reshape. rewrite Hw.
    pose proof (encode_bound _ _ Hcs) as Hb. rewrite Hn in Hb, Hne.
    rewrite <-HT by (by apply decode_in_shape). f_equal.
    unfold offset_of. rewrite Hst, Hist. fold (encode (reshape_shape r) c).
    symmetry. by apply encode_decode.
Qed.

Lemma reshape_node_spec r node iv fin T :
  node_operation node = Op_Reshape r -> facts_wf fin -> Forall storable (node_outputs node) ->
  infer_reshape r fin = Ok (node_outputs node) ->
  view_wf (runtime_bytes iv) -> represents fin (as_slice (runtime_bytes iv)) T ->
  succeeds (execute_reshape_node [iv]) (executed node [iv] [fin] [T]).
Proof.
  intros Hop Hwi Hst Hinf Hv HT.
  destruct (infer_reshape_Ok _ _ _ Hwi Hinf) as (_ & _ & f & Ho & Hwo & _).
  rewrite Ho in Hinf, Hst. rewrite Forall_singleton in Hst.
  unfold execute_reshape_node. run_step; [done|]. run_step.
  eapply executed_view; [exact Ho|done|done| |by rewrite Hop|by rewrite Hop, Ho].
  eapply reshape_represents; try done. apply Hst.
Qed.

(** *** Prepare *)

Lemma prepare_node_spec t node iv fin T :
  node_operation node = Op_Prepare t -> facts_wf fin -> supported t ->
  Forall storable (node_outputs node) -> infer_prepare t fin = Ok (node_outputs node) ->
  view_wf (runtime_bytes iv) -> represents fin (as_slice (runtime_bytes iv)) T ->
  succeeds (execute_prepare_node engine t [iv] [fin]) (executed node [iv] [fin] [T]).
Proof.
  intros Hop Hwi Hsup Hst Hinf Hv HT.
  destruct (infer_prepare_Ok _ _ _ Hinf) as (_ & _ & f & Ho & Hwo & _).
  rewrite Ho in Hinf, Hst. rewrite Forall_singleton in Hst. destruct Hst as [_ Hst].
  unfold execute_prepare_node. run_step; [done|]. run_step; [done|].
  eapply succeeds_then; [by eapply (prepares_outputs t fin f)|].
  intros out [Hwout Hout]. cbv zeta. run_step.
  constructor; cbn [execution_outputs transient_scratch].
  - rewrite Hop, Ho. by apply views_represent_one.
  - by rewrite Hop.
  - intros [|[]] p i; [|done..]. simpl. intros [= <-]. simpl. rewrite Hop.
    destruct (same_view _ _); [|done]. intros [= <-]. split; [done|]. exists iv. by split.
  - rewrite Hop. simpl. destruct (same_view _ _); lia.
Qed.

(** ** Every operation *)

(** The unary operations take one input. *)
(** What execution needs of a node beyond a valid graph. *)
Definition node_supported (o : Operation) : Prop :=
  match o with Op_Prepare t => supported t | _ => True end.

Lemma execute_node_spec node ivs facts Ts :
  Forall facts_wf facts -> Forall storable facts -> Forall storable (node_outputs node) ->
  node_supported (node_operation node) ->
  infer_outputs (node_operation node) facts = Ok (node_outputs node) ->
  views_represent facts (map runtime_bytes ivs) Ts ->
  succeeds (execute_node avx2 engine node ivs facts) (executed node ivs facts Ts).
Proof.
  intros Hwf Hsti Hsto Hsup Hinf Hv. pose proof Hv as (Hl & _).
  rewrite length_map in Hl. unfold execute_node.
  run_step; [by rewrite bool_decide_eq_false_2 by (intros []; done)|].
  destruct (node_operation node) eqn:Hop; cbn [infer_outputs] in Hinf;
    [by eapply concat_node_spec| |..];
    apply bind_Ok in Hinf as (fin & ->%one_input_Ok & Hinf);
    apply views_represent_single in Hv as (v & T & Hv & -> & _ & Hvw & HT);
    destruct ivs as [|iv []]; try done; injection Hv as <-;
    rewrite Forall_singleton in Hwf, Hsti.
  - by eapply permute_node_spec.
  - by eapply pad_node_spec.
  - by eapply slice_node_spec.
  - by eapply split_node_spec.
  - by eapply reshape_node_spec.
  - by eapply prepare_node_spec.
Qed.
End Nodes.
