(* ===== verification/CastSpecs.v ===== *)
(** * The two float casts compute the same elements

    The writer fills a buffer block by block; the builder appends block by
    block. Both produce, element by element, the conversion of the source
    element. *)

From S2P Require Import Prelude Errors Cancel Tensor Identity Representation Strides Facts Operation Kernels.
From S2P Require Import InferSpecs Semantics KernelSpecs Cast Prepare Exec NodeSpecs.
Local Open Scope N_scope.

(** The conversion between bit patterns, where one is built in. *)
Definition cast_value (half : HalfConversions) (source target : DType) : option (N -> N) :=
  match source, target with
  | U8, F32 => Some f32_from_u8
  | F32, F16 => Some (f16_from_f32 half)
  | F32, Bf16 => Some (bf16_from_f32 half)
  | F16, F32 => Some (f16_to_f32 half)
  | Bf16, F32 => Some (bf16_to_f32 half)
  | F16, Bf16 => Some (fun v => bf16_from_f32 half (f16_to_f32 half v))
  | Bf16, F16 => Some (fun v => f16_from_f32 half (bf16_to_f32 half v))
  | _, _ => None
  end.

Definition cast_width (d : DType) : N := bits d / 8.

(** One converted scalar. *)
Definition cast_scalar (f : N -> N) (target : DType) (b : bytes) : bytes :=
  to_le_bytes (N.to_nat (cast_width target)) (f (from_le_bytes b)).

(** The first [n] converted elements of a buffer. *)
Definition cast_elements (f : N -> N) (source_dtype target_dtype : DType) (source : bytes) (n : nat)
  : bytes :=
  concat (map (fun i => cast_scalar f target_dtype (element (cast_width source_dtype) (N.of_nat i) source))
    (seq 0 n)).

Lemma cast_scalar_length f target b : length (cast_scalar f target b) = N.to_nat (cast_width target).
Proof. apply to_le_bytes_length. Qed.

Lemma cast_elements_length f s d source n :
  length (cast_elements f s d source n) = (n * N.to_nat (cast_width d))%nat.
Proof.
  unfold cast_elements. rewrite (concat_uniform_length _ (N.to_nat (cast_width d))).
  - by rewrite length_map, length_seq.
  - apply Forall_forall. intros x Hx. apply list_elem_of_In, in_map_iff in Hx as (i & <- & _).
    apply cast_scalar_length.
Qed.

Lemma cast_elements_element f s d source n i :
  (i < n)%nat -> element (cast_width d) (N.of_nat i) (cast_elements f s d source n) =
  cast_scalar f d (element (cast_width s) (N.of_nat i) source).
Proof.
  intros Hi. unfold element at 1, cast_elements. rewrite N2Nat.inj_mul, Nat2N.id.
  apply concat_uniform_element.
  - apply Forall_forall. intros x Hx. apply list_elem_of_In, in_map_iff in Hx as (j & <- & _).
    apply cast_scalar_length.
  - change (map ?h ?l) with (h <$> l). by rewrite list_lookup_fmap, lookup_seq_lt.
Qed.

Lemma cast_width_pos s d half f : cast_value half s d = Some f -> 0 < cast_width s /\ 0 < cast_width d.
Proof. by destruct s, d. Qed.

Lemma float_width_Ok s d half f :
  cast_value half s d = Some f ->
  float_width s = Ok (cast_width s) /\ float_width d = Ok (cast_width d).
Proof. by destruct s, d. Qed.

(** ** Chunks *)

(** Whole chunks of elements [m] to [m + k] of a buffer. *)
Definition block (w m k : N) (bs : bytes) : bytes :=
  take (N.to_nat (k * w)) (drop (N.to_nat (m * w)) bs).

Lemma block_element w m k i bs :
  i < k -> element w i (block w m k bs) = element w (m + i) bs.
Proof.
  intros Hi. unfold element, block. rewrite skipn_firstn_comm, firstn_firstn, drop_drop.
  f_equal; [nia|]. f_equal. nia.
Qed.

Lemma chunks_elements w n : forall fuel (bs : bytes),
  (0 < w)%nat -> length bs = (n * w)%nat -> (n <= fuel)%nat ->
  chunks fuel w bs = map (fun i => take w (drop (i * w) bs)) (seq 0 n).
Proof.
  induction n as [|n IH]; intros fuel bs Hw Hl Hf.
  - destruct bs; [|done]. destruct fuel; [done|]. simpl.
    by assert ((w <=? 0)%nat = false) as -> by (apply Nat.leb_gt; lia).
  - destruct fuel as [|fuel]; [lia|]. cbn [chunks].
    assert ((w <=? length bs)%nat = true) as -> by (apply Nat.leb_le; lia).
    rewrite IH by (rewrite ?length_drop; lia). cbn [seq map]. rewrite drop_0. f_equal.
    rewrite <-seq_shift, map_map. apply map_ext. intros i. by rewrite drop_drop.
Qed.

Lemma chunks_exact_block w m k bs :
  0 < w -> (m + k) * w <= blen bs ->
  chunks_exact w (block w m k bs) =
  map (fun i => element w (m + N.of_nat i) bs) (seq 0 (N.to_nat k)).
Proof.
  intros Hw Hb. unfold chunks_exact, blen in *.
  assert (length (block w m k bs) = N.to_nat k * N.to_nat w)%nat as Hl.
  { unfold block. rewrite length_take, length_drop. nia. }
  rewrite (chunks_elements _ (N.to_nat k)) by (rewrite ?Hl; nia).
  apply map_ext_in. intros i Hi%in_seq. rewrite <-(block_element _ m k) by lia.
  unfold element. by rewrite N2Nat.inj_mul, Nat2N.id.
Qed.

Lemma singletons_block m k bs :
  m + k <= blen bs ->
  map (fun b => [b]) (block 1 m k bs) = map (fun i => element 1 (m + N.of_nat i) bs) (seq 0 (N.to_nat k)).
Proof.
  intros Hb. rewrite <-chunks_exact_block by lia. unfold chunks_exact. change (N.to_nat 1) with 1%nat.
  generalize (block 1 m k bs) as l. intros l. clear Hb.
  assert (forall fuel, (length l <= fuel)%nat -> map (fun b => [b]) l = chunks fuel 1 l) as H; [|by apply H].
  induction l as [|b l IH]; intros [|fuel] Hf; simpl in *; [done|done|lia|].
  rewrite drop_0, <-IH by lia. done.
Qed.

(** ** The writer *)

Lemma write_zipped_all write (h : bytes -> bytes) sources w : forall output,
  length output = (length sources * w)%nat ->
  Forall (fun src => forall target, length target = w -> write src target = Ok (h src)) sources ->
  write_zipped write sources w output = Ok (concat (map h sources)).
Proof.
  induction sources as [|src sources IH]; intros output Hl Hs; cbn [write_zipped map concat].
  { by destruct output. }
  apply Forall_cons in Hs as [Hsrc Hs]. simpl in Hl.
  assert ((w <=? length output)%nat = true) as -> by (apply Nat.leb_le; lia).
  rewrite Hsrc by (rewrite length_take; lia). cbn [mbind result_bind].
  by rewrite IH by (rewrite ?length_drop; lia || done).
Qed.

(** The converted elements [m] to [m + k]. *)
Definition cast_cells (f : N -> N) (s d : DType) (source : bytes) (m k : N) : list bytes :=
  map (fun i => cast_scalar f d (element (cast_width s) (m + N.of_nat i) source)) (seq 0 (N.to_nat k)).

Lemma cast_elements_add f s d source m k :
  cast_elements f s d source (N.to_nat (m + k)) =
  cast_elements f s d source (N.to_nat m) ++ concat (cast_cells f s d source m k).
Proof.
  unfold cast_elements, cast_cells. rewrite N2Nat.inj_add, seq_app, map_app, concat_app. do 2 f_equal.
  replace (0 + N.to_nat m)%nat with (N.to_nat m + 0)%nat by lia. rewrite <-fmap_add_seq. change (?h <$> ?l) with (map h l). rewrite map_map. apply map_ext. intros i.
  do 2 f_equal. lia.
Qed.

Lemma write_f32_Ok target v : length target = 4%nat -> write_f32 target v = Ok (to_le_bytes 4 v).
Proof. destruct target as [|? [|? [|? [|? []]]]]; done. Qed.
Lemma write_u16_Ok target v : length target = 2%nat -> write_u16 target v = Ok (to_le_bytes 2 v).
Proof. destruct target as [|? [|? []]]; done. Qed.
Lemma read_f32_Ok bs : length bs = 4%nat -> read_f32 bs = Ok (from_le_bytes bs).
Proof. destruct bs as [|? [|? [|? [|? []]]]]; done. Qed.
Lemma read_u16_Ok bs : length bs = 2%nat -> read_u16 bs = Ok (from_le_bytes bs).
Proof. destruct bs as [|? [|? []]]; done. Qed.
Lemma read_f32_exact_Ok bs : length bs = 4%nat -> read_f32_exact bs = Ok (from_le_bytes bs).
Proof. destruct bs as [|? [|? [|? [|? []]]]]; done. Qed.
Lemma read_u16_exact_Ok bs : length bs = 2%nat -> read_u16_exact bs = Ok (from_le_bytes bs).
Proof. destruct bs as [|? [|? []]]; done. Qed.
Lemma read_u8_Ok bs :
  length bs = 1%nat ->
  (b ← index bs 0; mret (to_le_bytes 4 (f32_from_u8 (Byte.to_N b)))) =
  Ok (to_le_bytes 4 (f32_from_u8 (from_le_bytes bs))).
Proof.
  destruct bs as [|b []]; try done. intros _. cbn [from_le_bytes]. by rewrite N.add_0_r.
Qed.

Ltac solve_write :=
  intros src target Hsl Htl; cbn beta;
  rewrite ?read_f32_Ok, ?read_u16_Ok by exact Hsl; cbn [mbind result_bind];
  (apply write_f32_Ok || apply write_u16_Ok); exact Htl.

Section Blocks.
Context (s d : DType) (f : N -> N).
Context (source : bytes) (n : N) (Hsource : blen source = n * cast_width s).

Lemma block_elements_length m k i :
  m + k <= n -> (i < N.to_nat k)%nat ->
  length (element (cast_width s) (m + N.of_nat i) source) = N.to_nat (cast_width s).
Proof using Hsource. intros Hm Hi. apply element_length. rewrite Hsource. nia. Qed.

(** The chunks of a block, as its elements. *)
Definition block_chunks (m k : N) : list bytes :=
  map (fun i => element (cast_width s) (m + N.of_nat i) source) (seq 0 (N.to_nat k)).

Lemma block_chunks_length m k :
  m + k <= n -> Forall (fun src => length src = N.to_nat (cast_width s)) (block_chunks m k).
Proof using Hsource.
  intros Hm. apply Forall_forall. intros x Hx.
  apply list_elem_of_In, in_map_iff in Hx as (i & <- & Hi%in_seq).
  apply (block_elements_length m k); lia.
Qed.

Lemma cast_cells_chunks m k : cast_cells f s d source m k = map (cast_scalar f d) (block_chunks m k).
Proof using Type. unfold cast_cells, block_chunks. by rewrite map_map. Qed.

Lemma write_block (write : bytes -> bytes -> result bytes) m k output :
  m + k <= n -> length output = (N.to_nat k * N.to_nat (cast_width d))%nat ->
  (forall src target, length src = N.to_nat (cast_width s) -> length target = N.to_nat (cast_width d) ->
     write src target = Ok (cast_scalar f d src)) ->
  write_zipped write (block_chunks m k) (N.to_nat (cast_width d)) output =
  Ok (concat (cast_cells f s d source m k)).
Proof using Hsource.
  intros Hm Hl Hw. rewrite cast_cells_chunks. apply write_zipped_all.
  - unfold block_chunks. by rewrite length_map, length_seq.
  - eapply Forall_impl; [by apply block_chunks_length|]. intros src Hsrc target Ht. by apply Hw.
Qed.

End Blocks.

Lemma cast_float_block_spec half s d f source n m k output :
  cast_value half s d = Some f -> blen source = n * cast_width s ->
  m + k <= n -> length output = (N.to_nat k * N.to_nat (cast_width d))%nat ->
  cast_float_block half s (block (cast_width s) m k source) d output =
  Ok (concat (cast_cells f s d source m k)).
Proof.
  intros Hf Hsource Hm Hl. pose proof (cast_width_pos _ _ _ _ Hf) as [Hs Hd].
  assert (block_chunks s source m k = chunks_exact (cast_width s) (block (cast_width s) m k source)) as Hc
    by (by rewrite chunks_exact_block by (rewrite ?Hsource; nia)).
  destruct s, d; try done; injection Hf as <-; unfold cast_float_block;
    try (rewrite singletons_block by (change (cast_width U8) with 1 in *; lia);
         change 1 with (cast_width U8); fold (block_chunks U8 source m k));
    lazymatch goal with
    | |- _ = Ok (concat (cast_cells ?f ?s ?d _ _ _)) =>
        try (change (chunks_exact _ ?b) with (chunks_exact (cast_width s) b); rewrite <-Hc);
        apply (write_block s d f source n Hsource)
    end; try done; solve_write.
Qed.

(** ** Rounds *)

Lemma round_bounds n i :
  i < cast_rounds n ->
  i * CAST_BLOCK_ELEMENTS < n /\
  i * CAST_BLOCK_ELEMENTS + N.min CAST_BLOCK_ELEMENTS (n - i * CAST_BLOCK_ELEMENTS) =
    N.min ((i + 1) * CAST_BLOCK_ELEMENTS) n.
Proof.
  unfold cast_rounds. set (B := CAST_BLOCK_ELEMENTS). assert (0 < B) as HB by done. clearbody B. intros Hi.
  pose proof (N.div_mod (n + B - 1) B ltac:(lia)) as Hd. revert Hi Hd.
  generalize ((n + B - 1) / B) as q, ((n + B - 1) mod B) as r. intros q r Hi Hd.
  assert ((i + 1) * B <= q * B) by (apply N.mul_le_mono_r; lia). lia.
Qed.

Lemma rounds_cover n : N.min (cast_rounds n * CAST_BLOCK_ELEMENTS) n = n.
Proof.
  unfold cast_rounds. set (B := CAST_BLOCK_ELEMENTS). assert (0 < B) as HB by done. clearbody B.
  pose proof (N.div_mod (n + B - 1) B ltac:(lia)) as Hd.
  pose proof (N.mod_lt (n + B - 1) B ltac:(lia)) as Hr. revert Hr Hd.
  generalize ((n + B - 1) / B) as q, ((n + B - 1) mod B) as r. intros q r Hr Hd. lia.
Qed.

Lemma block_range_Ok m k w :
  (m + k) * w <= u64_MAX -> block_range m k w = Ok (m * w, m * w + k * w).
Proof.
  intros H. unfold block_range. rewrite !checked_mul_ok by lia. cbn.
  by rewrite checked_add_ok by lia.
Qed.

Lemma get_range_block m k w bs :
  (m + k) * w <= blen bs -> get_range bs (m * w, m * w + k * w) = Some (block w m k bs).
Proof.
  intros H. unfold get_range, block. cbn [fst snd].
  assert ((m * w <=? m * w + k * w) = true) as -> by (apply N.leb_le; lia).
  assert ((m * w + k * w <=? blen bs) = true) as -> by (apply N.leb_le; lia).
  cbn [andb]. by replace (m * w + k * w - m * w) with (k * w) by lia.
Qed.

Lemma validate_float_cast_Ok half s d f source n output_len :
  cast_value half s d = Some f -> blen source = n * cast_width s ->
  output_len = n * cast_width d -> output_len <= u64_MAX ->
  validate_float_cast s source d output_len = Ok (cast_width s, cast_width d, n).
Proof.
  intros Hf Hs -> Hl. pose proof (cast_width_pos _ _ _ _ Hf) as [Hws _].
  destruct (float_width_Ok _ _ _ _ Hf) as [Es Ed]. unfold validate_float_cast.
  rewrite Es, Ed. cbn [mbind result_bind]. rewrite Hs, N.Div0.mod_mul, N.div_mul by lia.
  cbn [N.eqb negb reject mbind result_bind]. rewrite checked_mul_ok by done.
  cbn [ok_or mbind result_bind]. rewrite N.eqb_refl. done.
Qed.

Section Rounds.
Context (half : HalfConversions) (s d : DType) (f : N -> N) (source : bytes) (n : N).
Context (Hf : cast_value half s d = Some f) (Hsource : blen source = n * cast_width s).
Context (Hfit : n * cast_width s <= u64_MAX) (Hfit' : n * cast_width d <= u64_MAX).

Lemma write_round m k (out output : bytes) :
  m + k <= n -> blen output = n * cast_width d ->
  out = cast_elements f s d source (N.to_nat m) ++ drop (N.to_nat (m * cast_width d)) output ->
  (source_range ← block_range m k (cast_width s);
   target_range ← block_range m k (cast_width d);
   source_block ← ok_or (get_range source source_range) Integrity;
   output_block ← ok_or (get_range out target_range) Integrity;
   written ← cast_float_block half s source_block d output_block;
   copy_from_slice out target_range written) =
  Ok (cast_elements f s d source (N.to_nat (m + k)) ++
      drop (N.to_nat ((m + k) * cast_width d)) output).
Proof using All.
  intros Hm Ho ->. set (A := cast_elements _ _ _ _ (N.to_nat m)).
  assert (length A = N.to_nat (m * cast_width d)) as HA.
  { unfold A. rewrite cast_elements_length. lia. }
  assert (blen (A ++ drop (N.to_nat (m * cast_width d)) output) = n * cast_width d) as Hout.
  { unfold blen in *. rewrite length_app, length_drop, HA. nia. }
  rewrite !block_range_Ok by nia. cbn [mbind result_bind].
  rewrite get_range_block by nia. cbn [ok_or mbind result_bind].
  rewrite get_range_block by nia. cbn [ok_or mbind result_bind].
  rewrite (cast_float_block_spec half s d f source n) by
    (try done; unfold block, blen in *; rewrite length_take, length_drop; nia).
  cbn [mbind result_bind]. unfold copy_from_slice. cbn [fst snd].
  set (W := concat _). assert (length W = N.to_nat (k * cast_width d)) as HW.
  { unfold W, cast_cells. rewrite (concat_uniform_length _ (N.to_nat (cast_width d))).
    - rewrite length_map, length_seq. lia.
    - apply Forall_forall. intros x Hx. apply list_elem_of_In, in_map_iff in Hx as (i & <- & _).
      apply cast_scalar_length. }
  assert ((m * cast_width d + k * cast_width d - m * cast_width d =? blen W) = true) as ->.
  { apply N.eqb_eq. unfold blen. lia. }
  rewrite list_inserts_split by (unfold blen in *; nia).
  rewrite <-HA, take_app_length, cast_elements_add. fold A W. rewrite <-app_assoc. do 3 f_equal.
  rewrite drop_app_ge by lia. rewrite drop_drop. f_equal. lia.
Qed.

(** The writer computes every element of the output. *)
Lemma cast_float_bytes_spec output :
  blen output = n * cast_width d ->
  succeeds (cast_float_bytes half s source d output)
    (fun out => out = cast_elements f s d source (N.to_nat n)).
Proof using All.
  intros Ho. unfold cast_float_bytes.
  run_step; [by eapply validate_float_cast_Ok; try done; lia|]. cbn beta iota.
  eapply succeeds_then.
  - apply (succeeds_for_range (fun i out =>
      out = cast_elements f s d source (N.to_nat (N.min (i * CAST_BLOCK_ELEMENTS) n)) ++
            drop (N.to_nat (N.min (i * CAST_BLOCK_ELEMENTS) n * cast_width d)) output)); [lia| |].
    { by rewrite N.mul_0_l, N.min_0_l. }
    intros i out [_ Hi] Hout. destruct (round_bounds n i Hi) as [Hlt Hnext].
    rewrite N.min_l in Hout by lia. cbv zeta. run_step. eapply succeeds_lift.
    + apply write_round; [lia|done|exact Hout].
    + cbn beta. by rewrite Hnext.
  - intros out ->. run_step. run_step. rewrite rounds_cover, drop_ge, app_nil_r; [done|].
    unfold blen in Ho. lia.
Qed.

Lemma append_round convert m k (acc : list bytes) :
  m + k <= n ->
  (forall src, length src = N.to_nat (cast_width s) -> convert src = Ok (cast_scalar f d src)) ->
  (source_range ← block_range m k (cast_width s);
   source_block ← ok_or (get_range source source_range) Integrity;
   converted ← mapM convert (chunks_exact (cast_width s) source_block);
   mret (acc ++ converted)) = Ok (acc ++ cast_cells f s d source m k).
Proof using All.
  intros Hm Hc. pose proof (cast_width_pos _ _ _ _ Hf) as [Hs Hd].
  rewrite block_range_Ok by nia. cbn [mbind result_bind].
  rewrite get_range_block by nia. cbn [ok_or mbind result_bind].
  rewrite chunks_exact_block by nia. fold (block_chunks s source m k).
  assert (mapM convert (block_chunks s source m k) = Ok (cast_cells f s d source m k)) as ->; [|done].
  rewrite cast_cells_chunks. apply mapM_Ok. apply Forall2_fmap_r, Forall_Forall2_diag.
  eapply Forall_impl; [by apply (block_chunks_length s source n Hsource)|]. exact Hc.
Qed.

Lemma collect_cast_blocks_spec convert target_width :
  target_width = cast_width d -> n * cast_width d <= isize_MAX ->
  (forall src, length src = N.to_nat (cast_width s) -> convert src = Ok (cast_scalar f d src)) ->
  succeeds (collect_cast_blocks target_width source (cast_width s) n (n * cast_width d) convert)
    (fun out => out = cast_elements f s d source (N.to_nat n)).
Proof using All.
  intros -> Hle Hc. unfold collect_cast_blocks. run_step; [done|]. run_step.
  eapply succeeds_then.
  - apply (succeeds_for_range (fun i acc =>
      concat acc = cast_elements f s d source (N.to_nat (N.min (i * CAST_BLOCK_ELEMENTS) n)))); [lia| |].
    { by rewrite N.mul_0_l, N.min_0_l. }
    intros i acc [_ Hi] Hacc. destruct (round_bounds n i Hi) as [Hlt Hnext].
    rewrite N.min_l in Hacc by lia. cbv zeta. run_step. eapply succeeds_lift.
    + apply append_round; [lia|done].
    + cbn beta. by rewrite concat_app, Hacc, <-cast_elements_add, Hnext.
  - intros acc Hacc. rewrite rounds_cover in Hacc. cbn beta in Hacc. run_step. run_step.
    + assert (blen (concat acc) = n * cast_width d) as ->; [|by rewrite N.eqb_refl].
      rewrite Hacc. unfold blen. rewrite cast_elements_length. lia.
    + by run_step.
Qed.
End Rounds.

(** The builder computes the same output. *)
Lemma cast_float_bytes_owned_spec half s d f source n :
  cast_value half s d = Some f -> blen source = n * cast_width s ->
  n * cast_width s <= u64_MAX -> n * cast_width d <= isize_MAX ->
  succeeds (cast_float_bytes_owned half s source d (n * cast_width d))
    (fun out => out = cast_elements f s d source (N.to_nat n)).
Proof.
  intros Hf Hs Hfit Hle.
  assert (n * cast_width d <= u64_MAX) as Hfit' by (etransitivity; [exact Hle|by vm_compute]).
  unfold cast_float_bytes_owned. run_step; [by eapply validate_float_cast_Ok|]. cbn beta iota.
  pose proof (collect_cast_blocks_spec half s d f source n Hf Hs Hfit Hfit') as Hc.
  destruct s, d; try done; injection Hf as <-; apply Hc; try done; intros src Hsrc;
    rewrite ?read_f32_exact_Ok, ?read_u16_exact_Ok by exact Hsrc; try done; by apply read_u8_Ok.
Qed.

(** * Correctness of the preparation engine and of the built-in provider

    The engine returns a buffer of exactly the expected size, whatever the
    provider does, and with the built-in provider it is an instance of the
    interface [Prepares] the executor relies on. *)

(** ** Sizes *)

(** Both byte lengths of an inferred preparation are the ones the provider
    recomputes. *)
Lemma infer_prepare_lengths t fin fout :
  facts_wf fin -> infer_prepare t fin = Ok [fout] ->
  byte_len (dtype (source (transform t))) (logical_shape fin) = Ok (facts_byte_len fin) /\
  byte_len (dtype (target (transform t))) (logical_shape fin) = Ok (output_size t) /\
  is_contiguous (layout (source (transform t))) = true /\
  is_contiguous (layout (target (transform t))) = true.
Proof.
  intros Hwf H. destruct (infer_prepare_Ok _ _ _ H) as (Hc & Hsrc & _).
  unfold infer_prepare in H. do 2 apply bind_Ok in H as (? & _ & H).
  apply bind_Ok in H as (? & Hl%reject_Ok & H). apply bind_Ok in H as (n & Hn & H).
  apply bind_Ok in H as (? & He%reject_Ok & _). bool_to_prop. subst n.
  apply is_canonical_contiguous_true in Hc as (_ & Hss & _).
  split_and!; [|done|by destruct (is_contiguous _)..].
  unfold byte_len in Hn |- *. apply bind_Ok in Hn as (e & He & _).
  rewrite He. apply try_fold_mul_Ok in He as [-> _]. rewrite N.mul_1_l. cbn [mbind result_bind].
  pose proof (wf_bytes_fit fin Hwf) as Hfit. rewrite (wf_bytes fin Hwf) in Hfit |- *.
  rewrite Hss in Hfit |- *. unfold width, facts_dtype in Hfit |- *. rewrite Hsrc.
  by rewrite checked_mul_ok.
Qed.

(** ** The built-in provider *)

Section Builtin.
Context (half : HalfConversions).

(** The transforms the built-in provider accepts. *)
Definition contiguous_supported (t : PlannedTransform) : Prop :=
  builtin_contiguous_implementation = Ok (implementation (transform t)) /\
  transform_scratch_bytes t = 0 /\
  (dtype (source (transform t)) = dtype (target (transform t)) \/
   exists f, cast_value half (dtype (source (transform t))) (dtype (target (transform t))) = Some f).

Definition contiguous_meaning (t : PlannedTransform) (T : tensor) : tensor :=
  let s := dtype (source (transform t)) in
  let d := dtype (target (transform t)) in
  if decide (s = d) then T else
  match cast_value half s d with
  | Some f => fun c => cast_scalar f d (T c)
  | None => T
  end.

Lemma cast_value_accepted s d f :
  cast_value half s d = Some f -> s <> d /\
  (is_builtin_float s && is_builtin_float d) || (bool_decide (s = U8) && bool_decide (d = F32)) = true.
Proof. by destruct s, d. Qed.

(** The converted buffer stores the converted tensor. *)
Lemma cast_represents fin fout f bs T :
  facts_wf fin -> facts_wf fout -> is_canonical_contiguous fin = true ->
  is_canonical_contiguous fout = true -> logical_shape fout = logical_shape fin ->
  represents fin bs T ->
  represents fout (cast_elements f (facts_dtype fin) (facts_dtype fout) bs
                     (N.to_nat (prodN (logical_shape fin))))
    (fun c => cast_scalar f (facts_dtype fout) (T c)).
Proof.
  intros Hwi Hwo Hi Ho Hsh [Hl HT].
  apply is_canonical_contiguous_true in Hi as (_ & Hiss & _ & Hist & _).
  apply is_canonical_contiguous_true in Ho as (_ & Hoss & _ & Host & _). split.
  - unfold blen. rewrite cast_elements_length, (wf_bytes fout Hwo), Hoss, Hsh.
    unfold width, cast_width. lia.
  - intros c Hc. rewrite Hsh in Hc. pose proof (encode_bound _ _ Hc) as Hb.
    rewrite <-HT by done. unfold offset_of. rewrite Host, Hist, Hsh. fold (encode (logical_shape fin) c).
    rewrite <-(N2Nat.id (encode _ _)) at 1. unfold width. fold (cast_width (facts_dtype fout)).
    rewrite cast_elements_element by lia. by rewrite N2Nat.id.
Qed.

Lemma engine_resolves e t :
  engine_with_builtins half = Ok e ->
  builtin_contiguous_implementation = Ok (implementation (transform t)) ->
  resolve (providers e) (implementation (transform t)) =
  Ok {| provider_implementation := implementation (transform t);
        provider_validate := contiguous_validate (implementation (transform t));
        provider_prepare_into := contiguous_prepare_into half;
        provider_prepare_allocated := contiguous_prepare_allocated half |}.
Proof.
  unfold engine_with_builtins, registry_with_builtins, ContiguousProvider_new, register_shared, resolve.
  intros H Hb. rewrite Hb in H. cbn [mbind result_bind mret result_ret provider_implementation] in H.
  rewrite lookup_empty, bool_decide_eq_false_2 in H by (intros []; done).
  injection H as <-. cbn [providers]. by rewrite lookup_insert_eq.
Qed.

(** The engine with the built-in provider exists. *)
Lemma engine_with_builtins_total : exists e, engine_with_builtins half = Ok e.
Proof.
  assert (exists i, builtin_contiguous_implementation = Ok i) as [i Hi] by (eexists; vm_compute; reflexivity).
  unfold engine_with_builtins, registry_with_builtins, ContiguousProvider_new, register_shared.
  rewrite Hi. cbn [mbind result_bind mret result_ret provider_implementation].
  rewrite lookup_empty, bool_decide_eq_false_2 by (intros []; done). eauto.
Qed.

(** Validation accepts exactly what inference declared. *)
Lemma contiguous_validate_spec t fin fout v own :
  own = implementation (transform t) -> contiguous_supported t -> facts_wf fin ->
  infer_prepare t fin = Ok [fout] -> view_len v = facts_byte_len fin ->
  succeeds (contiguous_validate own (chain_request t (logical_shape fin) v))
    (fun strategy => strategy =
       if decide (dtype (source (transform t)) = dtype (target (transform t)))
       then ReuseSource else Allocate (output_size t) 0).
Proof.
  intros -> (_ & _ & Hd) Hwf Hinf Hv.
  destruct (infer_prepare_lengths _ _ _ Hwf Hinf) as (Hs & Ht & Hcs & Hct).
  unfold contiguous_validate, chain_request. cbn [with_expected_scratch_bytes PrepareRequest_new
    request_transform request_shape request_source expected_output_bytes expected_scratch_bytes].
  cbv zeta. run_step. run_step; [by rewrite bool_decide_eq_false_2 by (intros []; done)|].
  run_step; [by rewrite Hcs, Hct|]. run_step. run_step; [exact Hs|].
  run_step; [by rewrite Hv, N.eqb_refl|]. run_step. run_step; [exact Ht|].
  run_step; [by rewrite N.eqb_refl|].
  destruct (decide (dtype (source (transform t)) = dtype (target (transform t)))) as [E|E].
  { rewrite bool_decide_eq_true_2 by done. by run_step. }
  rewrite bool_decide_eq_false_2 by done. destruct Hd as [Hd|[f Hf]]; [done|].
  destruct (cast_value_accepted _ _ _ Hf) as [_ ->]. by run_step.
Qed.

(** A tensor of the same dtype is stored by the same bytes. *)
Lemma same_dtype_represents fin fout bs T :
  facts_wf fin -> facts_wf fout -> is_canonical_contiguous fin = true ->
  is_canonical_contiguous fout = true -> logical_shape fout = logical_shape fin ->
  facts_dtype fout = facts_dtype fin -> represents fin bs T -> represents fout bs T.
Proof.
  intros Hwi Hwo Hi Ho Hsh Hd [Hl HT].
  apply is_canonical_contiguous_true in Hi as (_ & Hiss & _ & Hist & _).
  apply is_canonical_contiguous_true in Ho as (_ & Hoss & _ & Host & _).
  assert (width fout = width fin) as Hw by (unfold width; by rewrite Hd). split.
  - by rewrite Hl, (wf_bytes fin Hwi), (wf_bytes fout Hwo), Hiss, Hoss, Hsh, Hw.
  - intros c Hc. rewrite Hsh in Hc. rewrite <-HT by done. unfold offset_of.
    by rewrite Host, Hist, Hsh, Hw.
Qed.

Lemma contiguous_prepare_allocated_spec request s d f n :
  dtype (source (request_transform request)) = s -> dtype (target (request_transform request)) = d ->
  cast_value half s d = Some f -> blen (as_slice (request_source request)) = n * cast_width s ->
  n * cast_width s <= u64_MAX -> expected_output_bytes request = n * cast_width d ->
  n * cast_width d <= isize_MAX -> expected_scratch_bytes request = 0 ->
  succeeds (contiguous_prepare_allocated half request (n * cast_width d) 0)
    (fun out => out = cast_elements f s d (as_slice (request_source request)) (N.to_nat n)).
Proof.
  intros <- <- Hf Hs Hfit He Hle Hz. unfold contiguous_prepare_allocated. rewrite He, Hz.
  run_step. run_step.
  { apply usize_try_from_Ok. split; [reflexivity|]. etransitivity; [exact Hle|by vm_compute]. }
  run_step; [by rewrite N.eqb_refl|]. run_step; [done|].
  by apply cast_float_bytes_owned_spec.
Qed.

(** The provided [prepare_allocated] over [prepare_into] builds the same
    buffer as the override. *)
Lemma default_prepare_allocated_spec request s d f n :
  dtype (source (request_transform request)) = s -> dtype (target (request_transform request)) = d ->
  cast_value half s d = Some f -> blen (as_slice (request_source request)) = n * cast_width s ->
  n * cast_width s <= u64_MAX -> expected_output_bytes request = n * cast_width d ->
  n * cast_width d <= isize_MAX -> expected_scratch_bytes request = 0 ->
  succeeds (default_prepare_allocated (contiguous_prepare_into half) request (n * cast_width d) 0)
    (fun out => out = cast_elements f s d (as_slice (request_source request)) (N.to_nat n)).
Proof.
  intros <- <- Hf Hs Hfit He Hle Hz. unfold default_prepare_allocated, allocate_zeroed.
  assert (n * cast_width (dtype (target (request_transform request))) <= u64_MAX) as Hu
    by (etransitivity; [exact Hle|by vm_compute]).
  run_step. apply succeeds_bind. run_step; [done|]. run_step. run_step. apply succeeds_bind.
  run_step; [done|]. run_step.
  eapply (succeeds_then _ _ (fun x => x.1 = cast_elements f _ _ (as_slice (request_source request))
                                              (N.to_nat n))).
  - unfold contiguous_prepare_into. rewrite He, Hz. run_step. run_step.
    { apply usize_try_from_Ok. split; [reflexivity|done]. }
    run_step.
    { unfold blen. by rewrite length_replicate, N2Nat.id, N.eqb_refl. }
    run_step; [done|]. eapply succeeds_then.
    + apply (cast_float_bytes_spec half _ _ f _ n); try done.
      unfold blen. by rewrite length_replicate, N2Nat.id.
    + intros out ->. by run_step.
  - intros [out scratch] Hx. run_step. exact Hx.
Qed.

Lemma builtin_engine_prepares e :
  engine_with_builtins half = Ok e -> Prepares e contiguous_supported contiguous_meaning.
Proof.
  intros He. constructor. intros t fin fout v T Hsup Hwf Hinf Hle Hvw HT.
  destruct (infer_prepare_Ok _ _ _ Hinf) as (Hci & Hsrc & f' & [= <-] & Hwo & Hrep & Hsh & Hco & Hlen).
  destruct (infer_prepare_lengths _ _ _ Hwf Hinf) as (Hs & Ht & _ & _).
  pose proof (represents_view_len _ _ _ Hvw HT) as Hvl. pose proof Hsup as (Himpl & Hscratch & Hd).
  unfold prepare_with_cancellation. run_step. run_step; [by apply (engine_resolves e t)|].
  eapply succeeds_then; [by eapply contiguous_validate_spec|]. intros strategy ->. cbn beta iota.
  run_step. unfold contiguous_meaning.
  assert (facts_dtype fin = dtype (source (transform t))) as Hsd by (unfold facts_dtype; by rewrite Hsrc).
  assert (facts_dtype fout = dtype (target (transform t))) as Htd by (unfold facts_dtype; by rewrite Hrep).
  destruct (decide (dtype (source (transform t)) = dtype (target (transform t)))) as [E|E].
  - assert (facts_byte_len fin = output_size t) as Hsize by (rewrite E in Hs; congruence).
    run_step.
    { unfold validate_reused_output, chain_request. cbn. by rewrite Hscratch, Hvl, Hsize, N.eqb_refl. }
    run_step. run_step. cbn. split; [done|]. apply (same_dtype_represents fin); try done. congruence.
  - destruct Hd as [Hd|[f Hf]]; [done|]. rewrite Hf.
    set (n := prodN (logical_shape fin)).
    pose proof (byte_len_Ok _ _ _ Hs) as (Hs1 & Hs2 & _). pose proof (byte_len_Ok _ _ _ Ht) as (Ht1 & _ & _).
    fold (cast_width (dtype (source (transform t)))) in Hs1.
    fold (cast_width (dtype (target (transform t)))) in Ht1. fold n in Hs1, Ht1.
    run_step.
    { unfold validate_allocated_storage, chain_request. cbn. rewrite Hscratch, N.eqb_refl. cbn.
      rewrite (proj2 (usize_try_from_Ok (output_size t) (output_size t))); [reflexivity|].
      split; [done|]. rewrite <-Hlen. etransitivity; [exact Hle|by vm_compute]. }
    cbn beta iota. run_step. cbn [provider_prepare_allocated]. rewrite Ht1. eapply succeeds_then.
    { eapply (contiguous_prepare_allocated_spec _ (dtype (source (transform t)))
        (dtype (target (transform t))) f n); try done.
      - cbn. by rewrite (proj1 HT).
      - by rewrite <-Hs1.
      - by rewrite <-Ht1, <-Hlen. }
    intros out ->. run_step. run_step.
    { unfold blen. rewrite cast_elements_length.
      assert (N.of_nat (N.to_nat n * N.to_nat (cast_width (dtype (target (transform t))))) =
              n * cast_width (dtype (target (transform t)))) as -> by lia. by rewrite N.eqb_refl. }
    run_step. run_step. split; [apply view_from_boxed_wf|]. rewrite view_from_boxed_slice.
    rewrite <-Hsd, <-Htd. by apply cast_represents.
Qed.
End Builtin.

(** ** The engine with any providers *)

(** Whatever the provider does, a result has the expected size. *)
Lemma prepare_result_size engine request env t out t' :
  view_wf (request_source request) ->
  prepare_with_cancellation engine request env t = Ok (out, t') ->
  view_wf out /\ view_len out = expected_output_bytes request.
Proof.
  intros Hwf H. unfold prepare_with_cancellation in H.
  apply run_bind_Ok in H as (? & ? & _ & H). apply run_bind_Ok in H as (p & ? & _ & H).
  apply run_bind_Ok in H as (strategy & ? & _ & H). apply run_bind_Ok in H as (? & ? & _ & H).
  destruct strategy as [|output_bytes scratch_bytes].
  - apply run_bind_Ok in H as (? & ? & [Hr ->]%run_lift_Ok & H).
    apply run_bind_Ok in H as (? & ? & _ & H). injection H as <- _. split; [done|].
    unfold validate_reused_output in Hr. apply bind_Ok in Hr as (? & _ & Hr%reject_Ok).
    apply negb_false_iff in Hr. by bool_to_prop.
  - apply run_bind_Ok in H as ([output_len scratch_len] & ? & [Hv ->]%run_lift_Ok & H).
    apply run_bind_Ok in H as (? & ? & _ & H). apply run_bind_Ok in H as (output & ? & _ & H).
    apply run_bind_Ok in H as (? & ? & _ & H).
    apply run_bind_Ok in H as (? & ? & [Hl%reject_Ok ->]%run_lift_Ok & H).
    apply run_bind_Ok in H as (address & ? & _ & H). injection H as <- _.
    split; [apply view_from_boxed_wf|]. unfold validate_allocated_storage in Hv.
    apply bind_Ok in Hv as (? & Ho%reject_Ok & Hv). apply bind_Ok in Hv as (? & _ & Hv).
    apply bind_Ok in Hv as (n & Hn & Hv). apply bind_Ok in Hv as (? & _ & [= <- <-]).
    apply usize_try_from_Ok in Hn as [-> _]. apply negb_false_iff in Hl, Ho. bool_to_prop.
    unfold view_len, view_from_boxed. cbn. unfold blen in Hl. lia.
Qed.

Lemma prepare_unregistered engine request :
  providers engine !! implementation (request_transform request) = None ->
  fails (prepare_with_cancellation engine request) Unsupported.
Proof.
  intros H. unfold prepare_with_cancellation. eapply fails_then.
  { apply (succeeds_check (fun _ => True)). done. }
  intros _ _. apply fails_bind. unfold resolve. rewrite H. by apply wp_lift.
Qed.

(** ** Chains *)

(** Consecutive preparations, each inferred from the facts of the last. *)
Inductive chain_inferred (supported : PlannedTransform -> Prop)
  : TensorFacts -> list PlannedTransform -> TensorFacts -> Prop :=
  | chain_done f : chain_inferred supported f [] f
  | chain_step f g h t ts :
      supported t -> infer_prepare t f = Ok [g] -> facts_byte_len g <= isize_MAX ->
      chain_inferred supported g ts h -> chain_inferred supported f (t :: ts) h.

(** A chain computes the composition of its transforms. *)
Lemma prepare_chain_spec engine supported meaning `{!Prepares engine supported meaning} ts : forall f h v T,
  chain_inferred supported f ts h -> facts_wf f -> view_wf v -> represents f (as_slice v) T ->
  succeeds (prepare_chain_with_cancellation engine ts (logical_shape f) v)
    (fun out => view_wf out /\
       represents h (as_slice out) (foldl (fun T t => meaning t T) T ts)).
Proof.
  unfold prepare_chain_with_cancellation. intros f h v T Hc Hwf Hv HT.
  eapply succeeds_then; [|intros out Hout; run_step; run_step; exact Hout].
  revert v T Hv HT. induction Hc as [f|f g h t ts Hsup Hinf Hle _ IH]; intros v T Hv HT; simpl.
  { by run_step. }
  destruct (infer_prepare_Ok _ _ _ Hinf) as (_ & _ & g' & [= <-] & Hg & _ & Hsh & _).
  apply succeeds_bind. run_step. eapply succeeds_mono; [by eapply (prepares_outputs t f g)|].
  intros out [Hw Hout]. rewrite <-Hsh. by apply IH.
Qed.
