(* ===== verification/ExecSpecs.v ===== *)
(** * Correctness of the host executor

    [graph_tensors] is the meaning of a graph: the tensors of every node, in
    order. Executing a well-formed graph on buffers that store the input
    tensors returns a buffer that stores the meaning of the graph's output,
    while every live runtime value mirrors a live value of the accounting. *)

From S2P Require Import Prelude Errors Cancel Tensor Identity Representation Strides Facts Operation Kernels.
From S2P Require Import InferSpecs Semantics KernelSpecs Graph GraphSpecs Liveness LivenessSpecs Cast Prepare.
From S2P Require Import Exec NodeSpecs.
Local Open Scope N_scope.

(** ** The meaning of a graph *)

Definition lookup_tensor (inputs : list tensor) (nodes : list (list tensor)) (v : ValueRef)
  : option tensor :=
  match v with
  | Input i => inputs !! N.to_nat (input_ordinal i)
  | NodeOutput n o => Ts ← nodes !! N.to_nat (node_ordinal n); Ts !! N.to_nat (output_ordinal o)
  end.

Definition node_tensors (meaning : PlannedTransform -> tensor -> tensor) (g : OperationGraph)
    (inputs : list tensor) (earlier : list (list tensor)) (node : OperationNode) : list tensor :=
  sem_op meaning (node_operation node) (omap (graph_facts g) (node_inputs node))
    (node_outputs node) (omap (lookup_tensor inputs earlier) (node_inputs node)).

Definition graph_tensors (meaning : PlannedTransform -> tensor -> tensor) (g : OperationGraph)
    (inputs : list tensor) (nodes : list OperationNode) : list (list tensor) :=
  foldl (fun earlier node => earlier ++ [node_tensors meaning g inputs earlier node]) [] nodes.

(** The tensor of a value of the graph. *)
Definition value_tensor (meaning : PlannedTransform -> tensor -> tensor) (g : OperationGraph)
    (inputs : list tensor) : ValueRef -> option tensor :=
  lookup_tensor inputs (graph_tensors meaning g inputs (graph_nodes g)).

Definition node_facts (g : OperationGraph) (node : OperationNode) : list TensorFacts :=
  omap (graph_facts g) (node_inputs node).

(** The origins the static analysis expects of the outputs of a node. *)
Definition static_origin (g : OperationGraph) (node : OperationNode) (j : nat) : OutputOrigin :=
  match node_output_alias_input g node j with Some i => Alias i | None => Fresh end.

(** Runtime values and scheduled values agree on their allocations. *)
Definition mirror (s : LivenessSchedule) (rt : gmap ValueRef RuntimeValue) : Prop :=
  forall v, runtime_allocation <$> rt !! v = live_allocation <$> values s !! v.

(** No node runs a preparation provider. *)
Definition no_prepare (g : OperationGraph) : Prop :=
  Forall (fun node => is_prepare (node_operation node) = false) (graph_nodes g).

(** What execution needs beyond a well-formed graph. *)
Record graph_runnable (supported : PlannedTransform -> Prop) (g : OperationGraph) : Prop := {
  runnable_builtin : Forall (fun node =>
    builtin_implementation (node_operation node) = Ok (node_implementation node)) (graph_nodes g);
  runnable_supported : Forall (fun node => node_supported supported (node_operation node))
    (graph_nodes g);
  runnable_inputs : Forall (fun i => storable (input_facts i)) (graph_inputs g);
  runnable_outputs : Forall (fun node => Forall storable (node_outputs node)) (graph_nodes g)
}.

(** ** Evaluation *)

Lemma omap_Forall2 {A B} (h : A -> option B) l k :
  Forall2 (fun a b => h a = Some b) l k -> omap h l = k.
Proof. induction 1 as [|a b l k H _ IH]; [done|]. rewrite <-IH. cbn. by rewrite H. Qed.

Section Meaning.
Context (meaning : PlannedTransform -> tensor -> tensor) (g : OperationGraph) (ins : list tensor).

Lemma graph_tensors_length nodes : length (graph_tensors meaning g ins nodes) = length nodes.
Proof.
  induction nodes as [|node nodes IH] using rev_ind; [done|].
  unfold graph_tensors in *. rewrite foldl_snoc, !length_app, IH. done.
Qed.

Lemma graph_tensors_app nodes more :
  exists rest, graph_tensors meaning g ins (nodes ++ more) = graph_tensors meaning g ins nodes ++ rest.
Proof.
  induction more as [|node more IH] using rev_ind; [exists []; by rewrite !app_nil_r|].
  destruct IH as [rest IH]. unfold graph_tensors in *. rewrite app_assoc, foldl_snoc, IH.
  rewrite <-app_assoc. eauto.
Qed.

(** A value of the earlier nodes has its tensor before node [k] is evaluated. *)
Lemma lookup_tensor_earlier k v T :
  is_Some (lookup_facts (graph_inputs g) (take k (graph_nodes g)) v) ->
  value_tensor meaning g ins v = Some T ->
  lookup_tensor ins (graph_tensors meaning g ins (take k (graph_nodes g))) v = Some T.
Proof.
  intros [f Hf]. unfold value_tensor.
  destruct (graph_tensors_app (take k (graph_nodes g)) (drop k (graph_nodes g))) as [rest Hrest].
  rewrite take_drop in Hrest. rewrite Hrest. destruct v as [i|n o]; simpl in *; [done|].
  apply bind_Some in Hf as (node & Hn%lookup_lt_Some & _).
  by rewrite lookup_app_l by (by rewrite graph_tensors_length).
Qed.

Lemma node_tensors_lookup k node :
  graph_nodes g !! k = Some node ->
  graph_tensors meaning g ins (graph_nodes g) !! k =
  Some (node_tensors meaning g ins (graph_tensors meaning g ins (take k (graph_nodes g))) node).
Proof.
  intros Hk. destruct (graph_tensors_app (take (S k) (graph_nodes g)) (drop (S k) (graph_nodes g)))
    as [rest Hrest]. rewrite take_drop in Hrest. rewrite Hrest, (take_S_r _ _ _ Hk).
  unfold graph_tensors at 1. rewrite foldl_snoc. fold (graph_tensors meaning g ins (take k (graph_nodes g))).
  assert (k = length (graph_tensors meaning g ins (take k (graph_nodes g)))) as Hl.
  { rewrite graph_tensors_length, length_take_le; [done|]. apply lookup_lt_Some in Hk. lia. }
  rewrite <-app_assoc. by apply list_lookup_middle.
Qed.

(** The meaning of an output of node [k], from the meanings of its inputs. *)
Lemma output_tensor k node Ts j T :
  graph_nodes g !! k = Some node ->
  Forall (fun v => is_Some (lookup_facts (graph_inputs g) (take k (graph_nodes g)) v))
    (node_inputs node) ->
  Forall2 (fun v T => value_tensor meaning g ins v = Some T) (node_inputs node) Ts ->
  sem_op meaning (node_operation node) (node_facts g node) (node_outputs node) Ts !! j = Some T ->
  value_tensor meaning g ins (node_value (N.of_nat k) (N.of_nat j)) = Some T.
Proof.
  intros Hk Hearlier HTs Hj. unfold value_tensor, node_value. simpl. rewrite !Nat2N.id.
  rewrite (node_tensors_lookup k node Hk). simpl. unfold node_tensors.
  assert (omap (lookup_tensor ins (graph_tensors meaning g ins (take k (graph_nodes g))))
            (node_inputs node) = Ts) as ->; [|done].
  apply omap_Forall2. rewrite Forall_forall in Hearlier.
  apply Forall2_same_length_lookup_2; [by eapply Forall2_length|]. intros i v T' Hv HT'.
  apply lookup_tensor_earlier; [by eapply Hearlier, list_elem_of_lookup_2|].
  exact (Forall2_lookup_lr _ _ _ _ _ _ HTs Hv HT').
Qed.
End Meaning.

(** ** Runtime values mirror the schedule *)

Lemma mirror_Some s rt v : mirror s rt -> is_Some (rt !! v) <-> is_Some (values s !! v).
Proof.
  intros H. specialize (H v). destruct (rt !! v), (values s !! v); simpl in H; done.
Qed.

Lemma mirror_delete s rt s' v :
  mirror s rt -> values s' = delete v (values s) -> mirror s' (delete v rt).
Proof.
  intros H E w. rewrite E. destruct (decide (w = v)) as [->|Hne].
  - by rewrite !lookup_delete_eq.
  - by rewrite !lookup_delete_ne.
Qed.

Lemma remove_value_values s v s' :
  remove_value s v = Ok s' -> is_Some (values s !! v) /\ values s' = delete v (values s).
Proof.
  unfold remove_value. intros H. apply bind_Ok in H as (lv & Hlv%ok_or_Ok & H).
  split; [by exists lv|]. destruct (live_allocation lv) as [a|]; [|by injection H as <-].
  apply bind_Ok in H as (st & _ & H). apply bind_Ok in H as (n & _ & H).
  destruct (n =? 0); [|by injection H as <-]. by apply bind_Ok in H as (? & _ & [= <-]).
Qed.

Lemma consume_value_values s v s' last :
  consume_value s v = Ok (s', last) ->
  values s' = (if last then delete v (values s) else values s) /\
  (last = true -> is_Some (values s !! v)).
Proof.
  unfold consume_value. intros H. apply bind_Ok in H as (uses & _ & H).
  apply bind_Ok in H as (uses' & _ & H). destruct (uses' =? 0); [|by injection H as <- <-].
  apply bind_Ok in H as (s1 & [Hs Hv]%remove_value_values & [= <- <-]). auto.
Qed.

(** The executor drops a runtime value exactly when the accounting does. *)
Lemma consume_runtime_mirror inputs : forall s rt s',
  mirror s rt -> consume_inputs s inputs = Ok s' ->
  exists rt', consume_runtime_inputs inputs s rt = Ok (s', rt') /\ mirror s' rt' /\ rt' ⊆ rt.
Proof.
  unfold consume_inputs, consume_runtime_inputs.
  induction inputs as [|v inputs IH]; intros s rt s' Hm H; cbn [try_fold] in *.
  { injection H as <-. by exists rt. }
  apply bind_Ok in H as (s1 & H1 & H). apply bind_Ok in H1 as ([s2 last] & Hc & [= ->]).
  rewrite Hc. cbn [mbind result_bind]. apply consume_value_values in Hc as [Hv Hs]. destruct last.
  - destruct (proj2 (mirror_Some _ _ v Hm) (Hs eq_refl)) as [r Hr]. rewrite Hr. simpl.
    destruct (IH s1 (delete v rt) s') as (rt' & Hf & Hm' & Hsub); [by eapply mirror_delete|done|].
    exists rt'. split_and!; [done|done|]. etransitivity; [exact Hsub|apply delete_subseteq].
  - simpl. apply IH; [|done]. intros w. by rewrite Hv.
Qed.

Lemma remove_unused_mirror vs : forall s rt s',
  mirror s rt -> remove_unused s vs = Ok s' ->
  exists rt', remove_unused_runtime vs s rt = Ok (s', rt') /\ mirror s' rt' /\ rt' ⊆ rt.
Proof.
  unfold remove_unused, remove_unused_runtime.
  induction vs as [|v vs IH]; intros s rt s' Hm H; cbn [try_fold] in *.
  { injection H as <-. by exists rt. }
  apply bind_Ok in H as (s1 & H1 & H). destruct (uses_left s v =? 0).
  - rewrite H1. cbn [mbind result_bind]. apply remove_value_values in H1 as [Hs Hv].
    destruct (proj2 (mirror_Some _ _ v Hm) Hs) as [r Hr]. rewrite Hr. simpl.
    destruct (IH s1 (delete v rt) s') as (rt' & Hf & Hm' & Hsub); [by eapply mirror_delete|done|].
    exists rt'. split_and!; [done|done|]. etransitivity; [exact Hsub|apply delete_subseteq].
  - injection H1 as <-. cbn [mbind result_bind mret result_ret]. by apply IH.
Qed.

Lemma mirror_values s s' rt : mirror s rt -> values s' = values s -> mirror s' rt.
Proof. intros H E v. by rewrite E. Qed.

Lemma validate_outputs outs facts Ts :
  views_represent facts (map produced_bytes outs) Ts ->
  try_fold (fun _ '(produced, facts) =>
    validate_view_len (produced_bytes produced) (facts_byte_len facts)) tt (zip outs facts) = Ok tt.
Proof.
  intros (Hv & HT & H). rewrite length_map in Hv.
  assert (Forall (fun x : ProducedValue * TensorFacts =>
    validate_view_len (produced_bytes x.1) (facts_byte_len x.2) = Ok tt) (zip outs facts)) as Hall.
  { apply Forall_lookup_2. intros i x (p & f & -> & Hp & Hf)%lookup_zip_with_Some. simpl.
    destruct (lookup_lt_is_Some_2 Ts i) as [T HTi]; [rewrite HT; by eapply lookup_lt_Some|].
    destruct (H i f (produced_bytes p) T) as (_ & Hw & Hr); [done| |done|].
    { change (map ?h ?l) with (h <$> l). by rewrite list_lookup_fmap, Hp. }
    apply validate_view_len_Ok. by eapply represents_view_len. }
  induction Hall as [|[p f] l Hx _ IH]; [done|]. cbn [try_fold]. simpl in Hx. rewrite Hx.
  exact IH.
Qed.

Lemma not_prepare_scratch o : is_prepare o = false -> declared_scratch o = 0.
Proof. by destruct o. Qed.

(** ** The invariant of the node loop *)

Section Execution.
Context (avx2 : bool) (engine : PreparationEngine).
Context (supported : PlannedTransform -> Prop) (meaning : PlannedTransform -> tensor -> tensor).
Context `{!Prepares engine supported meaning}.
Context (g : OperationGraph) (inputs : list ByteView) (ins : list tensor).
Context (Hg : graph_wf g) (Hfit : graph_fits g) (Hrun : graph_runnable supported g).
Context (Hins : views_represent (map input_facts (graph_inputs g)) inputs ins).

Abbreviation walk := (alias_loop (S (length (graph_nodes g))) g).

(** The view holds the tensor of the value, and it is an input where the
    static analysis says so. *)
Definition value_ok (v : ValueRef) (view : ByteView) : Prop :=
  exists f T, graph_facts g v = Some f /\ value_tensor meaning g ins v = Some T /\
    view_wf view /\ represents f (as_slice view) T /\ storable f /\
    (forall i, walk v = Some i -> inputs !! i = Some view).

Definition runtime_ok (rt : gmap ValueRef RuntimeValue) : Prop :=
  forall v r, rt !! v = Some r -> value_ok v (runtime_bytes r).

(** Before node [k]. *)
Record running (k : nat) (s : LivenessSchedule) (rt : gmap ValueRef RuntimeValue) : Prop := {
  running_at : at_node g k s;
  running_mirror : mirror s rt;
  running_values : runtime_ok rt;
  running_exact : no_prepare g ->
    (s0 ← LivenessSchedule_new g; try_fold (estimate_node g) s0 (take k (enumerate (graph_nodes g))))
    = Ok s
}.

(** After [j] outputs of node [k]. *)
Record placed (k : nat) (node : OperationNode) (s0 : LivenessSchedule)
    (rt0 : gmap ValueRef RuntimeValue) (j : nat)
    (st : LivenessSchedule * gmap ValueRef RuntimeValue * list ValueRef) : Prop := {
  placed_placing : placing g k node j st.1.1;
  placed_mirror : mirror st.1.1 st.1.2;
  placed_values : runtime_ok st.1.2;
  placed_produced : st.2 = take j (node_values k node);
  placed_keeps : forall v, v ∈ node_inputs node -> st.1.2 !! v = rt0 !! v;
  placed_exact : is_prepare (node_operation node) = false ->
    try_fold (estimate_output g node (N.of_nat k)) (s0, []) (take j (enumerate (node_outputs node)))
    = Ok (st.1.1, st.2)
}.

(** One output of the executor places one value, like one of the estimate. *)
Lemma host_output_as_place k ivs j p facts s rt produced shared s' a :
  index_as_u32 j = Ok (N.of_nat j) ->
  match produced_origin p with
  | Fresh => shared = None
  | Alias i => exists r, ivs !! i = Some r /\ shared = Some (runtime_allocation r)
  end ->
  place s (node_value (N.of_nat k) (N.of_nat j)) shared (facts_byte_len facts) = Ok (s', a) ->
  host_output (N.of_nat k) ivs (s, rt, produced) (j, (p, facts)) =
  Ok (s', <[node_value (N.of_nat k) (N.of_nat j) :=
             {| runtime_bytes := produced_bytes p; runtime_allocation := a |}]> rt,
      produced ++ [node_value (N.of_nat k) (N.of_nat j)]).
Proof.
  intros Hj Hshared Hp. unfold host_output. unfold place in Hp. destruct (produced_origin p) as [|i].
  - subst shared. simpl in Hp |- *. destruct (create_allocation s _) as [[s1 a1]| |]; try done.
    simpl in Hp |- *. rewrite Hj. cbn [mbind result_bind].
    destruct (insert_value s1 _ _); try done. simpl in *. by injection Hp as -> <-.
  - destruct Hshared as (r & Hr & ->). rewrite Hr. simpl in Hp |- *. rewrite Hj. simpl.
    destruct (insert_value s _ _); try done. simpl in *. by injection Hp as -> <-.
Qed.

(** The origin the operation decides is the one the static analysis expects. *)
Lemma local_origin_static k node facts j :
  graph_nodes g !! k = Some node -> (j < length (node_outputs node))%nat ->
  Forall2 (fun v f => graph_facts g v = Some f) (node_inputs node) facts ->
  local_origin (node_operation node) facts (node_outputs node) = static_origin g node j.
Proof using Type.
  intros Hk Hj Hf. unfold static_origin, node_output_alias_input, local_origin.
  destruct (node_outputs node) as [|fout [|fout2 fouts]] eqn:Ho; simpl in Hj; [lia| |].
  - assert (j = 0%nat) as -> by lia. simpl.
    inversion Hf as [Hn Hn'|v f vs fs Hv Hfs Hn Hn']; subst; [by destruct (node_operation node)|].
    inversion Hfs; subst; [|by destruct (node_operation node)].
    destruct (node_operation node); try done. rewrite Hv. unfold is_identity_permutation.
    destruct (is_identity_order _); simpl; [|done]. destruct (decide (f = fout)) as [->|Hne].
    + by rewrite !bool_decide_eq_true_2.
    + by rewrite !bool_decide_eq_false_2 by congruence.
  - transitivity Fresh; [by destruct (node_operation node), facts as [|? []]|].
    destruct (j =? 0)%nat; simpl; [|done]. by destruct (node_inputs node) as [|? []].
Qed.
(** The inputs of node [k], as the executor loads them. *)
Record loaded (k : nat) (node : OperationNode) (rt : gmap ValueRef RuntimeValue)
    (ivs : list RuntimeValue) (facts : list TensorFacts) (Ts : list tensor) : Prop := {
  loaded_values : Forall2 (fun v r => rt !! v = Some r) (node_inputs node) ivs;
  loaded_facts : Forall2 (fun v f => graph_facts g v = Some f) (node_inputs node) facts;
  loaded_tensors : Forall2 (fun v T => value_tensor meaning g ins v = Some T) (node_inputs node) Ts;
  loaded_earlier : Forall (fun v => is_Some (lookup_facts (graph_inputs g) (take k (graph_nodes g)) v))
    (node_inputs node);
  loaded_wf : Forall facts_wf facts;
  loaded_storable : Forall storable facts;
  loaded_infer : infer_outputs (node_operation node) facts = Ok (node_outputs node);
  loaded_views : views_represent facts (map runtime_bytes ivs) Ts
}.

Lemma load_inputs k node s rt :
  graph_nodes g !! k = Some node -> running k s rt ->
  exists ivs facts Ts, loaded k node rt ivs facts Ts.
Proof using Hg.
  intros Hk [[_ Ht _ _ _] Hm Hv _]. destruct (graph_node_ok g k node Hg Hk) as (facts & Hf & Hi & _).
  assert (Forall (fun v => exists r, rt !! v = Some r) (node_inputs node)) as Hr.
  { apply Forall_forall. intros v Hin. apply (mirror_Some _ _ _ Hm), (tracks_live _ _ _ _ _ Ht).
    destruct (node_input_tracked g k node v Hg Hk Hin) as (_ & Hc & _).
    rewrite elem_of_list_to_set. split; [done|left].
    rewrite (uses_from_step _ _ _ Hk), elem_of_app. by left. }
  apply Forall_exists_Forall2_l in Hr as [ivs Hr].
  assert (Forall (fun v => exists T, value_tensor meaning g ins v = Some T) (node_inputs node)) as HT.
  { apply Forall_lookup_2. intros i v Hin. destruct (Forall2_lookup_l _ _ _ _ _ Hr Hin) as (r & _ & Hvr).
    destruct (Hv _ _ Hvr) as (? & T & _ & ? & _). by exists T. }
  apply Forall_exists_Forall2_l in HT as [Ts HT]. exists ivs, facts, Ts.
  assert (forall i f, facts !! i = Some f -> exists v r T, node_inputs node !! i = Some v /\
    ivs !! i = Some r /\ Ts !! i = Some T /\ facts_wf f /\ storable f /\
    view_wf (runtime_bytes r) /\ represents f (as_slice (runtime_bytes r)) T) as Hall.
  { intros i f Hfi. destruct (Forall2_lookup_r _ _ _ _ _ Hf Hfi) as (v & Hin & _ & Hgf & Hw).
    destruct (Forall2_lookup_l _ _ _ _ _ Hr Hin) as (r & Hri & Hvr).
    destruct (Forall2_lookup_l _ _ _ _ _ HT Hin) as (T & HTi & HvT).
    destruct (Hv _ _ Hvr) as (f' & T' & Hgf' & HvT' & ? & ? & ? & _).
    simplify_eq. exists v, r, T. by split_and!. }
  constructor; [done| |done| | | |done|].
  - eapply Forall2_impl; [exact Hf|]. by intros v f (_ & ? & _).
  - apply Forall_lookup_2. intros i v Hin.
    destruct (Forall2_lookup_l _ _ _ _ _ Hf Hin) as (f & _ & Hl & _). eauto.
  - apply Forall_lookup_2. intros i f Hfi. destruct (Hall i f Hfi) as (? & ? & ? & H). tauto.
  - apply Forall_lookup_2. intros i f Hfi. destruct (Hall i f Hfi) as (? & ? & ? & H). tauto.
  - unfold views_represent. rewrite length_map, <-(Forall2_length _ _ _ Hr), <-(Forall2_length _ _ _ HT).
    split_and!; [by eapply Forall2_length..|]. intros i f view T Hfi Hvi HTi.
    destruct (Hall i f Hfi) as (v & r & T' & _ & Hr' & HT' & ? & _ & ? & ?).
    change (map ?h ?l) with (h <$> l) in Hvi. rewrite list_lookup_fmap, Hr' in Hvi. simplify_eq/=.
    by split_and!.
Qed.

(** An output of an executed node is right, also about its alias. *)
Lemma produced_value_ok k node rt ivs facts Ts e j f p :
  graph_nodes g !! k = Some node -> runtime_ok rt -> loaded k node rt ivs facts Ts ->
  executed meaning node ivs facts Ts e ->
  node_outputs node !! j = Some f -> execution_outputs e !! j = Some p ->
  value_ok (node_value (N.of_nat k) (N.of_nat j)) (produced_bytes p).
Proof using Hg Hrun.
  intros Hk Hrt [Hr Hf HT Hearly _ _ _ _] [(Hlv & HlT & Hrep) Hor Hal _] Hj Hp.
  destruct (lookup_lt_is_Some_2 (sem_op meaning (node_operation node) facts (node_outputs node) Ts) j)
    as [T HTj]; [rewrite HlT; by eapply lookup_lt_Some|].
  destruct (Hrep j f (produced_bytes p) T) as (Hwf & Hw & Hrp); [done| |done|].
  { change (map ?h ?l) with (h <$> l). by rewrite list_lookup_fmap, Hp. }
  assert (node_facts g node = facts) as Hnf by (by apply omap_Forall2).
  exists f, T. split_and!; [|by eapply output_tensor; rewrite ?Hnf|done|done| |].
  - unfold graph_facts, node_value. simpl. rewrite !Nat2N.id, Hk. exact Hj.
  - pose proof (runnable_outputs _ _ Hrun) as Hst. rewrite Forall_lookup in Hst.
    specialize (Hst k node Hk). rewrite Forall_lookup in Hst. by eapply Hst.
  - intros i Hwalk. cbn [alias_loop node_value node_ordinal output_ordinal] in Hwalk.
    rewrite !Nat2N.id, Hk in Hwalk. cbn [mbind option_bind] in Hwalk.
    destruct (node_output_alias_input g node j) as [i'|] eqn:Ha; [|done]. cbn [mbind option_bind] in Hwalk.
    destruct (node_alias_input g k node j i' Hg Hk Ha)
      as (-> & -> & input & fin & fout & Hin & Ho & Hlook & _ & _ & _ & Hop).
    rewrite Hin in Hwalk. cbn [lookup list_lookup] in Hwalk. cbn [mbind option_bind] in Hwalk.
    assert (produced_origin p = Alias 0) as Hp0.
    { rewrite Forall_lookup in Hor. rewrite (Hor ltac:(by destruct Hop as [[? ->]|(? & -> & _)]) 0%nat p Hp).
      rewrite (local_origin_static k node facts 0 Hk) by (try done; rewrite Ho; simpl; lia).
      unfold static_origin. by rewrite Ha. }
    destruct (Hal 0%nat p 0%nat Hp Hp0) as (_ & r & Hr0 & Hsame).
    rewrite Hsame by (by destruct Hop as [[? ->]|(? & -> & _)]).
    rewrite Hin in Hr. destruct (Forall2_lookup_r _ _ _ _ _ Hr Hr0) as (v & [= <-] & Hvr).
    destruct (Hrt _ _ Hvr) as (? & ? & _ & _ & _ & _ & _ & Hw'). apply Hw'.
    pose proof (lookup_lt_Some _ _ _ Hk) as Hlt. assert (value_depth input <= k)%nat as Hd.
    { destruct input as [?|n ?]; simpl in *; [lia|]. apply bind_Some in Hlook as (? & Hn & _).
      apply lookup_take_Some in Hn as [_ ?]. lia. }
    rewrite <-Hwalk. apply alias_loop_fuel; [done|lia|lia].
Qed.
(** The allocation an executed output shares with the node's input. *)
Lemma shared_allocation k node s0 rt0 ivs facts Ts e j p s rt vs :
  loaded k node rt0 ivs facts Ts -> executed meaning node ivs facts Ts e ->
  placed k node s0 rt0 j (s, rt, vs) -> execution_outputs e !! j = Some p ->
  exists shared,
    match produced_origin p with
    | Fresh => shared = None
    | Alias i => exists input r lv, node_inputs node !! i = Some input /\ ivs !! i = Some r /\
        values s !! input = Some lv /\ shared = Some (live_allocation lv) /\
        runtime_allocation r = live_allocation lv
    end /\
    (forall a, shared = Some (Some a) -> is_Some (allocations s !! a)).
Proof using Type.
  intros Hl He Hp Hj. destruct (produced_origin p) as [|i] eqn:Eo; [by exists None|].
  destruct (executed_alias _ _ _ _ _ _ He j p i Hj Eo) as (-> & r & Hr & _).
  destruct (Forall2_lookup_r _ _ _ _ _ (loaded_values _ _ _ _ _ _ Hl) Hr) as (input & Hin & Hrt).
  pose proof (placed_keeps _ _ _ _ _ _ Hp input (list_elem_of_lookup_2 _ _ _ Hin)) as Hk.
  pose proof (placed_mirror _ _ _ _ _ _ Hp input) as Hm. simpl in Hk, Hm. rewrite Hk, Hrt in Hm.
  destruct (values s !! input) as [lv|] eqn:Hlv; [|done]. injection Hm as Hm.
  exists (Some (live_allocation lv)). split; [by exists input, r, lv|].
  intros a [= Ha]. eapply ledger_known; [|exact Hlv|exact Ha].
  exact (placing_ledger _ _ _ _ _ (placed_placing _ _ _ _ _ _ Hp)).
Qed.

Lemma host_output_placed k node s0 rt0 ivs facts Ts e j p f st :
  graph_nodes g !! k = Some node -> runtime_ok rt0 ->
  loaded k node rt0 ivs facts Ts -> executed meaning node ivs facts Ts e ->
  execution_outputs e !! j = Some p -> node_outputs node !! j = Some f ->
  placed k node s0 rt0 j st ->
  exists st', host_output (N.of_nat k) ivs st (j, (p, f)) = Ok st' /\ placed k node s0 rt0 (S j) st'.
Proof using Hg Hfit Hrun.
  intros Hk Hrt0 Hl He Hpj Hj Hp. destruct st as [[s rt] vs].
  pose proof (lookup_lt_Some _ _ _ Hj) as Hlt.
  assert (index_as_u32 j = Ok (N.of_nat j)) as Hidx by (by eapply output_index_u32).
  destruct (shared_allocation _ _ _ _ _ _ _ _ _ _ _ _ _ Hl He Hp Hpj) as (shared & Hsh & Hal).
  destruct (place_spec g k node Hfit Hk j s shared f) as (s' & a & Hpl & Hp' & Hv');
    [apply Hp|done|done|].
  eexists. split.
  { eapply host_output_as_place; [done| |exact Hpl]. destruct (produced_origin p); [done|].
    destruct Hsh as (input & r & lv & _ & Hr & _ & -> & Ha). exists r. by rewrite Ha. }
  constructor; cbn [fst snd].
  - done.
  - intros v. rewrite Hv'. destruct (decide (v = node_value (N.of_nat k) (N.of_nat j))) as [->|Hne].
    + by rewrite !lookup_insert_eq.
    + rewrite !lookup_insert_ne by done. apply (placed_mirror _ _ _ _ _ _ Hp).
  - intros v r. destruct (decide (v = node_value (N.of_nat k) (N.of_nat j))) as [->|Hne].
    + rewrite lookup_insert_eq. intros [= <-]. by eapply produced_value_ok.
    + rewrite lookup_insert_ne by done. apply (placed_values _ _ _ _ _ _ Hp).
  - pose proof (placed_produced _ _ _ _ _ _ Hp) as Hprod. simpl in Hprod. rewrite Hprod.
    by rewrite take_node_values.
  - intros v Hv. rewrite lookup_insert_ne; [by apply (placed_keeps _ _ _ _ _ _ Hp)|].
    intros <-. destruct (node_input_tracked g k node _ Hg Hk Hv) as (_ & Hc & _).
    by eapply node_value_not_earlier.
  - intros Hnp. rewrite (take_S_r _ _ (j, f)), try_fold_app.
    2: { unfold enumerate. apply lookup_zip_with_Some. exists j, f. split_and!; [done| |done].
         by apply lookup_seq_lt. }
    pose proof (placed_exact _ _ _ _ _ _ Hp Hnp) as Hex. simpl in Hex. rewrite Hex.
    cbn [mbind result_bind try_fold]. erewrite estimate_output_as_place; [done|done| |exact Hpl].
    pose proof (executed_origin _ _ _ _ _ _ He Hnp) as Hor. rewrite Forall_lookup in Hor.
    specialize (Hor j p Hpj). rewrite (local_origin_static k node facts j Hk Hlt (loaded_facts _ _ _ _ _ _ Hl)) in Hor.
    rewrite Hor in Hsh. unfold static_origin in Hsh. destruct (node_output_alias_input g node j) as [i|]; [|done].
    destruct Hsh as (input & r & lv & ? & _ & ? & ? & _). eauto.
Qed.

(** ** One node *)

Lemma placed_start k node s rt :
  graph_nodes g !! k = Some node -> running k s rt -> placed k node s rt 0 (s, rt, []).
Proof using Hfit.
  intros Hk [Hat Hm Hv _]. constructor; simpl; try done. by apply placing_start.
Qed.

(** The accounting after the outputs, on the schedule and the runtime values. *)
Lemma finish_host_node k node s rt s1 rt1 vs scratch :
  graph_nodes g !! k = Some node -> running k s rt ->
  placed k node s rt (length (node_outputs node)) (s1, rt1, vs) ->
  scratch <= declared_scratch (node_operation node) ->
  exists s2 s3 rt3 s4 rt4, observe_transient s1 scratch = Ok s2 /\
    consume_runtime_inputs (node_inputs node) s2 rt1 = Ok (s3, rt3) /\
    remove_unused_runtime vs s3 rt3 = Ok (s4, rt4) /\ running (S k) s4 rt4.
Proof using Hg Hfit.
  intros Hk Hr [Hpl Hm Hv Hvs _ Hex] Hs. cbn [fst snd] in *.
  rewrite take_ge in Hvs by (by rewrite node_values_length). subst vs.
  destruct (finish_node g k node s1 scratch Hg Hfit Hk Hpl Hs)
    as (s2 & s3 & s4 & H2 & H3 & H4 & Hat & Hv2).
  destruct (consume_runtime_mirror _ _ _ _ (mirror_values _ _ _ Hm Hv2) H3) as (rt3 & H3' & Hm3 & Hsub3).
  destruct (remove_unused_mirror _ _ _ _ Hm3 H4) as (rt4 & H4' & Hm4 & Hsub4).
  exists s2, s3, rt3, s4, rt4. split_and!; [done..|]. constructor; [done|done| |].
  - intros v r Hvr. apply Hv. by eapply lookup_weaken, Hsub3; eapply lookup_weaken, Hsub4.
  - intros Hnp. rewrite (take_S_r _ _ (k, node)).
    2: { unfold enumerate. apply lookup_zip_with_Some. exists k, node. split_and!; [done| |done].
         apply lookup_seq_lt. by eapply lookup_lt_Some. }
    pose proof (running_exact _ _ _ Hr Hnp) as Hs0. unfold no_prepare in Hnp.
    rewrite Forall_lookup in Hnp. specialize (Hnp k node Hk).
    destruct (LivenessSchedule_new g) as [s0| |]; try done. cbn [mbind result_bind] in *.
    rewrite try_fold_app, Hs0. cbn [mbind result_bind try_fold]. unfold estimate_node.
    rewrite (node_index_u32 g k node Hg Hk). cbn [mbind result_bind].
    specialize (Hex Hnp). rewrite take_ge in Hex.
    2: { unfold enumerate. rewrite length_zip_with, length_seq. lia. }
    rewrite Hex. cbn [mbind result_bind]. rewrite not_prepare_scratch in Hs |- * by done.
    replace scratch with 0 in H2 by lia. rewrite H2. cbn [mbind result_bind]. rewrite H3.
    cbn [mbind result_bind]. by rewrite H4.
Qed.

Lemma host_node_spec k node s rt :
  graph_nodes g !! k = Some node -> running k s rt ->
  succeeds (host_node avx2 engine g (k, node) (s, rt)) (fun st => running (S k) st.1 st.2).
Proof using All.
  intros Hk Hr. destruct (load_inputs k node s rt Hk Hr) as (ivs & facts & Ts & Hl).
  pose proof (runnable_builtin _ _ Hrun) as Hb. pose proof (runnable_supported _ _ Hrun) as Hs.
  pose proof (runnable_outputs _ _ Hrun) as Ho.
  rewrite Forall_lookup in Hb, Hs, Ho. specialize (Hb k node Hk). specialize (Hs k node Hk).
  specialize (Ho k node Hk). unfold host_node. run_step. run_step; [by eapply node_index_u32|].
  run_step; [exact Hb|]. run_step; [by rewrite bool_decide_eq_false_2 by (intros []; done)|].
  run_step.
  { apply mapM_Ok. eapply Forall2_impl; [apply Hl|]. intros v r Hv. simpl in Hv. by rewrite Hv. }
  run_step.
  { apply mapM_Ok. eapply Forall2_impl; [apply Hl|]. intros v f Hv. simpl in Hv. by rewrite Hv. }
  eapply succeeds_then; [by eapply execute_node_spec; try apply Hl|]. intros e He.
  pose proof (executed_outputs _ _ _ _ _ _ He) as (Hlen & HlT & Hviews). rewrite length_map in Hlen.
  run_step; [by rewrite bool_decide_eq_false_2 by (intros []; done)|].
  run_step.
  { eapply validate_outputs. by eapply executed_outputs. }
  destruct (enumerate_fold (host_output (N.of_nat k) ivs) (placed k node s rt)
    (zip (execution_outputs e) (node_outputs node))) with (s := (s, rt, @nil ValueRef))
    as ([[s1 rt1] vs] & Hfold & Hplaced).
  { intros j [p f] st (p' & f' & [= <- <-] & Hp & Hf)%lookup_zip_with_Some Hst.
    eapply host_output_placed; try done. apply Hr. }
  { by apply placed_start. }
  run_step; [exact Hfold|]. cbn beta iota.
  rewrite length_zip_with, Hlen, Nat.min_id in Hplaced.
  destruct (finish_host_node k node s rt s1 rt1 vs (transient_scratch e) Hk Hr Hplaced)
    as (s2 & s3 & rt3 & s4 & rt4 & H2 & H3 & H4 & Hrun4); [by eapply executed_scratch|].
  run_step; [exact H2|]. run_step; [exact H3|]. cbn beta iota. run_step; [exact H4|]. exact Hrun4.
Qed.

(** ** The inputs *)

Definition bound_input (view : ByteView) : RuntimeValue :=
  {| runtime_bytes := view; runtime_allocation := None |}.

Definition input_value (x : nat) : ValueRef := Input (input_from_ordinal (N.of_nat x)).

(** The runtime values after [n] inputs. *)
Definition bound (n : nat) (rt : gmap ValueRef RuntimeValue) : Prop :=
  forall v r, rt !! v = Some r <->
    exists x view, (x < n)%nat /\ v = input_value x /\ inputs !! x = Some view /\ r = bound_input view.

Lemma input_represents x i view :
  graph_inputs g !! x = Some i -> inputs !! x = Some view ->
  exists T, ins !! x = Some T /\ facts_wf (input_facts i) /\ view_wf view /\
    represents (input_facts i) (as_slice view) T.
Proof using Hins.
  intros Hi Hv. destruct Hins as (Hl & HT & H). rewrite length_map in *.
  destruct (lookup_lt_is_Some_2 ins x) as [T HTx]; [rewrite HT; by eapply lookup_lt_Some|].
  exists T. split; [done|]. apply (H x); [|done|done].
  change (map ?h ?l) with (h <$> l). by rewrite list_lookup_fmap, Hi.
Qed.

Lemma host_input_bound x i view rt :
  graph_inputs g !! x = Some i -> inputs !! x = Some view -> bound x rt ->
  exists rt', host_input rt (x, (i, view)) = Ok rt' /\ bound (S x) rt'.
Proof using Hg Hins.
  intros Hi Hv Hb. unfold host_input.
  destruct (input_represents x i view Hi Hv) as (T & _ & _ & Hw & Hr).
  rewrite (validate_view_len_Ok view) by (by eapply represents_view_len). cbn [mbind result_bind].
  assert (index_as_u32 x = Ok (N.of_nat x)) as ->.
  { apply u32_try_from_Ok. split; [done|]. apply lookup_lt_Some in Hi.
    pose proof (wf_input_count _ (wf_builder g Hg)) as Hc. simpl in Hc. lia. }
  cbn [mbind result_bind]. eexists. split; [done|]. fold (input_value x) (bound_input view).
  intros v r. destruct (decide (v = input_value x)) as [->|Hne].
  - rewrite lookup_insert_eq. split; [intros [= <-]; exists x, view; split_and!; auto|].
    intros (y & w & _ & [= E] & Hy & ->). apply Nat2N.inj in E as <-. congruence.
  - rewrite lookup_insert_ne by done. etransitivity; [apply Hb|]. split.
    + intros (y & w & ? & H). exists y, w. split; [lia|done].
    + intros (y & w & ? & -> & H). exists y, w. split; [|done].
      destruct (decide (y = x)) as [->|]; [done|lia].
Qed.

Lemma inputs_length : length inputs = length (graph_inputs g).
Proof using Hins. destruct Hins as (Hl & _). by rewrite length_map in Hl. Qed.

Lemma host_inputs_running s :
  LivenessSchedule_new g = Ok s ->
  exists rt, try_fold host_input ∅ (enumerate (zip (graph_inputs g) inputs)) = Ok rt /\
    running 0 s rt.
Proof using Hg Hfit Hrun Hins.
  intros Hs. destruct (enumerate_fold host_input bound (zip (graph_inputs g) inputs))
    with (s := (∅ : gmap ValueRef RuntimeValue)) as (rt & Hfold & Hb).
  { intros x [i view] rt (i' & w & [= <- <-] & Hi & Hw)%lookup_zip_with_Some Hb.
    by eapply host_input_bound. }
  { intros v r. rewrite lookup_empty. split; [done|]. intros (? & ? & ? & _). lia. }
  exists rt. split; [done|].
  rewrite length_zip_with, inputs_length, Nat.min_id in Hb.
  destruct (LivenessSchedule_new_spec g Hg Hfit) as (s' & Hs' & Hat & Hvals).
  rewrite Hs in Hs'. injection Hs' as <-. constructor; [done| | |].
  - intros v. rewrite Hvals. destruct (decide (v ∈ input_values g)) as [Hv|Hv].
    + apply elem_of_input_values in Hv as (x & -> & Hx).
      destruct (lookup_lt_is_Some_2 inputs x) as [view Hview]; [by rewrite inputs_length|].
      assert (rt !! input_value x = Some (bound_input view)) as Hx' by (apply Hb; eauto 6).
      unfold input_value in Hx'. by rewrite Hx'.
    + destruct (rt !! v) as [r|] eqn:E; [|done]. apply Hb in E as (x & view & Hx & -> & _).
      destruct Hv. apply elem_of_input_values. by exists x.
  - intros v r (x & view & Hx & -> & Hview & ->)%Hb. simpl.
    destruct (lookup_lt_is_Some_2 (graph_inputs g) x Hx) as [i Hi].
    destruct (input_represents x i view Hi Hview) as (T & HT & Hwf & Hw & Hr).
    exists (input_facts i), T. unfold graph_facts, value_tensor. simpl.
    rewrite Nat2N.id, Hi. split_and!; try done.
    + pose proof (runnable_inputs _ _ Hrun) as Hst. rewrite Forall_lookup in Hst. by eapply Hst.
    + intros j. assert ((x <? length (graph_inputs g))%nat = true) as -> by (by apply Nat.ltb_lt).
      by intros [= <-].
  - intros _. rewrite Hs. cbn [mbind result_bind]. by rewrite take_0.
Qed.

(** ** The whole run *)

(** What a run returns. *)
Record host_result (e : HostExecution) : Prop := {
  result_output : value_ok (graph_output g) (execution_output e);
  result_peak : peak_scratch_bytes e <= total_output_bytes g + max_scratch g;
  result_exact : no_prepare g -> estimate_host_scratch_bytes g = Ok (peak_scratch_bytes e)
}.

Lemma execute_host_correct : succeeds (execute_host avx2 engine g inputs) host_result.
Proof using All.
  unfold execute_host. run_step. run_step; [by rewrite bool_decide_eq_false_2 by (rewrite inputs_length; intros []; done)|].
  destruct (LivenessSchedule_new_spec g Hg Hfit) as (s & Hs & _ & _). run_step; [exact Hs|].
  destruct (host_inputs_running s Hs) as (rt & Hrt & Hr0). run_step; [exact Hrt|].
  eapply succeeds_then.
  { apply (succeeds_for_each (fun done st => running (length done) st.1 st.2) _ _ (s, rt)); [done|].
    intros done [k node] rest [s1 rt1] Hl Hr. rewrite length_app, Nat.add_1_r.
    assert (enumerate (graph_nodes g) !! length done = Some (k, node)) as Hk
      by (by rewrite Hl, list_lookup_middle).
    apply lookup_zip_with_Some in Hk as (? & ? & [= <- <-] & [-> _]%lookup_seq & Hk).
    by apply host_node_spec. }
  intros [s1 rt1] Hr. cbn [fst snd] in Hr. cbn beta iota.
  unfold enumerate at 1 in Hr. rewrite length_zip_with, length_seq, Nat.min_id in Hr.
  destruct Hr as [Hat Hm Hv Hex]. run_step.
  destruct (scratch_total g s1 Hat) as (n & Hn & Hle).
  destruct (proj2 (mirror_Some _ _ (graph_output g) Hm)) as [r Hout].
  { apply (tracks_live _ _ _ _ _ (at_tracks _ _ _ Hat)). split.
    - rewrite elem_of_list_to_set. apply elem_of_created_before. rewrite take_ge by done.
      destruct (wf_output g Hg) as [f Hf]. by exists f.
    - left. unfold uses_from. apply elem_of_app. right. by left. }
  run_step; [by rewrite Hout|]. run_step; [exact Hn|]. run_step.
  constructor; simpl; [by apply Hv| |].
  - pose proof (at_peak _ _ _ Hat). pose proof (output_bytes_before_le g (length (graph_nodes g))). lia.
  - intros Hnp. specialize (Hex Hnp). unfold estimate_host_scratch_bytes.
    rewrite Hs in Hex |- *. cbn [mbind result_bind] in *. rewrite take_ge in Hex.
    2: { unfold enumerate. rewrite length_zip_with, length_seq. lia. }
    rewrite Hex. exact Hn.
Qed.
End Execution.

(** * Refusals of the host executor, and the scratch estimate

    Inputs of the wrong number and nodes that pin another implementation are
    refused. The last section builds a graph whose execution needs more scratch
    than [estimate_host_scratch_bytes] computes. *)

(** ** The example graph *)

(** No half-precision conversion takes place in the example. *)
Definition no_conversions : HalfConversions :=
  {| f16_from_f32 := fun v => v; f16_to_f32 := fun v => v;
     bf16_from_f32 := fun v => v; bf16_to_f32 := fun v => v |}.

(** An unused slice of the input, then a preparation that changes nothing. *)
Definition identity_prepare_graph : result OperationGraph :=
  facts ← TensorFacts_contiguous [4] (Representation_contiguous U8);
  name ← TensorName_parse "w";
  '(b, input) ← add_input OperationGraphBuilder_new name facts;
  let slice := Op_Slice {| slice_ranges := [{| range_start := 0; range_end := 4 |}] |} in
  slice_implementation ← builtin_implementation slice;
  '(b, _) ← add_operation b slice_implementation slice [input];
  cast ← builtin_contiguous_implementation;
  let prepare := Op_Prepare (PlannedTransform_new
    {| implementation := cast; source := Representation_contiguous U8;
       target := Representation_contiguous U8 |} 4) in
  '(b, outputs) ← add_operation b cast prepare [input];
  output ← ok_or (head outputs) Integrity;
  build b output.

Definition four_bytes : ByteView := view_from_boxed 4096 [Byte.x01; Byte.x02; Byte.x03; Byte.x04].

(** An environment without cancellation, with boxes at fresh addresses. *)
Definition idle_env : Env :=
  {| fired := fun _ => false; grants := fun _ _ => true; Cancel.place := fun n => 65536 * N.of_nat (S n) |}.

Definition identity_prepare_run : result N :=
  g ← identity_prepare_graph;
  e ← engine_with_builtins no_conversions;
  match execute_host true e g [four_bytes] idle_env 0%nat with
  | Ok (x, _) => Ok (peak_scratch_bytes x)
  | Err error => Err error
  | Panic => Panic
  end.

(** ** Refusals *)

Lemma execute_host_input_count avx2 engine g inputs :
  length inputs <> length (graph_inputs g) -> fails (execute_host avx2 engine g inputs) Binding.
Proof.
  intros H. unfold execute_host. eapply fails_then; [by apply (succeeds_check (fun _ => True))|].
  intros _ _. apply fails_bind, wp_lift. by rewrite bool_decide_eq_true_2.
Qed.

Lemma run_for_each_Ok {A St} (l : list A) (body : A -> St -> M St) : forall s env t s' t',
  for_each l body s env t = Ok (s', t') ->
  Forall (fun a => exists s env t r, body a s env t = Ok r) l.
Proof.
  induction l as [|a l IH]; intros s env t s' t' H; [constructor|].
  apply run_bind_Ok in H as (s1 & t1 & Ha & H). constructor; [by eexists _, _, _, _|].
  by eapply IH.
Qed.

(** A run that ends well executed only nodes that pin the implementation this
    library provides. *)
Lemma execute_host_pinned avx2 engine g inputs env t r t' :
  execute_host avx2 engine g inputs env t = Ok (r, t') ->
  Forall (fun node => builtin_implementation (node_operation node) = Ok (node_implementation node))
    (graph_nodes g).
Proof.
  intros H. unfold execute_host in H. do 2 (apply run_bind_Ok in H as (? & ? & _ & H)).
  apply run_bind_Ok in H as (s & ? & _ & H). apply run_bind_Ok in H as (rt & ? & _ & H).
  apply run_bind_Ok in H as ([s' rt'] & ? & Hl & _). apply run_for_each_Ok in Hl.
  apply Forall_lookup_2. intros k node Hk. rewrite Forall_forall in Hl.
  destruct (Hl (k, node)) as ([s1 rt1] & env1 & t1 & [st2 t2] & Hn).
  { by apply lookup_enumerate. }
  unfold host_node in Hn. apply run_bind_Ok in Hn as (? & ? & _ & Hn).
  apply run_bind_Ok in Hn as (? & ? & _ & Hn).
  apply run_bind_Ok in Hn as (expected & ? & [He _]%run_lift_Ok & Hn).
  apply run_bind_Ok in Hn as (? & ? & [Hd%reject_Ok _]%run_lift_Ok & _).
  bool_to_prop. apply dec_stable in Hd. congruence.
Qed.

(** ** The estimate is not a bound *)

Lemma identity_prepare_peak :
  exists g, identity_prepare_graph = Ok g /\ estimate_host_scratch_bytes g = Ok 0 /\
            identity_prepare_run = Ok 4.
Proof. eexists. split; [vm_compute; reflexivity|]. split; vm_compute; reflexivity. Qed.
