(* ===== verification/Pipeline.v ===== *)
(** * Resource budgets and work lists of [pipeline.rs]

    The weighted budget and the dispatch window the pipeline's threads share,
    the permits they hand out, the deferred acquisition of a preparation
    callback, and the sequential checks before any thread starts. A permit is
    the weights it holds; dropping it releases them. Methods that release
    part of a permit return what they release: every release locks the budget
    on its own, so it is a step of its own in [PipelineRun]. *)

From S2P Require Import Prelude Errors Cancel Limits.
Local Open Scope N_scope.

(** ** Weights *)

Record ResourceWeights := {
  weight_source : N;
  weight_scratch : N;
  weight_prepared : N
}.

#[export] Instance ResourceWeights_eq_dec : EqDecision ResourceWeights.
Proof. solve_decision. Defined.

Definition ResourceWeights_new (source scratch prepared : N) : ResourceWeights :=
  {| weight_source := source; weight_scratch := scratch; weight_prepared := prepared |}.
Definition ResourceWeights_default : ResourceWeights := ResourceWeights_new 0 0 0.

(** [requested <= limit - used] in every dimension, with unchecked
    subtractions that are evaluated until one dimension does not fit. *)
Definition fits (used requested limit : ResourceWeights) : result bool :=
  source ← unchecked_sub (weight_source limit) (weight_source used);
  if negb (weight_source requested <=? source) then mret false else
  scratch ← unchecked_sub (weight_scratch limit) (weight_scratch used);
  if negb (weight_scratch requested <=? scratch) then mret false else
  prepared ← unchecked_sub (weight_prepared limit) (weight_prepared used);
  mret (weight_prepared requested <=? prepared).

Definition add_weights (left right : ResourceWeights) : result ResourceWeights :=
  source ← unchecked_add (weight_source left) (weight_source right);
  scratch ← unchecked_add (weight_scratch left) (weight_scratch right);
  prepared ← unchecked_add (weight_prepared left) (weight_prepared right);
  mret (ResourceWeights_new source scratch prepared).

Definition subtract_weights (left right : ResourceWeights) : ResourceWeights :=
  ResourceWeights_new (saturating_sub (weight_source left) (weight_source right))
    (saturating_sub (weight_scratch left) (weight_scratch right))
    (saturating_sub (weight_prepared left) (weight_prepared right)).

Definition max_weights (left right : ResourceWeights) : ResourceWeights :=
  ResourceWeights_new
    (if weight_source right <? weight_source left then weight_source left else weight_source right)
    (if weight_scratch right <? weight_scratch left then weight_scratch left else weight_scratch right)
    (if weight_prepared right <? weight_prepared left then weight_prepared left
     else weight_prepared right).

(** ** The budget *)

Record ResourceState := {
  used : ResourceWeights;
  peaks : ResourceWeights
}.

(** [ResourceBudget::new]: the limits of the pipeline, and nothing in use. *)
Definition budget_limit (limits : ExecutionLimits) : ResourceWeights :=
  ResourceWeights_new (source_bytes limits) (scratch_bytes limits) (prepared_bytes limits).
Definition ResourceBudget_new : ResourceState :=
  {| used := ResourceWeights_new 0 0 0; peaks := ResourceWeights_new 0 0 0 |}.

(** The locked section of one round of [acquire]: [None] waits for a change. *)
Definition budget_acquire (limit : ResourceWeights) (state : ResourceState)
    (requested : ResourceWeights) : result (option ResourceState) :=
  room ← fits (used state) requested limit;
  if (room : bool) then
    now ← add_weights (used state) requested;
    mret (Some {| used := now; peaks := max_weights (peaks state) now |})
  else mret None.

Definition budget_release (state : ResourceState) (released : ResourceWeights) : ResourceState :=
  {| used := subtract_weights (used state) released; peaks := peaks state |}.

(** ** The dispatch window *)

Definition window_acquire (limit used : N) : result (option N) :=
  if used <? limit then next ← unchecked_add used 1; mret (Some next) else mret None.
Definition window_release (used : N) : N := saturating_sub used 1.

(** ** Permits *)

(** The permit left and the weights released. *)
Definition release_prepared (permit : ResourceWeights) : ResourceWeights * ResourceWeights :=
  (ResourceWeights_new (weight_source permit) (weight_scratch permit) 0,
   ResourceWeights_new 0 0 (weight_prepared permit)).

Definition split_prepared (permit : ResourceWeights)
  : ResourceWeights * option ResourceWeights :=
  (ResourceWeights_new (weight_source permit) (weight_scratch permit) 0,
   if 0 <? weight_prepared permit
   then Some (ResourceWeights_new 0 0 (weight_prepared permit)) else None).

(** The permit left and the weights released. *)
Definition retain_prepared (permit : ResourceWeights) (bytes : N)
  : ResourceWeights * ResourceWeights :=
  let retained := ResourceWeights_new 0 0 (N.min (weight_prepared permit) bytes) in
  (retained, subtract_weights permit retained).

Record OutputReservation := {
  initial : ResourceWeights;
  promoted : list ResourceWeights
}.

(** The loop over promoted permits, with the weights each of them releases. *)
Fixpoint retain_promoted (permits : list ResourceWeights) (remaining : N)
  : list ResourceWeights * list ResourceWeights :=
  match permits with
  | [] => ([], [])
  | permit :: permits =>
      let bytes := N.min (weight_prepared permit) remaining in
      let retained := ResourceWeights_new 0 0 bytes in
      let '(kept, released) := retain_promoted permits (remaining - bytes) in
      (retained :: kept, subtract_weights permit retained :: released)
  end.

(** [OutputReservation::retain_prepared] and the weights released, in order. *)
Definition retain_output (reservation : OutputReservation) (bytes : N)
  : OutputReservation * list ResourceWeights :=
  let '(first, released) := retain_prepared (initial reservation) bytes in
  let remaining := saturating_sub bytes (weight_prepared first) in
  let '(kept, rest) := retain_promoted (promoted reservation) remaining in
  ({| initial := first; promoted := kept |}, released :: rest).

(** ** Deferred acquisition *)

(** The part of [PrepareContext] that holds resources. *)
Record PrepareContext := {
  initial_reservation : ResourceWeights;
  reserved : ResourceWeights;
  promoted_prepared : list ResourceWeights
}.

Definition PrepareContext_new (reservation : ResourceWeights) : PrepareContext :=
  {| initial_reservation := reservation; reserved := reservation; promoted_prepared := [] |}.

(** [with_resources] up to [acquire]: [None] when nothing is missing, and
    otherwise the context, the weights released and the weights to acquire. *)
Definition begin_deferral (context : PrepareContext) (required : ResourceWeights)
  : option (PrepareContext * list ResourceWeights * ResourceWeights) :=
  let missing := subtract_weights required (reserved context) in
  if bool_decide (missing = ResourceWeights_default) then None else
  if 0 <? weight_prepared missing then
    let '(first, released) := release_prepared (initial_reservation context) in
    let now := ResourceWeights_new (weight_source (reserved context))
                 (weight_scratch (reserved context)) 0 in
    Some ({| initial_reservation := first; reserved := now; promoted_prepared := [] |},
          released :: promoted_prepared context, subtract_weights required now)
  else Some (context, [], missing).

(** What [with_resources] remembers while its operation runs. *)
Record Deferral := {
  reservation : ResourceWeights;
  previous : ResourceWeights;
  previous_promotions : nat
}.

(** [with_resources] between [acquire] and the operation. *)
Definition enter_deferral (context : PrepareContext) (required acquired : ResourceWeights)
  : PrepareContext * Deferral :=
  let '(held, prepared) := split_prepared acquired in
  ({| initial_reservation := initial_reservation context;
      reserved := max_weights (reserved context) required;
      promoted_prepared := promoted_prepared context ++ option_list prepared |},
   {| reservation := held; previous := reserved context;
      previous_promotions := length (promoted_prepared context) |}).

(** [with_resources] after the operation, with the weights released. *)
Definition leave_deferral (context : PrepareContext) (deferral : Deferral) (succeeded : bool)
  : PrepareContext * list ResourceWeights :=
  if succeeded then
    ({| initial_reservation := initial_reservation context;
        reserved := ResourceWeights_new (weight_source (previous deferral))
                      (weight_scratch (previous deferral)) (weight_prepared (reserved context));
        promoted_prepared := promoted_prepared context |}, [reservation deferral])
  else
    ({| initial_reservation := initial_reservation context; reserved := previous deferral;
        promoted_prepared := take (previous_promotions deferral) (promoted_prepared context) |},
     drop (previous_promotions deferral) (promoted_prepared context) ++ [reservation deferral]).

(** ** Work lists *)

Record WorkItem (T : Type) := {
  ordinal : N;
  value : T;
  resources : ResourceWeights
}.
Arguments ordinal {T}.
Arguments value {T}.
Arguments resources {T}.

Record PreparedItem (U : Type) := {
  prepared_value : U;
  bytes : N
}.
Arguments prepared_value {U}.
Arguments bytes {U}.

(** The collection loop. [try_reserve] may be refused by the allocator. *)
Definition collect_item {T} (maximum_work_items : N) (item : WorkItem T)
    (collected : list (WorkItem T)) : M (list (WorkItem T)) :=
  _ ← check;
  _ ← lift (reject (maximum_work_items <=? N.of_nat (length collected)) ResourceLimit);
  _ ← try_reserve_exact 1;
  mret (collected ++ [item]).

Definition collect_bounded_work {T} (work : list (WorkItem T)) (maximum_work_items : N)
  : M (list (WorkItem T)) :=
  _ ← check;
  collected ← for_each work (collect_item maximum_work_items) [];
  _ ← check;
  mret collected.

Definition ordinal_le {T} (x y : WorkItem T) : Prop := ordinal x <= ordinal y.

#[export] Instance ordinal_le_dec {T} : RelDecision (@ordinal_le T).
Proof. intros x y. unfold ordinal_le. apply _. Defined.

Definition validate_item {T} (limits : ExecutionLimits) (ordinals : gset N) (item : WorkItem T)
  : result (gset N) :=
  _ ← reject (bool_decide (ordinal item ∈ ordinals)) Delivery;
  _ ← reject ((source_bytes limits <? weight_source (resources item)) ||
              (scratch_bytes limits <? weight_scratch (resources item)) ||
              (prepared_bytes limits <? weight_prepared (resources item))) ResourceLimit;
  mret ({[ordinal item]} ∪ ordinals).

Definition validate_work {T} (work : list (WorkItem T)) (limits : ExecutionLimits)
  : result unit :=
  _ ← try_fold (validate_item limits) ∅ work; mret tt.

(** [Pipeline::execute] before the first thread: the validated work in ordinal
    order. *)
Definition admit_work {T} (limits : ExecutionLimits) (work : list (WorkItem T))
  : M (list (WorkItem T)) :=
  _ ← lift (ExecutionLimits_validate limits);
  work ← collect_bounded_work work (max_work_items limits);
  let work := merge_sort ordinal_le work in
  _ ← lift (validate_work work limits);
  _ ← (if bool_decide (work = []) then mret tt else check);
  mret work.
