(* ===== verification/PipelineRun.v ===== *)
(** * The threads of [pipeline.rs] as a step relation

    [Pipeline::execute] runs a dispatcher, [worker_count] workers and the
    coordinator over the shared budget, the dispatch window, the cancellation
    flag and two bounded channels. A step is one atomic action of one thread: a
    locked section, a channel operation, a look at the flag, a call of the sink.
    A thread that drops permits releases them one by one, each in a step of its
    own. Waiting is the absence of a step.

    A preparation callback is the tree of its interactions: it looks at the
    flag, acquires deferred resources around an operation, or returns. The sink
    is a function of what it was given before. Channels follow the documented
    behaviour of [crossbeam-channel]: a send waits while the channel is full
    and fails once every receiver is gone, a receive waits while it is empty
    and fails once every sender is gone, and the messages left are dropped with
    the last receiver. Events and reports are left out. *)

From S2P Require Import Prelude Errors Cancel Limits Pipeline.
Local Open Scope N_scope.

(** ** Callbacks *)

(** What a callback or an operation inside it returns. *)
Abbreviation Outcome U := (PreparedItem U + ErrorCategory)%type.

Inductive Callback (U : Type) :=
  | Done (outcome : Outcome U)
  | Poll (k : bool -> Callback U)
  | WithResources (required : ResourceWeights) (operation : Callback U)
      (k : Outcome U -> Callback U).
Arguments Done {U}.
Arguments Poll {U}.
Arguments WithResources {U}.

(** ** Messages *)

Record QueuedWork (T : Type) := {
  item : WorkItem T;
  queued_reservation : ResourceWeights
}.
Arguments item {T}.
Arguments queued_reservation {T}.

Record WorkerOutput (U : Type) := {
  output_ordinal : N;
  output_result : Outcome U;
  output_reservation : option OutputReservation
}.
Arguments output_ordinal {U}.
Arguments output_result {U}.
Arguments output_reservation {U}.

(** ** Releases *)

(** What a thread still has to give back. *)
Inductive Release :=
  | ReleaseWeights (released : ResourceWeights)
  | ReleaseWindow.

Definition reservation_releases (o : option OutputReservation) : list Release :=
  match o with
  | Some r => ReleaseWeights (initial r) :: map ReleaseWeights (promoted r)
  | None => []
  end.

Definition output_releases {U} (o : WorkerOutput U) : list Release :=
  reservation_releases (output_reservation o) ++ [ReleaseWindow].

Definition queued_releases {T} (q : QueuedWork T) : list Release :=
  [ReleaseWeights (queued_reservation q); ReleaseWindow].

(** ** Threads *)

Inductive DispatcherMode (T : Type) :=
  | NextItem (items : list (WorkItem T))
  | WaitWindow (next : WorkItem T) (items : list (WorkItem T))
  | WaitBudget (next : WorkItem T) (items : list (WorkItem T))
  | SendWork (queued : QueuedWork T) (items : list (WorkItem T))
  | EndDispatch
  | Dispatched.
Arguments NextItem {T}.
Arguments WaitWindow {T}.
Arguments WaitBudget {T}.
Arguments SendWork {T}.
Arguments EndDispatch {T}.
Arguments Dispatched {T}.

(** An open call of [with_resources]: with nothing missing, or with a
    reservation to drop. *)
Record Frame (U : Type) := {
  deferral : option Deferral;
  continue : Outcome U -> Callback U
}.
Arguments deferral {U}.
Arguments continue {U}.

Inductive WorkerMode (T U : Type) :=
  | ReceiveWork
  | StartWork (queued : QueuedWork T)
  | Preparing (n : N) (context : PrepareContext) (frames : list (Frame U)) (rest : Callback U)
  | WaitResources (n : N) (context : PrepareContext) (frames : list (Frame U))
      (required missing : ResourceWeights) (operation : Callback U)
      (k : Outcome U -> Callback U)
  | SendOutput (output : WorkerOutput U)
  | DropReceiver
  | DropSender
  | Worked.
Arguments ReceiveWork {T U}.
Arguments StartWork {T U}.
Arguments Preparing {T U}.
Arguments WaitResources {T U}.
Arguments SendOutput {T U}.
Arguments DropReceiver {T U}.
Arguments DropSender {T U}.
Arguments Worked {T U}.

(** [Failed] has an error to report, [Closing] drops what is pending, and
    [Returning] holds what [coordinate_results] returns. *)
Inductive CoordinatorMode :=
  | ReceiveOutput
  | DeliverPending
  | Failed (error : ErrorCategory)
  | Closing (terminal_error : option ErrorCategory)
  | Returning (outcome : unit + ErrorCategory)
  | Coordinated (outcome : unit + ErrorCategory).

Record Thread (Mode : Type) := {
  releases : list Release;
  mode : Mode
}.
Arguments releases {Mode}.
Arguments mode {Mode}.

Definition running {Mode} (m : Mode) : Thread Mode := {| releases := []; mode := m |}.

Record Shared (T U : Type) := {
  budget : ResourceState;
  window : N;
  cancelled : bool;
  work_queue : list (QueuedWork T);
  work_sender : bool;
  work_receivers : nat;
  output_queue : list (WorkerOutput U);
  output_senders : nat;
  output_receiver : bool
}.
Arguments budget {T U}.
Arguments window {T U}.
Arguments cancelled {T U}.
Arguments work_queue {T U}.
Arguments work_sender {T U}.
Arguments work_receivers {T U}.
Arguments output_queue {T U}.
Arguments output_senders {T U}.
Arguments output_receiver {T U}.

(** The coordinator's variables, and what the sink accepted so far. *)
Record Ledger (U : Type) := {
  pending : gmap N (WorkerOutput U);
  next_index : nat;
  delivered : list (N * PreparedItem U)
}.
Arguments pending {U}.
Arguments next_index {U}.
Arguments delivered {U}.

Record State (T U : Type) := {
  shared : Shared T U;
  dispatcher : Thread (DispatcherMode T);
  worker_threads : list (Thread (WorkerMode T U));
  coordinator : Thread CoordinatorMode;
  ledger : Ledger U
}.
Arguments shared {T U}.
Arguments dispatcher {T U}.
Arguments worker_threads {T U}.
Arguments coordinator {T U}.
Arguments ledger {T U}.

(** ** Updates *)

Section Updates.
Context {T U : Type}.
Implicit Type h : Shared T U.

Definition set_budget (b : ResourceState) h : Shared T U :=
  {| budget := b; window := window h; cancelled := cancelled h; work_queue := work_queue h;
     work_sender := work_sender h; work_receivers := work_receivers h;
     output_queue := output_queue h; output_senders := output_senders h;
     output_receiver := output_receiver h |}.
Definition set_window (n : N) h : Shared T U :=
  {| budget := budget h; window := n; cancelled := cancelled h; work_queue := work_queue h;
     work_sender := work_sender h; work_receivers := work_receivers h;
     output_queue := output_queue h; output_senders := output_senders h;
     output_receiver := output_receiver h |}.
Definition cancel h : Shared T U :=
  {| budget := budget h; window := window h; cancelled := true; work_queue := work_queue h;
     work_sender := work_sender h; work_receivers := work_receivers h;
     output_queue := output_queue h; output_senders := output_senders h;
     output_receiver := output_receiver h |}.
Definition set_work_queue (q : list (QueuedWork T)) h : Shared T U :=
  {| budget := budget h; window := window h; cancelled := cancelled h; work_queue := q;
     work_sender := work_sender h; work_receivers := work_receivers h;
     output_queue := output_queue h; output_senders := output_senders h;
     output_receiver := output_receiver h |}.
Definition set_output_queue (q : list (WorkerOutput U)) h : Shared T U :=
  {| budget := budget h; window := window h; cancelled := cancelled h;
     work_queue := work_queue h; work_sender := work_sender h;
     work_receivers := work_receivers h; output_queue := q;
     output_senders := output_senders h; output_receiver := output_receiver h |}.
Definition drop_work_sender h : Shared T U :=
  {| budget := budget h; window := window h; cancelled := cancelled h;
     work_queue := work_queue h; work_sender := false; work_receivers := work_receivers h;
     output_queue := output_queue h; output_senders := output_senders h;
     output_receiver := output_receiver h |}.
(** The last receiver takes the messages with it. *)
Definition drop_work_receiver h : Shared T U * list Release :=
  let last := (work_receivers h =? 1)%nat in
  ({| budget := budget h; window := window h; cancelled := cancelled h;
      work_queue := if last then [] else work_queue h; work_sender := work_sender h;
      work_receivers := work_receivers h - 1; output_queue := output_queue h;
      output_senders := output_senders h; output_receiver := output_receiver h |},
   if last then concat (map queued_releases (work_queue h)) else []).
Definition drop_output_sender h : Shared T U :=
  {| budget := budget h; window := window h; cancelled := cancelled h;
     work_queue := work_queue h; work_sender := work_sender h;
     work_receivers := work_receivers h; output_queue := output_queue h;
     output_senders := output_senders h - 1; output_receiver := output_receiver h |}.
Definition drop_output_receiver h : Shared T U * list Release :=
  ({| budget := budget h; window := window h; cancelled := cancelled h;
      work_queue := work_queue h; work_sender := work_sender h;
      work_receivers := work_receivers h; output_queue := []; output_senders := output_senders h;
      output_receiver := false |}, concat (map output_releases (output_queue h))).

Definition apply_release (r : Release) h : Shared T U :=
  match r with
  | ReleaseWeights w => set_budget (budget_release (budget h) w) h
  | ReleaseWindow => set_window (window_release (window h)) h
  end.

Definition with_dispatcher (s : State T U) h (t : Thread (DispatcherMode T)) : State T U :=
  {| shared := h; dispatcher := t; worker_threads := worker_threads s;
     coordinator := coordinator s; ledger := ledger s |}.
Definition with_worker (s : State T U) h (i : nat) (t : Thread (WorkerMode T U)) : State T U :=
  {| shared := h; dispatcher := dispatcher s; worker_threads := <[i := t]> (worker_threads s);
     coordinator := coordinator s; ledger := ledger s |}.
Definition with_coordinator (s : State T U) h (t : Thread CoordinatorMode) (l : Ledger U)
  : State T U :=
  {| shared := h; dispatcher := dispatcher s; worker_threads := worker_threads s;
     coordinator := t; ledger := l |}.
End Updates.

(** The outputs [drop(pending)] drops; their order has no effect. *)
Definition pending_releases {U} (m : gmap N (WorkerOutput U)) : list Release :=
  concat (map (fun x => output_releases (snd x)) (map_to_list m)).

Section Run.
Context {T U : Type} (limits : ExecutionLimits) (prepare : N -> T -> Callback U).
Context (sink : list (N * PreparedItem U) -> N -> PreparedItem U -> unit + ErrorCategory).
Context (ordinals : list N).
Implicit Type h : Shared T U.

Definition worker_count : N :=
  N.min (N.min (workers limits) (dispatch_lookahead limits)) (N.of_nat (length ordinals)).

(** ** The dispatcher *)

Inductive dispatch_step
  : Shared T U -> DispatcherMode T -> Shared T U -> list Release -> DispatcherMode T -> Prop :=
  | dispatch_end h : dispatch_step h (NextItem []) h [] EndDispatch
  | dispatch_cancelled h next items :
      cancelled h = true -> dispatch_step h (NextItem (next :: items)) h [] EndDispatch
  | dispatch_next h next items :
      cancelled h = false ->
      dispatch_step h (NextItem (next :: items)) h [] (WaitWindow next items)
  | dispatch_window_cancelled h next items :
      cancelled h = true -> dispatch_step h (WaitWindow next items) h [] EndDispatch
  | dispatch_window h next items n :
      window_acquire (dispatch_lookahead limits) (window h) = Ok (Some n) ->
      dispatch_step h (WaitWindow next items) (set_window n h) [] (WaitBudget next items)
  | dispatch_budget_cancelled h next items :
      cancelled h = true ->
      dispatch_step h (WaitBudget next items) h [ReleaseWindow] EndDispatch
  | dispatch_budget_refused h next items :
      fits ResourceWeights_default (resources next) (budget_limit limits) = Ok false ->
      dispatch_step h (WaitBudget next items) h [ReleaseWindow] EndDispatch
  | dispatch_budget h next items b :
      budget_acquire (budget_limit limits) (budget h) (resources next) = Ok (Some b) ->
      dispatch_step h (WaitBudget next items) (set_budget b h) []
        (SendWork {| item := next; queued_reservation := resources next |} items)
  | dispatch_send h queued items :
      work_receivers h <> 0%nat -> N.of_nat (length (work_queue h)) < worker_count ->
      dispatch_step h (SendWork queued items) (set_work_queue (work_queue h ++ [queued]) h) []
        (NextItem items)
  | dispatch_disconnected h queued items :
      work_receivers h = 0%nat ->
      dispatch_step h (SendWork queued items) h (queued_releases queued) EndDispatch
  | dispatch_drop_sender h : dispatch_step h EndDispatch (drop_work_sender h) [] Dispatched.

(** ** The workers *)

(** The checks and the reservation of a finished callback. *)
Definition seal_output (n : N) (context : PrepareContext) (outcome : Outcome U)
  : WorkerOutput U * list Release :=
  let outcome := match outcome with
                 | inl prepared =>
                     if weight_prepared (reserved context) <? bytes prepared
                     then inr ResourceLimit else inl prepared
                 | inr e => inr e
                 end in
  let held := {| initial := initial_reservation context;
                 promoted := promoted_prepared context |} in
  match outcome with
  | inl prepared =>
      let '(kept, released) := retain_output held (bytes prepared) in
      ({| output_ordinal := n; output_result := outcome; output_reservation := Some kept |},
       map ReleaseWeights released)
  | inr _ =>
      ({| output_ordinal := n; output_result := outcome; output_reservation := None |},
       reservation_releases (Some held))
  end.

Definition succeeded (outcome : Outcome U) : bool :=
  match outcome with inl _ => true | inr _ => false end.

Inductive worker_step
  : Shared T U -> WorkerMode T U -> Shared T U -> list Release -> WorkerMode T U -> Prop :=
  | worker_receive h queued rest :
      work_queue h = queued :: rest ->
      worker_step h ReceiveWork (set_work_queue rest h) [] (StartWork queued)
  | worker_disconnected h :
      work_queue h = [] -> work_sender h = false -> worker_step h ReceiveWork h [] DropReceiver
  | worker_start h queued :
      worker_step h (StartWork queued) h []
        (Preparing (ordinal (item queued)) (PrepareContext_new (queued_reservation queued)) []
           (if cancelled h then Done (inr Cancelled)
            else prepare (ordinal (item queued)) (value (item queued))))
  | worker_poll h n context frames k :
      worker_step h (Preparing n context frames (Poll k)) h []
        (Preparing n context frames (k (cancelled h)))
  | worker_direct h n context frames required operation k :
      begin_deferral context required = None ->
      worker_step h (Preparing n context frames (WithResources required operation k)) h []
        (Preparing n context ({| deferral := None; continue := k |} :: frames) operation)
  | worker_defer h n context frames required operation k context' released missing :
      begin_deferral context required = Some (context', released, missing) ->
      worker_step h (Preparing n context frames (WithResources required operation k)) h
        (map ReleaseWeights released)
        (WaitResources n context' frames required missing operation k)
  | worker_unstored h n context frames required missing operation k :
      0 < weight_prepared missing ->
      worker_step h (WaitResources n context frames required missing operation k) h []
        (Preparing n context frames (k (inr ResourceLimit)))
  | worker_wait_cancelled h n context frames required missing operation k :
      cancelled h = true ->
      worker_step h (WaitResources n context frames required missing operation k) h []
        (Preparing n context frames (k (inr Cancelled)))
  | worker_refused h n context frames required missing operation k :
      fits ResourceWeights_default missing (budget_limit limits) = Ok false ->
      worker_step h (WaitResources n context frames required missing operation k) h []
        (Preparing n context frames (k (inr ResourceLimit)))
  | worker_acquire h n context frames required missing operation k b context' held :
      budget_acquire (budget_limit limits) (budget h) missing = Ok (Some b) ->
      enter_deferral context required missing = (context', held) ->
      worker_step h (WaitResources n context frames required missing operation k)
        (set_budget b h) []
        (Preparing n context' ({| deferral := Some held; continue := k |} :: frames) operation)
  | worker_return_direct h n context k frames outcome :
      worker_step h
        (Preparing n context ({| deferral := None; continue := k |} :: frames) (Done outcome)) h []
        (Preparing n context frames (k outcome))
  | worker_return h n context held k frames outcome context' released :
      leave_deferral context held (succeeded outcome) = (context', released) ->
      worker_step h
        (Preparing n context ({| deferral := Some held; continue := k |} :: frames) (Done outcome))
        h (map ReleaseWeights released) (Preparing n context' frames (k outcome))
  | worker_seal h n context outcome output released :
      seal_output n context outcome = (output, released) ->
      worker_step h (Preparing n context [] (Done outcome)) h released (SendOutput output)
  | worker_send h output :
      output_receiver h = true ->
      N.of_nat (length (output_queue h)) < delivery_queue_depth limits ->
      worker_step h (SendOutput output) (set_output_queue (output_queue h ++ [output]) h) []
        ReceiveWork
  | worker_unsent h output :
      output_receiver h = false ->
      worker_step h (SendOutput output) h (output_releases output) DropReceiver
  | worker_drop_receiver h :
      worker_step h DropReceiver (fst (drop_work_receiver h)) (snd (drop_work_receiver h))
        DropSender
  | worker_drop_sender h : worker_step h DropSender (drop_output_sender h) [] Worked.

(** ** The coordinator *)

Definition next_ordinal (l : Ledger U) : option N := ordinals !! next_index l.

(** The key and the output the inner loop of [coordinate_results] removes. *)
Definition next_output (l : Ledger U) : option (N * WorkerOutput U) :=
  n ← next_ordinal l; output ← pending l !! n; Some (n, output).

Definition set_pending (m : gmap N (WorkerOutput U)) (l : Ledger U) : Ledger U :=
  {| pending := m; next_index := next_index l; delivered := delivered l |}.

(** The sink accepted an item of the output removed from [pending]. *)
Definition accept_output (key : N) (o : WorkerOutput U) (prepared : PreparedItem U) (l : Ledger U)
  : Ledger U :=
  {| pending := delete key (pending l); next_index := S (next_index l);
     delivered := delivered l ++ [(output_ordinal o, prepared)] |}.

Inductive coordinator_step : Shared T U -> Ledger U -> CoordinatorMode ->
    Shared T U -> Ledger U -> list Release -> CoordinatorMode -> Prop :=
  | coordinator_complete h l :
      next_ordinal l = None ->
      coordinator_step h l ReceiveOutput h (set_pending ∅ l) (pending_releases (pending l))
        (Closing None)
  | coordinator_disconnected h l :
      next_ordinal l <> None -> output_queue h = [] -> output_senders h = 0%nat ->
      coordinator_step h l ReceiveOutput h (set_pending ∅ l) (pending_releases (pending l))
        (Closing None)
  | coordinator_receive h l output rest :
      next_ordinal l <> None -> output_queue h = output :: rest ->
      pending l !! output_ordinal output = None ->
      coordinator_step h l ReceiveOutput (set_output_queue rest h)
        (set_pending (<[output_ordinal output := output]> (pending l)) l) [] DeliverPending
  | coordinator_duplicate h l output rest old :
      next_ordinal l <> None -> output_queue h = output :: rest ->
      pending l !! output_ordinal output = Some old ->
      coordinator_step h l ReceiveOutput (set_output_queue rest h)
        (set_pending (<[output_ordinal output := output]> (pending l)) l) (output_releases old)
        (Failed Delivery)
  | coordinator_deliver h l key output prepared :
      next_output l = Some (key, output) -> output_result output = inl prepared ->
      sink (delivered l) (output_ordinal output) prepared = inl tt ->
      coordinator_step h l DeliverPending h (accept_output key output prepared l)
        (output_releases output) DeliverPending
  | coordinator_rejected h l key output prepared e :
      next_output l = Some (key, output) -> output_result output = inl prepared ->
      sink (delivered l) (output_ordinal output) prepared = inr e ->
      coordinator_step h l DeliverPending h (set_pending (delete key (pending l)) l)
        (ReleaseWindow :: reservation_releases (output_reservation output)) (Failed e)
  | coordinator_unprepared h l key output e :
      next_output l = Some (key, output) -> output_result output = inr e ->
      coordinator_step h l DeliverPending h (set_pending (delete key (pending l)) l)
        (ReleaseWindow :: reservation_releases (output_reservation output)) (Failed e)
  | coordinator_wait h l :
      next_output l = None -> coordinator_step h l DeliverPending h l [] ReceiveOutput
  | coordinator_failed h l e :
      coordinator_step h l (Failed e) (cancel h) (set_pending ∅ l) (pending_releases (pending l))
        (Closing (Some e))
  | coordinator_error h l e :
      coordinator_step h l (Closing (Some e)) h l [] (Returning (inr e))
  | coordinator_ok h l :
      next_ordinal l = None -> coordinator_step h l (Closing None) h l [] (Returning (inl tt))
  | coordinator_incomplete h l :
      next_ordinal l <> None ->
      coordinator_step h l (Closing None) (cancel h) l [] (Returning (inr Cancelled))
  | coordinator_return h l outcome :
      coordinator_step h l (Returning outcome) (fst (drop_output_receiver h)) l
        (snd (drop_output_receiver h)) (Coordinated outcome).

(** ** The pipeline *)

(** An action of one of the threads. *)
Inductive thread_step : State T U -> State T U -> Prop :=
  | step_dispatcher_release s r rs :
      releases (dispatcher s) = r :: rs ->
      thread_step s (with_dispatcher s (apply_release r (shared s))
                       {| releases := rs; mode := mode (dispatcher s) |})
  | step_dispatcher s h rs m :
      releases (dispatcher s) = [] -> dispatch_step (shared s) (mode (dispatcher s)) h rs m ->
      thread_step s (with_dispatcher s h {| releases := rs; mode := m |})
  | step_worker_release s i t r rs :
      worker_threads s !! i = Some t -> releases t = r :: rs ->
      thread_step s (with_worker s (apply_release r (shared s)) i
                       {| releases := rs; mode := mode t |})
  | step_worker s i t h rs m :
      worker_threads s !! i = Some t -> releases t = [] ->
      worker_step (shared s) (mode t) h rs m ->
      thread_step s (with_worker s h i {| releases := rs; mode := m |})
  | step_coordinator_release s r rs :
      releases (coordinator s) = r :: rs ->
      thread_step s (with_coordinator s (apply_release r (shared s))
                       {| releases := rs; mode := mode (coordinator s) |} (ledger s))
  | step_coordinator s h l rs m :
      releases (coordinator s) = [] ->
      coordinator_step (shared s) (ledger s) (mode (coordinator s)) h l rs m ->
      thread_step s (with_coordinator s h {| releases := rs; mode := m |} l).

(** Or the owner of the token cancels it. *)
Inductive step : State T U -> State T U -> Prop :=
  | step_thread s s' : thread_step s s' -> step s s'
  | step_cancel s :
      cancelled (shared s) = false ->
      step s (with_dispatcher s (cancel (shared s)) (dispatcher s)).

(** The state in which [thread::scope] starts. *)
Definition start (work : list (WorkItem T)) : State T U :=
  {| shared := {| budget := ResourceBudget_new; window := 0; cancelled := false;
                  work_queue := []; work_sender := true;
                  work_receivers := N.to_nat worker_count; output_queue := [];
                  output_senders := N.to_nat worker_count; output_receiver := true |};
     dispatcher := running (NextItem work);
     worker_threads := replicate (N.to_nat worker_count) (running ReceiveWork);
     coordinator := running ReceiveOutput;
     ledger := {| pending := ∅; next_index := 0; delivered := [] |} |}.

(** Every thread has ended: [thread::scope] returns. *)
Definition finished (s : State T U) (outcome : unit + ErrorCategory) : Prop :=
  dispatcher s = running Dispatched /\
  Forall (fun t => t = running Worked) (worker_threads s) /\
  coordinator s = running (Coordinated outcome).
End Run.

(** ** [Pipeline::execute]

    What a call with some work may return, and what the sink has accepted by
    then. A later interleaving of the threads is a choice of [s]. *)

Inductive executes {T U} (limits : ExecutionLimits) (prepare : N -> T -> Callback U)
    (sink : list (N * PreparedItem U) -> N -> PreparedItem U -> unit + ErrorCategory)
    (env : Env) (t : nat) (work : list (WorkItem T))
  : unit + ErrorCategory -> list (N * PreparedItem U) -> Prop :=
  | executes_refused e :
      admit_work limits work env t = Err e -> executes limits prepare sink env t work (inr e) []
  | executes_empty t' :
      admit_work limits work env t = Ok ([], t') ->
      executes limits prepare sink env t work (inl tt) []
  | executes_threads sorted t' (s : State T U) outcome :
      admit_work limits work env t = Ok (sorted, t') -> sorted <> [] ->
      rtc (step limits prepare sink (map ordinal sorted))
        (start limits (map ordinal sorted) sorted) s ->
      finished s outcome ->
      executes limits prepare sink env t work outcome (delivered (ledger s)).
