(* ===== verification/PipelineSpecs.v ===== *)
(** * The pipeline's budgets are exact and bounded

    Whatever the threads do, the bytes in use are those of the permits some
    thread, channel or pending output still holds, the window counts the items
    in flight, and neither exceeds its limit; so no unchecked operation
    overflows and no release saturates. *)

From S2P Require Import Prelude Errors Cancel Limits Pipeline PipelineRun.
Local Open Scope N_scope.

(** ** Weights *)

(** Componentwise order. *)
Definition within (a b : ResourceWeights) : Prop :=
  weight_source a <= weight_source b /\ weight_scratch a <= weight_scratch b /\
  weight_prepared a <= weight_prepared b.

#[export] Instance within_dec a b : Decision (within a b).
Proof. unfold within. apply _. Defined.

Lemma weights_eq a b :
  weight_source a = weight_source b -> weight_scratch a = weight_scratch b ->
  weight_prepared a = weight_prepared b -> a = b.
Proof. destruct a, b; simpl; congruence. Qed.

Lemma within_trans a b c : within a b -> within b c -> within a c.
Proof. unfold within. lia. Qed.

Lemma fits_total used requested limit :
  within used limit -> exists b, fits used requested limit = Ok b /\
    (b = true <-> within requested (subtract_weights limit used)).
Proof.
  intros (H1 & H2 & H3). unfold fits, unchecked_sub, within, subtract_weights, saturating_sub. simpl.
  apply N.leb_le in H1 as ->. cbn [mbind result_bind].
  destruct (_ <=? _) eqn:E1; cbn [negb]; bool_to_prop.
  2: { eexists. split; [done|]. split; [done|lia]. }
  apply N.leb_le in H2 as ->. cbn [mbind result_bind].
  destruct (weight_scratch requested <=? _) eqn:E2; cbn [negb]; bool_to_prop.
  2: { eexists. split; [done|]. split; [done|lia]. }
  apply N.leb_le in H3 as ->. cbn [mbind result_bind].
  eexists. split; [done|]. rewrite N.leb_le. tauto.
Qed.

Lemma add_weights_total a b :
  weight_source a + weight_source b <= u64_MAX -> weight_scratch a + weight_scratch b <= u64_MAX ->
  weight_prepared a + weight_prepared b <= u64_MAX ->
  add_weights a b = Ok (ResourceWeights_new (weight_source a + weight_source b)
    (weight_scratch a + weight_scratch b) (weight_prepared a + weight_prepared b)).
Proof.
  intros H1 H2 H3. unfold add_weights, unchecked_add.
  apply N.leb_le in H1 as ->, H2 as ->, H3 as ->. done.
Qed.

Lemma add_weights_Ok a b c :
  add_weights a b = Ok c ->
  c = ResourceWeights_new (weight_source a + weight_source b)
    (weight_scratch a + weight_scratch b) (weight_prepared a + weight_prepared b).
Proof.
  unfold add_weights, unchecked_add. intros H.
  do 3 (apply bind_Ok in H as (? & H1 & H); destruct_test H1; [injection H1 as <-|done]). by injection H as <-.
Qed.

Lemma budget_acquire_Ok limit state requested state' :
  within (used state) limit ->
  budget_acquire limit state requested = Ok (Some state') ->
  add_weights (used state) requested = Ok (used state') /\ within (used state') limit /\
  peaks state' = max_weights (peaks state) (used state').
Proof.
  intros Hw H. unfold budget_acquire in H.
  destruct (fits_total (used state) requested limit Hw) as (b & Hb & Hfit). rewrite Hb in H.
  cbn [mbind result_bind] in H. destruct b; [|discriminate H].
  apply bind_Ok in H as (now & Hnow & [= <-]). split_and!; [done| |done]. cbn [used].
  apply add_weights_Ok in Hnow as ->. destruct (proj1 Hfit eq_refl) as (?&?&?).
  destruct Hw as (?&?&?). unfold within, subtract_weights, saturating_sub in *. simpl in *. lia.
Qed.

(** What an acquisition that fits gives; in particular it does not panic. *)
Lemma budget_acquire_total limit state requested :
  within (used state) limit ->
  weight_source limit <= u64_MAX -> weight_scratch limit <= u64_MAX ->
  weight_prepared limit <= u64_MAX ->
  exists o, budget_acquire limit state requested = Ok o /\
    (is_Some o <-> within requested (subtract_weights limit (used state))).
Proof.
  intros Hw H1 H2 H3. unfold budget_acquire.
  destruct (fits_total (used state) requested limit Hw) as (b & -> & Hfit). cbn [mbind result_bind].
  destruct b.
  - pose proof (proj1 Hfit eq_refl) as (?&?&?). destruct Hw as (?&?&?).
    unfold subtract_weights, saturating_sub in *. simpl in *.
    rewrite add_weights_total by lia. cbn [mbind result_bind]. eexists. split; [done|].
    split; [by intros; apply Hfit|by eauto].
  - eexists. split; [done|]. split; [by intros []|]. intros H. by apply Hfit in H.
Qed.

(** ** What the threads hold *)

Lemma sumN_map_insert {A} (g : A -> N) l i x y :
  l !! i = Some x ->
  sumN (map g (<[i := y]> l)) + g x = sumN (map g l) + g y.
Proof.
  revert i. induction l as [|z l IH]; intros [|i] H; simplify_eq/=.
  - rewrite !sumN_cons. lia.
  - rewrite !sumN_cons. specialize (IH i H). lia.
Qed.

(** The sum of a cost over the values of a map. *)
Definition map_sum {A} (c : A -> N) (m : gmap N A) : N :=
  sumN (map (fun x => c (snd x)) (map_to_list m)).

Section Map_sum.
Context {A : Type} (c : A -> N).
Implicit Type m : gmap N A.

Lemma map_sum_empty : map_sum c ∅ = 0.
Proof using Type. unfold map_sum. by rewrite map_to_list_empty. Qed.

Lemma map_sum_delete m n a : m !! n = Some a -> map_sum c m = c a + map_sum c (delete n m).
Proof using Type.
  intros H. unfold map_sum. by rewrite <-(sumN_Permutation _ _
    (Permutation_map (fun x : N * A => c (snd x)) (map_to_list_delete m n a H))).
Qed.

Lemma map_sum_insert m n a : m !! n = None -> map_sum c (<[n := a]> m) = c a + map_sum c m.
Proof using Type.
  intros H. rewrite (map_sum_delete _ n a) by apply lookup_insert_eq.
  by rewrite delete_insert_id.
Qed.

Lemma map_sum_replace m n a old :
  m !! n = Some old -> map_sum c (<[n := a]> m) + c old = c a + map_sum c m.
Proof using Type.
  intros H. rewrite (map_sum_delete _ n old H), (map_sum_delete _ n a) by apply lookup_insert_eq.
  rewrite delete_insert_eq. lia.
Qed.

Lemma map_sum_mono (d : A -> N) m : (forall a, c a <= d a) -> map_sum c m <= map_sum d m.
Proof using Type.
  intros H. unfold map_sum. induction (map_to_list m) as [|x l IH]; [done|]. cbn [map].
  rewrite !sumN_cons. specialize (H (snd x)). lia.
Qed.
End Map_sum.

Section Cost.
Context {T U : Type}.

(** The cost of some weights and of one place of the window. *)
Context (f : ResourceWeights -> N) (place : N).

Definition release_cost (r : Release) : N :=
  match r with ReleaseWeights w => f w | ReleaseWindow => place end.
Definition releases_cost (rs : list Release) : N := sumN (map release_cost rs).

Definition context_cost (c : PrepareContext) : N :=
  f (initial_reservation c) + sumN (map f (promoted_prepared c)).
Definition frame_cost (fr : Frame U) : N :=
  match deferral fr with Some d => f (reservation d) | None => 0 end.
Definition preparing_cost (c : PrepareContext) (frames : list (Frame U)) : N :=
  context_cost c + sumN (map frame_cost frames) + place.

Definition dispatcher_cost (m : DispatcherMode T) : N :=
  match m with
  | WaitBudget _ _ => place
  | SendWork queued _ => releases_cost (queued_releases queued)
  | _ => 0
  end.
Definition worker_cost (m : WorkerMode T U) : N :=
  match m with
  | StartWork queued => releases_cost (queued_releases queued)
  | Preparing _ c frames _ | WaitResources _ c frames _ _ _ _ => preparing_cost c frames
  | SendOutput output => releases_cost (output_releases output)
  | _ => 0
  end.
Definition worker_thread_cost (t : Thread (WorkerMode T U)) : N :=
  releases_cost (releases t) + worker_cost (mode t).

Definition queued_cost (q : QueuedWork T) : N := releases_cost (queued_releases q).
Definition output_cost (o : WorkerOutput U) : N := releases_cost (output_releases o).
Definition shared_cost (h : Shared T U) : N :=
  sumN (map queued_cost (work_queue h)) + sumN (map output_cost (output_queue h)).
Definition pending_cost (m : gmap N (WorkerOutput U)) : N := map_sum output_cost m.

(** Everything that has been acquired and not been given back. *)
Definition held (s : State T U) : N :=
  shared_cost (shared s) +
  (releases_cost (releases (dispatcher s)) + dispatcher_cost (mode (dispatcher s))) +
  sumN (map worker_thread_cost (worker_threads s)) +
  releases_cost (releases (coordinator s)) + pending_cost (pending (ledger s)).

(** What the shared counters say is in use. *)
Definition account (h : Shared T U) : N := f (used (budget h)) + place * window h.
End Cost.

(** ** Every step keeps the account *)

Create HintDb pipeline.

(** A cost that splits over the dimensions: of one of them, or of none. *)
Record additive (f : ResourceWeights -> N) : Prop := {
  additive_add a b c a' b' c' :
    f (ResourceWeights_new (a + a') (b + b') (c + c')) =
    f (ResourceWeights_new a b c) + f (ResourceWeights_new a' b' c');
  additive_sub a b : f (subtract_weights a b) = f a - f b
}.

Lemma additive_source : additive weight_source.
Proof. by split. Qed.
Lemma additive_scratch : additive weight_scratch.
Proof. by split. Qed.
Lemma additive_prepared : additive weight_prepared.
Proof. by split. Qed.
Lemma additive_none : additive (fun _ => 0).
Proof. by split. Qed.
#[export] Hint Resolve additive_source additive_scratch additive_prepared additive_none : pipeline.

Lemma releases_cost_app f place rs rs' :
  releases_cost f place (rs ++ rs') = releases_cost f place rs + releases_cost f place rs'.
Proof. unfold releases_cost. by rewrite map_app, sumN_app. Qed.
Lemma releases_cost_cons f place r rs :
  releases_cost f place (r :: rs) = release_cost f place r + releases_cost f place rs.
Proof. done. Qed.
Lemma releases_cost_weights f place ws :
  releases_cost f place (map ReleaseWeights ws) = sumN (map f ws).
Proof. unfold releases_cost. by rewrite map_map. Qed.
Lemma releases_cost_nil f place : releases_cost f place [] = 0.
Proof. done. Qed.
Lemma releases_cost_concat {A} f place (g : A -> list Release) l :
  releases_cost f place (concat (map g l)) = sumN (map (fun a => releases_cost f place (g a)) l).
Proof.
  induction l as [|a l IH]; [done|]. cbn [map concat].
  by rewrite releases_cost_app, sumN_cons, IH.
Qed.
Lemma frames_cost_cons {U} f (fr : Frame U) frames :
  sumN (map (frame_cost f) (fr :: frames)) = frame_cost f fr + sumN (map (frame_cost f) frames).
Proof. done. Qed.

Section Steps.
Context {T U : Type} (limits : ExecutionLimits) (prepare : N -> T -> Callback U).
Context (sink : list (N * PreparedItem U) -> N -> PreparedItem U -> unit + ErrorCategory).
Context (ordinals : list N).
Context (f : ResourceWeights -> N) (place : N) (Hf : additive f).

Lemma additive_zero : f (ResourceWeights_new 0 0 0) = 0.
Proof using Hf.
  assert (f (ResourceWeights_new 0 0 0) = f (ResourceWeights_new 0 0 0) + f (ResourceWeights_new 0 0 0))
    by apply (additive_add f Hf 0 0 0 0 0 0). lia.
Qed.

Lemma additive_split a b c :
  f (ResourceWeights_new a b c) = f (ResourceWeights_new a b 0) + f (ResourceWeights_new 0 0 c).
Proof using Hf.
  rewrite <-(additive_add f Hf a b 0 0 0 c). by rewrite !N.add_0_r, N.add_0_l.
Qed.

Lemma weights_split w :
  f w = f (ResourceWeights_new (weight_source w) (weight_scratch w) 0) +
        f (ResourceWeights_new 0 0 (weight_prepared w)).
Proof using Hf. destruct w. apply additive_split. Qed.

Lemma retained_cost w n :
  let retained := ResourceWeights_new 0 0 (N.min (weight_prepared w) n) in
  f w = f retained + f (subtract_weights w retained).
Proof using Hf.
  intros retained. rewrite (additive_sub f Hf).
  assert (f w = f retained + f (ResourceWeights_new (weight_source w) (weight_scratch w)
    (weight_prepared w - N.min (weight_prepared w) n))) as ->; [|lia].
  unfold retained. rewrite <-(additive_add f Hf), !N.add_0_l. destruct w; simpl.
  do 2 f_equal. lia.
Qed.

Lemma acquired_cost limit state requested state' :
  within (used state) limit -> budget_acquire limit state requested = Ok (Some state') ->
  f (used state') = f (used state) + f requested.
Proof using Hf.
  intros Hw H. destruct (budget_acquire_Ok _ _ _ _ Hw H) as (Ha%add_weights_Ok & _).
  rewrite Ha, (additive_add f Hf). by destruct (used state), requested.
Qed.

Lemma release_prepared_cost w w' released :
  release_prepared w = (w', released) -> f w = f w' + f released.
Proof using Hf. intros [= <- <-]. apply weights_split. Qed.

Lemma split_prepared_cost w w' o :
  split_prepared w = (w', o) -> f w = f w' + sumN (map f (option_list o)).
Proof using Hf.
  intros [= <- <-]. rewrite (weights_split w). destruct (0 <? weight_prepared w) eqn:E; bool_to_prop.
  - simpl. rewrite sumN_cons. change (sumN []) with 0. lia.
  - assert (weight_prepared w = 0) as -> by lia. rewrite additive_zero. simpl. done.
Qed.

Lemma begin_deferral_cost c required c' released missing :
  begin_deferral c required = Some (c', released, missing) ->
  context_cost f c = context_cost f c' + sumN (map f released).
Proof using Hf.
  unfold begin_deferral. case_bool_decide; [done|].
  destruct (0 <? _); [|intros [= <- <- <-]; simpl; change (sumN []) with 0; lia].
  destruct (release_prepared _) as [w' r] eqn:E. intros [= <- <- <-].
  unfold context_cost. simpl. rewrite sumN_cons, (release_prepared_cost _ _ _ E).
  change (sumN []) with 0. lia.
Qed.

Lemma enter_deferral_cost c required acquired c' d :
  enter_deferral c required acquired = (c', d) ->
  context_cost f c' + f (reservation d) = context_cost f c + f acquired.
Proof using Hf.
  unfold enter_deferral. destruct (split_prepared acquired) as [w o] eqn:E. intros [= <- <-].
  unfold context_cost. simpl. rewrite map_app, sumN_app, (split_prepared_cost _ _ _ E). lia.
Qed.

Lemma leave_deferral_cost c d ok c' released :
  leave_deferral c d ok = (c', released) ->
  context_cost f c + f (reservation d) = context_cost f c' + sumN (map f released).
Proof using Type.
  unfold leave_deferral, context_cost. destruct ok; intros [= <- <-]; simpl.
  - rewrite sumN_cons. change (sumN []) with 0. lia.
  - rewrite map_app, sumN_app. simpl. rewrite sumN_cons. change (sumN []) with 0.
    rewrite <-(take_drop (previous_promotions d) (promoted_prepared c)) at 1.
    rewrite map_app, sumN_app. lia.
Qed.

Lemma retain_promoted_cost ps : forall n kept released,
  retain_promoted ps n = (kept, released) -> sumN (map f ps) = sumN (map f kept) + sumN (map f released).
Proof using Hf.
  induction ps as [|p ps IH]; intros n kept released H; [by injection H as <- <-|].
  cbn [retain_promoted] in H.
  destruct (retain_promoted ps _) as [k r] eqn:E. injection H as <- <-. simpl. rewrite !sumN_cons.
  rewrite (IH _ _ _ E), (retained_cost p n) at 1. lia.
Qed.

Lemma seal_output_cost n c (outcome : Outcome U) output released :
  seal_output n c outcome = (output, released) ->
  context_cost f c + place =
  releases_cost f place released + releases_cost f place (output_releases output).
Proof using Hf.
  unfold seal_output. destruct (match outcome with inl _ => _ | inr _ => _ end) as [p|e].
  - destruct (retain_output _ _) as [kept rel] eqn:E. intros [= <- <-].
    unfold retain_output in E. cbn [initial promoted] in E.
    destruct (retain_prepared (initial_reservation c) (bytes p)) as [first r1] eqn:E1.
    destruct (retain_promoted _ _) as [ks rs] eqn:E2. injection E as <- <-.
    injection E1 as <- <-. unfold output_releases, context_cost. simpl.
    rewrite !releases_cost_cons, releases_cost_app, !releases_cost_weights, (retain_promoted_cost _ _ _ _ E2).
    rewrite (retained_cost (initial_reservation c) (bytes p)). simpl.
    rewrite releases_cost_cons, releases_cost_nil. simpl. lia.
  - intros [= <- <-]. unfold output_releases, context_cost. simpl.
    rewrite !releases_cost_cons, releases_cost_weights, releases_cost_nil. simpl. lia.
Qed.

Lemma window_acquire_Ok limit n m : window_acquire limit n = Ok (Some m) -> m = n + 1 /\ n < limit.
Proof using Type.
  unfold window_acquire, unchecked_add. destruct (n <? limit) eqn:E; [|done]. bool_to_prop.
  destruct (_ <=? _); [|done]. by intros [= <-].
Qed.

Lemma pending_releases_cost (m : gmap N (WorkerOutput U)) :
  releases_cost f place (pending_releases m) = pending_cost f place m.
Proof using Type. unfold pending_releases. by rewrite releases_cost_concat. Qed.

(** *** Steps of the threads *)

Lemma dispatch_step_cost (h : Shared T U) m h' rs m' :
  within (used (budget h)) (budget_limit limits) ->
  dispatch_step limits ordinals h m h' rs m' ->
  account f place h' + (shared_cost f place h + dispatcher_cost f place m) =
  account f place h + (shared_cost f place h' + releases_cost f place rs + dispatcher_cost f place m').
Proof using Hf.
  intros Hw. destruct 1; unfold account, shared_cost; cbn [budget window work_queue output_queue
    set_budget set_window set_work_queue drop_work_sender dispatcher_cost];
    rewrite ?releases_cost_nil, ?releases_cost_cons; cbn [release_cost]; rewrite ?releases_cost_nil; try lia.
  - apply window_acquire_Ok in H as [-> _]. lia.
  - rewrite (acquired_cost _ _ _ _ Hw H). unfold queued_releases. cbn [queued_reservation].
    rewrite !releases_cost_cons, releases_cost_nil. cbn [release_cost]. lia.
  - rewrite map_app, sumN_app. simpl. rewrite sumN_cons. unfold queued_cost. change (sumN []) with 0. lia.
Qed.

Lemma worker_step_cost (h : Shared T U) m h' rs m' :
  within (used (budget h)) (budget_limit limits) ->
  worker_step limits prepare h m h' rs m' ->
  account f place h' + (shared_cost f place h + worker_cost f place m) =
  account f place h + (shared_cost f place h' + releases_cost f place rs + worker_cost f place m').
Proof using Hf.
  intros Hw. destruct 1; unfold account, shared_cost, preparing_cost; cbn [budget window work_queue output_queue
    set_budget set_work_queue set_output_queue drop_work_receiver drop_output_sender worker_cost fst snd];
    unfold preparing_cost;
    rewrite ?releases_cost_nil, ?releases_cost_weights, ?frames_cost_cons; try lia.
  - rewrite H. simpl. rewrite sumN_cons. unfold queued_cost. lia.
  - unfold queued_releases, context_cost. simpl. rewrite !releases_cost_cons, releases_cost_nil.
    simpl. change (sumN []) with 0. lia.
  - cbn [frame_cost deferral]. lia.
  - rewrite (begin_deferral_cost _ _ _ _ _ H). lia.
  - rewrite (acquired_cost _ _ _ _ Hw H). apply enter_deferral_cost in H0. cbn [frame_cost deferral]. lia.
  - cbn [frame_cost deferral]. lia.
  - apply leave_deferral_cost in H. cbn [frame_cost deferral]. lia.
  - apply seal_output_cost in H. change (sumN (map (frame_cost f) [])) with 0. lia.
  - rewrite map_app, sumN_app. simpl. rewrite sumN_cons. unfold output_cost. change (sumN []) with 0. lia.
  - destruct (_ =? _)%nat; rewrite ?releases_cost_concat, ?releases_cost_nil; [|lia].
    change (sumN (map _ [])) with 0. unfold queued_cost. lia.
Qed.

Lemma next_output_Some (l : Ledger U) key o :
  next_output ordinals l = Some (key, o) ->
  next_ordinal ordinals l = Some key /\ pending l !! key = Some o.
Proof using Type.
  intros (n & Hn & (o' & Ho & [= -> ->])%bind_Some)%bind_Some. done.
Qed.

Lemma coordinator_step_cost (h : Shared T U) l m h' l' rs m' :
  coordinator_step sink ordinals h l m h' l' rs m' ->
  account f place h' + (shared_cost f place h + pending_cost f place (pending l)) =
  account f place h + (shared_cost f place h' + releases_cost f place rs + pending_cost f place (pending l')).
Proof using Type.
  destruct 1; unfold account, shared_cost, pending_cost; cbn [budget window work_queue output_queue set_output_queue
    cancel drop_output_receiver fst snd set_pending accept_output pending];
    rewrite ?releases_cost_nil, ?pending_releases_cost, ?map_sum_empty; unfold pending_cost; try lia.
  - rewrite map_sum_insert by done. rewrite H0. simpl. rewrite sumN_cons. lia.
  - pose proof (map_sum_replace (output_cost f place) (pending l) _ output old H1). rewrite H0. simpl.
    rewrite sumN_cons. unfold output_cost in *. lia.
  - apply next_output_Some in H as [_ Ho].
    rewrite (map_sum_delete _ _ _ _ Ho).
    unfold output_cost. lia.
  - apply next_output_Some in H as [_ Ho].
    rewrite (map_sum_delete _ _ _ _ Ho).
    unfold output_cost, output_releases. rewrite releases_cost_app, !releases_cost_cons, releases_cost_nil. lia.
  - apply next_output_Some in H as [_ Ho].
    rewrite (map_sum_delete _ _ _ _ Ho).
    unfold output_cost, output_releases. rewrite releases_cost_app, !releases_cost_cons, releases_cost_nil. lia.
  - rewrite releases_cost_concat. change (sumN (map _ [])) with 0. unfold output_cost. lia.
Qed.
End Steps.

(** ** The invariant *)

Section Invariant.
Context {T U : Type} (limits : ExecutionLimits) (prepare : N -> T -> Callback U).
Context (sink : list (N * PreparedItem U) -> N -> PreparedItem U -> unit + ErrorCategory).
Context (ordinals : list N).

(** A cost the counters can be read with: of weights, or of places. *)
Definition readable (f : ResourceWeights -> N) (place : N) : Prop :=
  additive f /\ (place = 0 \/ forall w, f w = 0).

Record budgeted (s : State T U) : Prop := {
  budgeted_used : within (used (budget (shared s))) (budget_limit limits);
  budgeted_peaks : within (used (budget (shared s))) (peaks (budget (shared s))) /\
                   within (peaks (budget (shared s))) (budget_limit limits);
  budgeted_window : window (shared s) <= dispatch_lookahead limits;
  budgeted_exact f place : readable f place -> account f place (shared s) = held f place s
}.

Lemma within_max a b c : within a c -> within b c -> within (max_weights a b) c.
Proof using Type. unfold within, max_weights. simpl. intros. repeat case_match; lia. Qed.
Lemma within_max_r a b : within b (max_weights a b).
Proof using Type. unfold within, max_weights. simpl. repeat case_match; bool_to_prop; lia. Qed.

Lemma apply_release_account f place r (h : Shared T U) :
  readable f place -> release_cost f place r <= account f place h ->
  account f place (apply_release r h) + release_cost f place r = account f place h.
Proof using Type.
  intros [Hf Hr]. unfold account. destruct r as [w|]; cbn [release_cost apply_release set_budget
    set_window budget window budget_release used].
  - rewrite (additive_sub f Hf). destruct Hr as [->|Hr]; [lia|]. rewrite !Hr. lia.
  - unfold window_release, saturating_sub. destruct Hr as [->|Hr]; [lia|]. rewrite !Hr. nia.
Qed.

Lemma apply_release_shared f place r (h : Shared T U) :
  shared_cost f place (apply_release r h) = shared_cost f place h.
Proof using Type. by destruct r. Qed.

(** The fields of the invariant that do not mention what is held. *)
Definition bounded (h : Shared T U) : Prop :=
  within (used (budget h)) (budget_limit limits) /\
  within (used (budget h)) (peaks (budget h)) /\
  within (peaks (budget h)) (budget_limit limits) /\ window h <= dispatch_lookahead limits.

Lemma bounded_release r h : bounded h -> bounded (apply_release r h).
Proof using Type.
  intros (H1 & H2 & H3 & H4). destruct r as [w|]; unfold bounded; cbn [apply_release set_budget
    set_window budget window budget_release used peaks].
  - unfold within in *. simpl in *. unfold saturating_sub. lia.
  - unfold window_release, saturating_sub. split_and!; try done. lia.
Qed.

Lemma bounded_acquire h b requested :
  bounded h -> budget_acquire (budget_limit limits) (budget h) requested = Ok (Some b) ->
  bounded (set_budget b h).
Proof using Type.
  intros (H1 & H2 & H3 & H4) H. destruct (budget_acquire_Ok _ _ _ _ H1 H) as (_ & Hw & Hp).
  unfold bounded. cbn [set_budget budget window]. split_and!; [done| | |done]; rewrite Hp.
  - apply within_max_r.
  - by apply within_max.
Qed.

Lemma dispatch_step_bounded h m h' rs m' :
  dispatch_step limits ordinals h m h' rs m' -> bounded h -> bounded h'.
Proof using Type.
  destruct 1; intros Hb; try exact Hb; [|by eapply bounded_acquire].
  apply window_acquire_Ok in H as [-> Hlt]. destruct Hb as (?&?&?&?).
  unfold bounded. cbn [set_window budget window]. split_and!; try done. lia.
Qed.

Lemma worker_step_bounded h m h' rs m' :
  worker_step limits prepare h m h' rs m' -> bounded h -> bounded h'.
Proof using Type. destruct 1; intros Hb; try exact Hb. by eapply bounded_acquire. Qed.

Lemma coordinator_step_bounded h l m h' l' rs m' :
  coordinator_step sink ordinals h l m h' l' rs m' -> bounded h -> bounded h'.
Proof using Type. destruct 1; intros Hb; exact Hb. Qed.

Lemma step_bounded s s' :
  step limits prepare sink ordinals s s' -> bounded (shared s) -> bounded (shared s').
Proof using Type.
  intros [? ? []|]; cbn [with_dispatcher with_worker with_coordinator shared]; intros Hb;
    eauto using bounded_release, dispatch_step_bounded, worker_step_bounded,
      coordinator_step_bounded.
Qed.

Lemma step_exact f place s s' :
  step limits prepare sink ordinals s s' -> readable f place ->
  within (used (budget (shared s))) (budget_limit limits) ->
  account f place (shared s) = held f place s -> account f place (shared s') = held f place s'.
Proof using Type.
  intros Hstep Hr Hw. unfold held.
  destruct Hstep as [? ? [s r rs Hrs|s h rs m Hrs Hs|s i t r rs Hi Hrs|s i t h rs m Hi Hrs Hs|s r rs Hrs|
    s h l rs m Hrs Hs]|s Hc]; cbn [with_dispatcher with_worker with_coordinator shared dispatcher
      worker_threads coordinator ledger releases mode].
  - rewrite Hrs, releases_cost_cons. intros Ha.
    pose proof (apply_release_account f place r (shared s) Hr ltac:(lia)).
    rewrite apply_release_shared. lia.
  - rewrite Hrs, releases_cost_nil. pose proof (dispatch_step_cost limits ordinals f place (proj1 Hr)
      _ _ _ _ _ Hw Hs). lia.
  - pose proof (sumN_map_insert (worker_thread_cost f place) _ _ _
      {| releases := rs; mode := mode t |} Hi) as Hsum.
    unfold worker_thread_cost in Hsum at 2 4. cbn [releases mode] in Hsum.
    rewrite Hrs, releases_cost_cons in Hsum. intros Ha.
    pose proof (apply_release_account f place r (shared s) Hr ltac:(lia)).
    rewrite apply_release_shared. lia.
  - pose proof (sumN_map_insert (worker_thread_cost f place) _ _ _
      {| releases := rs; mode := m |} Hi) as Hsum.
    unfold worker_thread_cost in Hsum at 2 4. cbn [releases mode] in Hsum.
    rewrite Hrs, releases_cost_nil in Hsum.
    pose proof (worker_step_cost limits prepare f place (proj1 Hr) _ _ _ _ _ Hw Hs). lia.
  - rewrite Hrs, releases_cost_cons. intros Ha.
    pose proof (apply_release_account f place r (shared s) Hr ltac:(lia)).
    rewrite apply_release_shared. lia.
  - rewrite Hrs, releases_cost_nil. pose proof (coordinator_step_cost sink ordinals f place
      _ _ _ _ _ _ _ Hs). lia.
  - done.
Qed.

Lemma sumN_replicate n x : sumN (replicate n x) = N.of_nat n * x.
Proof using Type. induction n as [|n IH]; [done|]. cbn [replicate]. rewrite sumN_cons, IH. lia. Qed.

Lemma start_budgeted work : budgeted (start limits ordinals work).
Proof using Type.
  split; cbn [start shared budget window ResourceBudget_new used peaks].
  - unfold within. simpl. lia.
  - unfold within. simpl. lia.
  - lia.
  - intros f place [Hf _]. unfold held, account, shared_cost, pending_cost. cbn [start shared budget window
      ResourceBudget_new used work_queue output_queue dispatcher running mode releases
      worker_threads coordinator ledger pending map dispatcher_cost].
    rewrite !releases_cost_nil, map_sum_empty, (additive_zero f Hf).
    rewrite fmap_replicate, sumN_replicate. unfold worker_thread_cost. simpl.
    rewrite releases_cost_nil. change (sumN []) with 0. lia.
Qed.

Lemma step_budgeted s s' : step limits prepare sink ordinals s s' -> budgeted s -> budgeted s'.
Proof using Type.
  intros Hs [H1 [H2 H3] H4 H5].
  destruct (step_bounded s s' Hs) as (G1 & G2 & G3 & G4); [exact (conj H1 (conj H2 (conj H3 H4)))|].
  split; [exact G1|exact (conj G2 G3)|exact G4|].
  intros f place Hr. exact (step_exact f place s s' Hs Hr H1 (H5 f place Hr)).
Qed.

Lemma reachable_budgeted work s :
  rtc (step limits prepare sink ordinals) (start limits ordinals work) s -> budgeted s.
Proof using Type.
  intros H. pose proof (start_budgeted work) as H0.
  induction H as [|s s' s'' Hs _ IH]; [exact H0|]. exact (IH (step_budgeted s s' Hs H0)).
Qed.
End Invariant.
