(* ===== verification/PipelineOrder.v ===== *)
(** * Every item is in one place, and is delivered in order

    [located] lists the ordinals of all items by the place they are in. Until
    something fails or is cancelled, it is a permutation of the work; the
    sink has always been given a prefix of it. *)

From S2P Require Import Prelude Errors Cancel Limits Pipeline PipelineRun PipelineSpecs.
Local Open Scope N_scope.

(** The weight of some ordinals. *)
Definition weigh (g : N -> N) (l : list N) : N := sumN (map g l).

Lemma weigh_app g l k : weigh g (l ++ k) = weigh g l + weigh g k.
Proof. unfold weigh. by rewrite map_app, sumN_app. Qed.
Lemma weigh_cons g x l : weigh g (x :: l) = g x + weigh g l.
Proof. done. Qed.
Lemma weigh_nil g : weigh g [] = 0.
Proof. done. Qed.
Lemma weigh_concat {A} g (f : A -> list N) l :
  weigh g (concat (map f l)) = sumN (map (fun a => weigh g (f a)) l).
Proof.
  induction l as [|a l IH]; [done|]. cbn [map concat]. by rewrite weigh_app, sumN_cons, IH.
Qed.
Lemma weigh_map {A} g (f : A -> N) l : weigh g (map f l) = sumN (map (fun a => g (f a)) l).
Proof. unfold weigh. by rewrite map_map. Qed.

(** Weights that agree for every cost are those of the same ordinals. *)
Definition only (x n : N) : N := if decide (n = x) then 1 else 0.

Lemma weigh_only_pos x l : 0 < weigh (only x) l -> x ∈ l.
Proof.
  induction l as [|y l IH]; [done|]. rewrite weigh_cons. unfold only at 1.
  destruct (decide (y = x)) as [->|]; [by left|]. intros H. right. apply IH. lia.
Qed.
Lemma weigh_only_elem x l : x ∈ l -> 0 < weigh (only x) l.
Proof.
  induction 1 as [x l|x y l _ IH]; rewrite weigh_cons; unfold only at 1; [|lia].
  rewrite decide_True by done. lia.
Qed.
Lemma weigh_only_NoDup x l : NoDup l -> weigh (only x) l <= 1.
Proof.
  induction 1 as [|y l Hy _ IH]; [done|]. rewrite weigh_cons. unfold only at 1.
  destruct (decide (y = x)) as [->|]; [|lia]. destruct (decide (0 < weigh (only x) l)) as [H|]; [|lia].
  by apply weigh_only_pos in H.
Qed.
Lemma weigh_one l : weigh (fun _ => 1) l = N.of_nat (length l).
Proof. induction l as [|x l IH]; [done|]. rewrite weigh_cons, IH. simpl. lia. Qed.

Section Places.
Context {T U : Type}.

Definition dispatcher_ordinals (m : DispatcherMode T) : list N :=
  match m with
  | NextItem items => map ordinal items
  | WaitWindow next items | WaitBudget next items => ordinal next :: map ordinal items
  | SendWork queued items => ordinal (item queued) :: map ordinal items
  | EndDispatch | Dispatched => []
  end.

Definition worker_ordinals (m : WorkerMode T U) : list N :=
  match m with
  | StartWork queued => [ordinal (item queued)]
  | Preparing n _ _ _ | WaitResources n _ _ _ _ _ _ => [n]
  | SendOutput output => [output_ordinal output]
  | _ => []
  end.

Definition queue_ordinals (h : Shared T U) : list N :=
  map (fun q => ordinal (item q)) (work_queue h) ++ map output_ordinal (output_queue h).
Definition ledger_ordinals (l : Ledger U) : list N :=
  map fst (delivered l) ++ map (fun x => output_ordinal (snd x)) (map_to_list (pending l)).

(** The items in the hands of workers and channels. *)
Definition flying (s : State T U) : list N :=
  queue_ordinals (shared s) ++ concat (map (fun t => worker_ordinals (mode t)) (worker_threads s)).

Definition located (s : State T U) : list N :=
  ledger_ordinals (ledger s) ++ flying s ++ dispatcher_ordinals (mode (dispatcher s)).

(** The items the dispatcher still has. *)
Definition dispatcher_items (m : DispatcherMode T) : list (WorkItem T) :=
  match m with
  | NextItem items => items
  | WaitWindow next items | WaitBudget next items => next :: items
  | SendWork queued items => item queued :: items
  | EndDispatch | Dispatched => []
  end.

Lemma dispatcher_ordinals_items m : dispatcher_ordinals m = map ordinal (dispatcher_items m).
Proof using Type. by destruct m. Qed.
End Places.

(** ** Steps move items *)

Section Moves.
Context {T U : Type} (limits : ExecutionLimits) (prepare : N -> T -> Callback U).
Context (sink : list (N * PreparedItem U) -> N -> PreparedItem U -> unit + ErrorCategory).
Context (ordinals : list N) (g : N -> N).

(** An item that fits the limits on its own. *)
Definition admitted (i : WorkItem T) : Prop := within (resources i) (budget_limit limits).

Lemma admitted_fits i :
  admitted i -> fits ResourceWeights_default (resources i) (budget_limit limits) = Ok true.
Proof using Type.
  intros Hi. destruct (fits_total ResourceWeights_default (resources i) (budget_limit limits))
    as (b & -> & Hb); [by unfold within; simpl; lia|]. f_equal. apply Hb.
  destruct Hi as (?&?&?). unfold within, subtract_weights, saturating_sub. simpl in *. lia.
Qed.

Definition dispatch_weight (h : Shared T U) (m : DispatcherMode T) : N :=
  weigh g (queue_ordinals h) + weigh g (dispatcher_ordinals m).

Lemma dispatch_step_moves h m h' rs m' :
  dispatch_step limits ordinals h m h' rs m' ->
  dispatch_weight h' m' <= dispatch_weight h m /\
  (cancelled h = false -> Forall admitted (dispatcher_items m) -> work_receivers h <> 0%nat ->
   dispatch_weight h' m' = dispatch_weight h m).
Proof using Type.
  unfold dispatch_weight, queue_ordinals.
  destruct 1; cbn [work_queue output_queue set_window set_budget set_work_queue drop_work_sender
    dispatcher_ordinals map dispatcher_items item];
    rewrite ?map_app; cbn [map]; rewrite ?weigh_app, ?weigh_cons, ?weigh_nil;
    (split; [lia|intros Hc Ha Hr; try congruence; try lia]).
  apply Forall_cons in Ha as [Ha _]. apply admitted_fits in Ha. congruence.
Qed.

Definition worker_weight (h : Shared T U) (m : WorkerMode T U) : N :=
  weigh g (queue_ordinals h) + weigh g (worker_ordinals m).

Lemma seal_output_ordinal n c (outcome : Outcome U) output released :
  seal_output n c outcome = (output, released) -> output_ordinal output = n.
Proof using Type.
  unfold seal_output. destruct (match outcome with inl _ => _ | inr _ => _ end).
  - destruct (retain_output _ _). by intros [= <- <-].
  - by intros [= <- <-].
Qed.

Lemma worker_step_moves h m h' rs m' :
  worker_step limits prepare h m h' rs m' ->
  worker_weight h' m' <= worker_weight h m /\
  (output_receiver h = true -> (m = DropReceiver -> work_queue h = []) ->
   worker_weight h' m' = worker_weight h m).
Proof using Type.
  unfold worker_weight, queue_ordinals.
  destruct 1; cbn [work_queue output_queue set_budget set_work_queue set_output_queue
    drop_work_receiver drop_output_sender fst worker_ordinals];
    rewrite ?map_app; cbn [map]; rewrite ?weigh_app, ?weigh_cons, ?weigh_nil;
    try (rewrite H; cbn [map]); rewrite ?weigh_cons;
    try (apply seal_output_ordinal in H as ->);
    (split; [try lia|intros Hr Hq; try congruence; try lia]).
  - destruct (_ =? _)%nat; cbn [map]; rewrite ?weigh_nil; lia.
  - rewrite (Hq eq_refl). by destruct (_ =? _)%nat.
Qed.

Definition coordinator_weight (h : Shared T U) (l : Ledger U) : N :=
  weigh g (queue_ordinals h) + weigh g (ledger_ordinals l).

(** The coordinator has not given up. *)
Definition collecting (m : CoordinatorMode) : bool :=
  match m with ReceiveOutput | DeliverPending => true | _ => false end.

Lemma weigh_pending (m : gmap N (WorkerOutput U)) :
  weigh g (map (fun x => output_ordinal (snd x)) (map_to_list m)) =
  map_sum (fun o => g (output_ordinal o)) m.
Proof using Type. apply weigh_map. Qed.

Lemma coordinator_step_moves h l m h' l' rs m' :
  coordinator_step sink ordinals h l m h' l' rs m' ->
  coordinator_weight h' l' <= coordinator_weight h l /\
  (collecting m' = true -> coordinator_weight h' l' = coordinator_weight h l).
Proof using Type.
  unfold coordinator_weight, queue_ordinals, ledger_ordinals.
  destruct 1; cbn [work_queue output_queue set_output_queue cancel drop_output_receiver fst
    set_pending accept_output pending delivered collecting];
    rewrite ?weigh_app, ?weigh_pending, ?map_sum_empty;
    try (split; [cbn [map]; rewrite ?weigh_nil; lia|intros; try congruence; lia]).
  - rewrite map_sum_insert by done. rewrite H0. cbn [map]. rewrite weigh_cons. split; lia.
  - pose proof (map_sum_replace (fun o => g (output_ordinal o)) (pending l) _ output old H1) as Hs.
    cbv beta in Hs. rewrite H0. cbn [map]. rewrite weigh_cons. split; [lia|done].
  - apply next_output_Some in H as [_ Ho].
    rewrite (map_sum_delete _ (pending l) _ _ Ho), map_app, weigh_app. cbn [map fst].
    rewrite weigh_cons, weigh_nil. split; lia.
  - apply next_output_Some in H as [_ Ho]. rewrite (map_sum_delete _ (pending l) _ _ Ho).
    split; [lia|done].
  - apply next_output_Some in H as [_ Ho]. rewrite (map_sum_delete _ (pending l) _ _ Ho).
    split; [lia|done].
Qed.
End Moves.

(** ** Channels and the threads that hold them *)

Section Connections.
Context {T U : Type} (limits : ExecutionLimits) (prepare : N -> T -> Callback U).
Context (sink : list (N * PreparedItem U) -> N -> PreparedItem U -> unit + ErrorCategory).
Context (ordinals : list N).

Definition sends_work (m : DispatcherMode T) : bool :=
  match m with Dispatched => false | _ => true end.
Definition receives_work (m : WorkerMode T U) : bool :=
  match m with DropSender | Worked => false | _ => true end.
Definition sends_output (m : WorkerMode T U) : bool :=
  match m with Worked => false | _ => true end.
Definition receives_output (m : CoordinatorMode) : bool :=
  match m with Coordinated _ => false | _ => true end.
(** The worker has left its loop. *)
Definition leaving (m : WorkerMode T U) : bool :=
  match m with DropReceiver | DropSender | Worked => true | _ => false end.

(** Why a worker leaves its loop. *)
Definition idle_or_unheard (h : Shared T U) : Prop :=
  (work_sender h = false /\ work_queue h = []) \/ output_receiver h = false.

Definition count_workers (p : WorkerMode T U -> bool) (ts : list (Thread (WorkerMode T U))) : N :=
  sumN (map (fun t => if p (mode t) then 1 else 0) ts).

Record connected (s : State T U) : Prop := {
  connected_workers : N.of_nat (length (worker_threads s)) = worker_count limits ordinals;
  connected_work_sender : work_sender (shared s) = sends_work (mode (dispatcher s));
  connected_work_receivers :
    N.of_nat (work_receivers (shared s)) = count_workers receives_work (worker_threads s);
  connected_output_senders :
    N.of_nat (output_senders (shared s)) = count_workers sends_output (worker_threads s);
  connected_output_receiver :
    output_receiver (shared s) = receives_output (mode (coordinator s));
  connected_leaving :
    Forall (fun t => leaving (mode t) = true -> idle_or_unheard (shared s)) (worker_threads s);
  connected_work_queue : work_receivers (shared s) = 0%nat -> work_queue (shared s) = [];
  connected_output_queue : output_receiver (shared s) = false -> output_queue (shared s) = []
}.

Lemma count_workers_insert p ts i t u :
  ts !! i = Some t ->
  count_workers p (<[i := u]> ts) + (if p (mode t) then 1 else 0) =
  count_workers p ts + (if p (mode u) then 1 else 0).
Proof using Type. apply (sumN_map_insert (fun t => if p (mode t) then 1 else 0)). Qed.

Lemma count_workers_pos p ts i t :
  ts !! i = Some t -> p (mode t) = true -> 0 < count_workers p ts.
Proof using Type.
  intros Hi Hp. pose proof (count_workers_insert p ts i t {| releases := []; mode := Worked |} Hi) as H.
  rewrite Hp in H. unfold count_workers in *. cbn [mode] in H.
  destruct (decide (0 < sumN (map (fun t => if p (mode t) then 1 else 0) ts))) as [|Hn]; [done|].
  exfalso. revert Hn. clear H. revert i Hi. induction ts as [|u ts IH]; intros [|i] Hi; simplify_eq/=;
    rewrite sumN_cons; [rewrite Hp; lia|]. specialize (IH i Hi). lia.
Qed.

Lemma count_workers_ext p ts i t u :
  ts !! i = Some t -> p (mode u) = p (mode t) ->
  count_workers p (<[i := u]> ts) = count_workers p ts.
Proof using Type. intros Hi Hp. pose proof (count_workers_insert p ts i t u Hi). rewrite Hp in *. lia. Qed.

Lemma connected_dispatcher s h rs m :
  connected s -> dispatch_step limits ordinals (shared s) (mode (dispatcher s)) h rs m ->
  connected (with_dispatcher s h {| releases := rs; mode := m |}).
Proof using Type.
  destruct s as [h0 [rs0 m0] ts c l]. cbn [shared dispatcher mode].
  intros [H1 H2 H3 H4 H5 H6 H7 H8] Hs. cbn [shared dispatcher worker_threads coordinator mode] in *.
  destruct Hs; cbn [sends_work] in H2; (split; try done);
    cbn [with_dispatcher shared worker_threads set_work_queue set_window set_budget drop_work_sender
      work_receivers work_queue]; try done.
  - eapply Forall_impl; [exact H6|]. intros t Ht Hl. destruct (Ht Hl) as [[Hw _]|Hr]; [congruence|by right].
  - eapply Forall_impl; [exact H6|]. intros t Ht Hl. destruct (Ht Hl) as [[Hw _]|Hr]; [congruence|by right].
Qed.

Lemma connected_worker s i t h rs m :
  connected s -> worker_threads s !! i = Some t ->
  worker_step limits prepare (shared s) (mode t) h rs m ->
  connected (with_worker s h i {| releases := rs; mode := m |}).
Proof using Type.
  destruct s as [h0 d ts c l], t as [rs0 m0]. cbn [shared worker_threads mode].
  intros [H1 H2 H3 H4 H5 H6 H7 H8] Hi Hs. cbn [shared dispatcher worker_threads coordinator mode] in *.
  pose proof (count_workers_insert receives_work _ _ _ {| releases := rs; mode := m |} Hi) as Hr.
  pose proof (count_workers_insert sends_output _ _ _ {| releases := rs; mode := m |} Hi) as Ho.
  pose proof (count_workers_pos receives_work _ _ _ Hi) as Hpos.
  pose proof (proj1 (Forall_lookup _ _) H6 i _ Hi) as Hown.
  cbn [mode] in Hr, Ho, Hpos, Hown.
  assert (forall h', output_receiver h' = output_receiver h0 -> work_sender h' = work_sender h0 ->
    (work_queue h0 = [] -> work_queue h' = []) -> (leaving m = true -> idle_or_unheard h') ->
    Forall (fun t => leaving (mode t) = true -> idle_or_unheard h')
      (<[i := {| releases := rs; mode := m |}]> ts)) as Hleave.
  { intros h' E1 E2 E3 E4. apply Forall_insert; [|done]. eapply Forall_impl; [exact H6|].
    intros u Hu Hl. unfold idle_or_unheard in *. rewrite E1, E2. destruct (Hu Hl) as [[??]|?]; auto. }
  destruct Hs; cbn [receives_work sends_output leaving] in *; (split;
    cbn [with_worker shared dispatcher worker_threads coordinator]; [by rewrite length_insert|..]);
    cbn [set_work_queue set_output_queue set_budget drop_work_receiver drop_output_sender fst
      work_receivers output_senders work_queue output_queue output_receiver work_sender] in *;
    try done; try lia; try (by apply Hleave).
  - apply Hleave; [done|done| |done]. intros E. congruence.
  - apply Hleave; [done|done|done|]. intros _. by left.
  - intros. congruence.
  - apply Hleave; [done|done|done|]. intros _. by right.
  - apply Hleave; [done|done| |]; cbn [work_queue].
    + intros ->. by destruct (_ =? _)%nat.
    + intros _. unfold idle_or_unheard in *. cbn [work_sender work_queue output_receiver].
      destruct (Hown eq_refl) as [[-> ->]| ->]; [left|by right]. by destruct (_ =? _)%nat.
  - intros E. specialize (Hpos eq_refl). destruct (_ =? _)%nat eqn:E1; [done|].
    apply Nat.eqb_neq in E1. lia.
Qed.

Lemma connected_coordinator s h l rs m :
  connected s -> coordinator_step sink ordinals (shared s) (ledger s) (mode (coordinator s)) h l rs m ->
  connected (with_coordinator s h {| releases := rs; mode := m |} l).
Proof using Type.
  destruct s as [h0 d ts [rs0 m0] l0]. cbn [shared coordinator mode ledger].
  intros [H1 H2 H3 H4 H5 H6 H7 H8] Hs. cbn [shared dispatcher worker_threads coordinator mode] in *.
  destruct Hs; cbn [receives_output] in H5; (split; try done);
    cbn [with_coordinator shared worker_threads set_output_queue cancel drop_output_receiver fst
      output_queue output_receiver]; try done; try (intros; congruence).
  eapply Forall_impl; [exact H6|]. intros t Ht Hl. unfold idle_or_unheard. by right.
Qed.

Lemma connected_release s r :
  connected s -> connected {| shared := apply_release r (shared s); dispatcher := dispatcher s;
    worker_threads := worker_threads s; coordinator := coordinator s; ledger := ledger s |}.
Proof using Type. intros []. destruct r; by split. Qed.

Lemma step_connected s s' : step limits prepare sink ordinals s s' -> connected s -> connected s'.
Proof using Type.
  intros Hstep H. destruct Hstep as [? ? [s r rs Hrs|s h rs m Hrs Hs|s i t r rs Hi Hrs|
    s i t h rs m Hi Hrs Hs|s r rs Hrs|s h l rs m Hrs Hs]|s Hc].
  - destruct (connected_release s r H). by split.
  - by apply connected_dispatcher.
  - destruct (connected_release s r H) as [H1 H2 H3 H4 H5 H6 H7 H8].
    cbn [shared worker_threads dispatcher coordinator ledger] in *.
    split; cbn [with_worker shared worker_threads dispatcher coordinator ledger]; try done.
    + by rewrite length_insert.
    + by rewrite (count_workers_ext _ _ _ t).
    + by rewrite (count_workers_ext _ _ _ t).
    + apply Forall_insert; [done|]. exact (proj1 (Forall_lookup _ _) H6 i t Hi).
  - by eapply connected_worker.
  - destruct (connected_release s r H). by split.
  - by apply connected_coordinator.
  - destruct H. by split.
Qed.

Lemma start_connected work : connected (start limits ordinals work).
Proof using Type.
  split; cbn [start shared worker_threads dispatcher coordinator work_receivers output_senders]; try done.
  - rewrite length_replicate. lia.
  - unfold count_workers. rewrite fmap_replicate, sumN_replicate. simpl. lia.
  - unfold count_workers. rewrite fmap_replicate, sumN_replicate. simpl. lia.
  - apply Forall_replicate. done.
Qed.
End Connections.

(** ** Order *)

Section Order.
Context {T U : Type} (limits : ExecutionLimits) (prepare : N -> T -> Callback U).
Context (sink : list (N * PreparedItem U) -> N -> PreparedItem U -> unit + ErrorCategory).
Context (work : list (WorkItem T)).
Let ordinals := map ordinal work.

(** What the coordinator knows in each of its modes. *)
Definition phase (m : CoordinatorMode) (h : Shared T U) (l : Ledger U) : Prop :=
  match m with
  | ReceiveOutput => next_output ordinals l = None
  | DeliverPending | Failed _ => True
  | Closing e => pending l = ∅ /\ (is_Some e -> cancelled h = true)
  | Returning o | Coordinated o =>
      pending l = ∅ /\
      match o with inl _ => next_ordinal ordinals l = None | inr _ => cancelled h = true end
  end.

Record tidy (s : State T U) : Prop := {
  tidy_items : exists k, dispatcher_items (mode (dispatcher s)) = drop k work;
  tidy_delivered : map fst (delivered (ledger s)) = take (next_index (ledger s)) ordinals;
  tidy_keys : map_Forall (fun n o => output_ordinal o = n) (pending (ledger s));
  tidy_phase : phase (mode (coordinator s)) (shared s) (ledger s)
}.

Record placed (s : State T U) : Prop := {
  placed_le g : weigh g (located s) <= weigh g ordinals;
  placed_all : cancelled (shared s) = false -> collecting (mode (coordinator s)) = true ->
    forall g, weigh g (located s) = weigh g ordinals
}.

Lemma dispatch_step_items (h : Shared T U) m h' rs m' :
  dispatch_step limits ordinals h m h' rs m' ->
  (exists k, dispatcher_items m = drop k work) -> exists k, dispatcher_items m' = drop k work.
Proof using Type.
  intros Hs [k Hk]. assert (exists k, @nil (WorkItem T) = drop k work) as Hnil.
  { exists (length work). by rewrite drop_ge. }
  destruct Hs; cbn [dispatcher_items item] in *; eauto.
  exists (S k). replace (S k) with (k + 1)%nat by lia. by rewrite <-drop_drop, <-Hk.
Qed.

Lemma dispatch_step_cancelled (h : Shared T U) m h' rs m' :
  dispatch_step limits ordinals h m h' rs m' -> cancelled h' = cancelled h.
Proof using Type. by destruct 1. Qed.
Lemma worker_step_cancelled (h : Shared T U) m h' rs m' :
  worker_step limits prepare h m h' rs m' -> cancelled h' = cancelled h.
Proof using Type. by destruct 1. Qed.

Lemma phase_cancelled m (h h' : Shared T U) l :
  (cancelled h = true -> cancelled h' = true) -> phase m h l -> phase m h' l.
Proof using Type. destruct m as [| | |[]|[]|[]]; simpl; naive_solver. Qed.

Lemma coordinator_step_tidy (h : Shared T U) l m h' l' rs m' :
  coordinator_step sink ordinals h l m h' l' rs m' ->
  map fst (delivered l) = take (next_index l) ordinals ->
  map_Forall (fun n o => output_ordinal o = n) (pending l) -> phase m h l ->
  map fst (delivered l') = take (next_index l') ordinals /\
  map_Forall (fun n o => output_ordinal o = n) (pending l') /\ phase m' h' l'.
Proof using Type.
  intros Hs Hd Hk Hp. destruct Hs; cbn [set_pending accept_output delivered next_index pending phase] in *;
    try (split_and?; first [done|apply map_Forall_empty|by intros []|tauto|naive_solver]; fail).
  - split_and!; [done|by apply map_Forall_insert_2|done].
  - split_and!; [done|by apply map_Forall_insert_2|done].
  - apply next_output_Some in H as [Hn Ho]. pose proof (Hk _ _ Ho) as Hkey. cbv beta in Hkey. subst key.
    split_and!; [|by apply map_Forall_delete|done].
    rewrite map_app, Hd. symmetry. apply take_S_r. exact Hn.
  - split_and!; [done|by apply map_Forall_delete|done].
  - split_and!; [done|by apply map_Forall_delete|done].
  - destruct Hp as [? Hc]. split_and!; [done..|]. by apply Hc.
Qed.

Lemma step_tidy s s' : step limits prepare sink ordinals s s' -> tidy s -> tidy s'.
Proof using Type.
  intros Hstep [H1 H2 H3 H4]. destruct Hstep as [? ? [s r rs Hrs|s h rs m Hrs Hs|s i t r rs Hi Hrs|
    s i t h rs m Hi Hrs Hs|s r rs Hrs|s h l rs m Hrs Hs]|s Hc];
    try (split; [done..|]; eapply phase_cancelled; [|exact H4];
         cbn [with_worker shared];
         first [by destruct r | by rewrite (worker_step_cancelled _ _ _ _ _ Hs) | done]; fail).
  - split; [by eapply dispatch_step_items|done|done|]. eapply phase_cancelled; [|exact H4].
    cbn [with_dispatcher shared]. by rewrite (dispatch_step_cancelled _ _ _ _ _ Hs).
  - by destruct (coordinator_step_tidy _ _ _ _ _ _ _ Hs H2 H3 H4) as (?&?&?).
Qed.

Lemma weigh_located g (s : State T U) :
  weigh g (located s) =
  weigh g (ledger_ordinals (ledger s)) + weigh g (queue_ordinals (shared s)) +
  sumN (map (fun t => weigh g (worker_ordinals (mode t))) (worker_threads s)) +
  weigh g (dispatcher_ordinals (mode (dispatcher s))).
Proof using Type. unfold located, flying. rewrite !weigh_app, weigh_concat. lia. Qed.

Context (Hadmitted : Forall (admitted limits) work).
Context (Hworkers : 0 < worker_count limits ordinals).

Lemma queue_ordinals_release r (h : Shared T U) :
  queue_ordinals (apply_release r h) = queue_ordinals h.
Proof using Type. by destruct r. Qed.

(** While the output side listens and work is being sent, a worker receives. *)
Lemma workers_listen (s : State T U) :
  connected limits ordinals s -> work_sender (shared s) = true ->
  output_receiver (shared s) = true -> work_receivers (shared s) <> 0%nat.
Proof using Hworkers.
  intros [H1 _ H3 _ _ H6 _ _] Hs Ho Hr. rewrite Hr in H3.
  destruct (worker_threads s) as [|t ts]; [simpl in H1; lia|].
  apply Forall_cons in H6 as [Ht _]. unfold idle_or_unheard in Ht.
  unfold count_workers in H3. cbn [map] in H3. rewrite sumN_cons in H3.
  destruct (mode t); cbn [receives_work] in H3; try lia; cbn [leaving] in Ht;
    destruct (Ht eq_refl) as [[??]|?]; congruence.
Qed.

Lemma collecting_receives m : collecting m = true -> receives_output m = true.
Proof using Type. by destruct m. Qed.

Lemma coordinator_step_collecting (h : Shared T U) l m h' l' rs m' :
  coordinator_step sink ordinals h l m h' l' rs m' -> collecting m' = true ->
  collecting m = true /\ cancelled h' = cancelled h.
Proof using Type. by destruct 1. Qed.

Lemma step_placed s s' :
  step limits prepare sink ordinals s s' -> connected limits ordinals s -> tidy s ->
  placed s -> placed s'.
Proof using All.
  intros Hstep Hcon Htidy [Hle Hall]. pose proof Hcon as [C1 C2 C3 C4 C5 C6 C7 C8].
  assert (Forall (admitted limits) (dispatcher_items (mode (dispatcher s)))) as Hadm.
  { destruct (tidy_items _ Htidy) as [k ->]. by apply Forall_drop. }
  destruct Hstep as [? ? [s r rs Hrs|s h rs m Hrs Hs|s i t r rs Hi Hrs|
    s i t h rs m Hi Hrs Hs|s r rs Hrs|s h l rs m Hrs Hs]|s Hc].
  - destruct r; (split; [exact Hle|exact Hall]).
  - assert (forall g, _) as Hm by (intros g; exact (dispatch_step_moves limits ordinals g _ _ _ _ _ Hs)).
    unfold dispatch_weight in Hm. split.
    + intros g. specialize (Hle g). destruct (Hm g) as [Hmg _]. rewrite weigh_located in *.
      cbn [with_dispatcher shared dispatcher worker_threads ledger mode]. lia.
    + cbn [with_dispatcher shared coordinator mode]. rewrite (dispatch_step_cancelled _ _ _ _ _ Hs).
      intros Hc Hcol g. specialize (Hall Hc Hcol g). destruct (Hm g) as [_ Hmg].
      rewrite weigh_located in *. cbn [with_dispatcher shared dispatcher worker_threads ledger mode].
      rewrite <-Hall. specialize (Hmg Hc Hadm).
      assert (work_receivers (shared s) <> 0%nat) as Hl; [|specialize (Hmg Hl); lia].
      apply workers_listen; [done| |by rewrite C5; apply collecting_receives].
      rewrite C2. by inversion Hs.
  - assert (forall g, weigh g (located (with_worker s (apply_release r (shared s)) i
      {| releases := rs; mode := mode t |})) = weigh g (located s)) as He.
    { intros g. rewrite !weigh_located. cbn [with_worker shared dispatcher worker_threads ledger].
      pose proof (sumN_map_insert (fun t => weigh g (worker_ordinals (mode t))) _ _ _
        {| releases := rs; mode := mode t |} Hi) as Hsum. cbn [mode] in Hsum. rewrite queue_ordinals_release. lia. }
    split; intros; rewrite He; [done|]. apply Hall; [|done]. by destruct r.
  - assert (forall g, _) as Hm by (intros g; exact (worker_step_moves limits prepare g _ _ _ _ _ Hs)).
    unfold worker_weight in Hm.
    assert (forall g, weigh g (located (with_worker s h i {| releases := rs; mode := m |})) +
      (weigh g (queue_ordinals (shared s)) + weigh g (worker_ordinals (mode t))) =
      weigh g (located s) + (weigh g (queue_ordinals h) + weigh g (worker_ordinals m))) as He.
    { intros g. rewrite !weigh_located. cbn [with_worker shared dispatcher worker_threads ledger].
      pose proof (sumN_map_insert (fun t => weigh g (worker_ordinals (mode t))) _ _ _
        {| releases := rs; mode := m |} Hi) as Hsum. cbn [mode] in Hsum. lia. }
    split.
    + intros g. specialize (Hle g). specialize (He g). destruct (Hm g) as [Hmg _]. lia.
    + cbn [with_worker shared coordinator]. rewrite (worker_step_cancelled _ _ _ _ _ Hs).
      intros Hc Hcol g. rewrite <-(Hall Hc Hcol g). specialize (He g). destruct (Hm g) as [_ Hmg].
      rewrite C5, (collecting_receives _ Hcol) in Hmg. specialize (Hmg eq_refl). 
      assert (mode t = DropReceiver -> work_queue (shared s) = []) as Hq; [|specialize (Hmg Hq); lia].
      intros Hd. pose proof (proj1 (Forall_lookup _ _) C6 i t Hi) as Hl. cbv beta in Hl.
      rewrite Hd in Hl. destruct (Hl eq_refl) as [[_ ?]|Ho]; [done|].
      rewrite C5, (collecting_receives _ Hcol) in Ho. done.
  - destruct r; (split; [exact Hle|exact Hall]).
  - assert (forall g, _) as Hm by (intros g; exact (coordinator_step_moves sink ordinals g _ _ _ _ _ _ _ Hs)).
    unfold coordinator_weight in Hm. split.
    + intros g. specialize (Hle g). destruct (Hm g) as [Hmg _]. rewrite weigh_located in *.
      cbn [with_coordinator shared dispatcher worker_threads ledger mode]. lia.
    + cbn [with_coordinator shared coordinator mode]. intros Hc Hcol g.
      destruct (coordinator_step_collecting _ _ _ _ _ _ _ Hs Hcol) as [Hcol' Hc'].
      rewrite <-(Hall (eq_trans (eq_sym Hc') Hc) Hcol' g). destruct (Hm g) as [_ Hmg].
      specialize (Hmg Hcol). rewrite !weigh_located.
      cbn [with_coordinator shared dispatcher worker_threads ledger mode]. lia.
  - split; [done|]. cbn [with_dispatcher shared cancel cancelled]. done.
Qed.
End Order.
