(* ===== verification/PipelineProgress.v ===== *)
(** * The pipeline does not get stuck by itself

    From every reachable state some thread can act, or all threads have ended,
    or a worker waits for deferred resources that are in use: the only way to
    wait forever. The last file shows that this can happen. *)

From S2P Require Import Prelude Errors Cancel Limits Pipeline PipelineRun PipelineSpecs PipelineOrder.
Local Open Scope N_scope.

(** Limits a caller can pass: validated, and machine integers. *)
Record limits_ok (limits : ExecutionLimits) : Prop := {
  limits_valid : ExecutionLimits_validate limits = Ok tt;
  limits_lookahead : dispatch_lookahead limits <= usize_MAX;
  limits_source : source_bytes limits <= u64_MAX;
  limits_scratch : scratch_bytes limits <= u64_MAX;
  limits_prepared : prepared_bytes limits <= u64_MAX
}.

Section Progress.
Context {T U : Type} (limits : ExecutionLimits) (prepare : N -> T -> Callback U).
Context (sink : list (N * PreparedItem U) -> N -> PreparedItem U -> unit + ErrorCategory).
Context (work : list (WorkItem T)).
Let ordinals := map ordinal work.

(** ** The invariants together *)

Record sound (s : State T U) : Prop := {
  sound_budgeted : budgeted limits s;
  sound_connected : connected limits ordinals s;
  sound_tidy : tidy work s;
  sound_placed : placed work s
}.

Context (Hlimits : limits_ok limits).
Context (Hwork : work <> []).
Context (Hadmitted : Forall (admitted limits) work).

Lemma worker_count_pos : 0 < worker_count limits ordinals.
Proof using Hlimits Hwork.
  destruct (proj1 (ExecutionLimits_validate_Ok _ _) (limits_valid _ Hlimits)) as (?&_&_&?&_).
  unfold worker_count, ordinals. rewrite length_map.
  destruct (length work) eqn:E; [by apply nil_length_inv in E|]. lia.
Qed.

Lemma start_sound : sound (start limits ordinals work).
Proof using Type.
  split.
  - apply start_budgeted.
  - apply start_connected.
  - split; cbn [start dispatcher running mode dispatcher_items ledger delivered pending].
    + by exists 0%nat.
    + done.
    + apply map_Forall_empty.
    + cbn [coordinator start running mode phase]. unfold next_output. simpl.
      destruct (next_ordinal _ _); [|done]. simpl. by rewrite lookup_empty.
  - assert (forall g, weigh g (located (start limits ordinals work : State T U)) = weigh g ordinals) as H.
    { intros g. rewrite weigh_located. cbn [start ledger shared worker_threads dispatcher running mode
        dispatcher_ordinals]. unfold ledger_ordinals, queue_ordinals.
      cbn [delivered pending work_queue output_queue map app]. rewrite map_to_list_empty.
      cbn [map app]. rewrite !weigh_nil, fmap_replicate, sumN_replicate. unfold ordinals.
      cbn [mode running worker_ordinals]. rewrite weigh_nil. lia. }
    split; intros; rewrite H; done.
Qed.

Lemma step_sound s s' : step limits prepare sink ordinals s s' -> sound s -> sound s'.
Proof using All.
  intros Hs [Hb Hc Ht Hp]. split.
  - exact (step_budgeted limits prepare sink ordinals s s' Hs Hb).
  - exact (step_connected limits prepare sink ordinals s s' Hs Hc).
  - exact (step_tidy limits prepare sink work s s' Hs Ht).
  - exact (step_placed limits prepare sink work Hadmitted worker_count_pos s s' Hs Hc Ht Hp).
Qed.

Lemma reachable_sound s :
  rtc (step limits prepare sink ordinals) (start limits ordinals work) s -> sound s.
Proof using All.
  intros H. pose proof start_sound as H0.
  induction H as [|s s' s'' Hs _ IH]; [exact H0|]. exact (IH (step_sound s s' Hs H0)).
Qed.

(** ** When a worker cannot act *)

Inductive stuck_worker (h : Shared T U) : WorkerMode T U -> Prop :=
  | stuck_ended : stuck_worker h Worked
  | stuck_idle : work_queue h = [] -> work_sender h = true -> stuck_worker h ReceiveWork
  | stuck_waiting n context frames required missing operation k :
      cancelled h = false -> within missing (budget_limit limits) ->
      budget_acquire (budget_limit limits) (budget h) missing = Ok None ->
      stuck_worker h (WaitResources n context frames required missing operation k)
  | stuck_sending output :
      output_receiver h = true ->
      delivery_queue_depth limits <= N.of_nat (length (output_queue h)) ->
      stuck_worker h (SendOutput output).

Lemma acquire_cases requested (state : ResourceState) :
  within (used state) (budget_limit limits) ->
  (exists b, budget_acquire (budget_limit limits) state requested = Ok (Some b)) \/
  budget_acquire (budget_limit limits) state requested = Ok None.
Proof using Hlimits.
  intros Hw. destruct (budget_acquire_total (budget_limit limits) state requested Hw
    (limits_source _ Hlimits) (limits_scratch _ Hlimits) (limits_prepared _ Hlimits))
    as ([b|] & H & _); [left; by exists b|by right].
Qed.

Lemma refused_or_within w :
  fits ResourceWeights_default w (budget_limit limits) = Ok false \/ within w (budget_limit limits).
Proof using Type.
  destruct (fits_total ResourceWeights_default w (budget_limit limits)) as ([] & -> & Hb);
    [by unfold within; simpl; lia| |by left].
  right. pose proof (proj1 Hb eq_refl) as (?&?&?).
  unfold within, subtract_weights, saturating_sub in *. simpl in *. lia.
Qed.

Lemma worker_progress (h : Shared T U) m :
  within (used (budget h)) (budget_limit limits) ->
  (exists h' rs m', worker_step limits prepare h m h' rs m') \/ stuck_worker h m.
Proof using Hlimits.
  intros Hw. destruct m as [|queued|n c frames rest|n c frames required missing operation k|o| | |].
  - destruct (work_queue h) as [|q qs] eqn:Eq.
    + destruct (work_sender h) eqn:Es; [right; by constructor|left; do 3 eexists; by constructor].
    + left. do 3 eexists. by eapply worker_receive.
  - left. do 3 eexists. apply worker_start.
  - left. destruct rest as [outcome|k|required operation k].
    + destruct frames as [|[[held|] k] frames].
      * destruct (seal_output n c outcome) as [o rs] eqn:E. do 3 eexists. by eapply worker_seal.
      * destruct (leave_deferral c held (succeeded outcome)) as [c' rs] eqn:E.
        do 3 eexists. by eapply worker_return.
      * do 3 eexists. apply worker_return_direct.
    + do 3 eexists. apply worker_poll.
    + destruct (begin_deferral c required) as [[[c' rs] missing]|] eqn:E; do 3 eexists;
        [by eapply worker_defer|by eapply worker_direct].
  - destruct (cancelled h) eqn:Ec; [left; do 3 eexists; by eapply worker_wait_cancelled|].
    destruct (refused_or_within missing) as [Hf|Hf]; [left; do 3 eexists; by eapply worker_refused|].
    destruct (acquire_cases missing (budget h) Hw) as [[b Hb]|Hn]; [left|right; by constructor].
    destruct (enter_deferral c required missing) as [c' held] eqn:E.
    do 3 eexists. by eapply worker_acquire.
  - destruct (output_receiver h) eqn:Er; [|left; do 3 eexists; by apply worker_unsent].
    destruct (decide (N.of_nat (length (output_queue h)) < delivery_queue_depth limits)).
    + left. do 3 eexists. by apply worker_send.
    + right. constructor; [done|lia].
  - left. do 3 eexists. apply worker_drop_receiver.
  - left. do 3 eexists. apply worker_drop_sender.
  - right. constructor.
Qed.

Inductive stuck_dispatcher (h : Shared T U) : DispatcherMode T -> Prop :=
  | stuck_dispatched : stuck_dispatcher h Dispatched
  | stuck_window next items :
      cancelled h = false -> dispatch_lookahead limits <= window h ->
      stuck_dispatcher h (WaitWindow next items)
  | stuck_budget next items :
      cancelled h = false -> within (resources next) (budget_limit limits) ->
      budget_acquire (budget_limit limits) (budget h) (resources next) = Ok None ->
      stuck_dispatcher h (WaitBudget next items)
  | stuck_send queued items :
      work_receivers h <> 0%nat -> worker_count limits ordinals <= N.of_nat (length (work_queue h)) ->
      stuck_dispatcher h (SendWork queued items).

Lemma dispatcher_progress (h : Shared T U) m :
  within (used (budget h)) (budget_limit limits) -> window h <= dispatch_lookahead limits ->
  (exists h' rs m', dispatch_step limits ordinals h m h' rs m') \/ stuck_dispatcher h m.
Proof using Hlimits.
  intros Hw Hwin. destruct m as [[|next items]|next items|next items|queued items| |].
  - left. do 3 eexists. apply dispatch_end.
  - left. destruct (cancelled h) eqn:Ec; do 3 eexists; [by apply dispatch_cancelled|by apply dispatch_next].
  - destruct (cancelled h) eqn:Ec; [left; do 3 eexists; by apply dispatch_window_cancelled|].
    destruct (decide (window h < dispatch_lookahead limits)) as [Hl|Hl].
    + left. do 3 eexists. eapply dispatch_window. unfold window_acquire, unchecked_add.
      apply N.ltb_lt in Hl as Hl'. rewrite Hl'. pose proof (limits_lookahead _ Hlimits) as Hm.
      change u64_MAX with usize_MAX. rewrite (proj2 (N.leb_le _ _)) by lia. done.
    + right. constructor; [done|lia].
  - destruct (cancelled h) eqn:Ec; [left; do 3 eexists; by apply dispatch_budget_cancelled|].
    destruct (refused_or_within (resources next)) as [Hf|Hf];
      [left; do 3 eexists; by apply dispatch_budget_refused|].
    destruct (acquire_cases (resources next) (budget h) Hw) as [[b Hb]|Hn];
      [left; do 3 eexists; by eapply dispatch_budget|right; by constructor].
  - destruct (decide (work_receivers h = 0%nat)) as [Hr|Hr];
      [left; do 3 eexists; by apply dispatch_disconnected|].
    destruct (decide (N.of_nat (length (work_queue h)) < worker_count limits ordinals)) as [Hl|Hl];
      [left; do 3 eexists; by apply dispatch_send|right; constructor; [done|lia]].
  - left. do 3 eexists. apply dispatch_drop_sender.
  - right. constructor.
Qed.

Inductive stuck_coordinator (h : Shared T U) (l : Ledger U) : CoordinatorMode -> Prop :=
  | stuck_coordinated outcome : stuck_coordinator h l (Coordinated outcome)
  | stuck_receiving n :
      next_ordinal ordinals l = Some n -> output_queue h = [] -> output_senders h <> 0%nat ->
      stuck_coordinator h l ReceiveOutput.

Lemma coordinator_progress (h : Shared T U) l m :
  (exists h' l' rs m', coordinator_step sink ordinals h l m h' l' rs m') \/ stuck_coordinator h l m.
Proof using Type.
  destruct m as [| |e|[e|]|outcome|outcome].
  - destruct (next_ordinal ordinals l) as [n|] eqn:En;
      [|left; do 4 eexists; by apply coordinator_complete].
    destruct (output_queue h) as [|o os] eqn:Eq.
    + destruct (decide (output_senders h = 0%nat)); [left|right; by econstructor].
      do 4 eexists. apply coordinator_disconnected; [by rewrite En|done..].
    + left. destruct (pending l !! output_ordinal o) as [old|] eqn:Eo; do 4 eexists;
        [eapply coordinator_duplicate; [by rewrite En|done..]|
         eapply coordinator_receive; [by rewrite En|done..]].
  - left. destruct (next_output ordinals l) as [[key o]|] eqn:En;
      [|do 4 eexists; by apply coordinator_wait].
    destruct (output_result o) as [p|e] eqn:Er;
      [|do 4 eexists; by eapply coordinator_unprepared].
    destruct (sink (delivered l) (output_ordinal o) p) as [[]|e] eqn:Es; do 4 eexists;
      [by eapply coordinator_deliver|by eapply coordinator_rejected].
  - left. do 4 eexists. apply coordinator_failed.
  - left. do 4 eexists. apply coordinator_error.
  - left. destruct (next_ordinal ordinals l) eqn:En; do 4 eexists;
      [apply coordinator_incomplete; by rewrite En|by apply coordinator_ok].
  - left. do 4 eexists. apply coordinator_return.
  - right. constructor.
Qed.

(** Some worker acts, or none holds a release and all are stuck. *)
Lemma workers_progress s :
  within (used (budget (shared s))) (budget_limit limits) ->
  (exists s', thread_step limits prepare sink ordinals s s') \/
  Forall (fun t => releases t = [] /\ stuck_worker (shared s) (mode t)) (worker_threads s).
Proof using Hlimits.
  intros Hw. assert (forall ts, (forall i t, ts !! i = Some t -> exists j, worker_threads s !! j = Some t) ->
    (exists s', thread_step limits prepare sink ordinals s s') \/
    Forall (fun t => releases t = [] /\ stuck_worker (shared s) (mode t)) ts) as H.
  { induction ts as [|t ts IH]; intros Hts; [by right|].
    destruct IH as [?|IH]; [intros i u Hi; by apply (Hts (S i))|by left|].
    destruct (Hts 0%nat t eq_refl) as [j Hj]. destruct (releases t) as [|r rs] eqn:Er.
    - destruct (worker_progress (shared s) (mode t) Hw) as [(h & rs & m & Hs)|Hs].
      + left. eexists. by eapply step_worker.
      + right. by constructor.
    - left. eexists. by eapply step_worker_release. }
  apply H. eauto.
Qed.

(** No thread acts. *)
Record halted (s : State T U) : Prop := {
  halted_dispatcher : releases (dispatcher s) = [] /\ stuck_dispatcher (shared s) (mode (dispatcher s));
  halted_workers : Forall (fun t => releases t = [] /\ stuck_worker (shared s) (mode t)) (worker_threads s);
  halted_coordinator : releases (coordinator s) = [] /\
    stuck_coordinator (shared s) (ledger s) (mode (coordinator s))
}.

Lemma step_or_halted s :
  budgeted limits s -> (exists s', thread_step limits prepare sink ordinals s s') \/ halted s.
Proof using Hlimits.
  intros [Hw _ Hwin _]. destruct (workers_progress s Hw) as [?|Hws]; [by left|].
  destruct (releases (dispatcher s)) as [|r rs] eqn:Ed; [|left; eexists; by eapply step_dispatcher_release].
  destruct (releases (coordinator s)) as [|r rs] eqn:Ec; [|left; eexists; by eapply step_coordinator_release].
  destruct (dispatcher_progress (shared s) (mode (dispatcher s)) Hw Hwin) as [(h & rs & m & H)|Hd];
    [left; eexists; by eapply step_dispatcher|].
  destruct (coordinator_progress (shared s) (ledger s) (mode (coordinator s))) as [(h & l & rs & m & H)|Hc];
    [left; eexists; by eapply step_coordinator|]. right. by split.
Qed.

(** Some worker waits for resources in use that would fit on their own. *)
Definition starving (s : State T U) : Prop :=
  cancelled (shared s) = false /\
  exists i t n context frames required missing operation k,
    worker_threads s !! i = Some t /\ releases t = [] /\
    mode t = WaitResources n context frames required missing operation k /\
    within missing (budget_limit limits) /\
    budget_acquire (budget_limit limits) (budget (shared s)) missing = Ok None.

(** The other ways to be stuck. *)
Inductive resting (h : Shared T U) : WorkerMode T U -> Prop :=
  | resting_ended : resting h Worked
  | resting_idle : work_queue h = [] -> work_sender h = true -> resting h ReceiveWork
  | resting_sending output :
      output_receiver h = true -> output_queue h <> [] -> resting h (SendOutput output).

Lemma starving_or_resting s :
  halted s -> starving s \/
  Forall (fun t => releases t = [] /\ resting (shared s) (mode t)) (worker_threads s).
Proof using Hlimits.
  intros [_ Hws _]. assert (forall ts, (forall i t, ts !! i = Some t -> exists j, worker_threads s !! j = Some t) ->
    Forall (fun t => releases t = [] /\ stuck_worker (shared s) (mode t)) ts ->
    starving s \/ Forall (fun t => releases t = [] /\ resting (shared s) (mode t)) ts) as H.
  { induction ts as [|t ts IH]; intros Hts Hall; [by right|]. apply Forall_cons in Hall as [[Ht Hs] Hall].
    destruct IH as [?|IH]; [intros i u Hi; by apply (Hts (S i))|done|by left|].
    destruct (Hts 0%nat t eq_refl) as [j Hj].
    inversion Hs as [Em|? ? Em|n c fr required missing op k Hc Hin Hacq Em|output Ho Hfull Em].
    - right. constructor; [|done]. split; [done|]. rewrite <-Em. constructor.
    - right. constructor; [|done]. split; [done|]. rewrite <-Em. by constructor.
    - left. split; [done|]. exists j, t, n, c, fr, required, missing, op, k. done.
    - right. constructor; [|done]. split; [done|]. rewrite <-Em.
      constructor; [done|]. intros E. rewrite E in Hfull.
      destruct (proj1 (ExecutionLimits_validate_Ok _ _) (limits_valid _ Hlimits)) as (_&_&?&_).
      simpl in Hfull. lia. }
  apply H; eauto.
Qed.

(** ** Every other way to be stuck is to have ended *)

Context (HNoDup : NoDup ordinals).

Lemma some_worker (p : WorkerMode T U -> bool) (ts : list (Thread (WorkerMode T U))) :
  0 < count_workers p ts -> exists i t, ts !! i = Some t /\ p (mode t) = true.
Proof using Type.
  induction ts as [|t ts IH]; [done|]. unfold count_workers in *. cbn [map]. rewrite sumN_cons.
  destruct (p (mode t)) eqn:E; [intros _; by exists 0%nat, t|].
  intros H. destruct IH as (i & u & Hi & Hu); [lia|]. by exists (S i), u.
Qed.

Lemma resting_of s i t :
  Forall (fun t => releases t = [] /\ resting (shared s) (mode t)) (worker_threads s) ->
  worker_threads s !! i = Some t -> resting (shared s) (mode t).
Proof using Type. intros H Hi. exact (proj2 (proj1 (Forall_lookup _ _) H i t Hi)). Qed.

(** While a worker is idle nothing is in a worker's hands or queued for it. *)
Lemma resting_idle_worker s i t :
  output_queue (shared s) = [] ->
  Forall (fun t => releases t = [] /\ resting (shared s) (mode t)) (worker_threads s) ->
  worker_threads s !! i = Some t -> mode t <> Worked ->
  work_queue (shared s) = [] /\ work_sender (shared s) = true.
Proof using Type.
  intros Ho Hall Hi Hm. pose proof (resting_of s i t Hall Hi) as Hr.
  inversion Hr as [Em|? ? Em|output Hor Hq Em]; [congruence|done|congruence].
Qed.

Lemma resting_workers_sum s (c : Thread (WorkerMode T U) -> N) :
  output_queue (shared s) = [] ->
  (forall t, releases t = [] -> mode t = Worked \/ mode t = ReceiveWork -> c t = 0) ->
  Forall (fun t => releases t = [] /\ resting (shared s) (mode t)) (worker_threads s) ->
  sumN (map c (worker_threads s)) = 0.
Proof using Type.
  intros Ho Hc Hall. induction Hall as [|t ts [Hr Ht] _ IH]; [done|]. cbn [map]. rewrite sumN_cons, IH.
  rewrite Hc; [done|done|]. inversion Ht; [by left|by right|congruence].
Qed.

(** The pending outputs by key. *)
Lemma pending_weigh (m : gmap N (WorkerOutput U)) n :
  map_Forall (fun n o => output_ordinal o = n) m ->
  map_sum (fun o => only n (output_ordinal o)) m = if m !! n then 1 else 0.
Proof using Type.
  intros Hkeys. assert (forall m, map_Forall (fun n o => output_ordinal o = n) m -> m !! n = None ->
    map_sum (fun o : WorkerOutput U => only n (output_ordinal o)) m = 0) as Hz.
  { clear m Hkeys. intros m Hkeys Hn.
    induction m as [|k o m Hk IH] using map_ind; [apply map_sum_empty|].
    apply map_Forall_insert in Hkeys as [Hko Hkeys]; [|done]. rewrite map_sum_insert by done.
    rewrite lookup_insert_None in Hn. destruct Hn as [Hn Hkn]. rewrite IH by done.
    unfold only. rewrite decide_False by congruence. done. }
  destruct (m !! n) as [o|] eqn:Ho; [|by apply Hz].
  rewrite (map_sum_delete _ m n o Ho), Hz; [|by apply map_Forall_delete|apply lookup_delete_eq].
  unfold only. rewrite (Hkeys n o Ho), decide_True by done. done.
Qed.

(** A suffix that holds one element of a list without duplicates holds the
    elements after it. *)
Lemma drop_after {A} (l : list A) i k x :
  NoDup l -> l !! i = Some x -> x ∈ drop k l -> (k <= i)%nat.
Proof using Type.
  intros Hl Hi Hx. apply list_elem_of_lookup in Hx as [j Hj]. rewrite lookup_drop in Hj.
  pose proof (NoDup_lookup _ _ _ _ Hl Hi Hj). lia.
Qed.

(** While collecting, everything is with the dispatcher or has been delivered. *)
Lemma nothing_pending s n :
  sound s -> cancelled (shared s) = false -> collecting (mode (coordinator s)) = true ->
  next_ordinal ordinals (ledger s) = Some n -> pending (ledger s) !! n = None ->
  (forall g, weigh g (flying s) = 0) ->
  pending (ledger s) = ∅ /\ dispatcher_items (mode (dispatcher s)) <> [].
Proof using HNoDup.
  intros [_ _ [[k Hk] Hdel Hkeys _] [Hle Hall]] Hc Hm Hn Hpn Hfly. fold ordinals in Hall, Hdel.
  assert (forall x, weigh (only x) (located s) = weigh (only x) (take (next_index (ledger s)) ordinals) +
    (if pending (ledger s) !! x then 1 else 0) + weigh (only x) (drop k ordinals)) as Hloc.
  { intros x. unfold located, ledger_ordinals.
    rewrite !weigh_app, weigh_pending, Hdel, Hfly, dispatcher_ordinals_items, Hk, <-skipn_map.
    rewrite pending_weigh by done. unfold ordinals. lia. }
  assert (forall x, weigh (only x) ordinals = weigh (only x) (take (next_index (ledger s)) ordinals) +
    weigh (only x) (drop (next_index (ledger s)) ordinals)) as Hsplit
    by (intros x; by rewrite <-weigh_app, take_drop).
  assert (n ∈ drop k ordinals) as Hnk.
  { assert (0 < weigh (only n) (drop (next_index (ledger s)) ordinals)).
    { apply weigh_only_elem, list_elem_of_lookup. exists 0%nat.
      rewrite lookup_drop, Nat.add_0_r. exact Hn. }
    apply weigh_only_pos. specialize (Hloc n). rewrite Hpn in Hloc.
    rewrite Hall in Hloc by done. specialize (Hsplit n).
    cbv iota in Hloc. lia. }
  split.
  2: { intros E. rewrite Hk in E. unfold ordinals in Hnk. rewrite skipn_map, E in Hnk. by inversion Hnk. }
  apply map_eq. intros m. rewrite lookup_empty. destruct (pending (ledger s) !! m) as [o|] eqn:Ho; [|done].
  exfalso. specialize (Hloc m). rewrite Ho, Hall in Hloc by done. cbv iota in Hloc.
  pose proof (weigh_only_NoDup m _ HNoDup) as Hone. specialize (Hsplit m).
  assert (0 < weigh (only m) (drop (next_index (ledger s)) ordinals)) as Hpos by lia.
  apply weigh_only_pos in Hpos. pose proof (drop_after ordinals _ k n HNoDup Hn Hnk) as Hki.
  assert (0 < weigh (only m) (drop k ordinals)); [|lia].
  apply weigh_only_elem. replace (next_index (ledger s)) with (k + (next_index (ledger s) - k))%nat in Hpos by lia.
  rewrite <-drop_drop in Hpos. apply list_elem_of_lookup in Hpos as [j Hj]. rewrite lookup_drop in Hj.
  by eapply list_elem_of_lookup_2.
Qed.

(** The coordinator only waits for an output it does not have. *)
Lemma receiving_lacks s n :
  sound s -> mode (coordinator s) = ReceiveOutput -> next_ordinal ordinals (ledger s) = Some n ->
  pending (ledger s) !! n = None.
Proof using Type.
  intros [_ _ [_ _ _ Hphase] _] Hm Hn. rewrite Hm in Hphase. cbn [phase] in Hphase.
  fold ordinals in Hphase. unfold next_output in Hphase. rewrite Hn in Hphase. cbn in Hphase.
  by destruct (pending (ledger s) !! n).
Qed.

(** With nothing in flight, nothing is reserved and the window is empty. *)
Lemma resting_held s f place :
  sound s -> readable f place -> releases (dispatcher s) = [] -> releases (coordinator s) = [] ->
  pending (ledger s) = ∅ -> work_queue (shared s) = [] -> output_queue (shared s) = [] ->
  Forall (fun t => releases t = [] /\ resting (shared s) (mode t)) (worker_threads s) ->
  account f place (shared s) = dispatcher_cost f place (mode (dispatcher s)).
Proof using Type.
  intros [[_ _ _ He] _ _ _] Hr Hd Hc Hp Hwq Hoq Hws. rewrite (He f place Hr). unfold held, shared_cost, pending_cost.
  rewrite Hd, Hc, Hp, Hwq, Hoq, map_sum_empty, releases_cost_nil.
  rewrite (resting_workers_sum s); [cbn [map]; change (sumN []) with 0; lia|done| |done].
  intros t Ht [Et|Et]; unfold worker_thread_cost; rewrite Ht, Et, releases_cost_nil; done.
Qed.

Lemma halted_collecting s n :
  sound s -> halted s -> mode (coordinator s) = ReceiveOutput ->
  next_ordinal ordinals (ledger s) = Some n ->
  output_queue (shared s) = [] -> output_senders (shared s) <> 0%nat -> starving s.
Proof using All.
  intros Hs Hq Hm Hn Hoq Hsenders. destruct (starving_or_resting s Hq) as [?|Hws]; [done|exfalso].
  destruct Hq as [[Hrd Hd] _ [Hrc _]]. pose proof Hs as [Hb Hc Ht Hp].
  destruct (some_worker sends_output (worker_threads s)) as (i & t & Hi & Hti).
  { rewrite <-(connected_output_senders _ _ _ Hc). lia. }
  destruct (resting_idle_worker s i t Hoq Hws Hi) as [Hwq Hws']; [by intros E; rewrite E in Hti|].
  rewrite (connected_work_sender _ _ _ Hc) in Hws'.
  pose proof worker_count_pos as Hpos.
  assert (cancelled (shared s) = false -> pending (ledger s) = ∅) as Hpend.
  { intros Hcan. apply (nothing_pending s n); try done; [by rewrite Hm|by apply receiving_lacks|].
    intros g. unfold flying, queue_ordinals. rewrite Hwq, Hoq, weigh_app, weigh_concat. 
    apply resting_workers_sum; [done| |done]. intros u _ [Et|Et]; by rewrite Et. }
  inversion Hd as [E|next items Hcan Hfull E|next items Hcan Hin Hacq E|queued items Hrec Hfull E];
    rewrite <-E in Hws'.
  - done.
  - pose proof (resting_held s (fun _ => 0) 1 Hs ltac:(split; [apply additive_none|by right])
      Hrd Hrc (Hpend Hcan) Hwq Hoq Hws) as Ha. rewrite <-E in Ha. unfold account in Ha. cbn in Ha.
    destruct (proj1 (ExecutionLimits_validate_Ok _ _) (limits_valid _ Hlimits)) as (_&_&_&?&_). lia.
  - assert (forall f, additive f -> f (used (budget (shared s))) = 0) as Hz.
    { intros f Hf. pose proof (resting_held s f 0 Hs ltac:(split; [done|by left]) Hrd Hrc (Hpend Hcan)
        Hwq Hoq Hws) as Ha. rewrite <-E in Ha. unfold account in Ha. cbn in Ha. lia. }
    destruct (budget_acquire_total (budget_limit limits) (budget (shared s)) (resources next)
      (budgeted_used _ _ Hb) (limits_source _ Hlimits) (limits_scratch _ Hlimits)
      (limits_prepared _ Hlimits)) as (o & Ho & Hiff). rewrite Hacq in Ho. injection Ho as <-.
    assert (is_Some (@None ResourceState)) as []; [|done]. apply Hiff.
    destruct Hin as (?&?&?). unfold within, subtract_weights, saturating_sub. simpl in *.
    rewrite (Hz _ additive_source), (Hz _ additive_scratch), (Hz _ additive_prepared). lia.
  - rewrite Hwq in Hfull. simpl in Hfull. lia.
Qed.

(** When every item has been delivered the dispatcher has none. *)
Lemma all_delivered_items s :
  sound s -> next_ordinal ordinals (ledger s) = None -> dispatcher_items (mode (dispatcher s)) = [].
Proof using Type.
  intros [_ _ [[k Hk] Hdel _ _] [Hle _]] Hn. apply lookup_ge_None in Hn.
  specialize (Hle (fun _ => 1)). fold ordinals in Hle, Hdel. rewrite weigh_located in Hle.
  unfold ledger_ordinals in Hle.
  rewrite weigh_app, Hdel, take_ge in Hle by done. rewrite dispatcher_ordinals_items in Hle.
  rewrite (weigh_one (map ordinal _)), length_map in Hle.
  destruct (dispatcher_items (mode (dispatcher s))); [done|]. simpl in Hle. lia.
Qed.

Lemma halted_coordinated s outcome :
  sound s -> halted s -> mode (coordinator s) = Coordinated outcome ->
  starving s \/ finished s outcome.
Proof using All.
  intros Hs Hq Hm. destruct (starving_or_resting s Hq) as [?|Hws]; [by left|right].
  destruct Hq as [[Hrd Hd] _ [Hrc _]]. pose proof Hs as [Hb Hc Ht Hp].
  pose proof (connected_output_receiver _ _ _ Hc) as Hor. rewrite Hm in Hor. cbn in Hor.
  pose proof (connected_output_queue _ _ _ Hc Hor) as Hoq.
  pose proof (tidy_phase _ _ Ht) as Hph. rewrite Hm in Hph. cbn [phase] in Hph. fold ordinals in Hph.
  assert (cancelled (shared s) = false -> dispatcher_items (mode (dispatcher s)) = []) as Hitems.
  { intros Hcan. destruct Hph as [_ Hph]. destruct outcome; [by apply all_delivered_items|congruence]. }
  assert (mode (dispatcher s) = Dispatched) as Hdone.
  { inversion Hd as [E|next items Hcan Hfull E|next items Hcan Hin Hacq E|queued items Hrec Hfull E]; [done|..];
      try (specialize (Hitems Hcan); rewrite <-E in Hitems; done).
    destruct (some_worker receives_work (worker_threads s)) as (i & t & Hi & Hti).
    { rewrite <-(connected_work_receivers _ _ _ Hc). lia. }
    destruct (resting_idle_worker s i t Hoq Hws Hi) as [Hwq _]; [by intros E'; rewrite E' in Hti|].
    rewrite Hwq in Hfull. pose proof worker_count_pos. simpl in Hfull. lia. }
  split_and!.
  - destruct (dispatcher s). simpl in *. subst. done.
  - apply Forall_lookup. intros i t Hi. destruct (proj1 (Forall_lookup _ _) Hws i t Hi) as [Hr Hrest].
    assert (mode t = Worked) as Hmt.
    { inversion Hrest as [E|? Hwsend E|output Ho ? E]; [done| |congruence].
      rewrite (connected_work_sender _ _ _ Hc), Hdone in Hwsend. done. }
    destruct t. simpl in *. by subst.
  - destruct (coordinator s). simpl in *. by subst.
Qed.

Lemma sound_progress s :
  sound s ->
  (exists s', thread_step limits prepare sink ordinals s s') \/
  (exists outcome, finished s outcome) \/ starving s.
Proof using All.
  intros Hs. destruct (step_or_halted s (sound_budgeted s Hs)) as [?|Hq]; [by left|right].
  destruct (halted_coordinator s Hq) as [_ Hc].
  inversion Hc as [outcome E|n Hn Hoq Hsenders E].
  - destruct (halted_coordinated s outcome) as [?|?]; eauto.
  - right. by eapply halted_collecting.
Qed.

(** ** What a finished run leaves *)

Lemma finished_held s outcome f place :
  sound s -> finished s outcome -> readable f place -> account f place (shared s) = 0.
Proof using Type.
  intros Hs (Hd & Hws & Hc) Hr. pose proof (budgeted_exact _ _ (sound_budgeted s Hs) f place Hr) as ->.
  pose proof (tidy_phase _ _ (sound_tidy s Hs)) as Hph. rewrite Hc in Hph. destruct Hph as [Hp _].
  pose proof (connected_output_receiver _ _ _ (sound_connected s Hs)) as Hor. rewrite Hc in Hor.
  pose proof (connected_output_queue _ _ _ (sound_connected s Hs) Hor) as Hoq.
  assert (count_workers receives_work (worker_threads s) = 0) as Hcount.
  { induction Hws as [|t ts -> _ IH]; [done|]. unfold count_workers in *. cbn [map]. rewrite sumN_cons.
    cbn. lia. }
  pose proof (connected_work_queue _ _ _ (sound_connected s Hs)
    ltac:(rewrite <-(connected_work_receivers _ _ _ (sound_connected s Hs)) in Hcount; lia)) as Hwq.
  unfold held, shared_cost, pending_cost. rewrite Hd, Hc, Hp, Hwq, Hoq, map_sum_empty.
  cbn [running releases mode dispatcher_cost map]. rewrite releases_cost_nil. change (sumN []) with 0.
  assert (sumN (map (worker_thread_cost f place) (worker_threads s)) = 0) as ->; [|lia].
  clear -Hws. induction Hws as [|t ts -> _ IH]; [done|]. cbn [map]. rewrite sumN_cons, IH.
  unfold worker_thread_cost. cbn [running releases mode worker_cost]. rewrite releases_cost_nil. done.
Qed.

Lemma finished_delivered s :
  sound s -> finished s (inl tt) -> map fst (delivered (ledger s)) = ordinals.
Proof using Type.
  intros Hs (_ & _ & Hc). pose proof (tidy_phase _ _ (sound_tidy s Hs)) as Hph.
  rewrite Hc in Hph. destruct Hph as [_ Hn%lookup_ge_None].
  rewrite (tidy_delivered _ _ (sound_tidy s Hs)). by rewrite take_ge.
Qed.

(** ** The reordering buffer *)

Lemma output_place (o : WorkerOutput U) : releases_cost (fun _ => 0) 1 (output_releases o) = 1.
Proof using Type.
  unfold output_releases. rewrite releases_cost_app, releases_cost_cons, releases_cost_nil.
  destruct (output_reservation o) as [r|]; cbn [reservation_releases]; [|rewrite releases_cost_nil; done].
  rewrite releases_cost_cons, releases_cost_weights. cbn [release_cost].
  assert (sumN (map (fun _ : ResourceWeights => 0) (promoted r)) = 0) as ->; [|done].
  induction (promoted r) as [|w ws IH]; [done|]. cbn [map]. by rewrite sumN_cons, IH.
Qed.

Lemma sumN_map_le {A} (g h : A -> N) l : (forall a, g a <= h a) -> sumN (map g l) <= sumN (map h l).
Proof using Type.
  intros H. induction l as [|a l IH]; [done|]. cbn [map]. rewrite !sumN_cons. specialize (H a). lia.
Qed.

(** Every item in flight or pending has a place of the window. *)
Lemma flying_places (s : State T U) :
  weigh (fun _ => 1) (flying s) + N.of_nat (size (pending (ledger s))) <= held (fun _ => 0) 1 s.
Proof using Type.
  unfold flying, held, shared_cost, pending_cost, queue_ordinals.
  rewrite !weigh_app, weigh_concat, !weigh_map.
  assert (map_sum (output_cost (fun _ => 0) 1) (pending (ledger s)) = N.of_nat (size (pending (ledger s)))) as ->.
  { induction (pending (ledger s)) as [|k o m Hk IH] using map_ind; [apply map_sum_empty|].
    rewrite map_sum_insert, map_size_insert_None, IH by done. unfold output_cost. rewrite output_place. lia. }
  pose proof (sumN_map_le (fun q : QueuedWork T => 1) (queued_cost (fun _ => 0) 1) (work_queue (shared s))
    ltac:(intros q; unfold queued_cost, queued_releases; rewrite !releases_cost_cons; cbn [release_cost]; lia)).
  pose proof (sumN_map_le (fun o : WorkerOutput U => 1) (output_cost (fun _ => 0) 1) (output_queue (shared s))
    ltac:(intros o; unfold output_cost; rewrite output_place; lia)).
  assert (sumN (map (fun t => weigh (fun _ => 1) (worker_ordinals (mode t))) (worker_threads s)) <=
    sumN (map (worker_thread_cost (fun _ => 0) 1) (worker_threads s))); [|lia].
  apply sumN_map_le. intros t. unfold worker_thread_cost. destruct (mode t); cbn [worker_ordinals worker_cost];
    rewrite ?weigh_cons, ?weigh_nil; cbv beta; unfold preparing_cost, queued_releases;
    rewrite ?output_place, ?releases_cost_cons; cbn [release_cost]; lia.
Qed.

(** An item is missing while others wait to be delivered, and has a place too. *)
Lemma pending_bound s n :
  sound s -> cancelled (shared s) = false -> collecting (mode (coordinator s)) = true ->
  next_ordinal ordinals (ledger s) = Some n -> pending (ledger s) !! n = None ->
  N.of_nat (size (pending (ledger s))) < dispatch_lookahead limits.
Proof using Hlimits HNoDup.
  intros Hs Hc Hm Hn Hpn. pose proof Hs as [Hb _ [[k Hk] Hdel Hkeys _] [_ Hall]].
  pose proof (budgeted_exact _ _ Hb (fun _ => 0) 1 ltac:(split; [apply additive_none|by right])) as He.
  pose proof (budgeted_window _ _ Hb) as Hwin. unfold account in He.
  pose proof (flying_places s) as Hfly.
  destruct (decide (weigh (fun _ => 1) (flying s) = 0)) as [Hz|]; [|lia].
  destruct (proj1 (ExecutionLimits_validate_Ok _ _) (limits_valid _ Hlimits)) as (_&_&_&?&_).
  assert (pending (ledger s) = ∅) as ->; [|rewrite map_size_empty; lia].
  apply (nothing_pending s n); try done. rewrite weigh_one in Hz. intros g.
  destruct (flying s); [done|]. simpl in Hz. lia.
Qed.
End Progress.

(** * Every run of the pipeline ends

    A step either starts fewer items later, or moves the callback of one worker
    on, or lowers an energy of releases, messages and modes. No bound on the
    callbacks is assumed: each of them is a finite tree of interactions. *)

(** ** Callbacks end *)

Section Tasks.
Context {U : Type}.

(** What is left of a callback. *)
Inductive Task :=
  | Running (frames : list (Frame U)) (rest : Callback U)
  | Waiting (frames : list (Frame U)) (operation : Callback U) (k : Outcome U -> Callback U).

Inductive task_step : Task -> Task -> Prop :=
  | task_poll fs k b : task_step (Running fs (Poll k)) (Running fs (k b))
  | task_direct fs required operation k :
      task_step (Running fs (WithResources required operation k))
        (Running ({| deferral := None; continue := k |} :: fs) operation)
  | task_defer fs required operation k :
      task_step (Running fs (WithResources required operation k)) (Waiting fs operation k)
  | task_give_up fs operation k o : task_step (Waiting fs operation k) (Running fs (k o))
  | task_enter fs operation k d :
      task_step (Waiting fs operation k)
        (Running ({| deferral := d; continue := k |} :: fs) operation)
  | task_return f fs o : task_step (Running (f :: fs) (Done o)) (Running fs (continue f o)).

Definition task_ends : Task -> Prop := Acc (fun t' t => task_step t t').

Lemma running_ends rest : forall fs,
  (forall o, task_ends (Running fs (Done o))) -> task_ends (Running fs rest).
Proof using Type.
  induction rest as [o|k IH|required operation IHop k IHk]; intros fs Hfs; [apply Hfs| |].
  - constructor. intros t Ht. inversion Ht; subst. by apply IH.
  - assert (forall d, task_ends (Running ({| deferral := d; continue := k |} :: fs) operation)) as Hop.
    { intros d. apply IHop. intros o. constructor. intros t Ht. inversion Ht; subst. by apply IHk. }
    constructor. intros t Ht. inversion Ht; subst; [apply Hop|].
    constructor. intros t' Ht'. inversion Ht'; subst; [by apply IHk|apply Hop].
Qed.

Lemma frames_end fs : forall o, task_ends (Running fs (Done o)).
Proof using Type.
  induction fs as [|f fs IH]; intros o; constructor; intros t Ht; inversion Ht; subst.
  by apply running_ends.
Qed.

Lemma every_task_ends t : task_ends t.
Proof using Type.
  assert (forall fs rest, task_ends (Running fs rest)) as H
    by (intros; apply running_ends, frames_end).
  destruct t as [fs rest|fs operation k]; [apply H|].
  constructor. intros t Ht. inversion Ht; subst; apply H.
Qed.

(** A worker's callback moves on or has returned. *)
Inductive slot_step : option Task -> option Task -> Prop :=
  | slot_task t t' : task_step t t' -> slot_step (Some t) (Some t')
  | slot_seal t : slot_step (Some t) None.

Definition slots_step (l l' : list (option Task)) : Prop :=
  exists i x y, l !! i = Some x /\ slot_step x y /\ l' = <[i := y]> l.

Lemma slot_ends x : Acc (fun y x => slot_step x y) x.
Proof using Type.
  assert (Acc (fun y x => slot_step x y) None) as Hnone by (constructor; intros y Hy; inversion Hy).
  destruct x as [t|]; [|done]. induction (every_task_ends t) as [t _ IH].
  constructor. intros y Hy. inversion Hy; subst; [by apply IH|done].
Qed.

Lemma slots_end l : Acc (fun l' l => slots_step l l') l.
Proof using Type.
  induction l as [|x l IH].
  - constructor. intros l' (i & x & y & Hi & _). done.
  - revert l IH. induction (slot_ends x) as [x _ IHx]. intros l Hl.
    pose proof Hl as Hl'. induction Hl' as [l _ IHl]. constructor. intros l' (i & u & v & Hi & Huv & ->).
    destruct i as [|i]; simpl in *; [injection Hi as ->; by apply IHx|].
    assert (slots_step l (<[i := v]> l)) as Hs by (by exists i, u, v).
    apply IHl; [done|]. by apply (Acc_inv Hl).
Qed.
End Tasks.
Arguments Task : clear implicits.

(** ** The measure *)

Section Measure.
Context {T U : Type} (limits : ExecutionLimits) (prepare : N -> T -> Callback U).
Context (sink : list (N * PreparedItem U) -> N -> PreparedItem U -> unit + ErrorCategory).
Context (ordinals : list N).

Definition unstarted_items (m : DispatcherMode T) : N :=
  match m with
  | NextItem items => N.of_nat (length items)
  | WaitWindow _ items | WaitBudget _ items | SendWork _ items => 1 + N.of_nat (length items)
  | EndDispatch | Dispatched => 0
  end.
Definition unstarted_worker (m : WorkerMode T U) : N :=
  match m with StartWork _ => 1 | _ => 0 end.

(** The items no worker has started. *)
Definition unstarted (s : State T U) : N :=
  unstarted_items (mode (dispatcher s)) + N.of_nat (length (work_queue (shared s))) +
  sumN (map (fun t => unstarted_worker (mode t)) (worker_threads s)).

Definition slot (m : WorkerMode T U) : option (Task U) :=
  match m with
  | Preparing _ _ fs rest => Some (Running fs rest)
  | WaitResources _ _ fs _ _ operation k => Some (Waiting fs operation k)
  | _ => None
  end.
Definition slots (s : State T U) : list (option (Task U)) :=
  map (fun t => slot (mode t)) (worker_threads s).

Definition release_count : list Release -> N := releases_cost (fun _ => 1) 1.
Definition output_count (o : WorkerOutput U) : N := release_count (output_releases o).

Definition dispatcher_energy (m : DispatcherMode T) : N :=
  match m with
  | NextItem items => 10 * N.of_nat (length items) + 2
  | WaitWindow _ items => 10 * N.of_nat (length items) + 11
  | WaitBudget _ items => 10 * N.of_nat (length items) + 10
  | SendWork _ items => 10 * N.of_nat (length items) + 9
  | EndDispatch => 1
  | Dispatched => 0
  end.
Definition worker_energy (m : WorkerMode T U) : N :=
  match m with
  | ReceiveWork => 3
  | StartWork _ => 7
  | SendOutput o => output_count o + 7
  | DropReceiver => 2
  | DropSender => 1
  | _ => 0
  end.
Definition coordinator_energy (m : CoordinatorMode) : N :=
  match m with
  | DeliverPending => 6 | ReceiveOutput => 5 | Failed _ => 4 | Closing _ => 3 | Returning _ => 2
  | Coordinated _ => 0
  end.
Definition shared_energy (h : Shared T U) : N :=
  5 * N.of_nat (length (work_queue h)) +
  sumN (map (fun o => output_count o + 3) (output_queue h)) + (if cancelled h then 0 else 1).
Definition pending_energy (l : Ledger U) : N := map_sum (fun o => output_count o + 1) (pending l).

Definition energy (s : State T U) : N :=
  shared_energy (shared s) +
  (release_count (releases (dispatcher s)) + dispatcher_energy (mode (dispatcher s))) +
  sumN (map (fun t => release_count (releases t) + worker_energy (mode t)) (worker_threads s)) +
  (release_count (releases (coordinator s)) + coordinator_energy (mode (coordinator s)) +
   pending_energy (ledger s)).

(** ** Every step lowers the measure *)

Lemma dispatch_step_energy (h : Shared T U) m h' rs m' :
  dispatch_step limits ordinals h m h' rs m' ->
  let u h m := unstarted_items m + N.of_nat (length (work_queue h)) in
  u h' m' < u h m \/
  u h' m' = u h m /\
  shared_energy h' + release_count rs + dispatcher_energy m' < shared_energy h + dispatcher_energy m.
Proof using Type.
  unfold shared_energy, release_count.
  destruct 1; cbn [work_queue output_queue cancelled set_window set_budget set_work_queue drop_work_sender
    unstarted_items dispatcher_energy length]; rewrite ?length_app, ?releases_cost_nil; cbn [length];
    try (left; lia); right; split; try lia.
Qed.

Lemma pending_energy_empty (l : Ledger U) :
  release_count (pending_releases (pending l)) + pending_energy (set_pending ∅ l) <= pending_energy l.
Proof using Type.
  unfold pending_energy, release_count. cbn [set_pending pending].
  rewrite pending_releases_cost, map_sum_empty, N.add_0_r.
  apply map_sum_mono. intros o. unfold output_count, output_cost, release_count. lia.
Qed.

Lemma coordinator_step_energy (h : Shared T U) l m h' l' rs m' :
  coordinator_step sink ordinals h l m h' l' rs m' ->
  work_queue h' = work_queue h /\
  shared_energy h' + release_count rs + coordinator_energy m' + pending_energy l' <
  shared_energy h + coordinator_energy m + pending_energy l.
Proof using Type.
  intros Hs. split; [by destruct Hs|]. unfold shared_energy.
  destruct Hs; cbn [work_queue output_queue cancelled set_output_queue cancel drop_output_receiver fst snd
    coordinator_energy]; unfold release_count; rewrite ?releases_cost_nil;
    try (pose proof (pending_energy_empty l) as Hp; unfold release_count in Hp);
    try (destruct (cancelled h); lia); try rewrite H0; cbn [map]; rewrite ?sumN_cons;
    unfold pending_energy; cbn [set_pending accept_output pending].
  - rewrite map_sum_insert by done. lia.
  - pose proof (map_sum_replace (fun o => output_count o + 1) (pending l) _ output old H1).
    unfold output_count in *. unfold release_count in *. lia.
  - apply next_output_Some in H as [_ Ho].
    rewrite (map_sum_delete _ (pending l) _ _ Ho). unfold output_count, release_count. lia.
  - apply next_output_Some in H as [_ Ho].
    rewrite (map_sum_delete _ (pending l) _ _ Ho). unfold output_count, release_count, output_releases.
    rewrite releases_cost_app, !releases_cost_cons, releases_cost_nil. lia.
  - apply next_output_Some in H as [_ Ho].
    rewrite (map_sum_delete _ (pending l) _ _ Ho). unfold output_count, release_count, output_releases.
    rewrite releases_cost_app, !releases_cost_cons, releases_cost_nil. lia.
  - rewrite releases_cost_concat. change (sumN []) with 0.
    assert (sumN (map (fun o => releases_cost (fun _ => 1) 1 (output_releases o)) (output_queue h)) <=
      sumN (map (fun o : WorkerOutput U => output_count o + 3) (output_queue h))); [|destruct (cancelled h); lia].
    induction (output_queue h) as [|o os IH]; [done|]. cbn [map]. rewrite !sumN_cons.
    unfold output_count at 1. unfold release_count. lia.
Qed.

Lemma worker_step_energy (h : Shared T U) m h' rs m' :
  worker_step limits prepare h m h' rs m' ->
  let u h m := N.of_nat (length (work_queue h)) + unstarted_worker m in
  u h' m' < u h m \/
  u h' m' = u h m /\
  (slot_step (slot m) (slot m') \/
   slot m' = slot m /\
   shared_energy h' + release_count rs + worker_energy m' < shared_energy h + worker_energy m).
Proof using Type.
  unfold shared_energy.
  destruct 1; cbn [work_queue output_queue cancelled set_work_queue set_output_queue set_budget
    drop_work_receiver drop_output_sender fst snd unstarted_worker slot worker_energy length];
    try (left; lia); try (right; split; [lia|]; left; repeat constructor; fail).
  - rewrite H. cbn [length]. right. split; [lia|]. right. split; [done|].
    unfold release_count. rewrite releases_cost_nil. lia.
  - right. split; [lia|]. right. split; [done|]. unfold release_count. rewrite releases_cost_nil. lia.
  - right. split; [lia|]. right. split; [done|]. unfold release_count. rewrite releases_cost_nil.
    rewrite map_app, sumN_app. cbn [map]. rewrite sumN_cons. change (sumN []) with 0. lia.
  - right. split; [lia|]. right. split; [done|]. fold (output_count output). lia.
  - unfold release_count. destruct (_ =? _)%nat; [|right; split; [lia|]; right; split; [done|];
      rewrite releases_cost_nil; lia].
    destruct (work_queue h) as [|q qs]; [|left; simpl; lia]. right. split; [done|]. right.
    split; [done|]. cbn. rewrite releases_cost_nil. lia.
  - right. split; [lia|]. right. split; [done|]. unfold release_count. rewrite releases_cost_nil. lia.
Qed.

(** The state's three measures, in the order of importance. *)
Definition lower (s' s : State T U) : Prop :=
  unstarted s' < unstarted s \/
  unstarted s' = unstarted s /\
  (slots_step (slots s) (slots s') \/ slots s' = slots s /\ energy s' < energy s).

Lemma apply_release_energy r (h : Shared T U) :
  shared_energy (apply_release r h) = shared_energy h /\ work_queue (apply_release r h) = work_queue h.
Proof using Type. by destruct r. Qed.

Lemma release_count_cons r rs : release_count (r :: rs) = 1 + release_count rs.
Proof using Type. unfold release_count. rewrite releases_cost_cons. by destruct r. Qed.

Lemma slots_insert ts i (t : Thread (WorkerMode T U)) :
  map (fun t => slot (mode t)) (<[i := t]> ts) = <[i := slot (mode t)]> (map (fun t => slot (mode t)) ts).
Proof using Type. apply (list_fmap_insert (fun t => slot (mode t))). Qed.

Lemma step_lower s s' : step limits prepare sink ordinals s s' -> lower s' s.
Proof using Type.
  intros Hstep. unfold lower, unstarted, energy, slots.
  destruct Hstep as [? ? [s r rs Hrs|s h rs m Hrs Hs|s i t r rs Hi Hrs|
    s i t h rs m Hi Hrs Hs|s r rs Hrs|s h l rs m Hrs Hs]|s Hc];
    cbn [with_dispatcher with_worker with_coordinator shared dispatcher worker_threads coordinator
      ledger releases mode]; try rewrite Hrs; try rewrite release_count_cons;
    try (destruct (apply_release_energy r (shared s)) as [-> ->]).
  - right. split; [done|]. right. split; [done|lia].
  - apply dispatch_step_energy in Hs as [Hs|[Hu He]]; [left; lia|right].
    split; [lia|]. right. split; [done|]. unfold release_count in *. rewrite releases_cost_nil. lia.
  - pose proof (sumN_map_insert (fun t => unstarted_worker (mode t)) _ _ _ 
      {| releases := rs; mode := mode t |} Hi) as Hu. cbn [mode] in Hu.
    pose proof (sumN_map_insert (fun t => release_count (releases t) + worker_energy (mode t)) _ _ _
      {| releases := rs; mode := mode t |} Hi) as He. cbn [mode releases] in He.
    rewrite Hrs, release_count_cons in He.
    right. split; [lia|]. right. split; [|lia].
    rewrite slots_insert. cbn [mode]. apply list_insert_id. by rewrite list_lookup_fmap, Hi.
  - pose proof (sumN_map_insert (fun t => unstarted_worker (mode t)) _ _ _ 
      {| releases := rs; mode := m |} Hi) as Hu. cbn [mode] in Hu.
    pose proof (sumN_map_insert (fun t => release_count (releases t) + worker_energy (mode t)) _ _ _
      {| releases := rs; mode := m |} Hi) as He. cbn [mode releases] in He.
    assert (map (fun t => slot (mode t)) (worker_threads s) !! i = Some (slot (mode t))) as Hslot
      by (by rewrite list_lookup_fmap, Hi).
    apply worker_step_energy in Hs as [Hs|[Hs [Ht|[Ht Hen]]]]; [left; lia|right..]; (split; [lia|]).
    + left. exists i, (slot (mode t)), (slot m). by rewrite slots_insert.
    + right. split; [by rewrite slots_insert; cbn [mode]; rewrite Ht; apply list_insert_id|].
      rewrite Hrs in He. unfold release_count in *. rewrite releases_cost_nil in He. lia.
  - right. split; [done|]. right. split; [done|lia].
  - apply coordinator_step_energy in Hs as [-> He]. right. split; [done|]. right. split; [done|].
    unfold release_count in *. rewrite releases_cost_nil. lia.
  - right. split; [done|]. right. split; [done|]. unfold shared_energy. cbn [cancel cancelled work_queue
      output_queue]. rewrite Hc. lia.
Qed.

Lemma lower_wf s : Acc lower s.
Proof using Type.
  remember (unstarted s) as n eqn:Hn. revert s Hn.
  induction n as [n IHn] using (well_founded_induction N.lt_wf_0). intros s Hn.
  remember (slots s) as l eqn:Hl. revert s Hn Hl. induction (slots_end l) as [l _ IHl]. intros s Hn Hl.
  remember (energy s) as e eqn:He. revert s Hn Hl He.
  induction e as [e IHe] using (well_founded_induction N.lt_wf_0). intros s Hn Hl He.
  constructor. intros s' [Hu|[Hu [Hs|[Hs Hlt]]]].
  - apply (IHn (unstarted s')); [by rewrite Hn|done].
  - apply (IHl (slots s')); [by rewrite Hl|by rewrite Hu|done].
  - apply (IHe (energy s')); [by rewrite He|by rewrite Hu|by rewrite Hs|done].
Qed.

Lemma step_ends s : Acc (fun s' s => step limits prepare sink ordinals s s') s.
Proof using Type.
  induction (lower_wf s) as [s _ IH]. constructor. intros s' Hs. apply IH. by apply step_lower.
Qed.
End Measure.
