(* ===== verification/PipelineDelivery.v ===== *)
(** * A run in which nothing fails delivers everything

    When every callback keeps within the resources of its item and returns a
    result that fits them, and the sink accepts the results in order, the
    threads only stop once all results have been delivered, whatever the
    interleaving. *)

From S2P Require Import Prelude Errors Cancel Limits Pipeline PipelineRun PipelineSpecs PipelineOrder.
From S2P Require Import PipelineProgress.
Local Open Scope N_scope.

(** ** Callbacks that keep within a reservation *)

Section Callbacks.
Context {U : Type}.

(** What a callback returns when it finds nothing cancelled and every operation
    runs at once. *)
Fixpoint outcome_of (c : Callback U) : Outcome U :=
  match c with
  | Done o => o
  | Poll k => outcome_of (k false)
  | WithResources _ operation k => outcome_of (k (outcome_of operation))
  end.

(** On that path it never asks for more than it holds. *)
Fixpoint contained (w : ResourceWeights) (c : Callback U) : Prop :=
  match c with
  | Done _ => True
  | Poll k => contained w (k false)
  | WithResources required operation k =>
      within required w /\ contained w operation /\ contained w (k (outcome_of operation))
  end.

(** The same through the open calls. *)
Fixpoint unwind (fs : list (Frame U)) (o : Outcome U) : Outcome U :=
  match fs with [] => o | f :: fs => unwind fs (outcome_of (continue f o)) end.
Fixpoint frames_contained (w : ResourceWeights) (fs : list (Frame U)) (o : Outcome U) : Prop :=
  match fs with
  | [] => True
  | f :: fs => deferral f = None /\ contained w (continue f o) /\
               frames_contained w fs (outcome_of (continue f o))
  end.

Lemma begin_deferral_within c required :
  within required (reserved c) -> begin_deferral c required = None.
Proof using Type.
  intros (H1 & H2 & H3). unfold begin_deferral.
  rewrite bool_decide_eq_true_2; [done|]. unfold subtract_weights, saturating_sub, ResourceWeights_default.
  apply weights_eq; simpl; lia.
Qed.

Lemma begin_deferral_None c required :
  begin_deferral c required = None -> within required (reserved c).
Proof using Type.
  unfold begin_deferral. case_bool_decide as H; [intros _|by destruct (0 <? _)].
  unfold subtract_weights, saturating_sub, ResourceWeights_default, ResourceWeights_new in H.
  injection H as H1 H2 H3. unfold within. lia.
Qed.
End Callbacks.

Section Delivery.
Context {T U : Type} (limits : ExecutionLimits) (prepare : N -> T -> Callback U).
Context (sink : list (N * PreparedItem U) -> N -> PreparedItem U -> unit + ErrorCategory).
Context (work : list (WorkItem T)) (results : list (PreparedItem U)).
Let ordinals := map ordinal work.

(** The callback of an item prepares a result within the item's resources. *)
Definition prepares (i : WorkItem T) (p : PreparedItem U) : Prop :=
  outcome_of (prepare (ordinal i) (value i)) = inl p /\
  contained (resources i) (prepare (ordinal i) (value i)) /\
  bytes p <= weight_prepared (resources i).

(** The sink accepts the results one after the other. *)
Definition accepts : Prop :=
  forall k n p, zip ordinals results !! k = Some (n, p) ->
    sink (take k (zip ordinals results)) n p = inl tt.

Definition queued_ok (q : QueuedWork T) : Prop :=
  item q ∈ work /\ queued_reservation q = resources (item q).

Definition output_ok (o : WorkerOutput U) : Prop :=
  exists p, (output_ordinal o, p) ∈ zip ordinals results /\ output_result o = inl p.

Definition dispatcher_ok (m : DispatcherMode T) : Prop :=
  match m with SendWork q _ => queued_ok q | _ => True end.

Definition worker_ok (m : WorkerMode T U) : Prop :=
  match m with
  | StartWork q => queued_ok q
  | Preparing n c fs rest =>
      exists p, (n, p) ∈ zip ordinals results /\ bytes p <= weight_prepared (reserved c) /\
        contained (reserved c) rest /\ frames_contained (reserved c) fs (outcome_of rest) /\
        unwind fs (outcome_of rest) = inl p
  | WaitResources _ _ _ _ _ _ _ => False
  | SendOutput o => output_ok o
  | _ => True
  end.

Definition coordinator_ok (m : CoordinatorMode) (l : Ledger U) : Prop :=
  match m with
  | ReceiveOutput | DeliverPending => True
  | Closing None => next_ordinal ordinals l = None
  | Returning (inl _) | Coordinated (inl _) => True
  | _ => False
  end.

(** Nothing has failed so far. *)
Record healthy (s : State T U) : Prop := {
  healthy_cancelled : cancelled (shared s) = false;
  healthy_dispatcher : dispatcher_ok (mode (dispatcher s));
  healthy_work : Forall queued_ok (work_queue (shared s));
  healthy_workers : Forall (fun t => worker_ok (mode t)) (worker_threads s);
  healthy_output : Forall output_ok (output_queue (shared s));
  healthy_pending : map_Forall (fun _ o => output_ok o) (pending (ledger s));
  healthy_delivered : delivered (ledger s) = take (next_index (ledger s)) (zip ordinals results);
  healthy_coordinator : coordinator_ok (mode (coordinator s)) (ledger s)
}.

Context (Hprepares : Forall2 prepares work results).

Lemma prepares_item i : i ∈ work -> exists p, prepares i p /\ (ordinal i, p) ∈ zip ordinals results.
Proof using Hprepares.
  intros [j Hj]%list_elem_of_lookup. destruct (Forall2_lookup_l _ _ _ _ _ Hprepares Hj) as (p & Hp & H).
  exists p. split; [done|]. apply list_elem_of_lookup. exists j. apply lookup_zip_with_Some.
  exists (ordinal i), p. split; [done|]. split; [|done]. unfold ordinals. by rewrite list_lookup_fmap, Hj.
Qed.

Lemma worker_step_ok (h : Shared T U) m h' rs m' :
  worker_step limits prepare h m h' rs m' -> cancelled h = false ->
  Forall queued_ok (work_queue h) -> Forall output_ok (output_queue h) -> worker_ok m ->
  Forall queued_ok (work_queue h') /\ Forall output_ok (output_queue h') /\ worker_ok m'.
Proof using Hprepares.
  intros Hs Hc Hq Ho Hm. destruct Hs; cbn [work_queue output_queue set_work_queue set_output_queue set_budget
    drop_work_receiver drop_output_sender fst worker_ok] in *; try done.
  - rewrite H in Hq. apply Forall_cons in Hq as [? ?]. done.
  - split_and!; [done..|]. rewrite Hc. destruct Hm as [Hin Hr].
    destruct (prepares_item _ Hin) as (p & (H1 & H2 & H3) & Hz). exists p.
    cbn [PrepareContext_new reserved frames_contained unwind]. by rewrite Hr.
  - by rewrite Hc.
  - split_and!; [done..|]. destruct Hm as (p & Hz & Hb & (Hin & Hop & Hk) & Hf & Hu). by exists p.
  - destruct Hm as (p & Hz & Hb & (Hin & Hop & Hk) & Hf & Hu). rewrite begin_deferral_within in H by done. done.
  - split_and!; [done..|]. destruct Hm as (p & Hz & Hb & _ & (_ & Hk & Hf) & Hu). by exists p.
  - by destruct Hm as (p & _ & _ & _ & (Hd & _) & _).
  - split_and!; [done..|]. destruct Hm as (p & Hz & Hb & _ & _ & Hu). cbn [unwind outcome_of] in Hu.
    subst outcome. unfold seal_output in H. apply N.ltb_ge in Hb. rewrite Hb in H.
    destruct (retain_output _ _) in H. injection H as <- <-. by exists p.
  - split_and!; [done| |done]. apply Forall_app. by split; [|apply Forall_singleton].
  - split_and!; [|done..]. by destruct (_ =? _)%nat.
Qed.

Context (HNoDup : NoDup ordinals) (Haccepts : accepts).

(** The next output is the result of the next item. *)
Lemma next_result (l : Ledger U) key o :
  next_output ordinals l = Some (key, o) ->
  map_Forall (fun n o => output_ordinal o = n) (pending l) ->
  map_Forall (fun _ o => output_ok o) (pending l) ->
  output_ordinal o = key /\
  exists p, output_result o = inl p /\ zip ordinals results !! next_index l = Some (key, p).
Proof using HNoDup.
  intros [Hn Ho]%next_output_Some Hkeys Hok. pose proof (Hkeys _ _ Ho) as Hk. cbv beta in Hk.
  split; [done|]. destruct (Hok _ _ Ho) as (p & Hz & Hr). exists p. split; [done|].
  apply list_elem_of_lookup in Hz as [j Hj]. rewrite Hk in Hj.
  pose proof Hj as (n' & p' & [= <- <-] & Hj' & _)%lookup_zip_with_Some.
  by rewrite (NoDup_lookup _ _ _ _ HNoDup Hn Hj').
Qed.

Lemma coordinator_step_ok (h : Shared T U) l m h' l' rs m' :
  coordinator_step sink ordinals h l m h' l' rs m' -> cancelled h = false ->
  (m = ReceiveOutput -> output_queue h = [] -> output_senders h = 0%nat -> next_ordinal ordinals l = None) ->
  (forall o rest, output_queue h = o :: rest -> pending l !! output_ordinal o = None) ->
  map_Forall (fun n o => output_ordinal o = n) (pending l) ->
  Forall output_ok (output_queue h) -> map_Forall (fun _ o => output_ok o) (pending l) ->
  delivered l = take (next_index l) (zip ordinals results) -> coordinator_ok m l ->
  cancelled h' = false /\ Forall output_ok (output_queue h') /\
  map_Forall (fun _ o => output_ok o) (pending l') /\
  delivered l' = take (next_index l') (zip ordinals results) /\ coordinator_ok m' l'.
Proof using HNoDup Haccepts.
  intros Hs Hc Hend Hfresh Hkeys Ho Hp Hd Hm. destruct Hs;
    cbn [cancelled output_queue set_output_queue set_pending accept_output pending delivered next_index
      drop_output_receiver fst coordinator_ok] in *; try done.
  - by specialize (Hend eq_refl H0 H1).
  - rewrite H0 in Ho. apply Forall_cons in Ho as [? ?]. split_and!; try done. by apply map_Forall_insert_2.
  - specialize (Hfresh _ _ H0). congruence.
  - destruct (next_result l key output H Hkeys Hp) as (Hk & p & Hr & Hz).
    split_and!; [done..|by apply map_Forall_delete| |done].
    rewrite Hd, Hk. symmetry. apply take_S_r. congruence.
  - destruct (next_result l key output H Hkeys Hp) as (Hk & p & Hr & Hz).
    rewrite Hd, Hk in H1. pose proof (Haccepts _ _ _ Hz). congruence.
  - destruct (next_result l key output H Hkeys Hp) as (Hk & p & Hr & Hz). congruence.
Qed.

Context (Hlimits : limits_ok limits) (Hwork : work <> []).
Context (Hadmitted : Forall (admitted limits) work).

(** An output that arrives is not pending yet. *)
Lemma fresh_output (s : State T U) o rest :
  sound limits work s -> output_queue (shared s) = o :: rest ->
  pending (ledger s) !! output_ordinal o = None.
Proof using HNoDup.
  intros [_ _ [_ _ Hkeys _] [Hle _]] Hq. destruct (pending (ledger s) !! output_ordinal o) as [o'|] eqn:Ho;
    [exfalso|done].
  specialize (Hle (only (output_ordinal o))). rewrite weigh_located in Hle.
  unfold ledger_ordinals, queue_ordinals in Hle.
  rewrite Hq, !weigh_app, weigh_pending, pending_weigh, Ho in Hle by done. cbn [map] in Hle.
  assert (only (output_ordinal o) (output_ordinal o) = 1) as Hone by (unfold only; by rewrite decide_True).
  rewrite weigh_cons, Hone in Hle.
  pose proof (weigh_only_NoDup (output_ordinal o) _ HNoDup). unfold ordinals in *. lia.
Qed.

(** The workers only leave when everything has been delivered. *)
Lemma all_left (s : State T U) :
  sound limits work s -> cancelled (shared s) = false -> mode (coordinator s) = ReceiveOutput ->
  output_queue (shared s) = [] -> output_senders (shared s) = 0%nat ->
  next_ordinal ordinals (ledger s) = None.
Proof using HNoDup Hlimits Hwork.
  intros Hs Hc Hm Hoq Hsenders. destruct (next_ordinal ordinals (ledger s)) as [n|] eqn:Hn; [exfalso|done].
  pose proof Hs as [Hb Hcon Ht Hp].
  pose proof (connected_output_senders _ _ _ Hcon) as Hcount. rewrite Hsenders in Hcount.
  pose proof (connected_output_receiver _ _ _ Hcon) as Hor. rewrite Hm in Hor. cbn in Hor.
  assert (Forall (fun t => mode t = Worked) (worker_threads s)) as Hworked.
  { clear -Hcount. induction (worker_threads s) as [|t ts IH]; [done|]. unfold count_workers in Hcount.
    cbn [map] in Hcount. rewrite sumN_cons in Hcount. constructor; [|apply IH; unfold count_workers; lia].
    destruct (mode t); cbn in Hcount; try lia. done. }
  assert (0 < N.of_nat (length (worker_threads s))) as Hpos.
  { rewrite (connected_workers _ _ _ Hcon). by apply worker_count_pos. }
  destruct (worker_threads s) as [|t ts] eqn:Ets; [simpl in Hpos; lia|].
  pose proof (connected_leaving _ _ _ Hcon) as Hl. rewrite Ets in Hl. apply Forall_cons in Hl as [Hl _].
  pose proof Hworked as [Hwt _]%Forall_cons. rewrite Hwt in Hl.
  destruct (Hl eq_refl) as [[Hws Hwq]|Ho]; [|congruence].
  rewrite (connected_work_sender _ _ _ Hcon) in Hws.
  assert (dispatcher_items (mode (dispatcher s)) = []) as Hitems by (by destruct (mode (dispatcher s))).
  apply (nothing_pending limits work HNoDup s n); try done; [by rewrite Hm|by eapply receiving_lacks|].
  intros g. unfold flying, queue_ordinals. rewrite Hwq, Hoq, weigh_app, weigh_concat. cbn [map app].
  rewrite weigh_nil, N.add_0_l. rewrite <-Ets in Hworked. clear -Hworked. induction Hworked as [|u us Hu _ IH]; [done|].
  cbn [map]. rewrite sumN_cons, IH, Hu. done.
Qed.

Lemma healthy_step s s' :
  thread_step limits prepare sink ordinals s s' -> sound limits work s -> healthy s -> healthy s'.
Proof using All.
  intros Hstep Hs [H1 H2 H3 H4 H5 H6 H7 H8].
  destruct Hstep as [s r rs Hrs|s h rs m Hrs Hd|s i t r rs Hi Hrs|
    s i t h rs m Hi Hrs Hw|s r rs Hrs|s h l rs m Hrs Hc].
  - by destruct r; split.
  - assert (Forall queued_ok (work_queue h) /\ dispatcher_ok m) as [G1 G2].
    { destruct (tidy_items _ _ (sound_tidy _ _ _ Hs)) as [k Hk].
      destruct Hd; cbn [work_queue set_window set_budget set_work_queue drop_work_sender dispatcher_ok] in *;
        try done.
      - split; [done|]. split; [|done]. apply (subseteq_drop k). rewrite <-Hk. by left.
      - split; [|done]. apply Forall_app. by split; [|apply Forall_singleton]. }
    assert (output_queue h = output_queue (shared s)) as Ho by (by destruct Hd).
    split; cbn [with_dispatcher shared dispatcher worker_threads coordinator ledger mode]; try done.
    + by rewrite (dispatch_step_cancelled _ _ _ _ _ _ _ Hd).
    + by rewrite Ho.
  - destruct r; (split; try done); apply Forall_insert; try done;
      exact (proj1 (Forall_lookup _ _) H4 i t Hi).
  - pose proof (proj1 (Forall_lookup _ _) H4 i t Hi) as Ht. cbv beta in Ht.
    destruct (worker_step_ok _ _ _ _ _ Hw H1 H3 H5 Ht) as (G1 & G2 & G3).
    split; cbn [with_worker shared dispatcher worker_threads coordinator ledger mode]; try done.
    + by rewrite (worker_step_cancelled _ _ _ _ _ _ _ Hw).
    + by apply Forall_insert.
  - by destruct r; split.
  - destruct (coordinator_step_ok _ _ _ _ _ _ _ Hc H1) as (G1 & G2 & G3 & G4 & G5); try done.
    + intros. by apply all_left.
    + intros o rest Hq. by eapply fresh_output.
    + exact (tidy_keys _ _ (sound_tidy _ _ _ Hs)).
    + assert (work_queue h = work_queue (shared s)) as Hq by (by destruct Hc).
      split; cbn [with_coordinator shared dispatcher worker_threads coordinator ledger mode]; try done.
      by rewrite Hq.
Qed.

Lemma start_healthy : healthy (start limits ordinals work).
Proof using Type.
  split; cbn [start shared dispatcher worker_threads coordinator ledger running mode]; try done.
  - by apply Forall_replicate.
Qed.

Lemma run_healthy s :
  rtc (thread_step limits prepare sink ordinals) (start limits ordinals work) s ->
  sound limits work s /\ healthy s.
Proof using All.
  intros H. pose proof (start_sound (U := U) limits work) as Hs. pose proof start_healthy as Hh.
  fold ordinals in Hs.
  induction H as [|s s' s'' Hst _ IH]; [done|]. apply IH; [|by eapply healthy_step].
  eapply step_sound; [done..|by apply step_thread|done].
Qed.

Lemma healthy_end s :
  sound limits work s -> healthy s ->
  (exists s', thread_step limits prepare sink ordinals s s') \/
  finished s (inl tt) /\ delivered (ledger s) = zip ordinals results.
Proof using All.
  intros Hs Hh. destruct (sound_progress limits prepare sink work Hlimits Hwork Hadmitted HNoDup s Hs)
    as [?|[[o Ho]|(_ & i & t & n & c & fs & rq & ms & op & k & Hi & _ & Hm & _)]]; [by left|right|exfalso].
  - pose proof Ho as (_ & _ & Hc). pose proof (healthy_coordinator s Hh) as Hok. rewrite Hc in Hok.
    destruct o as [[]|e]; [|done]. split; [done|].
    pose proof (tidy_phase _ _ (sound_tidy _ _ _ Hs)) as Hp. rewrite Hc in Hp. destruct Hp as [_ Hn].
    apply lookup_ge_None in Hn. rewrite (healthy_delivered s Hh). apply take_ge.
    rewrite length_zip. unfold ordinals. lia.
  - pose proof (proj1 (Forall_lookup _ _) (healthy_workers s Hh) i t Hi) as Ht. cbv beta in Ht.
    by rewrite Hm in Ht.
Qed.

(** Such a run exists: any run, continued until no thread can act. *)
Lemma completed_run :
  exists s, rtc (thread_step limits prepare sink ordinals) (start limits ordinals work) s /\
    finished s (inl tt) /\ delivered (ledger s) = zip ordinals results.
Proof using All.
  assert (forall s, sound limits work s -> healthy s ->
    exists s', rtc (thread_step limits prepare sink ordinals) s s' /\
      finished s' (inl tt) /\ delivered (ledger s') = zip ordinals results) as H.
  { intros s. induction (step_ends limits prepare sink ordinals s) as [s _ IH]. intros Hs Hh.
    destruct (healthy_end s Hs Hh) as [[s' Hst]|He]; [|by exists s].
    assert (step limits prepare sink ordinals s s') as Hst' by (by apply step_thread).
    destruct (IH s' Hst') as (s'' & Hr & He).
    - by eapply step_sound.
    - by eapply healthy_step.
    - exists s''. split; [by eapply rtc_l|done]. }
  apply H; [apply (start_sound (U := U) limits work)|apply start_healthy].
Qed.
End Delivery.

(** * What [Pipeline::execute] accepts

    The checks before the first thread accept exactly the work lists that are
    not too long, have distinct ordinals and fit the budgets item by item, and
    put them in ordinal order. *)

Section Admission.
Context {T : Type} (limits : ExecutionLimits).
Implicit Type work : list (WorkItem T).

(** The work lists [execute] is for. *)
Record admissible (work : list (WorkItem T)) : Prop := {
  admissible_limits : ExecutionLimits_validate limits = Ok tt;
  admissible_length : N.of_nat (length work) <= max_work_items limits;
  admissible_ordinals : NoDup (map ordinal work);
  admissible_resources : Forall (admitted limits) work
}.

#[export] Instance ordinal_le_total : Total (@ordinal_le T).
Proof using Type. intros x y. unfold ordinal_le. lia. Qed.
#[export] Instance ordinal_le_trans : Transitive (@ordinal_le T).
Proof using Type. intros x y z. unfold ordinal_le. lia. Qed.

Lemma collect_item_Ok n (i : WorkItem T) l env t l' t' :
  collect_item n i l env t = Ok (l', t') -> l' = l ++ [i] /\ N.of_nat (length l) < n.
Proof using Type.
  intros H. unfold collect_item in H.
  apply run_bind_Ok in H as (? & ? & _ & H). apply run_bind_Ok in H as (? & ? & Hr & H).
  apply run_lift_Ok in Hr as [Hr _]. res_inv.
  apply run_bind_Ok in H as (? & ? & _ & H). injection H as <- _. split; [done|lia].
Qed.

Lemma collect_loop_Ok n work : forall l env t l' t',
  for_each work (collect_item n) l env t = Ok (l', t') -> N.of_nat (length l) <= n ->
  l' = l ++ work /\ N.of_nat (length l') <= n.
Proof using Type.
  induction work as [|i work IH]; intros l env t l' t' H Hl; simpl in H.
  - injection H as <- _. by rewrite app_nil_r.
  - apply run_bind_Ok in H as (l1 & t1 & Hi & H). apply collect_item_Ok in Hi as [-> Hlt].
    apply IH in H as [-> Hn]; [|rewrite length_app; simpl; lia]. by rewrite <-app_assoc in *.
Qed.

Lemma collect_bounded_work_Ok work n env t w t' :
  collect_bounded_work work n env t = Ok (w, t') -> w = work /\ N.of_nat (length work) <= n.
Proof using Type.
  intros H. unfold collect_bounded_work in H.
  apply run_bind_Ok in H as (? & ? & _ & H). apply run_bind_Ok in H as (l & ? & Hl & H).
  apply run_bind_Ok in H as (? & ? & _ & H). injection H as <- _.
  apply collect_loop_Ok in Hl as [-> ?]; [done|simpl; lia].
Qed.

Lemma collect_bounded_work_succeeds work n :
  N.of_nat (length work) <= n -> succeeds (collect_bounded_work work n) (fun w => w = work).
Proof using Type.
  intros Hn. unfold collect_bounded_work. run_step.
  eapply succeeds_then.
  - apply (succeeds_for_each (fun pre l => l = pre)); [done|].
    intros pre i rest l -> ->. unfold collect_item. run_step. run_step.
    { apply (reject_Ok _ _ tt). rewrite length_app in Hn. simpl in Hn. apply N.leb_gt. lia. }
    run_step; [done|]. by apply succeeds_ret.
  - intros ? ->. run_step. by apply succeeds_ret.
Qed.

(** *** The validation loop *)

Lemma validate_item_Ok s (i : WorkItem T) s' :
  validate_item limits s i = Ok s' <->
  ordinal i ∉ s /\ admitted limits i /\ s' = {[ordinal i]} ∪ s.
Proof using Type.
  unfold validate_item, admitted, within. simpl. split.
  - intros H. by res_inv.
  - intros (Hi & Ha & ->). rewrite bool_decide_eq_false_2 by done. cbn [reject mbind result_bind].
    rewrite (proj2 (reject_Ok _ _ tt)); [done|]. rewrite !orb_false_iff, !N.ltb_ge. tauto.
Qed.

Lemma validate_loop_Ok work : forall s s',
  try_fold (validate_item limits) s work = Ok s' ->
  NoDup (map ordinal work) /\ (forall n, n ∈ map ordinal work -> n ∉ s) /\
  Forall (admitted limits) work.
Proof using Type.
  induction work as [|i work IH]; intros s s' H; cbn [try_fold] in H.
  - split_and!; [constructor|by intros n Hn; inversion Hn|done].
  - apply bind_Ok in H as (s1 & (Hi & Ha & ->)%validate_item_Ok & H).
    apply IH in H as (Hnd & Hs & Hall). cbn [map]. split_and!.
    + constructor; [|done]. intros Hin. apply (Hs _ Hin). set_solver.
    + intros n [->|Hin]%elem_of_cons; [done|]. specialize (Hs n Hin). set_solver.
    + by constructor.
Qed.

Lemma validate_loop_succeeds work : forall s,
  NoDup (map ordinal work) -> (forall n, n ∈ map ordinal work -> n ∉ s) ->
  Forall (admitted limits) work -> exists s', try_fold (validate_item limits) s work = Ok s'.
Proof using Type.
  induction work as [|i work IH]; intros s Hnd Hs Hall; [by exists s|]. cbn [map] in *.
  apply NoDup_cons in Hnd as [Hi Hnd]. apply Forall_cons in Hall as [Ha Hall]. cbn [try_fold].
  rewrite (proj2 (validate_item_Ok s i _)) by (split; [apply Hs; by left|done]).
  apply IH; [done| |done]. intros n Hn. specialize (Hs n ltac:(by right)). set_solver.
Qed.

Lemma validate_work_Ok work u :
  validate_work work limits = Ok u <-> NoDup (map ordinal work) /\ Forall (admitted limits) work.
Proof using Type.
  unfold validate_work. split.
  - intros H. apply bind_Ok in H as (s & H & _). apply validate_loop_Ok in H. tauto.
  - intros [Hnd Hall]. destruct (validate_loop_succeeds work ∅ Hnd ltac:(set_solver) Hall) as [s ->].
    by destruct u.
Qed.

(** *** Admission *)

Lemma sorted_ordinals work : StronglySorted N.le (map ordinal (merge_sort ordinal_le work)).
Proof using Type.
  pose proof (StronglySorted_merge_sort ordinal_le work) as Hs.
  induction Hs as [|i l _ IH Hi]; simpl; [constructor|]. constructor; [done|].
  apply Forall_map. exact Hi.
Qed.

Lemma admit_work_Ok work env t w t' :
  admit_work limits work env t = Ok (w, t') ->
  admissible work /\ w = merge_sort ordinal_le work.
Proof using Type.
  intros H. unfold admit_work in H.
  apply run_bind_Ok in H as ([] & ? & [Hv _]%run_lift_Ok & H).
  apply run_bind_Ok in H as (? & ? & [-> Hlen]%collect_bounded_work_Ok & H). cbv zeta in H.
  apply run_bind_Ok in H as (? & ? & [[Hnd Hall]%validate_work_Ok _]%run_lift_Ok & H).
  apply run_bind_Ok in H as (? & ? & _ & H). injection H as <- _.
  pose proof (merge_sort_Permutation ordinal_le work) as Hp. split; [|done].
  split; [done|done|by rewrite <-Hp|by rewrite <-Hp].
Qed.

Lemma admit_work_succeeds work :
  admissible work -> succeeds (admit_work limits work) (fun _ => True).
Proof using Type.
  intros [Hv Hlen Hnd Hall]. unfold admit_work. run_step; [exact Hv|].
  eapply succeeds_then; [by apply collect_bounded_work_succeeds|]. intros ? ->. cbv zeta.
  eapply succeeds_lift_bind.
  - apply (validate_work_Ok _ tt). pose proof (merge_sort_Permutation ordinal_le work) as Hp.
    split; by rewrite Hp.
  - eapply (succeeds_then _ _ (fun _ => True)); [|intros; by apply succeeds_ret].
    case_bool_decide; [by apply succeeds_ret|by apply succeeds_check].
Qed.
End Admission.

(** * What is delivered

    Whatever the interleaving and whatever fails, what the sink accepts under
    an ordinal is a result that the callback of an item of that ordinal may end
    with. *)

(** A callback may end with [o] when some looks at the flag, and grants, lead
    there. *)
Fixpoint may_end {U} (c : Callback U) (o : Outcome U) : Prop :=
  match c with
  | Done o' => o = o'
  | Poll k => exists b, may_end (k b) o
  | WithResources _ operation k =>
      exists o', (o' = inr Cancelled \/ o' = inr ResourceLimit \/ may_end operation o') /\ may_end (k o') o
  end.

Section Values.
Context {T U : Type} (limits : ExecutionLimits) (prepare : N -> T -> Callback U).
Context (sink : list (N * PreparedItem U) -> N -> PreparedItem U -> unit + ErrorCategory).
Context (work : list (WorkItem T)) (ordinals : list N).

(** The same through the open calls. *)
Fixpoint frames_end (fs : list (Frame U)) (c : Callback U) (o : Outcome U) : Prop :=
  match fs with
  | [] => may_end c o
  | f :: fs => exists o', may_end c o' /\ frames_end fs (continue f o') o
  end.

Lemma frames_end_mono fs c c' o :
  (forall o, may_end c o -> may_end c' o) -> frames_end fs c o -> frames_end fs c' o.
Proof using Type. destruct fs as [|f fs]; simpl; [auto|]. intros H (o' & Ho & ?). eauto. Qed.

Definition value_of_item (n : N) (p : PreparedItem U) : Prop :=
  exists i, i ∈ work /\ ordinal i = n /\ may_end (prepare n (value i)) (inl p).

Definition output_valued (o : WorkerOutput U) : Prop :=
  forall p, output_result o = inl p -> value_of_item (output_ordinal o) p.

(** Where a callback is: what it may still end with, its start might have. *)
Definition callback_valued (n : N) (fs : list (Frame U)) (c : Callback U) : Prop :=
  forall p, frames_end fs c (inl p) -> value_of_item n p.

Definition dispatcher_valued (m : DispatcherMode T) : Prop :=
  match m with
  | NextItem items => items ⊆ work
  | WaitWindow next items | WaitBudget next items => next ∈ work /\ items ⊆ work
  | SendWork queued items => item queued ∈ work /\ items ⊆ work
  | EndDispatch | Dispatched => True
  end.

Definition worker_valued (m : WorkerMode T U) : Prop :=
  match m with
  | StartWork queued => item queued ∈ work
  | Preparing n _ fs rest => callback_valued n fs rest
  | WaitResources n _ fs required _ operation k => callback_valued n fs (WithResources required operation k)
  | SendOutput output => output_valued output
  | _ => True
  end.

Record valued (s : State T U) : Prop := {
  valued_dispatcher : dispatcher_valued (mode (dispatcher s));
  valued_work : Forall (fun q => item q ∈ work) (work_queue (shared s));
  valued_workers : Forall (fun t => worker_valued (mode t)) (worker_threads s);
  valued_output : Forall output_valued (output_queue (shared s));
  valued_pending : map_Forall (fun _ o => output_valued o) (pending (ledger s));
  valued_delivered : Forall (fun d => value_of_item (fst d) (snd d)) (delivered (ledger s))
}.

Lemma callback_valued_mono n fs c c' :
  callback_valued n fs c -> (forall o, may_end c' o -> may_end c o) -> callback_valued n fs c'.
Proof using Type. intros H Hc p Hp. apply H. by eapply frames_end_mono. Qed.

Lemma seal_output_valued n c (outcome : Outcome U) output released :
  callback_valued n [] (Done outcome) -> seal_output n c outcome = (output, released) -> output_valued output.
Proof using Type.
  intros Hv H p Hp. assert (output_ordinal output = n) as Hn by (by eapply seal_output_ordinal).
  rewrite Hn. apply Hv. simpl. unfold seal_output in H. destruct outcome as [p'|e].
  - destruct (weight_prepared (reserved c) <? bytes p').
    + by injection H as <- <-.
    + destruct (retain_output _ _) in H. injection H as <- <-. simpl in Hp. congruence.
  - by injection H as <- <-.
Qed.

Lemma worker_step_valued (h : Shared T U) m h' rs m' :
  worker_step limits prepare h m h' rs m' ->
  Forall (fun q => item q ∈ work) (work_queue h) -> Forall output_valued (output_queue h) -> worker_valued m ->
  Forall (fun q => item q ∈ work) (work_queue h') /\ Forall output_valued (output_queue h') /\ worker_valued m'.
Proof using Type.
  intros Hs Hq Ho Hm. destruct Hs; cbn [work_queue output_queue set_work_queue set_output_queue set_budget
    drop_work_receiver drop_output_sender fst worker_valued] in *; try done.
  - rewrite H in Hq. by apply Forall_cons in Hq as [? ?].
  - split_and!; [done..|]. intros p Hp. simpl in Hp. destruct (cancelled h); [done|]. by exists (item queued).
  - split_and!; [done..|]. eapply callback_valued_mono; [exact Hm|]. simpl. eauto.
  - split_and!; [done..|]. intros p (o' & Ho' & Hp). apply Hm.
    eapply frames_end_mono; [|exact Hp]. simpl. eauto.
  - split_and!; [done..|]. eapply callback_valued_mono; [exact Hm|]. simpl. eauto.
  - split_and!; [done..|]. eapply callback_valued_mono; [exact Hm|]. simpl. eauto.
  - split_and!; [done..|]. eapply callback_valued_mono; [exact Hm|]. simpl. eauto.
  - split_and!; [done..|]. intros p (o' & Ho' & Hp). apply Hm.
    eapply frames_end_mono; [|exact Hp]. simpl. eauto.
  - split_and!; [done..|]. intros p Hp. apply Hm. by exists outcome.
  - split_and!; [done..|]. intros p Hp. apply Hm. by exists outcome.
  - split_and!; [done..|]. by eapply seal_output_valued.
  - split_and!; [done| |done]. apply Forall_app. by split; [|apply Forall_singleton].
  - split_and!; [|done..]. by destruct (_ =? _)%nat.
Qed.

Lemma dispatch_step_valued (h : Shared T U) m h' rs m' :
  dispatch_step limits ordinals h m h' rs m' ->
  Forall (fun q => item q ∈ work) (work_queue h) -> dispatcher_valued m ->
  Forall (fun q => item q ∈ work) (work_queue h') /\ dispatcher_valued m'.
Proof using Type.
  intros Hs Hq Hm. destruct Hs; cbn [work_queue set_work_queue set_window set_budget drop_work_sender
    dispatcher_valued item] in *; try done.
  - split; [done|]. split; [apply Hm; by left|]. intros x Hx. apply Hm. by right.
  - destruct Hm. split; [|done]. apply Forall_app. by split; [|apply Forall_singleton].
Qed.

Lemma coordinator_step_valued (h : Shared T U) l m h' l' rs m' :
  coordinator_step sink ordinals h l m h' l' rs m' ->
  Forall output_valued (output_queue h) -> map_Forall (fun _ o => output_valued o) (pending l) ->
  Forall (fun d => value_of_item (fst d) (snd d)) (delivered l) ->
  Forall output_valued (output_queue h') /\ map_Forall (fun _ o => output_valued o) (pending l') /\
  Forall (fun d => value_of_item (fst d) (snd d)) (delivered l').
Proof using Type.
  intros Hs Ho Hp Hd. destruct Hs;
    cbn [output_queue set_output_queue set_pending accept_output pending delivered
      drop_output_receiver cancel fst] in *; try done; try (split_and!; done).
  - rewrite H0 in Ho. apply Forall_cons in Ho as [? ?]. split_and!; [done| |done]. by apply map_Forall_insert_2.
  - rewrite H0 in Ho. apply Forall_cons in Ho as [? ?]. split_and!; [done| |done]. by apply map_Forall_insert_2.
  - apply next_output_Some in H as [_ Hk]. split_and!; [done|by apply map_Forall_delete|].
    apply Forall_app. split; [done|]. apply Forall_singleton. by apply (Hp _ _ Hk).
  - split_and!; [done|by apply map_Forall_delete|done].
  - split_and!; [done|by apply map_Forall_delete|done].
Qed.

Lemma thread_step_valued s s' : thread_step limits prepare sink ordinals s s' -> valued s -> valued s'.
Proof using Type.
  intros Hstep [H1 H2 H3 H4 H5 H6].
  destruct Hstep as [s r rs Hrs|s h rs m Hrs Hd|s i t r rs Hi Hrs|
    s i t h rs m Hi Hrs Hw|s r rs Hrs|s h l rs m Hrs Hc].
  - by destruct r; split.
  - destruct (dispatch_step_valued _ _ _ _ _ Hd H2 H1) as [G1 G2].
    assert (output_queue h = output_queue (shared s)) as Ho by (by destruct Hd).
    split; cbn [with_dispatcher shared dispatcher worker_threads coordinator ledger mode]; try done. by rewrite Ho.
  - destruct r; (split; try done); apply Forall_insert; try done; exact (proj1 (Forall_lookup _ _) H3 i t Hi).
  - pose proof (proj1 (Forall_lookup _ _) H3 i t Hi) as Ht. cbv beta in Ht.
    destruct (worker_step_valued _ _ _ _ _ Hw H2 H4 Ht) as (G1 & G2 & G3).
    split; cbn [with_worker shared dispatcher worker_threads coordinator ledger mode]; try done.
    by apply Forall_insert.
  - by destruct r; split.
  - destruct (coordinator_step_valued _ _ _ _ _ _ _ Hc H4 H5 H6) as (G1 & G2 & G3).
    assert (work_queue h = work_queue (shared s)) as Hq by (by destruct Hc).
    split; cbn [with_coordinator shared dispatcher worker_threads coordinator ledger mode]; try done. by rewrite Hq.
Qed.

Lemma run_valued s :
  rtc (step limits prepare sink ordinals) (start limits ordinals work) s -> valued s.
Proof using Type.
  revert s. apply rtc_ind_r.
  - split; cbn [start shared dispatcher worker_threads coordinator ledger running mode]; try done.
    + by intros x.
    + by apply Forall_replicate.
  - intros s s' _ [s1 s2 Hs|s1 Hc] IH; [by eapply thread_step_valued|].
    destruct IH. by split.
Qed.
End Values.

(** What a call of [execute] delivers. *)
Lemma executes_values {T U} limits (prepare : N -> T -> Callback U) sink env t work outcome ds n p :
  executes limits prepare sink env t work outcome ds -> (n, p) ∈ ds -> value_of_item prepare work n p.
Proof.
  intros [e _|t' _|sorted t' s outcome' Ha _ Hr _] Hin; [by apply elem_of_nil in Hin..|].
  apply run_valued in Hr. pose proof (valued_delivered _ _ _ Hr) as Hd.
  rewrite Forall_forall in Hd. destruct (Hd _ Hin) as (i & Hi & Hn & He). exists i. split; [|done].
  apply admit_work_Ok in Ha as [_ ->]. by rewrite merge_sort_Permutation in Hi.
Qed.

(** ** The order of the deliveries *)

Section AcceptedWork.
Context {T U : Type} (limits : ExecutionLimits) (prepare : N -> T -> Callback U).
Context (sink : list (N * PreparedItem U) -> N -> PreparedItem U -> unit + ErrorCategory).
Context (env : Env) (t : nat) (work sorted : list (WorkItem T)) (t' : nat).
Let ordinals := map ordinal sorted.

(** What [admit_work] gives the threads. *)
Lemma admitted_work :
  admit_work limits work env t = Ok (sorted, t') ->
  NoDup ordinals /\ Forall (admitted limits) sorted.
Proof using Type.
  intros ([_ _ Hnd Ha] & ->)%admit_work_Ok. unfold ordinals.
  by rewrite (merge_sort_Permutation ordinal_le work).
Qed.

Lemma admitted_sound s :
  limits_ok limits -> admit_work limits work env t = Ok (sorted, t') -> sorted <> [] ->
  rtc (step limits prepare sink ordinals) (start limits ordinals sorted) s -> sound limits sorted s.
Proof using Type.
  intros Hl [_ Ha]%admitted_work Hne Hs. by eapply reachable_sound.
Qed.

(** The deliveries are a prefix of the items in their order. *)
Lemma executes_ordered outcome d :
  limits_ok limits -> executes limits prepare sink env t work outcome d ->
  let expected := map ordinal (merge_sort ordinal_le work) in
  map fst d `prefix_of` expected /\
  (d <> [] -> NoDup (map ordinal work)) /\ (outcome = inl tt -> map fst d = expected).
Proof using Type.
  intros Hlimits H. cbv zeta. destruct H as [e He|t1 He|sorted' t1 s outcome He Hne Hs Hf].
  - split_and!; [apply prefix_nil|done|done].
  - apply admit_work_Ok in He as [_ <-]. split_and!; [apply prefix_nil|done|done].
  - assert (sound limits sorted' s) as Hsound.
    { apply admit_work_Ok in He as [[_ _ _ Ha] ->]. eapply reachable_sound; try done.
      by rewrite (merge_sort_Permutation ordinal_le work). }
    apply admit_work_Ok in He as [[_ _ Hnd _] ->]. split_and!; [|done|].
    + rewrite (tidy_delivered _ _ (sound_tidy _ _ _ Hsound)). apply prefix_take.
    + intros ->. by apply (finished_delivered _ _ s Hsound).
Qed.
End AcceptedWork.
