(* ===== verification/Work.v ===== *)
(** * The effects of materialization

    A materialization computes, reads its checkpoint, uses the cache it shares
    with other processes, and may hold more of a pipeline's resources while a
    part of it runs. [Work] is the tree of these requests. It is read in two
    ways: [interp] is a program of the file system, and [callback_of] is a
    preparation callback of the pipeline. [sat] is a logic of what a work may
    return, whoever answers its requests. *)

From S2P Require Import Prelude Errors Cancel Pipeline PipelineRun PipelineSpecs PipelineDelivery FileReader Checkpoint FileSystem Tensor.
Local Open Scope N_scope.

(** ** Requests *)

Section Work.
(** What a part that runs under resources may hand back. *)
Context {tag : Type} {handed : tag -> Type}.

(** [Within] runs its operation once the pipeline has granted the weights; the
    error of the grant, or what the operation returned, goes to [k]. *)
Inductive Work (A : Type) : Type :=
  | Finish (r : result A)
  | Compute {B : Type} (m : M B) (k : result B -> Work A)
  | Shared {B : Type} (p : Prog B) (k : result B -> Work A)
  | ReadSpan (span : SourceSpan) (k : result ByteView -> Work A)
  | Within (required : ResourceWeights) (h : tag) (operation : Work (handed h))
      (k : result (handed h) -> Work A).
End Work.
Arguments Work {tag} handed A.
Arguments Finish {tag handed A} r.
Arguments Compute {tag handed A B} m k.
Arguments Shared {tag handed A B} p k.
Arguments ReadSpan {tag handed A} span k.
Arguments Within {tag handed A} required h operation k.

Section Sequencing.
Context {tag : Type} {handed : tag -> Type}.
Local Notation Work := (Work handed).

(** Sequencing that also sees the errors of the first work. *)
Fixpoint work_then {A B} (w : Work A) (f : result A -> Work B) : Work B :=
  match w with
  | Finish r => f r
  | Compute m k => Compute m (fun r => work_then (k r) f)
  | Shared p k => Shared p (fun r => work_then (k r) f)
  | ReadSpan span k => ReadSpan span (fun r => work_then (k r) f)
  | Within required h operation k => Within required h operation (fun r => work_then (k r) f)
  end.

Definition compute {A} (m : M A) : Work A := Compute m Finish.
Definition shared {A} (p : Prog A) : Work A := Shared p Finish.
Definition read (span : SourceSpan) : Work ByteView := ReadSpan span Finish.
Definition within_resources (required : ResourceWeights) (h : tag) (operation : Work (handed h))
  : Work (handed h) := Within required h operation Finish.
End Sequencing.

#[export] Instance Work_ret {tag} {handed : tag -> Type} : MRet (Work handed) :=
  fun A a => Finish (Ok a).
#[export] Instance Work_bind {tag} {handed : tag -> Type} : MBind (Work handed) := fun A B f w =>
  work_then w (fun r => match r with Ok a => f a | Err e => Finish (Err e) | Panic => Finish Panic end).

(** The loop [for x in l] over a state. *)
Fixpoint work_each {tag} {handed : tag -> Type} {A S} (l : list A) (body : A -> S -> Work handed S) (s : S)
  : Work handed S :=
  match l with
  | [] => mret s
  | a :: l => s ← body a s; work_each l body s
  end.

(** The value of a computation, without the number of its interactions. *)
Definition value_of {A} (r : result (A * nat)) : result A :=
  match r with Ok (a, _) => Ok a | Err e => Err e | Panic => Panic end.

(** ** As a program *)

Section Interp.
Context {tag : Type} {handed : tag -> Type}.
Local Notation Work := (Work handed).
Context (mmap : bool) (env : Env).

(** The interactions of the environment so far, and the checkpoint with the
    mappings and digests it keeps. *)
Definition Store : Type := nat * Checkpoint.

(** How the wait for weights ends. *)
Definition grant : Prog unit := _ ← check_cancelled; try_reserve.

(** A request that fails leaves the store as it was. *)
Definition resume {A B R} (r : result (A * nat)) (split : A -> nat -> B * Store) (s : Store)
    (k : result B -> Store -> R) : R :=
  match r with
  | Ok (a, t) => let '(b, s) := split a t in k (Ok b) s
  | Err e => k (Err e) s
  | Panic => k Panic s
  end.
Definition resume_compute {B R} (m : M B) (s : Store) (k : result B -> Store -> R) : R :=
  resume (m env (fst s)) (fun b t => (b, (t, snd s))) s k.
Definition resume_read {R} (span : SourceSpan) (s : Store) (k : result ByteView -> Store -> R) : R :=
  resume (read_span mmap (snd s) span env (fst s)) (fun '(v, c) t => (v, (t, c))) s k.

Fixpoint interp {A} (w : Work A) (s : Store) : Prog (result A * Store) :=
  match w with
  | Finish r => mret (r, s)
  | Compute m k => resume_compute m s (fun r s => interp (k r) s)
  | Shared p k => and_then p (fun r => interp (k r) s)
  | ReadSpan span k => resume_read span s (fun r s => interp (k r) s)
  | Within _ _ operation k =>
      and_then grant (fun g =>
        match g with
        | Ok _ => '(r, s) ← interp operation s; interp (k r) s
        | Err e => interp (k (Err e)) s
        | Panic => interp (k Panic) s
        end)
  end.
End Interp.

(** ** As a callback of the pipeline *)

Section Callbacks.
Context {tag : Type} `{EqDecision tag} {handed : tag -> Type}.
Local Notation Work := (Work handed).
Context (mmap : bool) (env : Env).
(** What the n-th program that uses the cache returns. *)
Context (answer : forall B, Prog B -> nat -> result B).

(** The programs run so far, and the store. *)
Definition Progress : Type := nat * Store.

(** What a part under resources hands to the rest of the callback. *)
Definition Handover : Type := {h : tag & handed h} * Progress.

Definition hand_over {h : tag} (a : handed h) (size : N) (s : Progress) : PreparedItem Handover :=
  {| prepared_value := (existT h a, s); Pipeline.bytes := size |}.

Definition taken (h : tag) (p : {h : tag & handed h}) : option (handed h) :=
  match decide (projT1 p = h) with
  | left e => Some (eq_rect (projT1 p) handed (projT2 p) h e)
  | right _ => None
  end.

(** [finish] is what remains to be done with the result. The last two cases do
    not occur: nothing panics, and an operation hands back what it was asked
    for. *)
Fixpoint callback_of {A} (w : Work A) (s : Progress) (finish : result A -> Progress -> Callback Handover)
  : Callback Handover :=
  match w with
  | Finish r => finish r s
  | Compute m k => resume_compute env m (snd s) (fun r st => callback_of (k r) (fst s, st) finish)
  | Shared p k => callback_of (k (answer _ p (fst s))) (S (fst s), snd s) finish
  | ReadSpan span k => resume_read mmap env span (snd s) (fun r st => callback_of (k r) (fst s, st) finish)
  | Within required h operation k =>
      WithResources required
        (callback_of operation s (fun r s => Done
           match r with
           | Ok a => inl (hand_over a 0 s)
           | Err e => inr e
           | Panic => inr Integrity
           end))
        (fun o =>
           match o with
           | inl p =>
               match taken h (fst (prepared_value p)) with
               | Some a => callback_of (k (Ok a)) (snd (prepared_value p)) finish
               | None => Done (inr Integrity)
               end
           | inr e => callback_of (k (Err e)) s finish
           end)
  end.

(** The run of a callback whose waits all end with a grant. *)
Fixpoint granted {A} (w : Work A) (s : Progress) : result A * Progress :=
  match w with
  | Finish r => (r, s)
  | Compute m k => resume_compute env m (snd s) (fun r st => granted (k r) (fst s, st))
  | Shared p k => granted (k (answer _ p (fst s))) (S (fst s), snd s)
  | ReadSpan span k => resume_read mmap env span (snd s) (fun r st => granted (k r) (fst s, st))
  | Within _ _ operation k =>
      match granted operation s with
      | (Ok a, s') => granted (k (Ok a)) s'
      | (Err e, _) => granted (k (Err e)) s
      | (Panic, _) => granted (k (Err Integrity)) s
      end
  end.
End Callbacks.

(** ** What a work may return *)

(** A read returns at most the bytes asked for. *)
Definition answer_ok (a : action) : answer a -> Prop :=
  match a with
  | ReadHandle _ count => fun b => match b with IoOk bs => N.of_nat (length bs) <= count | IoErr _ => True end
  | _ => fun _ => True
  end.

(** A program may return [r] when some answers to its calls lead there. *)
Fixpoint may_return {A} (p : Prog A) (r : result A) : Prop :=
  match p with
  | Ret r' => r = r'
  | Running => False
  | Act a k => exists b, answer_ok a b /\ may_return (k b) r
  end.

Lemma may_return_and_then {A B} (p : Prog A) (f : result A -> Prog B) r :
  may_return (and_then p f) r <-> exists r', may_return p r' /\ may_return (f r') r.
Proof.
  induction p as [r'| |a k IH]; simpl.
  - naive_solver.
  - naive_solver.
  - setoid_rewrite IH. naive_solver.
Qed.

Lemma serve_answer_ok pid o a w : answer_ok a (fst (serve pid o a w)).
Proof.
  destruct a; simpl; try done. unfold read_handle. destruct (fault o); [done|].
  destruct (handle_inode h); [|done]. unfold slice. rewrite length_take. lia.
Qed.

(** The run of a program returns what it may return. *)
Lemma run_may_return {A} pid oracles (p : Prog A) n calls w r w' :
  run pid oracles p n calls w = (Some r, w') -> may_return p r.
Proof.
  revert n calls w. induction p as [r'| |a k IH]; intros n calls w; simpl; [by intros [= -> ->]|done|].
  destruct calls as [|calls]; [done|]. pose proof (serve_answer_ok pid (oracles n) a w) as Hb.
  destruct (serve pid (oracles n) a w) as [b w1]. intros H. exists b. split; [done|]. by eapply IH.
Qed.

(** What a user of the program may see of it: one of its values, or a failure. *)
Definition possible {A} (p : Prog A) (r : result A) : Prop := forall a, r = Ok a -> may_return p (Ok a).

Lemma may_return_possible {A} (p : Prog A) r : may_return p r -> possible p r.
Proof. by intros H a ->. Qed.

(** Every value that a program may return satisfies [P]. *)
Definition always {A} (p : Prog A) (P : A -> Prop) : Prop := forall a, may_return p (Ok a) -> P a.

Lemma always_mono {A} (p : Prog A) (P Q : A -> Prop) : always p P -> (forall a, P a -> Q a) -> always p Q.
Proof. intros H HPQ a Ha. by apply HPQ, H. Qed.

Lemma always_ret {A} (a : A) (P : A -> Prop) : P a -> always (mret a) P.
Proof. intros H b Hb. by injection Hb as ->. Qed.

Lemma always_fail {A} e (P : A -> Prop) : always (throw e) P.
Proof. by intros a Ha. Qed.

Lemma always_pure {A} (r : result A) (P : A -> Prop) : (forall a, r = Ok a -> P a) -> always (pure r) P.
Proof. intros H a Ha. by apply H. Qed.

Lemma always_bind {A B} (p : Prog A) (f : A -> Prog B) (P : A -> Prop) (Q : B -> Prop) :
  always p P -> (forall a, P a -> always (f a) Q) -> always (p ≫= f) Q.
Proof.
  intros Hp Hf b Hb. apply may_return_and_then in Hb as ([a|e|] & Ha & Hb); [|done..].
  eapply Hf; [by apply Hp|done].
Qed.

Lemma always_any {A} (p : Prog A) : always p (fun _ => True).
Proof. by intros a. Qed.

(** A step of which nothing needs to be known. *)
Lemma always_step {A B} (p : Prog A) (f : A -> Prog B) (Q : B -> Prop) :
  (forall a, always (f a) Q) -> always (p ≫= f) Q.
Proof. intros H. eapply always_bind; [apply always_any|]. auto. Qed.

(** What a computation may return. *)
Definition computes {A} (m : M A) (a : A) : Prop := exists env t t', m env t = Ok (a, t').

(** [P] holds of the value, if there is one. *)
Definition returned {A} (P : A -> Prop) (r : result A) : Prop := forall a, r = Ok a -> P a.

Section Logic.
Context {tag : Type} {handed : tag -> Type}.
Local Notation Work := (Work handed).
(** What a read of a span may show. A callback reports a panic inside an
    operation as an integrity error. *)
Context (shows : SourceSpan -> ByteView -> Prop).

Fixpoint sat {A} (w : Work A) (Q : result A -> Prop) : Prop :=
  match w with
  | Finish r => Q r
  | Compute m k => forall env t, sat (k (value_of (m env t))) Q
  | Shared p k => forall r, possible p r -> sat (k r) Q
  | ReadSpan span k => forall r, returned (shows span) r -> sat (k r) Q
  | Within _ _ operation k =>
      sat (k (Err Cancelled)) Q /\ sat (k (Err ResourceLimit)) Q /\
      sat operation (fun r => sat (k r) Q /\ (r = Panic -> sat (k (Err Integrity)) Q))
  end.

(** Every value that the work may return satisfies [P]. *)
Definition yields {A} (w : Work A) (P : A -> Prop) : Prop := sat w (returned P).

Lemma sat_mono {A} (w : Work A) (P Q : result A -> Prop) :
  sat w P -> (forall r, P r -> Q r) -> sat w Q.
Proof using Type.
  revert P Q. induction w as [A r|A B m k IH|A B p k IH|A span k IH|A required h op IHop k IH];
    intros P Q H HPQ; simpl in *; [auto| | | |].
  - intros env t. apply (IH _ P); auto.
  - intros r Hr. apply (IH _ P); auto.
  - intros r Hr. apply (IH _ P); auto.
  - destruct H as (H1 & H2 & H3). split_and!; [apply (IH _ P); auto..|].
    eapply IHop; [exact H3|]. intros r [Hr Hp]. split; [|intros E; specialize (Hp E)]; apply (IH _ P); auto.
Qed.

Lemma sat_then {A B} (w : Work A) (f : result A -> Work B) (Q : result B -> Prop) :
  sat w (fun r => sat (f r) Q) -> sat (work_then w f) Q.
Proof using Type.
  induction w as [A r|A C m k IH|A C p k IH|A span k IH|A required h op IHop k IH]; intros H; simpl in *;
    [done| | | |].
  - intros env t. by apply IH.
  - intros r Hr. by apply IH, H.
  - intros r Hr. by apply IH, H.
  - destruct H as (H1 & H2 & H3). split_and!; [by apply IH..|].
    eapply sat_mono; [exact H3|]. intros r [Hr Hp]. split; [by apply IH|]. intros E. by apply IH, Hp.
Qed.

Lemma yields_mono {A} (w : Work A) (P Q : A -> Prop) :
  yields w P -> (forall a, P a -> Q a) -> yields w Q.
Proof using Type. intros H HPQ. eapply sat_mono; [exact H|]. intros r Hr a Ha. apply HPQ, Hr, Ha. Qed.

Lemma yields_ret {A} (a : A) (P : A -> Prop) : P a -> yields (mret a) P.
Proof using Type. intros H b. by intros [= <-]. Qed.

Lemma yields_fail {A} r (P : A -> Prop) : (forall a, r <> Ok a) -> yields (Finish r) P.
Proof using Type. intros H a Ha. by destruct (H a). Qed.

Lemma yields_then {A B} (w : Work A) (f : A -> Work B) (P : A -> Prop) (Q : B -> Prop) :
  yields w P -> (forall a, P a -> yields (f a) Q) -> yields (w ≫= f) Q.
Proof using Type.
  intros Hw Hf. apply sat_then. eapply sat_mono; [exact Hw|]. intros [a|e|] Hr.
  - apply Hf, Hr, eq_refl.
  - by apply yields_fail.
  - by apply yields_fail.
Qed.

Lemma yields_compute {A} (m : M A) (P : A -> Prop) :
  (forall env t a t', m env t = Ok (a, t') -> P a) -> yields (compute m) P.
Proof using Type.
  intros H env t a. destruct (m env t) as [[b t']|e|] eqn:E; [|done..]. intros [= <-]. by eapply H.
Qed.

Lemma yields_computes {A} (m : M A) : yields (compute m) (computes m).
Proof using Type. apply yields_compute. intros env t x t' Hx. by exists env, t, t'. Qed.

Lemma yields_any {A} (m : M A) : yields (compute m) (fun _ => True).
Proof using Type. by apply yields_compute. Qed.

Lemma yields_lift {A} (r : result A) (P : A -> Prop) : returned P r -> yields (compute (lift r)) P.
Proof using Type.
  intros H. apply yields_compute. intros env t a t'. destruct r; simpl; [|done..]. intros [= <- <-]. by apply H.
Qed.

Lemma yields_value {A} (r : result A) : yields (compute (lift r)) (fun a => r = Ok a).
Proof using Type. apply yields_lift. by intros a. Qed.

Lemma yields_shared {A} (p : Prog A) (P : A -> Prop) :
  always p P -> yields (shared p) P.
Proof using Type. intros H r Hr a ->. by apply H, Hr. Qed.

Lemma yields_read span (P : ByteView -> Prop) :
  (forall v, shows span v -> P v) -> yields (read span) P.
Proof using Type. intros H r Hr v ->. by apply H, Hr. Qed.

Lemma yields_within required h (operation : Work (handed h)) (P : handed h -> Prop) :
  yields operation P -> yields (within_resources required h operation) P.
Proof using Type.
  intros H. split; [by intros a|]. split; [by intros a|]. eapply sat_mono; [exact H|].
  intros r Hr. split; [done|]. by intros _ a.
Qed.

Lemma yields_each {A S} (I : list A -> S -> Prop) (l : list A) body (s : S) :
  I [] s ->
  (forall before x after s, l = before ++ x :: after -> I before s ->
     yields (body x s) (I (before ++ [x]))) ->
  yields (work_each l body s) (I l).
Proof using Type.
  intros H0 Hstep.
  cut (forall before s, I before s ->
    (forall first x after s, before ++ l = first ++ x :: after -> I first s ->
       yields (body x s) (I (first ++ [x]))) ->
    yields (work_each l body s) (I (before ++ l))).
  { intros H. by apply (H []). }
  clear H0 Hstep s. induction l as [|x l IH]; intros before s H0 Hstep; simpl.
  - rewrite app_nil_r. by apply yields_ret.
  - eapply yields_then; [by eapply Hstep|]. intros s' Hs'.
    replace (before ++ x :: l) with ((before ++ [x]) ++ l) in * by (by rewrite <-app_assoc).
    by apply IH.
Qed.

(** *** In both readings *)

Context (Inv : Checkpoint -> Prop).
Context (reads : forall mmap c span env t v c' t',
  Inv c -> read_span mmap c span env t = Ok (v, c', t') -> Inv c' /\ shows span v).

(** A request that is resumed goes on with what it may return. *)
Lemma resume_compute_cases {B R} env (m : M B) (s : Store) (k : result B -> Store -> R) :
  Inv (snd s) ->
  exists t s', Inv (snd s') /\ resume_compute env m s k = k (value_of (m env t)) s'.
Proof using Type.
  intros Hs. exists (fst s). unfold resume_compute, resume. destruct (m env (fst s)) as [[b t]|e|]; simpl; eauto.
  by exists (t, snd s).
Qed.

Lemma resume_read_cases {R} mmap env span (s : Store) (k : result ByteView -> Store -> R) :
  Inv (snd s) ->
  exists r s', Inv (snd s') /\ returned (shows span) r /\ resume_read mmap env span s k = k r s'.
Proof using reads.
  intros Hs. unfold resume_read, resume.
  destruct (read_span mmap (snd s) span env (fst s)) as [[[v c] t]|e|] eqn:E.
  - apply reads in E as [Hc Hv]; [|done]. exists (Ok v), (t, c). split_and!; [done| |done]. by intros ? [= <-].
  - exists (Err e), s. split_and!; [done| |done]. by intros ?.
  - exists Panic, s. split_and!; [done| |done]. by intros ?.
Qed.

Lemma interp_sat {A} mmap env (w : Work A) Q s r s' :
  sat w Q -> Inv (snd s) -> may_return (interp mmap env w s) (Ok (r, s')) -> Q r /\ Inv (snd s').
Proof using reads.
  revert Q s r s'.
  induction w as [A r0|A B m k IH|A B p k IH|A span k IH|A required h op IHop k IH];
    intros Q s r s' H Hs; cbn [interp sat] in *.
  - by intros [= -> ->].
  - destruct (resume_compute_cases env m s (fun r s => interp mmap env (k r) s) Hs) as (t & s1 & Hs1 & ->).
    by apply IH.
  - rewrite may_return_and_then. intros (r1 & Hr1 & Hk). eapply IH; [by apply H, may_return_possible|done|done].
  - destruct (resume_read_cases mmap env span s (fun r s => interp mmap env (k r) s) Hs) as (r1 & s1 & Hs1 & Hr1 & ->).
    eapply IH; [by apply H|done].
  - destruct H as (H1 & H2 & H3). rewrite may_return_and_then. intros (g & Hg & Hk).
    destruct g as [u|e|].
    + unfold mbind, Prog_bind in Hk. rewrite may_return_and_then in Hk. destruct Hk as ([[r1 s1]|e|] & Hr1 & Hk); [|done..].
      destruct (IHop _ _ _ _ H3 Hs Hr1) as [[Hq _] Hs1]. by eapply IH.
    + assert (e = Cancelled \/ e = ResourceLimit) as He.
      { unfold grant, mbind, Prog_bind in Hg. destruct Hg as ([] & _ & Hg); [left; by injection Hg|].
        destruct Hg as ([] & _ & Hg); [done|right; by injection Hg]. }
      destruct He as [->| ->]; [by eapply (IH (Err Cancelled))|by eapply (IH (Err ResourceLimit))].
    + exfalso. unfold grant in Hg. destruct Hg as ([] & _ & Hg); [done|]. by destruct Hg as ([] & _ & Hg).
Qed.

(** What is granted is a value that the logic speaks of. *)
Lemma granted_sat mmap env answer {A} (w : Work A) Q s :
  (forall B (p : Prog B) n, possible p (answer B p n)) ->
  sat w Q -> Inv (snd (snd s)) ->
  let '(r, s') := granted mmap env answer w s in Q r /\ Inv (snd (snd s')).
Proof using reads.
  intros Ha. revert Q s.
  induction w as [A r0|A B m k IH|A B p k IH|A span k IH|A required h op IHop k IH];
    intros Q s H Hs; cbn [granted sat] in *.
  - done.
  - match goal with |- context [resume_compute _ _ ?st ?k] =>
      destruct (resume_compute_cases env m st k Hs) as (t & s1 & Hs1 & ->) end.
    by apply IH.
  - apply IH; [by apply H|done].
  - match goal with |- context [resume_read _ _ _ ?st ?k] =>
      destruct (resume_read_cases mmap env span st k Hs) as (r1 & s1 & Hs1 & Hr1 & ->) end.
    apply IH; [by apply H|done].
  - destruct H as (_ & _ & H). specialize (IHop _ s H Hs). destruct (granted mmap env answer op s) as [r s1].
    destruct IHop as [[Hq Hp] Hs1]. destruct r as [a|e|]; apply IH; auto.
Qed.

Lemma taken_same `{EqDecision tag} (h : tag) (a : handed h) : taken h (existT h a) = Some a.
Proof using Type.
  unfold taken. simpl. destruct (decide (h = h)) as [e|]; [|done]. by rewrite (proof_irrel e eq_refl).
Qed.

Lemma callback_sat `{EqDecision tag} {A} mmap env answer (w : Work A) Q s finish o :
  (forall B (p : Prog B) n, possible p (answer B p n)) ->
  sat w Q -> Inv (snd (snd s)) -> may_end (callback_of mmap env answer w s finish) o ->
  exists r s', Q r /\ Inv (snd (snd s')) /\ may_end (finish r s') o.
Proof using reads.
  intros Ha. revert Q s finish o.
  induction w as [A r0|A B m k IH|A B p k IH|A span k IH|A required h op IHop k IH];
    intros Q s finish o H Hs; cbn [callback_of sat] in *.
  - eauto.
  - match goal with |- may_end (resume_compute _ _ ?st ?k) _ -> _ =>
      destruct (resume_compute_cases env m st k Hs) as (t & s1 & Hs1 & ->) end.
    by apply IH.
  - eapply IH; [by apply H|done].
  - match goal with |- may_end (resume_read _ _ _ ?st ?k) _ -> _ =>
      destruct (resume_read_cases mmap env span st k Hs) as (r1 & s1 & Hs1 & Hr1 & ->) end.
    eapply IH; [by apply H|done].
  - destruct H as (H1 & H2 & H3). cbn [may_end]. intros (o' & Ho' & Hk).
    destruct Ho' as [->|[->|Ho']]; [exact (IH _ Q s finish o H1 Hs Hk)|exact (IH _ Q s finish o H2 Hs Hk)|].
    destruct (IHop _ s _ _ H3 Hs Ho') as (r & s1 & [Hq Hp] & Hs1 & He). simpl in He. subst o'.
    destruct r as [a|e|].
    + cbn [hand_over prepared_value fst snd] in Hk. rewrite taken_same in Hk. exact (IH _ Q s1 finish o Hq Hs1 Hk).
    + exact (IH _ Q s finish o Hq Hs Hk).
    + exact (IH _ Q s finish o (Hp eq_refl) Hs Hk).
Qed.
End Logic.

(** ** What a work asks for *)

Section Asking.
Context {tag : Type} {handed : tag -> Type}.
Local Notation Work := (Work handed).
Context (w : ResourceWeights).

(** Every wait of the work asks for at most [w]. *)
Fixpoint asks {A} (work : Work A) : Prop :=
  match work with
  | Finish _ => True
  | Compute m k => forall env t, asks (k (value_of (m env t)))
  | Shared _ k => forall r, asks (k r)
  | ReadSpan _ k => forall r, asks (k r)
  | Within required _ operation k => within required w /\ asks operation /\ forall r, asks (k r)
  end.

Lemma asks_then {A B} (work : Work A) (f : A -> Work B) :
  asks work -> (forall a, asks (f a)) -> asks (work ≫= f).
Proof using Type.
  intros H Hf. unfold mbind, Work_bind.
  induction work as [A r|A C m k IH|A C p k IH|A span k IH|A required h op _ k IH]; simpl in *.
  - by destruct r.
  - intros env t. by apply IH.
  - intros r. by apply IH.
  - intros r. by apply IH.
  - destruct H as (? & ? & ?). split_and!; [done..|]. intros r. by apply IH.
Qed.

Lemma asks_compute {A} (m : M A) : asks (compute m).
Proof using Type. done. Qed.
Lemma asks_shared {A} (p : Prog A) : asks (shared p).
Proof using Type. done. Qed.
Lemma asks_read span : asks (read span).
Proof using Type. done. Qed.
Lemma asks_ret {A} (a : A) : asks (mret a).
Proof using Type. done. Qed.

Lemma asks_lift {A B} (r : result A) (f : A -> Work B) :
  (forall a, r = Ok a -> asks (f a)) -> asks (compute (lift r) ≫= f).
Proof using Type. intros H env t. destruct r; simpl; auto. Qed.

Lemma asks_within required h (operation : Work (handed h)) :
  within required w -> asks operation -> asks (within_resources required h operation).
Proof using Type. done. Qed.

Lemma asks_each {A S} (l : list A) (body : A -> S -> Work S) :
  (forall a s, asks (body a s)) -> forall s, asks (work_each l body s).
Proof using Type.
  intros H. induction l as [|a l IH]; intros s; simpl; [done|]. apply asks_then; [apply H|apply IH].
Qed.
End Asking.

Create HintDb work.
#[export] Hint Resolve asks_then asks_compute asks_shared asks_read asks_ret asks_within asks_each : work.

Section Granted.
Context {tag : Type} `{EqDecision tag} {handed : tag -> Type}.
Context (mmap : bool) (env : Env) (answer : forall B, Prog B -> nat -> result B).

Lemma resume_compute_eq {B} (m : M B) (s : Store) :
  exists t s', forall R (k : result B -> Store -> R), resume_compute env m s k = k (value_of (m env t)) s'.
Proof using Type.
  exists (fst s). unfold resume_compute, resume. destruct (m env (fst s)) as [[b t]|e|]; by eexists.
Qed.

Lemma resume_read_eq span (s : Store) :
  exists r s', forall R (k : result ByteView -> Store -> R), resume_read mmap env span s k = k r s'.
Proof using Type.
  unfold resume_read, resume. destruct (read_span _ _ _ _ _) as [[[v c] t]|e|]; by do 2 eexists.
Qed.

(** A callback that is never cancelled and always granted ends with the result
    of its work. *)
Lemma callback_granted {A} (w : Work handed A) s finish :
  outcome_of (callback_of mmap env answer w s finish) =
    let '(r, s') := granted mmap env answer w s in outcome_of (finish r s').
Proof using Type.
  revert s finish.
  induction w as [A r0|A B m k IH|A B p k IH|A span k IH|A required h op IHop k IH]; intros s finish; cbn [callback_of granted].
  - done.
  - destruct (resume_compute_eq m (snd s)) as (t & s' & Hr). rewrite !Hr. apply IH.
  - apply IH.
  - destruct (resume_read_eq span (snd s)) as (r & s' & Hr). rewrite !Hr. apply IH.
  - cbn [outcome_of]. rewrite IHop. destruct (granted mmap env answer op s) as [[a|e|] s1]; cbn [outcome_of].
    + cbn [hand_over prepared_value fst snd]. rewrite taken_same. apply IH.
    + apply IH.
    + apply IH.
Qed.

(** A callback asks for no more than its work. *)
Lemma callback_contained w {A} (work : Work handed A) s finish :
  asks w work -> (forall r s', contained w (finish r s')) ->
  contained w (callback_of mmap env answer work s finish).
Proof using Type.
  intros Ha Hf. revert s finish Ha Hf.
  induction work as [A r0|A B m k IH|A B p k IH|A span k IH|A required h op IHop k IH]; intros s finish Ha Hf;
    cbn [callback_of asks] in *.
  - apply Hf.
  - destruct (resume_compute_eq m (snd s)) as (t & s' & ->). by apply IH.
  - by apply IH.
  - destruct (resume_read_eq span (snd s)) as (r & s' & ->). by apply IH.
  - destruct Ha as (H1 & H2 & H3). cbn [contained]. split_and!; [done|by apply IHop|].
    match goal with |- contained _ (match ?o with inl _ => _ | inr _ => _ end) => destruct o as [p|e] end;
      [destruct (taken _ _); [by apply IH|done]|by apply IH].
Qed.
End Granted.
