(* ===== verification/Materialize.v ===== *)
(** * Execution of binding plans, from [materialize.rs]

    A materializer joins an opened checkpoint, a plan, a preparation engine and
    possibly a cache and an overlay plan. [materialize_binding] delivers one
    target: prepared bytes, or the exact bytes that a provider still has to
    convert, compute or unpack. Telemetry is left out: [measure] is the
    operation it measures. *)

From S2P Require Import Prelude Errors Cancel Pipeline PipelineRun FileSystem Tensor Identity Order.
From S2P Require Import Limits Quantization Inventory Kernels Json Gguf Checkpoint Representation Operation Graph.
From S2P Require Import Liveness Prepare Exec Recipe Plan Overlay Planner Cache Work.
From stdpp Require Import gmap.
From Stdlib Require Strings.String.
Local Open Scope N_scope.

Definition PREPARED_CACHE_FORMAT_VERSION : N := 2.
Definition CACHE_READ_BLOCK_BYTES : N := 1024 * 1024.
Definition MAX_CACHED_PLAN_BYTES : N := 64 * 1024 * 1024.

(** ** Deliveries *)

Inductive PreparedOrigin := FromSource | FromTransform | FromOperationGraph | FromCache.

#[export] Instance PreparedOrigin_eq_dec : EqDecision PreparedOrigin.
Proof. solve_decision. Defined.

Record PreparedWeight := {
  weight_source_names : list TensorName;
  weight_target : TargetTensor;
  weight_bytes : ByteView;
  weight_origin : PreparedOrigin;
  weight_resident : N
}.

Record ConversionHandoff := {
  conversion_source : SourceTensor;
  conversion_target : TargetTensor;
  conversion_handed : ConversionRecipe;
  conversion_bytes : ByteView;
  conversion_resident : N
}.

Inductive OperationExecution := HostExecuted | Delegated.

#[export] Instance OperationExecution_eq_dec : EqDecision OperationExecution.
Proof. solve_decision. Defined.

Record OperationInputBytes := {
  input_source : SourceTensor;
  input_view : ByteView
}.

Record OperationHandoff := {
  handoff_inputs : list OperationInputBytes;
  handoff_target : TargetTensor;
  handoff_graph : OperationGraph;
  handoff_resident : N
}.

Record QuantizedHandoff := {
  quantized_source : SourceTensor;
  quantized_target : TargetTensor;
  quantized_storage : QuantizedStorage;
  quantized_capability : RouteCapability;
  quantized_payload : ByteView;
  quantized_companions : gmap StableName ByteView;
  quantized_resident : N
}.

(** The overlay is lazy: the base, and where its operations are. *)
Inductive WeightDelivery :=
  | Prepared (weight : PreparedWeight)
  | Conversion (handoff : ConversionHandoff)
  | OperationDelivery (handoff : OperationHandoff)
  | QuantizedDelivery (handoff : QuantizedHandoff)
  | OverlayDelivery (base : WeightDelivery) (plan : OverlayPlan) (binding_index : nat)
      (target_digest : ContentDigest) (resident_bytes : N).

Fixpoint delivery_target (d : WeightDelivery) : TargetTensor :=
  match d with
  | Prepared weight => weight_target weight
  | Conversion handoff => conversion_target handoff
  | OperationDelivery handoff => handoff_target handoff
  | QuantizedDelivery handoff => quantized_target handoff
  | OverlayDelivery base _ _ _ _ => delivery_target base
  end.

Definition delivery_name (d : WeightDelivery) : TensorName := target_name (delivery_target d).

Definition resident_bytes (d : WeightDelivery) : N :=
  match d with
  | Prepared weight => weight_resident weight
  | Conversion handoff => conversion_resident handoff
  | OperationDelivery handoff => handoff_resident handoff
  | QuantizedDelivery handoff => quantized_resident handoff
  | OverlayDelivery _ _ _ _ resident => resident
  end.

(** What a part of a materialization that runs under resources returns. *)
Inductive tag := HandsBytes | HandsDelivery.

#[export] Instance tag_eq_dec : EqDecision tag.
Proof. solve_decision. Defined.

Definition handed (h : tag) : Type :=
  match h with HandsBytes => ByteView | HandsDelivery => WeightDelivery end.

Abbreviation Materialization := (Work handed).

#[export] Instance SourceSpan_countable : Countable SourceSpan.
Proof.
  refine (inj_countable' (fun s => (Tensor.ordinal (span_file s), span_offset s, span_length s))
    (fun '(f, o, l) => {| span_file := from_ordinal f; span_offset := o; span_length := l |}) _).
  by intros [[] ? ?].
Defined.

(** ** Resources *)

Definition view_len_u64 (v : ByteView) : result N := Ok (view_len v).

(** The scratch of one step: its workspace and the intermediates beside it. *)
Definition step_scratch (transforms : list PlannedTransform) (i : nat) (p : PlannedTransform) : result N :=
  let input_intermediate :=
    match i with O => 0 | S previous => from_option output_size 0 (transforms !! previous) end in
  let output_intermediate := match transforms !! S i with Some _ => output_size p | None => 0 end in
  live ← ok_or (checked_add input_intermediate output_intermediate) ResourceLimit;
  ok_or (checked_add live (transform_scratch_bytes p)) ResourceLimit.

Definition peak_transform_scratch_bytes (transforms : list PlannedTransform) : result N :=
  try_fold (fun peak '(i, p) => live ← step_scratch transforms i p; mret (N.max peak live)) 0
    (enumerate transforms).

(** The loops over distinct spans: the spans met, and the two totals of bytes
    to read and bytes to keep. *)
Definition add_span (is_mapped : SourceSpan -> result bool) (totals : gset SourceSpan * N * N)
    (span : SourceSpan) : result (gset SourceSpan * N * N) :=
  let '(seen, read_bytes, resident) := totals in
  if bool_decide (span ∈ seen) then mret (seen, read_bytes, resident) else
  resident ← ok_or (checked_add resident (span_length span)) ResourceLimit;
  mapped ← is_mapped span;
  read_bytes ← (if (mapped : bool) then mret read_bytes
                else ok_or (checked_add read_bytes (span_length span)) ResourceLimit);
  mret ({[span]} ∪ seen, read_bytes, resident).

Definition quantized_spans (s : QuantizedStorage) : list SourceSpan :=
  Quantization.payload s :: map (fun '(_, c) => companion_span c) (btree_list (companions s)).

Definition quantized_source_byte_totals (s : QuantizedStorage) (is_mapped : SourceSpan -> result bool)
  : result (N * N) :=
  '(_, read_bytes, resident) ← try_fold (add_span is_mapped) (∅, 0, 0) (quantized_spans s);
  mret (read_bytes, resident).

Definition storage_byte_len (s : QuantizedStorage) : result N :=
  '(_, resident) ← quantized_source_byte_totals s (fun _ => mret false); mret resident.

Definition plain_span (source : SourceTensor) : result SourceSpan :=
  match source_storage source with
  | Plain _ span => Ok span
  | Quantized _ => Err Unsupported
  end.

Definition unique_plain_span_bytes (sources : list SourceTensor) : result N :=
  '(_, bytes) ← try_fold (fun '(seen, bytes) source =>
    span ← plain_span source;
    if bool_decide (span ∈ seen) then mret (seen, bytes)
    else bytes ← ok_or (checked_add bytes (span_length span)) ResourceLimit; mret ({[span]} ∪ seen, bytes))
    (∅ : gset SourceSpan, 0) sources;
  mret bytes.

(** ** Sources of a binding *)

(** [collect_file_ordinals]; the set iterates in order. *)
Definition collect_file_ordinals (s : Quantization.Storage) (ordinals : gset N) : M (gset N) :=
  _ ← check;
  let ordinals := {[Tensor.ordinal (span_file (storage_span s))]} ∪ ordinals in
  ordinals ← match s with
    | Plain _ _ => mret ordinals
    | Quantized q =>
        for_each (btree_list (companions q)) (fun '(_, c) ordinals =>
          _ ← check; mret ({[Tensor.ordinal (span_file (companion_span c))]} ∪ ordinals)) ordinals
    end;
  _ ← check;
  mret ordinals.

Record OrderedSourceIdentity := {
  identity_source : SourceTensor;
  identity_digests : list (N * ContentDigest)
}.

(** One round of each loop of [binding_source_content]. *)
Definition ordinal_digest (plan : BindingPlan) (o : N) (digests : list (N * ContentDigest))
  : M (list (N * ContentDigest)) :=
  _ ← check;
  i ← lift (usize_try_from o);
  digest ← lift (ok_or (source_digests (plan_inputs plan) !! N.to_nat i) Errors.Binding);
  mret (digests ++ [(o, digest)]).

(** The bytes of a pair of an ordinal and a digest, and of an identity. *)
Definition ORDINAL_DIGEST_BYTES : N := 36.
Definition SOURCE_IDENTITY_BYTES : N := 32.

Definition source_identity (plan : BindingPlan) (source : SourceTensor) (ids : list OrderedSourceIdentity)
  : M (list OrderedSourceIdentity) :=
  _ ← check;
  ordinals ← collect_file_ordinals (source_storage source) ∅;
  let ordinals := merge_sort N.le (elements ordinals) in
  _ ← try_reserve_exact (ORDINAL_DIGEST_BYTES * N.of_nat (length ordinals));
  digests ← for_each ordinals (ordinal_digest plan) [];
  mret (ids ++ [{| identity_source := source; identity_digests := digests |}]).

(** The bindings of a plan are in the order of their targets, so the binary
    search finds the binding of a name. *)
Definition find_binding (plan : BindingPlan) (name : TensorName) : option Binding :=
  List.find (fun b => bool_decide (target_name (binding_target b) = name)) (plan_bindings plan).

(** The values of this file that are written as JSON. *)
Inductive MaterializePayload :=
  | SourcesPayload (sources : list OrderedSourceIdentity)
  | TargetPayload (target : TargetTensor).

(** ** Cache addresses *)

Record PreparedCacheAddress := {
  address_key : CacheKey;
  address_compatibility : CacheCompatibility
}.

#[export] Instance PreparedCacheAddress_eq_dec : EqDecision PreparedCacheAddress.
Proof. solve_decision. Defined.

Record PlanCacheAddress := {
  plan_address_key : CacheKey;
  plan_address_compatibility : CacheCompatibility
}.

Inductive BindingPlanCacheLookup :=
  | PlanHit (plan : BindingPlan)
  | PlanMiss (reason : CacheMissReason).

Section Addresses.
Context (sha256 : bytes -> bytes) (write_json : MaterializePayload -> result bytes).

(** [serde_json::to_vec], its error mapped to an invalid format. *)
Definition to_json (value : MaterializePayload) : result bytes :=
  match write_json value with
  | Err _ => Err InvalidFormat
  | r => r
  end.

Definition binding_source_content (plan : BindingPlan) (binding : Binding) : M ContentDigest :=
  _ ← check;
  _ ← lift (reject (negb (bool_decide
        (find_binding plan (target_name (binding_target binding)) = Some binding))) Errors.Binding);
  _ ← try_reserve_exact (SOURCE_IDENTITY_BYTES * N.of_nat (length (binding_sources binding)));
  sources ← for_each (binding_sources binding) (source_identity plan) [];
  identity ← lift (to_json (SourcesPayload sources));
  _ ← check;
  let digest := digest_hash sha256 (domain "ordered-binding-sources-v2") [identity] in
  _ ← check;
  mret digest.

Definition PlanCacheAddress_new (id : PlanId) : PlanCacheAddress :=
  let transform := digest_hash sha256 (domain "binding-plan-cache-schema-v2")
                     [to_le_bytes 4 PLAN_SCHEMA_VERSION] in
  let compatibility := CacheCompatibility_plan PLAN_SCHEMA_VERSION transform in
  {| plan_address_key := CacheKey_derive sha256 PlanEntries compatibility [digest_bytes (plan_id_digest id)];
     plan_address_compatibility := compatibility |}.

(** Whether the binding ends in host bytes that a cache can keep. *)
Definition has_final_host_output (b : Binding) (overlay_digest : option ContentDigest) : result bool :=
  match operation_graph (binding_target b) with
  | Some graph => Ok (is_some overlay_digest || negb (is_some (output_input_alias graph)))
  | None =>
      source ← binding_source b;
      mret match source_storage source with
           | Plain _ _ =>
               is_some (conversion_recipe (binding_target b)) ||
               negb (is_empty (transforms (binding_target b))) || is_some overlay_digest
           | Quantized _ =>
               match quantized_route (binding_target b) with
               | Some capability => match route capability with HostDequant _ => true | _ => false end
               | None => false
               end
           end
  end.

Definition contract_bytes (target_json : bytes) (overlay_digest : option ContentDigest) : bytes :=
  target_json ++ match overlay_digest with
                 | Some digest => [Byte.x01] ++ digest_bytes digest
                 | None => [Byte.x00]
                 end.

Definition cache_address_for_binding (plan : BindingPlan) (b : Binding)
    (overlay_digest : option ContentDigest) : M (option PreparedCacheAddress) :=
  _ ← check;
  final ← lift (has_final_host_output b overlay_digest);
  if negb final then _ ← check; mret None else
  target_json ← lift (to_json (TargetPayload (binding_target b)));
  _ ← check;
  let transform := digest_hash sha256 (domain "prepared-binding-contract-v2")
                     [contract_bytes target_json overlay_digest] in
  _ ← check;
  let backend := backend_digest (plan_backend (plan_inputs plan)) in
  let compatibility := CacheCompatibility_prepared PREPARED_CACHE_FORMAT_VERSION transform backend in
  source_content ← binding_source_content plan b;
  let name := String.list_byte_of_string (tensor_name (target_name (binding_target b))) in
  let key := CacheKey_derive sha256 PreparedEntries compatibility [digest_bytes source_content; name] in
  _ ← check;
  mret (Some {| address_key := key; address_compatibility := compatibility |}).
End Addresses.

(** ** Reading a cache entry *)

(** The bytes read so far are what the hasher was given. A round that goes on
    reads at least one byte. *)
Fixpoint read_entry_loop (fuel : nat) (h : FileSystem.Handle) (length block_len : N) (bs : bytes)
  : Prog (bytes * FileSystem.Handle) :=
  if length <=? blen bs then mret (bs, h) else
  match fuel with
  | O => Running
  | S fuel =>
      _ ← check_cancelled;
      chunk ← (r ← file_read h (N.min (length - blen bs) block_len); io_ok r);
      if blen chunk =? 0 then throw Integrity
      else read_entry_loop fuel (advance h (blen chunk)) length block_len (bs ++ chunk)
  end.

(** The bytes that [read_cache_entry] boxes. *)
Definition read_cache_entry (sha256 : bytes -> bytes) (entry : CacheEntry) (validation : CacheValidation)
  : Prog bytes :=
  _ ← check_cancelled;
  let expected_digest := payload_digest (info entry) in
  let expected_length := payload_len (info entry) in
  length ← FileSystem.pure (usize_try_from expected_length);
  _ ← try_reserve;
  let block_len := N.min length CACHE_READ_BLOCK_BYTES in
  _ ← try_reserve;
  '(bs, file) ← read_entry_loop (N.to_nat length) (Cache.payload entry) length block_len [];
  _ ← check_cancelled;
  actual_length ← (r ← file_len file; io_ok r);
  if negb (actual_length =? expected_length) then throw Integrity
  else if bool_decide (validation = FullValidation) &&
          negb (bool_decide (from_bytes (sha256 bs) = expected_digest)) then throw Integrity
  else mret bs.

(** ** Plans in the cache *)

Section PlanCache.
Context (sha256 : bytes -> bytes) (to_vec : CacheEnvelope -> option bytes).
Context (from_slice : bytes -> option CacheEnvelope) (rounds : nat).
Context (reserves : TargetTensor -> bool) (plan_json : Planner.PlanPayload -> result bytes).
Context (parse_plan : bytes -> option BindingPlan).

Definition publish_binding_plan (cache : CacheInner) (plan : BindingPlan) : Prog CachePublication :=
  let address := PlanCacheAddress_new sha256 (plan_id plan) in
  bs ← FileSystem.pure (Planner.canonical_json plan_json (BindingPlanPayload plan));
  if MAX_CACHED_PLAN_BYTES <? blen bs then throw ResourceLimit else
  publish_bytes sha256 to_vec from_slice rounds cache PlanEntries (plan_address_key address)
    (plan_address_compatibility address) bs.

Definition lookup_binding_plan (cache : CacheInner) (id : PlanId) (validation : CacheValidation)
  : Prog BindingPlanCacheLookup :=
  let address := PlanCacheAddress_new sha256 id in
  lookup ← lookup_with_validation_and_cancellation sha256 from_slice rounds cache PlanEntries
             (plan_address_key address) (plan_address_compatibility address) TrustedMetadata;
  match lookup with
  | Miss reason => mret (PlanMiss reason)
  | Hit entry =>
      if MAX_CACHED_PLAN_BYTES <? payload_len (info entry) then throw ResourceLimit else
      bs ← read_cache_entry sha256 entry validation;
      plan ← FileSystem.pure (Planner.from_canonical_json reserves sha256 plan_json parse_plan bs);
      if negb (bool_decide (plan_id plan = id)) then throw Integrity else mret (PlanHit plan)
  end.
End PlanCache.

(** ** Validation of a plan against a checkpoint *)

Definition validate_inventory_source (i : Inventory) (source : SourceTensor) : result unit :=
  record ← ok_or (inventory_tensor i (tensor_name (source_name source))) Errors.Binding;
  reject (negb (bool_decide (record_shape record = source_shape source)) ||
          negb (bool_decide (record_storage record = source_storage source))) Integrity.

Definition validate_inventory_binding (i : Inventory) (b : Binding) : result unit :=
  try_fold (fun _ source => validate_inventory_source i source) tt (binding_sources b).

(** The sources of a plan are in the order of their names. *)
Definition validate_inventory_record (plan : BindingPlan) (record : TensorRecord) : result unit :=
  source ← ok_or (List.find (fun s => bool_decide (tensor_name (source_name s) = record_name record))
                    (plan_sources plan)) Integrity;
  reject (negb (bool_decide (source_shape source = record_shape record)) ||
          negb (bool_decide (source_storage source = record_storage record))) Integrity.

Definition validate_complete_plan_inventory (i : Inventory) (plan : BindingPlan) : M unit :=
  _ ← for_each (plan_sources plan) (fun source _ => _ ← check; lift (validate_inventory_source i source)) tt;
  _ ← lift (reject (negb (length (plan_sources plan) =? length (tensors i))%nat) Integrity);
  _ ← for_each (tensors i) (fun record _ => _ ← check; lift (validate_inventory_record plan record)) tt;
  check.

(** ** Overlays *)

Definition overlay_binding_index (overlay : OverlayPlan) (target : TensorName) : result (option nat) :=
  canonical ← Overlay.resolve (plan_aliases overlay) target;
  mret (fst <$> list_find (fun b => base_name (binding_base b) = canonical) (Overlay.plan_bindings overlay)).

Definition select_by_base (overlay : OverlayPlan) (b : Binding) (selected : gmap TensorName (list Binding))
  : M (gmap TensorName (list Binding)) :=
  _ ← check;
  canonical ← lift (Overlay.resolve (plan_aliases overlay) (target_name (binding_target b)));
  _ ← check;
  mret (<[canonical := default [] (selected !! canonical) ++ [b]]> selected).

Section OverlayValidation.
Context (sha256 : bytes -> bytes) (write_json : MaterializePayload -> result bytes).

Definition validate_overlay_base (plan : BindingPlan) (b : Binding) (overlay_binding : OverlayBinding) : M unit :=
  _ ← check;
  _ ← lift (reject (negb (bool_decide (target_shape (binding_target b) = base_shape (binding_base overlay_binding))))
              Errors.Binding);
  content ← binding_source_content sha256 write_json plan b;
  _ ← lift (reject (negb (bool_decide (content = base_content (binding_base overlay_binding)))) Integrity);
  check.

Definition validate_overlay_plan (plan : BindingPlan) (overlay : OverlayPlan) : M unit :=
  selected ← for_each (plan_bindings plan) (select_by_base overlay) ∅;
  _ ← for_each (Overlay.plan_bindings overlay) (fun overlay_binding _ =>
        _ ← check;
        for_each (default [] (selected !! base_name (binding_base overlay_binding))) (fun b _ =>
          _ ← check; validate_overlay_base plan b overlay_binding) tt) tt;
  check.
End OverlayValidation.

(** ** Materializers *)

Record Materializer := {
  checkpoint : Checkpoint;
  plan : BindingPlan;
  preparation : PreparationEngine;
  cache : option CacheInner;
  cache_validation : CacheValidation;
  overlay : option OverlayPlan;
  operation_execution : OperationExecution
}.

Definition with_cache (c : CacheInner) (m : Materializer) : Materializer :=
  {| checkpoint := checkpoint m; plan := plan m; preparation := preparation m; cache := Some c;
     cache_validation := cache_validation m; overlay := overlay m;
     operation_execution := operation_execution m |}.
Definition with_cache_validation (v : CacheValidation) (m : Materializer) : Materializer :=
  {| checkpoint := checkpoint m; plan := plan m; preparation := preparation m; cache := cache m;
     cache_validation := v; overlay := overlay m; operation_execution := operation_execution m |}.
Definition with_operation_execution (e : OperationExecution) (m : Materializer) : Materializer :=
  {| checkpoint := checkpoint m; plan := plan m; preparation := preparation m; cache := cache m;
     cache_validation := cache_validation m; overlay := overlay m; operation_execution := e |}.

(** [Materializer::binding]. *)
Definition binding (m : Materializer) (name : TensorName) : result Binding :=
  ok_or (find_binding (plan m) name) Errors.Binding.

Definition prepared_delivery (b : Binding) (bytes : ByteView) (origin : PreparedOrigin) : result WeightDelivery :=
  resident ← view_len_u64 bytes;
  mret (Prepared {| weight_source_names := map source_name (binding_sources b);
                    weight_target := binding_target b; weight_bytes := bytes; weight_origin := origin;
                    weight_resident := resident |}).

Section Materializers.
Context (sha256 : bytes -> bytes) (to_vec : CacheEnvelope -> option bytes).
Context (from_slice : bytes -> option CacheEnvelope) (rounds : nat).
Context (write_json : MaterializePayload -> result bytes) (overlay_json : OverlayPayload -> result bytes).
(** Whether the crate has the [mmap] feature, and the processor AVX2. *)
Context (mmap avx2 : bool).

(** [Materializer::new]: the checkpoint keeps the digests it computed. *)
Definition Materializer_new (c : Checkpoint) (p : BindingPlan) (engine : PreparationEngine) : M Materializer :=
  _ ← pending_digest_bytes c;
  '(digests, c) ← Checkpoint.source_digests sha256 c;
  _ ← lift (reject (negb (bool_decide (digests = source_digests (plan_inputs p)))) Integrity);
  _ ← validate_complete_plan_inventory (inventory c) p;
  _ ← for_each (plan_bindings p) (fun b _ => _ ← check; lift (validate_inventory_binding (inventory c) b)) tt;
  _ ← check;
  mret {| checkpoint := c; plan := p; preparation := engine; cache := None;
          cache_validation := FullValidation; overlay := None; operation_execution := HostExecuted |}.

Definition with_overlay_plan (o : OverlayPlan) (m : Materializer) : M Materializer :=
  _ ← validate_overlay_plan sha256 write_json (plan m) o;
  mret {| checkpoint := checkpoint m; plan := plan m; preparation := preparation m; cache := cache m;
          cache_validation := cache_validation m; overlay := Some o;
          operation_execution := operation_execution m |}.

Definition overlay_for_binding (m : Materializer) (b : Binding) : M (option (nat * ContentDigest)) :=
  _ ← check;
  match overlay m with
  | None => mret None
  | Some o =>
      _ ← check;
      found ← lift (overlay_binding_index o (target_name (binding_target b)));
      match found with
      | None => mret None
      | Some i =>
          _ ← check;
          selected ← lift (index (Overlay.plan_bindings o) i);
          if is_empty (binding_operations selected) then mret None else
          digest ← target_digest sha256 overlay_json o (target_name (binding_target b));
          _ ← check;
          mret (Some (i, digest))
      end
  end.

Definition prepared_cache_address (m : Materializer) (name : TensorName) : M (option PreparedCacheAddress) :=
  _ ← check;
  b ← lift (binding m name);
  found ← overlay_for_binding m b;
  address ← cache_address_for_binding sha256 write_json (plan m) b (snd <$> found);
  _ ← check;
  mret address.

(** *** Sources *)

Definition span_source_kind (m : Materializer) (span : SourceSpan) : result SourceKind :=
  i ← usize_try_from (Tensor.ordinal (span_file span));
  file ← ok_or (files (inventory (checkpoint m)) !! N.to_nat i) Integrity;
  mret (file_kind file).

Definition source_span_is_guaranteed_mapped (m : Materializer) (span : SourceSpan) : result bool :=
  if negb mmap then Ok false else
  kind ← span_source_kind m span;
  mret (bool_decide (kind = RetainedSnapshot) && bool_decide (access (checkpoint m) = Mmap)).

Definition source_span_uses_mapping (m : Materializer) (span : SourceSpan) : result bool :=
  if negb mmap then Ok false else
  kind ← span_source_kind m span;
  mret (bool_decide (kind = RetainedSnapshot) && negb (bool_decide (access (checkpoint m) = Checkpoint.Read))).

(** The mapping only names the phase that is measured. *)
Definition read_source (m : Materializer) (span : SourceSpan) : Materialization ByteView :=
  _ ← compute (lift (source_span_uses_mapping m span));
  Work.read span.

Definition operation_source_bytes (m : Materializer) (sources : list SourceTensor) : result (N * N) :=
  '(_, read_bytes, resident) ← try_fold (fun totals source =>
    span ← plain_span source; add_span (source_span_is_guaranteed_mapped m) totals span) (∅, 0, 0) sources;
  mret (read_bytes, resident).

Definition resource_weights (m : Materializer) (b : Binding) : result ResourceWeights :=
  match operation_graph (binding_target b) with
  | Some graph =>
      '(source_bytes, source_resident) ← operation_source_bytes m (binding_sources b);
      '(scratch, prepared) ← match operation_execution m with
        | HostExecuted => scratch ← estimate_host_scratch_bytes graph;
                          mret (scratch, target_output_size (binding_target b))
        | Delegated => mret (0, source_resident)
        end;
      mret (ResourceWeights_new source_bytes scratch prepared)
  | None =>
      source ← binding_source b;
      '(source_bytes, source_resident) ← match source_storage source with
        | Plain _ span =>
            mapped ← source_span_is_guaranteed_mapped m span;
            mret (if (mapped : bool) then 0 else span_length span, span_length span)
        | Quantized q => quantized_source_byte_totals q (source_span_is_guaranteed_mapped m)
        end;
      scratch ← peak_transform_scratch_bytes (transforms (binding_target b));
      let packed := match source_storage source with Quantized _ => true | Plain _ _ => false end in
      mret (ResourceWeights_new source_bytes scratch
              (if is_some (conversion_recipe (binding_target b)) || packed then source_resident
               else target_output_size (binding_target b)))
  end.

(** *** The cache *)

(** [publish_reader] of the bytes, when there are a cache and an address. *)
Definition publish_prepared (m : Materializer) (address : option PreparedCacheAddress) (bytes : ByteView)
  : Materialization unit :=
  match cache m, address with
  | Some c, Some a =>
      _ ← shared (publish_bytes sha256 to_vec from_slice rounds c PreparedEntries (address_key a)
                    (address_compatibility a) (as_slice bytes));
      mret tt
  | _, _ => mret tt
  end.

Definition evict_corrupt (c : CacheInner) (a : PreparedCacheAddress) : Materialization (option WeightDelivery) :=
  _ ← shared (evict rounds c PreparedEntries (address_key a) Corrupt);
  mret None.

Definition read_boxed (e : CacheEntry) (v : CacheValidation) : Materialization ByteView :=
  bs ← shared (read_cache_entry sha256 e v);
  address ← compute new_address;
  mret (view_from_boxed address bs).

(** [context]: whether the call runs inside a pipeline. *)
Definition with_resources (context : bool) (required : ResourceWeights) (h : tag)
    (operation : Materialization (handed h)) : Materialization (handed h) :=
  if context then within_resources required h operation else operation.

Definition try_cached_prepared (m : Materializer) (b : Binding) (address : option PreparedCacheAddress)
    (context : bool) : Materialization (option WeightDelivery) :=
  match cache m, address with
  | Some c, Some a =>
      lookup ← shared (lookup_with_validation_and_cancellation sha256 from_slice rounds c PreparedEntries
                         (address_key a) (address_compatibility a) TrustedMetadata);
      match lookup with
      | Miss _ => mret None
      | Hit e =>
          let size := target_output_size (binding_target b) in
          if negb (payload_len (info e) =? size) then evict_corrupt c a else
          work_then (with_resources context (ResourceWeights_new 0 0 size) HandsBytes
                       (read_boxed e (cache_validation m)))
            (fun read =>
               match read with
               | Ok bytes => d ← compute (lift (prepared_delivery b bytes FromCache)); mret (Some d)
               | Err Integrity => evict_corrupt c a
               | Err e => Finish (Err e)
               | Panic => Finish Panic
               end)
      end
  | _, _ => mret None
  end.

(** What follows a look into the cache: the delivery found, or the work left. *)
Definition or_materialize (m : Materializer) (b : Binding) (context : bool)
    (miss : option PreparedCacheAddress -> Materialization WeightDelivery) : Materialization WeightDelivery :=
  address ← compute (cache_address_for_binding sha256 write_json (plan m) b None);
  found ← try_cached_prepared m b address context;
  match found with
  | Some delivery => mret delivery
  | None =>
      required ← compute (lift (resource_weights m b));
      with_resources context required HandsDelivery (miss address)
  end.

(** *** Plain tensors *)

Definition check_output_size (b : Binding) (bytes : ByteView) : result unit :=
  size ← view_len_u64 bytes;
  reject (negb (size =? target_output_size (binding_target b))) Integrity.

Definition materialize_plain_after_cache_miss (m : Materializer) (b : Binding) (span : SourceSpan)
    (address : option PreparedCacheAddress) : Materialization WeightDelivery :=
  source ← read_source m span;
  _ ← compute check;
  '(bytes, origin) ←
    (if is_empty (transforms (binding_target b)) then mret (source, FromSource)
     else
       prepared ← compute (prepare_chain_with_cancellation (preparation m) (transforms (binding_target b))
                             (target_shape (binding_target b)) source);
       mret (prepared, FromTransform));
  _ ← compute (lift (check_output_size b bytes));
  _ ← publish_prepared m address bytes;
  compute (lift (prepared_delivery b bytes origin)).

Definition materialize_plain (m : Materializer) (b : Binding) (span : SourceSpan) (context : bool)
  : Materialization WeightDelivery :=
  or_materialize m b context (materialize_plain_after_cache_miss m b span).

Definition materialize_conversion_after_cache_miss (m : Materializer) (b : Binding) (span : SourceSpan)
    (recipe : ConversionRecipe) : Materialization WeightDelivery :=
  source_bytes ← read_source m span;
  _ ← compute check;
  resident ← compute (lift (view_len_u64 source_bytes));
  first ← compute (lift (binding_source b));
  mret (Conversion {| conversion_source := first; conversion_target := binding_target b;
                      conversion_handed := recipe; conversion_bytes := source_bytes;
                      conversion_resident := resident |}).

Definition materialize_conversion (m : Materializer) (b : Binding) (span : SourceSpan)
    (recipe : ConversionRecipe) (context : bool) : Materialization WeightDelivery :=
  or_materialize m b context (fun _ => materialize_conversion_after_cache_miss m b span recipe).

(** *** Operation graphs *)

(** A span that was read is not read again. *)
Definition read_once (m : Materializer) (views : gmap SourceSpan ByteView) (span : SourceSpan)
  : Materialization (gmap SourceSpan ByteView * ByteView) :=
  match views !! span with
  | Some bytes => mret (views, bytes)
  | None => bytes ← read_source m span; mret (<[span := bytes]> views, bytes)
  end.

(** Reservations count the views, of a size that the language does not fix. *)
Definition read_operation_inputs (m : Materializer) (b : Binding) : Materialization (list ByteView) :=
  _ ← compute (reserve_items (N.of_nat (length (binding_sources b))));
  '(_, inputs) ← work_each (binding_sources b) (fun source st =>
    let '(views, inputs) := st in
    _ ← compute check;
    span ← compute (lift (plain_span source));
    '(views, bytes) ← read_once m views span;
    mret (views, inputs ++ [bytes])) (∅, []);
  _ ← compute check;
  mret inputs.

Definition materialize_operation_graph_after_cache_miss (m : Materializer) (b : Binding)
    (graph : OperationGraph) (address : option PreparedCacheAddress) : Materialization WeightDelivery :=
  inputs ← read_operation_inputs m b;
  _ ← compute check;
  match operation_execution m with
  | Delegated =>
      resident ← compute (lift (unique_plain_span_bytes (binding_sources b)));
      mret (OperationDelivery
        {| handoff_inputs := zip_with Build_OperationInputBytes (binding_sources b) inputs;
           handoff_target := binding_target b; handoff_graph := graph; handoff_resident := resident |})
  | HostExecuted =>
      execution ← compute (execute_host avx2 (preparation m) graph inputs);
      estimated ← compute (lift (estimate_host_scratch_bytes graph));
      _ ← compute (lift (reject (estimated <? peak_scratch_bytes execution) Integrity));
      let bytes := execution_output execution in
      _ ← compute (lift (check_output_size b bytes));
      _ ← publish_prepared m address bytes;
      compute (lift (prepared_delivery b bytes FromOperationGraph))
  end.

Definition materialize_operation_graph (m : Materializer) (b : Binding) (graph : OperationGraph)
    (context : bool) : Materialization WeightDelivery :=
  or_materialize m b context (materialize_operation_graph_after_cache_miss m b graph).

(** *** Packed tensors *)

Definition materialize_quantized_after_cache_miss (m : Materializer) (b : Binding) (q : QuantizedStorage)
    (capability : RouteCapability) : Materialization WeightDelivery :=
  resident ← compute (lift (storage_byte_len q));
  payload ← read_source m (Quantization.payload q);
  '(_, companions) ← work_each (btree_list (companions q)) (fun companion st =>
    let '(views, found) := st in
    _ ← compute check;
    '(views, bytes) ← read_once m views (companion_span (snd companion));
    mret (views, <[fst companion := bytes]> found)) ({[Quantization.payload q := payload]}, ∅);
  _ ← compute check;
  first ← compute (lift (binding_source b));
  mret (QuantizedDelivery
    {| quantized_source := first; quantized_target := binding_target b; quantized_storage := q;
       quantized_capability := capability; quantized_payload := payload;
       quantized_companions := companions; quantized_resident := resident |}).

Definition materialize_quantized (m : Materializer) (b : Binding) (q : QuantizedStorage) (context : bool)
  : Materialization WeightDelivery :=
  capability ← compute (lift (ok_or (quantized_route (binding_target b)) Unsupported));
  or_materialize m b context (fun _ => materialize_quantized_after_cache_miss m b q capability).

(** *** Bindings *)

Definition materialize_base_binding (m : Materializer) (b : Binding) (context : bool)
  : Materialization WeightDelivery :=
  match operation_graph (binding_target b) with
  | Some graph => materialize_operation_graph m b graph context
  | None =>
      source ← compute (lift (binding_source b));
      match source_storage source with
      | Plain _ span =>
          match conversion_recipe (binding_target b) with
          | Some recipe => materialize_conversion m b span recipe context
          | None => materialize_plain m b span context
          end
      | Quantized q => materialize_quantized m b q context
      end
  end.

Definition materialize_binding (m : Materializer) (b : Binding) (context : bool)
  : Materialization WeightDelivery :=
  _ ← compute check;
  found ← compute (overlay_for_binding m b);
  match found with
  | Some (i, digest) =>
      address ← compute (cache_address_for_binding sha256 write_json (plan m) b (Some digest));
      cached ← try_cached_prepared m b address context;
      match cached with
      | Some delivery => mret delivery
      | None =>
          base ← materialize_base_binding m b context;
          let resident := resident_bytes base in
          o ← compute (lift (ok_or (overlay m) Integrity));
          mret (OverlayDelivery base o i digest resident)
      end
  | None => materialize_base_binding m b context
  end.

Definition materialize (m : Materializer) (name : TensorName) : Materialization WeightDelivery :=
  b ← compute (lift (binding m name));
  materialize_binding m b false.

Definition publish_prepared_bytes (m : Materializer) (name : TensorName) (bs : bytes)
  : Materialization CachePublication :=
  _ ← compute check;
  b ← compute (lift (binding m name));
  _ ← compute (lift (reject (negb (blen bs =? target_output_size (binding_target b))) Integrity));
  c ← compute (lift (ok_or (cache m) Unsupported));
  address ← compute (prepared_cache_address m name);
  a ← compute (lift (ok_or address Unsupported));
  shared (publish_bytes sha256 to_vec from_slice rounds c PreparedEntries (address_key a)
            (address_compatibility a) bs).

(** ** [Materializer::execute] *)

(** The weights a binding is scheduled with: those of a cached delivery when
    the binding has an address in the cache. *)
Definition scheduled_weights (m : Materializer) (limits : ExecutionLimits) (b : Binding) : M ResourceWeights :=
  resources ← lift (resource_weights m b);
  cached ← match cache m with
    | None => mret false
    | Some _ =>
        address ← prepared_cache_address m (target_name (binding_target b));
        mret (is_some address)
    end;
  mret (if (cached : bool) then
          let route_maximum := N.max (weight_prepared resources) (target_output_size (binding_target b)) in
          ResourceWeights_new 0 0 (N.min route_maximum (Limits.prepared_bytes limits))
        else resources).

Definition add_work_item (m : Materializer) (limits : ExecutionLimits) (entry : nat * Binding)
    (work : list (WorkItem Binding)) : M (list (WorkItem Binding)) :=
  let '(i, b) := entry in
  _ ← check;
  scheduled ← scheduled_weights m limits b;
  mret (work ++ [{| Pipeline.ordinal := N.of_nat i; value := b; resources := scheduled |}]).

Definition work_items (m : Materializer) (limits : ExecutionLimits) : M (list (WorkItem Binding)) :=
  let bindings := plan_bindings (plan m) in
  _ ← lift (reject (max_work_items limits <? N.of_nat (length bindings)) ResourceLimit);
  _ ← check;
  _ ← reserve_items (N.of_nat (length bindings));
  work ← for_each (enumerate bindings) (add_work_item m limits) [];
  _ ← check;
  mret work.

(** The callback of an item, which runs in an environment of its own, on the
    checkpoint as the callbacks before it left it. *)
Section Execute.
Context (answer : N -> forall B, Prog B -> nat -> result B) (envs : N -> Env) (checkpoints : N -> Checkpoint).

Definition deliver (r : result WeightDelivery) (s : Progress) : Callback (Handover (handed := handed)) :=
  Done match r with
       | Ok d => inl (hand_over (h := HandsDelivery) d (resident_bytes d) s)
       | Err e => inr e
       | Panic => inr Integrity
       end.

Definition binding_callback (m : Materializer) (n : N) (b : Binding) : Callback (Handover (handed := handed)) :=
  callback_of mmap (envs n) (answer n) (materialize_binding m b true) (0%nat, (0%nat, checkpoints n)) deliver.

Inductive materializer_executes (m : Materializer) (limits : ExecutionLimits)
    (sink : list (N * PreparedItem (Handover (handed := handed))) -> N ->
            PreparedItem (Handover (handed := handed)) -> unit + ErrorCategory)
    (env : Env) (t : nat)
  : unit + ErrorCategory -> list (N * PreparedItem (Handover (handed := handed))) -> Prop :=
  | execute_unscheduled e :
      work_items m limits env t = Err e -> materializer_executes m limits sink env t (inr e) []
  | execute_scheduled work t' outcome delivered :
      work_items m limits env t = Ok (work, t') ->
      executes limits (binding_callback m) sink env t' work outcome delivered ->
      materializer_executes m limits sink env t outcome delivered.
End Execute.
End Materializers.
