(* ===== verification/MaterializeSpecs.v ===== *)
(** * What a materialization delivers

    [delivered] says what the delivery of a binding has to be, in terms of the
    bytes of the checkpoint's files, the engine and the executor.
    [materialize_binding_yields] shows it of every value that
    [materialize_binding] may return, whatever the cache, the file system, the
    environment and the pipeline answer. *)

From S2P Require Import Prelude Errors Cancel Pipeline PipelineRun FileSystem Tensor Identity Order.
From S2P Require Import Limits Quantization Inventory Kernels FileReader Json Gguf.
From S2P Require Import Checkpoint CheckpointSpecs Representation Operation Graph.
From S2P Require Import Liveness Prepare Exec Recipe Plan Overlay Planner Cache CacheSpecs Work Materialize.
From stdpp Require Import gmap.
Local Open Scope N_scope.

(** ** Bytes of spans *)

(** The bytes of a span in the files of a checkpoint. *)
Definition span_bytes (c : Checkpoint) (span : SourceSpan) : option bytes :=
  f ← open_files c !! N.to_nat (Tensor.ordinal (span_file span));
  Some (slice (contents (handle_file (handle f))) (span_offset span) (span_length span)).

Definition shows (c : Checkpoint) (span : SourceSpan) (v : ByteView) : Prop :=
  view_wf v /\ span_bytes c span = Some (as_slice v).

(** The same files, with other mappings and digests. *)
Definition same_checkpoint (c c' : Checkpoint) : Prop :=
  checkpoint_ok c' /\ access c' = access c /\ inventory c' = inventory c /\
  Forall2 same_file (open_files c) (open_files c').

Lemma same_checkpoint_refl c : checkpoint_ok c -> same_checkpoint c c.
Proof. intros H. split_and!; try done. by apply Forall_Forall2_diag, Forall_true. Qed.

Lemma same_checkpoint_trans c1 c2 c3 : same_checkpoint c1 c2 -> same_checkpoint c2 c3 -> same_checkpoint c1 c3.
Proof.
  intros (_ & Ha & Hi & Hf) (Hc & Ha' & Hi' & Hf'). split_and!; [done|congruence..|].
  eapply (Forall2_trans _ _ same_file); [|exact Hf|exact Hf'].
  intros x y z (? & ? & ? & ? & ?) (? & ? & ? & ? & ?). unfold same_file. split_and!; congruence.
Qed.

Lemma same_span_bytes c c' span : same_checkpoint c c' -> span_bytes c' span = span_bytes c span.
Proof.
  intros (_ & _ & _ & Hf). unfold span_bytes.
  apply (Forall2_lookup _ _ _) with (i := N.to_nat (Tensor.ordinal (span_file span))) in Hf.
  destruct Hf as [f f' (_ & _ & Hh & _)|]; simpl; [by rewrite Hh|done].
Qed.

(** A read that returns shows the bytes of the span, and keeps the files. *)
Lemma read_span_shows c0 mmap c span env t v c' t' :
  same_checkpoint c0 c -> read_span mmap c span env t = Ok (v, c', t') -> same_checkpoint c0 c' /\ shows c0 span v.
Proof.
  intros Hc H. pose proof Hc as (Hok & _).
  unfold read_span in H. apply run_bind_Ok in H as ([] & t1 & _ & H).
  apply run_bind_Ok in H as (i & t2 & Hi & H). apply run_lift_Ok in Hi as [[Hi Hle]%usize_try_from_Ok ->].
  apply run_bind_Ok in H as (f & t3 & Hf & H). apply run_lift_Ok in Hf as [Hf ->]. subst i.
  destruct (open_files c !! _) as [f0|] eqn:Ef; [|done]. injection Hf as ->.
  apply run_bind_Ok in H as ([v0 f'] & t4 & Ho & H). apply run_bind_Ok in H as ([] & t5 & _ & H).
  injection H as -> <- <-.
  assert (file_wf f) as Hwf by (eapply Forall_lookup_1; [apply Hok|exact Ef]).
  destruct (N.le_gt_cases (span_offset span + span_length span) u64_MAX) as [Hu|Hu].
  - pose proof (open_read_span_spec mmap f span (access c) Hwf Hu env t1) as Hs. rewrite Ho in Hs.
    destruct Hs as (_ & Hf' & Hsame & [Hv Hs] & _).
    assert (same_checkpoint c (set_files (<[N.to_nat (Tensor.ordinal (span_file span)):=f']> (open_files c)) c)) as Hcc.
    { split; [by eapply checkpoint_insert|]. split_and!; [done..|].
      apply (Forall2_same_length_lookup_2 _ _ _); cbn [set_files open_files]; [by rewrite length_insert|].
      intros j x y Hx Hy. destruct (decide (j = N.to_nat (Tensor.ordinal (span_file span)))) as [->|Hj].
      - rewrite list_lookup_insert_eq in Hy by (by eapply lookup_lt_Some). by simplify_eq.
      - rewrite list_lookup_insert_ne in Hy by done. by simplify_eq. }
    split; [by eapply same_checkpoint_trans|]. split; [done|].
    rewrite <-(same_span_bytes c0 c span Hc). unfold span_bytes. rewrite Ef. simpl. by rewrite Hs.
  - exfalso. unfold open_read_span in Ho. apply run_bind_Ok in Ho as (o & t6 & Ho & H).
    apply run_lift_Ok in Ho as [Ho ->]. destruct (negb _); cbn in Ho.
    + injection Ho as <-. by apply run_bind_Ok in H as (? & ? & [? _]%run_lift_Ok & _).
    + unfold span_end in Ho. by rewrite (proj2 (N.leb_gt _ _) Hu) in Ho.
Qed.

(** ** Entries of the cache, whatever the file system answers *)

Section Entries.
Context (sha256 : bytes -> bytes) (from_slice : bytes -> option CacheEnvelope) (rounds : nat).

(** A hit is an entry of the key that was asked for. *)
Definition hits (n : CacheNamespace) (k : CacheKey) (c : CacheCompatibility) (l : CacheLookup) : Prop :=
  match l with Hit e => entry_ok n k c e | Miss _ => True end.

Local Ltac step := apply always_step; intros ?.

Lemma always_lookup_entry_path p n k c v :
  always (lookup_entry_path sha256 from_slice rounds p n k c v) (hits n k c).
Proof using Type.
  unfold lookup_entry_path. step. apply always_step. intros [m|[]]; [|by apply always_ret|by apply always_fail..].
  destruct (negb (is_dir m)); [by apply always_ret|]. apply always_step.
  intros [e|r]; [|by apply always_ret].
  destruct (negb (envelope_version e =? _)); [by apply always_ret|].
  case_bool_decide as Hn; [|by apply always_ret]. case_bool_decide as Hk; [|by apply always_ret].
  case_bool_decide as Hc; [|by apply always_ret]. cbn [negb].
  apply always_step. intros [h|[]]; [|by apply always_ret|by apply always_fail..].
  step. destruct (negb _); [by apply always_ret|]. cbv zeta.
  assert (forall h', always (file ← (r ← file_rewind h'; io_ok r);
    mret (Hit {| info := info_from_envelope e (p ++ [PAYLOAD_FILE]); payload := file |})) (hits n k c)) as Hfinish.
  { intros h'. step. by apply always_ret. }
  case_bool_decide; [|apply Hfinish]. apply always_step. intros [d h']. destruct (negb _); [by apply always_ret|apply Hfinish].
Qed.

Lemma always_lookup_replacements ps n k c v :
  always (lookup_replacements sha256 from_slice rounds ps n k c v)
    (fun o => forall e, o = Some e -> entry_ok n k c e).
Proof using Type.
  induction ps as [|p ps IH]; cbn [lookup_replacements]; [by apply always_ret|].
  intros o Ho. apply may_return_and_then in Ho as (r & Hr & Ho). destruct r as [[e|m]|error|].
  - injection Ho as ->. intros ? [= <-]. by apply (always_lookup_entry_path p n k c v _ Hr).
  - by apply IH.
  - revert o Ho. change (always (raced ← replacement_lookup_raced p;
      if (raced : bool) then lookup_replacements sha256 from_slice rounds ps n k c v else throw error)
      (fun o => forall e, o = Some e -> entry_ok n k c e)).
    apply always_step. intros []; [done|apply always_fail].
  - done.
Qed.

Lemma always_lookup cache n k c v :
  always (lookup_with_validation_and_cancellation sha256 from_slice rounds cache n k c v) (hits n k c).
Proof using Type.
  pose proof (always_lookup_entry_path (entry_path cache n k) n k c v) as He.
  unfold lookup_with_validation_and_cancellation. step. cbv zeta.
  eapply always_bind; [exact He|]. intros [e|r] H; [by apply always_ret|].
  step. apply always_step. intros [previous ?].
  eapply always_bind; [exact He|]. intros [e|r'] H'; [by apply always_ret|].
  eapply always_bind; [apply always_lookup_replacements|]. intros [e|] Hf; [|exact He].
  apply always_ret. by apply Hf.
Qed.

Lemma always_read_entry_loop fuel h length block_len bs :
  blen bs <= length ->
  always (read_entry_loop fuel h length block_len bs) (fun r => blen (fst r) = length).
Proof using Type.
  revert h bs. induction fuel as [|fuel IH]; intros h bs Hle; cbn [read_entry_loop];
    (destruct (N.leb_spec length (blen bs)); [apply always_ret; simpl; lia|]); [by intros a|].
  step. apply (always_bind _ _ (fun chunk => blen chunk <= length - blen bs)).
  { intros chunk Hc. unfold mbind, Prog_bind in Hc. apply may_return_and_then in Hc as (r & Hr & Hc).
    destruct Hr as (b & Hb & Hr). simpl in Hr. subst r. simpl in Hb. destruct b as [bs'|e]; [|done].
    injection Hc as ->. unfold blen in *. lia. }
  intros chunk Hchunk. destruct (blen chunk =? 0); [apply always_fail|].
  apply IH. unfold blen in *. rewrite length_app. lia.
Qed.

(** The bytes read from an entry have its length and, under full validation,
    its digest. *)
Definition entry_bytes (e : CacheEntry) (v : CacheValidation) (bs : bytes) : Prop :=
  blen bs = payload_len (info e) /\ (v = FullValidation -> from_bytes (sha256 bs) = payload_digest (info e)).

Lemma always_read_cache_entry e v : always (read_cache_entry sha256 e v) (entry_bytes e v).
Proof using Type.
  unfold read_cache_entry. step. cbv zeta.
  eapply always_bind; [apply (always_pure _ (fun l => l = payload_len (info e)))|].
  { by intros l [-> _]%usize_try_from_Ok. }
  intros l ->. step. step.
  eapply always_bind; [apply always_read_entry_loop; unfold blen; simpl; lia|].
  intros [bs h] Hlen. simpl in Hlen. step. step. destruct (negb _); [apply always_fail|].
  destruct (bool_decide (v = FullValidation) && negb (bool_decide (from_bytes (sha256 bs) = payload_digest (info e)))) eqn:E;
    [apply always_fail|].
  apply always_ret. split; [done|]. intros Hv. rewrite bool_decide_true in E by done. simpl in E.
  by apply negb_false_iff, bool_decide_eq_true in E.
Qed.
End Entries.

(** ** Deliveries *)

Section Deliveries.
Context (sha256 : bytes -> bytes) (to_vec : CacheEnvelope -> option bytes).
Context (from_slice : bytes -> option CacheEnvelope) (rounds : nat).
Context (write_json : MaterializePayload -> result bytes) (overlay_json : OverlayPayload -> result bytes).
Context (mmap avx2 : bool) (m : Materializer) (b : Binding).

Local Notation shows := (shows (checkpoint m)).
Local Notation sources := (binding_sources b).
Local Notation target := (binding_target b).
Local Notation yields := (yields shows).

(** The bytes of a cached delivery are those of an entry at the address of the
    binding: they have its length and, under full validation, its digest. *)
Definition from_entry (overlay_digest : option ContentDigest) (bs : bytes) : Prop :=
  is_Some (cache m) /\
  exists a e, computes (cache_address_for_binding sha256 write_json (plan m) b overlay_digest) (Some a) /\
    entry_ok PreparedEntries (address_key a) (address_compatibility a) e /\
    payload_len (info e) = target_output_size target /\ entry_bytes sha256 e (cache_validation m) bs.

(** The views that a graph runs on: one for each source. *)
Definition inputs_show (inputs : list ByteView) : Prop :=
  Forall2 (fun s v => exists span, plain_span s = Ok span /\ shows span v) sources inputs.

Definition origin_ok (overlay_digest : option ContentDigest) (w : PreparedWeight) : Prop :=
  match weight_origin w with
  | FromCache => from_entry overlay_digest (as_slice (weight_bytes w))
  | FromSource =>
      operation_graph target = None /\ conversion_recipe target = None /\ transforms target = [] /\
      exists s rest dtype span, sources = s :: rest /\ source_storage s = Plain dtype span /\ shows span (weight_bytes w)
  | FromTransform =>
      operation_graph target = None /\ conversion_recipe target = None /\
      exists s rest dtype span v, sources = s :: rest /\ source_storage s = Plain dtype span /\ shows span v /\
        computes (prepare_chain_with_cancellation (preparation m) (transforms target) (target_shape target) v)
          (weight_bytes w)
  | FromOperationGraph =>
      operation_execution m = HostExecuted /\
      exists graph inputs e, operation_graph target = Some graph /\ inputs_show inputs /\
        computes (execute_host avx2 (preparation m) graph inputs) e /\ execution_output e = weight_bytes w /\
        exists estimate, estimate_host_scratch_bytes graph = Ok estimate /\ peak_scratch_bytes e <= estimate
  end.

Definition prepared_ok (overlay_digest : option ContentDigest) (w : PreparedWeight) : Prop :=
  weight_target w = target /\ weight_source_names w = map source_name sources /\
  view_len (weight_bytes w) = target_output_size target /\
  weight_resident w = target_output_size target /\ origin_ok overlay_digest w.

Definition conversion_ok (h : ConversionHandoff) : Prop :=
  conversion_target h = target /\ operation_graph target = None /\
  conversion_recipe target = Some (conversion_handed h) /\
  exists rest dtype span, sources = conversion_source h :: rest /\
    source_storage (conversion_source h) = Plain dtype span /\ shows span (conversion_bytes h) /\
    conversion_resident h = view_len (conversion_bytes h).

Definition operation_ok (h : OperationHandoff) : Prop :=
  handoff_target h = target /\ operation_graph target = Some (handoff_graph h) /\
  operation_execution m = Delegated /\ map input_source (handoff_inputs h) = sources /\
  inputs_show (map input_view (handoff_inputs h)) /\
  unique_plain_span_bytes sources = Ok (handoff_resident h).

Definition quantized_ok (h : QuantizedHandoff) : Prop :=
  quantized_target h = target /\ operation_graph target = None /\
  quantized_route target = Some (quantized_capability h) /\
  (exists rest, sources = quantized_source h :: rest) /\
  source_storage (quantized_source h) = Quantized (quantized_storage h) /\
  shows (Quantization.payload (quantized_storage h)) (quantized_payload h) /\
  (forall role v, quantized_companions h !! role = Some v ->
     exists c, companions (quantized_storage h) !! role = Some c /\ shows (companion_span c) v) /\
  (forall role c, companions (quantized_storage h) !! role = Some c -> is_Some (quantized_companions h !! role)) /\
  storage_byte_len (quantized_storage h) = Ok (quantized_resident h).

(** What is delivered without an overlay, or below one. *)
Definition base_delivered (d : WeightDelivery) : Prop :=
  match d with
  | Prepared w => prepared_ok None w
  | Conversion h => conversion_ok h
  | OperationDelivery h => operation_ok h
  | QuantizedDelivery h => quantized_ok h
  | OverlayDelivery _ _ _ _ _ => False
  end.

Definition delivered (d : WeightDelivery) : Prop :=
  exists found, computes (overlay_for_binding sha256 overlay_json m b) found /\
  match found with
  | None => base_delivered d
  | Some (i, digest) =>
      (exists w, d = Prepared w /\ weight_origin w = FromCache /\ prepared_ok (Some digest) w) \/
      (exists base o, d = OverlayDelivery base o i digest (resident_bytes base) /\ overlay m = Some o /\
         base_delivered base)
  end.

(** *** Reads *)

Lemma yields_read_source span : yields (read_source mmap m span) (shows span).
Proof using Type.
  unfold read_source. eapply yields_then; [apply yields_any|]. intros _ _. by apply yields_read.
Qed.

Definition views_show (views : gmap SourceSpan ByteView) : Prop :=
  forall span v, views !! span = Some v -> shows span v.

Lemma yields_read_once views span :
  views_show views ->
  yields (read_once mmap m views span) (fun r => views_show (fst r) /\ shows span (snd r)).
Proof using Type.
  intros Hv. unfold read_once. destruct (views !! span) as [v|] eqn:E.
  - apply yields_ret. split; [done|]. by apply Hv.
  - eapply yields_then; [apply yields_read_source|]. intros v Hs. apply yields_ret. split; [|done]. cbn [fst].
    intros span' v' [[<- <-]|[_ H]]%lookup_insert_Some; [done|by apply Hv].
Qed.

Lemma yields_read_inputs : yields (read_operation_inputs mmap m b) inputs_show.
Proof using Type.
  unfold read_operation_inputs. eapply yields_then; [apply yields_any|]. intros _ _.
  eapply yields_then.
  { apply (yields_each _ (fun before st => views_show (fst st) /\
      Forall2 (fun s v => exists span, plain_span s = Ok span /\ shows span v) before (snd st))).
    - split; [by intros ??|constructor].
    - intros before s after [views inputs] _ [Hv Hi]. simpl in Hv, Hi.
      eapply yields_then; [apply yields_any|]. intros _ _.
      eapply yields_then; [apply yields_value|].
      intros span Hspan. eapply yields_then; [by apply yields_read_once|]. intros [views' v] [Hv' Hs].
      apply yields_ret. split; [done|]. apply Forall2_app; [done|]. constructor; [by exists span|constructor]. }
  intros [views inputs] [_ Hi]. eapply yields_then; [apply yields_any|]. intros _ _. by apply yields_ret.
Qed.

(** *** The cache *)

Lemma yields_with_resources context required h (operation : Materialization (handed h)) (P : handed h -> Prop) :
  yields operation P -> yields (with_resources context required h operation) P.
Proof using Type. unfold with_resources. destruct context; [apply yields_within|done]. Qed.

Lemma prepared_delivery_Ok bytes origin d :
  prepared_delivery b bytes origin = Ok d ->
  d = Prepared {| weight_source_names := map source_name sources; weight_target := target;
                  weight_bytes := bytes; weight_origin := origin; weight_resident := view_len bytes |}.
Proof using Type. by intros [= <-]. Qed.

Lemma yields_evict_corrupt c a (P : option WeightDelivery -> Prop) :
  P None -> yields (evict_corrupt rounds c a) P.
Proof using Type. intros H. eapply yields_then; [apply yields_shared, always_any|]. intros ? _. by apply yields_ret. Qed.

Lemma yields_read_boxed e v :
  yields (read_boxed sha256 e v) (fun view => entry_bytes sha256 e v (as_slice view) /\
    view_len view = payload_len (info e)).
Proof using Type.
  unfold read_boxed. eapply yields_then; [apply yields_shared, always_read_cache_entry|]. intros bs Hbs.
  eapply yields_then; [apply yields_any|]. intros address _. apply yields_ret.
  rewrite view_from_boxed_slice. split; [done|]. destruct Hbs as [<- _].
  unfold view_len. simpl. unfold blen. lia.
Qed.

Lemma yields_try_cached address overlay_digest context :
  (forall a, address = Some a ->
     computes (cache_address_for_binding sha256 write_json (plan m) b overlay_digest) (Some a)) ->
  yields (try_cached_prepared sha256 from_slice rounds m b address context)
    (fun found => forall d, found = Some d ->
       exists w, d = Prepared w /\ weight_origin w = FromCache /\ prepared_ok overlay_digest w).
Proof using Type.
  intros Ha. unfold try_cached_prepared. destruct (cache m) as [c|] eqn:Ec; [|by apply yields_ret].
  destruct address as [a|]; [|by apply yields_ret]. specialize (Ha a eq_refl).
  eapply yields_then; [apply yields_shared, always_lookup|]. intros [e|r] He; [|by apply yields_ret].
  destruct (N.eqb_spec (payload_len (info e)) (target_output_size target)) as [Hl|]; cbn [negb];
    [|by apply yields_evict_corrupt].
  apply sat_then. eapply sat_mono; [apply yields_with_resources, yields_read_boxed|].
  intros [v|error|] Hr; [|destruct error; try (by apply yields_fail); by apply yields_evict_corrupt|by apply yields_fail].
  destruct (Hr v eq_refl) as [Hbs Hlen].
  eapply yields_then; [apply yields_value|].
  intros d Hd%prepared_delivery_Ok. apply yields_ret. intros ? [= <-]. eexists. split; [exact Hd|]. split; [done|].
  unfold prepared_ok, origin_ok. cbn. split_and!; [done|done|lia|lia|]. unfold from_entry. rewrite Ec. split; [by eexists|].
  exists a, e. by split_and!.
Qed.

Lemma yields_or_materialize context miss :
  (forall address, yields (miss address) base_delivered) ->
  yields (or_materialize sha256 from_slice rounds write_json mmap m b context miss) base_delivered.
Proof using Type.
  intros Hm. unfold or_materialize. eapply yields_then; [apply yields_computes|]. intros address Ha. eapply yields_then; [apply (yields_try_cached address None); by intros a ->|].
  intros [d|] Hd.
  - destruct (Hd d eq_refl) as (w & -> & _ & Hw). by apply yields_ret.
  - eapply yields_then; [apply yields_any|]. intros required _. by apply yields_with_resources.
Qed.

(** *** After a miss *)

Local Ltac next := eapply yields_then; [apply yields_any|]; intros ? _.
Local Ltac value H := eapply yields_then; [apply yields_value|]; intros ? H; cbv beta in H.

Lemma yields_publish address bytes :
  yields (publish_prepared sha256 to_vec from_slice rounds m address bytes) (fun _ => True).
Proof using Type.
  unfold publish_prepared. destruct (cache m), address; try by apply yields_ret.
  eapply yields_then; [apply yields_shared, always_any|]. intros. by apply yields_ret.
Qed.

Lemma check_output_size_Ok bytes u :
  check_output_size b bytes = Ok u -> view_len bytes = target_output_size target.
Proof using Type.
  unfold check_output_size, view_len_u64. cbn [mbind result_bind]. intros H.
  apply reject_Ok, negb_false_iff, N.eqb_eq in H. done.
Qed.

(** The end of a materialization: the size is checked, the bytes are published
    and delivered. *)
Lemma yields_finish address bytes origin :
  (view_len bytes = target_output_size target ->
   base_delivered (Prepared {| weight_source_names := map source_name sources; weight_target := target;
     weight_bytes := bytes; weight_origin := origin; weight_resident := view_len bytes |})) ->
  yields (_ ← compute (lift (check_output_size b bytes));
          _ ← publish_prepared sha256 to_vec from_slice rounds m address bytes;
          compute (lift (prepared_delivery b bytes origin))) base_delivered.
Proof using Type.
  intros H. value Hlen. apply check_output_size_Ok in Hlen.
  eapply yields_then; [apply yields_publish|]. intros _ _. apply yields_lift.
  intros d ->%prepared_delivery_Ok. by apply H.
Qed.

Lemma yields_plain span address s rest dtype :
  operation_graph target = None -> conversion_recipe target = None ->
  sources = s :: rest -> source_storage s = Plain dtype span ->
  yields (materialize_plain_after_cache_miss sha256 to_vec from_slice rounds mmap m b span address) base_delivered.
Proof using Type.
  intros Hg Hr Hs Hst. unfold materialize_plain_after_cache_miss.
  eapply yields_then; [apply yields_read_source|]. intros v Hv. next.
  destruct (transforms target) as [|t ts] eqn:Et; cbn [is_empty].
  - eapply yields_then; [by apply (yields_ret _ _ (fun r => r = (v, FromSource)))|]. intros ? ->.
    apply yields_finish. intros Hlen.
    unfold base_delivered, prepared_ok, origin_ok. cbn. split_and!; [done..|]. by exists s, rest, dtype, span.
  - eapply yields_then.
    { eapply yields_then; [apply yields_computes|]. intros bytes Hb.
      by apply (yields_ret _ _ (fun r => snd r = FromTransform /\ computes
          (prepare_chain_with_cancellation (preparation m) (t :: ts) (target_shape target) v) (fst r))). }
    intros [bytes origin] [Ho Hb]. simpl in Ho, Hb. subst origin.
    apply yields_finish. intros Hlen.
    unfold base_delivered, prepared_ok, origin_ok. cbn. split_and!; [done..|].
    exists s, rest, dtype, span, v. rewrite Et. by split_and!.
Qed.

Lemma shows_len span v : shows span v -> view_len v <= span_length span.
Proof using Type.
  intros [Hw Hs]. rewrite <-as_slice_length by done. unfold span_bytes in Hs.
  destruct (open_files (checkpoint m) !! _); [|done]. injection Hs as <-.
  unfold slice. rewrite length_take. lia.
Qed.

Lemma yields_conversion span recipe s rest dtype :
  operation_graph target = None -> conversion_recipe target = Some recipe ->
  sources = s :: rest -> source_storage s = Plain dtype span ->
  yields (materialize_conversion_after_cache_miss mmap m b span recipe) base_delivered.
Proof using Type.
  intros Hg Hr Hs Hst. unfold materialize_conversion_after_cache_miss.
  eapply yields_then; [apply yields_read_source|]. intros v Hv. next.
  value Hres. injection Hres as <-. value Hfirst. unfold binding_source in Hfirst. rewrite Hs in Hfirst.
  injection Hfirst as <-. apply yields_ret. unfold base_delivered, conversion_ok. cbn.
  split_and!; [done..|]. by exists rest, dtype, span.
Qed.

Lemma zip_inputs ss vs :
  length ss = length vs ->
  map input_source (zip_with Build_OperationInputBytes ss vs) = ss /\
  map input_view (zip_with Build_OperationInputBytes ss vs) = vs.
Proof using Type. revert vs. induction ss as [|s ss IH]; intros [|v vs]; simpl; try done. intros [= H]. by destruct (IH vs H) as [-> ->]. Qed.

Lemma yields_operation_graph graph address :
  operation_graph target = Some graph ->
  yields (materialize_operation_graph_after_cache_miss sha256 to_vec from_slice rounds mmap avx2 m b graph address)
    base_delivered.
Proof using Type.
  intros Hg. unfold materialize_operation_graph_after_cache_miss.
  eapply yields_then; [apply yields_read_inputs|]. intros inputs Hi. next.
  destruct (operation_execution m) eqn:Ee.
  - eapply yields_then; [apply yields_computes|]. intros e He. value Hest. value Hpeak.
    apply reject_Ok, N.ltb_ge in Hpeak. cbv zeta. apply yields_finish. intros Hlen.
    unfold base_delivered, prepared_ok, origin_ok. cbn. split_and!; [done..|].
    exists graph, inputs, e. split_and!; try done. eauto.
  - value Hres. apply yields_ret. unfold base_delivered, operation_ok. cbn.
    destruct (zip_inputs sources inputs) as [-> ->]; [by eapply Forall2_length|]. by split_and!.
Qed.

Lemma yields_quantized q capability s rest :
  operation_graph target = None -> quantized_route target = Some capability ->
  sources = s :: rest -> source_storage s = Quantized q ->
  yields (materialize_quantized_after_cache_miss mmap m b q capability) base_delivered.
Proof using Type.
  intros Hg Hr Hs Hst. unfold materialize_quantized_after_cache_miss. value Hres.
  eapply yields_then; [apply yields_read_source|]. intros v Hv. eapply yields_then.
  { apply (yields_each _ (fun before st => views_show (fst st) /\
      (forall role x, snd st !! role = Some x -> exists c, (role, c) ∈ before /\ shows (companion_span c) x) /\
      (forall role c, (role, c) ∈ before -> is_Some (snd st !! role)))).
    - cbn [fst snd]. split_and!; [|by intros ?? ?%lookup_empty_Some|by intros ?? ?%elem_of_nil].
      by intros span x [<- <-]%lookup_singleton_Some.
    - intros before [role c] after [views found] _ (Hvs & Hf & Hd). cbn [fst snd] in *. next.
      eapply yields_then; [by apply yields_read_once|]. intros [views' x] [Hvs' Hx]. cbn [fst snd] in *.
      apply yields_ret. cbn [fst snd]. split_and!; [exact Hvs'| |].
      + intros role' y [[<- <-]|[_ H]]%lookup_insert_Some.
        * exists c. split; [|done]. apply elem_of_app. right. by apply list_elem_of_singleton.
        * destruct (Hf _ _ H) as (c' & ? & ?). exists c'. split; [|done]. apply elem_of_app. by left.
      + intros role' c' [H|[= -> ->]%list_elem_of_singleton]%elem_of_app.
        * destruct (decide (role' = role)) as [->|]; [rewrite lookup_insert_eq; eauto|].
          rewrite lookup_insert_ne by done. by eapply Hd.
        * rewrite lookup_insert_eq. eauto. }
  intros [views found] (_ & Hf & Hd). cbn [fst snd] in *. next. value Hfirst.
  unfold binding_source in Hfirst. rewrite Hs in Hfirst. injection Hfirst as <-.
  apply yields_ret. unfold base_delivered, quantized_ok. cbn. split_and!; [done..|by exists rest|done|done| | |done].
  - intros role x H. destruct (Hf _ _ H) as (c & Hc & ?). exists c. split; [|done]. by apply btree_list_elem.
  - intros role c H. apply (Hd role c). by apply btree_list_elem.
Qed.

(** *** Bindings *)

Lemma yields_base_binding context :
  yields (materialize_base_binding sha256 to_vec from_slice rounds write_json mmap avx2 m b context) base_delivered.
Proof using Type.
  unfold materialize_base_binding. destruct (operation_graph target) as [graph|] eqn:Eg.
  { apply yields_or_materialize. intros address. by apply yields_operation_graph. }
  value Hs. unfold binding_source in Hs. destruct sources as [|s rest] eqn:Es; [done|]. injection Hs as ->.
  match goal with H : sources = ?s0 :: _ |- _ => destruct (source_storage s0) as [dtype span|q] eqn:Est end.
  - destruct (conversion_recipe target) as [recipe|] eqn:Er; apply yields_or_materialize; intros address.
    + by eapply yields_conversion.
    + by eapply yields_plain.
  - unfold materialize_quantized. value Hq. apply yields_or_materialize. intros _.
    destruct (quantized_route target) eqn:Eq; [|done]. injection Hq as ->. by eapply yields_quantized.
Qed.

Theorem materialize_binding_yields context :
  yields (materialize_binding sha256 to_vec from_slice rounds write_json overlay_json mmap avx2 m b context) delivered.
Proof using Type.
  unfold materialize_binding. next. eapply yields_then; [apply yields_computes|]. intros [[i digest]|] Hfound.
  - eapply yields_then; [apply yields_computes|]. intros address Ha.
    eapply yields_then; [apply (yields_try_cached address (Some digest)); by intros ? ->|].
    intros [d|] Hd.
    + destruct (Hd d eq_refl) as (w & -> & Ho & Hw). apply yields_ret. exists (Some (i, digest)).
      split; [done|]. left. by exists w.
    + eapply yields_then; [apply yields_base_binding|]. intros base Hb. value Ho.
      destruct (overlay m) as [o|] eqn:Eo; [|done]. injection Ho as <-. apply yields_ret.
      exists (Some (i, digest)). split; [done|]. right. by exists base, o.
  - eapply yields_mono; [apply yields_base_binding|]. intros d Hd. by exists None.
Qed.
End Deliveries.
