(* ===== verification/MaterializeRun.v ===== *)
(** * How a materializer runs a plan

    The items of the pipeline are the bindings in their order. A callback ends
    with what its binding delivers, asks for no more than its item has reserved
    when there is no cache, and what it delivers then fits that reservation. *)

From S2P Require Import Prelude Errors Cancel Pipeline PipelineRun PipelineSpecs PipelineOrder PipelineProgress.
From S2P Require Import PipelineDelivery FileSystem Tensor.
From S2P Require Import Identity Order Limits Quantization Inventory Kernels Json Gguf Checkpoint.
From S2P Require Import CheckpointSpecs DigestSpecs.
From S2P Require Import Representation Operation Graph Liveness Prepare Exec Recipe Plan Overlay Planner Cache Work.
From S2P Require Import Materialize MaterializeSpecs.
From stdpp Require Import gmap.
Local Open Scope N_scope.

(** ** Scheduling *)

Section Scheduling.
Context (sha256 : bytes -> bytes) (write_json : MaterializePayload -> result bytes).
Context (overlay_json : OverlayPayload -> result bytes) (mmap : bool) (m : Materializer) (limits : ExecutionLimits).

(** The item of a binding has its index and its weights. *)
Definition item_of (entry : nat * Binding) (w : WorkItem Binding) : Prop :=
  Pipeline.ordinal w = N.of_nat (fst entry) /\ value w = snd entry /\
  computes (scheduled_weights sha256 write_json overlay_json mmap m limits (snd entry)) (resources w).

Lemma work_items_Ok env t work t' :
  work_items sha256 write_json overlay_json mmap m limits env t = Ok (work, t') ->
  Forall2 item_of (enumerate (plan_bindings (plan m))) work /\
  N.of_nat (length (plan_bindings (plan m))) <= max_work_items limits.
Proof using Type.
  intros H. unfold work_items in H. cbv zeta in H.
  apply run_bind_Ok in H as ([] & ? & [Hlen _]%run_lift_Ok & H).
  apply reject_Ok, N.ltb_ge in Hlen. split; [|done].
  apply run_bind_Ok in H as (? & ? & _ & H). apply run_bind_Ok in H as (? & ? & _ & H).
  apply run_bind_Ok in H as (w & ? & Hw & H). apply run_bind_Ok in H as (? & ? & _ & H). injection H as <- _.
  revert Hw. apply (run_for_each_inv (fun visited w => Forall2 item_of visited w)); [constructor|].
  intros visited [i b] rest s t1 s' t1' _ HI Hs. unfold add_work_item in Hs.
  apply run_bind_Ok in Hs as (? & ? & _ & Hs). apply run_bind_Ok in Hs as (scheduled & ? & Hr & Hs).
  injection Hs as <- _. apply Forall2_app; [done|]. constructor; [|constructor].
  split_and!; [done..|]. by do 3 eexists.
Qed.

Lemma items_ordinals entries work :
  Forall2 item_of entries work -> map Pipeline.ordinal work = map N.of_nat (map fst entries).
Proof using Type. induction 1 as [|e w es ws (H & _) _ IH]; simpl; [done|]. by rewrite H, IH. Qed.

Lemma enumerate_indices {A} (l : list A) : map fst (enumerate l) = seq 0 (length l).
Proof using Type. unfold enumerate. apply fst_zip. by rewrite length_seq. Qed.

Lemma seq_sorted n : forall k, StronglySorted N.le (map N.of_nat (seq k n)).
Proof using Type.
  induction n as [|n IH]; intros k; simpl; constructor; [apply IH|].
  apply Forall_map, Forall_forall. intros x Hx%elem_of_seq. lia.
Qed.

(** The items are in the order of their ordinals already. *)
Lemma items_in_order work :
  Forall2 item_of (enumerate (plan_bindings (plan m))) work ->
  map Pipeline.ordinal (merge_sort ordinal_le work) =
    map N.of_nat (seq 0 (length (plan_bindings (plan m)))).
Proof using Type.
  intros H. rewrite <-(enumerate_indices (plan_bindings (plan m))), <-(items_ordinals _ _ H).
  apply (StronglySorted_unique N.le).
  - apply sorted_ordinals.
  - rewrite (items_ordinals _ _ H), enumerate_indices. apply seq_sorted.
  - by rewrite (merge_sort_Permutation ordinal_le work).
Qed.
End Scheduling.

(** ** Callbacks *)

Section Execution.
Context (sha256 : bytes -> bytes) (to_vec : CacheEnvelope -> option bytes).
Context (from_slice : bytes -> option CacheEnvelope) (rounds : nat).
Context (write_json : MaterializePayload -> result bytes) (overlay_json : OverlayPayload -> result bytes).
Context (mmap avx2 : bool) (m : Materializer).

Local Notation delivers := (delivered sha256 write_json overlay_json avx2 m).

(** A callback ends with what the binding delivers. *)
Lemma binding_callback_delivers answer envs checkpoints n b p :
  checkpoint_ok (checkpoint m) -> same_checkpoint (checkpoint m) (checkpoints n) ->
  (forall B (q : Prog B) k, possible q (answer n B q k)) ->
  may_end (binding_callback sha256 to_vec from_slice rounds write_json overlay_json mmap avx2 answer envs
             checkpoints m n b) (inl p) ->
  exists d s, p = hand_over (h := HandsDelivery) d (resident_bytes d) s /\ delivers b d.
Proof using Type.
  intros Hc Hs Ha H. unfold binding_callback in H.
  pose proof (materialize_binding_yields sha256 to_vec from_slice rounds write_json overlay_json mmap avx2 m b true) as Hy.
  destruct (callback_sat (shows (checkpoint m)) (same_checkpoint (checkpoint m)) (fun mm c span env t v c' t' => read_span_shows (checkpoint m) mm c span env t v c' t') mmap (envs n) (answer n) _ _ (0%nat, (0%nat, checkpoints n))
    deliver (inl p) Ha Hy Hs H) as (r & s & Hr & _ & He).
  unfold deliver in He. simpl in He. destruct r as [d|e|]; [|done..]. injection He as ->.
  exists d, s. split; [done|]. by apply Hr.
Qed.

End Execution.

(** ** Completion *)

Section Completion.
Context (sha256 : bytes -> bytes) (to_vec : CacheEnvelope -> option bytes).
Context (from_slice : bytes -> option CacheEnvelope) (rounds : nat).
Context (write_json : MaterializePayload -> result bytes) (overlay_json : OverlayPayload -> result bytes).
Context (mmap avx2 : bool) (m : Materializer).

Section Asks.
Context (b : Binding) (w : ResourceWeights) (Hw : resource_weights mmap m b = Ok w) (Hcache : cache m = None).

Local Notation asks := (asks (handed := handed) w).

Lemma asks_read_source span : asks (read_source mmap m span).
Proof using Type. unfold read_source. auto with work. Qed.

Lemma asks_read_once views span : asks (read_once mmap m views span).
Proof using Type.
  unfold read_once. destruct (views !! span); [done|]. apply asks_then; [apply asks_read_source|done].
Qed.

Lemma asks_publish address bs : asks (publish_prepared sha256 to_vec from_slice rounds m address bs).
Proof using Type. clear Hcache. unfold publish_prepared. destruct (cache m), address; auto with work. Qed.

Local Hint Resolve asks_read_source asks_read_once asks_publish : work.

Lemma asks_or_materialize context miss :
  (forall address, asks (miss address)) ->
  asks (or_materialize sha256 from_slice rounds write_json mmap m b context miss).
Proof using Hw Hcache.
  intros H. unfold or_materialize, try_cached_prepared. rewrite Hcache. apply asks_then; [done|]. intros address.
  apply asks_then; [done|]. intros [d|]; [done|]. apply asks_lift. intros w' Hw'. rewrite Hw in Hw'. injection Hw' as <-.
  destruct context; [|apply H]. apply asks_within; [|apply H]. unfold within. lia.
Qed.

(** Both parts of a sequence, and every branch. *)
Local Ltac asks_all :=
  repeat first
    [ done | solve [auto with work]
    | apply asks_then; [|intros ?]
    | apply asks_each; intros ? ?
    | match goal with |- asks (match ?x with _ => _ end) => destruct x end ].

Lemma asks_base_binding context :
  asks (materialize_base_binding sha256 to_vec from_slice rounds write_json mmap avx2 m b context).
Proof using Hw Hcache.
  unfold materialize_base_binding. destruct (operation_graph (binding_target b)).
  { apply asks_or_materialize. intros address.
    unfold materialize_operation_graph_after_cache_miss, read_operation_inputs. asks_all. }
  apply asks_then; [done|]. intros s. destruct (source_storage s) as [dtype span|q].
  - destruct (conversion_recipe (binding_target b)); apply asks_or_materialize; intros address.
    + unfold materialize_conversion_after_cache_miss. asks_all.
    + unfold materialize_plain_after_cache_miss. asks_all.
  - unfold materialize_quantized. apply asks_then; [done|]. intros capability. apply asks_or_materialize. intros _.
    unfold materialize_quantized_after_cache_miss. asks_all.
Qed.

Lemma asks_binding context :
  asks (materialize_binding sha256 to_vec from_slice rounds write_json overlay_json mmap avx2 m b context).
Proof using Hw Hcache.
  unfold materialize_binding. apply asks_then; [done|]. intros _. apply asks_then; [done|]. intros [[i digest]|].
  - apply asks_then; [done|]. intros address. apply asks_then.
    + unfold try_cached_prepared. by rewrite Hcache.
    + intros [d|]; [done|]. apply asks_then; [apply asks_base_binding|]. intros base. asks_all.
  - apply asks_base_binding.
Qed.
End Asks.

(** The bytes to keep do not depend on what is mapped. *)
Lemma add_span_resident f g spans : forall seen r r' x a b,
  try_fold (add_span f) (seen, r, x) spans = Ok a -> try_fold (add_span g) (seen, r', x) spans = Ok b ->
  snd a = snd b.
Proof using Type.
  induction spans as [|span spans IH]; intros seen r r' x a b; simpl; [by intros [= <-] [= <-]|].
  intros (st & Hs & Ha)%bind_Ok (st' & Hs' & Hb)%bind_Ok. unfold add_span in Hs, Hs'.
  case_bool_decide; [injection Hs as <-; injection Hs' as <-; by eapply IH|].
  apply bind_Ok in Hs as (y & Hy & (mapped & _ & (r1 & _ & [= <-])%bind_Ok)%bind_Ok).
  apply bind_Ok in Hs' as (y' & Hy' & (mapped' & _ & (r1' & _ & [= <-])%bind_Ok)%bind_Ok).
  rewrite Hy in Hy'. injection Hy' as <-. by eapply IH.
Qed.

Lemma operation_resident f sources : forall seen r x a bytes,
  try_fold (fun totals source => span ← plain_span source; add_span f totals span) (seen, r, x) sources = Ok a ->
  try_fold (fun '(seen, bytes) source =>
    span ← plain_span source;
    if bool_decide (span ∈ seen) then mret (seen, bytes)
    else bytes ← ok_or (checked_add bytes (span_length span)) ResourceLimit; mret ({[span]} ∪ seen, bytes))
    (seen, x) sources = Ok bytes -> snd a = snd bytes.
Proof using Type.
  induction sources as [|source sources IH]; intros seen r x a bytes; simpl; [by intros [= <-] [= <-]|].
  intros (st & (span & Hspan & Hs)%bind_Ok & Ha)%bind_Ok (st' & (span' & Hspan' & Hs')%bind_Ok & Hb)%bind_Ok.
  rewrite Hspan in Hspan'. injection Hspan' as <-. unfold add_span in Hs.
  case_bool_decide; [injection Hs as <-; injection Hs' as <-; by eapply IH|].
  apply bind_Ok in Hs as (y & Hy & (mapped & _ & (r1 & _ & [= <-])%bind_Ok)%bind_Ok).
  apply bind_Ok in Hs' as (y' & Hy' & [= <-]). rewrite Hy in Hy'. injection Hy' as <-. by eapply IH.
Qed.

(** A delivery without a cache fits the bytes its binding reserves. *)
Lemma graph_delivery_fits b graph w d :
  operation_graph (binding_target b) = Some graph -> resource_weights mmap m b = Ok w -> cache m = None ->
  base_delivered sha256 write_json avx2 m b d -> resident_bytes d <= weight_prepared w.
Proof using Type.
  intros Eg Hw Hc Hd. unfold resource_weights in Hw. rewrite Eg in Hw.
  apply bind_Ok in Hw as ([read resident] & Ht & ([scratch prepared] & He & [= <-])%bind_Ok).
  destruct d as [pw|h|h|h|base o i digest r]; cbn [base_delivered resident_bytes weight_prepared ResourceWeights_new] in *;
    [|by destruct Hd as (_ & ? & _); congruence| |by destruct Hd as (_ & ? & _); congruence|done].
  - destruct Hd as (_ & _ & _ & -> & Ho). unfold origin_ok in Ho.
    destruct (weight_origin pw); [by destruct Ho as [? _]; congruence..| |by destruct Ho as [[? Ho] _]; congruence].
    destruct Ho as [Ho _]. rewrite Ho in He. by apply bind_Ok in He as (? & _ & [= <- <-]).
  - destruct Hd as (_ & _ & Ed & _ & _ & Hu). rewrite Ed in He. injection He as <- <-.
    unfold operation_source_bytes in Ht. apply bind_Ok in Ht as ([[? ?] ?] & Ht & [= <- <-]).
    unfold unique_plain_span_bytes in Hu. apply bind_Ok in Hu as ([? ?] & Hu & [= <-]).
    pose proof (operation_resident _ _ _ _ _ _ _ Ht Hu) as E. simpl in E. subst. done.
Qed.

Lemma source_delivery_fits b w d :
  operation_graph (binding_target b) = None -> resource_weights mmap m b = Ok w -> cache m = None ->
  base_delivered sha256 write_json avx2 m b d -> resident_bytes d <= weight_prepared w.
Proof using Type.
  intros Eg Hw Hc Hd. unfold resource_weights in Hw. rewrite Eg in Hw. unfold binding_source in Hw.
  destruct (binding_sources b) as [|s rest] eqn:Es; [done|]. cbn [head ok_or mbind result_bind] in Hw.
  destruct (source_storage s) as [dtype span|q] eqn:Est.
  - apply bind_Ok in Hw as ([read resident] & Ht & (scratch & _ & [= <-])%bind_Ok).
    apply bind_Ok in Ht as (mapped & _ & [= <- <-]). rewrite orb_false_r.
    destruct d as [pw|h|h|h|base o i digest r]; cbn [base_delivered resident_bytes weight_prepared ResourceWeights_new] in *; [| | | |done].
    + destruct Hd as (_ & _ & _ & -> & Ho). unfold origin_ok in Ho.
      destruct (weight_origin pw); [by destruct Ho as (_ & -> & _)..| |by destruct Ho as [[? ?] _]; congruence].
      destruct Ho as (_ & ? & ? & ? & ? & _). congruence.
    + destruct Hd as (_ & _ & -> & rest' & dtype' & span' & Hs' & Hst & Hv & ->). rewrite Es in Hs'. injection Hs' as -> ->. rewrite Est in Hst. injection Hst as -> ->.
      simpl. by eapply shows_len.
    + destruct Hd as (_ & ? & _). congruence.
    + destruct Hd as (_ & _ & _ & (? & ?) & ? & _). congruence.
  - apply bind_Ok in Hw as ([read resident] & Ht & (scratch & _ & [= <-])%bind_Ok). rewrite orb_true_r.
    destruct d as [pw|h|h|h|base o i digest r]; cbn [base_delivered resident_bytes weight_prepared ResourceWeights_new] in *; [| | | |done].
    + destruct Hd as (_ & _ & _ & -> & Ho). unfold origin_ok in Ho.
      destruct (weight_origin pw); [| | |by destruct Ho as [[? ?] _]; congruence].
      * destruct Ho as (_ & _ & _ & ? & ? & ? & ? & ? & ? & _). congruence.
      * destruct Ho as (_ & _ & ? & ? & ? & ? & ? & ? & ? & _). congruence.
      * destruct Ho as (_ & ? & ? & ? & ? & _). congruence.
    + destruct Hd as (_ & _ & _ & ? & ? & ? & ? & ? & _). congruence.
    + destruct Hd as (_ & ? & _). congruence.
    + destruct Hd as (_ & _ & _ & (? & Hs') & Hst & _ & _ & _ & Hl). rewrite Es in Hs'. injection Hs' as -> ->. rewrite Est in Hst. injection Hst as ->.
      unfold storage_byte_len, quantized_source_byte_totals in Hl, Ht.
      apply bind_Ok in Ht as ([[? ?] ?] & Ht & [= <- <-]).
      apply bind_Ok in Hl as ([? ?] & ([[? ?] ?] & Hl & [= <- <-])%bind_Ok & [= <-]).
      pose proof (add_span_resident _ _ _ _ _ _ _ _ _ Ht Hl) as E. simpl in E. by subst.
Qed.

Lemma delivery_fits b w d :
  resource_weights mmap m b = Ok w -> cache m = None ->
  delivered sha256 write_json overlay_json avx2 m b d -> resident_bytes d <= weight_prepared w.
Proof using Type.
  intros Hw Hc.
  assert (forall d, base_delivered sha256 write_json avx2 m b d -> resident_bytes d <= weight_prepared w) as Hb.
  { intros d'. destruct (operation_graph (binding_target b)) eqn:Eg; [by eapply graph_delivery_fits|by apply source_delivery_fits]. }
  intros ([[i digest]|] & _ & Hd); [|by apply Hb].
  destruct Hd as [(pw & -> & Ho & _ & _ & _ & _ & Hor)|(base & o & -> & _ & Hd)]; [|exact (Hb base Hd)].
  unfold origin_ok in Hor. rewrite Ho in Hor. destruct Hor as [[? ?] _]. congruence.
Qed.
(** *** The run of a plan *)

Context (answer : N -> forall B, Prog B -> nat -> result B) (envs : N -> Env) (checkpoints : N -> Checkpoint).

(** What the callback of a binding makes when it is granted what it asks for. *)
Definition binding_result (entry : nat * Binding) (p : PreparedItem (Handover (handed := handed))) : Prop :=
  let n := N.of_nat (fst entry) in
  exists d s,
    granted mmap (envs n) (answer n)
      (materialize_binding sha256 to_vec from_slice rounds write_json overlay_json mmap avx2 m (snd entry) true)
      (0%nat, (0%nat, checkpoints n)) = (Ok d, s) /\
    p = hand_over (h := HandsDelivery) d (resident_bytes d) s.

Local Notation callback :=
  (binding_callback sha256 to_vec from_slice rounds write_json overlay_json mmap avx2 answer envs checkpoints m).

Lemma scheduled_uncached limits b w :
  cache m = None -> computes (scheduled_weights sha256 write_json overlay_json mmap m limits b) w ->
  resource_weights mmap m b = Ok w.
Proof using Type.
  intros Hc (env & t & t' & H). unfold scheduled_weights in H. rewrite Hc in H.
  apply run_bind_Ok in H as (r & t1 & [Hr _]%run_lift_Ok & H). by injection H as <- _.
Qed.

Lemma binding_prepares limits entry i p :
  checkpoint_ok (checkpoint m) -> (forall n, same_checkpoint (checkpoint m) (checkpoints n)) ->
  (forall n B (q : Prog B) k, possible q (answer n B q k)) -> cache m = None ->
  item_of sha256 write_json overlay_json mmap m limits entry i -> binding_result entry p ->
  prepares callback i p.
Proof using Type.
  intros Hc Hs Ha Hcache (Hn & Hv & Hw) (d & s & Hd & ->). apply scheduled_uncached in Hw; [|done].
  pose proof (materialize_binding_yields sha256 to_vec from_slice rounds write_json overlay_json mmap avx2 m
    (snd entry) true) as Hy.
  pose proof (granted_sat (shows (checkpoint m)) (same_checkpoint (checkpoint m)) (read_span_shows (checkpoint m))
    mmap (envs (N.of_nat (fst entry))) (answer (N.of_nat (fst entry))) _ _
    (0%nat, (0%nat, checkpoints (N.of_nat (fst entry)))) (Ha _) Hy (Hs _)) as Hdel.
  rewrite Hd in Hdel. destruct Hdel as [Hdel _]. specialize (Hdel d eq_refl).
  unfold prepares, binding_callback. rewrite Hn, Hv. split_and!.
  - rewrite callback_granted, Hd. done.
  - apply callback_contained; [by apply asks_binding|done].
  - by eapply delivery_fits.
Qed.

Lemma bindings_prepare limits entries work results :
  checkpoint_ok (checkpoint m) -> (forall n, same_checkpoint (checkpoint m) (checkpoints n)) ->
  (forall n B (q : Prog B) k, possible q (answer n B q k)) -> cache m = None ->
  Forall2 (item_of sha256 write_json overlay_json mmap m limits) entries work ->
  Forall2 binding_result entries results -> Forall2 (prepares callback) work results.
Proof using Type.
  intros Hc Hs Ha Hcache Hitems. revert results.
  induction Hitems as [|e i es items Hi _ IH]; intros results Hr; inversion Hr; subst; constructor; [|by apply IH].
  by eapply binding_prepares.
Qed.

Lemma callback_result i b p : outcome_of (callback (N.of_nat i) b) = inl p -> binding_result (i, b) p.
Proof using Type.
  unfold binding_callback. rewrite callback_granted. unfold binding_result. cbn [fst snd].
  destruct (granted _ _ _ _ _) as [[d|e|] s]; [|done..]. intros [= <-]. by exists d, s.
Qed.

(** Items with distinct ordinals are determined by their order. *)
Lemma items_unique {T} (l1 l2 : list (WorkItem T)) :
  Permutation l1 l2 -> NoDup (map Pipeline.ordinal l2) ->
  map Pipeline.ordinal l1 = map Pipeline.ordinal l2 -> l1 = l2.
Proof using Type.
  intros Hp Hnd Ho. apply list_eq. intros i.
  assert (forall x y, l1 !! i = Some x -> l2 !! i = Some y -> x = y) as Hxy.
  { intros x y Hx Hy. assert (Pipeline.ordinal x = Pipeline.ordinal y) as Exy.
    { apply (f_equal (lookup i)) in Ho. rewrite !list_lookup_fmap, Hx, Hy in Ho. by injection Ho. }
    apply list_elem_of_lookup_2 in Hx. rewrite Hp in Hx. apply list_elem_of_lookup in Hx as [j Hj].
    assert (i = j) as ->; [|congruence].
    eapply (NoDup_lookup _ _ _ (Pipeline.ordinal y) Hnd); rewrite list_lookup_fmap; [by rewrite Hy|].
    by rewrite Hj, <-Exy. }
  destruct (l1 !! i) as [x|] eqn:Hx, (l2 !! i) as [y|] eqn:Hy; [by rewrite (Hxy x y)| | |done].
  - apply lookup_ge_None in Hy. apply lookup_lt_Some in Hx. apply Permutation_length in Hp. lia.
  - apply lookup_ge_None in Hx. apply lookup_lt_Some in Hy. apply Permutation_length in Hp. lia.
Qed.

End Completion.
