(* ===== verification/MaterializeInputs.v ===== *)
(** * Opening a materializer, and its addresses in the cache

    What the checks of a plan against a checkpoint accept, and what the address of
    a prepared binding says of the binding. *)

From S2P Require Import Prelude Errors Cancel Pipeline PipelineRun PipelineSpecs PipelineOrder PipelineProgress.
From S2P Require Import PipelineDelivery FileSystem Tensor.
From S2P Require Import Identity Order Limits Quantization Inventory Kernels Json Gguf Checkpoint.
From S2P Require Import CheckpointSpecs DigestSpecs.
From S2P Require Import Representation Operation Graph Liveness Prepare Exec Recipe Plan Overlay Planner Cache Work.
From S2P Require Import CacheSpecs CachePublish CacheCalm CacheSolo Materialize MaterializeSpecs.
From stdpp Require Import gmap.
From Stdlib Require Strings.String.
Local Open Scope N_scope.

(** ** Opening *)

Definition source_description (s : SourceTensor) : string * list N * Quantization.Storage :=
  (tensor_name (source_name s), source_shape s, source_storage s).
Definition record_description (r : TensorRecord) : string * list N * Quantization.Storage :=
  (record_name r, record_shape r, record_storage r).

(** The tensors of a checkpoint, and of a plan. *)
Definition listed (i : Inventory) (s : SourceTensor) : Prop :=
  source_description s ∈ map record_description (tensors i).
Definition planned (p : BindingPlan) (r : TensorRecord) : Prop :=
  record_description r ∈ map source_description (plan_sources p).

(** The plan is for exactly the tensors of the checkpoint, and binds them. *)
Definition inventory_agrees (i : Inventory) (p : BindingPlan) : Prop :=
  Permutation (map source_description (plan_sources p)) (map record_description (tensors i)) /\
  Forall (fun b => Forall (listed i) (binding_sources b)) (plan_bindings p).

Definition plan_names (p : BindingPlan) : list string := map (fun s => tensor_name (source_name s)) (plan_sources p).

Lemma reject_spec bad e : reject bad e <> Panic /\ (reject bad e = Ok tt <-> bad = false).
Proof. by destruct bad. Qed.

(** A tensor of the inventory is the one its name finds. *)
Lemma inventory_tensor_unique i r r' :
  inventory_ok i -> inventory_tensor i (record_name r') = Some r -> r' ∈ tensors i -> r' = r.
Proof.
  intros Hi Hr Hin. pose proof (proj2 (inventory_tensor_spec i _ r' Hi) (conj Hin eq_refl)). congruence.
Qed.

Lemma validate_inventory_source_spec i s :
  inventory_ok i ->
  validate_inventory_source i s <> Panic /\ (validate_inventory_source i s = Ok tt <-> listed i s).
Proof.
  intros Hi. unfold validate_inventory_source, listed. rewrite list_elem_of_fmap.
  destruct (inventory_tensor i (tensor_name (source_name s))) as [r|] eqn:E; cbn [ok_or mbind result_bind].
  - destruct (reject_spec (negb (bool_decide (record_shape r = source_shape s)) ||
      negb (bool_decide (record_storage r = source_storage s))) Integrity) as [Hp ->]. split; [exact Hp|].
    apply inventory_tensor_spec in E as E'; [|done]. destruct E' as [Hin Hn]. split.
    + intros H. bool_to_prop. exists r. split; [|done]. unfold source_description, record_description. congruence.
    + intros (r' & Hd & Hr'). injection Hd as Hn' Hs Ht. rewrite Hn' in E.
      rewrite (inventory_tensor_unique i r r' Hi E Hr') in Hs, Ht. by rewrite Hs, Ht, !bool_decide_eq_true_2.
  - split; [done|]. split; [done|]. intros (r & Hd & Hr). injection Hd as Hn _ _.
    pose proof (proj2 (inventory_tensor_spec i _ r Hi) (conj Hr eq_refl)) as H. congruence.
Qed.

Lemma validate_inventory_binding_spec i b :
  inventory_ok i ->
  validate_inventory_binding i b <> Panic /\
  (validate_inventory_binding i b = Ok tt <-> Forall (listed i) (binding_sources b)).
Proof.
  intros Hi. unfold validate_inventory_binding. induction (binding_sources b) as [|s ss [Hp IH]]; cbn [try_fold].
  { split; [done|]. by split; [constructor|]. }
  destruct (validate_inventory_source_spec i s Hi) as [Hps Hs]. rewrite Forall_cons, <-Hs, <-IH.
  destruct (validate_inventory_source i s) as [[]|e|]; cbn [mbind result_bind]; [|split; [done|]; naive_solver|done].
  split; [done|]. naive_solver.
Qed.

Lemma find_source p r :
  NoDup (plan_names p) ->
  match List.find (fun s => bool_decide (tensor_name (source_name s) = record_name r)) (plan_sources p) with
  | Some s => s ∈ plan_sources p /\ tensor_name (source_name s) = record_name r /\
      forall s', s' ∈ plan_sources p -> tensor_name (source_name s') = record_name r -> s' = s
  | None => forall s, s ∈ plan_sources p -> tensor_name (source_name s) <> record_name r
  end.
Proof.
  unfold plan_names. induction (plan_sources p) as [|s ss IH]; cbn [List.find map]; [by intros _ s ?%elem_of_nil|].
  intros [Hs Hnd]%NoDup_cons. specialize (IH Hnd). case_bool_decide as Hn.
  - split; [by left|]. split; [done|]. intros s' [->|Hs']%elem_of_cons Hn'; [done|]. destruct Hs. rewrite Hn, <-Hn'.
    apply list_elem_of_fmap. by exists s'.
  - destruct (List.find _ ss) as [s'|].
    + destruct IH as (Hin & Hn' & Hu). split; [by right|]. split; [done|]. intros x [->|Hx]%elem_of_cons ?; [done|by apply Hu].
    + intros x [->|Hx]%elem_of_cons; [done|by apply IH].
Qed.

Lemma validate_inventory_record_spec p r :
  NoDup (plan_names p) ->
  validate_inventory_record p r <> Panic /\ (validate_inventory_record p r = Ok tt <-> planned p r).
Proof.
  intros Hnd. pose proof (find_source p r Hnd) as Hf. unfold validate_inventory_record, planned.
  rewrite list_elem_of_fmap. destruct (List.find _ (plan_sources p)) as [s|]; cbn [ok_or mbind result_bind].
  - destruct Hf as (Hin & Hn & Hu).
    destruct (reject_spec (negb (bool_decide (source_shape s = record_shape r)) ||
      negb (bool_decide (source_storage s = record_storage r))) Integrity) as [Hp ->]. split; [exact Hp|]. split.
    + intros H. bool_to_prop. exists s. split; [|done]. unfold source_description, record_description. congruence.
    + intros (s' & Hd & Hs'). injection Hd as Hn' Hs Ht. rewrite (Hu s' Hs' ltac:(done)) in Hs, Ht.
      by rewrite Hs, Ht, !bool_decide_eq_true_2.
  - split; [done|]. split; [done|]. intros (s & Hd & Hs). injection Hd as Hn _ _. by destruct (Hf s Hs).
Qed.

(** A loop of checks that do not panic. *)
Lemma wp_check_each {A} (f : A -> result unit) (P : A -> Prop) (l : list A) :
  Forall (fun x => f x <> Panic /\ (f x = Ok tt <-> P x)) l -> forall u,
  wp (for_each l (fun x _ => _ ← check; lift (f x)) u) (fun r =>
    match r with Ok _ => Forall P l | Err _ => ~ Forall P l | Panic => False end).
Proof.
  induction 1 as [|x l [Hp Hx] _ IH]; intros u; cbn [for_each]; [by apply wp_ret|].
  apply wp_bind, wp_bind, wp_check, wp_lift. destruct (f x) as [[]|e|]; [| |done].
  - eapply wp_mono; [apply IH|]. intros [?|e|]; [|by intros Hno [_ ?]%Forall_cons|done].
    intros Hl. constructor; [by apply Hx|done].
  - intros [Hc _]%Forall_cons. by apply Hx in Hc.
Qed.

Lemma validate_complete_spec i p :
  inventory_ok i -> NoDup (plan_names p) ->
  wp (validate_complete_plan_inventory i p) (fun r =>
    let same := Permutation (map source_description (plan_sources p)) (map record_description (tensors i)) in
    match r with Ok _ => same | Err _ => ~ same | Panic => False end).
Proof.
  intros Hi Hnd. unfold validate_complete_plan_inventory. cbv zeta.
  apply wp_bind. eapply wp_mono.
  { apply (wp_check_each _ (listed i)). apply Forall_forall. intros s _. by apply validate_inventory_source_spec. }
  intros [_|e|]; [| |done].
  2: { intros Hno Hp. apply Hno, Forall_forall. intros s Hs. unfold listed. rewrite <-Hp.
       apply list_elem_of_fmap. by exists s. }
  intros Hl. apply wp_bind, wp_lift.
  destruct (Nat.eqb_spec (length (plan_sources p)) (length (tensors i))) as [He|He]; cbn [negb reject].
  2: { intros Hp%Permutation_length. by rewrite !length_map in Hp. }
  apply wp_bind. eapply wp_mono.
  { apply (wp_check_each _ (planned p)). apply Forall_forall. intros r _. by apply validate_inventory_record_spec. }
  intros [_|e|]; [| |done].
  2: { intros Hno Hp. apply Hno, Forall_forall. intros r Hr. unfold planned. rewrite Hp.
       apply list_elem_of_fmap. by exists r. }
  intros _. apply wp_check. apply submseteq_length_Permutation; [|by rewrite !length_map, He].
  apply NoDup_submseteq.
  - unfold plan_names in Hnd. apply (NoDup_fmap_1 (fun d => fst (fst d))). by rewrite <-list_fmap_compose.
  - intros d (s & -> & Hs)%list_elem_of_fmap. rewrite Forall_forall in Hl. by apply Hl.
Qed.

Definition digest_sizes (fs : list OpenFile) : N := foldr (fun f n => open_size f + n) 0 fs.

Lemma needs_hashing_spec f : wp (needs_hashing f) (fun r => exists b, r = Ok b).
Proof.
  unfold needs_hashing. destruct (digest_policy _); try (apply wp_bind, wp_check); apply wp_ret; eauto.
Qed.

Lemma pending_digest_spec c :
  wp (pending_digest_bytes c) (fun r =>
    match r with Ok _ => True | Err _ => u64_MAX < digest_sizes (open_files c) | Panic => False end).
Proof.
  unfold pending_digest_bytes.
  match goal with |- wp (for_each _ ?body _) _ =>
    cut (forall total, wp (for_each (open_files c) body total)
      (fun r => match r with Ok _ => True | Err _ => u64_MAX < total + digest_sizes (open_files c) | Panic => False end));
      [intros H; apply H|] end.
  induction (open_files c) as [|f fs IH]; intros total; cbn [for_each digest_sizes foldr]; [by apply wp_ret|].
  apply wp_bind, wp_bind. eapply wp_mono; [apply needs_hashing_spec|]. intros ? [[] ->].
  - apply wp_lift. unfold checked_add. destruct (N.leb_spec (total + open_size f) u64_MAX); cbn [ok_or]; [|lia].
    eapply wp_mono; [apply IH|]. intros []; try done. unfold digest_sizes. lia.
  - apply wp_ret. eapply wp_mono; [apply IH|]. intros []; try done. unfold digest_sizes. lia.
Qed.

Lemma content_digests_spec sha256 fs :
  Forall file_wf fs -> Forall metadata_quiet fs -> Forall (digest_cached sha256) fs ->
  wp (content_digests sha256 fs) (fun r =>
    match r with
    | Ok (ds, fs') => Forall3 (digested sha256) fs ds fs'
    | Err _ => ~ Forall (digestible sha256) fs
    | Panic => False
    end).
Proof.
  induction fs as [|f fs IH]; cbn [content_digests]; [intros _ _ _; apply wp_ret; constructor|].
  intros [Hw Hws]%Forall_cons [Hq Hqs]%Forall_cons [Hc Hcs]%Forall_cons.
  apply wp_bind. eapply wp_mono; [by apply content_digest_spec|]. intros [[d f']|e|]; [| |done].
  2: { intros Hno [[Hu [d Hd]] _]%Forall_cons. by apply (Hno Hu d). }
  intros Hd. apply wp_bind. eapply wp_mono; [by apply IH|]. intros [[ds fs']|e|]; [| |done].
  - intros Hds. apply wp_ret. by constructor.
  - by intros Hno [_ ?]%Forall_cons.
Qed.

(** A plan is for the checkpoint: its digests and its tensors. *)
Definition plan_matches (sha256 : bytes -> bytes) (c : Checkpoint) (p : BindingPlan) : Prop :=
  Forall2 (digest_matches sha256) (open_files c) (source_digests (plan_inputs p)) /\
  inventory_agrees (inventory c) p.

(** ** Cache addresses *)

Section Addresses.
Context (sha256 : bytes -> bytes) (write_json : MaterializePayload -> result bytes).

(** What the identity of a source says of the files it lies in. *)
Definition identity_ok (p : BindingPlan) (source : SourceTensor) (id : OrderedSourceIdentity) : Prop :=
  identity_source id = source /\
  (forall o d, (o, d) ∈ identity_digests id -> source_digests (plan_inputs p) !! N.to_nat o = Some d) /\
  (forall o, o ∈ storage_ordinals (source_storage source) -> exists d, (o, d) ∈ identity_digests id).

Lemma collect_ordinals_Ok s env t os t' :
  collect_file_ordinals s ∅ env t = Ok (os, t') -> forall o, o ∈ storage_ordinals s -> o ∈ os.
Proof using Type.
  unfold collect_file_ordinals. intros H. apply run_bind_Ok in H as (? & ? & _ & H). cbv zeta in H.
  apply run_bind_Ok in H as (os' & ? & Ho & H). apply run_bind_Ok in H as (? & ? & _ & H). injection H as <- _.
  destruct s as [dtype span|q]; cbn [storage_ordinals storage_span] in *.
  { injection Ho as <- _. intros o. set_solver. }
  intros o Hin. revert Ho. set (f := fun c : StableName * CompanionTensor => Tensor.ordinal (span_file (companion_span (snd c)))).
  change (map _ (btree_list (companions q))) with (map f (btree_list (companions q))) in Hin. intros Ho.
  enough (forall x, x ∈ Tensor.ordinal (span_file (Quantization.payload q)) :: map f (btree_list (companions q)) -> x ∈ os') by auto.
  revert Ho. apply (run_for_each_inv (fun visited os =>
    forall x, x ∈ Tensor.ordinal (span_file (Quantization.payload q)) :: map f visited -> x ∈ os)).
  - intros y. cbn [map]. set_solver.
  - intros visited [role c] rest os1 t1 os2 t2 _ HI Hb. apply run_bind_Ok in Hb as (? & ? & _ & Hb). injection Hb as <- _.
    intros y Hy. rewrite map_app in Hy. cbn [map f snd] in Hy. specialize (HI y). set_solver.
Qed.

Lemma source_identity_Ok p source ids env t ids' t' :
  source_identity p source ids env t = Ok (ids', t') ->
  exists id, ids' = ids ++ [id] /\ identity_ok p source id.
Proof using Type.
  unfold source_identity. intros H. apply run_bind_Ok in H as (? & ? & _ & H).
  apply run_bind_Ok in H as (os & ? & Ho & H). cbv zeta in H. apply run_bind_Ok in H as (? & ? & _ & H).
  apply run_bind_Ok in H as (ds & ? & Hd & H). injection H as <- _. eexists. split; [done|].
  pose proof (collect_ordinals_Ok _ _ _ _ _ Ho) as Hos.
  assert ((forall o d, (o, d) ∈ ds -> source_digests (plan_inputs p) !! N.to_nat o = Some d) /\
    forall o, o ∈ merge_sort N.le (elements os) -> exists d, (o, d) ∈ ds) as [H1 H2].
  { revert Hd. apply (run_for_each_inv (fun visited ds =>
      (forall o d, (o, d) ∈ ds -> source_digests (plan_inputs p) !! N.to_nat o = Some d) /\
      forall o, o ∈ visited -> exists d, (o, d) ∈ ds)).
    - split; [by intros o d ?%elem_of_nil|by intros o ?%elem_of_nil].
    - intros visited o rest ds1 t1 ds2 t2 _ [HI1 HI2] Hb. unfold ordinal_digest in Hb.
      apply run_bind_Ok in Hb as (? & ? & _ & Hb).
      apply run_bind_Ok in Hb as (i & ? & [[-> _]%usize_try_from_Ok _]%run_lift_Ok & Hb).
      apply run_bind_Ok in Hb as (d & ? & [Hd _]%run_lift_Ok & Hb). injection Hb as <- _.
      destruct (source_digests (plan_inputs p) !! N.to_nat o) as [d'|] eqn:E; [|done]. injection Hd as ->. split.
      + intros o' d'' [?|[= -> ->]%list_elem_of_singleton]%elem_of_app; [by apply HI1|done].
      + intros o' [Ho'|Ho'%list_elem_of_singleton]%elem_of_app.
        * destruct (HI2 o' Ho') as [d'' ?]. exists d''. apply elem_of_app. by left.
        * subst o'. exists d. apply elem_of_app. right. by apply list_elem_of_singleton. }
  split_and!; [done|exact H1|]. intros o Hin. apply H2. rewrite merge_sort_Permutation. by apply elem_of_elements, Hos.
Qed.

Lemma binding_source_content_Ok p b d :
  computes (binding_source_content sha256 write_json p b) d ->
  exists ids bs, Forall2 (identity_ok p) (binding_sources b) ids /\ write_json (SourcesPayload ids) = Ok bs /\
    d = digest_hash sha256 (domain "ordered-binding-sources-v2") [bs].
Proof using Type.
  intros (env & t & t' & H). unfold binding_source_content in H. apply run_bind_Ok in H as (? & ? & _ & H).
  apply run_bind_Ok in H as (? & ? & _ & H). apply run_bind_Ok in H as (? & ? & _ & H).
  apply run_bind_Ok in H as (ids & ? & Hids & H).
  apply run_bind_Ok in H as (bs & ? & [Hbs _]%run_lift_Ok & H). apply run_bind_Ok in H as (? & ? & _ & H). cbv zeta in H.
  apply run_bind_Ok in H as (? & ? & _ & H). injection H as <- _. exists ids, bs. split_and!; [| |done].
  - revert Hids. apply (run_for_each_inv (Forall2 (identity_ok p))); [constructor|].
    intros visited s rest ids1 t1 ids2 t2 _ HI (id & -> & Hid)%source_identity_Ok.
    apply Forall2_app; [done|]. by constructor.
  - unfold to_json in Hbs. by destruct (write_json _).
Qed.

(** The parts of an address. *)
Lemma cache_address_Ok p b o a :
  computes (cache_address_for_binding sha256 write_json p b o) (Some a) ->
  exists target_json content, write_json (TargetPayload (binding_target b)) = Ok target_json /\
    computes (binding_source_content sha256 write_json p b) content /\
    address_compatibility a = CacheCompatibility_prepared PREPARED_CACHE_FORMAT_VERSION
      (digest_hash sha256 (domain "prepared-binding-contract-v2") [contract_bytes target_json o])
      (backend_digest (plan_backend (plan_inputs p))) /\
    address_key a = CacheKey_derive sha256 PreparedEntries (address_compatibility a)
      [digest_bytes content; String.list_byte_of_string (tensor_name (target_name (binding_target b)))].
Proof using Type.
  intros (env & t & t' & H). unfold cache_address_for_binding in H. apply run_bind_Ok in H as (? & ? & _ & H).
  apply run_bind_Ok in H as (final & ? & _ & H). destruct final; cbn [negb] in H.
  2: { by apply run_bind_Ok in H as (? & ? & _ & H). }
  apply run_bind_Ok in H as (target_json & ? & [Hj _]%run_lift_Ok & H). apply run_bind_Ok in H as (? & ? & _ & H).
  cbv zeta in H. apply run_bind_Ok in H as (? & ? & _ & H). apply run_bind_Ok in H as (content & ? & Hc & H).
  apply run_bind_Ok in H as (? & ? & _ & H). injection H as <- _.
  exists target_json, content. split_and!; [|by do 3 eexists|done|done].
  unfold to_json in Hj. by destruct (write_json _).
Qed.
(** Texts of JSON: two values have two texts, without control characters. *)
Record json_texts : Prop := {
  texts_inj v v' bs : write_json v = Ok bs -> write_json v' = Ok bs -> v = v';
  texts_printed v bs : write_json v = Ok bs -> Byte.x01 ∉ bs;
  texts_fit v bs : write_json v = Ok bs -> N.of_nat (length bs) + 33 < 2 ^ 128
}.

Definition digest_wf (d : ContentDigest) : Prop := length (digest_bytes d) = 32%nat.

Lemma contract_bytes_inj t t' o o' :
  Byte.x01 ∉ t -> Byte.x01 ∉ t' -> (forall d, o = Some d -> digest_wf d) -> (forall d, o' = Some d -> digest_wf d) ->
  contract_bytes t o = contract_bytes t' o' -> t = t' /\ o = o'.
Proof using Type.
  intros Ht Ht' Ho Ho' H. unfold contract_bytes in H.
  assert (forall u v (d : ContentDigest), Byte.x01 ∉ u -> u ++ [Byte.x00] <> v ++ [Byte.x01] ++ digest_bytes d) as Hno.
  { intros u v d Hu E. apply (f_equal (elem_of Byte.x01)) in E. assert (Byte.x01 ∈ u ++ [Byte.x00]) as Hin.
    { rewrite E. apply elem_of_app. right. left. }
    apply elem_of_app in Hin as [Hin|Hin%list_elem_of_singleton]; done. }
  destruct o as [d|], o' as [d'|].
  - specialize (Ho d eq_refl). specialize (Ho' d' eq_refl). unfold digest_wf in Ho, Ho'.
    apply app_inj_2 in H as [-> H]; [|simpl; lia]. injection H as H. split; [done|]. f_equal.
    destruct d, d'; simpl in *; by subst.
  - by destruct (Hno t' t d Ht').
  - by destruct (Hno t t' d' Ht).
  - by apply app_inj_2 in H as [-> _].
Qed.

Lemma contract_fits v t o :
  json_texts -> write_json v = Ok t -> (forall d, o = Some d -> digest_wf d) -> fits_u128 (contract_bytes t o).
Proof using Type.
  intros Hj Ht Ho. pose proof (texts_fit Hj v t Ht). unfold fits_u128, contract_bytes. rewrite length_app.
  destruct o as [d|]; cbn [length app]; [rewrite (Ho d eq_refl)|]; lia.
Qed.

(** The files of a source have the same digests for two plans. *)
Definition same_content (p p' : BindingPlan) (source : SourceTensor) : Prop :=
  forall o, o ∈ storage_ordinals (source_storage source) ->
    exists d, source_digests (plan_inputs p) !! N.to_nat o = Some d /\ source_digests (plan_inputs p') !! N.to_nat o = Some d.

Lemma identities_same p p' ss ss' ids :
  Forall2 (identity_ok p) ss ids -> Forall2 (identity_ok p') ss' ids -> ss = ss' /\ Forall (same_content p p') ss.
Proof using Type.
  intros H. revert ss'. induction H as [|s id ss ids Hid _ IH]; intros ss' H'; inversion H' as [|s' ? ? ? Hid' Hids']; subst.
  { by split. }
  destruct (IH _ Hids') as [-> Hc]. destruct Hid as (<- & Hd & Hall), Hid' as (<- & Hd' & Hall'). split; [done|].
  constructor; [|done]. intros o Ho. destruct (Hall o Ho) as [d Hin]. exists d. split; [by apply Hd|by apply Hd'].
Qed.

Lemma source_content_identifies p b p' b' d :
  json_texts -> computes (binding_source_content sha256 write_json p b) d ->
  computes (binding_source_content sha256 write_json p' b') d ->
  (binding_sources b = binding_sources b' /\ Forall (same_content p p') (binding_sources b)) \/
  exists x y, x <> y /\ sha256 x = sha256 y.
Proof using Type.
  intros Hj (ids & bs & Hids & Hbs & ->)%binding_source_content_Ok (ids' & bs' & Hids' & Hbs' & Hd)%binding_source_content_Ok.
  assert (fits_u128 bs /\ fits_u128 bs') as [Hf Hf'].
  { pose proof (texts_fit Hj _ _ Hbs). pose proof (texts_fit Hj _ _ Hbs'). unfold fits_u128. lia. }
  apply digest_hash_inj in Hd as [[_ [= <-]]|Hd]; [|by right|done|done|by repeat constructor..].
  left. pose proof (texts_inj Hj _ _ _ Hbs Hbs') as [= <-]. by eapply identities_same.
Qed.

End Addresses.

(** ** Entries that nobody disturbs *)

Section Reading.
Context (sha256 : bytes -> bytes) (from_slice : bytes -> option CacheEnvelope) (pid : N).

Lemma returns_pure {A} (r : result A) a w : r = Ok a -> returns pid (FileSystem.pure r) (fun x w' => w' = w /\ x = a) w.
Proof using Type. by intros ->. Qed.

(** The loop ends with all bytes of the file. *)
Lemma returns_read_entry_loop fuel h i bs block contents w :
  handle_inode h = Some i -> inode_bytes w i = contents -> (contents <> [] -> 1 <= block) ->
  bs = take (N.to_nat (position h)) contents -> position h <= N.of_nat (length contents) ->
  (length contents - N.to_nat (position h) <= fuel)%nat ->
  returns pid (read_entry_loop fuel h (N.of_nat (length contents)) block bs)
    (fun r w' => w' = w /\ fst r = contents /\ handle_inode (snd r) = Some i) w.
Proof using Type.
  intros Hi Hw Hblock. revert h bs Hi. induction fuel as [|fuel IH]; intros h bs Hi Hbs Hp Hfuel; cbn [read_entry_loop].
  all: assert (blen bs = position h) as Hlen by (unfold blen; rewrite Hbs, length_take; lia).
  - rewrite (proj2 (N.leb_le _ _)) by lia. apply returns_ret. split_and!; [done| |done]. cbn [fst]. rewrite Hbs. apply take_ge. lia.
  - destruct (N.leb_spec (N.of_nat (length contents)) (blen bs)) as [Hle|Hlt].
    { apply returns_ret. split_and!; [done| |done]. cbn [fst]. rewrite Hbs. apply take_ge. lia. }
    eapply returns_bind; [apply returns_check_cancelled|]. intros _ ? ->.
    apply (returns_bind _ _ _ (fun chunk w' => w' = w /\ exists n, (1 <= n)%nat /\
      chunk = take n (drop (N.to_nat (position h)) contents))).
    { assert (1 <= block) by (apply Hblock; intros ->; simpl in *; lia).
      apply returns_call_ok. eapply returns_mono; [apply (returns_read pid h i); [done|lia]|].
      intros r w' (-> & n & Hn & ->). rewrite Hw. eauto 8. }
    intros chunk ? (-> & n & Hn & ->).
    assert (1 <= length (take n (drop (N.to_nat (position h)) contents)))%nat as Hpos
      by (rewrite length_take, length_drop; lia).
    rewrite (proj2 (N.eqb_neq _ _)) by (unfold blen; lia). unfold blen.
    apply IH; cbn [advance handle_inode position]; [done|..]; rewrite ?N2Nat.inj_add, ?Nat2N.id.
    + rewrite Hbs. by apply take_drop_take.
    + rewrite length_take, length_drop. lia.
    + rewrite length_take, length_drop in *. lia.
Qed.

(** Reading a complete entry returns its bytes, under both policies. *)
Lemma returns_read_cache_entry w entry n k c bs im ip e v :
  entry_complete sha256 from_slice w entry n k c bs im ip e -> N.of_nat (length bs) <= usize_MAX ->
  returns pid (read_cache_entry sha256 (entry_of entry e ip) v) (fun r w' => w' = w /\ r = bs) w.
Proof using Type.
  intros H Hlen. unfold read_cache_entry. cbn [entry_of info Cache.payload info_from_envelope payload_len payload_digest].
  eapply returns_bind; [apply returns_check_cancelled|]. intros _ ? ->. cbv zeta.
  rewrite (complete_length _ _ _ _ _ _ _ _ _ _ _ H).
  eapply returns_bind; [apply returns_pure; by apply usize_try_from_Ok|]. intros ? ? [-> ->].
  eapply returns_bind; [apply returns_try_reserve|]. intros _ ? ->.
  eapply returns_bind; [apply returns_try_reserve|]. intros _ ? ->.
  eapply returns_bind.
  { apply (returns_read_entry_loop _ _ ip); [done|apply H| |done|simpl; lia|simpl; lia].
    intros Hne. destruct bs; [done|]. simpl. unfold CACHE_READ_BLOCK_BYTES. lia. }
  intros [contents h] ? (-> & Hc & Hh). cbn [fst snd] in Hc, Hh. subst contents.
  eapply returns_bind; [apply returns_check_cancelled|]. intros _ ? ->.
  eapply returns_bind; [apply returns_ok; by apply (returns_file_len _ _ ip)|]. intros ? ? [-> ->].
  rewrite (complete_bytes _ _ _ _ _ _ _ _ _ _ _ H), N.eqb_refl. cbn [negb].
  rewrite (complete_digest _ _ _ _ _ _ _ _ _ _ _ H), (bool_decide_eq_true_2 (from_bytes _ = _)) by done.
  rewrite andb_false_r. by apply returns_ret.
Qed.
End Reading.

(** *** Plans *)

Section Plans.
Context (sha256 : bytes -> bytes) (to_vec : CacheEnvelope -> option bytes).
Context (from_slice : bytes -> option CacheEnvelope) (rounds : nat).
Context (reserves : TargetTensor -> bool) (plan_json : Planner.PlanPayload -> result bytes).
Context (parse_plan : bytes -> option BindingPlan) (pid : N).

Local Notation address p := (PlanCacheAddress_new sha256 (plan_id p)).

(** A plan whose text reads back as itself is found where it was published. *)
Lemma returns_lookup_binding_plan w cache p bs v im ip e :
  entry_complete sha256 from_slice w (entry_path cache PlanEntries (plan_address_key (address p))) PlanEntries
    (plan_address_key (address p)) (plan_address_compatibility (address p)) bs im ip e ->
  (length bs < rounds)%nat -> blen bs <= MAX_CACHED_PLAN_BYTES ->
  Planner.from_canonical_json reserves sha256 plan_json parse_plan bs = Ok p ->
  returns pid (lookup_binding_plan sha256 from_slice rounds reserves plan_json parse_plan cache (plan_id p) v)
    (fun r w' => w' = w /\ r = PlanHit p) w.
Proof using Type.
  intros H Hrounds Hsize Hjson. unfold lookup_binding_plan. cbv zeta.
  eapply returns_bind; [by eapply returns_lookup|]. intros ? ? [-> ->].
  assert (payload_len (info (entry_of (entry_path cache PlanEntries (plan_address_key (address p))) e ip)) = blen bs)
    as Hl by (apply H).
  rewrite Hl, (proj2 (N.ltb_ge _ _)) by done.
  eapply returns_bind; [eapply returns_read_cache_entry; [exact H|unfold MAX_CACHED_PLAN_BYTES, blen in *; unfold usize_MAX, u64_MAX; lia]|].
  intros ? ? [-> ->]. eapply returns_bind; [by apply returns_pure|]. intros ? ? [-> ->].
  rewrite bool_decide_eq_true_2 by done. by apply returns_ret.
Qed.
End Plans.

(** *** Prepared bytes *)

Section Delivering.
Context (mmap : bool) (env : Env) (pid : N) (Hquiet : quiet env).

(** The direct run of a work ends with a value. *)
Definition delivers {A} (work : Materialization A) (s : Store) (P : A -> Store -> World -> Prop) (w : World) : Prop :=
  ends pid (interp mmap env work s) (fun r w' => exists a s', r = Ok (Ok a, s') /\ P a s' w') w.

Lemma ends_and_then_inv {A B} (p : Prog A) (f : result A -> Prog B) Q w :
  ends pid (and_then p f) Q w -> ends pid p (fun r w' => ends pid (f r) Q w') w.
Proof using Type.
  revert w. induction p as [r| |a k IH]; intros w H; [done|done|]. intros o Ho. by apply IH, H.
Qed.

Lemma ends_interp_then {A B} (work : Materialization A) (f : result A -> Materialization B) s Q w :
  ends pid (interp mmap env work s) (fun r w' => exists r0 s', r = Ok (r0, s') /\ ends pid (interp mmap env (f r0) s') Q w') w ->
  ends pid (interp mmap env (work_then work f) s) Q w.
Proof using Type.
  revert s w. induction work as [A r|A C m k IH|A C p k IH|A span k IH|A required h op _ k IH]; intros s w;
    cbn [interp work_then].
  - intros (r0 & s' & [= <- <-] & H). exact H.
  - destruct (resume_compute_eq env m s) as (t & s' & Hr). rewrite !Hr. apply IH.
  - intros H%ends_and_then_inv. apply ends_and_then. eapply ends_mono; [exact H|]. intros r w'. apply IH.
  - destruct (resume_read_eq mmap env span s) as (r & s' & Hr). rewrite !Hr. apply IH.
  - intros H%ends_and_then_inv. apply ends_and_then. eapply ends_mono; [exact H|]. intros [u|e|] w'; [|apply IH..].
    intros H'%ends_and_then_inv. apply ends_and_then. eapply ends_mono; [exact H'|].
    intros [[r s1]|e|] w1; [apply IH|by intros (? & ? & ? & _)..].
Qed.

Lemma delivers_then {A B} (work : Materialization A) (f : A -> Materialization B) s P Q w :
  delivers work s P w -> (forall a s' w', P a s' w' -> delivers (f a) s' Q w') -> delivers (work ≫= f) s Q w.
Proof using Type.
  intros H Hf. apply ends_interp_then. eapply ends_mono; [exact H|]. intros r w' (a & s' & -> & HP).
  exists (Ok a), s'. split; [done|]. by apply Hf.
Qed.

Lemma delivers_ret {A} (a : A) s (P : A -> Store -> World -> Prop) w : P a s w -> delivers (mret a) s P w.
Proof using Type. intros H. by exists a, s. Qed.

Lemma delivers_compute {A} (m : M A) s (Q : A -> Prop) w :
  succeeds m Q -> delivers (compute m) s (fun a s' w' => w' = w /\ Q a) w.
Proof using Hquiet.
  intros H. destruct (succeeds_quiet m Q env (fst s) H Hquiet) as (a & t & Hm & HQ).
  unfold delivers, compute. cbn [interp]. unfold resume_compute, resume. rewrite Hm. by exists a, (t, snd s).
Qed.

Lemma delivers_value {A} (r : result A) a s w :
  r = Ok a -> delivers (compute (lift r)) s (fun x s' w' => w' = w /\ x = a) w.
Proof using Hquiet. intros H. apply delivers_compute. by apply succeeds_lift with a. Qed.

Lemma delivers_shared {A} (p : Prog A) s (P : A -> World -> Prop) w :
  returns pid p P w -> delivers (shared p) s (fun a _ w' => P a w') w.
Proof using Type.
  intros H. apply ends_and_then. eapply ends_mono; [exact H|]. intros [a|e|] w' HP; [|done..]. by exists a, s.
Qed.

Context (sha256 : bytes -> bytes) (to_vec : CacheEnvelope -> option bytes).
Context (from_slice : bytes -> option CacheEnvelope) (rounds : nat).
Context (write_json : MaterializePayload -> result bytes) (overlay_json : OverlayPayload -> result bytes).
Context (avx2 : bool) (m : Materializer) (b : Binding) (c : CacheInner) (a : PreparedCacheAddress).
Context (Hcache : cache m = Some c) (Hoverlay : overlay m = None).
(** The binding has the address [a]. *)
Context (Haddress : succeeds (cache_address_for_binding sha256 write_json (plan m) b None) (fun r => r = Some a)).

(** The delivery of bytes that were kept. *)
Definition kept (bs : bytes) (d : WeightDelivery) : Prop :=
  exists w, d = Prepared w /\ weight_origin w = FromCache /\ weight_target w = binding_target b /\
    as_slice (weight_bytes w) = bs.

Section Warm.
Context (w : World) (bs : bytes) (im ip : nat) (e : CacheEnvelope).
Context (Hentry : entry_complete sha256 from_slice w (entry_path c PreparedEntries (address_key a)) PreparedEntries
  (address_key a) (address_compatibility a) bs im ip e).
Context (Hrounds : (length bs < rounds)%nat) (Hsize : blen bs = target_output_size (binding_target b)).
Context (Hlen : blen bs <= usize_MAX).

Local Ltac step := eapply delivers_then; [apply delivers_compute|].

Lemma delivers_try_cached s :
  delivers (try_cached_prepared sha256 from_slice rounds m b (Some a) false) s
    (fun found _ w' => w' = w /\ exists d, found = Some d /\ kept bs d) w.
Proof using All.
  unfold try_cached_prepared. rewrite Hcache.
  eapply delivers_then; [eapply delivers_shared, returns_lookup; [exact Hentry|done]|].
  intros ? s1 ? [-> ->]. cbv zeta.
  assert (payload_len (info (entry_of (entry_path c PreparedEntries (address_key a)) e ip)) = blen bs) as Hl by (apply Hentry).
  rewrite Hl, Hsize, N.eqb_refl. cbn [negb]. apply ends_interp_then. eapply ends_mono.
  { unfold with_resources, read_boxed.
    apply (delivers_then _ _ _ (fun x _ w' => w' = w /\ x = bs)).
    - eapply delivers_shared, returns_read_cache_entry; [exact Hentry|exact Hlen].
    - intros ? s2 ? [-> ->].
      eapply delivers_then; [apply (delivers_compute new_address _ (fun _ => True)), wp_new_address; eauto|].
      intros address s3 ? [-> _].
      apply (delivers_ret _ _ (fun v _ w' => w' = w /\ as_slice v = bs)). split; [done|]. apply view_from_boxed_slice. }
  intros r w' (v & s2 & -> & -> & Hv). exists (Ok v), s2. split; [done|]. cbv beta iota.
  eapply delivers_then; [by apply delivers_value|]. intros d s3 ? [-> ->].
  apply delivers_ret. split; [done|]. eexists. split; [done|]. by eexists.
Qed.

Lemma delivers_or_materialize miss s :
  delivers (or_materialize sha256 from_slice rounds write_json mmap m b false miss) s
    (fun d _ w' => w' = w /\ kept bs d) w.
Proof using All.
  unfold or_materialize. step; [exact Haddress|]. intros ? s1 ? [-> ->].
  eapply delivers_then; [apply delivers_try_cached|]. intros ? s2 ? (-> & d & -> & Hd). by apply delivers_ret.
Qed.

(** A binding with an address has a source and, when it is packed, a route. *)
Lemma address_output : has_final_host_output b None = Ok true.
Proof using Haddress Hquiet.
  destruct (succeeds_quiet _ _ env 0%nat Haddress Hquiet) as (? & t & H & ->).
  unfold cache_address_for_binding in H. apply run_bind_Ok in H as (? & ? & _ & H).
  apply run_bind_Ok in H as (final & ? & [Hf _]%run_lift_Ok & H). destruct final; [done|].
  cbn [negb] in H. by apply run_bind_Ok in H as (? & ? & _ & H).
Qed.

Lemma delivers_materialize_binding s :
  delivers (materialize_binding sha256 to_vec from_slice rounds write_json overlay_json mmap avx2 m b false) s
    (fun d _ w' => w' = w /\ kept bs d) w.
Proof using All.
  pose proof address_output as Hout. unfold has_final_host_output in Hout.
  unfold materialize_binding. step; [by apply (succeeds_check (fun _ => True))|]. intros _ s1 ? [-> _].
  apply (delivers_then _ _ _ (fun r _ w' => w' = w /\ r = None)).
  { apply delivers_compute. unfold overlay_for_binding. rewrite Hoverlay. by apply succeeds_check_bind, succeeds_ret. }
  intros ? s2 ? [-> ->]. unfold materialize_base_binding.
  destruct (operation_graph (binding_target b)); [apply delivers_or_materialize|].
  apply bind_Ok in Hout as (src & Hsrc & Hout). eapply delivers_then; [by apply delivers_value|]. intros ? s3 ? [-> ->].
  destruct (source_storage src).
  - destruct (conversion_recipe (binding_target b)); apply delivers_or_materialize.
  - unfold materialize_quantized. destruct (quantized_route (binding_target b)) as [capability|]; [|done].
    eapply delivers_then; [by apply delivers_value|]. intros ? s4 ? [-> ->]. apply delivers_or_materialize.
Qed.
End Warm.

(** *** By name *)

Context (name : TensorName) (Hbinding : binding m name = Ok b).

Lemma prepared_address_succeeds :
  succeeds (prepared_cache_address sha256 write_json overlay_json m name) (fun r => r = Some a).
Proof using Haddress Hbinding Hoverlay.
  unfold prepared_cache_address. apply succeeds_check_bind. eapply succeeds_lift_bind; [exact Hbinding|].
  apply (succeeds_then _ _ (fun r => r = None)).
  { unfold overlay_for_binding. rewrite Hoverlay. by apply succeeds_check_bind, succeeds_ret. }
  intros ? ->. eapply succeeds_then; [exact Haddress|]. intros ? ->. by apply succeeds_check_bind, succeeds_ret.
Qed.

Lemma delivers_materialize w bs im ip e s :
  entry_complete sha256 from_slice w (entry_path c PreparedEntries (address_key a)) PreparedEntries
    (address_key a) (address_compatibility a) bs im ip e ->
  (length bs < rounds)%nat -> blen bs = target_output_size (binding_target b) -> blen bs <= usize_MAX ->
  delivers (materialize sha256 to_vec from_slice rounds write_json overlay_json mmap avx2 m name) s
    (fun d _ w' => w' = w /\ kept bs d) w.
Proof using Hquiet Hcache Hoverlay Haddress Hbinding.
  intros. unfold materialize. eapply delivers_then; [by apply delivers_value|]. intros ? s1 ? [-> ->].
  by eapply delivers_materialize_binding.
Qed.

Lemma delivers_publish w d budget bs s :
  d <> [] -> entry_path c PreparedEntries (address_key a) = d ++ [CacheKey_display (address_key a)] ->
  envelope_codec to_vec from_slice -> free_place d (address_key a) w budget ->
  budget + 1 <= maximum_scan_entries (options c) -> (length bs < rounds)%nat -> blen bs <= u64_MAX ->
  blen bs = target_output_size (binding_target b) ->
  encodable sha256 to_vec (address_key a) PreparedEntries (address_compatibility a) bs ->
  delivers (publish_prepared_bytes sha256 to_vec from_slice rounds write_json overlay_json m name bs) s
    (fun r _ w' => exists im ip e, r = Published (entry_of (d ++ [CacheKey_display (address_key a)]) e ip) /\
       entry_complete sha256 from_slice w' (d ++ [CacheKey_display (address_key a)]) PreparedEntries (address_key a)
         (address_compatibility a) bs im ip e) w.
Proof using Hquiet Hcache Hoverlay Haddress Hbinding.
  intros Hd Hpath Hcodec Hfree Hbudget Hrounds Hlen Hsize Henc. unfold publish_prepared_bytes.
  eapply delivers_then; [by apply delivers_compute, (succeeds_check (fun _ => True))|]. intros _ s1 ? [-> _].
  eapply delivers_then; [by apply delivers_value|]. intros ? s2 ? [-> ->].
  eapply delivers_then; [apply (delivers_value _ tt); by rewrite Hsize, N.eqb_refl|]. intros _ s3 ? [-> _].
  eapply delivers_then; [apply (delivers_value _ c); by rewrite Hcache|]. intros ? s4 ? [-> ->].
  eapply delivers_then; [apply delivers_compute, prepared_address_succeeds|]. intros ? s5 ? [-> ->].
  eapply delivers_then; [by apply delivers_value|]. intros ? s6 ? [-> ->].
  eapply delivers_shared, returns_publish; eauto.
Qed.
End Delivering.
