(* ===== verification/BaseTheorems.v ===== *)
(** * Properties of the value types

    Digests, identifiers, limits, spans, views and byte lengths. *)

From S2P Require Import Prelude Errors Tensor Identity Limits Representation.
Local Open Scope N_scope.

(** Inputs of the witnesses. *)
Definition example_digest : ContentDigest := from_bytes (replicate 32 Byte.xab).
Definition example_view : ByteView :=
  view_from_boxed 4096 [Byte.x01; Byte.x02; Byte.x03; Byte.x04].

(** two calls of the domain-separated hash give the same digest only for the
    same domain and the same ordered parts, unless the hash function itself maps
    two different byte strings to one value. *)
Theorem digest_hash_collision sha256 d e ps qs :
  fits_u128 d -> fits_u128 e -> Forall fits_u128 ps -> Forall fits_u128 qs ->
  digest_hash sha256 d ps = digest_hash sha256 e qs ->
  (d = e /\ ps = qs) \/ exists a b, a <> b /\ sha256 a = sha256 b.
Proof. apply digest_hash_inj. Qed.

Lemma digest_hash_collision_witness :
  ([Byte.x61] = [Byte.x61] /\ [[Byte.x62]] = [[Byte.x62]]) \/
  exists a b : bytes, a <> b /\ (fun bs : bytes => bs) a = (fun bs : bytes => bs) b.
Proof.
  apply (digest_hash_collision (fun bs => bs)); try (repeat constructor; done).
Defined.

(** The lower-case hexadecimal text of a 32-byte digest parses back to it,
    and any text that parses, upper case included, gives a 32-byte digest whose
    own text parses to the same digest. *)
Theorem digest_text_roundtrip :
  (forall d, length (digest_bytes d) = 32%nat -> digest_from_str (digest_display d) = Ok d) /\
  (forall value d, digest_from_str value = Ok d ->
     length (digest_bytes d) = 32%nat /\ digest_from_str (digest_display d) = Ok d).
Proof. split; [apply digest_display_from_str|apply digest_from_str_canonical]. Qed.

(** a stable name is accepted exactly when it has 1 to 128 bytes, all of them
    ASCII letters, digits or one of [. _ - / :], and the name keeps its text. *)
Theorem StableName_grammar value n :
  StableName_parse value = Ok n <->
  stable_name n = value /\
  (0 < String.length value <= 128)%nat /\
  Forall (fun b => is_identifier_byte b = true) (String.list_byte_of_string value).
Proof. apply StableName_parse_Ok. Qed.

(** over the defaults, the limits builder accepts any sequence of nonzero
    settings with the last value of every field, and refuses a sequence that
    ends by setting a field to zero. *)
Theorem ResourceLimitsBuilder_accepts settings :
  (Forall (fun s => 0 < setting_value s) settings ->
   ResourceLimitsBuilder_build (foldl apply_setting ResourceLimits_default settings) =
   Ok (foldl apply_setting ResourceLimits_default settings)) /\
  (forall s, setting_value s = 0 ->
   ResourceLimitsBuilder_build
     (foldl apply_setting ResourceLimits_default (settings ++ [s])) = Err ResourceLimit).
Proof. split; [apply builder_accepts_nonzero|intros; by apply builder_rejects_zero]. Qed.

(** The byte length of a shape is the product of its dimensions and the
    scalar width; it is refused with a resource limit exactly when a partial
    product or the length exceeds 64 bits. *)
Theorem byte_len_exact dtype shape :
  byte_len dtype shape =
  if prefix_products_fit 1 shape && (prodN shape * (bits dtype / 8) <=? u64_MAX)
  then Ok (prodN shape * (bits dtype / 8)) else Err ResourceLimit.
Proof.
  unfold byte_len. rewrite try_fold_mul_spec, N.mul_1_l.
  destruct (prefix_products_fit 1 shape); [|done]. cbn [mbind result_bind].
  unfold checked_mul. cbn [andb]. by destruct (_ <=? u64_MAX).
Qed.

(** a span that was accepted ends at a 64-bit offset, so its [end] does not
    overflow, and its wire form converts back to it. *)
Theorem SourceSpan_checked file offset len s :
  SourceSpan_new file offset len = Ok s ->
  span_end s = Ok (offset + len) /\ offset + len <= u64_MAX /\
  SourceSpan_try_from (SourceSpan_serialize s) = Ok s.
Proof.
  unfold SourceSpan_try_from, SourceSpan_serialize, SourceSpan_new, span_end. intros H.
  apply bind_Ok in H as (n & Hn%ok_or_Ok & [= <-]). apply checked_add_Some in Hn as [-> Hle].
  cbn [span_file span_offset span_length wire_file wire_offset wire_length].
  rewrite checked_add_ok by done. apply N.leb_le in Hle as Hb. by rewrite Hb.
Qed.

Lemma SourceSpan_checked_witness :
  SourceSpan_new (from_ordinal 0) 8 16 = Ok {| span_file := from_ordinal 0; span_offset := 8; span_length := 16 |} /\
  span_end {| span_file := from_ordinal 0; span_offset := 8; span_length := 16 |} = Ok 24.
Proof.
  split; [reflexivity|]. eapply (SourceSpan_checked (from_ordinal 0) 8 16). reflexivity.
Defined.

(** Slicing a view shares its owner and exposes exactly the requested bytes;
    a range that is reversed or leaves the view is refused. *)
Theorem view_slice_exact v first last :
  view_wf v -> view_end v <= u64_MAX ->
  (first <= last <= view_len v ->
   exists w, view_slice v first last = Ok w /\ view_wf w /\ view_owner w = view_owner v /\
     as_slice w = take (N.to_nat (last - first)) (drop (N.to_nat first) (as_slice v))) /\
  (last < first \/ view_len v < last -> view_slice v first last = Err InvalidFormat).
Proof.
  intros [Hs He] Hu. unfold view_slice. split.
  - intros [Hf Hl]. unfold view_len in *.
    assert ((last <? first) = false) as -> by (apply N.ltb_ge; lia).
    assert ((view_end v - view_start v <? last) = false) as -> by (apply N.ltb_ge; lia).
    cbn [orb reject mbind result_bind]. rewrite checked_add_ok by lia. cbn [ok_or mbind result_bind].
    rewrite checked_add_ok by lia. cbn [ok_or mbind result_bind]. unfold view_from_owner.
    assert ((view_start v + last <? view_start v + first) = false) as -> by (apply N.ltb_ge; lia).
    assert ((N.of_nat (length (owner_bytes (view_owner v))) <? view_start v + last) = false) as ->
      by (apply N.ltb_ge; lia).
    cbn [orb reject mbind result_bind mret result_ret]. eexists. split; [done|].
    split_and!; [split; simpl; lia|done|]. unfold as_slice. simpl.
    rewrite skipn_firstn_comm, firstn_firstn, drop_drop. f_equal; [lia|]. f_equal. lia.
  - intros H. assert ((last <? first) || (view_len v <? last) = true) as ->; [|done].
    apply orb_true_iff. destruct H; [left|right]; by apply N.ltb_lt.
Qed.

Lemma view_slice_exact_witness :
  exists w, view_slice example_view 1 3 = Ok w /\ view_wf w /\ view_owner w = view_owner example_view /\
    as_slice w = take (N.to_nat (3 - 1)) (drop (N.to_nat 1) (as_slice example_view)).
Proof.
  apply (view_slice_exact example_view 1 3); [apply view_from_boxed_wf|by vm_compute|by vm_compute].
Defined.
