(* ===== verification/OperationTheorems.v ===== *)
(** * Properties of tensor facts, inference and host kernels *)

From S2P Require Import Prelude Errors Cancel Tensor Identity Representation Strides Facts.
From S2P Require Import Operation Kernels InferSpecs Semantics KernelSpecs.
From S2P Require Import Simd FastPaths FastPathSpecs SimdSpecs.
Local Open Scope N_scope.

(** ** Inputs of the witnesses *)

(** A row-major tensor of 16-bit integers. *)
Definition u16_facts (shape strides : list N) (len : N) : TensorFacts :=
  {| logical_shape := shape; storage_shape := shape; logical_strides := strides;
     storage_strides := strides; representation := Representation_contiguous U16;
     facts_byte_len := len |}.
Definition matrix : TensorFacts := u16_facts [2; 3] [3; 1] 12.
Definition blocked : Layout :=
  Custom {| stable_name := "blocked" |} 1 [].

(** The matrix stored column by column, and with every row padded to four. *)
Definition column_major : TensorFacts :=
  {| logical_shape := [2; 3]; storage_shape := [3; 2]; logical_strides := [3; 1];
     storage_strides := [1; 2];
     representation := {| dtype := U16; layout := blocked |}; facts_byte_len := 12 |}.
Definition padded_matrix : TensorFacts :=
  {| logical_shape := [2; 3]; storage_shape := [2; 4]; logical_strides := [3; 1];
     storage_strides := [4; 1];
     representation := {| dtype := U16; layout := blocked |}; facts_byte_len := 16 |}.

Definition matrix_bytes : bytes :=
  [Byte.x01; Byte.x00; Byte.x02; Byte.x00; Byte.x03; Byte.x00;
   Byte.x04; Byte.x00; Byte.x05; Byte.x00; Byte.x06; Byte.x00].
Definition matrix_view : ByteView := view_from_boxed 4096 matrix_bytes.
Definition matrix_tensor : tensor := read_tensor matrix matrix_bytes.

Definition quiet_env : Env :=
  {| fired := fun _ => false; grants := fun _ _ => true; place := fun n => 65536 * N.of_nat (S n) |}.

(** The output of a run in the quiet environment. *)
Definition run_output {A} (m : M A) : result A := fst <$> m quiet_env 0%nat.

Definition result_ok {A} (r : result A) : option A :=
  match r with Ok a => Some a | _ => None end.

Definition transpose : Permute := {| permute_order := [1; 0]; permute_mode := Storage blocked |}.
Definition pad_rows : Pad :=
  {| pad_order := [0; 1]; pad_storage_shape := [2; 4]; pad_target_layout := blocked |}.
Definition last_columns : Slice :=
  {| slice_ranges := [{| range_start := 0; range_end := 2 |}; {| range_start := 1; range_end := 3 |}] |}.
Definition stack : Concat := {| concat_axis := {| axis_index := 0 |} |}.

Lemma matrix_wf : facts_wf matrix.
Proof.
  apply (TensorFacts_new_wf [2; 3] [2; 3] [3; 1] [3; 1] (Representation_contiguous U16) 12).
  vm_compute. reflexivity.
Qed.

Lemma matrix_view_wf : view_wf matrix_view.
Proof. apply view_from_boxed_wf. Qed.

Lemma matrix_represents : represents matrix (as_slice matrix_view) matrix_tensor.
Proof. unfold matrix_view. rewrite view_from_boxed_slice. by split. Qed.

(** ** Shared lemmas *)

Lemma gather_Permutation order shape :
  is_order order -> length shape = length order -> Permutation (gather order shape) shape.
Proof.
  intros Ho%is_order_Permutation Hl. unfold gather.
  transitivity (map (fun a => shape !!! a) (seq 0 (length order))); [by apply Permutation_map|].
  assert (map (fun a => shape !!! a) (seq 0 (length order)) = shape) as ->; [|done].
  apply list_eq. intros i. change (map ?h ?l) with (h <$> l). rewrite list_lookup_fmap.
  destruct (decide (i < length shape)%nat) as [Hi|Hi].
  - rewrite lookup_seq_lt by lia. simpl. by rewrite <-list_lookup_lookup_total_lt.
  - rewrite !lookup_ge_None_2; [done|lia|]. rewrite length_seq. lia.
Qed.

(** A storage permutation has no padding elements. *)
Lemma permute_storage_dense p fin fout l :
  infer_permute p fin = Ok [fout] -> permute_mode p = Storage l ->
  facts_wf fout /\ prodN (storage_shape fout) = prodN (logical_shape fout).
Proof.
  intros Hinf Hm.
  destruct (infer_permute_Ok _ _ _ Hinf) as (Hord & Hl & _ & f & [= <-] & Hwo & _ & H).
  rewrite Hm in H. destruct H as (Hsh & Hss & _). split; [done|]. rewrite Hss, Hsh.
  apply prodN_Permutation, gather_Permutation; [done|]. by rewrite Hl.
Qed.

(** ** Tensor facts *)

(** Facts the constructor accepts satisfy the layout invariant, and their
    wire form deserializes to the same facts. *)
Theorem TensorFacts_new_sound ls ss lst sst r n f :
  TensorFacts_new ls ss lst sst r n = Ok f ->
  facts_wf f /\ TensorFacts_try_from (TensorFacts_serialize f) = Ok f.
Proof. intros H. split; [by eapply TensorFacts_new_wf|by eapply TensorFacts_roundtrip]. Qed.

Lemma TensorFacts_new_sound_witness :
  facts_wf padded_matrix /\
  TensorFacts_try_from (TensorFacts_serialize padded_matrix) = Ok padded_matrix.
Proof.
  apply (TensorFacts_new_sound [2; 3] [2; 4] [3; 1] [4; 1] {| dtype := U16; layout := blocked |} 16).
  vm_compute. reflexivity.
Defined.

(** In accepted facts every logical coordinate occupies a whole scalar inside
    the buffer, different coordinates occupy disjoint bytes, and the logical
    strides number the coordinates of a nonempty tensor one to one. *)
Theorem TensorFacts_layout ls ss lst sst r n f :
  TensorFacts_new ls ss lst sst r n = Ok f ->
  (forall c, in_shape ls c -> (offset_of f c + 1) * width f <= n) /\
  (forall c c', in_shape ls c -> in_shape ls c' -> c <> c' ->
     (offset_of f c + 1) * width f <= offset_of f c' * width f \/
     (offset_of f c' + 1) * width f <= offset_of f c * width f) /\
  (forall k, k < prodN ls -> exists c, in_shape ls c /\ dotN c lst = k /\
     forall c', in_shape ls c' -> dotN c' lst = k -> c' = c).
Proof.
  intros H. pose proof (TensorFacts_new_wf _ _ _ _ _ _ _ H) as Hwf.
  pose proof (TensorFacts_new_fields _ _ _ _ _ _ _ H) as Hf.
  assert (logical_shape f = ls /\ logical_strides f = lst /\ facts_byte_len f = n) as (<- & <- & <-)
    by (by rewrite Hf).
  split_and!.
  - intros c Hc. by apply element_in_bytes.
  - intros c c' Hc Hc' Hne. pose proof (wf_injective f Hwf (in_shape_pos _ _ Hc)) as Hinj.
    assert (offset_of f c <> offset_of f c') as Ho by (intros E; by apply Hne, Hinj).
    pose proof (width_pos f). nia.
  - intros k Hk. assert (prodN (logical_shape f) <> 0) as Hp by lia.
    pose proof (wf_logical_injective f Hwf Hp) as Hinj.
    destruct (injective_strides_onto _ _ k Hinj (wf_logical_dense f Hwf Hp) Hk) as (c & Hc & E).
    exists c. split_and!; [done|done|]. intros c' Hc' E'. apply Hinj; [done|done|congruence].
Qed.

Lemma TensorFacts_layout_witness :
  (offset_of padded_matrix [1; 2] + 1) * width padded_matrix <= 16.
Proof.
  eapply (TensorFacts_layout [2; 3] [2; 4] [3; 1] [4; 1] {| dtype := U16; layout := blocked |} 16).
  - vm_compute. reflexivity.
  - repeat constructor.
Defined.

(** the storage check does not depend on how the unstable sort orders axes
    of equal stride: an order it accepts is the only sorted order. *)
Theorem storage_check_tie_free axes axes' span :
  Forall (fun axis => 1 < fst axis) axes ->
  StronglySorted stride_le axes -> StronglySorted stride_le axes' -> Permutation axes axes' ->
  try_fold storage_step 1 axes = Ok span -> axes' = axes.
Proof. apply storage_fold_tie_free. Qed.

Lemma storage_check_tie_free_witness : [(3, 1); (2, 4)] = [(3, 1); (2, 4)].
Proof.
  apply (storage_check_tie_free [(3, 1); (2, 4)] [(3, 1); (2, 4)] 7).
  - repeat constructor; simpl; lia.
  - repeat constructor; unfold stride_le; simpl; lia.
  - repeat constructor; unfold stride_le; simpl; lia.
  - reflexivity.
  - vm_compute. reflexivity.
Defined.

(** ** Inference *)

(** C39: for any operation, the parameters no constructor would build included,
    inference on well-formed facts never panics, and what it returns is a
    nonempty list of well-formed facts. *)
Theorem infer_outputs_sound o inputs :
  Forall facts_wf inputs ->
  infer_outputs o inputs <> Panic /\
  forall outputs, infer_outputs o inputs = Ok outputs -> Forall facts_wf outputs /\ outputs <> [].
Proof.
  intros H. split; [by apply infer_outputs_not_Panic|]. intros outputs. by apply infer_outputs_wf.
Qed.

Lemma infer_outputs_sound_witness :
  infer_outputs (Op_Permute transpose) [matrix] <> Panic /\
  infer_outputs (Op_Permute transpose) [matrix] = Ok [column_major].
Proof.
  split; [|vm_compute; reflexivity].
  apply (infer_outputs_sound (Op_Permute transpose) [matrix]). repeat constructor; apply matrix_wf.
Defined.

(** an order is accepted exactly when it lists every axis of a 32-bit rank
    once. *)
Theorem validate_permutation_exact order :
  validate_permutation order = Ok tt <->
  Permutation (map N.to_nat order) (seq 0 (length order)) /\ N.of_nat (length order) <= u32_MAX.
Proof. rewrite validate_permutation_iff, is_order_Permutation, length_map. done. Qed.

(** ** Kernels *)

(** a new output holds exactly the declared number of zero bytes, and a size
    above the host limit is refused before anything is allocated. *)
Theorem allocate_tensor_zeroed f :
  (facts_byte_len f <= isize_MAX ->
   succeeds (allocate_tensor f) (fun out => out = replicate (N.to_nat (facts_byte_len f)) Byte.x00)) /\
  (isize_MAX < facts_byte_len f -> fails (allocate_tensor f) ResourceLimit).
Proof. split; [apply allocate_tensor_spec|apply allocate_tensor_limit]. Qed.

(** Padding copies every logical element to its padded place and leaves the
    bytes between the elements as they were. *)
Theorem execute_storage_copy_correct p fin fout input output (T : tensor) :
  facts_wf fin -> infer_pad p fin = Ok [fout] -> prodN (logical_shape fin) <> 0 ->
  view_wf input -> represents fin (as_slice input) T -> blen output = facts_byte_len fout ->
  succeeds (execute_storage_copy fin fout input output)
    (fun out => represents fout out T /\ keeps_padding fout output out).
Proof.
  intros Hwi Hinf Hne Hv HT Hl. destruct (infer_pad_Ok _ _ _ Hinf) as (f & [= <-] & Hwo & Hd & Hsh & _).
  apply execute_storage_copy_spec; try done. apply addressable_nonempty; [done|by rewrite Hsh].
Qed.

Lemma execute_storage_copy_correct_witness :
  succeeds (execute_storage_copy matrix padded_matrix matrix_view (replicate 16 Byte.x00))
    (fun out => represents padded_matrix out matrix_tensor /\
                keeps_padding padded_matrix (replicate 16 Byte.x00) out) /\
  run_output (execute_storage_copy matrix padded_matrix matrix_view (replicate 16 Byte.x00)) =
  Ok [Byte.x01; Byte.x00; Byte.x02; Byte.x00; Byte.x03; Byte.x00; Byte.x00; Byte.x00;
      Byte.x04; Byte.x00; Byte.x05; Byte.x00; Byte.x06; Byte.x00; Byte.x00; Byte.x00].
Proof.
  split; [|vm_compute; reflexivity].
  apply (execute_storage_copy_correct pad_rows); [apply matrix_wf|vm_compute; reflexivity|done|
    apply matrix_view_wf|apply matrix_represents|vm_compute; reflexivity].
Defined.

(** A permutation kernel moves element [c] of the input to its permuted
    coordinate in logical mode, and keeps every logical coordinate in storage
    mode. *)
Theorem execute_permute_bytes_correct p fin fout input output (T : tensor) :
  facts_wf fin -> infer_permute p fin = Ok [fout] -> prodN (logical_shape fin) <> 0 ->
  view_wf input -> represents fin (as_slice input) T -> blen output = facts_byte_len fout ->
  succeeds (execute_permute_bytes p fin fout input output)
    (fun out => represents fout out match permute_mode p with
                                    | Logical => sem_permute (map N.to_nat (permute_order p)) T
                                    | Storage _ => T
                                    end /\ keeps_padding fout output out).
Proof.
  intros Hwi Hinf Hne Hv HT Hl.
  destruct (infer_permute_Ok _ _ _ Hinf) as (Hord & Hr & Hidx & f & [= <-] & Hwo & Hd & Hm).
  apply execute_permute_bytes_spec; try done; destruct (permute_mode p); try tauto.
  apply addressable_nonempty; [done|]. by rewrite (proj1 Hm).
Qed.

Lemma execute_permute_bytes_correct_witness :
  succeeds (execute_permute_bytes transpose matrix column_major matrix_view (replicate 12 Byte.x00))
    (fun out => represents column_major out matrix_tensor /\
                keeps_padding column_major (replicate 12 Byte.x00) out) /\
  run_output (execute_permute_bytes transpose matrix column_major matrix_view (replicate 12 Byte.x00)) =
  Ok [Byte.x01; Byte.x00; Byte.x04; Byte.x00; Byte.x02; Byte.x00;
      Byte.x05; Byte.x00; Byte.x03; Byte.x00; Byte.x06; Byte.x00].
Proof.
  split; [|vm_compute; reflexivity].
  apply (execute_permute_bytes_correct transpose); [apply matrix_wf|vm_compute; reflexivity|done|
    apply matrix_view_wf|apply matrix_represents|vm_compute; reflexivity].
Defined.

(** A slice holds, at every coordinate, the input element offset by the start
    of each range. *)
Theorem execute_slice_bytes_correct s fin fout input output (T : tensor) :
  facts_wf fin -> infer_slice s fin = Ok [fout] ->
  view_wf input -> represents fin (as_slice input) T -> blen output = facts_byte_len fout ->
  succeeds (execute_slice_bytes (slice_ranges s) fin input fout output)
    (fun out => represents fout out (sem_slice (slice_ranges s) T) /\ keeps_padding fout output out).
Proof.
  intros Hwi Hinf Hv HT Hl.
  destruct (infer_slice_Ok _ _ _ Hinf) as (Hfit & f & [= <-] & Hwo & Hd & Hsh & Ha).
  by apply execute_slice_bytes_spec.
Qed.

Lemma execute_slice_bytes_correct_witness :
  succeeds (execute_slice_bytes (slice_ranges last_columns) matrix matrix_view
              (u16_facts [2; 2] [2; 1] 8) (replicate 8 Byte.x00))
    (fun out => represents (u16_facts [2; 2] [2; 1] 8) out (sem_slice (slice_ranges last_columns) matrix_tensor) /\
                keeps_padding (u16_facts [2; 2] [2; 1] 8) (replicate 8 Byte.x00) out).
Proof.
  apply execute_slice_bytes_correct; [apply matrix_wf|vm_compute; reflexivity|
    apply matrix_view_wf|apply matrix_represents|vm_compute; reflexivity].
Defined.

(** A concatenation holds, at every coordinate, the element of the input its
    axis coordinate falls into. *)
Theorem execute_concat_bytes_correct c facts fout views output Ts :
  infer_concat c facts = Ok [fout] -> views_represent facts views Ts ->
  blen output = facts_byte_len fout ->
  let axis := N.to_nat (axis_index (concat_axis c)) in
  succeeds (execute_concat_bytes c facts fout views output)
    (fun out => represents fout out (sem_concat axis (axis_dims axis facts) Ts) /\
                keeps_padding fout output out).
Proof.
  intros Hinf Hv Hl axis.
  destruct (infer_concat_Ok _ _ _ Hinf) as (first & axis' & f & _ & _ & [= <-] & -> & Hax & Hva & Hj &
    Hwo & Ha & Hd & Hsh & Hsum & _). by eapply execute_concat_bytes_spec.
Qed.

Lemma matrices_represent :
  views_represent [matrix; matrix] [matrix_view; matrix_view] [matrix_tensor; matrix_tensor].
Proof.
  split_and!; [done|done|]. intros [|[|k]] f v T Hf Hv HT; simplify_eq/=;
    (split_and!; [apply matrix_wf|apply matrix_view_wf|apply matrix_represents]).
Qed.

Lemma execute_concat_bytes_correct_witness :
  succeeds (execute_concat_bytes stack [matrix; matrix] (u16_facts [4; 3] [3; 1] 24)
              [matrix_view; matrix_view] (replicate 24 Byte.x00))
    (fun out => represents (u16_facts [4; 3] [3; 1] 24) out
       (sem_concat 0 [2; 2] [matrix_tensor; matrix_tensor]) /\
       keeps_padding (u16_facts [4; 3] [3; 1] 24) (replicate 24 Byte.x00) out).
Proof.
  apply (execute_concat_bytes_correct stack); [vm_compute; reflexivity|apply matrices_represent|
    vm_compute; reflexivity].
Defined.

(** ** Fast paths *)

(** C34: on contiguous tensors the tiled concatenation builds the very bytes of
    the element-wise one. *)
Theorem build_contiguous_concat_equivalent c facts fout views Ts output fast slow env env' t t' u u' :
  infer_concat c facts = Ok [fout] -> forallb is_canonical_contiguous facts = true ->
  is_canonical_contiguous fout = true -> views_represent facts views Ts ->
  prodN (logical_shape fout) <> 0 -> facts_byte_len fout <= isize_MAX ->
  blen output = facts_byte_len fout ->
  build_contiguous_concat (concat_axis c) facts fout views env t = Ok (fast, t') ->
  execute_concat_bytes c facts fout views output env' u = Ok (slow, u') -> fast = slow.
Proof.
  intros Hinf Hcan Hco Hv Hne Hle Hl Hfast Hslow.
  destruct (infer_concat_Ok _ _ _ Hinf) as (first & axis' & f & Hhead & _ & [= <-] & Hax' & Hax & Hva & Hj &
    Hwo & Ha & Hd & Hsh & Hsum & _).
  apply is_canonical_contiguous_true in Hco as (_ & Hss & _ & Hsst & _).
  assert (Forall (fun f => storage_strides f = row_strides (logical_shape f) /\
                           storage_shape f = logical_shape f) facts) as Hall.
  { apply Forall_forall. intros f Hf. rewrite forallb_forall in Hcan.
    apply list_elem_of_In, Hcan, is_canonical_contiguous_true in Hf. tauto. }
  apply (represents_unique fout _ _ (sem_concat axis' (axis_dims axis' facts) Ts)); [done|by rewrite Hss| |].
  - refine (succeeds_value _ (fun out => represents fout out _) _ _ _ _ _ Hfast).
    by apply (build_contiguous_concat_spec axis' first facts fout views Ts).
  - refine (proj1 (succeeds_value _ (fun out => represents fout out _ /\ keeps_padding fout output out)
      _ _ _ _ _ Hslow)). by apply (execute_concat_bytes_spec c axis' first).
Qed.

Lemma build_contiguous_concat_equivalent_witness :
  default [] (result_ok (run_output (build_contiguous_concat (concat_axis stack) [matrix; matrix]
    (u16_facts [4; 3] [3; 1] 24) [matrix_view; matrix_view]))) = matrix_bytes ++ matrix_bytes.
Proof.
  apply (build_contiguous_concat_equivalent stack [matrix; matrix] (u16_facts [4; 3] [3; 1] 24)
    [matrix_view; matrix_view] [matrix_tensor; matrix_tensor] (replicate 24 Byte.x00)
    _ _ quiet_env quiet_env 0 6 0 2);
    try (vm_compute; reflexivity); [apply matrices_represent|done|by vm_compute].
Defined.

(** C35: when the OIHW-to-OHWI fast path applies it builds the very bytes of the
    element-wise permutation, with or without vector instructions. *)
Theorem build_oihw_to_ohwi_equivalent avx2 p fin fout input T output fast slow env env' t t' u u' :
  facts_wf fin -> infer_permute p fin = Ok [fout] -> prodN (logical_shape fin) <> 0 ->
  facts_byte_len fout <= isize_MAX -> view_wf input -> represents fin (as_slice input) T ->
  blen output = facts_byte_len fout ->
  build_oihw_to_ohwi_if_supported avx2 p fin fout (as_slice input) env t = Ok (Some fast, t') ->
  execute_permute_bytes p fin fout input output env' u = Ok (slow, u') -> fast = slow.
Proof.
  intros Hwi Hinf Hne Hle Hv HT Hl Hfast Hslow.
  pose proof (build_oihw_to_ohwi_if_supported_spec avx2 p fin fout (as_slice input) T Hwi Hinf Hne Hle HT)
    as Hspec.
  destruct (succeeds_value _ _ _ _ _ _ Hspec Hfast fast eq_refl) as [[l Hm] Hrep].
  destruct (permute_storage_dense p fin fout l Hinf Hm) as [Hwo Hdense].
  apply (represents_unique fout _ _ T); [done|done|done|].
  destruct (infer_permute_Ok _ _ _ Hinf) as (Hord & Hr & Hidx & f & [= <-] & _ & Hd & Hsh).
  assert (succeeds (execute_permute_bytes p fin fout input output)
    (fun out => represents fout out T /\ keeps_padding fout output out)) as Hgen.
  { pose proof (execute_permute_bytes_spec p fin fout input output T) as Hs. cbv zeta in Hs.
    rewrite Hm in Hs, Hsh. apply Hs; try done; [|apply Hsh].
    apply addressable_nonempty; [done|]. by rewrite (proj1 Hsh). }
  exact (proj1 (succeeds_value _ _ _ _ _ _ Hgen Hslow)).
Qed.

Definition weights : TensorFacts := u16_facts [1; 2; 1; 2] [4; 2; 2; 1] 8.
Definition weights_ohwi : TensorFacts :=
  {| logical_shape := [1; 2; 1; 2]; storage_shape := [1; 1; 2; 2]; logical_strides := [4; 2; 2; 1];
     storage_strides := [4; 1; 4; 2];
     representation := {| dtype := U16; layout := blocked |}; facts_byte_len := 8 |}.
Definition weight_bytes : bytes :=
  [Byte.x01; Byte.x00; Byte.x02; Byte.x00; Byte.x03; Byte.x00; Byte.x04; Byte.x00].
Definition weight_view : ByteView := view_from_boxed 4096 weight_bytes.
Definition to_ohwi : Permute := {| permute_order := [0; 2; 3; 1]; permute_mode := Storage blocked |}.

Lemma build_oihw_to_ohwi_equivalent_witness :
  default [] (mjoin (result_ok (run_output
    (build_oihw_to_ohwi_if_supported true to_ohwi weights weights_ohwi (as_slice weight_view))))) =
  [Byte.x01; Byte.x00; Byte.x03; Byte.x00; Byte.x02; Byte.x00; Byte.x04; Byte.x00].
Proof.
  apply (build_oihw_to_ohwi_equivalent true to_ohwi weights weights_ohwi weight_view
    (read_tensor weights weight_bytes) (replicate 8 Byte.x00) _ _ quiet_env quiet_env 0 5 0 2);
    try (vm_compute; reflexivity); [|done|by vm_compute|apply view_from_boxed_wf|].
  - apply (TensorFacts_new_wf [1; 2; 1; 2] [1; 2; 1; 2] [4; 2; 2; 1] [4; 2; 2; 1]
      (Representation_contiguous U16) 8). vm_compute. reflexivity.
  - unfold weight_view. rewrite view_from_boxed_slice. by split.
Defined.

(** The unpack network of the vector kernel is the transposition of its block
    of sixteen channels by eight positions, whatever the elements are. *)
Theorem transpose_network_transposes {A} (src : nat -> nat -> A) :
  transpose_network (map (fun c => map (src c) (seq 0 8)) (seq 0 16)) =
  map (fun s => map (fun c => src c s) (seq 0 16)) (seq 0 8).
Proof. apply transpose_network_spec. Qed.

(** C36: the vector and the scalar dispatch write the same bytes, the elements in
    output-channel, height, width, input-channel order, for every channel count,
    the ones that are no multiple of sixteen included. *)
Theorem permute_dispatch_equivalent o i input output avx2 :
  blen input = o * i * 9 * 2 -> blen input <= u64_MAX -> blen output = blen input -> o <> 0 ->
  succeeds (permute_oihw_to_ohwi_3x3_u16 avx2 input output o i)
    (fun out => out = concat (ohwi_prefix 2 i 9 input (o * i * 9))).
Proof. intros Hl Hf Ho Hne. apply permute_oihw_to_ohwi_3x3_u16_spec; congruence. Qed.

(** Nineteen input channels: one vector block and three scalar channels. *)
Definition channels_19 : bytes := map (fun n => byte_of_N (N.of_nat n)) (seq 0 342).

Lemma permute_dispatch_equivalent_witness :
  succeeds (permute_oihw_to_ohwi_3x3_u16 true channels_19 (replicate 342 Byte.x00) 1 19)
    (fun out => out = concat (ohwi_prefix 2 19 9 channels_19 (1 * 19 * 9))).
Proof.
  apply (permute_dispatch_equivalent 1 19 channels_19 (replicate 342 Byte.x00) true);
    try (vm_compute; reflexivity); [by vm_compute|done].
Defined.
