(* ===== verification/PrepareTheorems.v ===== *)
(** * Properties of the casts, the registry and the preparation engine *)

From S2P Require Import Prelude Errors Cancel Tensor Identity Representation Strides Facts.
From S2P Require Import Operation InferSpecs Kernels Semantics KernelSpecs Cast CastSpecs Prepare.
From S2P Require Import CastSpecs NodeSpecs.
Local Open Scope N_scope.

(** ** Inputs of the witnesses *)

(** Conversions that keep the high half of a binary32 pattern. *)
Definition truncating : HalfConversions :=
  {| f16_from_f32 := fun v => v / 65536; f16_to_f32 := fun v => v * 65536;
     bf16_from_f32 := fun v => v / 65536; bf16_to_f32 := fun v => v * 65536 |}.

Definition contiguous_cast : ImplementationId :=
  {| provider := {| stable_name := "model-weights" |};
     operation := {| stable_name := "contiguous-cast" |}; version := 1 |}.

Definition bytes_to_floats : PlannedTransform :=
  PlannedTransform_new {| implementation := contiguous_cast;
    source := Representation_contiguous U8; target := Representation_contiguous F32 |} 12.
Definition floats_to_halves : PlannedTransform :=
  PlannedTransform_new {| implementation := contiguous_cast;
    source := Representation_contiguous F32; target := Representation_contiguous Bf16 |} 6.

Definition bytes_to_bytes : PlannedTransform :=
  PlannedTransform_new {| implementation := contiguous_cast;
    source := Representation_contiguous U8; target := Representation_contiguous U8 |} 3.

(** An environment that never interrupts. *)
Definition still_env : Env :=
  {| fired := fun _ => false; grants := fun _ _ => true; place := fun n => 65536 * N.of_nat (S n) |}.

Definition vector (d : DType) (len : N) : TensorFacts :=
  {| logical_shape := [3]; storage_shape := [3]; logical_strides := [1]; storage_strides := [1];
     representation := Representation_contiguous d; facts_byte_len := len |}.
Definition three_bytes : bytes := [Byte.x01; Byte.x02; Byte.xff].
Definition three_view : ByteView := view_from_boxed 4096 three_bytes.

Definition builtin_engine : PreparationEngine :=
  match engine_with_builtins truncating with Ok e => e | _ => {| providers := ∅ |} end.

(** A provider that reuses every source. *)
Definition reusing_provider : PreparationProvider :=
  {| provider_implementation := contiguous_cast;
     provider_validate := fun _ => mret ReuseSource;
     provider_prepare_into := fun _ output scratch => mret (output, scratch);
     provider_prepare_allocated := fun _ _ _ => mret [] |}.

Lemma builtin_engine_Ok : engine_with_builtins truncating = Ok builtin_engine.
Proof.
  unfold builtin_engine. by destruct (engine_with_builtins_total truncating) as [e ->].
Qed.

Lemma vector_wf : facts_wf (vector U8 3).
Proof.
  apply (TensorFacts_new_wf [3] [3] [1] [1] (Representation_contiguous U8) 3). vm_compute. reflexivity.
Qed.

Lemma three_represents : represents (vector U8 3) (as_slice three_view) (read_tensor (vector U8 3) three_bytes).
Proof. unfold three_view. rewrite view_from_boxed_slice. by split. Qed.

(** ** Casts *)

(** The conversion of a byte to binary32 is exact: the significand with its
    hidden bit, scaled by the unbiased exponent, is the byte. *)
Theorem f32_from_u8_exact n :
  0 < n < 256 ->
  (2 ^ 23 + f32_from_u8 n mod 2 ^ 23) * 2 ^ (N.shiftr (f32_from_u8 n) 23 - 127) = n * 2 ^ 23 /\
  127 <= N.shiftr (f32_from_u8 n) 23 < 255.
Proof.
  intros [H0 H].
  assert (forallb (fun k => let n := N.of_nat k in
    ((2 ^ 23 + f32_from_u8 n mod 2 ^ 23) * 2 ^ (N.shiftr (f32_from_u8 n) 23 - 127) =? n * 2 ^ 23) &&
    (127 <=? N.shiftr (f32_from_u8 n) 23) && (N.shiftr (f32_from_u8 n) 23 <? 255)) (seq 1 255) = true)
    as Hall by (vm_compute; reflexivity).
  rewrite forallb_forall in Hall. specialize (Hall (N.to_nat n)). cbv zeta in Hall.
  rewrite N2Nat.id in Hall. destruct (andb_prop _ _ (Hall ltac:(apply in_seq; lia))) as [Ha Hc].
  apply andb_prop in Ha as [Ha Hb]. bool_to_prop. done.
Qed.

Lemma f32_from_u8_exact_witness : 127 <= N.shiftr (f32_from_u8 200) 23 < 255.
Proof. apply (f32_from_u8_exact 200). lia. Defined.

(** The writer and the builder compute the same output, the conversion of
    every source element in order, for every supported pair of dtypes and any
    number of blocks. *)
Theorem cast_float_bytes_agree half s d f source n output :
  cast_value half s d = Some f -> blen source = n * cast_width s ->
  n * cast_width s <= u64_MAX -> n * cast_width d <= isize_MAX -> blen output = n * cast_width d ->
  succeeds (cast_float_bytes half s source d output)
    (fun out => out = cast_elements f s d source (N.to_nat n)) /\
  succeeds (cast_float_bytes_owned half s source d (n * cast_width d))
    (fun out => out = cast_elements f s d source (N.to_nat n)).
Proof.
  intros Hf Hs Hfit Hle Ho. split; [|by apply cast_float_bytes_owned_spec].
  apply cast_float_bytes_spec; try done. etransitivity; [exact Hle|by vm_compute].
Qed.

Lemma cast_float_bytes_agree_witness :
  succeeds (cast_float_bytes_owned truncating U8 three_bytes F32 12)
    (fun out => out = [Byte.x00; Byte.x00; Byte.x80; Byte.x3f; Byte.x00; Byte.x00; Byte.x00; Byte.x40;
                       Byte.x00; Byte.x00; Byte.x7f; Byte.x43]).
Proof.
  apply (cast_float_bytes_agree truncating U8 F32 f32_from_u8 three_bytes 3 (replicate 12 Byte.x00));
    by vm_compute.
Defined.

(** ** Registry *)

(** A registered provider is found under its exact identity and under no
    other, a second provider of that identity is refused, and every other
    identity resolves as before. *)
Theorem register_shared_exact r p r' :
  register_shared r p = Ok r' ->
  resolve r (provider_implementation p) = Err Unsupported /\
  resolve r' (provider_implementation p) = Ok p /\
  (forall i, i <> provider_implementation p -> resolve r' i = resolve r i) /\
  registry_len r' = S (registry_len r) /\
  (forall q, provider_implementation q = provider_implementation p ->
     register_shared r' q = Err InvalidFormat).
Proof.
  unfold register_shared, resolve, registry_len. intros H.
  apply bind_Ok in H as (? & Hn%reject_Ok & [= <-]). bool_to_prop.
  apply eq_None_not_Some in Hn. split_and!.
  - by rewrite Hn.
  - by rewrite lookup_insert_eq.
  - intros i Hi. by rewrite lookup_insert_ne.
  - by apply map_size_insert_None.
  - intros q ->. by rewrite lookup_insert_eq, bool_decide_eq_true_2 by eauto.
Qed.

Lemma register_shared_exact_witness :
  resolve (<[contiguous_cast := reusing_provider]> ∅) contiguous_cast = Ok reusing_provider.
Proof.
  apply (register_shared_exact ∅ reusing_provider). unfold register_shared.
  rewrite bool_decide_eq_false_2; [done|]. rewrite lookup_empty. by intros [].
Defined.

(** ** Engine *)

(** Whatever a provider does, a buffer the engine returns is well formed and
    has exactly the byte length the request expects. *)
Theorem prepare_output_size engine request env t out t' :
  view_wf (request_source request) ->
  prepare_with_cancellation engine request env t = Ok (out, t') ->
  view_wf out /\ view_len out = expected_output_bytes request.
Proof. apply prepare_result_size. Qed.

Lemma prepare_output_size_witness : view_wf three_view /\ view_len three_view = 3.
Proof.
  apply (prepare_output_size {| providers := {[contiguous_cast := reusing_provider]} |}
    (chain_request bytes_to_bytes [3] three_view) still_env 0%nat three_view 3%nat).
  - apply view_from_boxed_wf.
  - vm_compute. reflexivity.
Defined.

(** With the built-in provider, a supported preparation of a contiguous
    tensor returns a buffer that stores the tensor with every scalar converted,
    or the same scalars when the dtype does not change. *)
Theorem builtin_prepare_correct half e t fin fout v T :
  engine_with_builtins half = Ok e -> contiguous_supported half t ->
  facts_wf fin -> infer_prepare t fin = Ok [fout] -> facts_byte_len fout <= isize_MAX ->
  view_wf v -> represents fin (as_slice v) T ->
  succeeds (prepare_with_cancellation e (chain_request t (logical_shape fin) v))
    (fun out => view_wf out /\ represents fout (as_slice out) (contiguous_meaning half t T)).
Proof.
  intros He. pose proof (builtin_engine_prepares half e He). intros. by eapply prepares_outputs.
Qed.

Lemma bytes_to_floats_supported : contiguous_supported truncating bytes_to_floats.
Proof. split_and!; [vm_compute; reflexivity|done|right; by eexists]. Qed.

Lemma builtin_prepare_correct_witness :
  succeeds (prepare_with_cancellation builtin_engine (chain_request bytes_to_floats [3] three_view))
    (fun out => view_wf out /\ represents (vector F32 12) (as_slice out)
       (contiguous_meaning truncating bytes_to_floats (read_tensor (vector U8 3) three_bytes))).
Proof.
  apply (builtin_prepare_correct truncating builtin_engine bytes_to_floats (vector U8 3)).
  - apply builtin_engine_Ok.
  - apply bytes_to_floats_supported.
  - apply vector_wf.
  - vm_compute. reflexivity.
  - by vm_compute.
  - apply view_from_boxed_wf.
  - apply three_represents.
Defined.

(** allocating through the provided method, with zeroed buffers and
    [prepare_into], gives the bytes of the built-in provider's own allocation. *)
Theorem prepare_allocated_agree half request s d f n :
  dtype (source (request_transform request)) = s -> dtype (target (request_transform request)) = d ->
  cast_value half s d = Some f -> blen (as_slice (request_source request)) = n * cast_width s ->
  n * cast_width s <= u64_MAX -> expected_output_bytes request = n * cast_width d ->
  n * cast_width d <= isize_MAX -> expected_scratch_bytes request = 0 ->
  succeeds (default_prepare_allocated (contiguous_prepare_into half) request (n * cast_width d) 0)
    (fun out => out = cast_elements f s d (as_slice (request_source request)) (N.to_nat n)) /\
  succeeds (contiguous_prepare_allocated half request (n * cast_width d) 0)
    (fun out => out = cast_elements f s d (as_slice (request_source request)) (N.to_nat n)).
Proof. intros. split; [by apply default_prepare_allocated_spec|by apply contiguous_prepare_allocated_spec]. Qed.

Lemma prepare_allocated_agree_witness :
  succeeds (default_prepare_allocated (contiguous_prepare_into truncating)
              (chain_request bytes_to_floats [3] three_view) (3 * 4) 0)
    (fun out => out = cast_elements f32_from_u8 U8 F32 three_bytes 3).
Proof.
  apply (prepare_allocated_agree truncating (chain_request bytes_to_floats [3] three_view) U8 F32
    f32_from_u8 3); by vm_compute.
Defined.

(** C37: a chain of preparations stores the composition of their meanings, every
    step on the facts inferred for it. *)
Theorem prepare_chain_correct engine supported meaning ts f h v T :
  Prepares engine supported meaning -> chain_inferred supported f ts h ->
  facts_wf f -> view_wf v -> represents f (as_slice v) T ->
  succeeds (prepare_chain_with_cancellation engine ts (logical_shape f) v)
    (fun out => view_wf out /\ represents h (as_slice out) (foldl (fun T t => meaning t T) T ts)).
Proof. intros. by eapply prepare_chain_spec. Qed.

Lemma prepare_chain_correct_witness :
  succeeds (prepare_chain_with_cancellation builtin_engine [bytes_to_floats; floats_to_halves] [3] three_view)
    (fun out => view_wf out /\ represents (vector Bf16 6) (as_slice out)
       (contiguous_meaning truncating floats_to_halves
          (contiguous_meaning truncating bytes_to_floats (read_tensor (vector U8 3) three_bytes)))).
Proof.
  apply (prepare_chain_correct builtin_engine (contiguous_supported truncating)
    (contiguous_meaning truncating) [bytes_to_floats; floats_to_halves] (vector U8 3)).
  - apply builtin_engine_prepares, builtin_engine_Ok.
  - eapply chain_step; [apply bytes_to_floats_supported|vm_compute; reflexivity|by vm_compute|].
    eapply chain_step; [|vm_compute; reflexivity|by vm_compute|apply chain_done].
    split_and!; [vm_compute; reflexivity|done|right; by eexists].
  - apply vector_wf.
  - apply view_from_boxed_wf.
  - apply three_represents.
Defined.
