(* ===== verification/GraphTheorems.v ===== *)
(** * Properties of graphs, of the liveness accounting and of execution *)

From S2P Require Import Prelude Errors Cancel Tensor Identity Representation Strides Facts.
From S2P Require Import Operation InferSpecs Kernels Semantics KernelSpecs Cast.
From S2P Require Import CastSpecs Prepare Graph GraphSpecs Liveness LivenessSpecs.
From S2P Require Import LivenessSpecs Exec NodeSpecs ExecSpecs.
Local Open Scope N_scope.

(** ** Building *)

(** The builder states a caller can reach: inputs carry facts a constructor
    returned, and every call succeeded. *)
Inductive built : OperationGraphBuilder -> Prop :=
  | built_new : built OperationGraphBuilder_new
  | built_input b name facts b' value :
      built b -> facts_wf facts -> add_input b name facts = Ok (b', value) -> built b'
  | built_operation b implementation o inputs b' values :
      built b -> add_operation b implementation o inputs = Ok (b', values) -> built b'.

Lemma built_wf b : built b -> builder_wf b.
Proof.
  induction 1; [apply builder_new_wf|by eapply add_input_wf|by eapply add_operation_wf].
Qed.

(** ** Inputs of the witnesses *)

Definition matrix_facts : TensorFacts :=
  {| logical_shape := [2; 3]; storage_shape := [2; 3]; logical_strides := [3; 1];
     storage_strides := [3; 1]; representation := Representation_contiguous U8; facts_byte_len := 6 |}.
Definition matrix_name : TensorName := {| tensor_name := "matrix" |}.

Definition builtin (o : Operation) : ImplementationId :=
  match builtin_implementation o with
  | Ok i => i
  | _ => {| provider := {| stable_name := "none" |}; operation := {| stable_name := "none" |}; version := 0 |}
  end.

Definition reshape_op : Operation := Op_Reshape {| reshape_shape := [3; 2] |}.
Definition slice_op : Operation :=
  Op_Slice {| slice_ranges := [{| range_start := 1; range_end := 3 |}; {| range_start := 0; range_end := 2 |}] |}.
Definition transpose_op : Operation := Op_Permute {| permute_order := [1; 0]; permute_mode := Logical |}.
Definition same_op : Operation := Op_Permute {| permute_order := [0; 1]; permute_mode := Logical |}.
Definition node_result (n : N) : ValueRef := NodeOutput (node_from_ordinal n) (output_from_ordinal 0).

Definition wire_node (o : Operation) (input : ValueRef) : OperationNodeWire :=
  {| wire_node_implementation := builtin o; wire_node_inputs := [input]; wire_node_operation := o |}.

Definition dummy_graph : OperationGraph :=
  {| schema_version := 0; graph_inputs := []; graph_nodes := []; graph_output := node_result 0 |}.
Definition from_wire (w : OperationGraphWire) : OperationGraph :=
  match OperationGraph_try_from w with Ok g => g | _ => dummy_graph end.

(** The matrix reshaped, sliced and transposed. *)
Definition pipeline_wire : OperationGraphWire :=
  {| wire_schema_version := 1;
     wire_inputs := [{| input_name := matrix_name; input_facts := matrix_facts |}];
     wire_nodes := [wire_node reshape_op (Input (input_from_ordinal 0));
                    wire_node slice_op (node_result 0); wire_node transpose_op (node_result 1)];
     wire_output := node_result 2 |}.
Definition pipeline : OperationGraph := from_wire pipeline_wire.

(** Two operations that change no byte. *)
Definition alias_wire : OperationGraphWire :=
  {| wire_schema_version := 1;
     wire_inputs := [{| input_name := matrix_name; input_facts := matrix_facts |}];
     wire_nodes := [wire_node reshape_op (Input (input_from_ordinal 0)); wire_node same_op (node_result 0)];
     wire_output := node_result 1 |}.
Definition alias_graph : OperationGraph := from_wire alias_wire.

Definition graph_input_bytes : bytes := [Byte.x01; Byte.x02; Byte.x03; Byte.x04; Byte.x05; Byte.x06].
Definition graph_input_view : ByteView := view_from_boxed 4096 graph_input_bytes.
Definition graph_input_tensor : tensor := read_tensor matrix_facts graph_input_bytes.

Definition plain_engine : PreparationEngine :=
  match engine_with_builtins no_conversions with Ok e => e | _ => {| providers := ∅ |} end.

Lemma plain_engine_Ok : engine_with_builtins no_conversions = Ok plain_engine.
Proof.
  unfold plain_engine. by destruct (engine_with_builtins_total no_conversions) as [e ->].
Qed.

Lemma matrix_facts_wf : facts_wf matrix_facts.
Proof.
  apply (TensorFacts_new_wf [2; 3] [2; 3] [3; 1] [3; 1] (Representation_contiguous U8) 6).
  vm_compute. reflexivity.
Qed.

Lemma pipeline_wf : graph_wf pipeline.
Proof.
  apply (try_from_wf pipeline_wire); [|vm_compute; reflexivity].
  apply Forall_cons_2; [apply matrix_facts_wf|apply Forall_nil_2].
Qed.

Lemma alias_graph_wf : graph_wf alias_graph.
Proof.
  apply (try_from_wf alias_wire); [|vm_compute; reflexivity].
  apply Forall_cons_2; [apply matrix_facts_wf|apply Forall_nil_2].
Qed.

(** Replaces a computed list of a concrete graph by its elements. *)
Ltac computed l :=
  let k := eval vm_compute in l in
  assert (l = k) as -> by (vm_compute; reflexivity).
Ltac each_element := repeat first [apply Forall_nil_2 | apply Forall_cons_2].

Lemma pipeline_fits : graph_fits pipeline.
Proof. constructor; [by vm_compute..|]. apply (bool_decide_eq_true_1 _). vm_compute. reflexivity. Qed.

Lemma alias_graph_fits : graph_fits alias_graph.
Proof. constructor; [by vm_compute..|]. apply (bool_decide_eq_true_1 _). vm_compute. reflexivity. Qed.

Lemma pipeline_runnable : graph_runnable (contiguous_supported no_conversions) pipeline.
Proof.
  constructor; first [computed (graph_nodes pipeline) | computed (graph_inputs pipeline)]; each_element;
    try (vm_compute; reflexivity); try exact I; split; by vm_compute.
Qed.

Lemma matrix_inputs : views_represent [matrix_facts] [graph_input_view] [graph_input_tensor].
Proof.
  apply views_represent_one; [apply matrix_facts_wf|apply view_from_boxed_wf|].
  unfold graph_input_view. rewrite view_from_boxed_slice. by split.
Qed.

Lemma alias_graph_runnable : graph_runnable (contiguous_supported no_conversions) alias_graph.
Proof.
  constructor; first [computed (graph_nodes alias_graph) | computed (graph_inputs alias_graph)];
    each_element; try (vm_compute; reflexivity); try exact I; split; by vm_compute.
Qed.

Lemma builtin_prepares :
  Prepares plain_engine (contiguous_supported no_conversions) (contiguous_meaning no_conversions).
Proof. apply builtin_engine_prepares, plain_engine_Ok. Qed.

(** ** Execution *)

(** C1: executing a well-formed graph on buffers that store the input tensors
    returns a buffer that stores the meaning of the graph's output: the
    composition of the operations, with no strides, buffers or machine integers.
    A run that does not return was cancelled or refused memory. *)
Theorem execute_host_refines avx2 engine supported meaning g inputs ins :
  Prepares engine supported meaning -> graph_wf g -> graph_fits g -> graph_runnable supported g ->
  views_represent (map input_facts (graph_inputs g)) inputs ins ->
  succeeds (execute_host avx2 engine g inputs) (fun e => exists f T,
    graph_facts g (graph_output g) = Some f /\ value_tensor meaning g ins (graph_output g) = Some T /\
    view_wf (execution_output e) /\ represents f (as_slice (execution_output e)) T).
Proof.
  intros Hp Hg Hfit Hrun Hins.
  eapply succeeds_mono; [by eapply (execute_host_correct avx2 engine supported meaning g inputs ins)|].
  intros e [(f & T & ? & ? & ? & ? & _) _ _]. eauto 6.
Qed.

Lemma execute_host_refines_witness :
  succeeds (execute_host true plain_engine pipeline [graph_input_view]) (fun e => exists f T,
    graph_facts pipeline (node_result 2) = Some f /\
    value_tensor (contiguous_meaning no_conversions) pipeline [graph_input_tensor] (node_result 2) = Some T /\
    view_wf (execution_output e) /\ represents f (as_slice (execution_output e)) T).
Proof.
  apply (execute_host_refines true plain_engine (contiguous_supported no_conversions)).
  - apply builtin_prepares.
  - apply pipeline_wf.
  - apply pipeline_fits.
  - apply pipeline_runnable.
  - apply matrix_inputs.
Defined.

(** C2: when the static analysis says the output aliases an input, the executor
    returns that very view: nothing is copied. *)
Theorem execute_host_zero_copy avx2 engine supported meaning g inputs ins i :
  Prepares engine supported meaning -> graph_wf g -> graph_fits g -> graph_runnable supported g ->
  views_represent (map input_facts (graph_inputs g)) inputs ins ->
  output_input_alias g = Some i ->
  succeeds (execute_host avx2 engine g inputs) (fun e => inputs !! i = Some (execution_output e)).
Proof.
  intros Hp Hg Hfit Hrun Hins Ha.
  eapply succeeds_mono; [by eapply (execute_host_correct avx2 engine supported meaning g inputs ins)|].
  intros e [(f & T & _ & _ & _ & _ & _ & Halias) _ _]. by apply Halias.
Qed.

Lemma execute_host_zero_copy_witness :
  succeeds (execute_host true plain_engine alias_graph [graph_input_view])
    (fun e => [graph_input_view] !! 0%nat = Some (execution_output e)).
Proof.
  apply (execute_host_zero_copy true plain_engine (contiguous_supported no_conversions)
    (contiguous_meaning no_conversions) alias_graph [graph_input_view] [graph_input_tensor] 0).
  - apply builtin_prepares.
  - apply alias_graph_wf.
  - apply alias_graph_fits.
  - apply alias_graph_runnable.
  - apply matrix_inputs.
  - vm_compute. reflexivity.
Defined.

(** C5: the reported peak stays within the bytes of all node outputs and the
    largest declared scratch, and on a graph without preparations it is exactly
    the static estimate. *)
Theorem execute_host_peak avx2 engine supported meaning g inputs ins :
  Prepares engine supported meaning -> graph_wf g -> graph_fits g -> graph_runnable supported g ->
  views_represent (map input_facts (graph_inputs g)) inputs ins ->
  succeeds (execute_host avx2 engine g inputs) (fun e =>
    peak_scratch_bytes e <= total_output_bytes g + max_scratch g /\
    (no_prepare g -> estimate_host_scratch_bytes g = Ok (peak_scratch_bytes e))).
Proof.
  intros Hp Hg Hfit Hrun Hins.
  eapply succeeds_mono; [by eapply (execute_host_correct avx2 engine supported meaning g inputs ins)|].
  intros e [_ ? ?]. by split.
Qed.

Lemma execute_host_peak_witness :
  estimate_host_scratch_bytes pipeline = Ok 4 /\
  succeeds (execute_host true plain_engine pipeline [graph_input_view]) (fun e =>
    peak_scratch_bytes e <= total_output_bytes pipeline + max_scratch pipeline /\
    (no_prepare pipeline -> estimate_host_scratch_bytes pipeline = Ok (peak_scratch_bytes e))).
Proof.
  split; [vm_compute; reflexivity|].
  apply (execute_host_peak true plain_engine (contiguous_supported no_conversions)
    (contiguous_meaning no_conversions) pipeline [graph_input_view] [graph_input_tensor]).
  - apply builtin_prepares.
  - apply pipeline_wf.
  - apply pipeline_fits.
  - apply pipeline_runnable.
  - apply matrix_inputs.
Defined.



(** Inputs of the wrong number are refused as a binding error, and a run that
    returns executed only nodes that pin the implementation this library
    provides for their operation. *)
Theorem execute_host_refusals avx2 engine g inputs :
  (length inputs <> length (graph_inputs g) -> fails (execute_host avx2 engine g inputs) Binding) /\
  (forall env t r t', execute_host avx2 engine g inputs env t = Ok (r, t') ->
     Forall (fun node => builtin_implementation (node_operation node) = Ok (node_implementation node))
       (graph_nodes g)).
Proof. split; [apply execute_host_input_count|intros; by eapply execute_host_pinned]. Qed.

(** the estimate is not an upper bound: a graph with an unused slice and a
    preparation that changes nothing has estimate 0 and peak 4, since the
    returned buffer is the external input and holds no allocation to subtract. *)
Theorem estimate_not_a_bound :
  exists g, identity_prepare_graph = Ok g /\ estimate_host_scratch_bytes g = Ok 0 /\
            identity_prepare_run = Ok 4.
Proof. exact identity_prepare_peak. Qed.

(** ** Graphs *)

(** Every graph built through successful calls on well-formed input facts is
    well formed: unique input names, edges to earlier values only, and outputs
    that are exactly the inferred ones. *)
Theorem built_graph_wf b output g : built b -> build b output = Ok g -> graph_wf g.
Proof. intros Hb. eapply build_wf, built_wf, Hb. Qed.

Definition one_input_builder : OperationGraphBuilder :=
  {| builder_inputs := [{| input_name := matrix_name; input_facts := matrix_facts |}];
     builder_input_names := {[matrix_name]}; builder_nodes := [] |}.

Lemma built_graph_wf_witness :
  graph_wf {| schema_version := 1; graph_inputs := builder_inputs one_input_builder; graph_nodes := [];
              graph_output := Input (input_from_ordinal 0) |}.
Proof.
  apply (built_graph_wf one_input_builder (Input (input_from_ordinal 0))); [|reflexivity].
  eapply (built_input _ matrix_name matrix_facts one_input_builder (Input (input_from_ordinal 0)));
    [apply built_new|apply matrix_facts_wf|vm_compute; reflexivity].
Defined.

(** A well-formed graph survives serialization although the wire form drops
    the inferred outputs: inference runs again and finds the same ones. *)
Theorem graph_wire_roundtrip g :
  graph_wf g -> OperationGraph_try_from (OperationGraph_serialize g) = Ok g.
Proof. apply graph_roundtrip. Qed.

Lemma graph_wire_roundtrip_witness :
  OperationGraph_try_from (OperationGraph_serialize pipeline) = Ok pipeline.
Proof. apply graph_wire_roundtrip, pipeline_wf. Defined.

(** The alias walk of the output ends on every well-formed graph: any number
    of rounds above the node count gives the same answer. *)
Theorem output_input_alias_terminates g fuel :
  graph_wf g -> (length (graph_nodes g) < fuel)%nat ->
  alias_loop fuel g (graph_output g) = output_input_alias g.
Proof.
  intros Hg Hf. assert (value_depth (graph_output g) <= length (graph_nodes g))%nat as Hd.
  { destruct (wf_output g Hg) as [f Hout]. destruct (graph_output g) as [i|n o]; simpl; [lia|].
    unfold graph_facts in Hout. simpl in Hout. apply bind_Some in Hout as (node & Hn & _).
    apply lookup_lt_Some in Hn. lia. }
  unfold output_input_alias. apply alias_loop_fuel; [done|lia|lia].
Qed.

Lemma output_input_alias_terminates_witness :
  alias_loop 1000 alias_graph (graph_output alias_graph) = output_input_alias alias_graph.
Proof. apply output_input_alias_terminates; [apply alias_graph_wf|vm_compute; lia]. Defined.

(** ** Liveness *)

(** on a well-formed graph whose counters fit 64 bits the accounting runs to
    the end: no value is missing, no count underflows, and the estimate stays
    within the output bytes and the largest declared scratch. *)
Theorem estimate_total g :
  graph_wf g -> graph_fits g ->
  exists n, estimate_host_scratch_bytes g = Ok n /\ n <= total_output_bytes g + max_scratch g.
Proof. apply estimate_host_scratch_bytes_total. Qed.

Lemma estimate_total_witness :
  exists n, estimate_host_scratch_bytes pipeline = Ok n /\
    n <= total_output_bytes pipeline + max_scratch pipeline.
Proof. apply estimate_total; [apply pipeline_wf|apply pipeline_fits]. Defined.

(** Dropping a live value keeps the accounting exact, reference counts, live
    bytes and peak, and frees its allocation with the last value that shares
    it. *)
Theorem remove_value_exact s v lv :
  ledger None s -> values s !! v = Some lv ->
  exists s', remove_value s v = Ok s' /\ ledger None s' /\ values s' = delete v (values s) /\
    live_bytes s' <= live_bytes s /\ peak_bytes s' = peak_bytes s /\
    (forall a, is_Some (allocations s' !! a) -> exists w lw, values s' !! w = Some lw /\
       live_allocation lw = Some a).
Proof.
  intros Hl Hv. destruct (remove_value_spec s v lv Hl Hv) as (s' & Hr & Hl' & Hvs & _ & _ & Hb & Hp).
  exists s'. split_and!; try done. intros a [al Ha].
  pose proof (ledger_references _ _ Hl' a al Ha) as Hrefs.
  pose proof (ledger_used _ _ Hl' a al Ha ltac:(done)) as Hused.
  destruct (decide (holders (values s') a = ∅)) as [E|E].
  { rewrite E, map_size_empty in Hrefs. lia. }
  apply map_choose in E as (w & lw & Hw). apply map_lookup_filter_Some in Hw as [Hw Hwa]. eauto.
Qed.

(** Two values that share one allocation of six bytes. *)
Definition shared_schedule : LivenessSchedule :=
  {| remaining_uses := ∅;
     values := {[node_result 0 := {| live_allocation := Some 0 |};
                 node_result 1 := {| live_allocation := Some 0 |}]};
     allocations := {[0 := {| allocation_bytes := 6; references := 2 |}]};
     next_allocation := 1; live_bytes := 6; peak_bytes := 6 |}.

Lemma shared_ledger : ledger None shared_schedule.
Proof.
  constructor; simpl.
  - intros a al [<- <-]%lookup_singleton_Some. vm_compute. reflexivity.
  - by intros a al [<- <-]%lookup_singleton_Some _.
  - intros v lv a Hv Ha. exists {| allocation_bytes := 6; references := 2 |}.
    apply lookup_insert_Some in Hv as [[<- <-]|[_ [<- <-]%lookup_singleton_Some]];
      injection Ha as <-; apply lookup_singleton_Some; done.
  - intros a [al [<- <-]%lookup_singleton_Some]. lia.
  - vm_compute. reflexivity.
  - lia.
Qed.

Lemma remove_value_exact_witness :
  exists s', remove_value shared_schedule (node_result 0) = Ok s' /\ ledger None s'.
Proof.
  destruct (remove_value_exact shared_schedule (node_result 0) {| live_allocation := Some 0 |})
    as (s' & Hr & Hl & _); [apply shared_ledger|vm_compute; reflexivity|].
  exists s'. split; [exact Hr|exact Hl].
Defined.
