(* ===== verification/PipelineTheorems.v ===== *)
(** * Properties of the delivery pipeline *)

From S2P Require Import Prelude Errors Cancel Limits Pipeline PipelineRun PipelineSpecs.
From S2P Require Import PipelineOrder PipelineProgress PipelineDelivery.
Local Open Scope N_scope.

(** ** Examples *)

(** Two items over one worker, given out of order. *)
Definition small_limits : ExecutionLimits :=
  {| workers := 1; max_work_items := 4; delivery_queue_depth := 1; dispatch_lookahead := 2;
     source_bytes := 6; scratch_bytes := 10; prepared_bytes := 20 |}.
Definition first_item {T} (v : T) : WorkItem T :=
  {| ordinal := 0; value := v; resources := ResourceWeights_new 0 0 8 |}.
Definition second_item {T} (v : T) : WorkItem T :=
  {| ordinal := 1; value := v; resources := ResourceWeights_new 6 0 6 |}.
Definition small_work : list (WorkItem unit) := [second_item tt; first_item tt].
Definition small_sorted : list (WorkItem unit) := [first_item tt; second_item tt].
Definition one_byte : PreparedItem unit := {| prepared_value := tt; bytes := 1 |}.
Definition plain_prepare (n : N) (v : unit) : Callback unit :=
  Poll (fun c => Done (if c : bool then inr Cancelled else inl one_byte)).
(** The first item finds its cache entry missing and asks for source bytes. *)
Definition deferring_prepare (n : N) (v : unit) : Callback unit :=
  if n =? 0 then WithResources (ResourceWeights_new 2 0 8) (Done (inl one_byte)) Done
  else Done (inl one_byte).
Definition any_sink (d : list (N * PreparedItem unit)) (n : N) (p : PreparedItem unit)
  : unit + ErrorCategory := inl tt.
Definition calm : Env := {| fired := fun _ => false; grants := fun _ _ => true; place := fun _ => 0 |}.

Lemma small_limits_ok : limits_ok small_limits.
Proof. split; vm_compute; done. Defined.

Lemma small_admitted : admit_work small_limits small_work calm 0%nat = Ok (small_sorted, 7%nat).
Proof. vm_compute. reflexivity. Defined.

Lemma small_prepares : Forall2 (prepares plain_prepare) small_sorted [one_byte; one_byte].
Proof. repeat constructor; vm_compute; done. Defined.

Lemma any_sink_accepts {T} (work : list (WorkItem T)) results : accepts any_sink work results.
Proof. done. Defined.

Lemma threads_steps {T U} limits (prepare : N -> T -> Callback U) sink ordinals s s' :
  rtc (thread_step limits prepare sink ordinals) s s' -> rtc (step limits prepare sink ordinals) s s'.
Proof. induction 1; [apply rtc_refl|]. eapply rtc_l; [by apply step_thread|done]. Qed.

(** ** A run that waits for itself *)

(** One action of the dispatcher, or of the only worker. *)
Ltac dispatcher_acts tac :=
  eapply rtc_l; [eapply step_dispatcher; [reflexivity|tac; reflexivity]|
    cbn [with_dispatcher shared mode dispatcher start]].
Ltac worker_acts tac :=
  eapply rtc_l; [eapply (step_worker _ _ _ _ _ 0); [reflexivity|reflexivity|tac; reflexivity]|
    cbn [with_worker shared mode worker_threads]].

Section Waiting.
Context {T U : Type} (prepare : N -> T -> Callback U).
Context (sink : list (N * PreparedItem U) -> N -> PreparedItem U -> unit + ErrorCategory).
Context (v0 v1 : T) (operation : Callback U) (k : Outcome U -> Callback U).

(** The second item is queued with all source bytes, the worker needs two. *)
Definition waiting_state : State T U :=
  {| shared := {| budget := {| used := ResourceWeights_new 6 0 14; peaks := ResourceWeights_new 6 0 14 |};
                  window := 2; cancelled := false;
                  work_queue := [{| item := second_item v1; queued_reservation := ResourceWeights_new 6 0 6 |}];
                  work_sender := false; work_receivers := 1; output_queue := [];
                  output_senders := 1; output_receiver := true |};
     dispatcher := running Dispatched;
     worker_threads :=
       [running (WaitResources 0 (PrepareContext_new (ResourceWeights_new 0 0 8)) []
          (ResourceWeights_new 2 0 8) (ResourceWeights_new 2 0 0) operation k)];
     coordinator := running ReceiveOutput;
     ledger := {| pending := ∅; next_index := 0; delivered := [] |} |}.

Lemma waiting_reachable :
  prepare 0 v0 = WithResources (ResourceWeights_new 2 0 8) operation k ->
  rtc (thread_step small_limits prepare sink [0; 1])
    (start small_limits [0; 1] [first_item v0; second_item v1]) waiting_state.
Proof using Type.
  intros Hk.
  dispatcher_acts ltac:(apply dispatch_next).
  dispatcher_acts ltac:(eapply dispatch_window).
  dispatcher_acts ltac:(eapply dispatch_budget).
  dispatcher_acts ltac:(eapply dispatch_send; [discriminate|]).
  worker_acts ltac:(eapply worker_receive).
  worker_acts ltac:(eapply worker_start).
  cbn [first_item cancelled ordinal item value]. rewrite Hk.
  worker_acts ltac:(eapply worker_defer).
  dispatcher_acts ltac:(apply dispatch_next).
  dispatcher_acts ltac:(eapply dispatch_window).
  dispatcher_acts ltac:(eapply dispatch_budget).
  dispatcher_acts ltac:(eapply dispatch_send; [discriminate|]).
  dispatcher_acts ltac:(apply dispatch_end).
  dispatcher_acts ltac:(apply dispatch_drop_sender).
  apply rtc_refl.
Qed.

Lemma waiting_stops s' : ~ thread_step small_limits prepare sink [0; 1] waiting_state s'.
Proof using Type.
  intros Hs. inversion Hs as [? r rs Hr|? h rs m Hr Hd|? i t r rs Hi Hr|? i t h rs m Hi Hr Hw|
    ? r rs Hr|? h l rs m Hr Hc]; subst; try done.
  - inversion Hd.
  - destruct i as [|i]; [|done]. injection Hi as <-. done.
  - destruct i as [|i]; [|done]. injection Hi as <-. inversion Hw; subst; done.
  - inversion Hc; subst; done.
Qed.

(** Such a run waits for bytes that an item still queued behind it holds: no
    thread can act, and only a cancellation ends the run. *)
Lemma waiting_starves :
  starving small_limits waiting_state /\ (forall outcome, ~ finished waiting_state outcome) /\
  delivered (ledger waiting_state) = [].
Proof using Type.
  split_and!; [|by intros o [_ [_ ?]]|done].
  split; [done|]. do 9 eexists. split_and!; [exact (eq_refl : _ !! 0%nat = Some _)|reflexivity..| |].
  - vm_compute. by split_and!.
  - reflexivity.
Qed.
End Waiting.

Definition small_waiting : State unit unit := waiting_state tt (Done (inl one_byte)) Done.

Lemma small_waiting_reachable :
  rtc (thread_step small_limits deferring_prepare any_sink [0; 1]) (start small_limits [0; 1] small_sorted)
    small_waiting.
Proof. by apply waiting_reachable. Qed.

Lemma finished_stops {T U} limits (prepare : N -> T -> Callback U) sink ordinals s outcome s' :
  finished s outcome -> ~ thread_step limits prepare sink ordinals s s'.
Proof.
  intros (Hd & Hws & Hc) Hs. assert (forall i t, worker_threads s !! i = Some t -> t = running Worked) as Hw
    by (intros i t Hi; exact (proj1 (Forall_lookup _ _) Hws i t Hi)).
  destruct Hs as [s r rs Hr|s h rs m Hr Hst|s i t r rs Hi Hr|s i t h rs m Hi Hr Hst|
    s r rs Hr|s h l rs m Hr Hst].
  - by rewrite Hd in Hr.
  - rewrite Hd in Hst. inversion Hst.
  - by rewrite (Hw i t Hi) in Hr.
  - rewrite (Hw i t Hi) in Hst. inversion Hst.
  - by rewrite Hc in Hr.
  - rewrite Hc in Hst. inversion Hst.
Qed.

(** ** Admission *)

(** [execute] starts threads only for a list that is within the limits, of
    distinct ordinals and fits the budgets item by item, and sorts it; such a
    list is refused only when the call is interrupted. *)
Theorem admit_work_exact {T} limits (work : list (WorkItem T)) env t :
  (forall sorted t', admit_work limits work env t = Ok (sorted, t') ->
     admissible limits work /\ Permutation sorted work /\ StronglySorted N.le (map ordinal sorted)) /\
  (admissible limits work -> quiet env ->
     exists sorted t', admit_work limits work env t = Ok (sorted, t')).
Proof.
  split.
  - intros sorted t' [Ha ->]%admit_work_Ok.
    split_and!; [done|apply merge_sort_Permutation|apply sorted_ordinals].
  - intros Ha Hq.
    destruct (succeeds_quiet _ _ env t (admit_work_succeeds limits work Ha) Hq) as (w & t' & H & _).
    by exists w, t'.
Qed.

(** ** Runs *)

Section Runs.
Context {T U : Type} (limits : ExecutionLimits) (prepare : N -> T -> Callback U).
Context (sink : list (N * PreparedItem U) -> N -> PreparedItem U -> unit + ErrorCategory).
Context (env : Env) (t : nat) (work sorted : list (WorkItem T)) (t' : nat).
Let ordinals := map ordinal sorted.

(** C15: Whatever the threads and the callbacks do, the bytes in use are those
    that permits hold and stay within the limits, the dispatch window counts the
    items in flight and stays within the lookahead, fewer outputs than the
    lookahead wait for an earlier one, and a run that has ended holds nothing. *)
Theorem pipeline_budgets_bounded s
  (Hlimits : limits_ok limits)
  (Hadmit : admit_work limits work env t = Ok (sorted, t')) (Hwork : sorted <> [])
  (Hs : rtc (step limits prepare sink ordinals) (start limits ordinals sorted) s) :
  within (used (budget (shared s))) (budget_limit limits) /\
  within (peaks (budget (shared s))) (budget_limit limits) /\
  (forall f, f ∈ [weight_source; weight_scratch; weight_prepared] ->
     f (used (budget (shared s))) = held f 0 s) /\
  window (shared s) = held (fun _ => 0) 1 s /\
  window (shared s) <= dispatch_lookahead limits /\
  (forall n, cancelled (shared s) = false -> collecting (mode (coordinator s)) = true ->
     next_ordinal ordinals (ledger s) = Some n -> pending (ledger s) !! n = None ->
     N.of_nat (size (pending (ledger s))) < dispatch_lookahead limits) /\
  (forall outcome, finished s outcome ->
     used (budget (shared s)) = ResourceWeights_default /\ window (shared s) = 0).
Proof using Type.
  pose proof (admitted_sound limits prepare sink env t work sorted t' s Hlimits Hadmit Hwork Hs) as Hsound.
  destruct (admitted_work _ _ _ _ _ _ Hadmit) as [Hnd _].
  pose proof (sound_budgeted _ _ _ Hsound) as [Hu [_ Hp] Hw He].
  assert (forall f, additive f -> f (used (budget (shared s))) = account f 0 (shared s)) as Hf
    by (intros f _; unfold account; lia).
  assert (window (shared s) = account (fun _ => 0) 1 (shared s)) as Hwin by (unfold account; lia).
  assert (readable (fun _ => 0) 1) as Hr1 by (split; [apply additive_none|by right]).
  assert (forall f, additive f -> readable f 0) as Hr0 by (intros f ?; split; [done|by left]).
  split_and!; [done..| | |done| |].
  - intros f Hin. assert (additive f) by
      (rewrite !elem_of_cons in Hin; destruct Hin as [->|[->|[->|Hin]]]; [auto with pipeline..|inversion Hin]).
    rewrite Hf by done. by apply He, Hr0.
  - rewrite Hwin. by apply He.
  - intros n. by apply (pending_bound limits sorted Hlimits Hnd).
  - intros outcome Hfin. split; [|rewrite Hwin; by eapply finished_held].
    assert (forall f, additive f -> f (used (budget (shared s))) = 0) as Hz.
    { intros f Hadd. rewrite Hf by done. eapply finished_held; eauto. }
    apply weights_eq; [apply (Hz _ additive_source)|apply (Hz _ additive_scratch)|
      apply (Hz _ additive_prepared)].
Qed.

(** C14: A run cannot get stuck: some thread can act, or all have ended, or a
    worker waits for deferred resources that fit the budget but are in use. *)
Theorem pipeline_progress s
  (Hlimits : limits_ok limits)
  (Hadmit : admit_work limits work env t = Ok (sorted, t')) (Hwork : sorted <> [])
  (Hs : rtc (step limits prepare sink ordinals) (start limits ordinals sorted) s) :
  (exists s', thread_step limits prepare sink ordinals s s') \/
  (exists outcome, finished s outcome) \/ starving limits s.
Proof using Type.
  destruct (admitted_work _ _ _ _ _ _ Hadmit) as [Hnd Ha].
  by apply (sound_progress limits prepare sink sorted Hlimits Hwork Ha Hnd),
    (admitted_sound limits prepare sink env t work sorted t' s Hlimits Hadmit Hwork).
Qed.


(** C13: When nothing is cancelled, every callback keeps within its item's
    resources and prepares a result that fits them, and the sink accepts the
    results in order, every interleaving can only stop after delivering all
    results in ordinal order, each once, with success. *)
Theorem pipeline_completes (results : list (PreparedItem U)) s
  (Hlimits : limits_ok limits)
  (Hadmit : admit_work limits work env t = Ok (sorted, t')) (Hwork : sorted <> [])
  (Hprepares : Forall2 (prepares prepare) sorted results)
  (Haccepts : accepts sink sorted results)
  (Hs : rtc (thread_step limits prepare sink ordinals) (start limits ordinals sorted) s) :
  (exists s', thread_step limits prepare sink ordinals s s') \/
  finished s (inl tt) /\ delivered (ledger s) = zip ordinals results.
Proof using Type.
  destruct (admitted_work _ _ _ _ _ _ Hadmit) as [Hnd Ha].
  destruct (run_healthy limits prepare sink sorted results Hprepares Hnd Haccepts Hlimits Hwork Ha s Hs)
    as [Hsound Hh].
  by apply (healthy_end limits prepare sink sorted results Hprepares Hnd Haccepts Hlimits Hwork Ha).
Qed.
End Runs.

Lemma pipeline_budgets_bounded_witness :
  used (budget (shared small_waiting)) = ResourceWeights_new 6 0 14 /\
  (forall f, f ∈ [weight_source; weight_scratch; weight_prepared] ->
     f (used (budget (shared small_waiting))) = held f 0 small_waiting).
Proof.
  split; [reflexivity|].
  apply (pipeline_budgets_bounded small_limits deferring_prepare any_sink calm 0 small_work small_sorted 7
    small_waiting small_limits_ok small_admitted ltac:(discriminate)
    (threads_steps _ _ _ _ _ _ small_waiting_reachable)).
Defined.

Lemma pipeline_progress_witness : starving small_limits small_waiting.
Proof.
  destruct (pipeline_progress small_limits deferring_prepare any_sink calm 0 small_work small_sorted 7
    small_waiting small_limits_ok small_admitted ltac:(discriminate)
    (threads_steps _ _ _ _ _ _ small_waiting_reachable)) as [[s' Hs]|[[o (_ & _ & Ho)]|H]].
  - exfalso. by apply (waiting_stops deferring_prepare any_sink tt (Done (inl one_byte)) Done s').
  - discriminate Ho.
  - exact H.
Defined.

Lemma pipeline_completes_witness :
  exists s : State unit unit, finished s (inl tt) /\ delivered (ledger s) = [(0, one_byte); (1, one_byte)].
Proof.
  destruct (completed_run small_limits plain_prepare any_sink small_sorted [one_byte; one_byte]
    small_prepares (proj1 (admitted_work small_limits calm 0 small_work small_sorted 7 small_admitted))
    (any_sink_accepts _ _) small_limits_ok ltac:(discriminate)
    (proj2 (admitted_work small_limits calm 0 small_work small_sorted 7 small_admitted))) as (s & Hr & Hf & _).
  exists s. split; [exact Hf|].
  destruct (pipeline_completes small_limits plain_prepare any_sink calm 0 small_work small_sorted 7
    [one_byte; one_byte] s small_limits_ok small_admitted ltac:(discriminate) small_prepares
    (any_sink_accepts _ _) Hr) as [[s' Hs]|[_ Hd]]; [|exact Hd].
  exfalso. by eapply finished_stops.
Defined.

(** Whatever a call returns, the sink has accepted a prefix of the items in
    ordinal order, none twice; on success it has accepted all of them. *)
Theorem execute_delivers_in_order {T U} limits (prepare : N -> T -> Callback U) sink env t
    (work : list (WorkItem T)) outcome d
  (Hlimits : limits_ok limits)
  (H : executes limits prepare sink env t work outcome d) :
  let ordinals := map ordinal (merge_sort ordinal_le work) in
  map fst d `prefix_of` ordinals /\ StronglySorted N.le ordinals /\
  NoDup (map fst d) /\ (outcome = inl tt -> map fst d = ordinals /\ Permutation ordinals (map ordinal work)).
Proof.
  destruct (executes_ordered limits prepare sink env t work outcome d Hlimits H) as (Hp & Hn & Ho).
  pose proof (merge_sort_Permutation ordinal_le work) as Hperm. cbv zeta.
  split_and!; [done|apply sorted_ordinals| |intros E; split; [by apply Ho|by rewrite Hperm]].
  destruct d as [|x d]; [constructor|]. destruct Hp as [k Hk].
  specialize (Hn ltac:(done)). rewrite <-Hperm, Hk in Hn. by apply NoDup_app in Hn as [? _].
Qed.

Lemma execute_delivers_in_order_witness :
  exists d, executes small_limits plain_prepare any_sink calm 0 small_work (inl tt) d /\
    map fst d = [0; 1].
Proof.
  destruct (completed_run small_limits plain_prepare any_sink small_sorted [one_byte; one_byte]
    small_prepares (proj1 (admitted_work small_limits calm 0 small_work small_sorted 7 small_admitted))
    (any_sink_accepts _ _) small_limits_ok ltac:(discriminate)
    (proj2 (admitted_work small_limits calm 0 small_work small_sorted 7 small_admitted))) as (s & Hr & Hf & _).
  assert (executes small_limits plain_prepare any_sink calm 0 small_work (inl tt) (delivered (ledger s))) as H.
  { eapply executes_threads; [exact small_admitted|discriminate|by apply threads_steps|exact Hf]. }
  exists (delivered (ledger s)). split; [exact H|].
  destruct (execute_delivers_in_order small_limits plain_prepare any_sink calm 0 small_work (inl tt)
    (delivered (ledger s)) small_limits_ok H) as (_ & _ & _ & Hd).
  destruct (Hd eq_refl) as [-> _]. reflexivity.
Defined.
