(* ===== verification/ContainerTheorems.v ===== *)
(** * Properties of containers, descriptors and inventories *)

From S2P Require Import Prelude Errors Cancel Tensor Identity Order Limits Representation.
From S2P Require Import Quantization Inventory.
From S2P Require Import Cast FileReader Gguf ReaderSpecs GgufSpecs.
From Stdlib Require Strings.String.
Local Open Scope N_scope.

(** ** A small container *)

(** A file that serves every read in full. *)
Definition memory_file (bs : bytes) : File :=
  {| contents := bs; read_at offset length := Ok (N.min length (N.of_nat (List.length bs) - offset)) |}.

Lemma memory_file_ok bs : file_ok (memory_file bs).
Proof.
  split; cbn [memory_file read_at contents].
  - intros off len n [= <-]. lia.
  - intros off len [= H]. lia.
  - done.
Qed.

Lemma memory_file_readable bs :
  N.of_nat (length bs) <= isize_MAX -> file_readable (memory_file bs) (N.of_nat (length bs)).
Proof. intros H. split; [intros off len; by eexists|]. split; [cbn; lia|done]. Qed.

Definition small_header : GgufHeader := {|
  header_version := 3;
  header_entries := [("general.alignment", GgufU32 64);
                     ("names", GgufArrayValue (Strings ["a"; "b"]))];
  header_tensors := [{| raw_name := "w"; dimensions := [32; 1]; ggml_type := 8; relative_offset := 64 |};
                     {| raw_name := "b"; dimensions := [3]; ggml_type := 0; relative_offset := 0 |}]
|}.

Definition small_file : File :=
  memory_file (encode_header small_header ++ replicate (N.to_nat (header_data_base small_header - header_length small_header + 98)) Byte.x00).

Definition small_tensors : list TensorRecord :=
  [{| record_name := "w"; record_shape := [1; 32];
      record_storage := gguf_descriptor (from_ordinal 0) (header_data_base small_header + 64) Ggml_Q8_0 [1; 32] |};
   {| record_name := "b"; record_shape := [3];
      record_storage := gguf_descriptor (from_ordinal 0) (header_data_base small_header) Ggml_F32 [3] |}].

Definition small_size : N := N.of_nat (length (contents small_file)).

Lemma small_container :
  container_ok small_file (from_ordinal 0) small_size ResourceLimits_default small_header small_tensors.
Proof.
  split.
  - split; [done|done| |by exists 6|].
    + split; [done|]. split; [|apply (bool_decide_unpack _); vm_compute; exact I].
      repeat constructor; try done. all: vm_compute; done.
    + repeat constructor; try done; vm_compute; done.
  - exists (replicate (N.to_nat (header_data_base small_header - header_length small_header + 98)) Byte.x00). done.
  - done.
  - done.
  - done.
  - split.
    + repeat constructor; try done; vm_compute; done.
    + intros [|[|i]] [|[|j]] x y; cbn; intros [= <-] [= <-] ?; try done; unfold range_disjoint; first [left; by vm_compute|right; by vm_compute].
Qed.

(** ** GGUF *)

(** C22: whatever the file holds, [parse] does not panic, and the metadata and
    tensors it returns are those of a container the file starts with: its
    tensors lie in the data section, aligned, inside the file and without
    overlap. *)
Theorem parse_sound f file_id size limits :
  file_ok f -> size <= u64_MAX ->
  wp (parse f file_id size limits) (fun res =>
    match res with
    | Ok (md, ts) => exists h,
        container_ok f file_id size limits h ts /\ md = header_metadata_value h /\
        (forall t, t ∈ ts -> header_data_base h <= fst (record_range t) /\
           fst (record_range t) mod header_alignment h = 0 /\ snd (record_range t) <= size) /\
        ranges_disjoint (map record_range ts)
    | Err _ => True
    | Panic => False
    end).
Proof.
  intros Hf Hs. eapply wp_mono; [by apply parse_spec|]. intros [[md ts]|e|]; [|done..].
  intros (h & Hc & ->). exists h. pose proof Hc as [_ _ _ _ _ [Hrec Hdis]]. split_and!; [done..| |done].
  intros t Ht. apply list_elem_of_lookup in Ht as [i Ht].
  destruct (Forall2_lookup_r _ _ _ _ _ Hrec Ht) as (raw & _ & [Hal _ _ _ Hst Hin]).
  apply gguf_storage_span in Hst as [Hoff _]. unfold record_range in *. cbn [fst snd] in *. rewrite Hoff.
  split_and!; [lia| |by rewrite <-Hoff].
  unfold header_data_base. by rewrite N.add_comm, N.Div0.mod_add.
Qed.

Lemma parse_sound_witness :
  file_ok small_file /\ small_size <= u64_MAX /\
  wp (parse small_file (from_ordinal 0) small_size ResourceLimits_default)
    (fun res => res <> Panic).
Proof.
  split; [apply memory_file_ok|]. split; [done|].
  eapply wp_mono; [apply (parse_sound small_file); [apply memory_file_ok|done]|]. by intros [[]| |].
Defined.

(** C21: a readable file that starts with a container is accepted, and parsing
    returns the entries and tensors that were encoded. *)
Theorem parse_complete f file_id size limits h ts :
  file_ok f -> size <= u64_MAX -> file_readable f size -> container_ok f file_id size limits h ts ->
  succeeds (parse f file_id size limits) (fun r => r = (header_metadata_value h, ts)).
Proof.
  intros Hf Hs Hr Hc. eapply wp_mono; [by apply parse_spec|]. intros [[md ts']|e|]; [| |done].
  - intros (h' & Hc' & ->). eexists. split; [done|]. pose proof Hc as [Hh Hp _ _ _ [Hl _]].
    pose proof Hc' as [Hh' Hp' _ _ _ [Hl' _]].
    destruct (header_unique limits f h h') as [[= H1 H2 H3 H4] H5]; [done..|].
    unfold header_metadata_value. rewrite H1, H2, H3. f_equal.
    unfold header_data_base, header_length in *. rewrite H3, H4, H5 in Hl. by eapply record_ok_unique.
  - intros Hno. by destruct (Hno Hr h ts).
Qed.

Lemma parse_complete_witness :
  container_ok small_file (from_ordinal 0) small_size ResourceLimits_default small_header small_tensors /\
  succeeds (parse small_file (from_ordinal 0) small_size ResourceLimits_default)
    (fun r => r = (header_metadata_value small_header, small_tensors)).
Proof.
  split; [exact small_container|]. apply parse_complete; [apply memory_file_ok|done| |exact small_container].
  by apply memory_file_readable.
Defined.

(** C25: the reader returns the next bytes of the file whatever its buffer holds
    and however short the reads of the file are, and then stands behind them. *)
Theorem read_bytes_exact r n :
  reader_ok r -> readable r -> offset r + n <= file_size r -> offset r + n <= limit r ->
  succeeds (read_bytes n r) (fun '(bs, r') =>
    bs = slice (contents (file r)) (offset r) n /\ advanced r r' n).
Proof.
  intros Hok Hrd Hs Hl. pose proof (slice_length (contents (file r)) (offset r) n) as Hlen.
  specialize (Hlen ltac:(destruct Hrd; lia)).
  eapply wp_mono; [apply (parses_run _ _ _ (parses_read_bytes (fun _ => True) n) r Hok I)|].
  intros [[bs r']|e|]; [| |done].
  - intros (bs' & [-> Hbs] & Hp & Hadv). eexists. split; [done|]. rewrite Hbs, N2Nat.id in Hadv. split; [|done].
    rewrite <-(prefix_slice _ _ _ Hp), Hbs, N2Nat.id. done.
  - intros Hno. destruct (Hno Hrd (slice (contents (file r)) (offset r) n) _ (conj eq_refl Hlen)).
    + apply slice_prefix.
    + unfold fits. rewrite Hlen. lia.
Qed.

(** A file that serves at most three bytes at a time. *)
Definition slow_file (bs : bytes) : File :=
  {| contents := bs;
     read_at offset length := Ok (N.min (N.min length 3) (N.of_nat (List.length bs) - offset)) |}.

Lemma slow_file_ok bs : file_ok (slow_file bs).
Proof.
  split; cbn [slow_file read_at contents].
  - intros off len n [= <-]. lia.
  - intros off len [= H]. lia.
  - done.
Qed.

Lemma read_bytes_exact_witness :
  let r := Reader_new (slow_file MAGIC) 4 4 in
  reader_ok r /\ readable r /\
  succeeds (read_bytes 4 r) (fun '(bs, r') => bs = slice MAGIC 0 4 /\ advanced r r' 4).
Proof.
  assert (reader_ok (Reader_new (slow_file MAGIC) 4 4)) as Hok.
  { by apply Reader_new_ok; [apply slow_file_ok|]. }
  assert (readable (Reader_new (slow_file MAGIC) 4 4)) as Hrd.
  { split; [intros off len; by eexists|done|done]. }
  split; [done|]. split; [done|]. by apply (read_bytes_exact (Reader_new (slow_file MAGIC) 4 4) 4).
Defined.

(** For a shape with elements, a storage type is accepted exactly when its
    blocks tile the rows and the span fits, and the descriptor's length is that
    of the blocks. *)
Theorem gguf_storage_exact file off shape t s :
  prefix_products_fit 1 shape = true -> prodN shape <> 0 -> N.of_nat (length shape) <= u32_MAX ->
  gguf_storage file off shape (ggml_code t) = Ok s <->
  s = gguf_descriptor file off t shape /\ off + ggml_length t shape <= u64_MAX /\
  (ggml_dtype t = None -> rows_ok t shape).
Proof.
  intros Hfit Hnz Hrank. split.
  - intros (t' & Ht & -> & Hle & Hrows)%gguf_storage_Ok.
    assert (t' = t) as -> by (assert (Ok t' = Ok t) as [=] by (by rewrite <-(proj2 (ggml_from_code_Ok _ t') Ht),
      (proj2 (ggml_from_code_Ok _ t) eq_refl)); done).
    split_and!; [done..|]. intros Hd. by apply Hrows.
  - intros (-> & Hle & Hrows). by apply gguf_storage_complete.
Qed.

Lemma gguf_storage_exact_witness :
  prefix_products_fit 1 [1; 32] = true /\
  gguf_storage (from_ordinal 0) 0 [1; 32] 8 = Ok (gguf_descriptor (from_ordinal 0) 0 Ggml_Q8_0 [1; 32]).
Proof.
  split; [done|]. apply (gguf_storage_exact (from_ordinal 0) 0 [1; 32] Ggml_Q8_0); [done..|].
  split; [done|]. split; [done|]. intros _. by exists 32.
Defined.

(** For a power of two, alignment rounds up to the least multiple, or
    reports that the sum does not fit. *)
Theorem align_up_least v k r :
  align_up v (2 ^ k) = Ok r ->
  v <= r /\ r mod 2 ^ k = 0 /\ (forall m, v <= m -> m mod 2 ^ k = 0 -> r <= m).
Proof.
  assert (0 < 2 ^ k) as Hk by (apply N.neq_0_lt_0; by apply N.pow_nonzero).
  intros [-> _]%align_up_Ok. destruct (ceil_div_spec v (2 ^ k) Hk) as [H1 H2].
  split_and!; [done|apply N.Div0.mod_mul|]. intros m Hm Hmod.
  apply N.Div0.div_exact in Hmod. revert Hm Hmod H1 H2.
  generalize (ceil_div v (2 ^ k)) (m / 2 ^ k). revert Hk. generalize (2 ^ k). intros a Ha q p Hm -> H1 H2.
  rewrite (N.mul_comm a). apply N.mul_le_mono_r. assert (q * a < (p + 1) * a) as Hlt by lia.
  apply N.mul_lt_mono_pos_r in Hlt; lia.
Qed.

Lemma align_up_least_witness : align_up 33 (2 ^ 5) = Ok 64 /\ 33 <= 64.
Proof. split; [reflexivity|]. by apply (align_up_least 33 5 64). Defined.

(** ** Descriptors *)

(** the builder accepts exactly the payloads of the packed length, axes
    inside the shape, and distinct roles that all have one companion; what it
    builds keeps the arguments, with the roles sorted. *)
Theorem build_storage_exact b s :
  build_storage b = Ok s <->
  validate_shape_and_packing (builder_shape b) (builder_payload b) (builder_packing b) = Ok tt /\
  (forall g, builder_grouping b = Some g ->
     grouping_axis g < N.of_nat (length (builder_shape b)) /\ grouping_axis g <= usize_MAX) /\
  NoDup (builder_required b) /\ NoDup (map role (builder_companions b)) /\
  builder_required b ⊆ map role (builder_companions b) /\
  s = {| schema_version := QUANTIZED_STORAGE_SCHEMA_VERSION; encoding := builder_encoding b;
         logical_shape := builder_shape b; payload := builder_payload b;
         packing := builder_packing b; grouping := builder_grouping b;
         required_companions := sort_unstable (builder_required b);
         companions := list_to_map (map (fun c => (role c, companion_tensor c)) (builder_companions b));
         metadata := builder_metadata b |}.
Proof. apply build_storage_Ok. Qed.

(** A packed payload has as many bytes as the blocks that hold its values,
    row by row when the blocks follow an axis. *)
Theorem packed_payload_length shape span block u :
  0 < values_per_block block ->
  validate_shape_and_packing shape span (Blocks block) = Ok u ->
  span_length span = packed_bytes block shape /\
  (forall a, order block = Axis a -> a < N.of_nat (length shape)).
Proof.
  intros Hb Hv. destruct (validate_shape_and_packing_Ok _ _ _ _ Hv Hb) as [Hl Ha].
  split; [done|]. intros a Ho. by rewrite Ho in Ha.
Qed.

Lemma packed_payload_length_witness :
  let span := {| span_file := from_ordinal 0; span_offset := 0; span_length := 2 * 2 * 18 |} in
  let block := {| values_per_block := 32; bytes_per_block := 18; order := Axis 1 |} in
  validate_shape_and_packing [2; 33] span (Blocks block) = Ok tt /\
  span_length span = packed_bytes block [2; 33].
Proof.
  split; [reflexivity|].
  by apply (packed_payload_length [2; 33] {| span_file := from_ordinal 0; span_offset := 0; span_length := 2 * 2 * 18 |}
    {| values_per_block := 32; bytes_per_block := 18; order := Axis 1 |} tt).
Defined.

(** the wire form of a descriptor is read back unchanged, and whatever is
    read back is a valid descriptor. *)
Theorem quantized_wire_roundtrip b s w s' :
  build_storage b = Ok s -> QuantizedStorage_try_from w = Ok s' ->
  QuantizedStorage_try_from s = Ok s /\ storage_wf s' /\ QuantizedStorage_try_from s' = Ok s'.
Proof.
  intros Hb%build_storage_wf Hw%QuantizedStorage_try_from_Ok.
  split; [by apply QuantizedStorage_try_from_wf|]. split; [done|]. by apply QuantizedStorage_try_from_wf.
Qed.

Definition small_builder : QuantizedStorageBuilder :=
  foldl apply_storage_setting
    (storage_builder (ggml_implementation Ggml_Q8_0) [1; 32]
       {| span_file := from_ordinal 0; span_offset := 0; span_length := 34 |}
       (Blocks {| values_per_block := 32; bytes_per_block := 34; order := Axis 1 |}))
    [SetGrouping {| grouping_axis := 1; values_per_group := 32 |}].

Definition small_storage : QuantizedStorage := {|
  schema_version := 1; encoding := ggml_implementation Ggml_Q8_0; logical_shape := [1; 32];
  payload := {| span_file := from_ordinal 0; span_offset := 0; span_length := 34 |};
  packing := Blocks {| values_per_block := 32; bytes_per_block := 34; order := Axis 1 |};
  grouping := Some {| grouping_axis := 1; values_per_group := 32 |};
  required_companions := []; companions := ∅; metadata := ∅ |}.

Lemma quantized_wire_roundtrip_witness :
  build_storage small_builder = Ok small_storage /\
  QuantizedStorage_try_from small_storage = Ok small_storage.
Proof.
  assert (build_storage small_builder = Ok small_storage) as H1 by reflexivity.
  assert (QuantizedStorage_try_from small_storage = Ok small_storage) as H2 by reflexivity.
  split; [exact H1|]. exact (proj1 (quantized_wire_roundtrip small_builder small_storage small_storage small_storage H1 H2)).
Defined.

(** a set of capabilities has no duplicates and does not depend on the
    order they were declared in. *)
Theorem capability_set_canonical cs cs' s :
  CapabilitySet_new cs = Ok s -> Permutation cs cs' ->
  CapabilitySet_new cs' = Ok s /\ NoDup (capabilities s) /\ Permutation (capabilities s) cs /\
  CapabilitySet_try_from (capabilities s) = Ok s.
Proof.
  intros [Hn ->]%CapabilitySet_new_Ok Hp. cbn [capabilities].
  assert (NoDup (sort_unstable cs)) as Hns by (by rewrite sort_unstable_Permutation).
  split_and!; [|done|apply sort_unstable_Permutation|].
  - apply CapabilitySet_new_Ok. split; [by rewrite <-Hp|]. f_equal. by apply sort_unstable_unique.
  - apply CapabilitySet_new_Ok. split; [done|]. f_equal. symmetry. apply sort_unstable_id, sort_unstable_sorted.
Qed.

Definition small_capability (r : QuantizedRoute) : RouteCapability := {|
  source_encoding := ggml_implementation Ggml_Q8_0; route := r;
  capability_implementation := ggml_implementation Ggml_Q4_0; backend := None; target_layout := None |}.

Lemma capability_set_canonical_witness :
  CapabilitySet_new [small_capability PackedDirect; small_capability (HostDequant F32)] =
    Ok {| capabilities := [small_capability (HostDequant F32); small_capability PackedDirect] |} /\
  CapabilitySet_new [small_capability (HostDequant F32); small_capability PackedDirect] =
    Ok {| capabilities := [small_capability (HostDequant F32); small_capability PackedDirect] |}.
Proof.
  assert (CapabilitySet_new [small_capability PackedDirect; small_capability (HostDequant F32)] =
    Ok {| capabilities := [small_capability (HostDequant F32); small_capability PackedDirect] |}) as H
    by reflexivity.
  split; [exact H|].
  apply (capability_set_canonical [small_capability PackedDirect; small_capability (HostDequant F32)]);
    [exact H|constructor].
Defined.

(** ** Inventories *)

(** An inventory is built exactly from files numbered in the strict order
    of their paths and from tensors with distinct names, lengths that match
    their shapes and spans inside their files; it lists the tensors by name. *)
Theorem Inventory_new_exact fs ts i :
  Inventory_new fs ts = Ok i <->
  files_ok fs /\ NoDup (inventory_names ts) /\ Forall (tensor_ok fs) ts /\
  i = {| files := fs; tensors := merge_sort name_le ts |}.
Proof. apply Inventory_new_Ok. Qed.

(** Lookup in an inventory finds the tensor of a name, and the wire form
    is read back unchanged. *)
Theorem inventory_lookup_roundtrip fs ts i :
  Inventory_new fs ts = Ok i ->
  (forall n t, inventory_tensor i n = Some t <-> t ∈ ts /\ record_name t = n) /\
  Inventory_try_from i = Ok i.
Proof.
  intros H. pose proof (Inventory_new_ok _ _ _ H) as Hok. split; [|by apply Inventory_try_from_ok].
  intros n t. rewrite inventory_tensor_spec by done.
  apply Inventory_new_Ok in H as (_ & _ & _ & ->). cbn [tensors].
  by rewrite (merge_sort_Permutation name_le ts).
Qed.

Definition small_record (size : N) : FileRecord := {|
  file_id := from_ordinal 0; file_path := {| repo_path := "w.gguf" |}; record_size := size;
  file_kind := Local; file_digest := Deferred |}.

Lemma inventory_lookup_roundtrip_witness :
  Inventory_new [small_record small_size] small_tensors =
    Ok {| files := [small_record small_size]; tensors := rev small_tensors |} /\
  Inventory_try_from {| files := [small_record small_size]; tensors := rev small_tensors |} =
    Ok {| files := [small_record small_size]; tensors := rev small_tensors |}.
Proof.
  assert (Inventory_new [small_record small_size] small_tensors =
    Ok {| files := [small_record small_size]; tensors := rev small_tensors |}) as H by (vm_compute; reflexivity).
  split; [exact H|]. exact (proj2 (inventory_lookup_roundtrip _ _ _ H)).
Defined.

(** what a GGUF container holds makes an inventory of its file exactly
    when its tensors have names, all different. *)
Theorem gguf_inventory f size limits h ts path kind digest :
  container_ok f (from_ordinal 0) size limits h ts -> size <= u64_MAX ->
  let file := {| file_id := from_ordinal 0; file_path := path; record_size := size;
                 file_kind := kind; file_digest := digest |} in
  (exists i, Inventory_new [file] ts = Ok i) <->
  NoDup (map raw_name (header_tensors h)) /\ Forall (fun t => raw_name t <> "") (header_tensors h).
Proof.
  intros [_ _ _ _ _ [Hrec _]] Hs file.
  assert (files_ok [file]) as Hf.
  { split; [done| |repeat constructor]. by intros [|[|?]] g [= <-]. }
  assert (inventory_names ts = map raw_name (header_tensors h)) as Hn.
  { induction Hrec as [|raw t raws ts [_ _ Hn _ _ _] _ IH]; [done|].
    change (record_name t :: inventory_names ts = raw_name raw :: map raw_name raws). by rewrite Hn, IH. }
  assert (Forall (tensor_ok [file]) ts <-> Forall (fun t => raw_name t <> "") (header_tensors h)) as Ht.
  { clear Hn. induction Hrec as [|raw t raws ts [_ _ Hn Hsh Hst Hin] _ IH]; [by split|].
    rewrite !Forall_cons, IH. unfold tensor_ok. rewrite Hn. split; [by intros [[]]|].
    intros [Hne Hall]. split; [split; [done|]|done]. eapply gguf_tensor_ok; [exact Hst|exact Hsh|].
    exists file. rewrite (gguf_storage_file _ _ _ _ _ Hst). split; [done|]. unfold record_range in Hin. cbn [snd record_size file] in *. lia. }
  split.
  - intros [i (_ & Hd & Hok & _)%Inventory_new_Ok]. rewrite <-Hn. by rewrite <-Ht.
  - intros [Hd Hok]. eexists. apply Inventory_new_Ok. rewrite Hn, Ht. done.
Qed.

Lemma gguf_inventory_witness :
  container_ok small_file (from_ordinal 0) small_size ResourceLimits_default small_header small_tensors /\
  exists i, Inventory_new [small_record small_size] small_tensors = Ok i.
Proof.
  split; [exact small_container|].
  apply (gguf_inventory _ _ _ _ _ {| repo_path := "w.gguf" |} Local Deferred small_container); [done|].
  split; [apply (bool_decide_unpack _); vm_compute; exact I|by repeat constructor].
Defined.

(** ** Repository paths *)

(** A step of path resolution from a directory: an empty component is the root. *)
Definition walk (directory : list bytes) (component : bytes) : list bytes :=
  if bool_decide (component = []) then [] else
  if bool_decide (component = dot) then directory else
  if bool_decide (component = dot_dot) then removelast directory else directory ++ [component].

(** A repository path resolves, from any directory, to the file below it
    that its components name, and it holds no separator of another system and
    no control character. *)
Theorem RepoPath_stays_below value p directory :
  RepoPath_parse value = Ok p ->
  let bs := String.list_byte_of_string value in
  repo_path p = value /\ split_slash bs <> [] /\ join_slash (split_slash bs) = bs /\
  foldl walk directory (split_slash bs) = directory ++ split_slash bs /\
  Byte.x5c ∉ bs /\ Byte.x3a ∉ bs /\ Byte.x00 ∉ bs /\ any_control bs = false.
Proof.
  intros (Hv & Hc & H1 & H2 & H3 & H4)%RepoPath_parse_Ok bs. split_and!; try done.
  - destruct (split_slash_cons bs) as (c & rest & Hs). by rewrite Hs.
  - apply split_slash_join.
  - fold bs in Hc. revert directory. induction Hc as [|c l (Hne & Hd & Hdd) _ IH]; intros directory; cbn [foldl].
    { by rewrite app_nil_r. }
    rewrite IH. unfold walk. rewrite !bool_decide_false by done. by rewrite <-app_assoc.
Qed.

Lemma RepoPath_stays_below_witness :
  RepoPath_parse "shards/model-1.gguf" = Ok {| repo_path := "shards/model-1.gguf" |} /\
  foldl walk [] (split_slash (String.list_byte_of_string "shards/model-1.gguf")) =
    split_slash (String.list_byte_of_string "shards/model-1.gguf").
Proof.
  assert (RepoPath_parse "shards/model-1.gguf" = Ok {| repo_path := "shards/model-1.gguf" |}) as H by reflexivity.
  split; [exact H|]. by apply (RepoPath_stays_below _ _ [] H).
Defined.
