(* ===== verification/CheckpointTheorems.v ===== *)
(** * Properties of checkpoints *)

From S2P Require Import Prelude Errors Cancel Tensor Identity Order Limits Quantization.
From S2P Require Import Inventory Cast FileReader Gguf ReaderSpecs GgufSpecs.
From S2P Require Import Json Safetensors Checkpoint CheckpointSpecs LocalIndex DigestSpecs ContainerTheorems.
From Stdlib Require Strings.String.
Local Open Scope N_scope.

(** ** A small checkpoint *)

(** A handle of a file in memory. *)
Definition memory_handle (bs : bytes) : Handle := {|
  handle_file := memory_file bs;
  metadata_at _ := Ok {| meta_is_file := true; meta_len := N.of_nat (length bs); meta_modified := None |};
  map_at _ := Ok {| owner_address := 4096; owner_bytes := bs |}
|}.

Definition retained_source (name : string) (bs : bytes) : SourceDescriptor := {|
  logical_path := {| repo_path := name |}; local_path := name; opened := Ok (memory_handle bs);
  expected_size := Some (N.of_nat (length bs)); digest_policy := ComputeOnDemand;
  source_kind := RetainedSnapshot; retained_file := false; retention := true
|}.

Lemma retained_source_ok name bs : N.of_nat (length bs) <= u64_MAX -> source_ok (retained_source name bs).
Proof.
  intros Hn. split; cbn [retained_source opened]; try done; intros h; [intros [= <-]; apply memory_file_ok|..];
    intros n; [by intros [= <-]|intros m [= <-] [= <-]; exact Hn|intros o [= <-] [= <-]; done|by intros [= <-]].
Qed.

Definition small_json_text : bytes := map (fun b => if bool_decide (b = Byte.x27) then Byte.x22 else b)
  (String.list_byte_of_string
  "{'a':{'dtype':'U8','shape':[2],'data_offsets':[6,8]},'b':{'dtype':'F4','shape':[3,4],'data_offsets':[0,6]}}").

Definition small_entries : list (string * HeaderTensor) :=
  [("a", {| header_dtype := "U8"; header_shape := [2]; header_offsets := (6, 8) |});
   ("b", {| header_dtype := "F4"; header_shape := [3; 4]; header_offsets := (0, 6) |})].

(** A deserializer that knows one text. *)
Definition small_json (bs : bytes) : Document :=
  if bool_decide (bs = small_json_text) then {| document_value := header_json small_entries; document_ends := true |}
  else {| document_value := Malformed; document_ends := false |}.

Definition small_safetensors : bytes :=
  to_le_bytes 8 (N.of_nat (length small_json_text)) ++ small_json_text ++
  String.list_byte_of_string "BBBBBBAA".

Definition small_open_file : OpenFile := {|
  Checkpoint.source := retained_source "w.safetensors" small_safetensors; open_id := from_ordinal 0;
  handle := memory_handle small_safetensors; open_size := N.of_nat (length small_safetensors);
  stamp := {| stamp_length := N.of_nat (length small_safetensors); stamp_modified := None |};
  digest_cell := None; mapping_cell := None
|}.

Lemma small_open_file_wf : file_wf small_open_file.
Proof.
  split; cbn [small_open_file handle memory_handle handle_file map_at mapping_cell]; try done.
  - apply memory_file_ok.
  - intros n o [= <-]. done.
Qed.

Definition small_made : list Entry :=
  [{| entry_name := "a"; entry_shape := [2]; entry_dtype := HeaderPlain U8; entry_start := 6; entry_end := 8 |};
   {| entry_name := "b"; entry_shape := [3; 4]; entry_dtype := HeaderQuantized "f4" 2 1; entry_start := 0; entry_end := 6 |}].

Lemma small_safetensors_file :
  safetensors_file small_json small_open_file ResourceLimits_default small_entries small_json_text small_made.
Proof.
  split; try (vm_compute; done).
  - exists (String.list_byte_of_string "BBBBBBAA"). vm_compute. done.
  - split; repeat constructor; try done; vm_compute; try done. all: set_solver.
  - vm_compute (string_list _). repeat constructor; vm_compute; done.
  - exists [(0, 6); (6, 8)]. split; [constructor|vm_compute; done].
Qed.

(** ** Safetensors *)



(** C18: a Safetensors file made of an encoded header and the data it tiles opens
    when it is readable, and every tensor of the header then reads as its range of
    the data, whatever the environment, unless the call is interrupted. *)
Theorem safetensors_roundtrip json mmap b s h m l header entries e :
  sources b = [s] -> shard_index b = None -> builder_access b = Read -> 0 < max_shards (builder_limits b) ->
  source_ok s -> steady s h m ->
  slice (contents (handle_file h)) 0 4 <> MAGIC -> gguf_extension (local_path s) = false ->
  safetensors_file json (opened_file s h m (from_ordinal 0)) (builder_limits b) l header entries ->
  e ∈ entries ->
  succeeds (c ← open json b; tensor mmap c (entry_name e)) (fun '(d, _) =>
    data_record d = record_of (from_ordinal 0) (encoded_base header) e /\
    as_slice (data_bytes d) =
      slice (contents (handle_file h)) (encoded_base header + entry_start e) (entry_end e - entry_start e)).
Proof.
  intros Hb Hsh Ha Hmax Hok Hst Hmagic Hext Hfile He.
  assert (file_wf (opened_file s h m (from_ordinal 0))) as Hwf by (by apply opened_file_wf).
  apply succeeds_bind. eapply succeeds_mono; [by eapply open_encoded|]. intros c (Hi & Hf & Hac).
  assert (checkpoint_ok c) as Hc.
  { split; [|by rewrite Hi, Hf|by rewrite Hf; constructor].
    eapply Inventory_new_ok. rewrite Hi. by eapply encoded_inventory. }
  set (r := record_of (from_ordinal 0) (encoded_base header) e).
  assert (inventory_tensor (inventory c) (entry_name e) = Some r) as Hr.
  { apply inventory_tensor_spec; [apply Hc|]. rewrite Hi. cbn [tensors]. split; [|done].
    rewrite (merge_sort_Permutation name_le). apply list_elem_of_fmap. exists e. split; [done|].
    by rewrite (merge_sort_Permutation entry_le). }
  eapply wp_mono; [by apply tensor_spec|]. intros [[d c']|err|]; [| |done].
  - intros (_ & _ & Hd & g & Hg & Hv). eexists. split; [done|]. rewrite Hr in Hd. injection Hd as Hd. split; [done|].
    rewrite <-Hd in Hg, Hv. unfold r, record_of in Hg, Hv. cbn [record_storage] in Hg, Hv.
    rewrite storage_span_header in Hg, Hv. cbn [span_file ordinal] in Hg. rewrite Hf in Hg. injection Hg as <-.
    destruct Hv as [_ Hv]. exact Hv.
  - intros Hno. rewrite Hno in Hr; [done..|]. rewrite Hf. constructor; [|constructor]. apply Hst.
Qed.

Definition small_checkpoint_builder : CheckpointBuilder := {|
  sources := [retained_source "w.safetensors" small_safetensors]; shard_index := None;
  builder_limits := ResourceLimits_default; builder_access := Read
|}.

Lemma small_steady :
  steady (retained_source "w.safetensors" small_safetensors) (memory_handle small_safetensors)
    {| meta_is_file := true; meta_len := N.of_nat (length small_safetensors); meta_modified := None |}.
Proof. split; try done; [by intros n [= <-]|]. apply memory_file_readable. done. Qed.

Lemma safetensors_roundtrip_witness :
  succeeds (c ← open small_json small_checkpoint_builder; tensor true c "b") (fun '(d, _) =>
    as_slice (data_bytes d) = String.list_byte_of_string "BBBBBB").
Proof.
  eapply succeeds_mono.
  { apply (safetensors_roundtrip small_json true small_checkpoint_builder _ _ _ small_entries small_json_text small_made
      {| entry_name := "b"; entry_shape := [3; 4]; entry_dtype := HeaderQuantized "f4" 2 1; entry_start := 0; entry_end := 6 |}
      eq_refl eq_refl eq_refl eq_refl (retained_source_ok "w.safetensors" small_safetensors ltac:(done)) small_steady); try done.
    - exact small_safetensors_file.
    - right. left. }
  intros [d c] [_ ->]. vm_compute. done.
Defined.

(** ** Opening *)

(** C19: opening never panics; a checkpoint that opens holds exactly the given
    sources, in the order of their paths and with the sizes they declare, a valid
    inventory of their tensors that agrees with the shard index, and retained
    sources only when mappings are required. *)
Theorem open_sound json b :
  Forall source_ok (sources b) -> max_metadata_bytes (builder_limits b) <= usize_MAX ->
  wp (open json b) (fun r =>
    match r with
    | Ok c => checkpoint_ok c /\ Permutation (map Checkpoint.source (open_files c)) (sources b) /\
        StronglySorted ord_lt (map (fun f => logical_path (Checkpoint.source f)) (open_files c)) /\
        (forall f n, f ∈ open_files c -> expected_size (Checkpoint.source f) = Some n -> open_size f = n) /\
        (forall index, shard_index b = Some index -> shard_agrees index (inventory c)) /\
        (access c = Mmap -> forall f, f ∈ open_files c -> source_kind (Checkpoint.source f) = RetainedSnapshot)
    | Err _ => True
    | Panic => False
    end).
Proof.
  intros Hs Hm. eapply wp_mono; [by apply open_spec|]. intros [c|e|]; try done.
  intros (Hc & Hp & Hsz & Hsh & _ & Ha). split_and!; try done. destruct Hc as [[[_ _ Hsort] _ _ _] Hr _].
  rewrite Hr in Hsort. by rewrite map_map in Hsort.
Qed.

Lemma open_sound_witness :
  Forall source_ok (sources small_checkpoint_builder) /\ max_metadata_bytes ResourceLimits_default <= usize_MAX /\
  wp (open small_json small_checkpoint_builder) (fun r => r <> Panic).
Proof.
  assert (Forall source_ok (sources small_checkpoint_builder)) as H by (constructor; [by apply retained_source_ok|constructor]).
  split; [exact H|]. split; [done|]. eapply wp_mono; [apply (open_sound small_json _ H); done|]. by intros [].
Defined.

(** ** Reading *)

(** C20: the bytes of a tensor are those of its span in its file, whether they
    were read or mapped; with plain reads over readable files, only an unknown name
    is an error. *)
Theorem tensor_reads mmap c name :
  checkpoint_ok c ->
  wp (tensor mmap c name) (fun r =>
    match r with
    | Ok (d, c') => checkpoint_ok c' /\ inventory c' = inventory c /\
        inventory_tensor (inventory c) name = Some (data_record d) /\
        exists f, let span := storage_span (record_storage (data_record d)) in
          open_files c !! N.to_nat (ordinal (span_file span)) = Some f /\ view_wf (data_bytes d) /\
          as_slice (data_bytes d) = slice (contents (handle_file (handle f))) (span_offset span) (span_length span)
    | Err _ => access c = Read -> Forall (fun f => file_readable (handle_file (handle f)) (open_size f)) (open_files c) ->
        inventory_tensor (inventory c) name = None
    | Panic => False
    end).
Proof. intros Hc. by apply tensor_spec. Qed.

Definition small_inventory : Inventory := {|
  files := [open_record small_open_file];
  tensors := merge_sort name_le (encoded_records small_open_file small_json_text small_made)
|}.

Definition small_checkpoint (mode : AccessMode) : Checkpoint := {|
  inventory := small_inventory; open_files := [small_open_file]; access := mode;
  format := SafetensorsFormat; gguf_metadata := []; snapshot := None
|}.

Lemma small_checkpoint_ok mode : checkpoint_ok (small_checkpoint mode).
Proof.
  split; [|done|by constructor; [apply small_open_file_wf|]].
  eapply Inventory_new_ok. by apply (encoded_inventory _ _ _ _ _ _ small_open_file_wf eq_refl small_safetensors_file).
Qed.

Lemma tensor_reads_witness :
  checkpoint_ok (small_checkpoint Mmap) /\ wp (tensor true (small_checkpoint Mmap) "a") (fun r => r <> Panic).
Proof.
  split; [apply small_checkpoint_ok|]. eapply wp_mono; [apply (tensor_reads true _ "a" (small_checkpoint_ok Mmap))|].
  by intros [[]| |].
Defined.

(** A shard index is accepted exactly when it names every tensor of the
    inventory with the path of the file that holds it, and nothing else. *)
Theorem shard_index_exact index i :
  inventory_ok i ->
  wp (validate_shard_index index i) (fun r =>
    match r with
    | Ok _ => shard_agrees index i
    | Err _ => ~ shard_agrees index i
    | Panic => False
    end).
Proof. intros Hi. by apply validate_shard_index_spec. Qed.

Definition small_index : ShardIndex := {|
  weight_map := {["a" := {| repo_path := "w.safetensors" |}; "b" := {| repo_path := "w.safetensors" |}]}
|}.

Lemma shard_index_exact_witness :
  inventory_ok small_inventory /\
  wp (validate_shard_index small_index small_inventory) (fun r => r <> Panic).
Proof.
  pose proof (checkpoint_inventory _ (small_checkpoint_ok Read)) as Hi. split; [exact Hi|].
  eapply wp_mono; [apply (shard_index_exact small_index _ Hi)|]. by intros [].
Defined.

(** ** Digests *)

(** C24: a digest call returns the digest the policy of the source calls for,
    the declared one when the source is verified, and later calls return the same;
    over a readable file that has not changed it fails only when the bytes do not
    have the declared digest. *)
Theorem content_digest_exact sha256 f :
  file_wf f -> metadata_quiet f -> digest_cached sha256 f ->
  wp (content_digest sha256 f) (fun r =>
    match r with
    | Ok (d, f') => digest_matches sha256 f d /\ same_file f f' /\
        succeeds (content_digest sha256 f') (fun p => p = (d, f'))
    | Err _ => unchanged f -> exists expected, digest_policy (Checkpoint.source f) = VerifyOnDemand expected /\
        from_bytes (sha256 (file_bytes f)) <> expected
    | Panic => False
    end).
Proof.
  intros Hf Hm Hc. eapply wp_mono; [by apply content_digest_spec|]. intros [[d f']|e|]; [| |done].
  - intros (Hd & Hs & _ & Hcell). split_and!; [done..|]. unfold content_digest. rewrite Hcell.
    by apply succeeds_check_bind, succeeds_ret.
  - intros Hno Hu. specialize (Hno Hu). unfold digest_matches in Hno.
    destruct (digest_policy (Checkpoint.source f)) as [|expected|trusted|trusted]; [by destruct (Hno _ eq_refl)| |by destruct (Hno _ eq_refl)..].
    exists expected. split; [done|]. intros He. by destruct (Hno _ (conj eq_refl He)).
Qed.

Lemma small_settled mode : settled (fun bs => bs) (small_checkpoint mode).
Proof. split; cbn; [by repeat constructor|by repeat constructor|done]. Qed.

Lemma content_digest_exact_witness :
  file_wf small_open_file /\
  wp (content_digest (fun bs => bs) small_open_file) (fun r => r <> Panic).
Proof.
  split; [apply small_open_file_wf|].
  eapply wp_mono; [apply (content_digest_exact (fun bs => bs) _ small_open_file_wf); [by intros n|done]|].
  by intros [[]| |].
Defined.

(** What a snapshot says of a file: its path, its size and its digest. *)
Definition snapshot_entry (f : OpenFile) (d : ContentDigest) : RepoPath * N * ContentDigest :=
  (logical_path (Checkpoint.source f), open_size f, d).

(** Every digest of a checkpoint has the length of SHA-256, and every path fits. *)
Record snapshot_fits (sha256 : bytes -> bytes) (c : Checkpoint) : Prop := {
  fits_hash bs : length (sha256 bs) = 32%nat;
  fits_trusted f d : f ∈ open_files c -> digest_matches sha256 f d -> length (digest_bytes d) = 32%nat;
  fits_paths : Forall path_fits (files (inventory c))
}.

Lemma entries_fit sha256 c ds :
  checkpoint_ok c -> snapshot_fits sha256 c -> Forall2 (digest_matches sha256) (open_files c) ds ->
  Forall2 entry_fits (files (inventory c)) ds /\ N.of_nat (length (files (inventory c))) <= u32_MAX + 1.
Proof.
  intros [[[_ Hn _] _ _ _] Hr Hw] [_ Ht Hp] Hds. split.
  - rewrite Hr in *. clear Hr Hn. revert Ht Hp Hw. induction Hds as [|f d fs ds Hd _ IH]; [constructor|].
    intros Ht [Hp Hps]%Forall_cons [Hw Hws]%Forall_cons. constructor; [|apply IH; [|done..]].
    + split; [done|apply Hw|apply (Ht f); [by left|done]].
    + intros g d' Hg. apply Ht. by right.
  - destruct (files (inventory c)) as [|r rs]; [done|].
    destruct (lookup_lt_is_Some_2 (r :: rs) (length rs)) as [g Hg]; [cbn; lia|].
    destruct (Hn _ _ Hg) as [_ Hu]. cbn [length]. revert Hu. generalize u32_MAX. lia.
Qed.

(** C26: two checkpoints with one snapshot have the same files in the same
    order, with equal paths, sizes and digests, and equal bytes where the digests
    were computed; or they exhibit two inputs on which SHA-256 collides. *)
Theorem snapshot_identifies sha256 c1 c2 s c1' c2' env1 env2 t1 t2 t1' t2' :
  checkpoint_ok c1 -> checkpoint_ok c2 -> settled sha256 c1 -> settled sha256 c2 ->
  snapshot_fits sha256 c1 -> snapshot_fits sha256 c2 ->
  snapshot_id sha256 c1 env1 t1 = Ok ((s, c1'), t1') -> snapshot_id sha256 c2 env2 t2 = Ok ((s, c2'), t2') ->
  (exists ds, Forall2 (digest_matches sha256) (open_files c1) ds /\ Forall2 (digest_matches sha256) (open_files c2) ds /\
     zip_with snapshot_entry (open_files c1) ds = zip_with snapshot_entry (open_files c2) ds /\
     length (open_files c1) = length (open_files c2) /\
     (forall i f g, open_files c1 !! i = Some f -> open_files c2 !! i = Some g ->
        computed f -> computed g -> file_bytes f = file_bytes g)) \/
  exists a b, a <> b /\ sha256 a = sha256 b.
Proof.
  intros Hc1 Hc2 Hs1 Hs2 Hf1 Hf2 H1 H2.
  pose proof (snapshot_id_spec sha256 c1 Hc1 Hs1 (fits_paths _ _ Hf1) env1 t1) as R1. rewrite H1 in R1.
  pose proof (snapshot_id_spec sha256 c2 Hc2 Hs2 (fits_paths _ _ Hf2) env2 t2) as R2. rewrite H2 in R2.
  destruct R1 as (_ & _ & _ & _ & _ & ds1 & Hm1 & E1). destruct R2 as (_ & _ & _ & _ & _ & ds2 & Hm2 & E2).
  destruct (entries_fit _ _ _ Hc1 Hf1 Hm1) as [He1 Hn1]. destruct (entries_fit _ _ _ Hc2 Hf2 Hm2) as [He2 Hn2].
  rewrite E1 in E2. apply snapshot_of_inj in E2 as [[Hsame <-]|Hcol]; [|by right|done..].
  rewrite (checkpoint_records _ Hc1), (checkpoint_records _ Hc2) in Hsame.
  apply (proj1 (Forall2_fmap open_record open_record _ _ _)) in Hsame.
  destruct (same_bytes sha256 _ _ _ Hm1 Hm2) as [Hbytes|Hcol]; [|by right].
  left. exists ds1. split_and!; try done; [|exact (Forall2_length _ _ _ Hsame)].
  clear - Hsame. revert ds1. induction Hsame as [|f g fs gs [Hp Hz] _ IH]; intros [|d ds]; cbn [zip_with]; try done.
  f_equal; [|apply IH]. unfold snapshot_entry. cbn in Hp, Hz. by rewrite Hp, Hz.
Qed.

(** A function of 32 bytes that keeps the last ones. *)
Definition tail_bytes (bs : bytes) : bytes := take 32 (rev bs ++ replicate 32 Byte.x00).

Lemma tail_bytes_length bs : length (tail_bytes bs) = 32%nat.
Proof. unfold tail_bytes. rewrite length_take, length_app, length_replicate. lia. Qed.

Definition small_run : result ((SnapshotId * Checkpoint) * nat) :=
  snapshot_id tail_bytes (small_checkpoint Read) {| fired _ := false; grants _ _ := true; place _ := 0 |} 0%nat.

Lemma snapshot_identifies_witness :
  exists s c t, small_run = Ok ((s, c), t) /\
  ((exists ds, Forall2 (digest_matches tail_bytes) [small_open_file] ds) \/ exists a b, a <> b /\ tail_bytes a = tail_bytes b).
Proof.
  assert (settled tail_bytes (small_checkpoint Read)) as Hs by (split; cbn; [by repeat constructor|by repeat constructor|done]).
  assert (snapshot_fits tail_bytes (small_checkpoint Read)) as Hf.
  { split; [apply tail_bytes_length| |repeat constructor; done].
    intros f d ->%list_elem_of_singleton Hd. cbn in Hd. rewrite Hd. apply tail_bytes_length. }
  destruct small_run as [[[s c] t]|e|] eqn:E; [|vm_compute in E; discriminate E..].
  exists s, c, t. split; [done|]. pose proof (small_checkpoint_ok Read) as Hc.
  destruct (snapshot_identifies tail_bytes _ _ s c c _ _ _ _ _ _ Hc Hc Hs Hs Hf Hf E E) as [(ds & Hds & _)|Hcol]; [|by right].
  left. by exists ds.
Defined.

(** ** Local checkpoints *)




