(* ===== verification/OverlayTheorems.v ===== *)
(** * Properties of overlays *)

From S2P Require Import Prelude Errors Cancel Tensor Identity Order Quantization.
From S2P Require Import Inventory Representation Recipe Overlay OverlaySpecs.
From S2P Require Import OverlaySpecs.
From Stdlib Require Strings.String.
Local Open Scope N_scope.

(** ** Aliases *)

(** The table that a list of aliases describes. *)
Definition alias_map (l : list Alias) : gmap TensorName TensorName :=
  list_to_map (map (fun a => (alias a, alias_target a)) l).

(** A table of aliases is built exactly when no name is declared twice and
    following the aliases ends for every name; [resolve] then returns, for every
    name, the one name at which its aliases end. Any other list is refused with a
    binding error. *)
Theorem alias_resolution l :
  match AliasTable_new l with
  | Ok t => NoDup (map alias l) /\ alias_entries t = alias_map l /\
      forall x, exists last, resolve t x = Ok last /\
        forall y, resolves (alias_map l) x y <-> y = last
  | Err e => e = Binding /\ ~ (NoDup (map alias l) /\ ends (alias_map l))
  | Panic => False
  end.
Proof.
  destruct (AliasTable_new l) as [t|e|] eqn:E.
  - apply AliasTable_new_Ok in E as (Hd & He & Hok). split; [done|]. split; [done|]. intros x.
    destruct (resolve_total t x Hok) as [last Hl]. exists last. split; [done|]. intros y.
    unfold alias_map. rewrite <-He, <-(resolve_Ok t x y Hok), Hl. split; [by intros [= ->]|by intros ->].
  - assert (AliasTable_new l <> Panic /\ forall e', AliasTable_new l = Err e' -> e' = Binding) as [_ He] by apply AliasTable_new_Err.
    split; [by apply He|]. intros [Hd Hends].
    assert (AliasTable_new l = Ok {| alias_entries := alias_map l |}) as H; [|congruence]. by apply AliasTable_new_Ok.
  - by destruct (AliasTable_new_Err l).
Qed.

(** ** A small plan *)

Definition small_name (n : string) : TensorName := {| tensor_name := n |}.
Definition small_id : ImplementationId :=
  {| provider := {| stable_name := "demo" |}; operation := {| stable_name := "merge" |}; version := 1 |}.

(** A function in place of SHA-256, and a writer of one byte for each kind of value. *)
Definition small_hash (bs : bytes) : bytes := to_le_bytes 32 (N.of_nat (length bs)).
Definition small_writer (v : OverlayPayload) : result bytes :=
  Ok match v with
     | PlanPayload _ => [Byte.x01] | TargetIdentity _ _ _ _ => [Byte.x02] | TargetOperationIdentity _ _ => [Byte.x03]
     | _ => [Byte.x00]
     end.

Definition small_base : BaseTensor :=
  {| base_name := small_name "w"; base_shape := [2; 2]; base_content := from_bytes (small_hash []) |}.
Definition small_source : SourceTensor := {|
  source_name := small_name "delta"; source_shape := [2; 2];
  source_storage := Plain F32 {| span_file := from_ordinal 0; span_offset := 0; span_length := 16 |}
|}.
Definition small_aliases : list Alias :=
  [{| alias := small_name "tied"; alias_target := small_name "head" |};
   {| alias := small_name "head"; alias_target := small_name "w" |}].
Definition small_table : AliasTable := {| alias_entries := alias_map small_aliases |}.

Definition small_layer : OverlayLayer :=
  match OverlayLayer_new small_hash small_writer [from_bytes []]
          [Add (small_name "tied") small_source {| scale_bits := 0 |} small_id] with
  | Ok layer => layer
  | _ => {| layer_schema_version := 0; layer_id := {| overlay_digest := from_bytes [] |};
            layer_source_digests := []; layer_operations := [] |}
  end.

Definition small_plan : OverlayPlan :=
  match OverlayPlan_build small_hash small_writer [small_base] small_table [small_layer] Reject Lazy with
  | Ok p => p
  | _ => {| plan_schema_version := 0; plan_mode := Lazy; plan_policy := Reject; plan_aliases := small_table;
            plan_bases := []; plan_layers := []; plan_bindings := []; plan_digest := from_bytes [] |}
  end.

Example small_bindings : map (fun b => map ref_index (binding_operations b)) (plan_bindings small_plan) = [[0]].
Proof. by vm_compute. Qed.

Lemma small_plan_valid : plan_valid small_hash small_writer small_plan.
Proof.
  apply (OverlayPlan_build_valid _ _ [small_base] small_table [small_layer] Reject Lazy); [by vm_compute|..].
  - by apply (AliasTable_new_Ok small_aliases small_table); vm_compute.
  - by repeat constructor.
  - constructor; [|constructor].
    apply (OverlayLayer_new_valid _ _ [from_bytes []] [Add (small_name "tied") small_source {| scale_bits := 0 |} small_id]);
      [by vm_compute|]. constructor; [by split|constructor].
Qed.

(** ** Plans *)

(** C29: a plan is built exactly when base names are distinct, every alias is not
    a base and ends at one, layers are distinct, every operation ends at a base it
    fits, and, if conflicts are rejected, no base gets two operations. The plan then
    binds each base, in the order of names, to the operations that end at it, in the
    order of layers and of the operations of a layer, and its digest is that of its
    parts. *)
Theorem overlay_plan_exact sha256 write_json bases aliases layers policy mode p :
  OverlayPlan_build sha256 write_json bases aliases layers policy mode = Ok p <->
  (NoDup (base_names bases) /\
   (forall a t, alias_entries aliases !! a = Some t ->
      a ∉ base_names bases /\ exists b, b ∈ bases /\ resolve aliases a = Ok (base_name b)) /\
   NoDup (map layer_id layers) /\
   (forall layer k o, layer ∈ layers -> layer_operations layer !! k = Some o ->
      (exists b, b ∈ bases /\ targets aliases o b /\ validate_operation_shape o b = Ok tt) /\ N.of_nat k <= u32_MAX) /\
   (policy = Reject -> forall b, b ∈ bases -> (length (plan_refs aliases layers b) <= 1)%nat)) /\
  plan_schema_version p = OVERLAY_SCHEMA_VERSION /\ plan_mode p = mode /\ plan_policy p = policy /\
  plan_aliases p = aliases /\ plan_layers p = layers /\
  Permutation (plan_bases p) bases /\ StronglySorted base_le (plan_bases p) /\
  plan_bindings p = map (fun b => {| binding_base := b; binding_operations := plan_refs aliases layers b |}) (plan_bases p) /\
  payload_digest sha256 write_json "overlay-plan-v1"
    (PlanIdentity OVERLAY_SCHEMA_VERSION mode policy aliases (plan_bases p) layers (plan_bindings p)) = Ok (plan_digest p).
Proof.
  rewrite OverlayPlan_build_Ok. split.
  - intros ([H1 H2 H3 H4 H5] & d & Hd & ->). split; [by split_and!|]. cbn. split_and!; try done.
    + apply merge_sort_Permutation.
    + apply (StronglySorted_merge_sort base_le).
  - intros ((H1 & H2 & H3 & H4 & H5) & Hv & Hm & Hpo & Ha & Hl & Hp & Hs & Hb & Hd). split; [by split|].
    assert (plan_bases p = merge_sort base_le bases) as Hbases.
    { apply (sorted_distinct_merge_sort base_le base_name); [|done..]. intros x y Hx Hy. by apply (anti_symm ord_le). }
    exists (plan_digest p). rewrite <-Hbases. unfold plan_identity, plan_of, plan_bindings_of.
    change (fun b => make_binding b (plan_refs aliases layers b)) with
      (fun b => {| binding_base := b; binding_operations := plan_refs aliases layers b |}). rewrite <-Hb.
    split; [done|]. destruct p. cbn in *. by subst.
Qed.

(** The canonical JSON of a plan is read back as that plan, and a text that is
    read as a plan is the canonical JSON of it, whatever deserializer is used. *)
Theorem overlay_json_roundtrip sha256 write_json parse p bs
    (Hp : plan_valid sha256 write_json p) (Hw : canonical_json write_json (PlanPayload p) = Ok bs)
    (Hparse : parse bs = Some p) :
  from_canonical_json sha256 write_json parse bs = Ok p /\
  forall bs' q, from_canonical_json sha256 write_json parse bs' = Ok q ->
    plan_valid sha256 write_json q /\ canonical_json write_json (PlanPayload q) = Ok bs'.
Proof.
  split.
  - apply overlay_from_canonical_json_Ok. split; [done|]. split; [done|]. exists p. split; [done|]. by apply read_overlay_plan_valid.
  - intros bs' q (Hq & Hb & _)%overlay_from_canonical_json_Ok. by split.
Qed.

Lemma overlay_json_roundtrip_witness :
  plan_valid small_hash small_writer small_plan /\
  from_canonical_json small_hash small_writer (fun _ => Some small_plan) [Byte.x01] = Ok small_plan.
Proof.
  split; [apply small_plan_valid|].
  by apply (overlay_json_roundtrip small_hash small_writer (fun _ => Some small_plan) small_plan [Byte.x01] small_plan_valid).
Defined.

(** C30: the digest of a target is the same for two plans only when they compose
    in one mode under one policy and bind the same operations, with the same digests
    of the files they read, to the same base, unless the digests show a collision of
    SHA-256. *)
Theorem target_digest_identifies sha256 write_json p q name name' b c
    (Hwrite : forall v, exists bs, write_json v = Ok bs)
    (Hp : plan_valid sha256 write_json p) (Hq : plan_valid sha256 write_json q)
    (Hb : b ∈ plan_bases p) (Hc : c ∈ plan_bases q)
    (Hn : resolve (plan_aliases p) name = Ok (base_name b))
    (Hn' : resolve (plan_aliases q) name' = Ok (base_name c))
    (Hfp : target_fits p b) (Hfq : target_fits q c)
    (Hdist : distinguished write_json (target_payloads sha256 write_json p b) (target_payloads sha256 write_json q c))
    (Htp : texts_fit write_json (target_payloads sha256 write_json p b))
    (Htq : texts_fit write_json (target_payloads sha256 write_json q c)) :
  succeeds (d ← target_digest sha256 write_json p name;
            d' ← target_digest sha256 write_json q name'; mret (d, d')) (fun '(d, d') =>
    d = d' ->
    (plan_mode p = plan_mode q /\ plan_policy p = plan_policy q /\ b = c /\
     map operation_payload (target_operations p b) = map operation_payload (target_operations q c)) \/
    exists x y, x <> y /\ sha256 x = sha256 y).
Proof.
  eapply succeeds_then; [by apply target_digest_succeeds|]. intros d ->.
  eapply succeeds_then; [by apply target_digest_succeeds|]. intros d ->.
  apply succeeds_ret. by apply target_value_inj.
Qed.

Lemma small_target_fits : target_fits small_plan small_base.
Proof. split; [|by vm_compute]. apply Forall_forall. intros x Hx. vm_compute in Hx. by apply list_elem_of_singleton in Hx as ->. Qed.

Lemma target_digest_identifies_witness :
  target_fits small_plan small_base /\ succeeds (d ← target_digest small_hash small_writer small_plan (small_name "tied");
            d' ← target_digest small_hash small_writer small_plan (small_name "w"); mret (d, d')) (fun _ => True).
Proof.
  split; [apply small_target_fits|]. eapply succeeds_mono.
  - apply (target_digest_identifies small_hash small_writer small_plan small_plan (small_name "tied") (small_name "w")
      small_base small_base).
    + intros v. by eexists.
    + apply small_plan_valid.
    + apply small_plan_valid.
    + vm_compute. constructor.
    + vm_compute. constructor.
    + by vm_compute.
    + by vm_compute.
    + apply small_target_fits.
    + apply small_target_fits.
    + intros v w Hv Hw. vm_compute in Hv, Hw. set_solver.
    + repeat constructor.
    + repeat constructor.
  - done.
Defined.
