(* ===== verification/PlannerTheorems.v ===== *)
(** * Properties of the planner *)

From S2P Require Import Prelude Errors Tensor Identity Order Quantization Representation Strides Facts.
From S2P Require Import Operation Graph Recipe Plan Planner PlannerSpecs.
From S2P Require Import PlannerBuild.
From Stdlib Require Strings.String.
Local Open Scope N_scope.

(** ** A small contract *)

Definition demo_name (n : string) : TensorName := {| tensor_name := n |}.
Definition demo_digest : ContentDigest := from_bytes [].
Definition demo_inputs : PlanInputs := {|
  manifest := {| manifest_digest := demo_digest |}; selection := {| selection_digest := demo_digest |};
  contract := {| contract_digest := demo_digest |}; plan_backend := {| backend_digest := demo_digest |};
  source_digests := [demo_digest] |}.

Definition demo_source (n : string) (offset : N) : SourceTensor := {|
  source_name := demo_name n; source_shape := [2; 2];
  source_storage := Plain F32 {| span_file := from_ordinal 0; span_offset := offset; span_length := 16 |} |}.

Definition demo_target (n : string) (r : Requirement) (aliases : list TensorName) (group : option StableName) : TargetTensor := {|
  target_name := demo_name n; target_aliases := aliases; requirement := r; target_source_shape := [2; 2];
  target_shape := [2; 2]; target_storage_shape := [2; 2]; target_logical_strides := [2; 1];
  target_storage_strides := [2; 1]; target_representation := Representation_contiguous F32; transforms := [];
  operation_graph := None; quantized_route := None; conversion_recipe := None; target_output_size := 16;
  shared_source_group := group |}.

Definition demo_group : option StableName := Some {| stable_name := "tied" |}.

(** Two tied targets share a source, an optional target has none. *)
Definition demo_builder : PlanBuilder := {|
  builder_inputs := demo_inputs;
  builder_sources := [demo_source "spare" 16; demo_source "embed" 0];
  builder_targets := [demo_target "head" Required [demo_name "embed"] demo_group; demo_target "bias" Optional [] None;
                      demo_target "embed" Required [] demo_group];
  builder_policy := AllowExtra |}.

(** A function in place of SHA-256, and a writer that tells plans from identities. *)
Definition demo_hash (bs : bytes) : bytes := to_le_bytes 32 (N.of_nat (length bs)).
Definition demo_writer (v : PlanPayload) : result bytes :=
  Ok match v with BindingPlanPayload _ => [Byte.x01] | PlanIdentityPayload _ _ _ _ _ _ _ _ => [Byte.x00] end.

Definition demo_plan : BindingPlan :=
  match PlanBuilder_build (fun _ => true) demo_hash demo_writer demo_builder with
  | Ok p => p
  | _ => {| plan_schema := 0; plan_id := {| plan_id_digest := demo_digest |}; plan_inputs := demo_inputs; plan_sources := [];
            plan_targets := []; extra_source_policy := RejectExtra; plan_bindings := []; missing_optional := [];
            plan_unused := [] |}
  end.

Example demo_plan_parts :
  (map (fun b => (map source_name (binding_sources b), target_name (binding_target b))) (plan_bindings demo_plan),
   missing_optional demo_plan, plan_unused demo_plan) =
  ([([demo_name "embed"], demo_name "embed"); ([demo_name "embed"], demo_name "head")], [demo_name "bias"], [demo_name "spare"]).
Proof. by vm_compute. Qed.

Lemma demo_plan_built : PlanBuilder_build (fun _ => true) demo_hash demo_writer demo_builder = Ok demo_plan.
Proof. by vm_compute. Qed.

(** ** Diagnostics *)

(** C31: the analysis of a contract returns, sorted and without repetitions, exactly
    the diagnostics of its duplicate names, of each target on its own, of the sources
    shared outside one group and of the sources no target uses; it never panics, and
    it does not depend on the order in which sources and targets were added. *)
Theorem analyze_exact reserves inputs policy sources targets :
  analyze reserves {| builder_inputs := inputs; builder_sources := sources; builder_targets := targets; builder_policy := policy |} =
    Ok (canonical (all_diagnostics reserves inputs policy sources targets)) /\
  forall sources' targets', Permutation sources sources' -> Permutation targets targets' ->
    analyze reserves {| builder_inputs := inputs; builder_sources := sources'; builder_targets := targets'; builder_policy := policy |} =
    analyze reserves {| builder_inputs := inputs; builder_sources := sources; builder_targets := targets; builder_policy := policy |}.
Proof.
  assert (forall ss ts, analyze reserves {| builder_inputs := inputs; builder_sources := ss; builder_targets := ts; builder_policy := policy |} =
    Ok (canonical (all_diagnostics reserves inputs policy ss ts))) as Ha.
  { intros ss ts. unfold analyze. cbn [builder_inputs builder_sources builder_targets builder_policy]. by rewrite resolve_bindings_spec. }
  split; [apply Ha|]. intros ss ts Hs Ht. rewrite !Ha. f_equal. symmetry. by apply all_diagnostics_perm.
Qed.

(** C17: a plan is built exactly when the analysis of the contract has no error and
    no target is bound to nothing; otherwise the contract is refused with a binding
    error. The order in which sources and targets were added makes no difference. *)
Theorem build_exact reserves sha256 write_json b
    (Hwrite : forall v, exists bs, write_json v = Ok bs) :
  ((exists p, PlanBuilder_build reserves sha256 write_json b = Ok p) \/
   PlanBuilder_build reserves sha256 write_json b = Err Errors.Binding) /\
  ((exists p, PlanBuilder_build reserves sha256 write_json b = Ok p) <->
   (exists ds, analyze reserves b = Ok ds /\ is_valid ds = true) /\
   forall t, t ∈ builder_targets b -> chosen reserves (builder_sources b) (builder_targets b) t <> Some []) /\
  (forall b', builder_inputs b' = builder_inputs b -> builder_policy b' = builder_policy b ->
     Permutation (builder_sources b') (builder_sources b) -> Permutation (builder_targets b') (builder_targets b) ->
     PlanBuilder_build reserves sha256 write_json b' = PlanBuilder_build reserves sha256 write_json b).
Proof.
  pose proof (merge_sort_Permutation source_le (builder_sources b)) as Hps.
  pose proof (merge_sort_Permutation target_le (builder_targets b)) as Hpt. split_and!.
  - by apply PlanBuilder_build_total.
  - assert ((exists ds, analyze reserves b = Ok ds /\ is_valid ds = true) <->
      contract_ok reserves (builder_inputs b) (builder_policy b) (merge_sort source_le (builder_sources b))
        (merge_sort target_le (builder_targets b))) as ->.
    { unfold analyze, contract_ok. rewrite resolve_bindings_spec. cbn [mbind result_bind diagnostics].
      rewrite <-no_error_canonical, (all_diagnostics_perm _ _ _ _ _ _ _ Hps Hpt). unfold is_valid. split.
      - intros (ds & [= <-] & Hv). by apply negb_true_iff.
      - intros He. eexists. split; [done|]. by rewrite He. }
    assert ((forall t, t ∈ builder_targets b -> chosen reserves (builder_sources b) (builder_targets b) t <> Some []) <->
      bound_nonempty reserves (merge_sort source_le (builder_sources b)) (merge_sort target_le (builder_targets b))) as ->.
    { assert (forall t, chosen reserves (merge_sort source_le (builder_sources b)) (merge_sort target_le (builder_targets b)) t =
        chosen reserves (builder_sources b) (builder_targets b) t) as Hc by (intros t; by apply chosen_perm).
      unfold bound_nonempty. split; intros H t Hin; specialize (H t); rewrite Hc in *; apply H; by rewrite Hpt in *. }
    setoid_rewrite PlanBuilder_build_Ok. split.
    + intros (p & Hok & Hne & _). done.
    + intros [Hok Hne]. unfold compute_plan_id, canonical_json.
      destruct (Hwrite (identity_of reserves (builder_inputs b) (builder_policy b) (merge_sort source_le (builder_sources b))
        (merge_sort target_le (builder_targets b)))) as [bs Hbs].
      eexists. split; [done|]. split; [done|]. eexists. split; [by rewrite Hbs|done].
  - intros b' Hi Hp Hs Ht.
    destruct (PlanBuilder_build_total reserves sha256 write_json b Hwrite) as [[p E]|E],
      (PlanBuilder_build_total reserves sha256 write_json b' Hwrite) as [[p' E']|E']; rewrite E, E'; [|exfalso..|done].
    + apply (PlanBuilder_build_perm reserves sha256 write_json b' b) in E'; [congruence|done..].
    + apply (PlanBuilder_build_perm reserves sha256 write_json b b') in E; [congruence|by symmetry..].
    + apply (PlanBuilder_build_perm reserves sha256 write_json b' b) in E'; [congruence|done..].
Qed.

Lemma build_exact_witness :
  (forall v, exists bs, demo_writer v = Ok bs) /\
  exists ds, analyze (fun _ => true) demo_builder = Ok ds /\ is_valid ds = true.
Proof.
  assert (forall v, exists bs, demo_writer v = Ok bs) as Hw by (intros v; by eexists). split; [exact Hw|].
  destruct (build_exact (fun _ => true) demo_hash demo_writer demo_builder Hw) as (_ & H & _). apply H.
  exists demo_plan. exact demo_plan_built.
Defined.

(** ** Plans *)

(** What a binding of a plan is: the sources it names are the only candidates,
    and the checks of its route hold. *)
Definition binding_ok (b : PlanBuilder) (x : Binding) : Prop :=
  binding_target x ∈ builder_targets b /\ binding_sources x <> [] /\
  (forall s, s ∈ binding_sources x -> s ∈ builder_sources b) /\
  match operation_graph (binding_target x) with
  | None => exists s, binding_sources x = [s] /\ wanted (binding_target x) s /\
      (forall s', s' ∈ builder_sources b -> wanted (binding_target x) s' -> s' = s) /\
      validate_binding (builder_inputs b) s (binding_target x) = Ok tt
  | Some g => map source_name (binding_sources x) = input_names g /\
      validate_operation_binding (builder_inputs b) (binding_sources x) (binding_target x) = Ok tt
  end.

(** C16: in a plan that is built every target is bound exactly once, or is optional
    and listed as missing; every binding holds what its route demands of the only
    sources with the names it asks for; two targets share a source only within one
    declared group; and every source is bound, or allowed as extra and listed. *)
Theorem plan_sound reserves sha256 write_json b p
    (H : PlanBuilder_build reserves sha256 write_json b = Ok p) :
  (forall t, t ∈ builder_targets b ->
     (exists x, x ∈ plan_bindings p /\ binding_target x = t /\
        forall y, y ∈ plan_bindings p -> target_name (binding_target y) = target_name t -> y = x) \/
     (requirement t = Optional /\ target_name t ∈ missing_optional p /\
        forall y, y ∈ plan_bindings p -> target_name (binding_target y) <> target_name t)) /\
  (forall x, x ∈ plan_bindings p -> binding_ok b x) /\
  (forall x y s, x ∈ plan_bindings p -> y ∈ plan_bindings p -> x <> y ->
     s ∈ binding_sources x -> s ∈ binding_sources y ->
     exists g, shared_source_group (binding_target x) = Some g /\ shared_source_group (binding_target y) = Some g) /\
  (forall s, s ∈ builder_sources b ->
     (exists x, x ∈ plan_bindings p /\ s ∈ binding_sources x) \/
     (builder_policy b = AllowExtra /\ source_name s ∈ plan_unused p)).
Proof.
  apply PlanBuilder_build_Ok in H as (Hok & Hne & id & _ & ->). cbn [plan_of plan_bindings missing_optional plan_unused].
  pose proof (merge_sort_Permutation source_le (builder_sources b)) as Hps.
  pose proof (merge_sort_Permutation target_le (builder_targets b)) as Hpt.
  assert (forall t, t ∈ builder_targets b <-> t ∈ merge_sort target_le (builder_targets b)) as Ht by (intros t; by rewrite Hpt).
  assert (forall s, s ∈ builder_sources b <-> s ∈ merge_sort source_le (builder_sources b)) as Hs by (intros s; by rewrite Hps).
  unfold binding_ok. setoid_rewrite Ht. setoid_rewrite Hs.
  set (sources := merge_sort source_le (builder_sources b)) in *. set (targets := merge_sort target_le (builder_targets b)) in *.
  clearbody sources targets. pose proof (contract_targets_distinct _ _ _ _ _ Hok) as Hdt. split_and!.
  - intros t Hin. apply (plan_target reserves (builder_inputs b) (builder_policy b) sources targets Hok t Hin).
  - intros x Hx.
    pose proof (plan_binding reserves (builder_inputs b) (builder_policy b) sources targets Hok x Hne Hx) as (Hxt & Hxn & Hxs & Hxm).
    split_and!; [done..|]. destruct (operation_graph (binding_target x)); [done|].
    destruct Hxm as (s & E & Hw & Hu & Hv). exists s. split_and!; try done. intros s' Hin. apply Hu. by apply Hs.
  - intros x y s Hx Hy Hxy Hsx Hsy. apply bindings_of_elem in Hx as [Hxt Hxc], Hy as [Hyt Hyc].
    apply (contract_shared _ _ _ _ _ Hok s).
    + by eapply chosen_elem.
    + apply list_elem_of_filter. split; [|done]. unfold uses. by rewrite Hxc.
    + apply list_elem_of_filter. split; [|done]. unfold uses. by rewrite Hyc.
    + intros E. apply Hxy. destruct x, y; cbn in *. congruence.
  - intros s Hin. destruct (users reserves sources targets s) as [|t ts] eqn:E.
    + right. split; [by eapply contract_extra|]. apply list_elem_of_fmap. exists s. split; [done|]. by apply list_elem_of_filter.
    + left. assert (t ∈ users reserves sources targets s) as [Hu Htin]%list_elem_of_filter by (rewrite E; by left).
      unfold uses in Hu. destruct (chosen reserves sources targets t) as [ss|] eqn:Ec; [|done].
      exists {| binding_sources := ss; binding_target := t |}. split; [by apply bindings_of_elem|done].
Qed.

Lemma plan_sound_witness :
  PlanBuilder_build (fun _ => true) demo_hash demo_writer demo_builder = Ok demo_plan /\
  forall x, x ∈ plan_bindings demo_plan -> binding_ok demo_builder x.
Proof. split; [exact demo_plan_built|]. apply (plan_sound _ _ _ _ _ demo_plan_built). Defined.

(** C32: the canonical JSON of a plan that is built from parts their readers accept
    reads back as that plan, and a text that is read as a plan is the canonical JSON
    of it, whose parts, bindings and identity are those that planning computes. *)
Theorem plan_json_roundtrip reserves sha256 write_json parse b p bs
    (H : PlanBuilder_build reserves sha256 write_json b = Ok p)
    (Hs : Forall source_valid (builder_sources b)) (Ht : Forall target_valid (builder_targets b))
    (Hw : canonical_json write_json (BindingPlanPayload p) = Ok bs) (Hparse : parse bs = Some p) :
  from_canonical_json reserves sha256 write_json parse bs = Ok p /\
  forall bs' q, from_canonical_json reserves sha256 write_json parse bs' = Ok q ->
    canonical_json write_json (BindingPlanPayload q) = Ok bs' /\
    PlanBuilder_build reserves sha256 write_json (plan_replay q) = Ok q.
Proof.
  split.
  - assert (plan_valid reserves sha256 write_json p) as Hp by (by eapply PlanBuilder_build_valid).
    apply from_canonical_json_Ok. split; [done|]. split; [done|]. exists p. split; [done|]. by eapply read_plan_valid.
  - intros bs' q (Hq & Hb & _)%from_canonical_json_Ok. split; [done|]. apply Hq.
Qed.

Lemma plan_json_roundtrip_witness :
  Forall target_valid (builder_targets demo_builder) /\
  from_canonical_json (fun _ => true) demo_hash demo_writer (fun _ => Some demo_plan) [Byte.x01] = Ok demo_plan.
Proof.
  assert (Forall source_valid (builder_sources demo_builder)) as Hs by (repeat constructor; by vm_compute).
  assert (Forall target_valid (builder_targets demo_builder)) as Ht by (repeat constructor; by vm_compute).
  assert (canonical_json demo_writer (BindingPlanPayload demo_plan) = Ok [Byte.x01]) as Hw by reflexivity.
  split; [exact Ht|].
  exact (proj1 (plan_json_roundtrip (fun _ => true) demo_hash demo_writer (fun _ => Some demo_plan) demo_builder demo_plan
    [Byte.x01] demo_plan_built Hs Ht Hw eq_refl)).
Defined.
