(* ===== verification/CacheTheorems.v ===== *)
(** * What the cache promises

    Its keys identify what they were derived from. Whatever operations run on one
    cache, in whatever order their calls interleave and wherever they fail or stop,
    no directory ever shows an envelope that can be read beside a payload it does
    not describe, and the payload that a validated lookup returned stays what its
    envelope says for as long as the caller holds it. *)

From S2P Require Import Prelude Errors Tensor Identity Cast ReaderSpecs FileReader FileSystem.
From S2P Require Import FileSystem Cache CacheNames Interference CacheSpecs.
From S2P Require Import CachePublish CacheService CachePool CacheCalm CacheSolo.
From stdpp Require Import strings gmap.
Local Open Scope N_scope.

(** ** Keys *)

(** The parts of a key, in the order in which they are hashed. *)
Definition key_parts (n : CacheNamespace) (c : CacheCompatibility) (identities : list bytes)
  : list bytes :=
  [String.list_byte_of_string "model-weights-rs-cache-key-v1"; key_tag n;
   to_le_bytes 4 (format_version c); digest_bytes (transform c)] ++
  match backend_abi c with Some abi => [[Byte.x01]; digest_bytes abi] | None => [[Byte.x00]] end ++
  identities.

Lemma derive_preimage_parts n c identities :
  derive_preimage n c identities = concat (map hash_frame (key_parts n c identities)).
Proof.
  unfold derive_preimage, key_parts. change update_hash_part with hash_frame.
  rewrite !map_app, !concat_app. cbn [map concat]. rewrite app_nil_r.
  rewrite <-!(app_assoc (A:=byte)). do 4 f_equal.
  destruct (backend_abi c); cbn [map concat]; by rewrite ?app_nil_r, <-?app_assoc.
Qed.

Definition compatibility_fits (c : CacheCompatibility) : Prop :=
  format_version c < 2 ^ 32 /\ fits_u128 (digest_bytes (transform c)) /\
  forall abi, backend_abi c = Some abi -> fits_u128 (digest_bytes abi).

Lemma key_parts_fit n c identities :
  compatibility_fits c -> Forall fits_u128 identities -> Forall fits_u128 (key_parts n c identities).
Proof.
  intros (Hv & Ht & Ha) Hi. repeat (apply Forall_cons; split); [done|by destruct n| |done|].
  - unfold fits_u128. by rewrite to_le_bytes_length.
  - apply Forall_app. split; [|done]. destruct (backend_abi c) as [abi|].
    + constructor; [done|]. constructor; [by apply Ha|done].
    + by repeat constructor.
Qed.

Lemma digest_eta d : from_bytes (digest_bytes d) = d.
Proof. by destruct d. Qed.

Lemma key_parts_inj n c identities n' c' identities' :
  compatibility_fits c -> compatibility_fits c' ->
  key_parts n c identities = key_parts n' c' identities' ->
  n = n' /\ c = c' /\ identities = identities'.
Proof.
  intros (Hv & _) (Hv' & _). unfold key_parts.
  remember (to_le_bytes 4 (format_version c)) as f eqn:Ef.
  remember (to_le_bytes 4 (format_version c')) as f' eqn:Ef'.
  remember (key_tag n) as g eqn:En. remember (key_tag n') as g' eqn:En'.
  intros H. injection H as Hn Hf Ht Hrest. assert (n = n') as -> by (by destruct n, n'; simplify_eq).
  rewrite Ef, Ef' in Hf. apply to_le_bytes_inj in Hf; [|done..]. apply (f_equal from_bytes) in Ht. rewrite !digest_eta in Ht.
  destruct c as [v t abi], c' as [v' t' abi']; simpl in *; subst v' t'.
  destruct abi as [abi|], abi' as [abi'|]; simpl in Hrest; try done.
  - injection Hrest as Ha ->. apply (f_equal from_bytes) in Ha. rewrite !digest_eta in Ha. by subst.
  - by injection Hrest as ->.
Qed.

Lemma cache_key_inj sha256 n c identities n' c' identities' :
  compatibility_fits c -> compatibility_fits c' ->
  Forall fits_u128 identities -> Forall fits_u128 identities' ->
  CacheKey_derive sha256 n c identities = CacheKey_derive sha256 n' c' identities' ->
  (n = n' /\ c = c' /\ identities = identities') \/ exists x y, x <> y /\ sha256 x = sha256 y.
Proof.
  intros Hc Hc' Hi Hi' Hkey. injection Hkey as Hsha.
  destruct (decide (derive_preimage n c identities = derive_preimage n' c' identities')) as [E|E];
    [left|right; eauto].
  rewrite !derive_preimage_parts in E.
  apply hash_frames_inj in E; [|by apply key_parts_fit..]. by apply key_parts_inj in E.
Qed.

(** C27: two keys of the cache are equal only when they were derived for the same
    namespace, the same format, transformation and backend, and the same list of
    identities, part by part, unless they show a collision of SHA-256. *)
Theorem cache_key_identifies sha256 n c identities n' c' identities'
    (Hc : compatibility_fits c) (Hc' : compatibility_fits c')
    (Hi : Forall fits_u128 identities) (Hi' : Forall fits_u128 identities')
    (Hkey : CacheKey_derive sha256 n c identities = CacheKey_derive sha256 n' c' identities') :
  (n = n' /\ c = c' /\ identities = identities') \/
  exists x y, x <> y /\ sha256 x = sha256 y.
Proof. by apply cache_key_inj. Qed.

Lemma cache_key_identifies_witness :
  CacheKey_derive id PlanEntries (CacheCompatibility_plan 1 (from_bytes [])) [[Byte.x01]] =
  CacheKey_derive id PlanEntries (CacheCompatibility_plan 1 (from_bytes [])) [[Byte.x01]] /\
  (([[Byte.x01]] : list bytes) = [[Byte.x01]] \/ exists x y : bytes, x <> y /\ id x = id y).
Proof.
  split; [reflexivity|].
  destruct (cache_key_identifies id PlanEntries (CacheCompatibility_plan 1 (from_bytes [])) [[Byte.x01]]
    PlanEntries (CacheCompatibility_plan 1 (from_bytes [])) [[Byte.x01]]) as [(_ & _ & H)|H].
  - split_and!; [reflexivity|reflexivity|intros abi; discriminate].
  - split_and!; [reflexivity|reflexivity|intros abi; discriminate].
  - repeat constructor.
  - repeat constructor.
  - reflexivity.
  - left. exact H.
  - right. exact H.
Defined.

(** ** A codec of envelopes and a file system *)

Module Model.
Definition sha (bs : bytes) : bytes := take 32 (bs ++ replicate 32 Byte.x00).

Definition digest_fits (d : ContentDigest) : bool := (length (digest_bytes d) =? 32)%nat.

Definition fits (e : CacheEnvelope) : bool :=
  (envelope_version e <? 2 ^ 32) && digest_fits (key_digest (envelope_key e)) &&
  (format_version (envelope_compatibility e) <? 2 ^ 32) &&
  digest_fits (transform (envelope_compatibility e)) &&
  match backend_abi (envelope_compatibility e) with Some d => digest_fits d | None => true end &&
  (envelope_payload_len e <? 2 ^ 64) && digest_fits (envelope_payload_digest e) &&
  (envelope_created e <? 2 ^ 64).

Definition fields (e : CacheEnvelope) : list bytes :=
  [to_le_bytes 4 (envelope_version e);
   match envelope_namespace e with PlanEntries => [Byte.x00] | PreparedEntries => [Byte.x01] end;
   digest_bytes (key_digest (envelope_key e));
   to_le_bytes 4 (format_version (envelope_compatibility e));
   digest_bytes (transform (envelope_compatibility e));
   match backend_abi (envelope_compatibility e) with Some _ => [Byte.x01] | None => [Byte.x00] end;
   match backend_abi (envelope_compatibility e) with
   | Some d => digest_bytes d
   | None => replicate 32 Byte.x00
   end;
   to_le_bytes 8 (envelope_payload_len e); digest_bytes (envelope_payload_digest e);
   to_le_bytes 8 (envelope_created e)].

Definition encode (e : CacheEnvelope) : option bytes :=
  if fits e then Some (concat (fields e)) else None.

Fixpoint cut (ns : list nat) (bs : bytes) : list bytes :=
  match ns with [] => [] | n :: ns => take n bs :: cut ns (drop n bs) end.

Definition widths : list nat := [4; 1; 32; 4; 32; 1; 32; 8; 32; 8]%nat.

Definition envelope_of (fs : list bytes) : option CacheEnvelope :=
  match fs with
  | [version; namespace; key; format; transform; has_abi; abi; len; digest; created] =>
      Some {| envelope_version := from_le_bytes version;
              envelope_namespace := if bool_decide (namespace = [Byte.x00]) then PlanEntries
                                    else PreparedEntries;
              envelope_key := {| key_digest := from_bytes key |};
              envelope_compatibility :=
                {| format_version := from_le_bytes format;
                   transform := from_bytes transform;
                   backend_abi := if bool_decide (has_abi = [Byte.x00]) then None
                                  else Some (from_bytes abi) |};
              envelope_payload_len := from_le_bytes len;
              envelope_payload_digest := from_bytes digest;
              envelope_created := from_le_bytes created |}
  | _ => None
  end.

(** The bytes are what the decoded envelope encodes to. *)
Definition decode (bs : bytes) : option CacheEnvelope :=
  e ← envelope_of (cut widths bs);
  if decide (encode e = Some bs) then Some e else None.

Lemma cut_concat fs : cut (map length fs) (concat fs) = fs.
Proof.
  induction fs as [|f fs IH]; [done|]. cbn [map cut concat].
  by rewrite take_app_length, drop_app_length, IH.
Qed.

Lemma fits_widths e : fits e = true -> map length (fields e) = widths.
Proof.
  unfold fits, digest_fits. intros H. repeat (apply andb_true_iff in H as [H ?]). bool_to_prop.
  unfold fields. cbn [map]. rewrite !to_le_bytes_length.
  destruct (envelope_namespace e), (backend_abi (envelope_compatibility e)); simpl;
    repeat match goal with E : (_ =? 32)%nat = true |- _ => apply Nat.eqb_eq in E as -> end; done.
Qed.

Lemma envelope_of_fields e : fits e = true -> envelope_of (fields e) = Some e.
Proof.
  unfold fits. intros H. repeat (apply andb_true_iff in H as [H ?]). bool_to_prop.
  unfold envelope_of, fields. rewrite !from_to_le_bytes by done.
  destruct e as [v n [[k]] [f [t] [[a]|]] l [d] c], n; done.
Qed.

Lemma encode_length e bs : encode e = Some bs -> length bs = 154%nat.
Proof.
  unfold encode. destruct (fits e) eqn:E; [|done]. intros Hbs%(inj Some). subst bs.
  apply fits_widths in E.
  assert (forall fs : list bytes, length (concat fs) = sum_list (map length fs)) as ->; [|by rewrite E].
  clear. induction fs as [|f fs IH]; [done|]. cbn [concat map sum_list]. by rewrite length_app, IH.
Qed.

Lemma codec : envelope_codec encode decode.
Proof.
  split.
  - done.
  - intros e bs He. unfold decode. pose proof He as He'. unfold encode in He.
    destruct (fits e) eqn:E; [|done]. apply (inj Some) in He. subst bs.
    rewrite <-(fits_widths e E), cut_concat, envelope_of_fields by done. cbn [mbind option_bind].
    by rewrite decide_True.
  - intros e bs n He Hn. unfold decode. destruct (envelope_of _) as [e'|]; [|done].
    cbn [mbind option_bind]. rewrite decide_False; [done|]. intros H%encode_length.
    rewrite length_take in H. apply encode_length in He. lia.
Qed.
End Model.

(** ** Operations side by side *)

(** C8: whatever operations on the cache have started, in any processes, however
    their calls interleaved, wherever calls failed or returned less than was asked
    for, and whichever of them stopped for good half way: a directory that shows a
    payload beside an envelope that can be read shows the payload of the length and
    digest which the envelope records. *)
Theorem entries_never_torn sha256 to_vec from_slice rounds root w0 ts w d m p e
    (Hcodec : envelope_codec to_vec from_slice)
    (Hw0 : consistent sha256 from_slice (length root + 3) w0)
    (Hreach : pool_reachable sha256 to_vec from_slice rounds root w0 (ts, w))
    (Hm : nodes w !! (d ++ [METADATA_FILE]) = Some (FileNode m))
    (Hp : nodes w !! (d ++ [PAYLOAD_FILE]) = Some (FileNode p))
    (He : from_slice (inode_bytes w m) = Some e) :
  N.of_nat (length (inode_bytes w p)) = envelope_payload_len e /\
  from_bytes (sha256 (inode_bytes w p)) = envelope_payload_digest e.
Proof.
  destruct (pool_reachable_ok _ _ _ _ _ Hcodec _ _ _ Hw0 Hreach) as (tls & _ & Hok).
  by apply (consistent_payload _ _ _ _ (pool_consistent _ _ _ _ _ Hok) d m p).
Qed.

(** C7: a lookup with validation that returned an entry returned the one that was
    asked for, and the file it opened has the length and digest of the envelope, in
    every later state: neither a replacement, an eviction, a recovery nor a crash
    changes the bytes a caller holds. The same is true of a publication that found
    the entry in place. *)
Theorem replies_survive_interference sha256 to_vec from_slice rounds root w0 ts w i t r
    (Hcodec : envelope_codec to_vec from_slice)
    (Hw0 : consistent sha256 from_slice (length root + 3) w0)
    (Hreach : pool_reachable sha256 to_vec from_slice rounds root w0 (ts, w))
    (Ht : ts !! i = Some t) (Hr : thread_program t = Ret (Ok r)) :
  reply_sound sha256 w (thread_operation t) r.
Proof. by eapply pool_replies. Qed.

Module Example.
Import Model.
Definition calm (now : N) : Oracle :=
  {| fault := false; signal := false; clock := now; modification := Some now; chunk := 1000;
     listing := fun names => names; unreadable := fun _ => false; spared := fun _ => false |}.
Definition root : path := ["c"%string].
Definition empty_root : World :=
  {| nodes := {[ root := DirNode ]}; inodes := ∅; born := ∅; next_inode := 0; counters := ∅ |}.
Definition key : CacheKey := {| key_digest := from_bytes (replicate 32 Byte.xab) |}.
Definition compat : CacheCompatibility :=
  CacheCompatibility_plan 1 (from_bytes (replicate 32 Byte.x01)).
Definition calls (i n : nat) : list event := replicate n (EvCall i (calm 1000000)).
Definition look v : Operation := OpLookup PlanEntries key compat v.
Definition publish (bs : bytes) : Operation := OpPublish PlanEntries key compat Cursor bs.
Definition begin (pid : N) (op : Operation) : event := EvStart pid CacheOptions_default op.
Definition play (es : list event) : list Thread * World :=
  default ([], empty_root) (schedule sha encode decode 10 root es ([], empty_root)).

Lemma play_reachable es :
  Forall event_ok es -> bool_decide (is_Some (schedule sha encode decode 10 root es ([], empty_root))) = true ->
  pool_reachable sha encode decode 10 root empty_root (play es).
Proof.
  intros He. unfold play. destruct (schedule _ _ _ _ _ es _) as [s|] eqn:E.
  - intros _. by eapply schedule_reachable.
  - intros H%bool_decide_eq_true_1. by apply is_Some_None in H.
Qed.

Lemma calls_ok i n : Forall event_ok (calls i n).
Proof. apply Forall_replicate. intros names x H. exact H. Qed.

Lemma empty_root_nodes q n : nodes empty_root !! q = Some n -> q = root /\ n = DirNode.
Proof. simpl. intros H. by apply lookup_singleton_Some in H as [<- <-]. Qed.

Lemma empty_root_consistent : consistent sha decode 4 empty_root.
Proof.
  split.
  - by intros q n [-> _]%empty_root_nodes.
  - by intros q i [_ ?]%empty_root_nodes.
  - by intros q r i [_ ?]%empty_root_nodes.
  - by intros q i name [_ ?]%empty_root_nodes.
  - by intros q n name [-> _]%empty_root_nodes.
  - by intros d m p e [_ ?]%empty_root_nodes.
Qed.

(** A writer, a reader and an eviction that crashes between two of its calls. *)
Definition events : list event :=
  [begin 1 (publish [Byte.x01; Byte.x02]); begin 1 (look FullValidation); begin 2 (OpEvict PlanEntries key Explicit)] ++
  calls 2 3 ++ calls 0 76 ++ calls 1 13 ++ calls 2 2 ++ [EvCrash 2].

Lemma events_ok : Forall event_ok events.
Proof. repeat (constructor; [done|]). repeat (apply Forall_app; split; [apply calls_ok|]). by repeat constructor. Qed.

Lemma events_reachable :
  pool_reachable sha encode decode 10 root empty_root ((play events).1, (play events).2).
Proof. rewrite <-surjective_pairing. apply play_reachable; [apply events_ok|]. vm_compute. reflexivity. Qed.
End Example.

Lemma entries_never_torn_witness :
  exists d m p e, let w := (Example.play Example.events).2 in
    nodes w !! (d ++ [METADATA_FILE]) = Some (FileNode m) /\
    nodes w !! (d ++ [PAYLOAD_FILE]) = Some (FileNode p) /\
    Model.decode (inode_bytes w m) = Some e /\
    N.of_nat (length (inode_bytes w p)) = envelope_payload_len e.
Proof.
  pose (w := (Example.play Example.events).2).
  pose (d := entry_path {| cache_root := Example.root; options := CacheOptions_default |}
               PlanEntries Example.key).
  assert (nodes w !! (d ++ [METADATA_FILE]) = Some (FileNode 3)) as Hm by (vm_compute; reflexivity).
  assert (nodes w !! (d ++ [PAYLOAD_FILE]) = Some (FileNode 2)) as Hp by (vm_compute; reflexivity).
  assert (bool_decide (is_Some (Model.decode (inode_bytes w 3))) = true) as He by (vm_compute; reflexivity).
  apply bool_decide_eq_true_1 in He as [e He].
  exists d, 3%nat, 2%nat, e. split; [exact Hm|]. split; [exact Hp|]. split; [exact He|].
  exact (proj1 (entries_never_torn Model.sha Model.encode Model.decode 10 Example.root Example.empty_root
    (Example.play Example.events).1 w d 3 2 e Model.codec Example.empty_root_consistent
    Example.events_reachable Hm Hp He)).
Defined.

(** The entry that a finished lookup of a thread returned. *)
Definition hit_of (t : Thread) : option CacheEntry :=
  match thread_program t with Ret (Ok (LookedUp (Hit e))) => Some e | _ => None end.

Lemma hit_of_program t e : hit_of t = Some e -> thread_program t = Ret (Ok (LookedUp (Hit e))).
Proof. unfold hit_of. destruct (thread_program t) as [[[|[]| | | | |]| |]| |]; try done. by intros [= ->]. Qed.

Lemma replies_survive_interference_witness :
  exists t e, (Example.play Example.events).1 !! 1%nat = Some t /\
    thread_program t = Ret (Ok (LookedUp (Hit e))) /\
    payload_sound Model.sha (Example.play Example.events).2 e.
Proof.
  pose (ts := (Example.play Example.events).1).
  assert (bool_decide (is_Some (ts !! 1%nat ≫= hit_of)) = true) as He by (vm_compute; reflexivity).
  assert (thread_operation <$> ts !! 1%nat = Some (Example.look FullValidation)) as Hop
    by (vm_compute; reflexivity).
  apply bool_decide_eq_true_1 in He as [e He].
  destruct (ts !! 1%nat) as [t|] eqn:Ht; [|discriminate He]. exists t, e.
  pose proof (hit_of_program t e He) as Hprogram.
  split; [exact Ht|]. split; [exact Hprogram|].
  assert (thread_operation t = Example.look FullValidation) as Hlook by (injection Hop; auto).
  pose proof (replies_survive_interference Model.sha Model.encode Model.decode 10 Example.root
    Example.empty_root ts (Example.play Example.events).2 1 t _ Model.codec
    Example.empty_root_consistent Example.events_reachable Ht Hprogram) as H.
  rewrite Hlook in H. exact (proj2 H eq_refl).
Defined.

(** A reader that trusts envelopes, paused after it has read one, while the entry
    is evicted and published again with other bytes of the same length. *)
Definition torn_events : list event :=
  let begin := Example.begin in
  [begin 1 (Example.publish [Byte.x01; Byte.x02])] ++ Example.calls 0 76 ++
  [begin 2 (Example.look TrustedMetadata)] ++ Example.calls 1 6 ++
  [begin 3 (OpEvict PlanEntries Example.key Explicit)] ++ Example.calls 2 36 ++
  [begin 4 (Example.publish [Byte.x03; Byte.x04])] ++ Example.calls 3 76 ++ Example.calls 1 3.

(** C28: without the validation of payloads the promise is weaker than the type of
    an entry suggests: the envelope and the payload of a lookup that trusts metadata
    may be of two generations, so that the digest it reports is not that of the
    bytes it hands out, although every writer used the same interface. *)
Theorem trusted_lookup_may_tear :
  exists ts w i t e n k c,
    pool_reachable Model.sha Model.encode Model.decode 10 Example.root Example.empty_root (ts, w) /\
    ts !! i = Some t /\ thread_operation t = OpLookup n k c TrustedMetadata /\
    thread_program t = Ret (Ok (LookedUp (Hit e))) /\ ~ payload_sound Model.sha w e.
Proof.
  pose (ts := (Example.play torn_events).1). pose (w := (Example.play torn_events).2).
  assert (pool_reachable Model.sha Model.encode Model.decode 10 Example.root Example.empty_root (ts, w)) as Hr.
  { unfold ts, w. rewrite <-surjective_pairing. apply Example.play_reachable; [|by vm_compute].
    repeat first [apply Forall_nil_2 | apply Example.calls_ok | apply Forall_cons; split; [exact I|] |
                  apply Forall_app; split]. }
  assert (match ts !! 1%nat ≫= hit_of with
          | Some e => match handle_inode (payload e) with
                      | Some i => negb (bool_decide (from_bytes (Model.sha (inode_bytes w i)) =
                                                     payload_digest (info e)))
                      | None => false
                      end
          | None => false
          end = true) as He by (vm_compute; reflexivity).
  assert (thread_operation <$> ts !! 1%nat = Some (Example.look TrustedMetadata)) as Hop
    by (vm_compute; reflexivity).
  destruct (ts !! 1%nat) as [t|] eqn:Ht; [|discriminate He]. cbn [mbind option_bind] in He.
  destruct (hit_of t) as [e|] eqn:Hhit; [|discriminate He].
  exists ts, w, 1%nat, t, e, PlanEntries, Example.key, Example.compat.
  split; [exact Hr|]. split; [exact Ht|]. split; [injection Hop; auto|].
  split; [by apply hit_of_program|]. intros (i & Hi & _ & _ & Hd). rewrite Hi in He.
  by rewrite bool_decide_eq_true_2 in He.
Qed.

(** ** A publication that nothing disturbs *)

(** The directory of an entry. *)
Definition shard (cache : CacheInner) (n : CacheNamespace) (k : CacheKey) : path :=
  removelast (entry_path cache n k).

(** Where no generation of the entry lies and the names beside it are free, a
    publication that runs alone without faults ends, whatever the clock shows and in
    whatever order names are listed, and reports the entry as published. Every later
    lookup without faults, of any process and under both policies, then ends with the
    entry that the publication returned, whose payload is the bytes that were
    published. The rounds of the loops need only exceed the number of bytes. *)
Theorem publication_is_found sha256 to_vec from_slice rounds pid cache n k c bs w budget
    (Hcodec : envelope_codec to_vec from_slice)
    (Hfree : free_place (shard cache n k) k w budget)
    (Hbudget : budget + 1 <= maximum_scan_entries (options cache))
    (Hrounds : (length bs < rounds)%nat) (Hlen : N.of_nat (length bs) <= u64_MAX)
    (Henc : encodable sha256 to_vec k n c bs)
    oracles (Hcalm : forall i, calm (oracles i)) :
  exists calls w' e p,
    run pid oracles (publish_bytes sha256 to_vec from_slice rounds cache n k c bs) 0 calls w =
      (Some (Ok (Published e)), w') /\
    handle_inode (payload e) = Some p /\ position (payload e) = 0 /\ inode_bytes w' p = bs /\
    forall pid' v oracles', (forall i, calm (oracles' i)) -> exists calls',
      run pid' oracles' (lookup_with_validation_and_cancellation sha256 from_slice rounds cache n k c v)
        0 calls' w' = (Some (Ok (Hit e)), w').
Proof.
  destruct (entry_path_split cache n k) as (d & Hpath & Hd).
  unfold shard in Hfree. rewrite Hpath, removelast_snoc in Hfree.
  assert (d <> []) as Hne by (intros ->; unfold entry_level in Hd; simpl in Hd; lia).
  destruct (ends_run pid _ _ w oracles 0 Hcalm (returns_publish sha256 to_vec from_slice rounds pid d k Hne n c
    cache Hpath Hcodec w budget bs Hfree Hbudget Hrounds Hlen Henc)) as (calls & r & w' & Hrun & HQ).
  destruct r as [r|e|]; [|done..]. destruct HQ as (im & ip & e & -> & He).
  exists calls, w', (entry_of (d ++ [CacheKey_display k]) e ip), ip. split_and!; [exact Hrun|done..| |].
  - apply He.
  - intros pid' v oracles' Hcalm'. rewrite <-Hpath in He |- *.
    destruct (ends_run pid' _ _ w' oracles' 0 Hcalm' (returns_lookup sha256 from_slice rounds pid' w' cache
      n k c v bs im ip e He Hrounds)) as (calls' & r & w'' & Hrun' & HQ').
    destruct r as [r|e'|]; [|done..]. destruct HQ' as [-> ->]. by exists calls'.
Qed.

Lemma example_calm : forall i : nat, calm (Example.calm 1000000).
Proof. intros _. by split. Qed.

Definition example_cache : CacheInner := {| cache_root := Example.root; options := CacheOptions_default |}.

Lemma example_free : free_place (shard example_cache PlanEntries Example.key) Example.key Example.empty_root 0.
Proof.
  assert (forall x s, nodes Example.empty_root !! (shard example_cache PlanEntries Example.key ++ x :: s) = None) as H.
  { intros x s. destruct (nodes Example.empty_root !! _) eqn:E; [|done].
    apply Example.empty_root_nodes in E as [E _]. by apply (f_equal length) in E. }
  split; [|intros; apply H..|by vm_compute].
  intros q Hq. vm_compute in Hq.
  repeat (apply elem_of_cons in Hq as [->|Hq]; [vm_compute; auto|]). by apply elem_of_nil in Hq.
Qed.

Lemma example_encodable : encodable Model.sha Model.encode Example.key PlanEntries Example.compat [Byte.x01; Byte.x02].
Proof.
  intros created Hcreated.
  assert (Model.fits (new_envelope Model.sha Example.key PlanEntries Example.compat [Byte.x01; Byte.x02] created) = true)
    as Hfits.
  { unfold Model.fits. cbn [envelope_created new_envelope].
    assert (created <? 2 ^ 64 = true) as -> by (apply N.ltb_lt; unfold u64_MAX in Hcreated; lia).
    rewrite andb_true_r. by vm_compute. }
  eexists. split; [unfold Model.encode; by rewrite Hfits|].
  erewrite Model.encode_length; [done|]. unfold Model.encode. by rewrite Hfits.
Qed.

Lemma publication_is_found_witness :
  free_place (shard example_cache PlanEntries Example.key) Example.key Example.empty_root 0 /\
  exists calls w' e p,
    run 7 (fun _ => Example.calm 1000000) (publish_bytes Model.sha Model.encode Model.decode 3 example_cache
      PlanEntries Example.key Example.compat [Byte.x01; Byte.x02]) 0 calls Example.empty_root =
      (Some (Ok (Published e)), w') /\ handle_inode (payload e) = Some p /\ inode_bytes w' p = [Byte.x01; Byte.x02].
Proof.
  split; [exact example_free|].
  destruct (publication_is_found Model.sha Model.encode Model.decode 3 7 example_cache PlanEntries Example.key
    Example.compat [Byte.x01; Byte.x02] Example.empty_root 0) with (oracles := fun _ : nat => Example.calm 1000000)
    as (calls & w' & e & p & Hrun & Hp & _ & Hbytes & _).
  - exact Model.codec.
  - exact example_free.
  - vm_compute. discriminate.
  - simpl. lia.
  - vm_compute. discriminate.
  - exact example_encodable.
  - exact example_calm.
  - exists calls, w', e, p. split; [exact Hrun|]. split; [exact Hp|exact Hbytes].
Defined.
