(* ===== verification/MaterializeTheorems.v ===== *)
(** * Properties of materialization *)

From S2P Require Import Prelude Errors Cancel Pipeline PipelineRun PipelineSpecs PipelineOrder PipelineProgress.
From S2P Require Import PipelineDelivery FileSystem Tensor.
From S2P Require Import Identity Order Limits Quantization Inventory Kernels Json Gguf Checkpoint.
From S2P Require Import CheckpointSpecs DigestSpecs PlannerSpecs PlannerBuild.
From S2P Require Import Representation Operation Graph Liveness Prepare Exec Recipe Plan Overlay Planner Cache Work.
From S2P Require Import CacheSpecs CachePublish CacheCalm CacheSolo Materialize MaterializeSpecs MaterializeRun MaterializeInputs.
From S2P Require Import BaseTheorems PrepareTheorems PipelineTheorems CheckpointTheorems PlannerTheorems CacheTheorems.
From stdpp Require Import gmap.
From Stdlib Require Strings.String.
Local Open Scope N_scope.

(** ** Execution *)

Section Execution.
Context (sha256 : bytes -> bytes) (to_vec : CacheEnvelope -> option bytes).
Context (from_slice : bytes -> option CacheEnvelope) (rounds : nat).
Context (write_json : MaterializePayload -> result bytes) (overlay_json : OverlayPayload -> result bytes).
Context (mmap avx2 : bool) (m : Materializer).

Local Notation delivers := (delivered sha256 write_json overlay_json avx2 m).

End Execution.

(** ** Completion *)

Section Completion.
Context (sha256 : bytes -> bytes) (to_vec : CacheEnvelope -> option bytes).
Context (from_slice : bytes -> option CacheEnvelope) (rounds : nat).
Context (write_json : MaterializePayload -> result bytes) (overlay_json : OverlayPayload -> result bytes).
Context (mmap avx2 : bool) (m : Materializer).

Context (answer : N -> forall B, Prog B -> nat -> result B) (envs : N -> Env) (checkpoints : N -> Checkpoint).

Local Notation callback :=
  (binding_callback sha256 to_vec from_slice rounds write_json overlay_json mmap avx2 answer envs checkpoints m).

Local Notation binding_result :=
  (binding_result sha256 to_vec from_slice rounds write_json overlay_json mmap avx2 m answer envs checkpoints).

(** C4: without a cache, when nothing is cancelled, every binding can be delivered
    by itself and the sink accepts the deliveries, every interleaving of the threads
    stops only after delivering all of them in the order of the plan: what a binding
    reserves is enough for the waits of its callback and for its result. *)
Theorem execute_completes limits sink env t work t1 sorted t2 results s
  (Hcheckpoint : checkpoint_ok (checkpoint m)) (Hlimits : limits_ok limits)
  (Hanswer : forall n B (p : Prog B) k, possible p (answer n B p k))
  (Hcheckpoints : forall n, same_checkpoint (checkpoint m) (checkpoints n))
  (Hcache : cache m = None)
  (Hwork : work_items sha256 write_json overlay_json mmap m limits env t = Ok (work, t1))
  (Hadmit : admit_work limits work env t1 = Ok (sorted, t2)) (Hne : sorted <> [])
  (Hresults : Forall2 binding_result (enumerate (plan_bindings (plan m))) results)
  (Haccepts : PipelineDelivery.accepts sink sorted results)
  (Hs : rtc (thread_step limits callback sink (map Pipeline.ordinal sorted))
          (start limits (map Pipeline.ordinal sorted) sorted) s) :
  (exists s', thread_step limits callback sink (map Pipeline.ordinal sorted) s s') \/
  finished s (inl tt) /\
  PipelineRun.delivered (ledger s) = zip (map N.of_nat (seq 0 (length (plan_bindings (plan m))))) results.
Proof using Type.
  apply work_items_Ok in Hwork as [Hitems _]. apply admit_work_Ok in Hadmit as [[_ _ Hnd Hadm] ->].
  pose proof (items_in_order _ _ _ _ _ _ _ Hitems) as Hord.
  pose proof (items_ordinals _ _ _ _ _ _ _ _ Hitems) as Hw. rewrite enumerate_indices in Hw.
  assert (merge_sort ordinal_le work = work) as Hsort.
  { apply items_unique; [apply merge_sort_Permutation|done|]. by rewrite Hord, Hw. }
  rewrite Hsort in *. rewrite <-Hw.
  assert (Forall2 (prepares callback) work results) as Hp by (by eapply bindings_prepare).
  destruct (run_healthy limits callback sink work results Hp Hnd Haccepts Hlimits Hne Hadm s Hs) as [Hsound Hh].
  by apply (healthy_end limits callback sink work results Hp Hnd Haccepts Hlimits Hne Hadm).
Qed.
End Completion.

(** ** Opening *)

(** C10: a materializer is made exactly for a plan whose source digests are those of
    the files of the checkpoint and whose sources are its tensors, with their shapes
    and places; it keeps the files, the plan and the engine, and starts without a
    cache or an overlay. Over readable files that have not changed and sizes that can
    be added, only a plan that does not match is an error, unless it is interrupted. *)
Theorem materializer_new_exact sha256 c p engine
    (Hc : checkpoint_ok c) (Hs : settled sha256 c) (Hnames : NoDup (plan_names p)) :
  wp (Materializer_new sha256 c p engine) (fun r =>
    match r with
    | Ok m => plan_matches sha256 c p /\ same_checkpoint c (checkpoint m) /\ plan m = p /\
        preparation m = engine /\ cache m = None /\ cache_validation m = FullValidation /\ overlay m = None /\
        operation_execution m = HostExecuted
    | Err _ => digest_sizes (open_files c) <= u64_MAX -> Forall (digestible sha256) (open_files c) ->
        ~ plan_matches sha256 c p
    | Panic => False
    end).
Proof.
  destruct Hs as [Hq Hd _]. pose proof (checkpoint_files c Hc) as Hw. pose proof (checkpoint_inventory c Hc) as Hi.
  unfold Materializer_new. apply wp_bind. eapply wp_mono; [apply pending_digest_spec|].
  intros [_|e|]; [|lia|done]. intros _. unfold Checkpoint.source_digests. apply wp_bind, wp_bind.
  eapply wp_mono; [by apply content_digests_spec|]. intros [[ds fs']|e|]; [|by intros Hno _ ?|done].
  intros Hds. apply wp_ret. destruct (Forall3_digested _ _ _ _ Hds Hw Hq) as (Hm & Hw' & _ & _ & Hrec & Hsame).
  assert (same_checkpoint c (set_files fs' c)) as Hcc.
  { split; [|by split_and!]. destruct Hc. split; [done| |done]. cbn [set_files inventory open_files]. by rewrite Hrec. }
  apply wp_bind, wp_lift. case_bool_decide as He; cbn [negb reject].
  2: { intros _ _ [Hm' _]. apply He. clear -Hm Hm'. revert Hm'. generalize (source_digests (plan_inputs p)).
       induction Hm as [|f d fs ds Hf _ IH]; intros ds' H; inversion H; subst; [done|].
       f_equal; [by eapply digest_matches_unique|by apply IH]. }
  subst ds. apply wp_bind. eapply wp_mono; [by apply validate_complete_spec|]. cbv zeta.
  intros [_|e|]; [|by intros Hno _ _ [_ [Hp _]]|done]. intros Hp.
  apply wp_bind. eapply wp_mono.
  { apply (wp_check_each _ (fun b => Forall (listed (inventory c)) (binding_sources b))). apply Forall_forall.
    intros b _. by apply validate_inventory_binding_spec. }
  intros [_|e|]; [|by intros Hno _ _ [_ [_ Hb]]|done]. intros Hb.
  apply wp_bind, wp_check, wp_ret. by split_and!.
Qed.

(** ** Cache addresses *)

(** C11: two prepared bindings have one address in the cache only when they have the
    same contract, the same overlay digest, backend and sources, whose files have the
    same digests, unless they show a collision of SHA-256: an entry is never found
    for a binding whose bytes would be prepared in another way. *)
Theorem prepared_address_identifies sha256 write_json p b o p' b' o' a
    (Hj : json_texts write_json) (Hsha : forall x, length (sha256 x) = 32%nat)
    (Ho : forall d, o = Some d -> digest_wf d) (Ho' : forall d, o' = Some d -> digest_wf d)
    (Hp : digest_wf (backend_digest (plan_backend (plan_inputs p))))
    (Hp' : digest_wf (backend_digest (plan_backend (plan_inputs p'))))
    (Hname : fits_u128 (String.list_byte_of_string (tensor_name (target_name (binding_target b)))))
    (Hname' : fits_u128 (String.list_byte_of_string (tensor_name (target_name (binding_target b')))))
    (Ha : computes (cache_address_for_binding sha256 write_json p b o) (Some a))
    (Ha' : computes (cache_address_for_binding sha256 write_json p' b' o') (Some a)) :
  (b = b' /\ o = o' /\ plan_backend (plan_inputs p) = plan_backend (plan_inputs p') /\
   Forall (same_content p p') (binding_sources b)) \/
  exists x y, x <> y /\ sha256 x = sha256 y.
Proof.
  apply cache_address_Ok in Ha as (j & c & Hjs & Hc & Hcomp & Hkey).
  apply cache_address_Ok in Ha' as (j' & c' & Hjs' & Hc' & Hcomp' & Hkey').
  assert (compatibility_fits (address_compatibility a)) as Hfit.
  { rewrite Hcomp. split_and!; [done| |].
    - unfold fits_u128. cbn. by rewrite Hsha.
    - intros abi [= <-]. unfold fits_u128. by rewrite Hp. }
  rewrite Hcomp in Hcomp'. injection Hcomp' as Htr Hb.
  assert (fits_u128 (digest_bytes c) /\ fits_u128 (digest_bytes c')) as [Hfc Hfc'].
  { apply binding_source_content_Ok in Hc as (? & ? & _ & _ & ->), Hc' as (? & ? & _ & _ & ->).
    unfold fits_u128. cbn. by rewrite !Hsha. }
  assert (fits_u128 (contract_bytes j o) /\ fits_u128 (contract_bytes j' o')) as [Hfj Hfj'].
  { split; by eapply contract_fits. }
  rewrite Hkey in Hkey'. apply cache_key_inj in Hkey' as [(_ & _ & Hids)|Hcol];
    [|by right|done|done|by repeat constructor..].
  injection Hids as Hcc _. apply (f_equal from_bytes) in Hcc. rewrite !digest_eta in Hcc. subst c'.
  apply (f_equal from_bytes) in Htr.
  change (digest_hash sha256 (domain "prepared-binding-contract-v2") [contract_bytes j o] =
    digest_hash sha256 (domain "prepared-binding-contract-v2") [contract_bytes j' o']) in Htr.
  apply digest_hash_inj in Htr as [[_ [= Htr]]|Hcol]; [|by right|done|done|by repeat constructor..].
  apply contract_bytes_inj in Htr as [<- <-]; [|by eapply texts_printed..|done|done].
  pose proof (texts_inj write_json Hj _ _ _ Hjs Hjs') as [= Ht].
  destruct (source_content_identifies sha256 write_json p b p' b' c Hj Hc Hc') as [[Hs Hcont]|Hcol]; [|by right].
  left. split_and!; [|done| |done].
  - destruct b, b'; simpl in *; congruence.
  - destruct (plan_backend (plan_inputs p)), (plan_backend (plan_inputs p')); simpl in *; congruence.
Qed.

(** ** What was published is found *)



(** ** A small checkpoint and its plan *)

Module Sample.
Import CacheTheorems.Model.

Definition sources : list SourceTensor :=
  map (fun r => {| source_name := demo_name (record_name r); source_shape := record_shape r;
                   source_storage := record_storage r |}) (tensors small_inventory).

Definition digest_of (bs : bytes) : ContentDigest := from_bytes (sha bs).
Definition inputs : PlanInputs := {|
  manifest := {| manifest_digest := digest_of [] |}; selection := {| selection_digest := digest_of [] |};
  contract := {| contract_digest := digest_of [] |}; plan_backend := {| backend_digest := digest_of [] |};
  source_digests := [digest_of small_safetensors] |}.

(** Two bytes as floats, and a packed tensor as it is. *)
Definition floats : TargetTensor := {|
  target_name := demo_name "a"; target_aliases := []; requirement := Required; target_source_shape := [2];
  target_shape := [2]; target_storage_shape := [2]; target_logical_strides := [1]; target_storage_strides := [1];
  target_representation := Representation_contiguous F32;
  transforms := [PlannedTransform_new (Representation.transform bytes_to_floats) 8];
  operation_graph := None; quantized_route := None; conversion_recipe := None; target_output_size := 8;
  shared_source_group := None |}.
Definition packed : TargetTensor := {|
  target_name := demo_name "b"; target_aliases := []; requirement := Required; target_source_shape := [3; 4];
  target_shape := [3; 4]; target_storage_shape := [3; 4]; target_logical_strides := [4; 1];
  target_storage_strides := [4; 1]; target_representation := Representation_contiguous U8; transforms := [];
  operation_graph := None;
  quantized_route := Some {|
    source_encoding := {| provider := {| stable_name := "safetensors" |}; operation := {| stable_name := "f4" |};
                          version := 1 |};
    route := PackedDirect; capability_implementation := contiguous_cast; backend := Some (plan_backend inputs);
    target_layout := None |};
  conversion_recipe := None; target_output_size := 6; shared_source_group := None |}.

Definition builder : PlanBuilder := {|
  builder_inputs := inputs; builder_sources := sources; builder_targets := [packed; floats];
  builder_policy := RejectExtra |}.
Definition sample_plan : BindingPlan :=
  match PlanBuilder_build (fun _ => true) sha demo_writer builder with Ok p => p | _ => demo_plan end.

Definition materializer : Materializer :=
  {| checkpoint := small_checkpoint Read; plan := sample_plan; preparation := builtin_engine; cache := None;
     cache_validation := FullValidation; overlay := None; operation_execution := HostExecuted |}.
Definition cached : Materializer :=
  with_cache {| cache_root := Example.root; options := CacheOptions_default |} materializer.

Definition write_json (v : MaterializePayload) : result bytes :=
  Ok match v with
     | TargetPayload t => String.list_byte_of_string (tensor_name (target_name t))
     | SourcesPayload _ => []
     end.
Definition overlay_json (v : OverlayPayload) : result bytes := Ok [].

(** A program runs alone, from the same files. *)
Definition alone (n : N) (B : Type) (p : Prog B) (k : nat) : result B :=
  default (Err Cancelled) (fst (run 1 (fun _ => Example.calm 1000000) p 0 200 Example.empty_root)).

Lemma alone_possible n B (p : Prog B) k : possible p (alone n B p k).
Proof.
  unfold alone. destruct (run _ _ p _ _ _) as [[r|] w] eqn:E; simpl; [|by intros ?].
  by eapply may_return_possible, run_may_return.
Qed.

Definition items (m : Materializer) : list (WorkItem Binding) * nat :=
  match work_items sha write_json overlay_json true m small_limits still_env 0%nat with Ok w => w | _ => ([], 0%nat) end.
Definition callback (m : Materializer) : N -> Binding -> Callback (Handover (handed := handed)) :=
  binding_callback sha encode decode 10 write_json overlay_json true true alone (fun _ => still_env)
    (fun _ => small_checkpoint Read) m.
Definition any_sink (d : list (N * PreparedItem (Handover (handed := handed)))) (n : N)
    (p : PreparedItem (Handover (handed := handed))) : unit + ErrorCategory := inl tt.

(** The bytes of a delivery. *)
Definition payload_of (o : Outcome (Handover (handed := handed))) : option bytes :=
  match o with
  | inl p =>
      match taken HandsDelivery (fst (prepared_value p)) with
      | Some (Prepared w) => Some (as_slice (weight_bytes w))
      | Some (QuantizedDelivery h) => Some (as_slice (quantized_payload h))
      | _ => None
      end
  | inr _ => None
  end.

Example items_admitted :
  map (fun i => (Pipeline.ordinal i, resources i)) (fst (items materializer)) =
    [(0, ResourceWeights_new 2 0 8); (1, ResourceWeights_new 6 0 6)] /\
  map (fun i => (Pipeline.ordinal i, resources i)) (fst (items cached)) =
    [(0, ResourceWeights_new 0 0 8); (1, ResourceWeights_new 6 0 6)].
Proof. by vm_compute. Qed.

Example payloads :
  map (fun i => payload_of (outcome_of (callback materializer (Pipeline.ordinal i) (value i)))) (fst (items materializer)) =
  [Some [Byte.x00; Byte.x00; Byte.x82; Byte.x42; Byte.x00; Byte.x00; Byte.x82; Byte.x42];
   Some (String.list_byte_of_string "BBBBBB")].
Proof. by vm_compute. Qed.

Lemma materializer_files : checkpoint_ok (checkpoint materializer) /\
  forall n : N, same_checkpoint (checkpoint materializer) (small_checkpoint Read).
Proof.
  pose proof (small_checkpoint_ok Read) as H. split; [exact H|]. intros _. by apply same_checkpoint_refl.
Qed.

Lemma work_sample m :
  m = materializer \/ m = cached ->
  work_items sha write_json overlay_json true m small_limits still_env 0%nat = Ok (items m).
Proof. intros [->| ->]; vm_compute; reflexivity. Qed.

Lemma admit_sample m :
  m = materializer \/ m = cached ->
  admit_work small_limits (fst (items m)) still_env (snd (items m)) = Ok (fst (items m), (snd (items m) + 7)%nat).
Proof. intros [->| ->]; vm_compute; reflexivity. Qed.

Definition result_of (entry : nat * Binding) : option (PreparedItem (Handover (handed := handed))) :=
  match outcome_of (callback materializer (N.of_nat (fst entry)) (snd entry)) with inl p => Some p | inr _ => None end.
Definition results : list (PreparedItem (Handover (handed := handed))) :=
  omap result_of (enumerate (plan_bindings sample_plan)).

Lemma results_made :
  Forall2 (binding_result sha encode decode 10 write_json overlay_json true true materializer alone
    (fun _ => still_env) (fun _ => small_checkpoint Read)) (enumerate (plan_bindings sample_plan)) results.
Proof.
  assert (forallb (fun e => is_some (result_of e)) (enumerate (plan_bindings sample_plan)) = true) as H by (by vm_compute).
  unfold results. induction (enumerate (plan_bindings sample_plan)) as [|[i b] l IH]; [constructor|].
  cbn [forallb] in H. apply andb_true_iff in H as [Hb Hl]. cbn [omap list_omap].
  destruct (result_of (i, b)) as [p|] eqn:E; [|done]. constructor; [|by apply IH].
  apply callback_result. unfold result_of in E. cbn [fst snd] in E.
  change (outcome_of (callback materializer (N.of_nat i) b) = inl p).
  destruct (outcome_of (callback materializer (N.of_nat i) b)); [by injection E as ->|done].
Qed.

(** A run that ends. *)
Lemma sample_runs :
  exists s, rtc (thread_step small_limits (callback materializer) any_sink (map Pipeline.ordinal (fst (items materializer))))
      (start small_limits (map Pipeline.ordinal (fst (items materializer))) (fst (items materializer))) s /\
    finished s (inl tt).
Proof.
  pose proof materializer_files as [Hc Hs].
  pose proof (work_sample materializer (or_introl eq_refl)) as Hw. rewrite (surjective_pairing (items materializer)) in Hw.
  apply work_items_Ok in Hw as [Hi _].
  pose proof (admit_sample materializer (or_introl eq_refl)) as Ha. apply admit_work_Ok in Ha as [[_ _ Hnd Hadm] _].
  destruct (completed_run small_limits (callback materializer) any_sink (fst (items materializer)) results) as (s & Hr & Hf & _);
    [|exact Hnd|by intros k n p _|exact small_limits_ok| |exact Hadm|by exists s].
  { exact (bindings_prepare sha encode decode 10 write_json overlay_json true true materializer alone
    (fun _ => still_env) (fun _ => small_checkpoint Read) small_limits _ _ _ Hc Hs alone_possible eq_refl Hi results_made). }
  intros E. apply (f_equal length) in E. revert E. by vm_compute.
Qed.
(** *** With a cache that is still empty *)

Definition binding_at (i : nat) : Binding :=
  default {| binding_sources := []; binding_target := floats |} (plan_bindings sample_plan !! i).

Lemma cold_items : fst (items cached) = [first_item (binding_at 0); second_item (binding_at 1)].
Proof. by vm_compute. Qed.

Lemma cold_outcomes :
  Forall (fun i => exists p, outcome_of (callback cached (Pipeline.ordinal i) (value i)) = inl p) (fst (items cached)).
Proof.
  apply Forall_forall. intros i Hi.
  assert (forallb (fun i => is_some (payload_of (outcome_of (callback cached (Pipeline.ordinal i) (value i)))))
    (fst (items cached)) = true) as H by (by vm_compute).
  rewrite forallb_forall in H. specialize (H i ltac:(by apply list_elem_of_In)).
  destruct (outcome_of _) as [p|]; [by exists p|done].
Qed.

(** The first binding finds nothing, and asks for the bytes of its source. *)
Lemma cold_callback :
  exists operation k, callback cached 0 (binding_at 0) = WithResources (ResourceWeights_new 2 0 8) operation k.
Proof.
  assert (match callback cached 0 (binding_at 0) with
          | WithResources required _ _ => bool_decide (required = ResourceWeights_new 2 0 8)
          | _ => false
          end = true) as H by (by vm_compute).
  destruct (callback cached 0 (binding_at 0)) as [| |required operation k]; [done..|].
  apply bool_decide_eq_true in H as ->. eauto.
Qed.

End Sample.

(** C40: with a cache, a run can wait for good: a binding whose entry is missing
    waits for the bytes of its source, all of which a binding queued behind it on
    the only worker holds, although every binding can be delivered by itself. *)
Theorem cold_cache_deadlock :
  exists (work : list (WorkItem Binding)) t s,
    work_items Model.sha Sample.write_json Sample.overlay_json true Sample.cached small_limits still_env 0%nat =
      Ok (work, t) /\
    (exists t', admit_work small_limits work still_env t = Ok (work, t')) /\
    Forall (fun i => exists p, outcome_of (Sample.callback Sample.cached (Pipeline.ordinal i) (value i)) = inl p) work /\
    rtc (thread_step small_limits (Sample.callback Sample.cached) Sample.any_sink (map Pipeline.ordinal work))
      (start small_limits (map Pipeline.ordinal work) work) s /\
    (forall s', ~ thread_step small_limits (Sample.callback Sample.cached) Sample.any_sink (map Pipeline.ordinal work) s s') /\
    starving small_limits s /\ (forall outcome, ~ finished s outcome) /\ PipelineRun.delivered (ledger s) = [].
Proof.
  destruct Sample.cold_callback as (operation & k & Hk).
  exists (fst (Sample.items Sample.cached)), (snd (Sample.items Sample.cached)), (waiting_state (Sample.binding_at 1) operation k).
  split; [rewrite Sample.work_sample by auto; by destruct (Sample.items Sample.cached)|].
  split; [eexists; by apply Sample.admit_sample; auto|]. split; [exact Sample.cold_outcomes|].
  rewrite Sample.cold_items. split; [by apply waiting_reachable|]. split; [apply waiting_stops|apply waiting_starves].
Qed.

(** ** Witnesses *)



Lemma execute_completes_witness :
  exists s : PipelineRun.State Binding (Handover (handed := handed)), finished s (inl tt) /\ PipelineRun.delivered (ledger s) = zip [0; 1] Sample.results.
Proof.
  destruct Sample.sample_runs as (s & Hr & Hf). exists s. split; [exact Hf|].
  destruct (execute_completes Model.sha Model.encode Model.decode 10 Sample.write_json Sample.overlay_json true true
    Sample.materializer Sample.alone (fun _ => still_env) (fun _ => small_checkpoint Read) small_limits Sample.any_sink
    still_env 0%nat (fst (Sample.items Sample.materializer)) (snd (Sample.items Sample.materializer))
    (fst (Sample.items Sample.materializer)) _ Sample.results s (proj1 Sample.materializer_files) small_limits_ok
    Sample.alone_possible (proj2 Sample.materializer_files) eq_refl
    (eq_trans (Sample.work_sample Sample.materializer (or_introl eq_refl)) (f_equal Ok (surjective_pairing _)))
    (Sample.admit_sample Sample.materializer (or_introl eq_refl))) as [[s' Hs']|[_ Hd]].
  - intros Hnil. apply (f_equal length) in Hnil. revert Hnil. by vm_compute.
  - exact Sample.results_made.
  - by intros k n p _.
  - exact Hr.
  - exfalso. by eapply finished_stops.
  - exact Hd.
Defined.

Lemma materializer_new_exact_witness :
  exists m t, Materializer_new Model.sha (small_checkpoint Read) Sample.sample_plan builtin_engine still_env 0%nat = Ok (m, t) /\
    plan_matches Model.sha (small_checkpoint Read) Sample.sample_plan /\ plan m = Sample.sample_plan.
Proof.
  assert (settled Model.sha (small_checkpoint Read)) as Hs
    by (split; cbn; [by repeat constructor|by repeat constructor|done]).
  assert (NoDup (plan_names Sample.sample_plan)) as Hn by (apply (bool_decide_unpack _); by vm_compute).
  pose proof (materializer_new_exact Model.sha (small_checkpoint Read) Sample.sample_plan builtin_engine
    (small_checkpoint_ok Read) Hs Hn still_env 0%nat) as H.
  assert (match Materializer_new Model.sha (small_checkpoint Read) Sample.sample_plan builtin_engine still_env 0%nat with
          | Ok _ => true | _ => false end = true) as Hok by (by vm_compute).
  destruct (Materializer_new _ _ _ _ _ _) as [[m t]|e|]; [|done..]. exists m, t. split; [done|].
  destruct H as [_ (Hm & _ & Hp & _)]. by split.
Defined.

#[export] Instance OrderedSourceIdentity_eq_dec : EqDecision OrderedSourceIdentity.
Proof. solve_decision. Defined.
#[export] Instance MaterializePayload_eq_dec : EqDecision MaterializePayload.
Proof. solve_decision. Defined.

(** A writer that knows two values. *)
Definition sample_identities : MaterializePayload :=
  SourcesPayload (map (fun s => {| identity_source := s; identity_digests := [(0, Sample.digest_of small_safetensors)] |})
    (binding_sources (Sample.binding_at 0))).
Definition sample_writer (v : MaterializePayload) : result bytes :=
  if decide (v = TargetPayload Sample.floats) then Ok [Byte.x7b]
  else if decide (v = sample_identities) then Ok [Byte.x5b] else Err InvalidFormat.

Lemma sample_texts : json_texts sample_writer.
Proof.
  split; unfold sample_writer; [intros v v' bs|intros v bs..]; repeat case_decide; try done; try congruence.
  - intros [= <-]. by intros ?%list_elem_of_singleton.
  - intros [= <-]. by intros ?%list_elem_of_singleton.
  - by intros [= <-].
  - by intros [= <-].
Qed.

Lemma prepared_address_identifies_witness :
  exists a, computes (cache_address_for_binding Model.sha sample_writer Sample.sample_plan (Sample.binding_at 0) None) (Some a) /\
    (Forall (same_content Sample.sample_plan Sample.sample_plan) (binding_sources (Sample.binding_at 0)) \/
     exists x y, x <> y /\ Model.sha x = Model.sha y).
Proof.
  assert (exists a, computes (cache_address_for_binding Model.sha sample_writer Sample.sample_plan (Sample.binding_at 0) None) (Some a)) as [a Ha].
  { assert (match cache_address_for_binding Model.sha sample_writer Sample.sample_plan (Sample.binding_at 0) None still_env 0%nat with
            | Ok (Some _, _) => true | _ => false end = true) as H by (by vm_compute).
    destruct (cache_address_for_binding _ _ _ _ _ _ _) as [[[a|] t]|e|] eqn:E; [|done..]. exists a. by do 3 eexists. }
  exists a. split; [exact Ha|].
  assert (forall d, @None ContentDigest = Some d -> digest_wf d) as Hnone by done.
  destruct (prepared_address_identifies Model.sha sample_writer Sample.sample_plan (Sample.binding_at 0) None
    Sample.sample_plan (Sample.binding_at 0) None a sample_texts) as [(_ & _ & _ & H)|H]; try done.
  - intros x. unfold Model.sha. rewrite length_take, length_app, length_replicate. lia.
  - by left.
  - by right.
Defined.











